(* ===== verification/_CoqProject ===== *)
-Q . S2P
Prelude.v
StringOrder.v
Bytes.v
Sha256.v
GoTime.v
Calendar.v
Atomics.v
Closed.v
Vocabulary.v
Digests.v
Hierarchy.v
HierarchyProps.v
Identity.v
Json.v
JsonParse.v
Resource.v
ResourceProps.v
ResourceText.v
Isolation.v
Codes.v
AuthzVocabulary.v
Authorization.v
Receipt.v
AuthorizationProps.v
DecisionProps.v
TargetProps.v
Condition.v
Control.v
Model.v
Rejection.v
Raw.v
Schema.v
WriteAdmission.v
WriteAdmissionProps.v
Operation.v
OperationProps.v
Credential.v
CredentialProps.v
BrokerState.v
Broker.v
BrokerWalk.v
BrokerInvariant.v
BrokerCore.v
BrokerSections.v
BrokerLeases.v
BrokerProps.v
JsonMembers.v
Readers.v
Queue.v
Plan.v
PlanProps.v
Lease.v
LeaseSpec.v
Attempt.v
LeaseProps.v
AttemptProps.v
Observation.v
ObservationProps.v
Admission.v
Planning.v
AdmissionProps.v
PlanningProps.v
Delivery.v
Idempotency.v
IdempotencyProps.v
Launch.v
LaunchProps.v
Administration.v
AdministrationProps.v
AdministrationTargets.v
AuditVocabulary.v
AuditEvent.v
AuditChain.v
AuditElevationProps.v
AuditEventProps.v
AuditChainProps.v
AuditSegmentProps.v
AuditExport.v
AuditExportProps.v
