(* ===== verification/Prelude.v ===== *)
(** * Veer control-plane domain: verification development

    Veer is a multi-tenant control plane written in Go.  Its core packages are
    under [src/internal/core/domain], its services under
    [src/internal/core/service].  This library is a shallow embedding of those
    listed here, with the theorems that make them correct:

    - [reconciliation]: the types and rules by which workers turn an accepted
      operation into provider calls under at-least-once delivery, crashes,
      clock regressions and lost replies;
    - [operation]: the record and state machine of one accepted mutation;
    - [resource]: the envelope every resource is stored in, its revisions and
      its canonical JSON;
    - [condition] and [control]: what a resource reports of itself (conditions,
      cost estimates, the control plane's view of a provider);
    - [hierarchy]: the ownership tree of the resources of a workspace;
    - [isolation] and the reference store ([src/internal/adapters/store/memory]):
      explicit workspace scopes, views and copy-on-write updates;
    - [identity] and [authentication]: people and workloads, and the evidence of
      one authentication;
    - [authorization]: who may do what to which resource of the tree;
    - [model] with [model/v1alpha1] and [admission]: what a submitted document
      may say, its normal form, and the stages that accept or reject it;
    - [administration]: one-use privileged elevation of a configured
      administrator;
    - [credential] and [service/credentialbroker]: sealed requests for provider
      authority, secret material, and the broker that issues, shares, rotates
      and revokes sessions;
    - [audit]: the events all of the above leave, their hash chain, its segments
      and checkpoints, signed export and retention.

    Names are the source's; a method [T.M] is [T_M] and the field [f] of a
    struct [T] is [xx_f] with a short prefix per struct.

    ** How the program works

    A plan ([plan.go]) fixes the identity of one reconciliation.  Queued work
    for it is identified by a work key ([digest.go]).  A worker leases the
    resource lineage ([lease.go]) and receives a token with a fence that only
    grows.  To call a provider it asks for an admission ([admission.go]), which
    passes the retry, generation, compensation and observation gates, prepares
    an attempt from it ([attempt.go]), authorises a dispatch with the lease
    table and marks the attempt dispatched.  The attempt is then resolved, or
    recovered after a crash ([model.go]); what stays indeterminate is observed
    within an observation budget ([model.go]).  When evidence changes, a new
    plan supersedes or compensates the old one over settled truth
    ([planning.go]).  Duplicate deliveries ([model.go]), HTTP retries
    ([idempotency.go]) and the queue request bill ([queue.go]) have a ledger
    each.

    A request is authorized before any of this.  The caller is a principal
    ([identity.go]); the resource is looked up in a snapshot of the workspace's
    tree ([hierarchy.go]), from which a target is sealed with its environment
    ([target.go]); the policies of the workspace are compiled over its members
    ([membership.go], [policy.go], [policy_set.go]) and evaluated on principal,
    action and target ([evaluator.go], [matrix.go]).  The decision's policy
    version and input digest are what a plan later records.  The decision opens
    an operation ([operation.go]), which later calls move through its state
    machine one version at a time, each with a fresh decision receipt.

    What a caller submits is first admitted (package [admission]): the schema and
    semantic stages read the document, the immutable and reference stages compare
    it with what is retained, the default and conversion stages give its normal
    form.  The result is a write to a resource envelope ([resource.go]), which
    advances its generation exactly when the desired state changes, and is stored
    as canonical text in its workspace's part of the store ([store.go]).

    A worker that calls a provider needs a credential.  A request is sealed from
    the operation, its target, the connection and the tree ([request.go]); the
    broker ([broker.go], [source.go], [session.go], [rotation.go],
    [lifecycle.go]) resolves the source material once per connection and
    generation, issues one session per binding however many callers wait for it,
    lends it under counted leases, and withdraws it when the connection is
    revoked, the operation ends or the broker closes.

    An administrator who needs more than a role grants obtains an elevation
    ([administration]): a grant for one action on one sealed target, issued once
    per strong-authentication proof, spent once.  Elevations, decisions and
    operation transitions become audit events ([event.go]), which are appended
    to a per-workspace hash chain ([chain.go]), verified in segments, and
    exported under a signature ([export.go]).

    ** Files

    - [Prelude]: results, the error-and-state monad [ST] with [reject], the
      inversion tactics ([run_inv], [run_ok]), sums over finite maps.
    - [StringOrder]: byte order of strings, sorting and compaction.  [Closed]:
      the class of the closed string vocabularies and their parser.
    - [Bytes], [Sha256], [GoTime], [Calendar], [Atomics]: the Go
      standard library as the sources use it.  Strings are byte strings;
      base64, big-endian integers, UTF-8 validity and SHA-256 are executable;
      an instant is nanoseconds since year 1, printed and read as RFC 3339;
      atomic flags and counters live in a heap of cells, so that copies of a
      capability alias.
    - [Json] (the printer of [encoding/json] on the wire structs), [JsonParse]
      (its reader and the proof that it inverts the printer), [JsonMembers]
      (reading a struct's members back).
    - [Hierarchy]: [hierarchy.go].  [Identity]: [identity.go].
      [AuthzVocabulary]: [vocabulary.go], [matrix.go] and [errors.go] of
      [authorization].  [Codes]: its uniquely decodable hash input.
      [Authorization]: [target.go], [membership.go], [policy.go],
      [policy_set.go], [evaluator.go].  [Receipt]: [canonical.go].  Theorems:
      [HierarchyProps], [AuthorizationProps] (members, compiled bindings),
      [DecisionProps] (policy sets and decisions), [TargetProps].
    - [Condition], [Control], [Operation]: [condition.go], the files of
      [control], [operation.go]; [Readers]: the canonical readers of operations
      and decisions.
    - [Resource]: [resource.go] and [canonical.go] of [resource];
      [ResourceProps]: histories of writes; [ResourceText]: the reader of the
      canonical text and the round trip.
    - [Isolation]: [scope.go] and the reference store's [store.go].
    - [Model]: the files of [model] and [model/v1alpha1].  [Rejection]:
      [error.go] of [admission] and the candidate set of [schema_candidates.go].
      [Raw]: [raw.go].  [Schema]: [number.go], [schema_candidates.go] and
      [schema.go].  [WriteAdmission]: [semantic.go] and [admission.go];
      [WriteAdmissionProps].
    - [Credential]: requests, digests, material and sessions of [credential];
      [CredentialProps].
    - [BrokerState]: the broker's state and the helpers that run under its lock
      ([types.go], [state.go]); [Broker]: the locked sections of every method,
      and [broker_event] and [run], the histories that interleave them.
      [BrokerWalk] is the calculus of sections, [BrokerInvariant], [BrokerCore]
      and [BrokerSections] the invariant and its preservation, [BrokerLeases] the
      lease count, [BrokerProps] the theorems.
    - [Vocabulary]: [vocabulary.go], [errors.go].  [Digests]: [digest.go],
      [safety.go].  [Plan]: [evidence.go], [provider.go], [effect.go],
      [plan.go].  [Queue]: [queue.go].  [Lease]: the table of [lease.go] and the
      replacement authorities of [planning.go].  [Attempt]: [attempt.go].
      [Observation]: recovery, budgets and retention of [model.go].
      [Admission]: [admission.go].  [Planning]: [planning.go].  [Delivery]: the
      ledger of [model.go].  [Idempotency]: [idempotency.go].  [Launch]: the
      functions of [reconciliation] that take an operation (the plan of an
      operation, dispatch under its decision, the scope of its idempotency
      key).
    - [Administration]: the package of that name and [authentication];
      [AdministrationTargets]: the elevation of targets.
    - [AuditVocabulary], [AuditEvent], [AuditChain], [AuditExport]: [audit].
    - [LeaseSpec] states the abstract protocol of a fenced lease and proves
      that each method refines it; the files [XProps] hold the theorems about
      [X] where [X] does not end with them; [PlanProps] begins with the concrete
      plan the witnesses use.

    ** Modelling decisions

    - A function returning [(T, error)] is a [result]; a method on shared state
      is an [ST] computation.  What a failing call changed before it returned
      the error stays changed, as in Go (the lease table records a newly
      observed time even when it then refuses the call).
    - A method that holds its mutex throughout is one atomic step, so a history
      is any sequence of calls with any arguments: [lease_call], [budget_call],
      [sys_call], [delivery_call], [queue_call] and the calls of the elevation
      ledger.  A broker's call that blocks or takes a lock more than once is cut
      into its locked sections ([Lease.Close] into the one under the lease's lock
      and the one under the broker's, [Lease.Use] into four); what the resolver,
      the budget and the issuer answer outside the lock is an argument of the next
      section.  Material and
      contexts a section destroys or cancels after it released the lock are
      queued in the state.  [Reserve] of the idempotency ledger takes its mutex three times;
      [idem_event] interleaves the three parts of concurrent calls.  The
      compare-and-swap loop of [ReleaseObservation] is one step: in a
      sequential history its first iteration decides.
    - A nil receiver or pointer behaves as an uninitialised value
      ([initialized = false]) or [None]; both are refused with the same error.
    - [net/url] is a parameter, the class [RequestURIs]: the issuer rules are
      stated over what the code reads of a parsed URI, and the witnesses use a
      parser of plain https origins.  The clock, the verifier of strong
      authentication and the verifier of export signatures are interfaces of
      the source and arguments of the model.
    - Objects shared by pointer (sessions, flights, leases, material buffers)
      live in heaps and are named by locations; the counters the broker reports
      ([Stats]) and the issuers' values influence nothing and are left out.
    - The typed encoding of a spec and a status is a parameter, the class
      [TypedJSON]: [encoding/json] at a Go struct type.
    - The tokens of [jsontext] and the decoding of [encoding/json], as far as the
      scan of a submitted document uses them, are executable ([Raw]).  The
      iterative walk over tokens is a descent over values in the order of the
      tokens; running out of fuel is an outcome of its own, and [scan_ends] shows
      that it never happens.  The first pass of the schema stage visits the
      members of a map in some order; it keeps the least candidate, so any order
      gives the same ([add_comm]).
    - The six functions over the six resource kinds are one function indexed by
      the kind, with the type of the spec or status as a family.  Defensive
      clones are identities on values.
    - The loop of the cycle check is [walk], which answers [None] when its fuel
      runs out, an outcome apart from every error; [cycle_check_exact] shows that
      the number of records is enough and more changes nothing.
    - A string type with constants is an inductive type with one more
      constructor for any other spelling.
    - Fixed-width integers are [Z], with the source's overflow guards; where a
      guard is missing the theorems bound the value.  Go maps are
      [gmap]s: no result depends on the iteration order of a map, except that
      reclamation deletes every row that qualifies.
    - [fmt.Errorf] keeps the sentinel error it wraps; messages are dropped.
    - A canonical reader decodes, rebuilds the value, prints it and compares
      with its input.  Text that [encoding/json] would accept in another
      spelling is refused by that comparison in Go and by the parser here, with
      the package's error for text that is not canonical.
    - Hash functions are never assumed injective: a theorem that needs it has
      the absence of a collision between its preimages as a hypothesis, or
      exhibits the collision in its conclusion.

    Other recursion is structural; the remaining fuel is the number of blocks in
    [sha256] (exact, [Sha256.sha_pad_blocks]), the bits of a root, the length of
    the text in the JSON parser (each step consumes a byte), twice that length
    and one in the scan of a submitted document (a value and its member each take
    a byte; [scan_ends]) and [MaxSegmentEvents + 1] in the loop that counts an
    export's records (the source stops there too).

    ** What the theorems show

    - Leases: fences identify owners; rows never go back; superseded tokens are
      dead; nobody takes over during a permitted provider call; capabilities are
      used once; [Acquire] is characterised; the table refines the protocol.
    - Attempts: forward life cycle, exact state machine, conservative recovery
      and maintenance, exact retry and generation gates, permits bound to one
      attempt.
    - Admission: an attempt is admitted exactly when every gate is passed, what
      is prepared is what was admitted, and only once.
    - Observation: budgets are linear and bounded, truth is never overwritten,
      retention is exact.
    - Planning: supersession over settled truth, complete and ordered
      compensation, exact next step.
    - Ledgers: deliveries accepted once per fence; completion final; request
      units conserved; idempotency windows disjoint, reservations not recycled.
    - Operations: an accepted transition follows the state machine and advances
      one version, terminal states are final, a dispatch needs the decision the
      operation was accepted with and a token of the current, live lease row; the
      canonical text reads back.
    - Hierarchy: a snapshot is exactly a tree; the cycle check ends and is exact
      for any iteration order; derivation and deletion keep the tree, and a
      record with children, the root included, is not deleted.
    - Identity: principals are canonical; fingerprints bind issuer and subject.
    - Authorization: the compiled evaluator is the declarative policy; policy
      sets and directories are canonical; a policy version determines every
      decision; targets carry the environment their resource lives in;
      receipts read back.
    - Resources: a history of writes keeps identity, counts its changes of
      desired state within 64 bits, stays bounded, and reads back from its text.
    - Store: an update commits whole or not at all and touches one workspace; a
      view hands its callback exactly the resources and operations of its scopes.
    - Admission of documents: a document is admitted exactly when it normalises
      and fits what is retained, to that normal form; what the schema stage
      accepts was read to its end without a repeated name; the default and
      conversion stages reject nothing.
    - Credentials: a request is confined to one operation and environment, its
      binding digest determines it, a session consumes the material it is made
      from.
    - Broker, for every interleaving: a use is given only what is current for its
      own request; revocation and termination are final; no use goes back to an
      older generation; leases stay within their budget.  After closing nothing
      is published or used and every call that would start, install or commit
      authority fails; a waiter of a flight that was already over may still be
      handed a lease, which no use accepts.
    - Administration: no grant or proof is issued or spent twice; the ledger
      answers from the log of what was issued and spent; issuance is exact.
    - Audit: whatever the elevation ledger does can be recorded; events,
      segments and exports read back; a segment that verifies against a trusted
      head is the segment that was built, or a collision is exhibited; an
      export is bound to its description; retention is exact.
    - Digests: exact parsing, unambiguous framing, plan digests bind the plan.

    [IdempotencyProps] ends with a history in which the ledger grants a key
    twice within its window because a fresh sample below the high-water mark is
    not refused when a later call overtakes it; the theorem on disjoint windows
    therefore assumes that calls sample at or above the mark.

    ** Not modelled

    [diagnostics.go] of each package and the methods that redact or forbid
    serialisation; accessors, which are the record projections; [NewResource],
    which fills wire structs.  JSON text of a resource that is not in canonical
    spelling: the services read only what they stored.  The reference service and
    the reference authorization service, which compose the packages above.
    Outside the plan, being I/O, HTTP or checks of the repository's own files: the
    OIDC adapter, transport, the server command, the OpenAPI and workflow
    checkers. *)

From stdpp Require Export base tactics gmap strings list list_numbers.
From Stdlib Require Export ZArith Lia.
From Stdlib Require Import Ascii String.

#[global] Open Scope string_scope.
#[global] Open Scope list_scope.
#[global] Open Scope Z_scope.

(** ** Results and the error-and-state monad

    A Go function returning [(T, error)] is a [result]; a method that also
    mutates a shared object is an [ST] computation.  A mutation made before an
    error is returned stays in the state, as it does in Go. *)

Inductive result (E A : Type) : Type :=
| Ok (a : A)
| Err (e : E).
Arguments Ok {E A} a.
Arguments Err {E A} e.

#[export] Instance result_ret E : MRet (result E) := fun A a => Ok a.
#[export] Instance result_bind E : MBind (result E) := fun A B f m =>
  match m with Ok a => f a | Err e => Err e end.
#[export] Instance result_fmap E : FMap (result E) := fun A B f m =>
  match m with Ok a => Ok (f a) | Err e => Err e end.

Definition fail_if {E} (b : bool) (e : E) : result E unit :=
  if b then Err e else Ok tt.

Definition result_ok {E A} (r : result E A) : bool :=
  match r with Ok _ => true | Err _ => false end.

Definition of_option {E A} (o : option A) (e : E) : result E A :=
  match o with Some a => Ok a | None => Err e end.

Definition is_some {A} (o : option A) : bool := match o with Some _ => true | None => false end.

Definition map_err {E F A} (f : E -> F) (r : result E A) : result F A :=
  match r with Ok a => Ok a | Err e => Err (f e) end.

Definition ST (S E A : Type) : Type := S -> result E A * S.

#[export] Instance ST_ret S E : MRet (ST S E) := fun A a s => (Ok a, s).
#[export] Instance ST_bind S E : MBind (ST S E) := fun A B f m s =>
  match m s with
  | (Ok a, s') => f a s'
  | (Err e, s') => (Err e, s')
  end.

Definition lift {S E A} (r : result E A) : ST S E A := fun s => (r, s).
Definition reject {S E} (b : bool) (e : E) : ST S E unit := lift (fail_if b e).
Definition throw {S E A} (e : E) : ST S E A := fun s => (Err e, s).
Definition get_state {S E} : ST S E S := fun s => (Ok s, s).
Definition set_state {S E} (s' : S) : ST S E unit := fun _ => (Ok tt, s').

(** ** Inversion lemmas for successful runs *)

Section ResultLemmas.
Context {E A B : Type}.

Lemma bind_ok (m : result E A) (f : A -> result E B) b :
  m ≫= f = Ok b <-> exists a, m = Ok a /\ f a = Ok b.
Proof. destruct m; unfold mbind; simpl; naive_solver. Qed.

Lemma fail_if_ok (c : bool) (e : E) u : fail_if c e = Ok u <-> c = false.
Proof. destruct c, u; simpl; naive_solver. Qed.

Lemma of_option_ok (o : option A) (e : E) a : of_option o e = Ok a <-> o = Some a.
Proof. destruct o; simpl; naive_solver. Qed.

Lemma map_err_ok {F} (f : E -> F) (r : result E A) a : map_err f r = Ok a <-> r = Ok a.
Proof. destruct r; simpl; naive_solver. Qed.

Lemma result_ok_true (r : result E A) : result_ok r = true <-> exists a, r = Ok a.
Proof. destruct r; simpl; naive_solver. Qed.
End ResultLemmas.

Section STLemmas.
Context {S E A B : Type}.

Lemma st_bind_ok (m : ST S E A) (f : A -> ST S E B) s b s' :
  (m ≫= f) s = (Ok b, s') <-> exists a s1, m s = (Ok a, s1) /\ f a s1 = (Ok b, s').
Proof.
  unfold mbind, ST_bind. destruct (m s) as [[a|e] s1]; naive_solver.
Qed.

Lemma st_bind_err (m : ST S E A) (f : A -> ST S E B) s e s' :
  (m ≫= f) s = (Err e, s') <->
  m s = (Err e, s') \/ exists a s1, m s = (Ok a, s1) /\ f a s1 = (Err e, s').
Proof.
  unfold mbind, ST_bind. destruct (m s) as [[a|e'] s1]; naive_solver.
Qed.

Lemma lift_ok (r : result E A) (s : S) a s' : lift r s = (Ok a, s') <-> r = Ok a /\ s' = s.
Proof. unfold lift. naive_solver. Qed.

End STLemmas.

Lemma reject_ok {S E : Type} (c : bool) (e : E) (s : S) u s' :
  reject c e s = (Ok u, s') <-> c = false /\ s' = s.
Proof. unfold reject. rewrite lift_ok, fail_if_ok. done. Qed.

(** ** Boolean guards *)

Lemma negb_false (b : bool) : negb b = false <-> b = true.
Proof. destruct b; naive_solver. Qed.
Lemma negb_true (b : bool) : negb b = true <-> b = false.
Proof. destruct b; naive_solver. Qed.

Create HintDb guards.
#[export] Hint Rewrite orb_false_iff andb_true_iff negb_false negb_true orb_true_iff
  Z.ltb_lt Z.ltb_ge Z.leb_le Z.leb_gt Z.eqb_eq Z.eqb_neq : guards.
#[export] Hint Rewrite @bool_decide_eq_true @bool_decide_eq_false : guards.

Lemma string_eqb_true (a b : string) : String.eqb a b = true <-> a = b.
Proof. apply String.eqb_eq. Qed.
Lemma string_eqb_false (a b : string) : String.eqb a b = false <-> a <> b.
Proof. apply String.eqb_neq. Qed.
#[export] Hint Rewrite string_eqb_true string_eqb_false : guards.

(** [guards] turns the boolean guards in hypothesis [H] into propositions. *)
Ltac guards_in H := autorewrite with guards in H; destruct_and?.

(** [run_inv H] takes a successful run [H] apart: one hypothesis per call made
    and per guard passed. *)
Ltac run_inv_step H :=
  lazymatch type of H with
  | (_ ≫= _) _ = (Ok _, _) =>
      apply st_bind_ok in H;
      let a := fresh "x" in let s := fresh "s" in let H1 := fresh "Hr" in
      destruct H as (a & s & H1 & H); run_inv_step H1; run_inv_step H
  | _ ≫= _ = Ok _ =>
      apply bind_ok in H;
      let a := fresh "x" in let H1 := fresh "Hr" in
      destruct H as (a & H1 & H); run_inv_step H1; run_inv_step H
  | reject _ _ _ = (Ok _, _) =>
      apply reject_ok in H; let H2 := fresh "Hs" in destruct H as [H H2];
      try subst
  | lift _ _ = (Ok _, _) =>
      apply lift_ok in H; let H2 := fresh "Hs" in destruct H as [H H2];
      try subst; run_inv_step H
  | fail_if _ _ = Ok _ => apply fail_if_ok in H
  | of_option _ _ = Ok _ => apply of_option_ok in H
  | map_err _ _ = Ok _ => apply map_err_ok in H; run_inv_step H
  | throw _ _ = (Ok _, _) => discriminate H
  | get_state _ = (Ok _, _) => unfold get_state in H; injection H as <- <-
  | set_state _ _ = (Ok _, _) => unfold set_state in H; injection H as <- <-
  | mret _ = Ok _ => unfold mret, result_ret in H; simplify_eq
  | mret _ _ = (Ok _, _) => unfold mret, ST_ret in H; simplify_eq
  | Ok _ = Ok _ => simplify_eq
  | Err _ = Ok _ => discriminate H
  | _ => idtac
  end.
Ltac run_inv H := run_inv_step H.

(** ** Fixed-width integers *)

Definition max_int64 : Z := 9223372036854775807.
Definition max_uint64 : Z := 18446744073709551615.
Definition max_uint32 : Z := 4294967295.
Definition in_int64 (x : Z) : Prop := -9223372036854775808 <= x <= max_int64.

(** The Go [len] of a slice. *)
Notation llen l := (Z.of_nat (List.length l)).

Lemma cons_inv {A} (x y : A) l k : x :: l = y :: k -> x = y /\ l = k.
Proof. by intros [=]. Qed.

(** Splits equations between literal list prefixes. *)
Ltac cons_inv_in H :=
  repeat (let E := fresh "E" in apply cons_inv in H; destruct H as [E H]).

(** ** Sums over finite maps *)

Definition map_sum {K} `{Countable K} {V} (f : V -> Z) (m : gmap K V) : Z :=
  map_fold (fun _ v acc => f v + acc) 0 m.

Section MapSum.
Context {K V : Type} `{Countable K} (f : V -> Z).

Lemma map_sum_empty : map_sum f (∅ : gmap K V) = 0.
Proof. unfold map_sum. by rewrite map_fold_empty. Qed.

Lemma map_sum_insert (m : gmap K V) k v :
  m !! k = None -> map_sum f (<[k := v]> m) = f v + map_sum f m.
Proof.
  intros Hk. unfold map_sum. rewrite map_fold_insert_L; [done | | done].
  intros; lia.
Qed.

Lemma map_sum_lookup (m : gmap K V) k v :
  m !! k = Some v -> map_sum f m = f v + map_sum f (delete k m).
Proof.
  intros Hk. rewrite <- (insert_delete_id m k v Hk) at 1.
  apply map_sum_insert, lookup_delete_eq.
Qed.

Lemma map_sum_update (m : gmap K V) k v v' :
  m !! k = Some v -> map_sum f (<[k := v']> m) = map_sum f m - f v + f v'.
Proof.
  intros Hk. rewrite (map_sum_lookup m k v Hk).
  rewrite <- insert_delete_eq, map_sum_insert; [lia | apply lookup_delete_eq].
Qed.

Lemma map_sum_nonneg (m : gmap K V) :
  (forall k v, m !! k = Some v -> 0 <= f v) -> 0 <= map_sum f m.
Proof.
  induction m as [|k v m Hk IH] using map_ind; intros Hpos.
  - rewrite map_sum_empty. lia.
  - rewrite map_sum_insert by done.
    assert (0 <= f v) by (eapply Hpos; apply lookup_insert_eq).
    assert (0 <= map_sum f m); [|lia].
    apply IH. intros k' v' Hl. apply (Hpos k'). rewrite lookup_insert_ne; [done|].
    intros Heq. congruence.
Qed.
End MapSum.
