(* ===== verification/StringOrder.v ===== *)
(** * The order of Go strings

    Go compares strings bytewise, as [String.compare] does.  This file holds
    the order as a strict total order, the canonical sets of the program
    (strictly increasing lists of strings) and [slices.Sort] followed by
    [slices.Compact], which computes them. *)

From S2P Require Import Prelude.
From stdpp Require Import sorting.
From Stdlib Require Import Ascii String OrdersEx.

Definition string_lt (a b : string) : Prop := String.ltb a b = true.
Definition string_le (a b : string) : Prop := String.ltb b a = false.

#[export] Instance string_lt_dec : RelDecision string_lt.
Proof. intros a b. unfold string_lt. apply _. Defined.
#[export] Instance string_le_dec : RelDecision string_le.
Proof. intros a b. unfold string_le. apply _. Defined.

Lemma string_ltb_trans a b c : String.ltb a b = true -> String.ltb b c = true -> String.ltb a c = true.
Proof.
  unfold String.ltb. intros Hab Hbc.
  destruct (String.compare a b) eqn:E1; try done. destruct (String.compare b c) eqn:E2; try done.
  pose proof (@StrictOrder_Transitive _ _ String_as_OT.lt_strorder a b c) as Ht.
  unfold String_as_OT.lt in Ht. change String_as_OT.compare with String.compare in Ht. by rewrite Ht.
Qed.

Lemma string_ltb_irrefl a : String.ltb a a = false.
Proof.
  unfold String.ltb. destruct (String.compare a a) eqn:E; try done.
  by destruct (@StrictOrder_Irreflexive _ _ String_as_OT.lt_strorder a).
Qed.

Lemma string_compare_eq a b : String.compare a b = Eq -> a = b.
Proof.
  intros H. pose proof (String_as_OT.compare_spec a b) as Hs.
  change String_as_OT.compare with String.compare in Hs. rewrite H in Hs. inversion Hs. done.
Qed.

Lemma string_trichotomy a b : a = b \/ String.ltb a b = true \/ String.ltb b a = true.
Proof.
  unfold String.ltb. rewrite (String.compare_antisym a b).
  destruct (String.compare b a) eqn:E; simpl; [left; symmetry; by apply string_compare_eq | right; by right | right; by left].
Qed.

Lemma string_ltb_asym a b : String.ltb a b = true -> String.ltb b a = false.
Proof.
  intros H. destruct (String.ltb b a) eqn:E; [|done].
  pose proof (string_ltb_trans a b a H E) as Hr. by rewrite string_ltb_irrefl in Hr.
Qed.

#[export] Instance string_lt_trans : Transitive string_lt.
Proof. intros a b c. apply string_ltb_trans. Qed.

#[export] Instance string_le_trans : Transitive string_le.
Proof.
  unfold string_le. intros a b c Hab Hbc. destruct (String.ltb c a) eqn:E; [|done].
  destruct (string_trichotomy a b) as [->|[H|H]]; [congruence| |congruence].
  rewrite (string_ltb_trans c a b E H) in Hbc. done.
Qed.

#[export] Instance string_le_total : Total string_le.
Proof.
  unfold string_le. intros a b. destruct (String.ltb b a) eqn:E; [right; by apply string_ltb_asym | by left].
Qed.

Lemma string_le_antisym a b : string_le a b -> string_le b a -> a = b.
Proof. unfold string_le. destruct (string_trichotomy a b) as [?|[?|?]]; congruence. Qed.

Lemma string_le_lt a b : string_le a b -> a <> b -> string_lt a b.
Proof. unfold string_le, string_lt. destruct (string_trichotomy a b) as [?|[?|?]]; congruence. Qed.

(** ** Strictly increasing lists *)

Fixpoint increasing_from (previous : option string) (l : list string) : bool :=
  match l with
  | [] => true
  | x :: rest => match previous with Some p => String.ltb p x | None => true end && increasing_from (Some x) rest
  end.

Definition increasing (l : list string) : bool := increasing_from None l.

Lemma increasing_from_sorted l : forall p,
  increasing_from p l = true <->
  StronglySorted string_lt l /\ match p with Some x => Forall (string_lt x) l | None => True end.
Proof.
  induction l as [|x l IH]; intros p; simpl.
  - split; [intros _|done]. split; [constructor|]. by destruct p.
  - rewrite andb_true_iff, IH. split.
    + intros (Hp & Hs & Hf). split; [by constructor|]. destruct p as [p|]; [|done].
      constructor; [done|]. eapply Forall_impl; [exact Hf|]. intros y Hy. by eapply string_lt_trans.
    + intros (Hs & Hp). apply StronglySorted_inv in Hs as [Hs Hf].
      destruct p as [p|]; [|done]. apply Forall_cons in Hp as [Hx _]. done.
Qed.

Lemma increasing_sorted l : increasing l = true <-> StronglySorted string_lt l.
Proof. unfold increasing. rewrite increasing_from_sorted. naive_solver. Qed.

Lemma sorted_lt_nodup l : StronglySorted string_lt l -> NoDup l.
Proof.
  induction 1 as [|x l Hs IH Hf]; [constructor|]. constructor; [|done].
  intros Hin. rewrite Forall_forall in Hf. specialize (Hf x Hin). unfold string_lt in Hf.
  by rewrite string_ltb_irrefl in Hf.
Qed.

(** A set of strings has one strictly increasing listing. *)
Lemma sorted_lt_unique l k :
  StronglySorted string_lt l -> StronglySorted string_lt k -> (forall x, x ∈ l <-> x ∈ k) -> l = k.
Proof.
  intros Hl. revert k. induction Hl as [|x l Hl IH Hf]; intros k Hk Heq.
  - destruct k as [|y k]; [done|]. exfalso. specialize (Heq y). set_solver.
  - destruct Hk as [|y k Hk Hg]; [specialize (Heq x); set_solver|].
    rewrite Forall_forall in Hf, Hg. unfold string_lt in Hf, Hg.
    assert (x = y) as ->.
    { pose proof (proj1 (Heq x) ltac:(by left)) as Hx. pose proof (proj2 (Heq y) ltac:(by left)) as Hy.
      apply elem_of_cons in Hx as [?|Hx]; [done|]. apply elem_of_cons in Hy as [?|Hy]; [done|].
      pose proof (string_ltb_asym _ _ (Hf y Hy)). specialize (Hg x Hx). congruence. }
    f_equal. apply IH; [done|]. intros z. specialize (Heq z). rewrite !elem_of_cons in Heq.
    split; intros Hz.
    + destruct Heq as [H _]. destruct (H (or_intror Hz)) as [->|?]; [|done].
      specialize (Hf y Hz). by rewrite string_ltb_irrefl in Hf.
    + destruct Heq as [_ H]. destruct (H (or_intror Hz)) as [->|?]; [|done].
      specialize (Hg y Hz). by rewrite string_ltb_irrefl in Hg.
Qed.

(** ** Sorting and compacting *)

(** [slices.Compact]: drops an element equal to the one before it. *)
Fixpoint compact (l : list string) : list string :=
  match l with
  | [] => []
  | x :: rest => match rest with
                 | y :: _ => if String.eqb x y then compact rest else x :: compact rest
                 | [] => [x]
                 end
  end.

Definition sort_strings (l : list string) : list string := merge_sort string_le l.

Definition sort_compact (l : list string) : list string := compact (sort_strings l).

Lemma compact_elem l x : x ∈ compact l <-> x ∈ l.
Proof.
  induction l as [|a l IH]; [done|]. destruct l as [|b l]; [done|].
  change (compact (a :: b :: l)) with (if String.eqb a b then compact (b :: l) else a :: compact (b :: l)).
  destruct (String.eqb_spec a b) as [->|Hne]; [rewrite IH; set_solver|].
  rewrite (elem_of_cons (compact (b :: l))), IH, (elem_of_cons (b :: l)). done.
Qed.

Lemma compact_sorted l : StronglySorted string_le l -> StronglySorted string_lt (compact l).
Proof.
  induction 1 as [|a l Hs IH Hf]; [constructor|]. destruct l as [|b l]; [repeat constructor|].
  change (compact (a :: b :: l)) with (if String.eqb a b then compact (b :: l) else a :: compact (b :: l)).
  destruct (String.eqb_spec a b) as [->|Hne]; [done|]. constructor; [done|].
  apply Forall_forall. intros x Hx. apply (proj1 (compact_elem _ _)) in Hx.
  assert (string_lt a b) as Hab by (apply string_le_lt; [by inversion Hf | done]).
  apply elem_of_cons in Hx as [->|Hx]; [done|].
  apply StronglySorted_inv in Hs as [_ Hb]. rewrite Forall_forall in Hb. specialize (Hb x Hx).
  destruct (decide (b = x)) as [->|Hbx]; [done|].
  eapply string_lt_trans; [exact Hab | by apply string_le_lt].
Qed.

Lemma sort_compact_elem l x : x ∈ sort_compact l <-> x ∈ l.
Proof. unfold sort_compact, sort_strings. by rewrite compact_elem, merge_sort_Permutation. Qed.

Lemma sort_compact_increasing l : increasing (sort_compact l) = true.
Proof.
  apply increasing_sorted, compact_sorted. unfold sort_strings. apply StronglySorted_merge_sort; apply _.
Qed.

Lemma compact_length l : (List.length (compact l) <= List.length l)%nat.
Proof.
  induction l as [|a l IH]; [done|]. destruct l as [|b l]; [done|].
  change (compact (a :: b :: l)) with (if String.eqb a b then compact (b :: l) else a :: compact (b :: l)).
  destruct (String.eqb a b); simpl in *; lia.
Qed.

Lemma sort_compact_length l : (List.length (sort_compact l) <= List.length l)%nat.
Proof.
  unfold sort_compact. etransitivity; [apply compact_length|]. unfold sort_strings.
  by rewrite merge_sort_Permutation.
Qed.

(** Only the set of elements matters, and canonical lists are unchanged. *)
Lemma sort_compact_set l k : (forall x, x ∈ l <-> x ∈ k) -> sort_compact l = sort_compact k.
Proof.
  intros H. apply sorted_lt_unique; [apply increasing_sorted, sort_compact_increasing..|].
  intros x. by rewrite !sort_compact_elem.
Qed.

Lemma sort_compact_id l : increasing l = true -> sort_compact l = l.
Proof.
  intros H. apply sorted_lt_unique; [apply increasing_sorted, sort_compact_increasing | by apply increasing_sorted|].
  intros x. by rewrite sort_compact_elem.
Qed.

(** A list sorted by distinct keys is determined by its elements. *)
Lemma sorted_key_unique {A} (key : A -> string) (l k : list A) :
  increasing (key <$> l) = true -> increasing (key <$> k) = true -> l ≡ₚ k -> l = k.
Proof.
  rewrite !increasing_sorted. revert k. induction l as [|x l IH]; intros k Hl Hk Hp.
  - symmetry in Hp. by apply Permutation_nil_r in Hp.
  - destruct k as [|y k]; [by apply Permutation_nil_r in Hp|]. rewrite !fmap_cons in *.
    apply StronglySorted_inv in Hl as [Hl Hx], Hk as [Hk Hy]. rewrite Forall_fmap, Forall_forall in Hx, Hy.
    assert (x = y) as ->.
    { assert (x ∈ y :: k) as [?|H1]%elem_of_cons by (rewrite <- Hp; constructor); [done|].
      assert (y ∈ x :: l) as [?|H2]%elem_of_cons by (rewrite Hp; constructor); [done|].
      specialize (Hx y H2). specialize (Hy x H1). simpl in *. unfold string_lt in *.
      apply string_ltb_asym in Hx. congruence. }
    f_equal. apply IH; try done. by apply Permutation.Permutation_cons_inv in Hp.
Qed.
