(* ===== verification/Bytes.v ===== *)
(** * Go strings and byte slices

    A Go [string] or [[]byte] is a Stdlib [string], one [ascii] per byte.  This
    file models what the sources use of the Go standard library on them:
    big-endian fixed-width integers ([encoding/binary]), unpadded URL-safe
    base64 ([encoding/base64]), UTF-8 validity and rune counts
    ([unicode/utf8]), the anchored character-class patterns ([regexp]) and the
    length-prefixed hash framing every digest of the program is built from. *)

From S2P Require Import Prelude.
From Stdlib Require Import Ascii String.

#[global] Arguments String.append !s1 s2 : simpl nomatch.

Definition byte_val (c : ascii) : Z := Z.of_N (N_of_ascii c).
Definition byte_of (x : Z) : ascii := ascii_of_N (Z.to_N (x mod 256)).

Definition slen (s : string) : Z := Z.of_nat (String.length s).

Fixpoint string_forall (p : ascii -> bool) (s : string) : bool :=
  match s with
  | EmptyString => true
  | String c s' => p c && string_forall p s'
  end.

(** ** Big-endian integers *)

Fixpoint be_bytes (n : nat) (x : Z) : string :=
  match n with
  | O => ""
  | S n' => be_bytes n' (x / 256) +:+ String (byte_of x) ""
  end.

Fixpoint be_value (acc : Z) (s : string) : Z :=
  match s with
  | EmptyString => acc
  | String c s' => be_value (acc * 256 + byte_val c) s'
  end.

(** [binary.BigEndian.PutUint64]; a negative [int64] encodes as its two's
    complement because [byte_of] reduces modulo 256. *)
Definition put_uint64 (x : Z) : string := be_bytes 8 x.

(** [binary.BigEndian.Uint64] of the first eight bytes. *)
Definition get_uint64 (s : string) : Z := be_value 0 (String.substring 0 8 s).

(** ** Hash framing *)

(** One [writeHashBytes]: an eight-byte length and the bytes. *)
Definition frame (s : string) : string := put_uint64 (slen s) +:+ s.

(** Everything written to one hasher, in order. *)
Fixpoint preimage (frames : list string) : string :=
  match frames with
  | [] => ""
  | f :: fs => frame f +:+ preimage fs
  end.

(** ** Base64 (RawURLEncoding) *)

Inductive sextet := Sx (b5 b4 b3 b2 b1 b0 : bool).

Definition b64_alphabet : string :=
  "ABCDEFGHIJKLMNOPQRSTUVWXYZabcdefghijklmnopqrstuvwxyz0123456789-_".

Definition sextet_index (x : sextet) : nat :=
  let d (b : bool) : nat := if b then 1%nat else 0%nat in
  match x with
  | Sx a b c d' e f => (32 * d a + 16 * d b + 8 * d c + 4 * d d' + 2 * d e + d f)%nat
  end.

Definition b64_char (x : sextet) : ascii :=
  match String.get (sextet_index x) b64_alphabet with Some c => c | None => "A"%char end.

Definition both {A} (f : bool -> list A) : list A := f false ++ f true.

Definition all_sextets : list sextet :=
  both (fun a => both (fun b => both (fun c => both (fun d => both (fun e => both (fun f =>
    [Sx a b c d e f])))))).

Definition b64_sextet (c : ascii) : option sextet :=
  List.find (fun x => Ascii.eqb (b64_char x) c) all_sextets.

(** [base64.RawURLEncoding.EncodeToString]. *)
Fixpoint b64_encode (s : string) : string :=
  match s with
  | EmptyString => ""
  | String (Ascii x0 x1 x2 x3 x4 x5 x6 x7) EmptyString =>
      String (b64_char (Sx x7 x6 x5 x4 x3 x2))
        (String (b64_char (Sx x1 x0 false false false false)) "")
  | String (Ascii x0 x1 x2 x3 x4 x5 x6 x7) (String (Ascii y0 y1 y2 y3 y4 y5 y6 y7) EmptyString) =>
      String (b64_char (Sx x7 x6 x5 x4 x3 x2))
        (String (b64_char (Sx x1 x0 y7 y6 y5 y4))
          (String (b64_char (Sx y3 y2 y1 y0 false false)) ""))
  | String (Ascii x0 x1 x2 x3 x4 x5 x6 x7)
      (String (Ascii y0 y1 y2 y3 y4 y5 y6 y7) (String (Ascii z0 z1 z2 z3 z4 z5 z6 z7) rest)) =>
      String (b64_char (Sx x7 x6 x5 x4 x3 x2))
        (String (b64_char (Sx x1 x0 y7 y6 y5 y4))
          (String (b64_char (Sx y3 y2 y1 y0 z7 z6))
            (String (b64_char (Sx z5 z4 z3 z2 z1 z0)) (b64_encode rest))))
  end.

(** The decoder proper, after line breaks have been dropped.  Trailing bits of
    a short last group are ignored, as the non-strict Go encoding does. *)
Fixpoint b64_decode_groups (s : string) : option string :=
  match s with
  | EmptyString => Some ""
  | String c1 (String c2 EmptyString) =>
      match b64_sextet c1, b64_sextet c2 with
      | Some (Sx x7 x6 x5 x4 x3 x2), Some (Sx x1 x0 _ _ _ _) =>
          Some (String (Ascii x0 x1 x2 x3 x4 x5 x6 x7) "")
      | _, _ => None
      end
  | String c1 (String c2 (String c3 EmptyString)) =>
      match b64_sextet c1, b64_sextet c2, b64_sextet c3 with
      | Some (Sx x7 x6 x5 x4 x3 x2), Some (Sx x1 x0 y7 y6 y5 y4), Some (Sx y3 y2 y1 y0 _ _) =>
          Some (String (Ascii x0 x1 x2 x3 x4 x5 x6 x7) (String (Ascii y0 y1 y2 y3 y4 y5 y6 y7) ""))
      | _, _, _ => None
      end
  | String c1 (String c2 (String c3 (String c4 rest))) =>
      match b64_sextet c1, b64_sextet c2, b64_sextet c3, b64_sextet c4, b64_decode_groups rest with
      | Some (Sx x7 x6 x5 x4 x3 x2), Some (Sx x1 x0 y7 y6 y5 y4),
        Some (Sx y3 y2 y1 y0 z7 z6), Some (Sx z5 z4 z3 z2 z1 z0), Some tail =>
          Some (String (Ascii x0 x1 x2 x3 x4 x5 x6 x7)
            (String (Ascii y0 y1 y2 y3 y4 y5 y6 y7) (String (Ascii z0 z1 z2 z3 z4 z5 z6 z7) tail)))
      | _, _, _, _, _ => None
      end
  | _ => None
  end.

Definition line_break (c : ascii) : bool :=
  Ascii.eqb c (ascii_of_nat 10) || Ascii.eqb c (ascii_of_nat 13).

Fixpoint drop_breaks (s : string) : string :=
  match s with
  | EmptyString => ""
  | String c s' => if line_break c then drop_breaks s' else String c (drop_breaks s')
  end.

(** [base64.RawURLEncoding.DecodeString]. *)
Definition b64_decode (s : string) : option string := b64_decode_groups (drop_breaks s).

(** ** Prefixes *)

(** [strings.TrimPrefix] after a successful [strings.HasPrefix]. *)
Fixpoint strip_prefix (p s : string) : option string :=
  match p, s with
  | EmptyString, _ => Some s
  | String a p', String b s' => if Ascii.eqb a b then strip_prefix p' s' else None
  | String _ _, EmptyString => None
  end.

(** ** Character classes *)

Definition between (lo hi : Z) (c : ascii) : bool := (lo <=? byte_val c) && (byte_val c <=? hi).
Definition is_upper := between 65 90.
Definition is_lower := between 97 122.
Definition is_digit := between 48 57.
Definition is_alnum (c : ascii) : bool := is_upper c || is_lower c || is_digit c.
Definition one_of (cs : string) (c : ascii) : bool := negb (string_forall (fun d => negb (Ascii.eqb c d)) cs).

(** [^[head][tail]{lo,hi}$] *)
Definition matches_pattern (head tail : ascii -> bool) (lo hi : Z) (s : string) : bool :=
  match s with
  | EmptyString => false
  | String c s' => head c && string_forall tail s' && (lo <=? slen s') && (slen s' <=? hi)
  end.

(** ** UTF-8 *)

Definition cont_byte (c : ascii) : bool := between 128 191 c.

(** The number of runes of a valid UTF-8 string, [None] when it is invalid:
    [utf8.ValidString] together with [utf8.RuneCountInString]. *)
Fixpoint utf8_runes (s : string) : option Z :=
  match s with
  | EmptyString => Some 0
  | String a s1 =>
    if byte_val a <? 128 then Z.succ <$> utf8_runes s1 else
    match s1 with
    | EmptyString => None
    | String b s2 =>
      if between 194 223 a then
        if cont_byte b then Z.succ <$> utf8_runes s2 else None
      else
      match s2 with
      | EmptyString => None
      | String c s3 =>
        let three := (byte_val a =? 224) && between 160 191 b
          || (between 225 236 a || between 238 239 a) && cont_byte b
          || (byte_val a =? 237) && between 128 159 b in
        if three then if cont_byte c then Z.succ <$> utf8_runes s3 else None else
        match s3 with
        | EmptyString => None
        | String d s4 =>
          let four := (byte_val a =? 240) && between 144 191 b
            || between 241 243 a && cont_byte b
            || (byte_val a =? 244) && between 128 143 b in
          if four && cont_byte c && cont_byte d then Z.succ <$> utf8_runes s4 else None
        end
      end
    end
  end.

Definition utf8_valid (s : string) : bool :=
  match utf8_runes s with Some _ => true | None => false end.

(** ** Lemmas: strings *)

Lemma string_length_app s t : String.length (s +:+ t) = (String.length s + String.length t)%nat.
Proof. induction s; simpl; congruence. Qed.

Lemma slen_app s t : slen (s +:+ t) = slen s + slen t.
Proof. unfold slen. rewrite string_length_app. lia. Qed.

Lemma slen_nonneg s : 0 <= slen s.
Proof. unfold slen. lia. Qed.

Lemma string_app_assoc s t u : (s +:+ t) +:+ u = s +:+ (t +:+ u).
Proof. induction s; simpl; congruence. Qed.

Lemma string_app_nil_r s : s +:+ "" = s.
Proof. induction s; simpl; congruence. Qed.

Lemma string_app_inj_l p s t : p +:+ s = p +:+ t -> s = t.
Proof. induction p; simpl; intros H; [done | by injection H as H; apply IHp]. Qed.

(** Concatenations with first parts of the same length split. *)
Lemma string_app_split s1 t1 s2 t2 :
  String.length s1 = String.length s2 -> s1 +:+ t1 = s2 +:+ t2 -> s1 = s2 /\ t1 = t2.
Proof.
  revert s2; induction s1 as [|a s1 IH]; intros [|b s2] Hlen H; simpl in *; try lia; [done|].
  injection Hlen as Hlen. injection H as -> H. destruct (IH _ Hlen H) as [-> ->]. done.
Qed.

Lemma string_forall_app p s t : string_forall p (s +:+ t) = string_forall p s && string_forall p t.
Proof. induction s; simpl; [done|]. rewrite IHs. by rewrite andb_assoc. Qed.

Lemma strip_prefix_app p s : strip_prefix p (p +:+ s) = Some s.
Proof. induction p; simpl; [done|]. by rewrite Ascii.eqb_refl. Qed.

Lemma strip_prefix_some p s t : strip_prefix p s = Some t <-> s = p +:+ t.
Proof.
  split; [|intros ->; apply strip_prefix_app].
  revert s; induction p as [|a p IH]; intros s; simpl.
  - intros [= ->]. done.
  - destruct s as [|b s]; [done|]. destruct (Ascii.eqb a b) eqn:E; [|done].
    apply Ascii.eqb_eq in E as ->. intros H. by rewrite (IH _ H).
Qed.

(** ** Lemmas: big-endian integers *)

Lemma byte_val_range c : 0 <= byte_val c < 256.
Proof. destruct c as [[] [] [] [] [] [] [] []]; vm_compute; split; congruence. Qed.

Lemma byte_val_of x : byte_val (byte_of x) = x mod 256.
Proof.
  unfold byte_val, byte_of. rewrite N_ascii_embedding.
  - rewrite Z2N.id; [done|]. apply Z.mod_pos_bound. lia.
  - pose proof (Z.mod_pos_bound x 256 ltac:(lia)).
    change 256%N with (Z.to_N 256). apply Z2N.inj_lt; lia.
Qed.

Lemma be_value_app acc s t : be_value acc (s +:+ t) = be_value (be_value acc s) t.
Proof. revert acc; induction s; intros acc; simpl; auto. Qed.

Lemma be_bytes_length n x : String.length (be_bytes n x) = n.
Proof.
  revert x; induction n as [|n IH]; intros x; simpl; [done|].
  rewrite string_length_app, IH. simpl. lia.
Qed.

Lemma be_value_bytes n x : be_value 0 (be_bytes n x) = x mod 256 ^ Z.of_nat n.
Proof.
  revert x; induction n as [|n IH]; intros x.
  - simpl. by rewrite Z.mod_1_r.
  - simpl be_bytes. rewrite be_value_app, IH. simpl. rewrite byte_val_of.
    rewrite Nat2Z.inj_succ, Z.pow_succ_r by lia.
    rewrite (Z.rem_mul_r x 256 (256 ^ Z.of_nat n)) by lia. lia.
Qed.

Lemma put_uint64_inj x y :
  0 <= x <= max_uint64 -> 0 <= y <= max_uint64 -> put_uint64 x = put_uint64 y -> x = y.
Proof.
  unfold put_uint64, max_uint64. intros Hx Hy H.
  apply (f_equal (be_value 0)) in H. rewrite !be_value_bytes in H.
  rewrite !Z.mod_small in H by (change (256 ^ Z.of_nat 8) with 18446744073709551616; lia).
  done.
Qed.

(** The two's complement encoding separates all [int64] values. *)
Lemma put_int64_inj x y : in_int64 x -> in_int64 y -> put_uint64 x = put_uint64 y -> x = y.
Proof.
  unfold put_uint64, in_int64, max_int64. intros Hx Hy H.
  apply (f_equal (be_value 0)) in H. rewrite !be_value_bytes in H.
  change (256 ^ Z.of_nat 8) with 18446744073709551616 in H.
  apply (f_equal (fun z => z mod 18446744073709551616)) in H.
  destruct (Z.eq_dec x y) as [|Hne]; [done|exfalso].
  assert (Hd : (x - y) mod 18446744073709551616 = 0).
  { rewrite Zminus_mod. rewrite !Z.mod_mod in H by lia. rewrite H, Z.sub_diag. done. }
  apply Z.mod_divide in Hd; [|lia]. destruct Hd as [k Hk]. nia.
Qed.

(** ** Lemmas: framing *)

Definition frame_sized (s : string) : Prop := slen s <= max_uint64.

Lemma frame_inj s1 s2 t1 t2 :
  frame_sized s1 -> frame_sized s2 ->
  frame s1 +:+ t1 = frame s2 +:+ t2 -> s1 = s2 /\ t1 = t2.
Proof.
  unfold frame, frame_sized. intros H1 H2 H. rewrite !string_app_assoc in H.
  apply string_app_split in H as [Hl H]; [|unfold put_uint64; by rewrite !be_bytes_length].
  apply put_uint64_inj in Hl; [|pose proof (slen_nonneg s1); lia|pose proof (slen_nonneg s2); lia].
  apply string_app_split in H; [done|]. unfold slen in Hl. lia.
Qed.

Lemma frame_nonempty s t : frame s +:+ t <> "".
Proof. unfold frame, put_uint64. simpl. destruct (byte_of _); done. Qed.

(** ** Lemmas: base64 *)

Lemma b64_sextet_char x : b64_sextet (b64_char x) = Some x.
Proof. destruct x as [[] [] [] [] [] []]; vm_compute; done. Qed.

Lemma b64_char_not_break x : line_break (b64_char x) = false.
Proof. destruct x as [[] [] [] [] [] []]; vm_compute; done. Qed.

(** Induction three bytes at a time, the way the codec walks a string. *)
Lemma string_ind3 (P : string -> Prop) :
  P "" -> (forall x, P (String x "")) -> (forall x y, P (String x (String y ""))) ->
  (forall x y z s, P s -> P (String x (String y (String z s)))) -> forall s, P s.
Proof.
  intros H0 H1 H2 H3.
  assert (forall n s, (String.length s <= n)%nat -> P s) as H.
  { induction n as [|n IH]; intros [|x [|y [|z s]]] Hlen; simpl in *; auto; try lia.
    apply H3, IH. lia. }
  intros s. by apply (H (String.length s)).
Qed.

Lemma drop_breaks_encode s : drop_breaks (b64_encode s) = b64_encode s.
Proof.
  induction s as [|x|x y|x y z s IH] using string_ind3;
    try destruct x; try destruct y; try destruct z; cbn -[b64_char line_break];
    rewrite ?b64_char_not_break, ?IH; done.
Qed.

Lemma b64_roundtrip s : b64_decode (b64_encode s) = Some s.
Proof.
  unfold b64_decode. rewrite drop_breaks_encode.
  induction s as [|x|x y|x y z s IH] using string_ind3;
    try destruct x; try destruct y; try destruct z; cbn -[b64_char b64_sextet];
    rewrite ?b64_sextet_char, ?IH; done.
Qed.

Lemma b64_encode_inj s t : b64_encode s = b64_encode t -> s = t.
Proof.
  intros H. apply (f_equal b64_decode) in H. rewrite !b64_roundtrip in H. by injection H.
Qed.

(** The alphabet of an encoding, used where a separator follows it. *)
Lemma b64_encode_length s : slen (b64_encode s) = (4 * slen s + 2) / 3.
Proof.
  induction s as [|x|x y|[] [] [] s IH] using string_ind3; [done|by destruct x|by destruct x, y|].
  cbn [b64_encode]. unfold slen in *. cbn [String.length]. rewrite !Nat2Z.inj_succ, IH.
  transitivity ((4 * Z.of_nat (String.length s) + 2 + 4 * 3) / 3); [rewrite Z.div_add; lia | f_equal; lia].
Qed.

Lemma b64_encode_forall (p : ascii -> bool) s :
  (forall x, p (b64_char x) = true) -> string_forall p (b64_encode s) = true.
Proof.
  intros Hp. induction s as [|x|x y|x y z s IH] using string_ind3;
    try destruct x; try destruct y; try destruct z; cbn -[b64_char];
    rewrite ?Hp, ?IH; done.
Qed.

Lemma preimage_inj fs gs :
  Forall frame_sized fs -> Forall frame_sized gs -> preimage fs = preimage gs -> fs = gs.
Proof.
  intros Hfs; revert gs; induction Hfs as [|f fs Hf Hfs IH]; intros gs Hgs H; simpl in H.
  - destruct Hgs; simpl in H; [done|]. by destruct (frame_nonempty x (preimage l)).
  - destruct Hgs as [|g gs Hg Hgs]; simpl in H; [by destruct (frame_nonempty f (preimage fs))|].
    apply frame_inj in H as [-> H]; [|done|done]. f_equal. by apply IH.
Qed.

(** * Runes ([unicode/utf8], [unicode], [strings])

    Iterating over a Go string yields its runes, with U+FFFD for each byte that
    starts no valid encoding.  The claims of an identity are checked rune by
    rune. *)

Definition cont_bits (c : ascii) : Z := Z.land (byte_val c) 63.

(** [for _, r := range s]. *)
Fixpoint runes (s : string) : list Z :=
  match s with
  | EmptyString => []
  | String a s1 =>
    if byte_val a <? 128 then byte_val a :: runes s1 else
    match s1 with
    | EmptyString => [65533]
    | String b s2 =>
      if between 194 223 a && cont_byte b
      then (Z.land (byte_val a) 31 * 64 + cont_bits b) :: runes s2
      else
      match s2 with
      | EmptyString => 65533 :: runes s1
      | String c s3 =>
        let three := (byte_val a =? 224) && between 160 191 b
          || (between 225 236 a || between 238 239 a) && cont_byte b
          || (byte_val a =? 237) && between 128 159 b in
        if three && cont_byte c
        then ((Z.land (byte_val a) 15 * 64 + cont_bits b) * 64 + cont_bits c) :: runes s3
        else
        match s3 with
        | EmptyString => 65533 :: runes s1
        | String d s4 =>
          let four := (byte_val a =? 240) && between 144 191 b
            || between 241 243 a && cont_byte b
            || (byte_val a =? 244) && between 128 143 b in
          if four && cont_byte c && cont_byte d
          then (((Z.land (byte_val a) 7 * 64 + cont_bits b) * 64 + cont_bits c) * 64 + cont_bits d) :: runes s4
          else 65533 :: runes s1
        end
      end
    end
  end.

(** [unicode.IsControl]: category Cc. *)
Definition IsControl (r : Z) : bool := (r <=? 31) || ((127 <=? r) && (r <=? 159)).

(** [unicode.IsSpace]: the White_Space property. *)
Definition IsSpace (r : Z) : bool :=
  ((9 <=? r) && (r <=? 13)) || (r =? 32) || (r =? 133) || (r =? 160) || (r =? 5760)
  || ((8192 <=? r) && (r <=? 8202)) || (r =? 8232) || (r =? 8233) || (r =? 8239) || (r =? 8287) || (r =? 12288).

(** [strings.TrimSpace(s) == s]: neither the first nor the last rune is a
    space. *)
Definition trimmed (s : string) : bool :=
  match head (runes s), last (runes s) with
  | Some first, Some final => negb (IsSpace first) && negb (IsSpace final)
  | _, _ => true
  end.

Example runes_decodes : runes "aé€😀"%string = [97; 233; 8364; 128512].
Proof. vm_compute. done. Qed.
