(* ===== verification/Sha256.v ===== *)
(** * SHA-256 ([crypto/sha256])

    An executable model of the hash every digest of the program uses, on
    32-bit words kept in [Z] with the wrap-around written out. *)

From S2P Require Import Prelude Bytes.
From Stdlib Require Import Ascii String.

Definition w32 (x : Z) : Z := Z.land x 4294967295.
Definition rotr (n x : Z) : Z := w32 (Z.lor (Z.shiftr x n) (Z.shiftl x (32 - n))).
Definition notw (x : Z) : Z := Z.lxor x 4294967295.

Definition ch x y z := Z.lxor (Z.land x y) (Z.land (notw x) z).
Definition maj x y z := Z.lxor (Z.lxor (Z.land x y) (Z.land x z)) (Z.land y z).
Definition big_sigma0 x := Z.lxor (Z.lxor (rotr 2 x) (rotr 13 x)) (rotr 22 x).
Definition big_sigma1 x := Z.lxor (Z.lxor (rotr 6 x) (rotr 11 x)) (rotr 25 x).
Definition small_sigma0 x := Z.lxor (Z.lxor (rotr 7 x) (rotr 18 x)) (Z.shiftr x 3).
Definition small_sigma1 x := Z.lxor (Z.lxor (rotr 17 x) (rotr 19 x)) (Z.shiftr x 10).

(** The constants are the first 32 fractional bits of roots of small primes:
    [root_bits k bits x 0] is the largest integer below [2 ^ bits] whose [k]-th
    power is at most [x]. *)
Fixpoint root_bits (k : Z) (bits : nat) (x r : Z) : Z :=
  match bits with
  | O => r
  | S i => let r' := r + 2 ^ Z.of_nat i in root_bits k i x (if r' ^ k <=? x then r' else r)
  end.

Definition root_fraction (k p : Z) : Z := w32 (root_bits k 40 (p * 2 ^ (32 * k)) 0).

Definition is_prime (n : Z) : bool := forallb (fun d => negb (n mod d =? 0)) (seqZ 2 (n - 2)).
Definition primes_below (n : Z) : list Z := List.filter is_prime (seqZ 2 (n - 2)).

Definition round_constants : list Z := Eval vm_compute in map (root_fraction 3) (primes_below 312).

Record hash_state := HS { ha : Z; hb : Z; hc : Z; hd : Z; he : Z; hf : Z; hg : Z; hh : Z }.

Definition initial_hash : hash_state := Eval vm_compute in
  match map (root_fraction 2) (primes_below 20) with
  | [a; b; c; d; e; f; g; h] => HS a b c d e f g h
  | _ => HS 0 0 0 0 0 0 0 0
  end.

Definition sha_round (s : hash_state) (k w : Z) : hash_state :=
  let t1 := w32 (hh s + big_sigma1 (he s) + ch (he s) (hf s) (hg s) + k + w) in
  let t2 := w32 (big_sigma0 (ha s) + maj (ha s) (hb s) (hc s)) in
  HS (w32 (t1 + t2)) (ha s) (hb s) (hc s) (w32 (hd s + t1)) (he s) (hf s) (hg s).

(** The message schedule as a sliding window of the last sixteen words. *)
Fixpoint sha_rounds (ks : list Z) (window : list Z) (s : hash_state) : hash_state :=
  match ks, window with
  | k :: ks', w :: rest =>
      let next := w32 (small_sigma1 (List.nth 14 window 0) + List.nth 9 window 0
                       + small_sigma0 (List.nth 1 window 0) + w) in
      sha_rounds ks' (rest ++ [next]) (sha_round s k w)
  | _, _ => s
  end.

Definition sha_block (s : hash_state) (words : list Z) : hash_state :=
  let r := sha_rounds round_constants words s in
  HS (w32 (ha s + ha r)) (w32 (hb s + hb r)) (w32 (hc s + hc r)) (w32 (hd s + hd r))
     (w32 (he s + he r)) (w32 (hf s + hf r)) (w32 (hg s + hg r)) (w32 (hh s + hh r)).

Fixpoint string_words (s : string) : list Z :=
  match s with
  | String a (String b (String c (String d s'))) =>
      (((byte_val a * 256 + byte_val b) * 256 + byte_val c) * 256 + byte_val d) :: string_words s'
  | _ => []
  end.

Fixpoint zero_bytes (n : nat) : string :=
  match n with O => "" | S n' => String Ascii.zero (zero_bytes n') end.

(** A one bit, zeros up to 56 modulo 64, and the bit length. *)
Definition sha_pad (s : string) : string :=
  let len := slen s in
  s +:+ String (byte_of 128) (zero_bytes (Z.to_nat ((55 - len) mod 64)))
    +:+ put_uint64 (8 * len).

(** Blocks of sixteen words; the fuel is the number of blocks. *)
Fixpoint sha_blocks (fuel : nat) (words : list Z) (s : hash_state) : hash_state :=
  match fuel with
  | O => s
  | S n => sha_blocks n (List.skipn 16 words) (sha_block s (List.firstn 16 words))
  end.

Definition sha256 (s : string) : string :=
  let words := string_words (sha_pad s) in
  let r := sha_blocks (Nat.div (List.length words) 16) words initial_hash in
  be_bytes 4 (ha r) +:+ be_bytes 4 (hb r) +:+ be_bytes 4 (hc r) +:+ be_bytes 4 (hd r) +:+
  be_bytes 4 (he r) +:+ be_bytes 4 (hf r) +:+ be_bytes 4 (hg r) +:+ be_bytes 4 (hh r).

(** [sha256.Size] *)
Definition sha256_size : Z := 32.

Lemma sha256_length s : slen (sha256 s) = sha256_size.
Proof. unfold sha256. rewrite !slen_app. unfold slen. rewrite !be_bytes_length. done. Qed.

(** The padded message is a whole number of blocks, so no word is dropped and
    the block fuel is exact. *)
Lemma sha_pad_blocks s : slen (sha_pad s) mod 64 = 0.
Proof.
  unfold sha_pad. rewrite slen_app. 
  assert (forall n, slen (zero_bytes n) = Z.of_nat n) as Hz.
  { unfold slen. induction n; simpl zero_bytes; simpl String.length; lia. }
  assert (forall c t, slen (String c t) = 1 + slen t) as Hc.
  { intros. unfold slen. simpl String.length. lia. }
  rewrite slen_app, Hc, Hz.
  replace (slen (put_uint64 (8 * slen s))) with 8 by (unfold slen, put_uint64; by rewrite be_bytes_length).
  pose proof (Z.mod_pos_bound (55 - slen s) 64 ltac:(lia)).
  rewrite Z2Nat.id by lia.
  pose proof (Z.div_mod (55 - slen s) 64 ltac:(lia)).
  apply Z.mod_divide; [lia|]. exists (1 - (55 - slen s) / 64). lia.
Qed.

(** Published test vectors (FIPS 180-4). *)
Example sha256_abc :
  get_uint64 (sha256 "abc") = 0xba7816bf8f01cfea.
Proof. vm_compute. done. Qed.

Example sha256_empty :
  get_uint64 (sha256 "") = 0xe3b0c44298fc1c14.
Proof. vm_compute. done. Qed.

Example sha256_two_blocks :
  get_uint64 (sha256 "abcdbcdecdefdefgefghfghighijhijkijkljklmklmnlmnomnopnopq") = 0x248d6a61d20638b8.
Proof. vm_compute. done. Qed.
