(* ===== verification/GoTime.v ===== *)
(** * Instants and durations ([time])

    A [time.Time] is the number of nanoseconds since 0001-01-01T00:00:00Z, so
    the Go zero time is [0] and [IsZero] is a comparison with it.  The domain
    normalises every instant with [normalizeTime] (UTC, milliseconds, years 1
    to 9999) before it is stored, which also strips a monotonic reading; the
    comparisons [Before], [After] and [Equal] are the ones of the instants. *)

From S2P Require Import Prelude.

Definition time : Type := Z.

Definition zero_time : time := 0.
Definition is_zero (t : time) : bool := t =? 0.

(** [t.Before(u)] and [t.After(u)]. *)
Definition before (t u : time) : bool := t <? u.
Definition after (t u : time) : bool := u <? t.
Definition time_equal (t u : time) : bool := t =? u.

(** Durations are [int64] nanoseconds. *)
Definition nanosecond : Z := 1.
Definition millisecond : Z := 1000000.
Definition second : Z := 1000 * millisecond.
Definition hour : Z := 3600 * second.

(** [t.Sub(u)] saturates at the extreme durations. *)
Definition time_sub (t u : time) : Z :=
  Z.max (-9223372036854775808) (Z.min max_int64 (t - u)).

(** Days from 0001-01-01 to 1970-01-01 and to 10000-01-01. *)
Definition unix_epoch_days : Z := 719162.
Definition year_10000_days : Z := 3652059.
Definition day : Z := 24 * hour.

Definition unix_epoch : time := unix_epoch_days * day.
Definition year_10000 : time := year_10000_days * day.

(** [t.UnixMilli()] *)
Definition unix_milli (t : time) : Z := (t - unix_epoch) / millisecond.

(** [t.Truncate(time.Millisecond)] *)
Definition truncate_ms (t : time) : time := t - t mod millisecond.

(** [Year() < 1 || Year() > 9999] *)
Definition year_out_of_range (t : time) : bool := (t <? 0) || (year_10000 <=? t).

(** [normalizeTime]; its only error is [ErrInvalidTime]. *)
Definition normalizeTime (value : time) : option time :=
  if is_zero value then None else
  let value := truncate_ms value in
  if year_out_of_range value then None else Some value.

(** [addNormalizedDuration] *)
Definition addNormalizedDuration (value : time) (duration : Z) : option time :=
  if duration <? 0 then None else normalizeTime (value + duration).

(** ** Lemmas *)

Definition normal (t : time) : Prop := 0 <= t < year_10000 /\ t mod millisecond = 0.

Lemma truncate_ms_idem t : t mod millisecond = 0 -> truncate_ms t = t.
Proof. unfold truncate_ms. lia. Qed.

Lemma truncate_ms_mod t : truncate_ms t mod millisecond = 0.
Proof.
  unfold truncate_ms. rewrite Zminus_mod, Z.mod_mod by (unfold millisecond; lia).
  by rewrite Z.sub_diag.
Qed.

Lemma normalizeTime_normal t u : normalizeTime t = Some u -> normal u.
Proof.
  unfold normalizeTime, normal, year_out_of_range. intros H.
  destruct (is_zero t); [done|].
  destruct (_ || _) eqn:E; [done|]. injection H as <-.
  autorewrite with guards in E. split; [lia | apply truncate_ms_mod].
Qed.

(** Normalising an already normal, non-zero instant returns it unchanged. *)
Lemma normalizeTime_id t : normal t -> t <> 0 -> normalizeTime t = Some t.
Proof.
  unfold normalizeTime, normal, is_zero, year_out_of_range. intros [Hr Hm] Hz.
  rewrite (proj2 (Z.eqb_neq t 0) Hz), truncate_ms_idem by done.
  destruct (_ || _) eqn:E; [|done].
  autorewrite with guards in E. lia.
Qed.

Lemma normalizeTime_le t u : normalizeTime t = Some u -> u <= t < u + millisecond.
Proof.
  unfold normalizeTime. destruct (is_zero t); [done|].
  destruct (year_out_of_range _); [done|]. intros [= <-]. unfold truncate_ms.
  pose proof (Z.mod_pos_bound t millisecond ltac:(unfold millisecond; lia)). lia.
Qed.

(** Normalisation is monotone, so it never reorders two instants. *)
Lemma normalizeTime_mono t t' u u' :
  normalizeTime t = Some u -> normalizeTime t' = Some u' -> t <= t' -> u <= u'.
Proof.
  intros H H' Hle.
  pose proof (normalizeTime_le _ _ H). pose proof (normalizeTime_le _ _ H').
  apply normalizeTime_normal in H as [_ Hu]. apply normalizeTime_normal in H' as [_ Hu'].
  apply Z.mod_divide in Hu as [a ->]; [|unfold millisecond; lia].
  apply Z.mod_divide in Hu' as [b ->]; [|unfold millisecond; lia].
  unfold millisecond in *. nia.
Qed.

Lemma addNormalizedDuration_exact t d u :
  normal t -> d mod millisecond = 0 -> addNormalizedDuration t d = Some u -> u = t + d /\ 0 <= d.
Proof.
  unfold addNormalizedDuration. intros [Hr Hm] Hd H.
  destruct (d <? 0) eqn:E; [done|]. apply Z.ltb_ge in E. split; [|done].
  revert H. unfold normalizeTime. destruct (is_zero _); [done|].
  destruct (year_out_of_range _); [done|]. intros [= <-].
  apply truncate_ms_idem. rewrite Zplus_mod, Hm, Hd. done.
Qed.

Lemma addNormalizedDuration_normal t d u : addNormalizedDuration t d = Some u -> normal u.
Proof.
  unfold addNormalizedDuration. destruct (d <? 0); [done|]. apply normalizeTime_normal.
Qed.

(** Within the supported range a difference of instants compared with a bound
    below the saturation limit is the exact difference. *)
Lemma time_sub_ltb t u d :
  -9223372036854775808 < d <= max_int64 -> (time_sub t u <? d) = (t - u <? d).
Proof.
  unfold time_sub, max_int64. intros Hd.
  destruct (Z.ltb_spec (t - u) d), (Z.ltb_spec (Z.max (-9223372036854775808) (Z.min 9223372036854775807 (t - u))) d); lia.
Qed.

Lemma time_sub_eqb t u d :
  -9223372036854775808 < d < max_int64 -> (time_sub t u =? d) = (t - u =? d).
Proof.
  unfold time_sub, max_int64. intros Hd.
  destruct (Z.eqb_spec (t - u) d), (Z.eqb_spec (Z.max (-9223372036854775808) (Z.min 9223372036854775807 (t - u))) d); lia.
Qed.

(** The time predicates as propositions. *)
Lemma before_true t u : before t u = true <-> t < u.
Proof. apply Z.ltb_lt. Qed.
Lemma before_false t u : before t u = false <-> u <= t.
Proof. apply Z.ltb_ge. Qed.
Lemma after_true t u : after t u = true <-> u < t.
Proof. apply Z.ltb_lt. Qed.
Lemma after_false t u : after t u = false <-> t <= u.
Proof. apply Z.ltb_ge. Qed.
Lemma time_equal_true t u : time_equal t u = true <-> t = u.
Proof. apply Z.eqb_eq. Qed.
Lemma time_equal_false t u : time_equal t u = false <-> t <> u.
Proof. apply Z.eqb_neq. Qed.
Lemma is_zero_true t : is_zero t = true <-> t = 0.
Proof. apply Z.eqb_eq. Qed.
Lemma is_zero_false t : is_zero t = false <-> t <> 0.
Proof. apply Z.eqb_neq. Qed.

#[export] Hint Rewrite before_true before_false after_true after_false time_equal_true
  time_equal_false is_zero_true is_zero_false : guards.
