(* ===== verification/Calendar.v ===== *)
(** * Civil timestamps

    Operations, conditions and observations carry their instants as text in the
    one layout 2006-01-02T15:04:05.000Z.  This file is the part of Go's [time]
    package behind it: the proleptic Gregorian calendar, [Format] and the
    strict parsing of [time.Parse], for the years 0000 to 9999, with the proof
    that they are inverse to each other.  The helpers [normalizeTimestamp] and
    [parseTimestamp] are those of [operation.go] and [condition.go]. *)

From S2P Require Import Prelude Bytes GoTime.
From Stdlib Require Import Ascii String.

(** ** The calendar *)

Definition leap (y : Z) : bool := (y mod 4 =? 0) && (negb (y mod 100 =? 0) || (y mod 400 =? 0)).

(** Days from 0001-01-01 to the first day of a year. *)
Definition days_before_year (y : Z) : Z := let p := y - 1 in 365 * p + p / 4 - p / 100 + p / 400.

Definition month_lengths (y : Z) : list Z := [31; if leap y then 29 else 28; 31; 30; 31; 30; 31; 31; 30; 31; 30; 31].

Definition sum_list (l : list Z) : Z := foldr Z.add 0 l.

Definition month_length (y m : Z) : Z := default 0 (month_lengths y !! Z.to_nat (m - 1)).

Definition days_of (y m d : Z) : Z := days_before_year y + sum_list (take (Z.to_nat (m - 1)) (month_lengths y)) + (d - 1).

Definition valid_date (y m d : Z) : bool := (1 <=? m) && (m <=? 12) && (1 <=? d) && (d <=? month_length y m).

(** The year of a day: the mean length of a year gives it up to one. *)
Definition year_of_days (days : Z) : Z :=
  let e := 400 * days / 146097 + 1 in
  if days <? days_before_year e then e - 1 else if days_before_year (e + 1) <=? days then e + 1 else e.

Fixpoint month_of (lengths : list Z) (m d : Z) : Z * Z :=
  match lengths with
  | [] => (m, d + 1)
  | n :: rest => if d <? n then (m, d + 1) else month_of rest (m + 1) (d - n)
  end.

Definition civil (days : Z) : Z * Z * Z :=
  let y := year_of_days days in
  let '(m, d) := month_of (month_lengths y) 1 (days - days_before_year y) in (y, m, d).

Lemma year_length y : days_before_year (y + 1) - days_before_year y = sum_list (month_lengths y).
Proof.
  unfold days_before_year, month_lengths, leap, sum_list. simpl.
  destruct (y mod 4 =? 0) eqn:E4, (y mod 100 =? 0) eqn:E100, (y mod 400 =? 0) eqn:E400; simpl;
    autorewrite with guards in *; Z.to_euclidean_division_equations; lia.
Qed.

Lemma days_before_mono y z : y <= z -> days_before_year y <= days_before_year z.
Proof. unfold days_before_year. intros H. Z.to_euclidean_division_equations. lia. Qed.

Lemma year_of_days_spec days :
  days_before_year (year_of_days days) <= days < days_before_year (year_of_days days + 1).
Proof.
  unfold year_of_days. set (e := 400 * days / 146097 + 1).
  assert (days_before_year (e - 1) <= days < days_before_year (e + 2)) as [H1 H2].
  { unfold e, days_before_year. Z.to_euclidean_division_equations. lia. }
  destruct (Z.ltb_spec days (days_before_year e)); [replace (e - 1 + 1) with e by lia; lia|].
  destruct (Z.leb_spec (days_before_year (e + 1)) days); [replace (e + 1 + 1) with (e + 2) by lia|]; lia.
Qed.

Lemma year_of_days_unique days y : days_before_year y <= days < days_before_year (y + 1) -> year_of_days days = y.
Proof.
  intros H. pose proof (year_of_days_spec days) as H'. set (z := year_of_days days) in *.
  destruct (Z.lt_trichotomy z y) as [Hl|[?|Hl]]; [|done|].
  - pose proof (days_before_mono (z + 1) y ltac:(lia)). lia.
  - pose proof (days_before_mono (y + 1) z ltac:(lia)). lia.
Qed.

Lemma month_of_spec lengths : forall m d, 0 <= d < sum_list lengths ->
  exists i n, lengths !! i = Some n /\ month_of lengths m d = (m + Z.of_nat i, d - sum_list (take i lengths) + 1) /\
    0 <= d - sum_list (take i lengths) < n.
Proof.
  induction lengths as [|n rest IH]; intros m d Hd; simpl in Hd; [lia|]. simpl.
  destruct (Z.ltb_spec d n).
  - exists O, n. simpl. split; [done|]. split; [f_equal; lia | lia].
  - destruct (IH (m + 1) (d - n)) as (i & k & Hi & E & Hk); [lia|]. exists (S i), k. split; [done|].
    rewrite E. simpl take. simpl sum_list. split; [f_equal; lia | lia].
Qed.

Lemma month_of_at lengths : forall m i n d, lengths !! i = Some n -> 0 <= d < n -> Forall (fun k => 0 <= k) lengths ->
  month_of lengths m (sum_list (take i lengths) + d) = (m + Z.of_nat i, d + 1).
Proof.
  induction lengths as [|k rest IH]; intros m i n d Hi Hd Hp; [done|]. apply Forall_cons in Hp as [Hk Hp].
  destruct i as [|i]; simpl in *.
  - injection Hi as ->. destruct (Z.ltb_spec (0 + d) n); [f_equal; lia | lia].
  - assert (0 <= sum_list (take i rest)).
    { clear -Hp. revert i. induction Hp as [|x l Hx Hp IH]; intros [|i]; simpl; try lia. specialize (IH i). lia. }
    destruct (Z.ltb_spec (k + sum_list (take i rest) + d) k); [lia|].
    replace (k + sum_list (take i rest) + d - k) with (sum_list (take i rest) + d) by lia.
    rewrite (IH (m + 1) i n d); [f_equal; lia|done..].
Qed.

Lemma month_lengths_pos y : Forall (fun k => 0 <= k) (month_lengths y).
Proof. unfold month_lengths. repeat constructor; try lia. destruct (leap y); lia. Qed.

Lemma valid_date_at y m d : valid_date y m d = true <->
  exists i n, m = 1 + Z.of_nat i /\ month_lengths y !! i = Some n /\ 1 <= d <= n.
Proof.
  unfold valid_date, month_length. rewrite !andb_true_iff, !Z.leb_le. split.
  - intros (((H1 & H2) & H3) & H4). exists (Z.to_nat (m - 1)).
    destruct (month_lengths y !! Z.to_nat (m - 1)) as [n|] eqn:E; simpl in H4; [|lia]. exists n. split; [lia|]. split; [done | lia].
  - intros (i & n & -> & Hi & Hd). pose proof (lookup_lt_Some _ _ _ Hi) as Hl. simpl in Hl.
    replace (Z.to_nat (1 + Z.of_nat i - 1)) with i by lia. rewrite Hi. simpl. lia.
Qed.

Lemma take_sum l : forall i n, l !! i = Some n -> Forall (fun k => 0 <= k) l -> sum_list (take i l) + n <= sum_list l.
Proof.
  induction l as [|k l IH]; intros i n Hi Hp; [done|]. apply Forall_cons in Hp as [Hk Hp].
  destruct i as [|i]; simpl in *.
  - injection Hi as ->. clear -Hp. assert (0 <= sum_list l); [|lia]. induction Hp; simpl; lia.
  - specialize (IH i n Hi Hp). lia.
Qed.

(** Days and dates are in bijection. *)
Lemma civil_days_of y m d : valid_date y m d = true -> civil (days_of y m d) = (y, m, d).
Proof.
  intros (i & n & -> & Hi & Hd)%valid_date_at. unfold civil, days_of.
  replace (Z.to_nat (1 + Z.of_nat i - 1)) with i by lia.
  pose proof (take_sum _ i n Hi (month_lengths_pos y)) as Hs. pose proof (year_length y) as Hy.
  assert (0 <= sum_list (take i (month_lengths y))) as H0.
  { clear -y. pose proof (month_lengths_pos y) as Hp. revert i. induction Hp as [|x l Hx Hp IH]; intros [|i]; simpl; try lia.
    specialize (IH i). lia. }
  rewrite (year_of_days_unique _ y) by lia.
  replace (days_before_year y + sum_list (take i (month_lengths y)) + (d - 1) - days_before_year y)
    with (sum_list (take i (month_lengths y)) + (d - 1)) by lia.
  rewrite (month_of_at _ 1 i n (d - 1) Hi); [f_equal; lia | lia | apply month_lengths_pos].
Qed.

Lemma days_of_civil days y m d : civil days = (y, m, d) -> valid_date y m d = true /\ days_of y m d = days.
Proof.
  unfold civil. set (z := year_of_days days). pose proof (year_of_days_spec days) as Hy. fold z in Hy.
  pose proof (year_length z) as Hl.
  destruct (month_of_spec (month_lengths z) 1 (days - days_before_year z)) as (i & n & Hi & E & Hn); [lia|].
  rewrite E. intros [= <- <- <-]. split.
  - apply valid_date_at. exists i, n. split; [done|]. split; [done | lia].
  - unfold days_of. replace (Z.to_nat (1 + Z.of_nat i - 1)) with i by lia. lia.
Qed.

(** ** Decimal digits of a fixed width *)

Definition digit_char (x : Z) : ascii := byte_of (48 + x).

Fixpoint pad (n : nat) (v : Z) : string :=
  match n with
  | O => ""
  | S k => String (digit_char (v / 10 ^ Z.of_nat k)) (pad k (v mod 10 ^ Z.of_nat k))
  end.

Fixpoint digits (n : nat) (s : string) (acc : Z) : option (Z * string) :=
  match n with
  | O => Some (acc, s)
  | S k => match s with
           | String c s' => if is_digit c then digits k s' (acc * 10 + (byte_val c - 48)) else None
           | EmptyString => None
           end
  end.

Lemma byte_of_val c : byte_of (byte_val c) = c.
Proof. by destruct c as [[] [] [] [] [] [] [] []]. Qed.

Lemma digit_char_val x : 0 <= x < 10 -> byte_val (digit_char x) = 48 + x.
Proof. intros H. unfold digit_char. rewrite byte_val_of. apply Z.mod_small. lia. Qed.

Lemma pow10_pos k : 0 < 10 ^ Z.of_nat k.
Proof. apply Z.pow_pos_nonneg; lia. Qed.

Lemma digits_pad n : forall v acc rest, 0 <= v < 10 ^ Z.of_nat n ->
  digits n (pad n v +:+ rest) acc = Some (acc * 10 ^ Z.of_nat n + v, rest).
Proof.
  induction n as [|k IH]; intros v acc rest Hv.
  - simpl in *. do 2 f_equal. lia.
  - pose proof (pow10_pos k). rewrite Nat2Z.inj_succ, Z.pow_succ_r in * by lia.
    assert (0 <= v / 10 ^ Z.of_nat k < 10) as Hq by (split; [apply Z.div_pos | apply Z.div_lt_upper_bound]; lia).
    cbn [digits pad]. simpl. unfold is_digit, between. rewrite !digit_char_val by done.
    destruct (_ && _) eqn:E; [|autorewrite with guards in *; rewrite andb_false_iff, !Z.leb_gt in E; lia].
    rewrite IH by (apply Z.mod_pos_bound; lia). do 2 f_equal.
    pose proof (Z.div_mod v (10 ^ Z.of_nat k) ltac:(lia)). lia.
Qed.

Lemma digits_sound n : forall s acc v rest, digits n s acc = Some (v, rest) ->
  exists w, 0 <= w < 10 ^ Z.of_nat n /\ v = acc * 10 ^ Z.of_nat n + w /\ s = pad n w +:+ rest.
Proof.
  induction n as [|k IH]; intros s acc v rest H; cbn [digits] in H.
  - injection H as <- <-. exists 0. simpl. split; [lia|]. split; [lia | done].
  - destruct s as [|c s]; [done|]. destruct (is_digit c) eqn:Hc; [|done].
    unfold is_digit, between in Hc. autorewrite with guards in Hc.
    apply IH in H as (w & Hw & -> & ->). pose proof (pow10_pos k). rewrite Nat2Z.inj_succ, Z.pow_succ_r by lia.
    assert (exists x, byte_val c = 48 + x /\ 0 <= x < 10) as (x & Hx & Hr) by (exists (byte_val c - 48); lia).
    rewrite Hx. replace (48 + x - 48) with x by lia. exists (x * 10 ^ Z.of_nat k + w). split; [nia|]. split; [lia|].
    cbn [pad]. assert ((x * 10 ^ Z.of_nat k + w) / 10 ^ Z.of_nat k = x) as ->.
    { rewrite Z.add_comm, Z.div_add, Z.div_small by lia. lia. }
    assert ((x * 10 ^ Z.of_nat k + w) mod 10 ^ Z.of_nat k = w) as ->.
    { rewrite Z.add_comm, Z.mod_add, Z.mod_small by lia. done. }
    simpl. f_equal. unfold digit_char. rewrite <- Hx. symmetry. apply byte_of_val.
Qed.

(** ** The layout 2006-01-02T15:04:05.000Z *)

Definition minute : Z := 60 * second.

(** [t.Year()] *)
Definition Year (t : time) : Z := fst (fst (civil (t / day))).

Definition clock_text (r : Z) : string :=
  pad 2 (r / hour) +:+ ":" +:+ pad 2 (r mod hour / minute) +:+ ":" +:+ pad 2 (r mod minute / second) +:+ "." +:+
  pad 3 (r mod second / millisecond) +:+ "Z".

Definition date_text (days : Z) : string :=
  let '(y, m, d) := civil days in pad 4 y +:+ "-" +:+ pad 2 m +:+ "-" +:+ pad 2 d +:+ "T".

(** [t.Format(timestampLayout)] in the years 0000 to 9999 *)
Definition format_timestamp (t : time) : string := date_text (t / day) +:+ clock_text (t mod day).

(** [time.Parse(timestampLayout, value)]: fixed digits, separators and ranges. *)
Definition parse_layout (value : string) : option time :=
  '(y, s) ← digits 4 value 0; s ← strip_prefix "-" s;
  '(m, s) ← digits 2 s 0; s ← strip_prefix "-" s;
  '(d, s) ← digits 2 s 0; s ← strip_prefix "T" s;
  '(h, s) ← digits 2 s 0; s ← strip_prefix ":" s;
  '(mi, s) ← digits 2 s 0; s ← strip_prefix ":" s;
  '(sec, s) ← digits 2 s 0; s ← strip_prefix "." s;
  '(ms, s) ← digits 3 s 0; s ← strip_prefix "Z" s;
  if String.eqb s "" && valid_date y m d && (h <? 24) && (mi <? 60) && (sec <? 60)
  then Some (days_of y m d * day + (h * hour + mi * minute + sec * second + ms * millisecond))
  else None.

Definition timestamp_length : Z := 24.

(** [parseTimestamp]; its error is [ErrInvalidTimestamp]. *)
Definition parseTimestamp (value : string) : option time :=
  if negb (slen value =? timestamp_length) then None else
  t ← parse_layout value;
  if String.eqb (format_timestamp t) value then Some t else None.

(** [normalizeTimestamp]; its error is [ErrInvalidTimestamp]. *)
Definition normalizeTimestamp (value : time) : option string :=
  if is_zero value then None else
  let value := truncate_ms value in
  if (Year value <? 0) || (9999 <? Year value) then None else Some (format_timestamp value).

(** The instants with a timestamp. *)
Definition stampable (t : time) : Prop := 0 <= Year t <= 9999 /\ t mod millisecond = 0.

(** The clock reading of an aligned instant of the day. *)
Lemma clock_parts r : 0 <= r < day -> r mod millisecond = 0 ->
  exists h mi sec ms, r = h * hour + mi * minute + sec * second + ms * millisecond /\
    0 <= h < 24 /\ 0 <= mi < 60 /\ 0 <= sec < 60 /\ 0 <= ms < 1000 /\
    r / hour = h /\ r mod hour / minute = mi /\ r mod minute / second = sec /\ r mod second / millisecond = ms.
Proof.
  unfold day, hour, minute, second, millisecond. intros Hr Hm.
  exists (r / 3600000000000), (r mod 3600000000000 / 60000000000), (r mod 60000000000 / 1000000000), (r mod 1000000000 / 1000000).
  Z.to_euclidean_division_equations. lia.
Qed.

Lemma clock_unparts h mi sec ms : 0 <= h < 24 -> 0 <= mi < 60 -> 0 <= sec < 60 -> 0 <= ms < 1000 ->
  let r := h * hour + mi * minute + sec * second + ms * millisecond in
  0 <= r < day /\ r mod millisecond = 0 /\
  r / hour = h /\ r mod hour / minute = mi /\ r mod minute / second = sec /\ r mod second / millisecond = ms.
Proof.
  unfold day, hour, minute, second, millisecond. simpl. intros Hh Hmi Hs Hms.
  Z.to_euclidean_division_equations. lia.
Qed.

Lemma day_split days r : 0 <= r < day -> (days * day + r) / day = days /\ (days * day + r) mod day = r.
Proof. intros Hr. rewrite Z.add_comm, Z.div_add, Z.mod_add, Z.div_small, Z.mod_small by lia. done. Qed.

(** What the layout reads from the text of an instant. *)
Lemma parse_format t : stampable t -> parse_layout (format_timestamp t) = Some t.
Proof.
  intros [Hy Hm]. unfold format_timestamp, date_text, Year in *. destruct (civil (t / day)) as [[y m] d] eqn:Hc. simpl in Hy.
  apply days_of_civil in Hc as [Hv Hd]. pose proof Hv as Hv'. apply valid_date_at in Hv' as (i & n & Hmi & Hi & Hdn).
  assert (1 <= m <= 12 /\ n <= 31) as [Hm12 Hn].
  { pose proof (lookup_lt_Some _ _ _ Hi) as Hl. simpl in Hl. split; [lia|]. unfold month_lengths in Hi.
    do 12 (destruct i as [|i]; [simpl in Hi; injection Hi as <-; try (destruct (leap y)); lia|]). simpl in Hi. done. }
  assert (0 < day) as Hday by done.
  assert (0 <= t mod day < day) as Hr by by apply Z.mod_pos_bound.
  assert ((t mod day) mod millisecond = 0) as Hrm.
  { unfold day, hour, second, millisecond in *. Z.to_euclidean_division_equations. lia. }
  destruct (clock_parts _ Hr Hrm) as (h & mi & sec & ms & Et & Hh & Hmin & Hsec & Hms & E1 & E2 & E3 & E4).
  unfold parse_layout, clock_text. rewrite E1, E2, E3, E4, !string_app_assoc.
  rewrite (digits_pad 4) by (simpl; lia). cbn [mbind option_bind]. rewrite strip_prefix_app. cbn [mbind option_bind].
  do 2 (rewrite (digits_pad 2) by (simpl; lia); cbn [mbind option_bind]; rewrite strip_prefix_app; cbn [mbind option_bind]).
  do 3 (rewrite (digits_pad 2) by (simpl; lia); cbn [mbind option_bind]; rewrite strip_prefix_app; cbn [mbind option_bind]).
  rewrite (digits_pad 3) by (simpl; lia). cbn [mbind option_bind]. change "Z" with ("Z" +:+ "") at 2.
  rewrite strip_prefix_app. cbn [mbind option_bind].
  replace (0 * 10 ^ Z.of_nat 4 + y) with y by lia. replace (0 * 10 ^ Z.of_nat 2 + m) with m by lia.
  replace (0 * 10 ^ Z.of_nat 2 + d) with d by lia. replace (0 * 10 ^ Z.of_nat 2 + h) with h by lia.
  replace (0 * 10 ^ Z.of_nat 2 + mi) with mi by lia. replace (0 * 10 ^ Z.of_nat 2 + sec) with sec by lia.
  replace (0 * 10 ^ Z.of_nat 3 + ms) with ms by lia.
  rewrite Hv, !(proj2 (Z.ltb_lt _ _)) by lia. simpl. f_equal. rewrite Hd, <- Et.
  pose proof (Z.div_mod t day ltac:(lia)). lia.
Qed.

Lemma parse_layout_sound s t : parse_layout s = Some t -> stampable t /\ s = format_timestamp t.
Proof.
  unfold parse_layout. intros H.
  apply bind_Some in H as ([y s1] & H1 & H). apply bind_Some in H as (s1' & P1 & H).
  apply bind_Some in H as ([m s2] & H2 & H). apply bind_Some in H as (s2' & P2 & H).
  apply bind_Some in H as ([d s3] & H3 & H). apply bind_Some in H as (s3' & P3 & H).
  apply bind_Some in H as ([h s4] & H4 & H). apply bind_Some in H as (s4' & P4 & H).
  apply bind_Some in H as ([mi s5] & H5 & H). apply bind_Some in H as (s5' & P5 & H).
  apply bind_Some in H as ([sec s6] & H6 & H). apply bind_Some in H as (s6' & P6 & H).
  apply bind_Some in H as ([ms s7] & H7 & H). apply bind_Some in H as (s7' & P7 & H).
  destruct (_ && _) eqn:G; [|done]. injection H as <-. rewrite !andb_true_iff, String.eqb_eq, !Z.ltb_lt in G.
  destruct G as ((((-> & Hv) & Hh) & Hmi) & Hsec).
  apply strip_prefix_some in P1 as ->, P2 as ->, P3 as ->, P4 as ->, P5 as ->, P6 as ->, P7 as ->.
  apply digits_sound in H1 as (wy & By & -> & ->), H2 as (wm & Bm & -> & ->), H3 as (wd & Bd & -> & ->),
    H4 as (wh & Bh & -> & ->), H5 as (wmi & Bmi & -> & ->), H6 as (ws & Bs & -> & ->), H7 as (wms & Bms & -> & ->).
  rewrite !Z.mul_0_l, !Z.add_0_l in *. simpl in By, Bm, Bd, Bh, Bmi, Bs, Bms.
  destruct (clock_unparts wh wmi ws wms) as (Hr & Hrm & E1 & E2 & E3 & E4); [lia..|].
  set (r := wh * hour + wmi * minute + ws * second + wms * millisecond) in *.
  destruct (day_split (days_of wy wm wd) r Hr) as [Ed Er].
  pose proof (civil_days_of wy wm wd Hv) as Hc. split.
  - split; [unfold Year; rewrite Ed, Hc; simpl; lia|].
    unfold day, hour, second, millisecond in *. Z.to_euclidean_division_equations. lia.
  - unfold format_timestamp, date_text, clock_text. rewrite Ed, Er, Hc, E1, E2, E3, E4, !string_app_assoc. done.
Qed.

Lemma pad_length n : forall v, slen (pad n v) = Z.of_nat n.
Proof.
  induction n as [|k IH]; intros v; [done|]. cbn [pad]. specialize (IH (v mod 10 ^ Z.of_nat k)). unfold slen in *. simpl. lia.
Qed.

Lemma format_length t : slen (format_timestamp t) = timestamp_length.
Proof.
  unfold format_timestamp, date_text, clock_text. destruct (civil _) as [[y m] d].
  by rewrite !slen_app, !pad_length.
Qed.

Lemma parseTimestamp_ok s t : parseTimestamp s = Some t <-> stampable t /\ s = format_timestamp t.
Proof.
  unfold parseTimestamp. split.
  - destruct (negb _); [done|]. intros H. apply bind_Some in H as (u & Hu & H). destruct (String.eqb _ _); [|done].
    injection H as ->. by apply parse_layout_sound.
  - intros [Hs ->]. rewrite format_length, Z.eqb_refl. simpl. rewrite parse_format by done. simpl. by rewrite String.eqb_refl.
Qed.

Lemma normalizeTimestamp_ok v s : normalizeTimestamp v = Some s <->
  v <> 0 /\ stampable (truncate_ms v) /\ s = format_timestamp (truncate_ms v).
Proof.
  unfold normalizeTimestamp, stampable. destruct (is_zero v) eqn:Hz; autorewrite with guards in Hz; [split; [done | lia]|].
  destruct (_ || _) eqn:E; autorewrite with guards in E.
  - split; [done|]. intros (_ & [? _] & _). lia.
  - split; [intros [= <-] | intros (_ & _ & ->); done]. split; [done|]. split; [|done]. split; [lia | apply truncate_ms_mod].
Qed.

Lemma format_inj t u : stampable t -> stampable u -> format_timestamp t = format_timestamp u -> t = u.
Proof. intros Ht Hu E. apply parse_format in Ht, Hu. rewrite E in Ht. congruence. Qed.

(** A normalised timestamp parses back to the instant. *)
Lemma normalize_parse v s : normalizeTimestamp v = Some s -> parseTimestamp s = Some (truncate_ms v).
Proof. intros (_ & Hs & ->)%normalizeTimestamp_ok. by apply parseTimestamp_ok. Qed.
