(* ===== verification/Atomics.v ===== *)
(** * Shared atomic cells ([sync/atomic])

    Capabilities of the domain carry a pointer to an atomic flag or counter
    that all copies of the capability share; a second use of any copy is
    detected by compare-and-swap.  Cells live in a heap and a pointer is a
    location, so aliasing between copies is explicit.  A nil pointer is
    [None].  Identity markers (a pointer only compared for equality) are
    locations from the same allocator.  Every allocation returns a location
    not in use, as Go's does. *)

From S2P Require Import Prelude.

Definition loc : Type := positive.

Record heap := Heap {
  h_bools : gmap loc bool;      (** [*atomic.Bool] *)
  h_words : gmap loc Z;         (** [*atomic.Uint32] *)
  h_marks : gset loc;           (** identity markers *)
}.

Definition empty_heap : heap := Heap ∅ ∅ ∅.

Definition fresh_loc (h : heap) : loc := fresh (dom (h_bools h) ∪ dom (h_words h) ∪ h_marks h).

(** [&atomic.Bool{}] *)
Definition new_bool (h : heap) : loc * heap :=
  let l := fresh_loc h in (l, Heap (<[l := false]> (h_bools h)) (h_words h) (h_marks h)).

(** [&atomic.Uint32{}] *)
Definition new_word (h : heap) : loc * heap :=
  let l := fresh_loc h in (l, Heap (h_bools h) (<[l := 0]> (h_words h)) (h_marks h)).

(** A fresh identity marker. *)
Definition new_marker (h : heap) : loc * heap :=
  let l := fresh_loc h in (l, Heap (h_bools h) (h_words h) ({[l]} ∪ h_marks h)).

Definition load_bool (h : heap) (l : loc) : bool := default false (h_bools h !! l).
Definition load_word (h : heap) (l : loc) : Z := default 0 (h_words h !! l).

(** [p.CompareAndSwap(old, new)]: whether it swapped, and the heap after. *)
Definition cas_bool (h : heap) (l : loc) (old new : bool) : bool * heap :=
  if Bool.eqb (load_bool h l) old
  then (true, Heap (<[l := new]> (h_bools h)) (h_words h) (h_marks h))
  else (false, h).

Definition cas_word (h : heap) (l : loc) (old new : Z) : bool * heap :=
  if load_word h l =? old
  then (true, Heap (h_bools h) (<[l := new]> (h_words h)) (h_marks h))
  else (false, h).

Definition store_word (h : heap) (l : loc) (v : Z) : heap :=
  Heap (h_bools h) (<[l := v]> (h_words h)) (h_marks h).

(** ** Lemmas *)

(** Spent state stays spent: a flag that is set stays set, and a counter that
    reached its terminal states (2 and above) never goes back below them, so
    one-use capabilities are never re-armed. *)
Definition heap_le (h h' : heap) : Prop :=
  (forall l, load_bool h l = true -> load_bool h' l = true) /\
  (forall l, 2 <= load_word h l -> 2 <= load_word h' l).

#[export] Instance heap_le_preorder : PreOrder heap_le.
Proof. split; [by split | intros h1 h2 h3 [? ?] [? ?]; split; auto]. Qed.

Lemma fresh_loc_bools h : h_bools h !! fresh_loc h = None.
Proof.
  apply not_elem_of_dom. pose proof (is_fresh (dom (h_bools h) ∪ dom (h_words h) ∪ h_marks h)) as Hf.
  unfold fresh_loc. set_solver.
Qed.

Lemma fresh_loc_words h : h_words h !! fresh_loc h = None.
Proof.
  apply not_elem_of_dom. pose proof (is_fresh (dom (h_bools h) ∪ dom (h_words h) ∪ h_marks h)) as Hf.
  unfold fresh_loc. set_solver.
Qed.

Lemma new_bool_load h l : load_bool (new_bool h).2 l = load_bool h l.
Proof.
  unfold load_bool, new_bool. simpl. destruct (decide (fresh_loc h = l)) as [<-|Hne].
  - rewrite lookup_insert_eq, fresh_loc_bools. done.
  - by rewrite lookup_insert_ne.
Qed.

Lemma new_bool_le h : heap_le h (new_bool h).2.
Proof. split; intros l Hl; [by rewrite new_bool_load | done]. Qed.

Lemma new_word_load h l : load_word (new_word h).2 l = load_word h l.
Proof.
  unfold load_word, new_word. simpl. destruct (decide (fresh_loc h = l)) as [<-|Hne].
  - rewrite lookup_insert_eq, fresh_loc_words. done.
  - by rewrite lookup_insert_ne.
Qed.

Lemma cas_bool_swapped h l h' :
  cas_bool h l false true = (true, h') -> load_bool h l = false /\ load_bool h' l = true.
Proof.
  unfold cas_bool. destruct (load_bool h l) eqn:E; simpl; [done|]. intros [= <-].
  split; [done|]. unfold load_bool. simpl. by rewrite lookup_insert_eq.
Qed.

Lemma cas_bool_used h l : load_bool h l = true -> cas_bool h l false true = (false, h).
Proof. unfold cas_bool. intros ->. done. Qed.

Lemma new_word_le h : heap_le h (new_word h).2.
Proof. split; intros l Hl; [done | by rewrite new_word_load]. Qed.

Lemma cas_bool_le h l b h' : cas_bool h l false true = (b, h') -> heap_le h h'.
Proof.
  unfold cas_bool. destruct (load_bool h l) eqn:E; simpl; intros [= <- <-]; [done|].
  split; [|done]. intros l' Hl'. unfold load_bool in *. simpl.
  destruct (decide (l = l')) as [->|]; [by rewrite lookup_insert_eq | by rewrite lookup_insert_ne].
Qed.

(** Writing a counter that is not in a terminal state. *)
Lemma store_word_le h l v : load_word h l < 2 -> heap_le h (store_word h l v).
Proof.
  intros Hl. split; [done|]. intros l' Hl'. unfold load_word in *. simpl.
  destruct (decide (l = l')) as [->|]; [lia | by rewrite lookup_insert_ne].
Qed.

Lemma cas_word_le h l old new : old < 2 -> heap_le h (cas_word h l old new).2.
Proof.
  intros Ho. unfold cas_word. destruct (Z.eqb_spec (load_word h l) old); [|done].
  apply store_word_le. lia.
Qed.

Lemma cas_word_bools h l a b c h' : cas_word h l a b = (c, h') -> h_bools h' = h_bools h.
Proof. unfold cas_word. destruct (_ =? _); intros [= <- <-]; done. Qed.

Lemma cas_word_swapped h l a b h' :
  cas_word h l a b = (true, h') -> load_word h l = a /\ load_word h' l = b.
Proof.
  unfold cas_word. destruct (Z.eqb_spec (load_word h l) a); [|done]. intros [= <-].
  split; [done|]. unfold load_word. simpl. by rewrite lookup_insert_eq.
Qed.

Lemma cas_word_stuck h l a b : load_word h l <> a -> cas_word h l a b = (false, h).
Proof. unfold cas_word. destruct (Z.eqb_spec (load_word h l) a); done. Qed.
