(* ===== verification/Closed.v ===== *)
(** * Closed vocabularies

    A Go [type X string] with its constants is an inductive type with the
    source's constants as constructors and one more, [XOther raw], for a value
    spelled outside the vocabulary.  The class [Closed] is the contract the
    parsers rely on; every vocabulary of the program is an instance of it. *)

From S2P Require Import Prelude.
From Stdlib Require Import String.

Class Closed (T : Type) := {
  closed_eq :: EqDecision T;
  candidates : list T;
  spelled : T -> string;
  known : T -> bool;
  known_candidates : forall v, known v = true <-> v ∈ candidates;
  spelled_nodup : NoDup (spelled <$> candidates);
}.

(** The search of [parseClosed] and of the [Parse] loops: the first candidate
    with that spelling. *)
Fixpoint parse_among {T} (spell : T -> string) (l : list T) (value : string) : option T :=
  match l with
  | [] => None
  | c :: l' => if String.eqb (spell c) value then Some c else parse_among spell l' value
  end.

Definition parseClosed {T} `{Closed T} (value : string) : option T :=
  parse_among spelled candidates value.

Section ClosedLemmas.
Context {T : Type} `{Closed T}.

Lemma parse_among_some (l : list T) s v : parse_among spelled l s = Some v -> v ∈ l /\ spelled v = s.
Proof.
  induction l as [|c l IH]; simpl; [done|].
  destruct (String.eqb_spec (spelled c) s) as [E|E].
  - intros [= <-]. split; [left | done].
  - intros Hp. destruct (IH Hp). split; [by right | done].
Qed.

Lemma parse_among_spelled (l : list T) v :
  NoDup (spelled <$> l) -> v ∈ l -> parse_among spelled l (spelled v) = Some v.
Proof.
  induction l as [|c l IH]; simpl; intros Hnd Hin; [by apply elem_of_nil in Hin|].
  apply NoDup_cons in Hnd as [Hni Hnd].
  destruct (String.eqb_spec (spelled c) (spelled v)) as [E|E].
  - apply elem_of_cons in Hin as [->|Hin]; [done|].
    exfalso. apply Hni. rewrite E. by apply list_elem_of_fmap_2.
  - apply elem_of_cons in Hin as [->|Hin]; [done | by apply IH].
Qed.

(** Parsing a spelling yields the value exactly for the values of the
    vocabulary. *)
Lemma parseClosed_roundtrip (v : T) : known v = true <-> parseClosed (spelled v) = Some v.
Proof.
  rewrite known_candidates. split.
  - apply parse_among_spelled, spelled_nodup.
  - intros Hp. by apply parse_among_some in Hp as [? _].
Qed.

Lemma parseClosed_sound s (v : T) : parseClosed s = Some v -> known v = true /\ spelled v = s.
Proof. intros Hp. apply parse_among_some in Hp as [? ?]. by rewrite known_candidates. Qed.

Lemma spelled_inj (a b : T) : known a = true -> known b = true -> spelled a = spelled b -> a = b.
Proof.
  rewrite !parseClosed_roundtrip. intros Ha Hb E. rewrite E in Ha. congruence.
Qed.
End ClosedLemmas.

(** Discharges the laws of one vocabulary. *)
Ltac solve_closed_known :=
  intros v; split;
  [ destruct v; simpl; intros H; first [discriminate H | by apply (bool_decide_unpack _); vm_compute]
  | let H := fresh in intros H; repeat (apply elem_of_cons in H as [->|H]; [done|]);
    by apply elem_of_nil in H ].
Ltac solve_closed_nodup := refine (bool_decide_unpack _ _); vm_compute; exact I.

