(* ===== verification/Vocabulary.v ===== *)
(** * Reconciliation vocabulary (vocabulary.go, errors.go)

    Each closed string type with its constants, spelling, parser and [Closed]
    instance (the Go zero value is [XOther ""]), the sentinel errors and the
    limits. *)

From S2P Require Import Prelude Closed GoTime.
From Stdlib Require Import String.

(** ** Vocabularies *)

(** The input dimensions bound into a plan digest. *)
Inductive EvidenceKind :=
| EvidenceDesiredIntent
| EvidenceObservedSnapshot
| EvidenceProviderConnection
| EvidenceCredentialReference
| EvidenceCapability
| EvidenceQuota
| EvidenceCost
| EvidenceKindOther (raw : string).

#[export] Instance EvidenceKind_eq : EqDecision EvidenceKind.
Proof. solve_decision. Defined.

Definition EvidenceKind_String (v : EvidenceKind) : string :=
  match v with
  | EvidenceDesiredIntent => "DesiredIntent"
  | EvidenceObservedSnapshot => "ObservedSnapshot"
  | EvidenceProviderConnection => "ProviderConnection"
  | EvidenceCredentialReference => "CredentialReference"
  | EvidenceCapability => "Capability"
  | EvidenceQuota => "Quota"
  | EvidenceCost => "Cost"
  | EvidenceKindOther raw => raw
  end.

Definition evidenceKinds : list EvidenceKind :=
  [EvidenceDesiredIntent; EvidenceObservedSnapshot; EvidenceProviderConnection; EvidenceCredentialReference; EvidenceCapability; EvidenceQuota; EvidenceCost].

Definition EvidenceKind_known (v : EvidenceKind) : bool :=
  match v with | EvidenceKindOther _ => false | _ => true end.

#[export] Instance EvidenceKind_closed : Closed EvidenceKind.
Proof.
  refine {| candidates := evidenceKinds; spelled := EvidenceKind_String; known := EvidenceKind_known |}.
  - solve_closed_known.
  - solve_closed_nodup.
Defined.

Definition ParseEvidenceKind (value : string) : option EvidenceKind := parseClosed value.

(** Ordinary forward work or an explicit compensation plan. *)
Inductive PlanKind :=
| PlanKindForward
| PlanKindCompensation
| PlanKindOther (raw : string).

#[export] Instance PlanKind_eq : EqDecision PlanKind.
Proof. solve_decision. Defined.

Definition PlanKind_String (v : PlanKind) : string :=
  match v with
  | PlanKindForward => "Forward"
  | PlanKindCompensation => "Compensation"
  | PlanKindOther raw => raw
  end.

Definition planKinds : list PlanKind :=
  [PlanKindForward; PlanKindCompensation].

Definition PlanKind_known (v : PlanKind) : bool :=
  match v with | PlanKindOther _ => false | _ => true end.

#[export] Instance PlanKind_closed : Closed PlanKind.
Proof.
  refine {| candidates := planKinds; spelled := PlanKind_String; known := PlanKind_known |}.
  - solve_closed_known.
  - solve_closed_nodup.
Defined.

Definition ParsePlanKind (value : string) : option PlanKind := parseClosed value.

(** Whether candidate inputs reuse or supersede a plan. *)
Inductive PlanSelection :=
| PlanSelectionReuse
| PlanSelectionSupersede
| PlanSelectionOther (raw : string).

#[export] Instance PlanSelection_eq : EqDecision PlanSelection.
Proof. solve_decision. Defined.

Definition PlanSelection_String (v : PlanSelection) : string :=
  match v with
  | PlanSelectionReuse => "Reuse"
  | PlanSelectionSupersede => "Supersede"
  | PlanSelectionOther raw => raw
  end.

Definition planSelections : list PlanSelection :=
  [PlanSelectionReuse; PlanSelectionSupersede].

Definition PlanSelection_known (v : PlanSelection) : bool :=
  match v with | PlanSelectionOther _ => false | _ => true end.

#[export] Instance PlanSelection_closed : Closed PlanSelection.
Proof.
  refine {| candidates := planSelections; spelled := PlanSelection_String; known := PlanSelection_known |}.
  - solve_closed_known.
  - solve_closed_nodup.
Defined.

Definition ParsePlanSelection (value : string) : option PlanSelection := parseClosed value.

(** A new fixed-window reservation or a replay. *)
Inductive IdempotencyDisposition :=
| IdempotencyReserved
| IdempotencyReplay
| IdempotencyDispositionOther (raw : string).

#[export] Instance IdempotencyDisposition_eq : EqDecision IdempotencyDisposition.
Proof. solve_decision. Defined.

Definition IdempotencyDisposition_String (v : IdempotencyDisposition) : string :=
  match v with
  | IdempotencyReserved => "Reserved"
  | IdempotencyReplay => "Replay"
  | IdempotencyDispositionOther raw => raw
  end.

Definition idempotencyDispositions : list IdempotencyDisposition :=
  [IdempotencyReserved; IdempotencyReplay].

Definition IdempotencyDisposition_known (v : IdempotencyDisposition) : bool :=
  match v with | IdempotencyDispositionOther _ => false | _ => true end.

#[export] Instance IdempotencyDisposition_closed : Closed IdempotencyDisposition.
Proof.
  refine {| candidates := idempotencyDispositions; spelled := IdempotencyDisposition_String; known := IdempotencyDisposition_known |}.
  - solve_closed_known.
  - solve_closed_nodup.
Defined.

Definition ParseIdempotencyDisposition (value : string) : option IdempotencyDisposition := parseClosed value.

(** What one physical provider call is for. *)
Inductive AttemptPurpose :=
| AttemptPurposeForward
| AttemptPurposeObservation
| AttemptPurposeProviderCancel
| AttemptPurposeCompensation
| AttemptPurposeOther (raw : string).

#[export] Instance AttemptPurpose_eq : EqDecision AttemptPurpose.
Proof. solve_decision. Defined.

Definition AttemptPurpose_String (v : AttemptPurpose) : string :=
  match v with
  | AttemptPurposeForward => "Forward"
  | AttemptPurposeObservation => "Observation"
  | AttemptPurposeProviderCancel => "ProviderCancel"
  | AttemptPurposeCompensation => "Compensation"
  | AttemptPurposeOther raw => raw
  end.

Definition attemptPurposes : list AttemptPurpose :=
  [AttemptPurposeForward; AttemptPurposeObservation; AttemptPurposeProviderCancel; AttemptPurposeCompensation].

Definition AttemptPurpose_known (v : AttemptPurpose) : bool :=
  match v with | AttemptPurposeOther _ => false | _ => true end.

#[export] Instance AttemptPurpose_closed : Closed AttemptPurpose.
Proof.
  refine {| candidates := attemptPurposes; spelled := AttemptPurpose_String; known := AttemptPurpose_known |}.
  - solve_closed_known.
  - solve_closed_nodup.
Defined.

Definition ParseAttemptPurpose (value : string) : option AttemptPurpose := parseClosed value.

(** The state of a physical call. *)
Inductive AttemptState :=
| AttemptStatePrepared
| AttemptStateDispatched
| AttemptStateApplied
| AttemptStateNoEffect
| AttemptStateIndeterminate
| AttemptStateOther (raw : string).

#[export] Instance AttemptState_eq : EqDecision AttemptState.
Proof. solve_decision. Defined.

Definition AttemptState_String (v : AttemptState) : string :=
  match v with
  | AttemptStatePrepared => "Prepared"
  | AttemptStateDispatched => "Dispatched"
  | AttemptStateApplied => "Applied"
  | AttemptStateNoEffect => "NoEffect"
  | AttemptStateIndeterminate => "Indeterminate"
  | AttemptStateOther raw => raw
  end.

Definition attemptStates : list AttemptState :=
  [AttemptStatePrepared; AttemptStateDispatched; AttemptStateApplied; AttemptStateNoEffect; AttemptStateIndeterminate].

Definition AttemptState_known (v : AttemptState) : bool :=
  match v with | AttemptStateOther _ => false | _ => true end.

#[export] Instance AttemptState_closed : Closed AttemptState.
Proof.
  refine {| candidates := attemptStates; spelled := AttemptState_String; known := AttemptState_known |}.
  - solve_closed_known.
  - solve_closed_nodup.
Defined.

Definition ParseAttemptState (value : string) : option AttemptState := parseClosed value.

(** Durable provider-effect truth. *)
Inductive EffectState :=
| EffectStateApplied
| EffectStateNoEffect
| EffectStateIndeterminate
| EffectStateOther (raw : string).

#[export] Instance EffectState_eq : EqDecision EffectState.
Proof. solve_decision. Defined.

Definition EffectState_String (v : EffectState) : string :=
  match v with
  | EffectStateApplied => "Applied"
  | EffectStateNoEffect => "NoEffect"
  | EffectStateIndeterminate => "Indeterminate"
  | EffectStateOther raw => raw
  end.

Definition effectStates : list EffectState :=
  [EffectStateApplied; EffectStateNoEffect; EffectStateIndeterminate].

Definition EffectState_known (v : EffectState) : bool :=
  match v with | EffectStateOther _ => false | _ => true end.

#[export] Instance EffectState_closed : Closed EffectState.
Proof.
  refine {| candidates := effectStates; spelled := EffectState_String; known := EffectState_known |}.
  - solve_closed_known.
  - solve_closed_nodup.
Defined.

Definition ParseEffectState (value : string) : option EffectState := parseClosed value.

(** A proven absent call or uncertainty after owner loss. *)
Inductive DispatchProof :=
| DispatchProofNeverBegan
| DispatchProofUnknown
| DispatchProofOther (raw : string).

#[export] Instance DispatchProof_eq : EqDecision DispatchProof.
Proof. solve_decision. Defined.

Definition DispatchProof_String (v : DispatchProof) : string :=
  match v with
  | DispatchProofNeverBegan => "NeverBegan"
  | DispatchProofUnknown => "Unknown"
  | DispatchProofOther raw => raw
  end.

Definition dispatchProofs : list DispatchProof :=
  [DispatchProofNeverBegan; DispatchProofUnknown].

Definition DispatchProof_known (v : DispatchProof) : bool :=
  match v with | DispatchProofOther _ => false | _ => true end.

#[export] Instance DispatchProof_closed : Closed DispatchProof.
Proof.
  refine {| candidates := dispatchProofs; spelled := DispatchProof_String; known := DispatchProof_known |}.
  - solve_closed_known.
  - solve_closed_nodup.
Defined.

Definition ParseDispatchProof (value : string) : option DispatchProof := parseClosed value.

(** The reason projected through an Operation phase; [WorkReasonNone] is the empty spelling. *)
Inductive WorkReason :=
| WorkReasonNone
| WorkReasonCancelPending
| WorkReasonProviderOutcomeIndeterminate
| WorkReasonProviderEffectConflict
| WorkReasonQuarantined
| WorkReasonOther (raw : string).

#[export] Instance WorkReason_eq : EqDecision WorkReason.
Proof. solve_decision. Defined.

Definition WorkReason_String (v : WorkReason) : string :=
  match v with
  | WorkReasonNone => ""
  | WorkReasonCancelPending => "CancelPending"
  | WorkReasonProviderOutcomeIndeterminate => "ProviderOutcomeIndeterminate"
  | WorkReasonProviderEffectConflict => "ProviderEffectConflict"
  | WorkReasonQuarantined => "Quarantined"
  | WorkReasonOther raw => raw
  end.

Definition workReasons : list WorkReason :=
  [WorkReasonCancelPending; WorkReasonProviderOutcomeIndeterminate; WorkReasonProviderEffectConflict; WorkReasonQuarantined].

Definition WorkReason_known (v : WorkReason) : bool :=
  match v with | WorkReasonNone | WorkReasonOther _ => false | _ => true end.

#[export] Instance WorkReason_closed : Closed WorkReason.
Proof.
  refine {| candidates := workReasons; spelled := WorkReason_String; known := WorkReason_known |}.
  - solve_closed_known.
  - solve_closed_nodup.
Defined.

Definition ParseWorkReason (value : string) : option WorkReason := parseClosed value.

(** Classification of an at-least-once delivery. *)
Inductive DeliveryDisposition :=
| DeliveryAccepted
| DeliveryDuplicateActive
| DeliveryDuplicateCompleted
| DeliveryDispositionOther (raw : string).

#[export] Instance DeliveryDisposition_eq : EqDecision DeliveryDisposition.
Proof. solve_decision. Defined.

Definition DeliveryDisposition_String (v : DeliveryDisposition) : string :=
  match v with
  | DeliveryAccepted => "Accepted"
  | DeliveryDuplicateActive => "DuplicateActive"
  | DeliveryDuplicateCompleted => "DuplicateCompleted"
  | DeliveryDispositionOther raw => raw
  end.

Definition deliveryDispositions : list DeliveryDisposition :=
  [DeliveryAccepted; DeliveryDuplicateActive; DeliveryDuplicateCompleted].

Definition DeliveryDisposition_known (v : DeliveryDisposition) : bool :=
  match v with | DeliveryDispositionOther _ => false | _ => true end.

#[export] Instance DeliveryDisposition_closed : Closed DeliveryDisposition.
Proof.
  refine {| candidates := deliveryDispositions; spelled := DeliveryDisposition_String; known := DeliveryDisposition_known |}.
  - solve_closed_known.
  - solve_closed_nodup.
Defined.

Definition ParseDeliveryDisposition (value : string) : option DeliveryDisposition := parseClosed value.

(** Which heartbeat was maintained. *)
Inductive MaintenanceKind :=
| MaintenanceStoreLease
| MaintenanceQueueVisibility
| MaintenanceKindOther (raw : string).

#[export] Instance MaintenanceKind_eq : EqDecision MaintenanceKind.
Proof. solve_decision. Defined.

Definition MaintenanceKind_String (v : MaintenanceKind) : string :=
  match v with
  | MaintenanceStoreLease => "StoreLease"
  | MaintenanceQueueVisibility => "QueueVisibility"
  | MaintenanceKindOther raw => raw
  end.

Definition maintenanceKinds : list MaintenanceKind :=
  [MaintenanceStoreLease; MaintenanceQueueVisibility].

Definition MaintenanceKind_known (v : MaintenanceKind) : bool :=
  match v with | MaintenanceKindOther _ => false | _ => true end.

#[export] Instance MaintenanceKind_closed : Closed MaintenanceKind.
Proof.
  refine {| candidates := maintenanceKinds; spelled := MaintenanceKind_String; known := MaintenanceKind_known |}.
  - solve_closed_known.
  - solve_closed_nodup.
Defined.

Definition ParseMaintenanceKind (value : string) : option MaintenanceKind := parseClosed value.

(** The result of one heartbeat. *)
Inductive MaintenanceOutcome :=
| MaintenanceSucceeded
| MaintenanceFailed
| MaintenanceUnknown
| MaintenanceOutcomeOther (raw : string).

#[export] Instance MaintenanceOutcome_eq : EqDecision MaintenanceOutcome.
Proof. solve_decision. Defined.

Definition MaintenanceOutcome_String (v : MaintenanceOutcome) : string :=
  match v with
  | MaintenanceSucceeded => "Succeeded"
  | MaintenanceFailed => "Failed"
  | MaintenanceUnknown => "Unknown"
  | MaintenanceOutcomeOther raw => raw
  end.

Definition maintenanceOutcomes : list MaintenanceOutcome :=
  [MaintenanceSucceeded; MaintenanceFailed; MaintenanceUnknown].

Definition MaintenanceOutcome_known (v : MaintenanceOutcome) : bool :=
  match v with | MaintenanceOutcomeOther _ => false | _ => true end.

#[export] Instance MaintenanceOutcome_closed : Closed MaintenanceOutcome.
Proof.
  refine {| candidates := maintenanceOutcomes; spelled := MaintenanceOutcome_String; known := MaintenanceOutcome_known |}.
  - solve_closed_known.
  - solve_closed_nodup.
Defined.

Definition ParseMaintenanceOutcome (value : string) : option MaintenanceOutcome := parseClosed value.

(** Whether dispatch authority remains usable. *)
Inductive MaintenanceDirective :=
| MaintenanceContinue
| MaintenanceStopAndSurrender
| MaintenanceDirectiveOther (raw : string).

#[export] Instance MaintenanceDirective_eq : EqDecision MaintenanceDirective.
Proof. solve_decision. Defined.

Definition MaintenanceDirective_String (v : MaintenanceDirective) : string :=
  match v with
  | MaintenanceContinue => "Continue"
  | MaintenanceStopAndSurrender => "StopAndSurrender"
  | MaintenanceDirectiveOther raw => raw
  end.

Definition maintenanceDirectives : list MaintenanceDirective :=
  [MaintenanceContinue; MaintenanceStopAndSurrender].

Definition MaintenanceDirective_known (v : MaintenanceDirective) : bool :=
  match v with | MaintenanceDirectiveOther _ => false | _ => true end.

#[export] Instance MaintenanceDirective_closed : Closed MaintenanceDirective.
Proof.
  refine {| candidates := maintenanceDirectives; spelled := MaintenanceDirective_String; known := MaintenanceDirective_known |}.
  - solve_closed_known.
  - solve_closed_nodup.
Defined.

Definition ParseMaintenanceDirective (value : string) : option MaintenanceDirective := parseClosed value.

(** The outcome of one observation-budget step. *)
Inductive ObservationDecision :=
| ObservationContinue
| ObservationResolved
| ObservationQuarantine
| ObservationAlreadyDone
| ObservationDecisionOther (raw : string).

#[export] Instance ObservationDecision_eq : EqDecision ObservationDecision.
Proof. solve_decision. Defined.

Definition ObservationDecision_String (v : ObservationDecision) : string :=
  match v with
  | ObservationContinue => "Continue"
  | ObservationResolved => "Resolved"
  | ObservationQuarantine => "Quarantine"
  | ObservationAlreadyDone => "AlreadyDone"
  | ObservationDecisionOther raw => raw
  end.

Definition observationDecisions : list ObservationDecision :=
  [ObservationContinue; ObservationResolved; ObservationQuarantine; ObservationAlreadyDone].

Definition ObservationDecision_known (v : ObservationDecision) : bool :=
  match v with | ObservationDecisionOther _ => false | _ => true end.

#[export] Instance ObservationDecision_closed : Closed ObservationDecision.
Proof.
  refine {| candidates := observationDecisions; spelled := ObservationDecision_String; known := ObservationDecision_known |}.
  - solve_closed_known.
  - solve_closed_nodup.
Defined.

Definition ParseObservationDecision (value : string) : option ObservationDecision := parseClosed value.

(** Whether effect evidence may be removed. *)
Inductive RetentionDisposition :=
| RetentionKeep
| RetentionEligible
| RetentionDispositionOther (raw : string).

#[export] Instance RetentionDisposition_eq : EqDecision RetentionDisposition.
Proof. solve_decision. Defined.

Definition RetentionDisposition_String (v : RetentionDisposition) : string :=
  match v with
  | RetentionKeep => "Keep"
  | RetentionEligible => "Eligible"
  | RetentionDispositionOther raw => raw
  end.

Definition retentionDispositions : list RetentionDisposition :=
  [RetentionKeep; RetentionEligible].

Definition RetentionDisposition_known (v : RetentionDisposition) : bool :=
  match v with | RetentionDispositionOther _ => false | _ => true end.

#[export] Instance RetentionDisposition_closed : Closed RetentionDisposition.
Proof.
  refine {| candidates := retentionDispositions; spelled := RetentionDisposition_String; known := RetentionDisposition_known |}.
  - solve_closed_known.
  - solve_closed_nodup.
Defined.

Definition ParseRetentionDisposition (value : string) : option RetentionDisposition := parseClosed value.

(** The adopted API, outbox, delivery and provider crash boundaries. *)
Inductive CrashPoint :=
| CrashBeforeAPICommit
| CrashAfterAPICommit
| CrashBeforeOutboxPublish
| CrashAfterOutboxPublish
| CrashDeliveryBeforeFence
| CrashAfterAttemptPreparation
| CrashAfterResultCommit
| CrashLeaseLostDuringDispatch
| CrashPointOther (raw : string).

#[export] Instance CrashPoint_eq : EqDecision CrashPoint.
Proof. solve_decision. Defined.

Definition CrashPoint_String (v : CrashPoint) : string :=
  match v with
  | CrashBeforeAPICommit => "BeforeAPICommit"
  | CrashAfterAPICommit => "AfterAPICommitBeforeResponse"
  | CrashBeforeOutboxPublish => "BeforeOutboxPublish"
  | CrashAfterOutboxPublish => "AfterOutboxPublishBeforeReceipt"
  | CrashDeliveryBeforeFence => "DeliveryBeforeFence"
  | CrashAfterAttemptPreparation => "AfterAttemptPreparationBeforeResult"
  | CrashAfterResultCommit => "AfterResultCommitBeforeAcknowledgement"
  | CrashLeaseLostDuringDispatch => "LeaseLostDuringDispatch"
  | CrashPointOther raw => raw
  end.

Definition crashPoints : list CrashPoint :=
  [CrashBeforeAPICommit; CrashAfterAPICommit; CrashBeforeOutboxPublish; CrashAfterOutboxPublish; CrashDeliveryBeforeFence; CrashAfterAttemptPreparation; CrashAfterResultCommit; CrashLeaseLostDuringDispatch].

Definition CrashPoint_known (v : CrashPoint) : bool :=
  match v with | CrashPointOther _ => false | _ => true end.

#[export] Instance CrashPoint_closed : Closed CrashPoint.
Proof.
  refine {| candidates := crashPoints; spelled := CrashPoint_String; known := CrashPoint_known |}.
  - solve_closed_known.
  - solve_closed_nodup.
Defined.

Definition ParseCrashPoint (value : string) : option CrashPoint := parseClosed value.

(** The safe action at a crash boundary. *)
Inductive RecoveryAction :=
| RecoveryNoAcceptedWork
| RecoveryReplayDurableResult
| RecoveryReclaimOutbox
| RecoveryRepublishAllowed
| RecoveryNoProviderEffect
| RecoveryRecordIndeterminate
| RecoveryDurableNoOp
| RecoveryStopAndObserve
| RecoveryActionOther (raw : string).

#[export] Instance RecoveryAction_eq : EqDecision RecoveryAction.
Proof. solve_decision. Defined.

Definition RecoveryAction_String (v : RecoveryAction) : string :=
  match v with
  | RecoveryNoAcceptedWork => "NoAcceptedWork"
  | RecoveryReplayDurableResult => "ReplayDurableResult"
  | RecoveryReclaimOutbox => "ReclaimOutbox"
  | RecoveryRepublishAllowed => "RepublishAllowed"
  | RecoveryNoProviderEffect => "NoProviderEffect"
  | RecoveryRecordIndeterminate => "RecordIndeterminate"
  | RecoveryDurableNoOp => "DurableNoOp"
  | RecoveryStopAndObserve => "StopAndObserve"
  | RecoveryActionOther raw => raw
  end.

Definition recoveryActions : list RecoveryAction :=
  [RecoveryNoAcceptedWork; RecoveryReplayDurableResult; RecoveryReclaimOutbox; RecoveryRepublishAllowed; RecoveryNoProviderEffect; RecoveryRecordIndeterminate; RecoveryDurableNoOp; RecoveryStopAndObserve].

Definition RecoveryAction_known (v : RecoveryAction) : bool :=
  match v with | RecoveryActionOther _ => false | _ => true end.

#[export] Instance RecoveryAction_closed : Closed RecoveryAction.
Proof.
  refine {| candidates := recoveryActions; spelled := RecoveryAction_String; known := RecoveryAction_known |}.
  - solve_closed_known.
  - solve_closed_nodup.
Defined.

Definition ParseRecoveryAction (value : string) : option RecoveryAction := parseClosed value.

(** ** Errors *)

(** The sentinel errors; [ErrWrap] is [fmt.Errorf("%w: %w", outer, inner)]. *)
Inductive error :=
| ErrInvalidEvidence
| ErrEvidenceTooLarge
| ErrInvalidVersion
| ErrInvalidDigest
| ErrInvalidPlan
| ErrPlanMismatch
| ErrReplanBlocked
| ErrCompletedEffectMissing
| ErrInvalidIdempotency
| ErrIdempotencyConflict
| ErrReservationOutstanding
| ErrReservationLost
| ErrInvalidLease
| ErrLeaseHeld
| ErrLeaseLost
| ErrFenceExhausted
| ErrDispatchWindow
| ErrDispatchAuthority
| ErrInvalidAttempt
| ErrInvalidTransition
| ErrAttemptNotDefinitive
| ErrRetryForbidden
| ErrGenerationBlocked
| ErrInvalidSupersessionProof
| ErrInvalidObservation
| ErrObservationExhausted
| ErrInvalidDelivery
| ErrCapacity
| ErrInvalidRetention
| ErrInvalidTime
| ErrClockRegressed
| ErrSerializationForbidden
| ErrWrap (outer inner : error).

(** [errors.Is] *)
Fixpoint errors_is (e target : error) : Prop :=
  e = target \/ match e with ErrWrap a b => errors_is a target \/ errors_is b target | _ => False end.

(** ** Bounds (constants of vocabulary.go) *)

Definition ContractVersion : string := "veer.reconciliation.v1alpha1".
Definition MaxEvidenceBytes : Z := 262144.
Definition MaxEvidenceVersionBytes : Z := 128.
Definition MaxSemanticEffectBytes : Z := 65536.
Definition MaxEffectsPerOperation : Z := 1000.
Definition MaxObservationAttempts : Z := 1000.
Definition MinIdempotencyKeyBytes : Z := 16.
Definition MaxIdempotencyKeyBytes : Z := 128.
Definition HTTPIdempotencyWindow : Z := 24 * hour.
Definition MinimumEffectTombstoneRetention : Z := 90 * 24 * hour.
Definition StoreLeaseDuration : Z := 60 * second.
Definition QueueVisibilityDuration : Z := 60 * second.
Definition RenewalJitterMinimum : Z := 15 * second.
Definition RenewalDeadline : Z := 20 * second.
Definition DispatchSafetyMargin : Z := 10 * second.
Definition MaxFence : Z := max_int64.
Definition SmallActiveLeaseLimit : Z := 100.
Definition TargetActiveLeaseLimit : Z := 1000.
Definition MonthlyHours : Z := 744.
Definition SmallMonthlyLeaseRenewals : Z := 17856000.
Definition TargetMonthlyLeaseRenewals : Z := 178560000.
Definition SmallMonthlyVisibilityRequests : Z := 3546645.
Definition TargetMonthlyVisibilityRequests : Z := 17608245 * 3.
Definition SmallMonthlyQueueRequestCap : Z := 20000000 + SmallMonthlyVisibilityRequests.
Definition TargetMonthlyQueueRequestCap : Z := 100000000 + TargetMonthlyVisibilityRequests.

(** The renewal budgets are the ones of continuously active leases renewed at
    the earliest jitter over the 31-day month. *)
Lemma monthly_renewals_exact :
  SmallMonthlyLeaseRenewals = SmallActiveLeaseLimit * (MonthlyHours * hour / RenewalJitterMinimum) /\
  TargetMonthlyLeaseRenewals = TargetActiveLeaseLimit * (MonthlyHours * hour / RenewalJitterMinimum).
Proof. split; vm_compute; done. Qed.
