(* ===== verification/Digests.v ===== *)
(** * Typed digests and work keys (reconciliation/digest.go, safety.go)

    All the reconciliation digests share one representation: an initialised
    flag and 32 bytes.  They are SHA-256 of length-prefixed frames, printed as
    a type prefix and unpadded URL-safe base64. *)

From S2P Require Import Prelude Bytes Sha256 GoTime Closed Vocabulary.
From Stdlib Require Import Ascii String.

(** ** Identifiers and versions *)

(** [resource.ID] and [resource.ParseID]: [^[A-Za-z0-9][A-Za-z0-9_-]{15,127}$]. *)
Notation ID := string (only parsing).

Definition id_char (c : ascii) : bool := is_alnum c || one_of "_-" c.

Definition validID (value : ID) : bool :=
  matches_pattern is_alnum id_char 15 127 value.

(** [^[A-Za-z0-9][A-Za-z0-9._:/-]{0,127}$] *)
Definition version_char (c : ascii) : bool := is_alnum c || one_of "._:/-" c.

Definition validVersion (value : string) : bool :=
  (slen value <=? MaxEvidenceVersionBytes) && utf8_valid value &&
  matches_pattern is_alnum version_char 0 127 value.

(** ** Digest values *)

Record digestValue := DV { dv_initialized : bool; dv_digest : string }.

#[export] Instance digestValue_eq : EqDecision digestValue.
Proof. solve_decision. Defined.

(** The Go zero value [digestValue{}]. *)
Definition digest_zero : digestValue := DV false (zero_bytes 32).

(** [EvidenceDigest], [PlanDigest], [RequestFingerprint] and [ResultDigest]
    embed [digestValue] and add only a print prefix. *)
Definition EvidenceDigest := digestValue.
Definition PlanDigest := digestValue.
Definition RequestFingerprint := digestValue.
Definition ResultDigest := digestValue.

Definition evidenceDigestPrefix : string := "rve1_".
Definition planDigestPrefix : string := "rvp1_".
Definition effectKeyPrefix : string := "rfx1_".
Definition requestFingerprintPrefix : string := "rrq1_".
Definition resultDigestPrefix : string := "rrs1_".
Definition workKeyPrefix : string := "rwk1_".

Definition digestFromHasher (frames : list string) : digestValue :=
  DV true (sha256 (preimage frames)).

Definition deriveDigest (domain : string) (values : list string) : digestValue :=
  digestFromHasher (domain :: ContractVersion :: values).

Definition equalDigest (left right : digestValue) : bool :=
  dv_initialized left && dv_initialized right && String.eqb (dv_digest left) (dv_digest right).

Definition formatDigest (prefix : string) (value : digestValue) : string :=
  if dv_initialized value then prefix +:+ b64_encode (dv_digest value) else prefix +:+ "invalid".

Definition parseDigest (prefix value : string) : result error digestValue :=
  match strip_prefix prefix value with
  | None => Err ErrInvalidDigest
  | Some body =>
    match b64_decode body with
    | None => Err ErrInvalidDigest
    | Some decoded =>
      if negb (slen decoded =? sha256_size) || negb (String.eqb (prefix +:+ b64_encode decoded) value)
      then Err ErrInvalidDigest
      else Ok (DV true decoded)
    end
  end.

Definition marshalDigest (value : string) (initialized : bool) : result error string :=
  if negb initialized then Err ErrInvalidDigest else Ok value.

Definition NewRequestFingerprint (canonical : string) : result error RequestFingerprint :=
  if (slen canonical =? 0) || (MaxEvidenceBytes <? slen canonical) then Err ErrInvalidDigest
  else Ok (deriveDigest "veer.reconciliation.request.v1" [canonical]).

Definition NewResultDigest (canonical : string) : result error ResultDigest :=
  if (slen canonical =? 0) || (MaxEvidenceBytes <? slen canonical) then Err ErrInvalidDigest
  else Ok (deriveDigest "veer.reconciliation.result.v1" [canonical]).

(** ** Work keys *)

Record WorkKey := WK { wk_digest : digestValue; wk_planDigest : PlanDigest }.

Definition validWorkKey (value : WorkKey) : bool :=
  dv_initialized (wk_digest value) && dv_initialized (wk_planDigest value).

Definition WorkKey_String (value : WorkKey) : string :=
  if negb (validWorkKey value) then workKeyPrefix +:+ "invalid" else
  workKeyPrefix +:+ b64_encode (dv_digest (wk_planDigest value)) +:+ "." +:+
    b64_encode (dv_digest (wk_digest value)).

Definition WorkKey_Equal (value other : WorkKey) : bool :=
  validWorkKey value && validWorkKey other &&
  equalDigest (wk_planDigest value) (wk_planDigest other) &&
  equalDigest (wk_digest value) (wk_digest other).

(** [strings.Split(s, ".")] *)
Fixpoint split_dots_from (current : string) (s : string) : list string :=
  match s with
  | EmptyString => [current]
  | String c s' =>
      if Ascii.eqb c "."%char then current :: split_dots_from "" s'
      else split_dots_from (current +:+ String c "") s'
  end.
Definition split_dots (s : string) : list string := split_dots_from "" s.

Definition ParseWorkKey (value : string) : result error WorkKey :=
  match strip_prefix workKeyPrefix value with
  | None => Err ErrInvalidDigest
  | Some body =>
    match split_dots body with
    | [p0; p1] =>
      if String.eqb p0 "" || String.eqb p1 "" then Err ErrInvalidDigest else
      plan ← parseDigest planDigestPrefix (planDigestPrefix +:+ p0);
      work ← parseDigest workKeyPrefix (workKeyPrefix +:+ p1);
      Ok (WK work plan)
    | _ => Err ErrInvalidDigest
    end
  end.

(** ** Digest values that Go can hold: the array has 32 bytes *)

Definition digest_wf (d : digestValue) : Prop := slen (dv_digest d) = sha256_size.

(** ** Lemmas *)

Lemma equalDigest_true d e :
  equalDigest d e = true <-> dv_initialized d = true /\ dv_initialized e = true /\ d = e.
Proof.
  unfold equalDigest. destruct d as [i d], e as [j e]; simpl.
  rewrite !andb_true_iff, String.eqb_eq. naive_solver.
Qed.

Lemma equalDigest_refl d : equalDigest d d = dv_initialized d.
Proof. unfold equalDigest. rewrite String.eqb_refl. by destruct (dv_initialized d). Qed.

Lemma equalDigest_sym d e : equalDigest d e = equalDigest e d.
Proof.
  unfold equalDigest. rewrite String.eqb_sym.
  by destruct (dv_initialized d), (dv_initialized e).
Qed.

#[export] Hint Rewrite equalDigest_true : guards.

Lemma digestFromHasher_wf fs : digest_wf (digestFromHasher fs) /\ dv_initialized (digestFromHasher fs) = true.
Proof. split; [apply sha256_length | done]. Qed.

(** No prefix is a parse of another spelling: parsing accepts exactly what
    formatting an initialised 32-byte digest produces. *)
Lemma parseDigest_iff p s d :
  parseDigest p s = Ok d <-> dv_initialized d = true /\ digest_wf d /\ s = formatDigest p d.
Proof.
  unfold parseDigest, digest_wf, formatDigest. split.
  - destruct (strip_prefix p s) as [body|] eqn:Hp; [|done].
    destruct (b64_decode body) as [dec|]; [|done].
    destruct (_ || _) eqn:E; [done|]. intros [= <-]. simpl.
    autorewrite with guards in E. destruct E as [E1 E2].
    done.
  - destruct d as [[] bytes]; simpl; [|naive_solver]. intros (_ & Hlen & ->).
    rewrite strip_prefix_app, b64_roundtrip, Hlen, String.eqb_refl. done.
Qed.

Lemma formatDigest_inj p d e :
  dv_initialized d = true -> dv_initialized e = true -> formatDigest p d = formatDigest p e -> d = e.
Proof.
  destruct d as [[] d], e as [[] e]; try done. unfold formatDigest. simpl. intros _ _ H.
  apply string_app_inj_l, b64_encode_inj in H. by subst.
Qed.

Lemma split_dots_from_nodot acc s t :
  string_forall (fun c => negb (Ascii.eqb c "."%char)) s = true ->
  split_dots_from acc (s +:+ t) = split_dots_from (acc +:+ s) t.
Proof.
  revert acc; induction s as [|c s IH]; intros acc H; simpl in *; [by rewrite string_app_nil_r|].
  apply andb_true_iff in H as [Hc Hs]. apply negb_true in Hc. rewrite Hc, IH by done.
  by rewrite string_app_assoc.
Qed.

Lemma b64_nodot s : string_forall (fun c => negb (Ascii.eqb c "."%char)) (b64_encode s) = true.
Proof.
  apply b64_encode_forall. intros [[] [] [] [] [] []]; vm_compute; done.
Qed.

Lemma split_dots_two s t :
  split_dots (b64_encode s +:+ "." +:+ b64_encode t) = [b64_encode s; b64_encode t].
Proof.
  unfold split_dots. rewrite split_dots_from_nodot by apply b64_nodot. simpl. f_equal.
  pose proof (split_dots_from_nodot "" (b64_encode t) "" (b64_nodot t)) as H.
  rewrite string_app_nil_r in H. by rewrite H.
Qed.

Lemma b64_encode_nonempty s : slen s = sha256_size -> String.eqb (b64_encode s) "" = false.
Proof.
  destruct s as [|[] [|[] [|[] s]]]; try (vm_compute; done). all: intros _; done.
Qed.

Lemma WorkKey_String_inj k k' :
  validWorkKey k = true -> validWorkKey k' = true -> WorkKey_String k = WorkKey_String k' -> k = k'.
Proof.
  unfold WorkKey_String. intros H H'. rewrite H, H'. cbn [negb]. intros E.
  apply (string_app_inj_l workKeyPrefix) in E. apply (f_equal split_dots) in E.
  rewrite !split_dots_two in E. injection E as E1 E2.
  apply b64_encode_inj in E1. apply b64_encode_inj in E2.
  unfold validWorkKey in *. apply andb_true_iff in H as [? ?], H' as [? ?].
  destruct k as [[] []], k' as [[] []]; simpl in *. by subst.
Qed.

Lemma WorkKey_roundtrip_aux k :
  validWorkKey k = true -> digest_wf (wk_digest k) -> digest_wf (wk_planDigest k) ->
  ParseWorkKey (WorkKey_String k) = Ok k.
Proof.
  intros Hv Hd Hp. unfold WorkKey_String. rewrite Hv. cbn [negb].
  unfold ParseWorkKey.
  rewrite (strip_prefix_app workKeyPrefix), split_dots_two, !b64_encode_nonempty by done. cbn [orb].
  unfold validWorkKey in Hv. apply andb_true_iff in Hv as [Hi Hj].
  assert (forall p d, dv_initialized d = true -> digest_wf d ->
    parseDigest p (p +:+ b64_encode (dv_digest d)) = Ok d) as Hparse.
  { intros p d Hdi Hdw. apply parseDigest_iff. split; [done|split; [done|]].
    unfold formatDigest. by rewrite Hdi. }
  unfold mbind, result_bind. rewrite !Hparse by done. by destruct k.
Qed.
