(* ===== verification/Hierarchy.v ===== *)
(** * The product hierarchy (hierarchy/hierarchy.go)

    A snapshot is one validated, workspace-scoped tree of records: a Workspace
    root, Environments and Policies below it, Applications and
    ProviderConnections below an Environment and Components below an
    Application.  Ownership and parentage come only from a snapshot or from a
    placement derived from it. *)

From S2P Require Import Prelude Bytes Sha256 GoTime Closed Vocabulary Digests.
From Stdlib Require Import String.

(** ** Kinds and errors *)

Inductive Kind :=
| KindWorkspace
| KindEnvironment
| KindApplication
| KindComponent
| KindPolicy
| KindProviderConnection
| KindOther (raw : string).

#[export] Instance Kind_eq : EqDecision Kind.
Proof. solve_decision. Defined.

Definition Kind_String (kind : Kind) : string :=
  match kind with
  | KindWorkspace => "Workspace"
  | KindEnvironment => "Environment"
  | KindApplication => "Application"
  | KindComponent => "Component"
  | KindPolicy => "Policy"
  | KindProviderConnection => "ProviderConnection"
  | KindOther raw => raw
  end.

Inductive error :=
| ErrUnsupportedAPIVersion
| ErrUnsupportedKind
| ErrInvalidSnapshot
| ErrSnapshotTooLarge
| ErrInvalidPlacement
| ErrDuplicateID
| ErrWorkspaceRootMissing
| ErrWorkspaceMismatch
| ErrRootHasParent
| ErrParentRequired
| ErrParentNotFound
| ErrParentKindMismatch
| ErrCycle
| ErrResourceNotFound
| ErrImmutableID
| ErrImmutableKind
| ErrImmutableParent
| ErrImmutableWorkspaceID
| ErrDeleteRestricted
| ErrWrap (outer inner : error).

Definition Kind_known (kind : Kind) : bool := match kind with KindOther _ => false | _ => true end.

#[export] Instance Kind_closed : Closed Kind.
Proof.
  refine {| candidates := [KindWorkspace; KindEnvironment; KindApplication; KindComponent; KindPolicy;
              KindProviderConnection]; spelled := Kind_String; known := Kind_known |}.
  - solve_closed_known.
  - solve_closed_nodup.
Defined.

Definition ParseKind (value : string) : result error Kind := of_option (parseClosed value) ErrUnsupportedKind.

(** [ParseKind(kind.String())] as a check: the kind is in the vocabulary. *)
Definition checkKind (kind : Kind) : result error unit := fail_if (negb (Kind_known kind)) ErrUnsupportedKind.

Definition APIVersion : string := "v1alpha1".
Definition MaxSnapshotRecords : Z := 1 + 1000 + 10000 + 50000 + 2500 + 500.

(** The parent kind each kind requires; the roots and unknown kinds have the
    empty one. *)
Definition expectedParentKind (kind : Kind) : Kind :=
  match kind with
  | KindEnvironment => KindWorkspace
  | KindApplication => KindEnvironment
  | KindComponent => KindApplication
  | KindPolicy => KindWorkspace
  | KindProviderConnection => KindEnvironment
  | _ => KindOther ""
  end.

(** ** Records and placements *)

Record Record := Rec {
  r_apiVersion : string;
  r_id : ID;
  r_kind : Kind;
  r_workspaceID : ID;
  r_parent : option ID;
}.

Record Placement := Pl {
  p_id : ID;
  p_kind : Kind;
  p_workspaceID : ID;
  p_parent : option ID;
}.

Definition DeriveWorkspace (id : ID) : result error Placement :=
  if negb (validID id) then Err ErrInvalidPlacement else Ok (Pl id KindWorkspace id None).

Definition valid_parent (parent : option ID) : bool := match parent with Some p => validID p | None => true end.

Definition validateRecord (record : Record) : result error unit :=
  fail_if (negb (String.eqb (r_apiVersion record) APIVersion)) ErrUnsupportedAPIVersion;;
  checkKind (r_kind record);;
  fail_if (negb (validID (r_id record))) ErrInvalidSnapshot;;
  fail_if (negb (validID (r_workspaceID record))) ErrInvalidSnapshot;;
  fail_if (negb (valid_parent (r_parent record))) ErrInvalidSnapshot.

(** Three passes, so that the first failing pass names the error. *)
Definition validateRecords (records : list Record) : result error unit :=
  fail_if (existsb (fun r => negb (String.eqb (r_apiVersion r) APIVersion)) records) ErrUnsupportedAPIVersion;;
  fail_if (existsb (fun r => negb (Kind_known (r_kind r))) records) ErrUnsupportedKind;;
  fail_if (existsb (fun r => negb (validID (r_id r)) || negb (validID (r_workspaceID r))
                             || negb (valid_parent (r_parent r))) records) ErrInvalidSnapshot.

Definition validatePlacement (placement : Placement) : result error unit :=
  map_err (ErrWrap ErrInvalidPlacement) (checkKind (p_kind placement));;
  fail_if (negb (validID (p_id placement))) ErrInvalidPlacement;;
  fail_if (negb (validID (p_workspaceID placement))) ErrInvalidPlacement;;
  if bool_decide (p_kind placement = KindWorkspace) then
    fail_if (is_some (p_parent placement)
             || negb (String.eqb (p_workspaceID placement) (p_id placement))) ErrInvalidPlacement
  else match p_parent placement with
       | None => Err ErrInvalidPlacement
       | Some parent => fail_if (negb (validID parent)) ErrInvalidPlacement
       end.

(** [RecordFrom] reads three fields of the resource metadata. *)
Definition RecordFrom (apiVersion kind : string) (id workspaceID : ID) (parent : option ID) : result error Record :=
  fail_if (negb (String.eqb apiVersion APIVersion)) ErrUnsupportedAPIVersion;;
  parsedKind ← ParseKind kind;
  fail_if (negb (validID id)) ErrInvalidSnapshot;;
  fail_if (negb (validID workspaceID)) ErrInvalidSnapshot;;
  fail_if (negb (valid_parent parent)) ErrInvalidSnapshot;;
  Ok (Rec apiVersion id parsedKind workspaceID parent).

(** ** Cycles *)

Notation record_index := (gmap string Record).

(** The parent pointer the walk follows; a missing record reads as the zero
    record, as indexing a Go map does. *)
Definition parent_of (records : record_index) (id : ID) : option ID := records !! id ≫= r_parent.

(** The colours of the walk: an identifier that is absent is unseen. *)
Inductive colour := OnPath | Finished.
#[export] Instance colour_eq : EqDecision colour.
Proof. solve_decision. Defined.

Notation walk_state := (gmap string colour).

Definition finish_path (path : list ID) (state : walk_state) : walk_state :=
  foldl (fun st id => <[id := Finished]> st) state path.

(** One walk up the parents from [current].  The loop of the code has no bound:
    the fuel counts its turns, and [None] says that it is still running when the
    fuel is spent, which is no answer of the code ([walk_spec] shows that the
    number of records is enough). *)
Fixpoint walk (fuel : nat) (records : record_index) (state : walk_state) (path : list ID) (current : ID)
    : option (result error walk_state) :=
  match state !! current with
  | Some OnPath => Some (Err ErrCycle)
  | Some Finished => Some (Ok (finish_path path state))
  | None =>
      let state' := <[current := OnPath]> state in
      let path' := path ++ [current] in
      match parent_of records current, fuel with
      | None, _ => Some (Ok (finish_path path' state'))
      | Some parent, S fuel' => walk fuel' records state' path' parent
      | Some parent, O => None
      end
  end.

(** The walks from every record, in the order the map is iterated; [None] as
    for [walk]. *)
Fixpoint check_starts (fuel : nat) (records : record_index) (state : walk_state) (starts : list ID) : option (result error unit) :=
  match starts with
  | [] => Some (Ok tt)
  | start :: rest =>
      match state !! start with
      | Some _ => check_starts fuel records state rest
      | None =>
          match walk fuel records state [] start with
          | Some (Ok state') => check_starts fuel records state' rest
          | Some (Err e) => Some (Err e)
          | None => None
          end
      end
  end.

(** The default is never taken: the walks end. *)
Definition checkCycles (records : record_index) : result error unit :=
  default (Ok tt) (check_starts (size records) records ∅ (map_to_list records).*1).

(** ** Snapshots *)

Record Snapshot := Snap {
  s_initialized : bool;
  s_workspaceID : ID;
  s_records : record_index;
  s_hasChild : gset string;
}.

Fixpoint index_records (records : list Record) (index : record_index) : result error record_index :=
  match records with
  | [] => Ok index
  | record :: rest =>
      fail_if (is_some (index !! r_id record)) ErrDuplicateID;;
      index_records rest (<[r_id record := record]> index)
  end.

(** A pass over the index that fails on the first record the check refuses.
    Every pass has one error, so the order of the map does not matter. *)
Definition any_record (index : record_index) (bad : Record -> bool) : bool := existsb bad (map_to_list index).*2.

Definition is_workspace (record : Record) : bool := bool_decide (r_kind record = KindWorkspace).
Definition has_parent (record : Record) : bool := is_some (r_parent record).

Definition parent_missing (index : record_index) (record : Record) : bool :=
  match r_parent record with
  | None => false
  | Some parent => match index !! parent with Some _ => false | None => true end
  end.

Definition parent_mismatch (index : record_index) (record : Record) : bool :=
  match r_parent record with
  | None => false
  | Some parent => match index !! parent with
                   | Some p => negb (bool_decide (expectedParentKind (r_kind record) = r_kind p))
                   | None => true
                   end
  end.

Definition children_index (index : record_index) : gset string := list_to_set (omap r_parent (map_to_list index).*2).

Definition NewSnapshot (workspaceID : ID) (records : list Record) : result error Snapshot :=
  fail_if (negb (validID workspaceID)) ErrInvalidSnapshot;;
  fail_if (MaxSnapshotRecords <? llen records) (ErrWrap ErrInvalidSnapshot ErrSnapshotTooLarge);;
  validateRecords records;;
  index ← index_records records ∅;
  fail_if (any_record index (fun r => negb (String.eqb (r_workspaceID r) workspaceID)
                                      || (is_workspace r && negb (String.eqb (r_id r) workspaceID))))
    ErrWorkspaceMismatch;;
  fail_if (match index !! workspaceID with Some root => negb (is_workspace root) | None => true end)
    ErrWorkspaceRootMissing;;
  fail_if (any_record index (fun r => is_workspace r && has_parent r)) ErrRootHasParent;;
  fail_if (any_record index (fun r => negb (is_workspace r) && negb (has_parent r))) ErrParentRequired;;
  fail_if (any_record index (parent_missing index)) ErrParentNotFound;;
  checkCycles index;;
  fail_if (any_record index (parent_mismatch index)) ErrParentKindMismatch;;
  Ok (Snap true workspaceID index (children_index index)).

Definition Snapshot_Lookup (snapshot : Snapshot) (id : ID) : result error Record :=
  if negb (s_initialized snapshot) then Err ErrInvalidSnapshot
  else if negb (validID id) then Err ErrInvalidSnapshot
  else of_option (s_records snapshot !! id) ErrResourceNotFound.

Definition Snapshot_DeriveChild (snapshot : Snapshot) (kind : Kind) (id parentID : ID) : result error Placement :=
  fail_if (negb (s_initialized snapshot)) ErrInvalidSnapshot;;
  fail_if (bool_decide (kind = KindWorkspace)) ErrInvalidPlacement;;
  checkKind kind;;
  fail_if (negb (validID id)) ErrInvalidPlacement;;
  fail_if (negb (validID parentID)) ErrInvalidPlacement;;
  fail_if (is_some (s_records snapshot !! id)) ErrDuplicateID;;
  parent ← of_option (s_records snapshot !! parentID) ErrParentNotFound;
  fail_if (negb (bool_decide (expectedParentKind kind = r_kind parent))) ErrParentKindMismatch;;
  fail_if (negb (String.eqb (r_workspaceID parent) (s_workspaceID snapshot))) ErrWorkspaceMismatch;;
  Ok (Pl id kind (s_workspaceID snapshot) (Some parentID)).

Definition CheckTransition (before after : Record) : result error unit :=
  validateRecord before;;
  validateRecord after;;
  fail_if (negb (String.eqb (r_id before) (r_id after))) ErrImmutableID;;
  fail_if (negb (bool_decide (r_kind before = r_kind after))) ErrImmutableKind;;
  fail_if (negb (bool_decide (r_parent before = r_parent after))) ErrImmutableParent;;
  fail_if (negb (String.eqb (r_workspaceID before) (r_workspaceID after))) ErrImmutableWorkspaceID.

Definition Snapshot_CheckDelete (snapshot : Snapshot) (id : ID) : result error unit :=
  fail_if (negb (s_initialized snapshot)) ErrInvalidSnapshot;;
  fail_if (negb (is_some (s_records snapshot !! id))) ErrResourceNotFound;;
  fail_if (bool_decide (id ∈ s_hasChild snapshot)) ErrDeleteRestricted.
