(* ===== verification/HierarchyProps.v ===== *)
(** * Properties of the product hierarchy

    The cycle check is exact whatever order the map is iterated in, a snapshot
    is accepted exactly when its records form one tree of the right kinds, and
    deriving a child or deleting a leaf keeps it one. *)

From S2P Require Import Prelude Bytes Sha256 GoTime Closed Vocabulary Digests Hierarchy.
From Stdlib Require Import String.

(** ** Ancestry *)

Inductive rooted (records : record_index) : ID -> Prop :=
| rooted_top id : parent_of records id = None -> rooted records id
| rooted_step id parent : parent_of records id = Some parent -> rooted records parent -> rooted records id.

(** One step up the tree. *)
Definition up (records : record_index) (id parent : ID) : Prop := parent_of records id = Some parent.

Lemma rooted_tc records a b : rooted records a -> tc (up records) a b -> rooted records b.
Proof.
  intros Ha Htc. revert Ha. induction Htc as [x y Hxy|x y z Hxy _ IH]; intros Hx;
    (inversion Hx as [? Hn|? p Hp Hr]; subst; unfold up in Hxy; [congruence|]); [congruence|].
  apply IH. congruence.
Qed.

Lemma rooted_acyclic records a : rooted records a -> ~ tc (up records) a a.
Proof.
  intros Ha. induction Ha as [id Hn|id p Hp Hr IH]; intros Hc.
  - inversion Hc; unfold up in *; congruence.
  - apply IH. inversion Hc as [? ? Hxy|? y ? Hxy Hyz]; subst; unfold up in Hxy.
    + replace p with id in * by congruence. exact Hc.
    + replace y with p in * by congruence. eapply tc_r; eassumption.
Qed.

Lemma parent_of_dom records id p : parent_of records id = Some p -> id ∈ dom records.
Proof.
  unfold parent_of. intros H. destruct (records !! id) eqn:E; [|done].
  by apply elem_of_dom_2 in E.
Qed.

(** ** The walk *)

Lemma finish_path_lookup (path : list ID) st id :
  finish_path path st !! id = if decide (id ∈ path) then Some Finished else st !! id.
Proof.
  unfold finish_path. revert st. induction path as [|x path IH]; intros st; simpl; [done|].
  rewrite IH. destruct (decide (id = x)) as [->|Hne].
  - rewrite lookup_insert_eq. repeat case_decide; set_solver.
  - rewrite lookup_insert_ne by done. repeat case_decide; set_solver.
Qed.

(** Between walks: only finished colours, all of rooted records. *)
Definition settled (records : record_index) (st : walk_state) : Prop :=
  forall id c, st !! id = Some c -> c = Finished /\ rooted records id.

Record walking (records : record_index) (st : walk_state) (path : list ID) (current : ID) : Prop := {
  wk_finished : forall id, st !! id = Some Finished -> rooted records id;
  wk_onpath : forall id, st !! id = Some OnPath <-> id ∈ path;
  wk_nodup : NoDup path;
  wk_below : forall id, id ∈ path -> tc (up records) id current;
}.

Lemma path_rooted records (path : list ID) current :
  (forall id, id ∈ path -> tc (up records) id current) -> rooted records current ->
  forall id, id ∈ path -> rooted records id.
Proof.
  intros Hb Hr id Hin. specialize (Hb id Hin). clear Hin. revert Hr.
  induction Hb as [x y Hxy|x y z Hxy _ IH]; intros Hr.
  - by eapply rooted_step.
  - eapply rooted_step; [exact Hxy | by apply IH].
Qed.

Lemma walking_path_size records st path current :
  walking records st path current -> (List.length path <= size records)%nat.
Proof.
  intros [_ _ Hnd Hb].
  rewrite <- (size_dom (D := gset string) records).
  transitivity (size (list_to_set path : gset string)).
  - by rewrite size_list_to_set.
  - apply subseteq_size. intros id Hin. apply elem_of_list_to_set in Hin. specialize (Hb id Hin).
    inversion Hb; subst; by eapply parent_of_dom.
Qed.

Lemma walking_push records st path current parent :
  walking records st path current -> st !! current = None -> parent_of records current = Some parent ->
  walking records (<[current := OnPath]> st) (path ++ [current]) parent.
Proof.
  intros [Hf Hp Hnd Hb] Hc Hpar.
  assert (current ∉ path) as Hni by (intros Hin; apply Hp in Hin; congruence).
  split.
  - intros id. rewrite lookup_insert. case_decide; [done | apply Hf].
  - intros id. rewrite lookup_insert, elem_of_app, list_elem_of_singleton. case_decide as E.
    + subst. naive_solver.
    + rewrite Hp. naive_solver.
  - apply NoDup_app. split; [done|]. split; [|apply NoDup_singleton].
    intros x Hx Hx'. apply list_elem_of_singleton in Hx' as ->. done.
  - intros id Hin. apply elem_of_app in Hin as [Hin|Hin].
    + eapply tc_r; [by apply Hb | exact Hpar].
    + apply list_elem_of_singleton in Hin as ->. by apply tc_once.
Qed.

Lemma finish_settled records st path current :
  walking records st path current -> rooted records current -> settled records (finish_path path st).
Proof.
  intros [Hf Hp Hnd Hb] Hr id c. rewrite finish_path_lookup. case_decide as E.
  - intros [= <-]. split; [done|]. by eapply path_rooted.
  - intros Hc. destruct c; [by apply Hp in Hc|]. split; [done | by apply Hf].
Qed.

Lemma finish_top records st path current :
  walking records st path current -> rooted records current ->
  settled records (finish_path (path ++ [current]) (<[current := OnPath]> st)).
Proof.
  intros W Hr id c. rewrite finish_path_lookup. case_decide as E.
  - intros [= <-]. split; [done|].
    apply elem_of_app in E as [E|E]; [|by apply list_elem_of_singleton in E as ->].
    eapply path_rooted; [apply W | exact Hr | exact E].
  - apply not_elem_of_app in E as [E1 E2]. rewrite lookup_insert_ne by set_solver. intros Hid.
    destruct c; [by apply (wk_onpath _ _ _ _ W) in Hid|]. split; [done | by apply (wk_finished _ _ _ _ W)].
Qed.

(** The walk ends, and decides whether its start is rooted. *)
Lemma walk_spec records fuel : forall st path current,
  walking records st path current -> (size records <= List.length path + fuel)%nat ->
  match walk fuel records st path current with
  | Some (Ok st') => rooted records current /\ settled records st'
  | Some (Err e) => e = ErrCycle /\ ~ rooted records current
  | None => False
  end.
Proof.
  induction fuel as [|fuel IH]; intros st path current W Hfuel; simpl;
    destruct (st !! current) as [[|]|] eqn:Hc.
  1, 4: split; [done|]; intros Hr; eapply rooted_acyclic;
    [exact Hr | by apply (wk_below _ _ _ _ W), (wk_onpath _ _ _ _ W)].
  1, 3: assert (rooted records current) as Hr by (by apply (wk_finished _ _ _ _ W));
    split; [exact Hr | by apply (finish_settled _ _ _ current)].
  all: destruct (parent_of records current) as [parent|] eqn:Hpar;
    [pose proof (walking_push _ _ _ _ _ W Hc Hpar) as W'
    | assert (rooted records current) as Hr by (by apply rooted_top); split; [exact Hr | by apply finish_top]].
  - apply walking_path_size in W'. rewrite length_app in W'. simpl in W'. lia.
  - specialize (IH _ _ _ W' ltac:(rewrite length_app; simpl; lia)).
    destruct (walk fuel records _ _ parent) as [[st'|e]|]; [| |done].
    + destruct IH as [Hr Hs]. split; [by eapply rooted_step | exact Hs].
    + destruct IH as [-> Hr]. split; [done|]. intros Hcur. apply Hr. inversion Hcur; subst; congruence.
Qed.

Lemma settled_walking records st start :
  settled records st -> st !! start = None -> walking records st [] start.
Proof.
  intros Hs Hn. split; [| |apply NoDup_nil_2|by intros ? ?%elem_of_nil].
  - intros id Hid. by apply Hs in Hid as [_ ?].
  - intros id. rewrite elem_of_nil. split; [|done]. intros Hid. by apply Hs in Hid as [? _].
Qed.

Lemma check_starts_spec fuel records starts : (size records <= fuel)%nat -> forall st, settled records st ->
  match check_starts fuel records st starts with
  | Some (Ok _) => forall id, id ∈ starts -> rooted records id
  | Some (Err e) => e = ErrCycle /\ exists id, id ∈ starts /\ ~ rooted records id
  | None => False
  end.
Proof.
  intros Hfuel. induction starts as [|start rest IH]; intros st Hs; simpl; [by intros ? ?%elem_of_nil|].
  assert (forall st', settled records st' -> rooted records start ->
    match check_starts fuel records st' rest with
    | Some (Ok _) => forall id, id ∈ start :: rest -> rooted records id
    | Some (Err e) => e = ErrCycle /\ exists id, id ∈ start :: rest /\ ~ rooted records id
    | None => False
    end) as Hrest.
  { intros st' Hs' Hr. specialize (IH st' Hs'). destruct (check_starts fuel records st' rest) as [[]|]; [| |done].
    - intros id [->|Hin]%elem_of_cons; [done | by apply IH].
    - destruct IH as (-> & id & Hin & Hnr). split; [done|]. exists id. split; [by right | done]. }
  destruct (st !! start) as [c|] eqn:Hc; [apply Hrest; [done | by apply Hs in Hc as [_ ?]]|].
  pose proof (walk_spec records fuel st [] start (settled_walking _ _ _ Hs Hc) ltac:(simpl; lia)) as W.
  destruct (walk _ _ _ _ _) as [[st'|e]|]; [by apply Hrest; apply W| |done].
  destruct W as [-> Hr]. split; [done|]. exists start. split; [by left | done].
Qed.

(** Whatever the order of the starts, the check ends. *)
Lemma check_starts_cases fuel records starts : (size records <= fuel)%nat -> (forall id, id ∈ starts <-> id ∈ dom records) ->
  check_starts fuel records ∅ starts = Some (Ok tt) /\ (forall id, rooted records id) \/
  check_starts fuel records ∅ starts = Some (Err ErrCycle) /\ ~ forall id, rooted records id.
Proof.
  intros Hfuel Hl. pose proof (check_starts_spec fuel records starts Hfuel ∅ ltac:(intros ? ?; by rewrite lookup_empty)) as H.
  destruct (check_starts fuel records ∅ starts) as [[[]|e]|]; [| |done].
  - left. split; [done|]. intros id. destruct (parent_of records id) as [p|] eqn:E; [|by apply rooted_top].
    apply H, Hl. by eapply parent_of_dom.
  - right. destruct H as (-> & id & _ & Hr). split; [done|]. intros Hall. by apply Hr.
Qed.

Lemma starts_dom (records : record_index) (starts : list ID) : starts ≡ₚ (map_to_list records).*1 -> forall id, id ∈ starts <-> id ∈ dom records.
Proof.
  intros Hall id. rewrite Hall, list_elem_of_fmap, elem_of_dom. split.
  - intros ([k r] & -> & Hin). apply elem_of_map_to_list in Hin. by exists r.
  - intros [r Hr]. exists (id, r). split; [done | by apply elem_of_map_to_list].
Qed.

(** C36: the cycle check ends and is exact.  A walk has at most one turn per
    record and one more: with that bound or any larger one, and whatever the
    order in which the map of records is iterated, the check is over (it is never
    still running), with the same answer, which is success exactly when every
    walk up the parents ends at a record without a parent, and [ErrCycle]
    otherwise. *)
Theorem cycle_check_exact (records : record_index) (starts : list ID) (fuel : nat)
  (Hall : starts ≡ₚ (map_to_list records).*1) (Hfuel : (size records <= fuel)%nat) :
  exists answer, check_starts fuel records ∅ starts = Some answer /\ checkCycles records = answer /\
    (answer = Ok tt <-> forall id, rooted records id) /\ (answer <> Ok tt -> answer = Err ErrCycle).
Proof.
  unfold checkCycles.
  destruct (check_starts_cases _ _ _ Hfuel (starts_dom _ _ Hall)) as [[-> H1]|[-> H1]];
    destruct (check_starts_cases (size records) records _ (le_n _) (starts_dom _ _ (Permutation_refl _))) as [[-> H2]|[-> H2]];
    eexists; (split; [done|]); cbn [default]; naive_solver.
Qed.

(** ** Snapshots as trees *)

Definition record_valid (r : Record) : Prop :=
  r_apiVersion r = APIVersion /\ Kind_known (r_kind r) = true /\ validID (r_id r) = true /\
  validID (r_workspaceID r) = true /\ valid_parent (r_parent r) = true.

(** The place of one record in the tree rooted at [ws]. *)
Definition placed (ws : ID) (index : record_index) (r : Record) : Prop :=
  if is_workspace r then r_id r = ws /\ r_parent r = None
  else exists p parent, r_parent r = Some p /\ index !! p = Some parent /\ r_kind parent = expectedParentKind (r_kind r).

Definition index_of (records : list Record) : record_index := list_to_map ((fun r => (r_id r, r)) <$> records).

Record tree (ws : ID) (records : list Record) : Prop := {
  tr_workspace : validID ws = true;
  tr_bounded : llen records <= MaxSnapshotRecords;
  tr_valid : Forall record_valid records;
  tr_distinct : NoDup (r_id <$> records);
  tr_owned : Forall (fun r => r_workspaceID r = ws) records;
  tr_root : exists root, index_of records !! ws = Some root /\ r_kind root = KindWorkspace;
  tr_placed : Forall (placed ws (index_of records)) records;
}.

Definition snapshot_of (ws : ID) (records : list Record) : Snapshot :=
  Snap true ws (index_of records) (children_index (index_of records)).

Lemma index_keys (records : list Record) : ((fun r => (r_id r, r)) <$> records).*1 = r_id <$> records.
Proof. rewrite <- list_fmap_compose. done. Qed.

Lemma index_of_lookup records id r : NoDup (r_id <$> records) ->
  index_of records !! id = Some r <-> r ∈ records /\ r_id r = id.
Proof.
  intros Hnd. unfold index_of. rewrite <- elem_of_list_to_map by (by rewrite index_keys).
  rewrite list_elem_of_fmap. naive_solver.
Qed.

Lemma index_of_dom records id : id ∈ dom (index_of records) <-> id ∈ r_id <$> records.
Proof. unfold index_of. rewrite dom_list_to_map, elem_of_list_to_set, index_keys. done. Qed.

Lemma index_records_ok (records : list Record) : forall (index index' : record_index),
  index_records records index = Ok index' <->
  NoDup (r_id <$> records) /\ (forall r, r ∈ records -> r_id r ∉ dom index) /\ index' = index_of records ∪ index.
Proof.
  induction records as [|r records IH]; intros index index'; simpl.
  - unfold index_of. simpl. rewrite (left_id_L ∅ (∪)). split.
    + intros [= <-]. split; [apply NoDup_nil_2|]. split; [|done]. by intros ? ?%elem_of_nil.
    + by intros (_ & _ & ->).
  - rewrite bind_ok. setoid_rewrite fail_if_ok.
    assert (index_of (r :: records) ∪ index = index_of records ∪ <[r_id r := r]> index \/ r_id r ∈ r_id <$> records) as Hu.
    { destruct (decide (r_id r ∈ r_id <$> records)) as [Hin|Hin]; [by right|left].
      unfold index_of at 1. simpl. fold (index_of records).
      rewrite <- insert_union_l, insert_union_r; [done|].
      apply (not_elem_of_dom (D := gset string)). intros Hd. by apply index_of_dom in Hd. }
    rewrite NoDup_cons. setoid_rewrite elem_of_cons. split.
    + intros ([] & Hnone & H). apply IH in H as (Hnd & Hout & ->).
      destruct (index !! r_id r) eqn:E; [done|].
      assert (r_id r ∉ r_id <$> records) as Hni.
      { intros Hin. apply list_elem_of_fmap in Hin as (r' & E' & Hin).
        apply (Hout r' Hin). rewrite <- E'. apply elem_of_dom. rewrite lookup_insert_eq. by eexists. }
      split; [done|]. split; [|naive_solver].
      intros r' [->|Hin]; [by apply not_elem_of_dom|].
      specialize (Hout r' Hin). rewrite dom_insert in Hout. set_solver.
    + intros ((Hni & Hnd) & Hout & ->). exists tt.
      pose proof (Hout r ltac:(by left)) as Hr. apply not_elem_of_dom in Hr. rewrite Hr. split; [done|].
      apply IH. split; [done|]. split; [|naive_solver].
      intros r' Hin. rewrite dom_insert. apply not_elem_of_union. split; [|apply Hout; by right].
      intros E. apply elem_of_singleton in E. apply Hni. rewrite <- E. by apply list_elem_of_fmap_2.
Qed.

Lemma existsb_false {A} (f : A -> bool) (l : list A) : existsb f l = false <-> Forall (fun x => f x = false) l.
Proof. induction l as [|x l IH]; simpl; [by split|]. rewrite orb_false_iff, Forall_cons, IH. done. Qed.

Lemma any_record_false records bad : NoDup (r_id <$> records) ->
  any_record (index_of records) bad = false <-> Forall (fun r => bad r = false) records.
Proof.
  intros Hnd. unfold any_record.
  assert ((map_to_list (index_of records)).*2 ≡ₚ records) as Hp.
  { unfold index_of. rewrite map_to_list_to_map by (by rewrite index_keys).
    rewrite <- list_fmap_compose. unfold compose. simpl. by rewrite list_fmap_id. }
  by rewrite existsb_false, Hp.
Qed.

Lemma validateRecords_ok records : validateRecords records = Ok tt <-> Forall record_valid records.
Proof.
  unfold validateRecords, record_valid. split.
  - intros H. apply bind_ok in H as ([] & H1 & H). apply bind_ok in H as ([] & H2 & H3).
    apply fail_if_ok, existsb_false in H1, H2, H3. rewrite Forall_forall in *. intros r Hin.
    specialize (H1 r Hin). specialize (H2 r Hin). specialize (H3 r Hin). simpl in *.
    autorewrite with guards in *. naive_solver.
  - intros H. rewrite !(proj2 (existsb_false _ _)); [done|..]; (eapply Forall_impl; [exact H|]);
      simpl; intros r (H1 & H2 & H3 & H4 & H5); by rewrite ?H1, ?H2, ?H3, ?H4, ?H5.
Qed.

(** The depth of a kind; each step up the tree decreases it. *)
Definition depth (kind : Kind) : nat :=
  match kind with
  | KindWorkspace => 0
  | KindEnvironment | KindPolicy => 1
  | KindApplication | KindProviderConnection => 2
  | KindComponent => 3
  | KindOther _ => 0
  end.

Lemma depth_expected kind : Kind_known kind = true -> kind <> KindWorkspace ->
  depth kind = S (depth (expectedParentKind kind)) /\ Kind_known (expectedParentKind kind) = true.
Proof. by destruct kind. Qed.

Lemma placed_rooted ws records : NoDup (r_id <$> records) -> Forall record_valid records ->
  Forall (placed ws (index_of records)) records -> forall id, rooted (index_of records) id.
Proof.
  intros Hnd Hv Hp.
  assert (forall n id r, index_of records !! id = Some r -> (depth (r_kind r) <= n)%nat -> rooted (index_of records) id) as Hd.
  { induction n as [|n IH]; intros id r Hr Hn;
      pose proof (proj1 (index_of_lookup _ _ _ Hnd) Hr) as [Hin Hid];
      rewrite Forall_forall in Hv, Hp; specialize (Hp r Hin); destruct (Hv r Hin) as (_ & Hk & _);
      unfold placed, is_workspace in Hp; case_bool_decide as E.
    1, 3: apply rooted_top; unfold parent_of; rewrite Hr; apply Hp.
    all: destruct (depth_expected _ Hk E) as [Hdepth _]; destruct Hp as (p & pr & Hpar & Hpr & Hkind).
    - lia.
    - eapply rooted_step; [unfold parent_of; rewrite Hr; exact Hpar|]. apply (IH p pr Hpr). rewrite Hkind. lia. }
  intros id. destruct (index_of records !! id) as [r|] eqn:Hr; [by eapply Hd|].
  apply rooted_top. unfold parent_of. by rewrite Hr.
Qed.

Lemma checkCycles_ok records : checkCycles records = Ok tt <-> forall id, rooted records id.
Proof.
  unfold checkCycles. destruct (check_starts_cases (size records) records _ (le_n _) (starts_dom _ _ (Permutation_refl _))) as [[-> H]|[-> H]]; naive_solver.
Qed.

(** ** When a record set is accepted *)

(** The passes after the index is built, read off a tree. *)
Lemma placed_checks ws records : NoDup (r_id <$> records) ->
  Forall (placed ws (index_of records)) records ->
  Forall (fun r => is_workspace r && negb (String.eqb (r_id r) ws) = false) records /\
  Forall (fun r => is_workspace r && has_parent r = false) records /\
  Forall (fun r => negb (is_workspace r) && negb (has_parent r) = false) records /\
  Forall (fun r => parent_missing (index_of records) r = false) records /\
  Forall (fun r => parent_mismatch (index_of records) r = false) records.
Proof.
  intros Hnd Hp. rewrite !Forall_forall in *.
  repeat split; intros r Hin; specialize (Hp r Hin);
    unfold placed, parent_missing, parent_mismatch, has_parent in *; destruct (is_workspace r);
    try (destruct Hp as [Hid Hpar]; by rewrite ?Hid, ?Hpar, ?String.eqb_refl);
    destruct Hp as (p & pr & Hpar & Hpr & Hk); rewrite Hpar; try done; rewrite Hpr; try done.
  by rewrite Hk, bool_decide_eq_true_2.
Qed.

Lemma checks_placed ws records :
  Forall (fun r => is_workspace r && negb (String.eqb (r_id r) ws) = false) records ->
  Forall (fun r => is_workspace r && has_parent r = false) records ->
  Forall (fun r => negb (is_workspace r) && negb (has_parent r) = false) records ->
  Forall (fun r => parent_mismatch (index_of records) r = false) records ->
  Forall (placed ws (index_of records)) records.
Proof.
  rewrite !Forall_forall. intros H1 H2 H3 H4 r Hin.
  specialize (H1 r Hin). specialize (H2 r Hin). specialize (H3 r Hin). specialize (H4 r Hin).
  unfold placed, parent_mismatch, has_parent in *.
  destruct (is_workspace r), (r_parent r) as [p|]; simpl in *; try discriminate.
  - split; [|done]. apply negb_false in H1. by apply String.eqb_eq in H1.
  - destruct (index_of records !! p) as [pr|] eqn:E; [|done]. exists p, pr.
    apply negb_false, bool_decide_eq_true in H4. done.
Qed.

Lemma NewSnapshot_ok ws records s : NewSnapshot ws records = Ok s <-> tree ws records /\ s = snapshot_of ws records.
Proof.
  unfold NewSnapshot. split.
  - intros H.
    repeat match type of H with _ ≫= _ = _ => let Hg := fresh "G" in apply bind_ok in H as (? & Hg & H) end.
    injection H as <-.
    apply fail_if_ok in G, G0. destruct x1. apply validateRecords_ok in G1.
    apply index_records_ok in G2 as (Hnd & _ & ->). rewrite (right_id_L ∅ (∪)) in *.
    apply fail_if_ok, (any_record_false _ _ Hnd) in G3, G5, G6, G7, G9. apply fail_if_ok in G4.
    split; [|done].
    assert (Forall (fun r => is_workspace r && negb (String.eqb (r_id r) ws) = false) records) as Hroots
      by (eapply Forall_impl; [exact G3|]; simpl; intros r Hr; by apply orb_false_iff in Hr as [_ ?]).
    split; [by apply negb_false in G | by apply Z.ltb_ge in G0 | done | done | | | by apply checks_placed].
    + eapply Forall_impl; [exact G3|]. simpl. intros r Hr. apply orb_false_iff in Hr as [Hr _].
      apply negb_false in Hr. by apply String.eqb_eq.
    + destruct (index_of records !! ws) as [root|]; [|done]. exists root. split; [done|].
      apply negb_false in G4. by apply bool_decide_eq_true in G4.
  - intros [[Hw Hb Hv Hnd Ho (root & Hroot & Hk) Hp] ->].
    destruct (placed_checks ws records Hnd Hp) as (C1 & C2 & C3 & C4 & C5).
    rewrite Hw, (proj2 (Z.ltb_ge _ _) Hb), (proj2 (validateRecords_ok _) Hv). simpl.
    rewrite (proj2 (index_records_ok records ∅ (index_of records)))
      by (rewrite (right_id_L ∅ (∪)); split; [done|]; split; [|done]; intros ? ? ?; set_solver).
    unfold mbind, result_bind.
    assert (is_workspace root = true) as Hwr by (unfold is_workspace; by rewrite bool_decide_eq_true_2).
    rewrite Hroot, Hwr, !(proj2 (any_record_false _ _ Hnd)), (proj2 (checkCycles_ok _)); simpl; try done.
    + by eapply placed_rooted.
    + rewrite Forall_forall in *. intros r Hin. rewrite (Ho r Hin), String.eqb_refl. simpl. by apply C1.
Qed.

(** C37: a snapshot is exactly a tree.  [NewSnapshot] succeeds exactly on a
    bounded set of valid records with distinct IDs, all owned by the workspace,
    whose root is that Workspace and in which every other record names a
    parent of the kind its own kind requires; the snapshot then indexes these
    records.  No cycle can pass, although kinds are checked after the cycles. *)
Theorem snapshot_exact (ws : ID) (records : list Record) (s : Snapshot) :
  NewSnapshot ws records = Ok s <-> tree ws records /\ s = snapshot_of ws records.
Proof. apply NewSnapshot_ok. Qed.

(** ** Growing and shrinking a tree *)

Lemma children_elem records id : NoDup (r_id <$> records) ->
  id ∈ children_index (index_of records) <-> exists r, r ∈ records /\ r_parent r = Some id.
Proof.
  intros Hnd. unfold children_index. rewrite elem_of_list_to_set, list_elem_of_omap.
  assert (forall r, r ∈ (map_to_list (index_of records)).*2 <-> r ∈ records) as Hr.
  { intros r. rewrite list_elem_of_fmap. split.
    - intros ([k r'] & -> & Hin). apply elem_of_map_to_list, index_of_lookup in Hin as [? _]; done.
    - intros Hin. exists (r_id r, r). split; [done|]. apply elem_of_map_to_list. by apply index_of_lookup. }
  setoid_rewrite Hr. done.
Qed.

Lemma index_of_cons_ne r records id : id <> r_id r -> index_of (r :: records) !! id = index_of records !! id.
Proof. intros Hne. unfold index_of. simpl. by rewrite lookup_insert_ne. Qed.

Definition without (id : ID) (records : list Record) : list Record := filter (fun r => r_id r <> id) records.

Lemma without_nodup id records : NoDup (r_id <$> records) -> NoDup (r_id <$> without id records).
Proof.
  unfold without. induction records as [|r records IH]; [done|]. rewrite fmap_cons, NoDup_cons. intros [Hni Hnd].
  rewrite filter_cons. case_decide as E; [|by apply IH]. rewrite fmap_cons, NoDup_cons. split; [|by apply IH].
  intros (r' & E' & Hin)%list_elem_of_fmap. apply list_elem_of_filter in Hin as [_ Hin].
  apply Hni. rewrite E'. by apply list_elem_of_fmap_2.
Qed.

Lemma index_without id records p : NoDup (r_id <$> records) ->
  index_of (without id records) !! p = if decide (p = id) then None else index_of records !! p.
Proof.
  intros Hnd. apply option_eq. intros r. rewrite index_of_lookup by by apply without_nodup.
  unfold without. rewrite list_elem_of_filter. case_decide as E.
  - naive_solver.
  - rewrite index_of_lookup by done. naive_solver.
Qed.

Lemma Forall_without (P : Record -> Prop) id records : Forall P records -> Forall P (without id records).
Proof. unfold without. rewrite !Forall_forall. intros H r Hin. apply list_elem_of_filter in Hin as [_ ?]. auto. Qed.

Lemma no_self_parent ws index r : record_valid r -> placed ws index r -> index !! r_id r = Some r ->
  r_parent r <> Some (r_id r).
Proof.
  intros (_ & Hk & _) Hp Hr E. unfold placed, is_workspace in Hp. case_bool_decide as Ew.
  - destruct Hp. congruence.
  - destruct Hp as (p & pr & Hpar & Hpr & Hkind). replace p with (r_id r) in * by congruence.
    replace pr with r in * by congruence. destruct (r_kind r); simpl in *; congruence.
Qed.

Definition record_of (pl : Placement) : Record :=
  Rec APIVersion (p_id pl) (p_kind pl) (p_workspaceID pl) (p_parent pl).

(** What a child placement was derived from. *)
Lemma DeriveChild_ok s kind id parentID pl :
  Snapshot_DeriveChild s kind id parentID = Ok pl <->
  exists parent, s_initialized s = true /\ kind <> KindWorkspace /\ Kind_known kind = true /\
    validID id = true /\ validID parentID = true /\ s_records s !! id = None /\
    s_records s !! parentID = Some parent /\ r_kind parent = expectedParentKind kind /\
    r_workspaceID parent = s_workspaceID s /\ pl = Pl id kind (s_workspaceID s) (Some parentID).
Proof.
  unfold Snapshot_DeriveChild, checkKind. split.
  - intros H.
    repeat match type of H with _ ≫= _ = _ => let Hg := fresh "G" in apply bind_ok in H as (? & Hg & H) end.
    injection H as <-. apply fail_if_ok in G, G0, G1, G2, G3, G4, G6, G7. apply of_option_ok in G5.
    autorewrite with guards in *.
    destruct (s_records s !! id) eqn:E; [done|]. eexists; repeat split; try done.
  - intros (parent & -> & Hk & -> & -> & -> & -> & -> & Hpk & Hw & ->). simpl.
    rewrite (bool_decide_eq_false_2 _ Hk). simpl.
    rewrite (bool_decide_eq_true_2 (expectedParentKind kind = r_kind parent)) by done. simpl.
    by rewrite Hw, String.eqb_refl.
Qed.

Lemma CheckDelete_ok s id : Snapshot_CheckDelete s id = Ok tt <->
  s_initialized s = true /\ id ∈ dom (s_records s) /\ id ∉ s_hasChild s.
Proof.
  unfold Snapshot_CheckDelete. rewrite elem_of_dom. split.
  - intros H. apply bind_ok in H as ([] & G & H). apply bind_ok in H as ([] & G1 & G2).
    apply fail_if_ok in G, G1, G2. autorewrite with guards in *.
    destruct (s_records s !! id) as [r|]; [|done]. split; [done|]. split; [by exists r | done].
  - intros (-> & [r ->] & Hn). simpl. by rewrite bool_decide_eq_false_2.
Qed.

Lemma tree_insert ws records kind id parentID parent :
  tree ws records -> llen records < MaxSnapshotRecords -> kind <> KindWorkspace -> Kind_known kind = true ->
  validID id = true -> validID parentID = true -> index_of records !! id = None ->
  index_of records !! parentID = Some parent -> r_kind parent = expectedParentKind kind ->
  tree ws (Rec APIVersion id kind ws (Some parentID) :: records).
Proof.
  intros [Hw Hb Hv Hnd Ho (root & Hroot & Hrk) Hp] Hmax Hk Hkn Hid Hpid Hnew Hpar Hpk.
  assert (id ∉ r_id <$> records) as Hni
    by (intros Hin; apply index_of_dom, elem_of_dom in Hin as [? ?]; congruence).
  assert (forall p pr, index_of records !! p = Some pr ->
    index_of (Rec APIVersion id kind ws (Some parentID) :: records) !! p = Some pr) as Hext.
  { intros p pr E. rewrite index_of_cons_ne; [done|]. simpl. intros ->. congruence. }
  split.
  - done.
  - simpl List.length. lia.
  - by constructor.
  - rewrite fmap_cons, NoDup_cons. done.
  - by constructor.
  - exists root. split; [by apply Hext | done].
  - constructor.
    + unfold placed, is_workspace. simpl. rewrite bool_decide_eq_false_2 by done. exists parentID, parent. split; [done|]. split; [by apply Hext | done].
    + eapply Forall_impl; [exact Hp|]. intros r. unfold placed. destruct (is_workspace r); [done|].
      intros (p & pr & ? & ? & ?). exists p, pr. split; [done|]. split; [by apply Hext | done].
Qed.

Lemma tree_without ws records id : tree ws records -> id <> ws ->
  tree ws (without id records) <-> forall r, r ∈ records -> r_parent r <> Some id.
Proof.
  intros [Hw Hb Hv Hnd Ho (root & Hroot & Hrk) Hp] Hne.
  split.
  - intros [_ _ _ _ _ _ Hp'] r Hin Hpar. pose proof Hv as Hv'.
    rewrite Forall_forall in Hv', Hp, Hp'. specialize (Hv' r Hin). specialize (Hp r Hin).
    assert (r_id r <> id) as Hrid.
    { intros E. eapply no_self_parent; [exact Hv' | exact Hp | by apply index_of_lookup | by rewrite E]. }
    specialize (Hp' r ltac:(by apply list_elem_of_filter)).
    unfold placed in Hp, Hp'. destruct (is_workspace r); [destruct Hp; congruence|].
    destruct Hp' as (p & pr & Hp1 & Hp2 & _). rewrite index_without in Hp2 by done.
    case_decide; congruence.
  - intros Hleaf. split.
    + done.
    + unfold without. pose proof (length_filter (fun r => r_id r <> id) records). lia.
    + by apply Forall_without.
    + by apply without_nodup.
    + by apply Forall_without.
    + exists root. rewrite index_without, decide_False by congruence. done.
    + rewrite Forall_forall in *. intros r Hin. apply list_elem_of_filter in Hin as [_ Hin].
      specialize (Hp r Hin). specialize (Hleaf r Hin). unfold placed in *. destruct (is_workspace r); [done|].
      destruct Hp as (p & pr & Hp1 & Hp2 & Hp3). exists p, pr. rewrite index_without by done.
      rewrite decide_False by congruence. done.
Qed.

(** In a tree of more than its root, some record is a child of the root. *)
Lemma tree_root_child ws records : tree ws records -> forall n r, r ∈ records -> (depth (r_kind r) <= n)%nat -> r_id r <> ws ->
  exists c, c ∈ records /\ r_parent c = Some ws.
Proof.
  intros [_ _ Hv Hnd _ _ Hp] n. rewrite Forall_forall in Hv, Hp.
  induction n as [|n IH]; intros r Hin Hn Hne; pose proof (Hp r Hin) as Hpl; unfold placed, is_workspace in Hpl;
    destruct (bool_decide_reflect (r_kind r = KindWorkspace)) as [E|E]; try (by destruct Hpl);
    destruct Hpl as (p & pr & Hpar & Hpr & Hk); destruct (Hv r Hin) as (_ & Hkn & _); destruct (depth_expected _ Hkn E) as [Hd _]; [lia|].
  destruct (decide (p = ws)) as [->|Hpne]; [by exists r|]. apply index_of_lookup in Hpr as [Hpin Hpid]; [|done].
  apply (IH pr Hpin); [rewrite Hk; lia|congruence].
Qed.

Lemma tree_alone ws records : tree ws records -> (forall r, r ∈ records -> r_parent r <> Some ws) <-> without ws records = [].
Proof.
  intros Ht. split.
  - intros Hno. apply elem_of_nil_inv. intros r [Hne Hin]%list_elem_of_filter.
    destruct (tree_root_child ws records Ht _ r Hin (le_n _) Hne) as (c & Hc & Hpc). by destruct (Hno c Hc).
  - intros He r Hin Hpar. assert (r_id r = ws) as Hid.
    { destruct (decide (r_id r = ws)) as [|Hne]; [done|]. exfalso.
      assert (r ∈ without ws records) as Hw by (by apply list_elem_of_filter). rewrite He in Hw. by apply elem_of_nil in Hw. }
    destruct Ht as [_ _ Hv Hnd _ _ Hp]. rewrite Forall_forall in Hv, Hp.
    eapply no_self_parent; [by apply Hv | by apply Hp | by apply index_of_lookup | by rewrite Hid].
Qed.

Lemma tree_insert_inv ws records kind id parentID : kind <> KindWorkspace ->
  tree ws records -> tree ws (Rec APIVersion id kind ws (Some parentID) :: records) ->
  exists parent, Kind_known kind = true /\ validID id = true /\ validID parentID = true /\ index_of records !! id = None /\
    index_of records !! parentID = Some parent /\ r_kind parent = expectedParentKind kind /\ r_workspaceID parent = ws.
Proof.
  intros Hk Ht [_ _ [Hv _]%Forall_cons Hnd _ _ [Hp _]%Forall_cons]. pose proof Hv as (_ & Hkn & Hid & _ & Hpid). cbn in Hkn, Hid, Hpid.
  pose proof Hp as Hp'. unfold placed, is_workspace in Hp'. cbn [r_kind r_parent] in Hp'. rewrite bool_decide_eq_false_2 in Hp' by done.
  destruct Hp' as (p & parent & [= <-] & Hpar & Hpk). rewrite fmap_cons, NoDup_cons in Hnd. destruct Hnd as [Hnew Hnd]. cbn [r_id] in Hnew.
  assert (parentID <> id) as Hne.
  { intros ->. eapply (no_self_parent ws _ _ Hv Hp); [|done]. apply index_of_lookup; [by rewrite fmap_cons, NoDup_cons|]. split; [by left | done]. }
  rewrite index_of_cons_ne in Hpar by done. exists parent. repeat (split; [done|]). split.
  - apply not_elem_of_dom. by rewrite index_of_dom.
  - split; [done|]. split; [done|]. apply index_of_lookup in Hpar as [Hin _]; [|done]. destruct Ht as [_ _ _ _ Ho _ _].
    rewrite Forall_forall in Ho. by apply Ho.
Qed.

(** C13: the tree is maintained.  In a snapshot of fewer than
    [MaxSnapshotRecords] records, [DeriveChild] places a child, and a valid
    placement, exactly when the records with the child are a tree again.
    [CheckDelete] answers for every identifier: an unknown one is not found, one
    with children, the root included, is restricted, and any other may be
    deleted; for a record below the root this is so exactly when the remaining
    records are a tree, and for the root exactly when nothing else remains. *)
Theorem hierarchy_maintained (ws : ID) (records : list Record) (s : Snapshot)
  (Hs : NewSnapshot ws records = Ok s) :
  (forall kind id parentID, llen records < MaxSnapshotRecords -> kind <> KindWorkspace ->
     (exists pl, Snapshot_DeriveChild s kind id parentID = Ok pl) <->
     exists s', NewSnapshot ws (Rec APIVersion id kind ws (Some parentID) :: records) = Ok s') /\
  (forall kind id parentID pl, Snapshot_DeriveChild s kind id parentID = Ok pl ->
     validatePlacement pl = Ok tt /\ kind <> KindWorkspace /\ record_of pl = Rec APIVersion id kind ws (Some parentID)) /\
  (forall id, Snapshot_CheckDelete s id =
     if decide (id ∈ r_id <$> records) then if decide (Some id ∈ r_parent <$> records) then Err ErrDeleteRestricted else Ok tt
     else Err ErrResourceNotFound) /\
  (forall id, id <> ws -> id ∈ r_id <$> records ->
     Snapshot_CheckDelete s id = Ok tt <-> exists s', NewSnapshot ws (without id records) = Ok s') /\
  (Snapshot_CheckDelete s ws = Ok tt <-> without ws records = []).
Proof.
  apply NewSnapshot_ok in Hs as [Ht ->].
  assert (forall id, id ∈ children_index (index_of records) <-> exists r, r ∈ records /\ r_parent r = Some id) as Hchild
    by (intros id; apply children_elem, Ht).
  split; [|split; [|split; [|split]]].
  - intros kind id parentID Hmax Hk. setoid_rewrite NewSnapshot_ok. split.
    + intros (pl & (parent & _ & _ & H2 & H3 & H4 & H5 & H6 & H7 & _ & _)%DeriveChild_ok). eexists. split; [by eapply tree_insert | done].
    + intros (s' & Ht' & _). destruct (tree_insert_inv _ _ _ _ _ Hk Ht Ht') as (parent & H1 & H2 & H3 & H4 & H5 & H6 & H7).
      eexists. apply DeriveChild_ok. by exists parent.
  - intros kind id parentID pl (parent & _ & H1 & H2 & H3 & H4 & _ & _ & _ & _ & ->)%DeriveChild_ok. split; [|done].
    unfold validatePlacement, checkKind. cbn. by rewrite H2, H3, H4, (tr_workspace _ _ Ht), bool_decide_eq_false_2.
  - intros id. unfold Snapshot_CheckDelete. cbn [s_initialized s_records s_hasChild snapshot_of negb fail_if mbind result_bind].
    case_decide as E; [apply index_of_dom, elem_of_dom in E as [r ->]|].
    + cbn [is_some negb fail_if mbind result_bind]. case_decide as E'; [rewrite bool_decide_eq_true_2 | rewrite bool_decide_eq_false_2]; try done;
        rewrite Hchild; rewrite list_elem_of_fmap in E'; naive_solver.
    + rewrite <- index_of_dom, not_elem_of_dom in E. by rewrite E.
  - intros id Hne Hin. rewrite CheckDelete_ok. simpl. rewrite Hchild. setoid_rewrite NewSnapshot_ok. rewrite index_of_dom. split.
    + intros (_ & _ & Hc). eexists. split; [|done]. apply tree_without; [done..|]. intros r Hr E. apply Hc. eauto.
    + intros (s' & H & _). split; [done|]. split; [done|]. intros (r & Hr & E).
      by eapply (proj1 (tree_without _ _ _ Ht Hne) H).
  - rewrite <- (tree_alone _ _ Ht), CheckDelete_ok. simpl. rewrite Hchild. destruct (tr_root _ _ Ht) as (root & Hroot & _). split.
    + intros (_ & _ & Hc) r Hr E. apply Hc. eauto.
    + intros Hno. split; [done|]. split; [by apply elem_of_dom_2 in Hroot|]. intros (r & Hr & E). by apply (Hno r Hr).
Qed.

(** ** A small workspace *)

Definition h_ws : ID := "workspace-0000000001".
Definition h_env : ID := "environment-00000001".
Definition h_env2 : ID := "environment-00000002".
Definition h_app : ID := "application-00000001".
Definition h_policy : ID := "policy-000000000001".
Definition h_connection : ID := "connection-000000001".

Definition h_record (id : ID) (kind : Kind) (parent : option ID) : Record := Rec APIVersion id kind h_ws parent.

Definition h_records : list Record :=
  [h_record h_ws KindWorkspace None; h_record h_env KindEnvironment (Some h_ws);
   h_record h_env2 KindEnvironment (Some h_ws); h_record h_app KindApplication (Some h_env);
   h_record h_connection KindProviderConnection (Some h_env); h_record h_policy KindPolicy (Some h_ws)].

Lemma h_snapshot_ok : NewSnapshot h_ws h_records = Ok (snapshot_of h_ws h_records).
Proof. vm_compute. done. Qed.

Lemma cycle_check_exact_witness :
  let loop : record_index := {["a" := h_record "a" KindEnvironment (Some "b");
                               "b" := h_record "b" KindEnvironment (Some "a")]} in
  check_starts 2 loop ∅ ["a"; "b"] = Some (Err ErrCycle) /\ check_starts 7 loop ∅ ["b"; "a"] = Some (checkCycles loop).
Proof.
  split; [vm_compute; reflexivity|].
  destruct (cycle_check_exact {["a" := h_record "a" KindEnvironment (Some "b"); "b" := h_record "b" KindEnvironment (Some "a")]}
    ["b"; "a"] 7) as (answer & H1 & H2 & _).
  - vm_compute. first [apply Permutation_refl | apply Permutation_swap].
  - vm_compute. repeat constructor.
  - cbv zeta. rewrite H2. exact H1.
Defined.

Lemma hierarchy_maintained_witness :
  (forall id, id <> h_ws -> id ∈ r_id <$> h_records ->
     Snapshot_CheckDelete (snapshot_of h_ws h_records) id = Ok tt <->
     exists s', NewSnapshot h_ws (without id h_records) = Ok s') /\
  Snapshot_CheckDelete (snapshot_of h_ws h_records) h_env = Err ErrDeleteRestricted /\
  Snapshot_CheckDelete (snapshot_of h_ws h_records) h_app = Ok tt /\
  Snapshot_CheckDelete (snapshot_of h_ws h_records) h_ws = Err ErrDeleteRestricted.
Proof.
  destruct (hierarchy_maintained h_ws h_records _ h_snapshot_ok) as (_ & _ & H3 & H4 & _).
  split; [exact H4|]. split; [|split]; rewrite H3; vm_compute; reflexivity.
Defined.
