(* ===== verification/Identity.v ===== *)
(** * Authenticated principals (identity/identity.go)

    A principal is an authenticated person or workload: an exact
    issuer-and-subject identity with its fingerprint, sorted duplicate-free
    audience and group claims and, for a workload, one opaque workload claim. *)

From S2P Require Import Prelude StringOrder Bytes Sha256 GoTime Closed Vocabulary Digests.
From Stdlib Require Import Ascii String.

Inductive error :=
| ErrInvalidPrincipal
| ErrInvalidKind
| ErrInvalidLogicalIdentity
| ErrInvalidIssuer
| ErrInvalidSubject
| ErrInvalidAudiences
| ErrAudienceRequired
| ErrTooManyAudiences
| ErrInvalidGroups
| ErrTooManyGroups
| ErrInvalidWorkloadIdentity
| ErrWorkloadIdentityRequired
| ErrWorkloadIdentityForbidden
| ErrInvalidFingerprint
| ErrSerializationForbidden
| ErrWrap (outer inner : error).

(** [identity.Kind]: a [uint8] with two valid values. *)
Inductive Kind := KindHuman | KindWorkload | KindOther (raw : Z).

#[export] Instance Kind_eq : EqDecision Kind.
Proof. solve_decision. Defined.

#[export] Instance Kind_countable : Countable Kind.
Proof.
  refine (inj_countable'
    (fun k => match k with KindHuman => inl true | KindWorkload => inl false | KindOther raw => inr raw end)
    (fun c => match c with inl true => KindHuman | inl false => KindWorkload | inr raw => KindOther raw end) _).
  by intros [].
Defined.

Definition Kind_String (kind : Kind) : string :=
  match kind with KindHuman => "human" | KindWorkload => "workload" | KindOther _ => "unknown" end.

Definition validKind (kind : Kind) : bool := match kind with KindOther _ => false | _ => true end.

Definition MaxIssuerBytes : Z := 2048.
Definition MaxSubjectBytes : Z := 255.
Definition MaxAudiences : Z := 16.
Definition MaxAudienceBytes : Z := 2048.
Definition MaxGroups : Z := 256.
Definition MaxGroupBytes : Z := 256.
Definition MaxWorkloadIdentityBytes : Z := 512.

(** ** URLs

    What the code reads of a parsed request URI ([net/url], whose grammar of
    hosts differs between releases).  [validateIssuer] is stated over it. *)
Record URL := Url {
  u_Scheme : string;
  u_Opaque : string;
  u_Host : string;
  u_Hostname : string;
  u_User : bool;
  u_String : string;
}.

Class RequestURIs := ParseRequestURI : string -> option URL.

(** ** Claims *)

(** [validateClaim]; its error is [ErrInvalidPrincipal]. *)
Definition validateClaim (value : string) (maxBytes : Z) : bool :=
  negb (String.eqb value "" || (maxBytes <? slen value) || negb (utf8_valid value) || negb (trimmed value))
  && forallb (fun r => negb (IsControl r)) (runes value).

Definition validateSubject (value : string) : bool :=
  negb (String.eqb value "" || (MaxSubjectBytes <? slen value) || negb (trimmed value))
  && string_forall (between 32 126) value.

(** [strings.EqualFold] with a lower-case ASCII literal. *)
Definition to_lower (c : ascii) : ascii := if is_upper c then byte_of (byte_val c + 32) else c.
Fixpoint lower (s : string) : string :=
  match s with EmptyString => "" | String c s' => String (to_lower c) (lower s') end.

Section URLs.
Context `{RequestURIs}.

Definition validateIssuer (value : string) : bool :=
  validateClaim value MaxIssuerBytes &&
  string_forall (fun c => negb (Ascii.eqb c "?"%char || Ascii.eqb c "#"%char)) value &&
  match ParseRequestURI value with
  | None => false
  | Some parsed =>
      String.eqb (u_Opaque parsed) "" && String.eqb (lower (u_Scheme parsed)) "https" &&
      negb (String.eqb (u_Host parsed) "") && negb (String.eqb (u_Hostname parsed) "") &&
      negb (u_User parsed) && String.eqb (u_String parsed) value
  end.

(** ** Logical identities *)

(** A [Fingerprint] is an initialised flag and 32 bytes, as the digests. *)
Definition fingerprintPrefix : string := "prn1_".

Definition Fingerprint_String (f : digestValue) : string := formatDigest fingerprintPrefix f.

(** [binary.BigEndian.AppendUint32] of a length. *)
Definition put_uint32 (x : Z) : string := be_bytes 4 x.

Definition fingerprintDomain : string := "veer.identity.logical-principal.v1".
Definition fingerprint_header : string := fingerprintDomain +:+ String Ascii.zero "".

Definition fingerprint_payload (issuer subject : string) : string :=
  fingerprint_header +:+ put_uint32 (slen issuer) +:+ issuer +:+ put_uint32 (slen subject) +:+ subject.

Definition deriveFingerprint (issuer subject : string) : digestValue :=
  DV true (sha256 (fingerprint_payload issuer subject)).

Record LogicalIdentity := LI {
  li_issuer : string;
  li_subject : string;
  li_fingerprint : digestValue;
}.

Definition NewLogicalIdentity (issuer subject : string) : result error LogicalIdentity :=
  fail_if (negb (validateIssuer issuer)) (ErrWrap ErrInvalidLogicalIdentity ErrInvalidIssuer);;
  fail_if (negb (validateSubject subject)) (ErrWrap ErrInvalidLogicalIdentity ErrInvalidSubject);;
  Ok (LI issuer subject (deriveFingerprint issuer subject)).

Definition ValidateLogicalIdentity (logical : LogicalIdentity) : result error unit :=
  fail_if (negb (validateIssuer (li_issuer logical))) (ErrWrap ErrInvalidLogicalIdentity ErrInvalidIssuer);;
  fail_if (negb (validateSubject (li_subject logical))) (ErrWrap ErrInvalidLogicalIdentity ErrInvalidSubject);;
  fail_if (negb (equalDigest (li_fingerprint logical) (deriveFingerprint (li_issuer logical) (li_subject logical))))
    (ErrWrap ErrInvalidLogicalIdentity ErrInvalidFingerprint).

Definition EqualLogicalIdentity (left right : LogicalIdentity) : bool :=
  result_ok (ValidateLogicalIdentity left) && result_ok (ValidateLogicalIdentity right) &&
  String.eqb (li_issuer left) (li_issuer right) && String.eqb (li_subject left) (li_subject right).

(** ** Principals *)

Record Principal := Pr {
  pr_kind : Kind;
  pr_logicalIdentity : LogicalIdentity;
  pr_audiences : list string;
  pr_groups : list string;
  pr_workloadIdentity : option string;
}.

Record PrincipalInput := PrI {
  pi_Kind : Kind;
  pi_Issuer : string;
  pi_Subject : string;
  pi_Audiences : list string;
  pi_Groups : list string;
  pi_WorkloadIdentity : option string;
}.

Definition NewWorkloadIdentity (value : string) : result error string :=
  if validateClaim value MaxWorkloadIdentityBytes then Ok value else Err ErrInvalidWorkloadIdentity.

Definition normalizeClaims (values : list string) (maxValues maxValueBytes : Z) (invalidError limitError : error)
    : result error (list string) :=
  fail_if (maxValues <? llen values) (ErrWrap invalidError limitError);;
  fail_if (negb (forallb (fun v => validateClaim v maxValueBytes) values)) invalidError;;
  Ok (sort_compact values).

(** The loop of [validateCanonicalClaims]: each claim valid and above the one
    before it. *)
Definition validateCanonicalClaims (values : list string) (maxValues maxValueBytes : Z) (invalidError limitError : error)
    : result error unit :=
  fail_if (maxValues <? llen values) (ErrWrap invalidError limitError);;
  fail_if (negb (forallb (fun v => validateClaim v maxValueBytes) values && increasing values)) invalidError.

Definition validateWorkloadForKind (kind : Kind) (workload : option string) : result error (option string) :=
  match kind, workload with
  | KindHuman, Some _ => Err ErrWorkloadIdentityForbidden
  | KindHuman, None => Ok None
  | KindWorkload, None => Err ErrWorkloadIdentityRequired
  | KindWorkload, Some value =>
      if validateClaim value MaxWorkloadIdentityBytes then Ok (Some value) else Err ErrInvalidWorkloadIdentity
  | KindOther _, _ => Err ErrInvalidKind
  end.

Definition in_principal {A} (r : result error A) : result error A := map_err (ErrWrap ErrInvalidPrincipal) r.

Definition NewPrincipal (input : PrincipalInput) : result error Principal :=
  in_principal (
    fail_if (negb (validKind (pi_Kind input))) ErrInvalidKind;;
    logical ← NewLogicalIdentity (pi_Issuer input) (pi_Subject input);
    audiences ← normalizeClaims (pi_Audiences input) MaxAudiences MaxAudienceBytes ErrInvalidAudiences ErrTooManyAudiences;
    fail_if (llen audiences =? 0) ErrAudienceRequired;;
    groups ← normalizeClaims (pi_Groups input) MaxGroups MaxGroupBytes ErrInvalidGroups ErrTooManyGroups;
    workload ← validateWorkloadForKind (pi_Kind input) (pi_WorkloadIdentity input);
    Ok (Pr (pi_Kind input) logical audiences groups workload)).

Definition ValidatePrincipal (principal : Principal) : result error unit :=
  in_principal (
    fail_if (negb (validKind (pr_kind principal))) ErrInvalidKind;;
    ValidateLogicalIdentity (pr_logicalIdentity principal);;
    validateCanonicalClaims (pr_audiences principal) MaxAudiences MaxAudienceBytes ErrInvalidAudiences ErrTooManyAudiences;;
    fail_if (llen (pr_audiences principal) =? 0) ErrAudienceRequired;;
    validateCanonicalClaims (pr_groups principal) MaxGroups MaxGroupBytes ErrInvalidGroups ErrTooManyGroups;;
    validateWorkloadForKind (pr_kind principal) (pr_workloadIdentity principal);;
    Ok tt).

Definition equalWorkload (left right : option string) : bool := bool_decide (left = right).

Definition EqualPrincipal (left right : Principal) : bool :=
  result_ok (ValidatePrincipal left) && result_ok (ValidatePrincipal right) &&
  bool_decide (pr_kind left = pr_kind right) &&
  EqualLogicalIdentity (pr_logicalIdentity left) (pr_logicalIdentity right) &&
  equalDigest (li_fingerprint (pr_logicalIdentity left)) (li_fingerprint (pr_logicalIdentity right)) &&
  bool_decide (pr_audiences left = pr_audiences right) && bool_decide (pr_groups left = pr_groups right) &&
  equalWorkload (pr_workloadIdentity left) (pr_workloadIdentity right).

Definition SameLogicalIdentity (left right : Principal) : bool :=
  result_ok (ValidatePrincipal left) && result_ok (ValidatePrincipal right) &&
  EqualLogicalIdentity (pr_logicalIdentity left) (pr_logicalIdentity right).
End URLs.

(** * Properties of principals

    The valid principals are exactly the ones [NewPrincipal] makes, it reads the
    claim sets as sets, equality of principals is equality, and a fingerprint
    stands for one issuer and subject up to a SHA-256 collision. *)

Section Principals.
Context `{RequestURIs}.

Lemma forallb_set {A} (f : A -> bool) (l k : list A) : (forall x, x ∈ l <-> x ∈ k) -> forallb f l = forallb f k.
Proof.
  intros E. apply eq_bool_prop_intro. rewrite !Is_true_true, !forallb_forall.
  setoid_rewrite <- list_elem_of_In. naive_solver.
Qed.

(** Normalised claims are canonical, and canonical claims normal. *)
Lemma normalizeClaims_ok values n b e1 e2 out :
  normalizeClaims values n b e1 e2 = Ok out <->
  llen values <= n /\ forallb (fun v => validateClaim v b) values = true /\ out = sort_compact values.
Proof.
  unfold normalizeClaims. rewrite bind_ok. setoid_rewrite bind_ok. setoid_rewrite fail_if_ok. split.
  - intros (_ & G & _ & G1 & [= <-]). autorewrite with guards in *. done.
  - intros (G & G1 & ->). exists tt. split; [by apply Z.ltb_ge|]. exists tt. by rewrite G1.
Qed.

Lemma validateCanonicalClaims_ok values n b e1 e2 :
  validateCanonicalClaims values n b e1 e2 = Ok tt <->
  llen values <= n /\ forallb (fun v => validateClaim v b) values = true /\ increasing values = true.
Proof.
  unfold validateCanonicalClaims. rewrite bind_ok. setoid_rewrite fail_if_ok. split.
  - intros (_ & G & G1). autorewrite with guards in *. done.
  - intros (G & G1 & G2). exists tt. split; [by apply Z.ltb_ge|]. by rewrite G1, G2.
Qed.

Lemma normalized_canonical values n b e1 e2 out :
  normalizeClaims values n b e1 e2 = Ok out -> validateCanonicalClaims out n b e1 e2 = Ok tt.
Proof.
  intros (Hn & Hf & ->)%normalizeClaims_ok. apply validateCanonicalClaims_ok.
  pose proof (sort_compact_length values). split; [lia|]. split; [|apply sort_compact_increasing].
  rewrite <- Hf. apply forallb_set. intros x. apply sort_compact_elem.
Qed.

Lemma canonical_normalized values n b e1 e2 :
  validateCanonicalClaims values n b e1 e2 = Ok tt -> normalizeClaims values n b e1 e2 = Ok values.
Proof.
  intros (Hn & Hf & Hi)%validateCanonicalClaims_ok. apply normalizeClaims_ok. by rewrite sort_compact_id.
Qed.

Lemma logical_valid l : ValidateLogicalIdentity l = Ok tt <-> NewLogicalIdentity (li_issuer l) (li_subject l) = Ok l.
Proof.
  unfold ValidateLogicalIdentity, NewLogicalIdentity.
  destruct (validateIssuer _), (validateSubject _); simpl; try done. destruct l as [i s f]. simpl.
  unfold fail_if, negb. destruct (equalDigest f (deriveFingerprint i s)) eqn:E; split; try done.
  - intros _. apply equalDigest_true in E as (_ & _ & ->). done.
  - intros [= Ef]. rewrite <- Ef, equalDigest_refl in E by done. done.
Qed.

Lemma NewLogicalIdentity_fields i s l : NewLogicalIdentity i s = Ok l -> li_issuer l = i /\ li_subject l = s.
Proof. unfold NewLogicalIdentity. destruct (validateIssuer i), (validateSubject s); simpl; try done. by intros [= <-]. Qed.

Lemma workload_ok kind w out :
  validateWorkloadForKind kind w = Ok out <-> out = w /\ validateWorkloadForKind kind w = Ok w.
Proof. destruct kind, w; simpl; repeat case_match; naive_solver. Qed.

Definition claims_of (p : Principal) : PrincipalInput :=
  PrI (pr_kind p) (li_issuer (pr_logicalIdentity p)) (li_subject (pr_logicalIdentity p)) (pr_audiences p) (pr_groups p)
      (pr_workloadIdentity p).

Lemma NewPrincipal_ok input p : NewPrincipal input = Ok p <->
  validKind (pi_Kind input) = true /\ pr_kind p = pi_Kind input /\
  NewLogicalIdentity (pi_Issuer input) (pi_Subject input) = Ok (pr_logicalIdentity p) /\
  normalizeClaims (pi_Audiences input) MaxAudiences MaxAudienceBytes ErrInvalidAudiences ErrTooManyAudiences
    = Ok (pr_audiences p) /\
  pr_audiences p <> [] /\
  normalizeClaims (pi_Groups input) MaxGroups MaxGroupBytes ErrInvalidGroups ErrTooManyGroups = Ok (pr_groups p) /\
  validateWorkloadForKind (pi_Kind input) (pi_WorkloadIdentity input) = Ok (pr_workloadIdentity p).
Proof.
  unfold NewPrincipal, in_principal. rewrite map_err_ok. split.
  - intros E. repeat (apply bind_ok in E as (? & ? & E)). injection E as <-. simpl.
    apply fail_if_ok in H0, H3. autorewrite with guards in *. repeat split; try done. by intros ->.
  - intros (-> & Hk & -> & -> & Ha & -> & ->). simpl.
    assert (llen (pr_audiences p) =? 0 = false) as -> by (apply Z.eqb_neq; destruct (pr_audiences p); simpl; [done | lia]).
    simpl. destruct p; simpl in *. by rewrite Hk.
Qed.

Lemma ValidatePrincipal_ok p : ValidatePrincipal p = Ok tt <-> NewPrincipal (claims_of p) = Ok p.
Proof.
  rewrite NewPrincipal_ok. unfold ValidatePrincipal, in_principal. rewrite map_err_ok. simpl. split.
  - intros E. repeat (apply bind_ok in E as (? & ? & E)). apply fail_if_ok in H0, H3.
    destruct x0, x1, x3. apply workload_ok in H5 as [-> Hw]. autorewrite with guards in *.
    repeat split; try done; try by apply canonical_normalized.
    + by apply logical_valid.
    + by intros Hn; rewrite Hn in H3.
  - intros (-> & _ & Hl & Ha & Hne & Hg & ->). rewrite (proj2 (logical_valid _) Hl).
    rewrite (normalized_canonical _ _ _ _ _ _ Ha), (normalized_canonical _ _ _ _ _ _ Hg). simpl.
    assert (llen (pr_audiences p) =? 0 = false) as -> by (apply Z.eqb_neq; destruct (pr_audiences p); simpl; [done | lia]).
    done.
Qed.

Lemma NewPrincipal_valid input p : NewPrincipal input = Ok p -> ValidatePrincipal p = Ok tt.
Proof.
  rewrite ValidatePrincipal_ok, !NewPrincipal_ok. intros (Hv & Hk & Hl & Ha & Hne & Hg & Hw). simpl.
  pose proof (NewLogicalIdentity_fields _ _ _ Hl) as [-> ->]. rewrite Hk. repeat split; try done.
  - by eapply canonical_normalized, normalized_canonical.
  - by eapply canonical_normalized, normalized_canonical.
  - apply workload_ok in Hw as [-> ?]. done.
Qed.

Lemma EqualLogicalIdentity_ok l r : EqualLogicalIdentity l r = true <-> ValidateLogicalIdentity l = Ok tt /\ l = r.
Proof.
  unfold EqualLogicalIdentity. rewrite !andb_true_iff, !result_ok_true, !String.eqb_eq. split.
  - intros ((([[] Hl] & [[] Hr]) & Hi) & Hs). split; [done|].
    apply logical_valid in Hl, Hr. rewrite Hi, Hs in Hl. congruence.
  - intros [Hl ->]. rewrite Hl. repeat split; by exists tt.
Qed.

(** Principals are canonical.  [NewPrincipal] produces exactly the valid
    principals, and from its own claims each of them; it does not depend on the
    order or the repetition of audiences and groups within their limits; and
    two principals are [EqualPrincipal] exactly when they are valid and the
    same. *)
Theorem principal_canonical :
  (forall p, ValidatePrincipal p = Ok tt <-> exists input, NewPrincipal input = Ok p) /\
  (forall p, ValidatePrincipal p = Ok tt <-> NewPrincipal (claims_of p) = Ok p) /\
  (forall input aud grp p, (forall x, x ∈ aud <-> x ∈ pi_Audiences input) -> (forall x, x ∈ grp <-> x ∈ pi_Groups input) ->
     llen aud <= MaxAudiences -> llen grp <= MaxGroups -> NewPrincipal input = Ok p ->
     NewPrincipal (PrI (pi_Kind input) (pi_Issuer input) (pi_Subject input) aud grp (pi_WorkloadIdentity input)) = Ok p) /\
  (forall l r, EqualPrincipal l r = true <-> ValidatePrincipal l = Ok tt /\ l = r).
Proof.
  split; [|split; [|split]].
  - intros p. split; [rewrite ValidatePrincipal_ok; eauto | intros [? ?]; by eapply NewPrincipal_valid].
  - apply ValidatePrincipal_ok.
  - intros input aud grp p Ha Hg Hna Hng. rewrite !NewPrincipal_ok, !normalizeClaims_ok. simpl.
    rewrite (forallb_set _ aud _ Ha), (forallb_set _ grp _ Hg), (sort_compact_set _ _ Ha), (sort_compact_set _ _ Hg).
    tauto.
  - intros l r. unfold EqualPrincipal, equalWorkload. rewrite !andb_true_iff, !result_ok_true, !bool_decide_eq_true.
    rewrite EqualLogicalIdentity_ok, equalDigest_true. split.
    + intros ((((((([[] Hl] & [[] Hr]) & Hk) & (Hv & Hlog)) & _) & Ha) & Hg) & Hw). split; [done|].
      destruct l, r. simpl in *. congruence.
    + intros [Hl <-]. assert (ValidateLogicalIdentity (pr_logicalIdentity l) = Ok tt) as Hlog.
      { unfold ValidatePrincipal, in_principal in Hl. rewrite map_err_ok in Hl.
        apply bind_ok in Hl as (? & ? & Hl). by apply bind_ok in Hl as ([] & ? & _). }
      apply logical_valid in Hlog as Hn. unfold NewLogicalIdentity in Hn.
      repeat (apply bind_ok in Hn as (? & ? & Hn)).
      repeat split; eauto; injection Hn as <-; done.
Qed.

(** ** Fingerprints *)

Lemma put_uint32_inj x y : 0 <= x < 2 ^ 32 -> 0 <= y < 2 ^ 32 -> put_uint32 x = put_uint32 y -> x = y.
Proof.
  unfold put_uint32. intros Hx Hy E. apply (f_equal (be_value 0)) in E. rewrite !be_value_bytes in E.
  rewrite !Z.mod_small in E by (simpl; lia). done.
Qed.

Lemma fingerprint_payload_inj (domain : string) (i s j t : string) :
  slen i < 2 ^ 32 -> slen j < 2 ^ 32 ->
  domain +:+ put_uint32 (slen i) +:+ i +:+ put_uint32 (slen s) +:+ s =
  domain +:+ put_uint32 (slen j) +:+ j +:+ put_uint32 (slen t) +:+ t -> i = j /\ s = t.
Proof.
  intros Hi Hj E. apply string_app_inj_l in E.
  apply string_app_split in E as [Ei E]; [|unfold put_uint32; by rewrite !be_bytes_length].
  apply put_uint32_inj in Ei; [|split; [apply slen_nonneg | done]..].
  apply string_app_split in E as [-> E]; [|unfold slen in Ei; lia].
  apply string_app_split in E as [_ ->]; [done | unfold put_uint32; by rewrite !be_bytes_length].
Qed.

(** The fingerprint pseudonymises one identity: two valid logical identities
    with the same fingerprint have the same issuer and subject, unless their
    payloads are a SHA-256 collision.  The payload is unambiguous although
    issuer and subject are arbitrary text. *)
Theorem fingerprint_binds (l r : LogicalIdentity)
  (Hl : ValidateLogicalIdentity l = Ok tt) (Hr : ValidateLogicalIdentity r = Ok tt)
  (Hf : equalDigest (li_fingerprint l) (li_fingerprint r) = true)
  (Hno_collision : sha256 (fingerprint_payload (li_issuer l) (li_subject l)) =
                   sha256 (fingerprint_payload (li_issuer r) (li_subject r)) ->
                   fingerprint_payload (li_issuer l) (li_subject l) = fingerprint_payload (li_issuer r) (li_subject r)) :
  l = r.
Proof.
  apply logical_valid in Hl, Hr. unfold NewLogicalIdentity in Hl, Hr.
  repeat (apply bind_ok in Hl as (? & ?G & Hl)). repeat (apply bind_ok in Hr as (? & ?G & Hr)).
  destruct l as [i s f], r as [j t g]. simpl in *. injection Hl as <-. injection Hr as <-.
  apply equalDigest_true in Hf as (_ & _ & E). apply (f_equal dv_digest) in E. unfold deriveFingerprint in E. cbn [dv_digest] in E. apply Hno_collision in E.
  assert (forall v, negb (validateIssuer v) = false -> slen v < 2 ^ 32) as Hsize.
  { intros v Hv. unfold validateIssuer, validateClaim, MaxIssuerBytes in Hv. autorewrite with guards in Hv.
    destruct_and!. lia. }
  apply fail_if_ok in G, G1. unfold fingerprint_payload in E. revert E. generalize fingerprint_header as domain.
  intros domain E. apply fingerprint_payload_inj in E as [-> ->]; auto.
Qed.
End Principals.

(** ** Concrete principals, over a parser of plain https origins *)

Definition s_uris : RequestURIs := fun value =>
  match strip_prefix "https://" value with
  | Some (String c rest) => Some (Url "https" "" (String c rest) (String c rest) false value)
  | _ => None
  end.

Definition s_input : PrincipalInput :=
  PrI KindHuman "https://issuer.example" "subject-1" ["veer"; "api"; "veer"] ["ops"; "dev"] None.

Definition s_logical : LogicalIdentity :=
  LI "https://issuer.example" "subject-1" (deriveFingerprint "https://issuer.example" "subject-1").

Definition s_principal : Principal := Pr KindHuman s_logical ["api"; "veer"] ["dev"; "ops"] None.

Lemma principal_canonical_witness :
  NewPrincipal (H := s_uris) s_input = Ok s_principal /\
  NewPrincipal (H := s_uris) (PrI KindHuman "https://issuer.example" "subject-1" ["api"; "veer"] ["ops"; "dev"; "dev"] None)
    = Ok s_principal /\
  ValidatePrincipal (H := s_uris) s_principal = Ok tt.
Proof.
  assert (NewPrincipal (H := s_uris) s_input = Ok s_principal) as Hnew by (vm_compute; done).
  split; [exact Hnew|]. split.
  - assert (forall x, x ∈ ["api"; "veer"] <-> x ∈ pi_Audiences s_input) as Ha
      by (intros x; unfold s_input, pi_Audiences; rewrite !elem_of_cons; tauto).
    assert (forall x, x ∈ ["ops"; "dev"; "dev"] <-> x ∈ pi_Groups s_input) as Hg
      by (intros x; unfold s_input, pi_Groups; rewrite !elem_of_cons; tauto).
    exact (proj1 (proj2 (proj2 (principal_canonical (H := s_uris)))) s_input _ _ s_principal Ha Hg
      ltac:(vm_compute; discriminate) ltac:(vm_compute; discriminate) Hnew).
  - exact (proj2 (proj1 (principal_canonical (H := s_uris)) s_principal) (ex_intro _ s_input Hnew)).
Defined.

Lemma fingerprint_binds_witness : s_logical = s_logical.
Proof.
  assert (ValidateLogicalIdentity (H := s_uris) s_logical = Ok tt) as Hv by (vm_compute; done).
  refine (fingerprint_binds (H := s_uris) s_logical s_logical Hv Hv _ (fun _ => eq_refl)). vm_compute. done.
Defined.
