(* ===== verification/Json.v ===== *)
(** * Canonical JSON text ([encoding/json/v2])

    Canonical representations are written by [jsonv2.Marshal] with the v1
    options: members in field order, no white space, strings escaped for HTML
    and JavaScript.  A value is first a tree of its members and then a text;
    the text determines the tree. *)

From S2P Require Import Prelude Bytes.
From Stdlib Require Import Ascii String.

(** ** Strings *)

Definition quote_mark : ascii := byte_of 34.
Definition backslash : ascii := byte_of 92.

(** What is written as one piece: a byte, or one of the line separators U+2028
    and U+2029. *)
Inductive piece := Byte (c : ascii) | Separator (last : bool).

Definition piece_bytes (p : piece) : string :=
  match p with
  | Byte c => String c ""
  | Separator last => String (byte_of 226) (String (byte_of 128) (String (byte_of (if last then 169 else 168)) ""))
  end.

Fixpoint pieces (s : string) : list piece :=
  match s with
  | EmptyString => []
  | String a s1 =>
      match s1 with
      | String b (String c s3) =>
          if Ascii.eqb a (byte_of 226) && Ascii.eqb b (byte_of 128) && Ascii.eqb c (byte_of 168) then Separator false :: pieces s3
          else if Ascii.eqb a (byte_of 226) && Ascii.eqb b (byte_of 128) && Ascii.eqb c (byte_of 169) then Separator true :: pieces s3
          else Byte a :: pieces s1
      | _ => Byte a :: pieces s1
      end
  end.

Definition hex_char (x : Z) : ascii := if x <? 10 then byte_of (48 + x) else byte_of (87 + x).

Definition escape (c : ascii) : string := String backslash (String c "").
Definition escape_hex (c : ascii) : string :=
  String backslash ("u00" +:+ String (hex_char (byte_val c / 16)) (String (hex_char (byte_val c mod 16)) "")).

(** The bytes that are written as they are. *)
Definition plain (c : ascii) : bool := (32 <=? byte_val c) && negb (one_of "<>&" c) && negb (Ascii.eqb c quote_mark) && negb (Ascii.eqb c backslash).

Definition piece_text (p : piece) : string :=
  match p with
  | Byte c =>
      if plain c then String c ""
      else if Ascii.eqb c quote_mark || Ascii.eqb c backslash then escape c
      else if byte_val c =? 8 then escape "b"
      else if byte_val c =? 12 then escape "f"
      else if byte_val c =? 10 then escape "n"
      else if byte_val c =? 13 then escape "r"
      else if byte_val c =? 9 then escape "t"
      else escape_hex c
  | Separator last => String backslash ("u202" +:+ (if last then "9" else "8"))
  end.

Fixpoint texts (ps : list piece) : string :=
  match ps with [] => "" | p :: rest => piece_text p +:+ texts rest end.

(** [jsontext.AppendQuote] *)
Definition quote (s : string) : string := String quote_mark (texts (pieces s) +:+ String quote_mark "").

(** ** Integers *)

Fixpoint decimal_digits (fuel : nat) (v : Z) : string :=
  match fuel with
  | O => ""
  | S fuel' => if v <? 10 then String (byte_of (48 + v)) ""
               else decimal_digits fuel' (v / 10) +:+ String (byte_of (48 + v mod 10)) ""
  end.

(** [strconv.FormatInt] and [FormatUint]; 64 bits have at most twenty digits. *)
Definition int_text (v : Z) : string :=
  if v <? 0 then "-" +:+ decimal_digits 20 (- v) else decimal_digits 20 v.

(** ** Values *)

Inductive json :=
| JString (s : string)
| JInt (v : Z)
| JArray (items : list json)
| JObject (members : list (string * json)).

Fixpoint print (j : json) : string :=
  match j with
  | JString s => quote s
  | JInt v => int_text v
  | JArray items =>
      "[" +:+
      (fix print_items (l : list json) (first : bool) : string :=
         match l with
         | [] => ""
         | v :: rest => (if first then "" else ",") +:+ print v +:+ print_items rest false
         end) items true +:+ "]"
  | JObject members =>
      "{" +:+
      (fix print_members (ms : list (string * json)) (first : bool) : string :=
         match ms with
         | [] => ""
         | (k, v) :: rest => (if first then "" else ",") +:+ quote k +:+ ":" +:+ print v +:+ print_members rest false
         end) members true +:+ "}"
  end.

(** ** Strings are written unambiguously *)

Definition all_pieces : list piece :=
  Separator false :: Separator true :: ((fun x => Byte (byte_of (Z.of_nat x))) <$> seq 0 256).

#[export] Instance piece_eq : EqDecision piece.
Proof. solve_decision. Defined.

Lemma all_pieces_complete p : p ∈ all_pieces.
Proof.
  destruct p as [c|[]]; [|by right; left | by left]. do 2 right. apply list_elem_of_fmap.
  exists (Z.to_nat (byte_val c)). pose proof (byte_val_range c). split.
  - f_equal. rewrite Z2Nat.id by lia. by destruct c as [[] [] [] [] [] [] [] []].
  - apply elem_of_seq. lia.
Qed.

Definition is_prefix (a b : string) : bool := is_some (strip_prefix a b).

(** No text of a piece starts with the text of another. *)
Lemma piece_text_free p q : is_prefix (piece_text p) (piece_text q) = true -> p = q.
Proof.
  assert (forallb (fun p => forallb (fun q => bool_decide (p = q) || negb (is_prefix (piece_text p) (piece_text q))) all_pieces)
            all_pieces = true) as Hall by (vm_compute; reflexivity).
  rewrite forallb_forall in Hall. setoid_rewrite forallb_forall in Hall. intros H.
  specialize (Hall p (proj1 (list_elem_of_In _ _) (all_pieces_complete p)) q (proj1 (list_elem_of_In _ _) (all_pieces_complete q))).
  rewrite H in Hall. simpl in Hall. rewrite orb_false_r, bool_decide_eq_true in Hall. done.
Qed.

Lemma app_prefix a b s t : a +:+ s = b +:+ t -> is_prefix a b = true \/ is_prefix b a = true.
Proof.
  unfold is_prefix. revert b. induction a as [|x a IH]; intros [|y b] E; simpl in *; [by left..|by right|].
  injection E as -> E. rewrite !Ascii.eqb_refl. by apply IH.
Qed.

Lemma piece_text_inj p q s t : piece_text p +:+ s = piece_text q +:+ t -> p = q /\ s = t.
Proof.
  intros E. assert (p = q) as ->.
  { destruct (app_prefix _ _ _ _ E) as [H|H]; apply piece_text_free in H; done. }
  split; [done|]. by apply string_app_inj_l in E.
Qed.

Lemma piece_text_head p : exists c r, piece_text p = String c r /\ c <> quote_mark.
Proof.
  assert (forallb (fun p => match piece_text p with String c _ => negb (Ascii.eqb c quote_mark) | EmptyString => false end)
            all_pieces = true) as Hall by (vm_compute; reflexivity).
  rewrite forallb_forall in Hall. specialize (Hall p (proj1 (list_elem_of_In _ _) (all_pieces_complete p))).
  destruct (piece_text p) as [|c r]; [done|]. exists c, r. split; [done|]. by destruct (Ascii.eqb_spec c quote_mark).
Qed.

Lemma texts_inj ps : forall qs s t,
  texts ps +:+ String quote_mark s = texts qs +:+ String quote_mark t -> ps = qs /\ s = t.
Proof.
  induction ps as [|p ps IH]; intros [|q qs] s t E; cbn [texts] in E; rewrite ?string_app_assoc in E.
  - by injection E as ->.
  - destruct (piece_text_head q) as (c & r & Eq & Hc). rewrite Eq in E. simpl in E. injection E as Ec _. congruence.
  - destruct (piece_text_head p) as (c & r & Ep & Hc). rewrite Ep in E. simpl in E. injection E as Ec _. congruence.
  - apply piece_text_inj in E as [-> E]. apply IH in E as [-> ->]. done.
Qed.

Fixpoint bytes_of (ps : list piece) : string :=
  match ps with [] => "" | p :: rest => piece_bytes p +:+ bytes_of rest end.

Lemma bytes_pieces s : bytes_of (pieces s) = s.
Proof.
  induction s as [s IH] using (induction_ltof1 _ String.length). unfold ltof in IH.
  destruct s as [|a s1]; [done|]. cbn [pieces].
  destruct s1 as [|b [|c s3]]; cbn [bytes_of piece_bytes].
  - done.
  - done.
  - destruct (_ && Ascii.eqb c (byte_of 168)) eqn:E1.
    { rewrite !andb_true_iff, !Ascii.eqb_eq in E1. destruct E1 as [[-> ->] ->]. cbn [bytes_of piece_bytes].
      rewrite IH by (simpl; lia). done. }
    destruct (_ && Ascii.eqb c (byte_of 169)) eqn:E2.
    { rewrite !andb_true_iff, !Ascii.eqb_eq in E2. destruct E2 as [[-> ->] ->]. cbn [bytes_of piece_bytes].
      rewrite IH by (simpl; lia). done. }
    change (bytes_of (Byte a :: pieces (String b (String c s3)))) with (String a "" +:+ bytes_of (pieces (String b (String c s3)))).
    rewrite IH by (simpl; lia). done.
Qed.

Lemma quote_inj a b s t : quote a +:+ s = quote b +:+ t -> a = b /\ s = t.
Proof.
  unfold quote. simpl. intros E. injection E as E. rewrite !string_app_assoc in E. apply texts_inj in E as [E ->].
  split; [|done]. by rewrite <- (bytes_pieces a), <- (bytes_pieces b), E.
Qed.

(** ** Integers are written unambiguously *)

Fixpoint read_digits (acc : Z) (s : string) : Z :=
  match s with EmptyString => acc | String c s' => read_digits (acc * 10 + (byte_val c - 48)) s' end.

Lemma read_digits_app acc s t : read_digits acc (s +:+ t) = read_digits (read_digits acc s) t.
Proof. revert acc. induction s as [|c s IH]; intros acc; [done|]. simpl. apply IH. Qed.

Lemma digit_byte v : 0 <= v < 10 -> byte_val (byte_of (48 + v)) = 48 + v.
Proof. intros H. rewrite byte_val_of. apply Z.mod_small. lia. Qed.

Lemma decimal_digits_read fuel : forall v, 0 <= v < 10 ^ Z.of_nat fuel -> read_digits 0 (decimal_digits fuel v) = v.
Proof.
  induction fuel as [|fuel IH]; intros v Hv; [simpl in *; lia|]. cbn [decimal_digits]. destruct (Z.ltb_spec v 10).
  - cbn [read_digits]. rewrite digit_byte by lia. lia.
  - rewrite read_digits_app, IH.
    + cbn [read_digits]. pose proof (Z.mod_pos_bound v 10). rewrite digit_byte by lia. pose proof (Z.div_mod v 10). lia.
    + rewrite Nat2Z.inj_succ, Z.pow_succ_r in Hv by lia. split; [apply Z.div_pos; lia | apply Z.div_lt_upper_bound; lia].
Qed.

Lemma decimal_digits_digits fuel : forall v, 0 <= v -> string_forall is_digit (decimal_digits fuel v) = true.
Proof.
  induction fuel as [|fuel IH]; intros v Hv; [done|]. cbn [decimal_digits].
  assert (forall x, 0 <= x < 10 -> is_digit (byte_of (48 + x)) = true) as Hd.
  { intros x Hx. unfold is_digit, between. rewrite digit_byte by done. apply andb_true_iff. rewrite !Z.leb_le. lia. }
  destruct (Z.ltb_spec v 10); [simpl; by rewrite Hd|].
  rewrite string_forall_app, IH by (apply Z.div_pos; lia). simpl. rewrite Hd by (apply Z.mod_pos_bound; lia). done.
Qed.

(** A text after which no integer continues. *)
Definition ends (s : string) : Prop := match s with String c _ => is_digit c = false | EmptyString => True end.

Lemma digits_split a : forall b s t, string_forall is_digit a = true -> string_forall is_digit b = true -> ends s -> ends t ->
  a +:+ s = b +:+ t -> a = b /\ s = t.
Proof.
  induction a as [|x a IH]; intros [|y b] s t Ha Hb Hs Ht E; simpl in *; subst; try done.
  - apply andb_true_iff in Hb as [Hy _]. simpl in Hs. congruence.
  - apply andb_true_iff in Ha as [Hx _]. simpl in Ht. congruence.
  - injection E as -> E. apply andb_true_iff in Ha as [_ Ha], Hb as [_ Hb]. destruct (IH b s t) as [-> ->]; done.
Qed.

Definition int_sized (v : Z) : Prop := - 10 ^ 20 < v < 10 ^ 20.

Lemma decimal_digits_head f v : 0 <= v -> exists c r, decimal_digits (S f) v = String c r /\ is_digit c = true.
Proof.
  intros Hv. pose proof (decimal_digits_digits (S f) v Hv) as Hd. revert Hd. cbn [decimal_digits].
  destruct (v <? 10); [simpl; intros Hd; eexists _, _; split; [done|]; by apply andb_true_iff in Hd as [? _]|].
  destruct (decimal_digits f (v / 10)) as [|c r]; simpl; intros Hd; eexists _, _; (split; [done|]);
    by apply andb_true_iff in Hd as [? _].
Qed.

Lemma decimal_digits_inj v w s t : 0 <= v < 10 ^ 20 -> 0 <= w < 10 ^ 20 -> ends s -> ends t ->
  decimal_digits 20 v +:+ s = decimal_digits 20 w +:+ t -> v = w /\ s = t.
Proof.
  intros Hv Hw Hs Ht E. apply digits_split in E as [E ->]; try done; try (apply decimal_digits_digits; lia).
  split; [|done]. rewrite <- (decimal_digits_read 20 v), <- (decimal_digits_read 20 w) by (simpl Z.of_nat; lia). by rewrite E.
Qed.

Lemma int_text_inj v w s t : int_sized v -> int_sized w -> ends s -> ends t ->
  int_text v +:+ s = int_text w +:+ t -> v = w /\ s = t.
Proof.
  unfold int_sized, int_text. intros Hv Hw Hs Ht E.
  assert (forall x y u r, 0 <= x -> "-" +:+ y +:+ r <> decimal_digits 20 x +:+ u) as Hminus.
  { intros x y u r Hx E'. destruct (decimal_digits_head 19 x Hx) as (c & k & Ed & Hc). rewrite Ed in E'. by injection E' as <- _. }
  destruct (Z.ltb_spec v 0), (Z.ltb_spec w 0); rewrite ?string_app_assoc in E.
  - apply string_app_inj_l in E. apply decimal_digits_inj in E as [E ->]; [|lia..|done|done]. split; [lia | done].
  - exfalso. by apply (Hminus w (decimal_digits 20 (- v)) t s).
  - exfalso. by apply (Hminus v (decimal_digits 20 (- w)) s t).
  - apply decimal_digits_inj in E as [-> ->]; [done|lia..|done|done].
Qed.

Lemma int_text_head v : int_sized v ->
  exists c r, int_text v = String c r /\ c <> quote_mark /\ c <> "{"%char /\ c <> "["%char /\ c <> "]"%char.
Proof.
  unfold int_text. intros _. destruct (Z.ltb_spec v 0); [by eexists _, _|].
  destruct (decimal_digits_head 19 v) as (c & r & -> & Hc); [done|]. exists c, r. split; [done|].
  repeat split; intros ->; done.
Qed.

(** ** Values are written unambiguously *)

Fixpoint print_members (ms : list (string * json)) (first : bool) : string :=
  match ms with
  | [] => ""
  | (k, v) :: rest => (if first then "" else ",") +:+ quote k +:+ ":" +:+ print v +:+ print_members rest false
  end.

Fixpoint print_items (l : list json) (first : bool) : string :=
  match l with
  | [] => ""
  | v :: rest => (if first then "" else ",") +:+ print v +:+ print_items rest false
  end.

Lemma print_array l : print (JArray l) = "[" +:+ print_items l true +:+ "]".
Proof. reflexivity. Qed.

Lemma print_object ms : print (JObject ms) = "{" +:+ print_members ms true +:+ "}".
Proof. reflexivity. Qed.

Lemma json_induction (P : json -> Prop) :
  (forall s, P (JString s)) -> (forall v, P (JInt v)) -> (forall l, Forall P l -> P (JArray l)) ->
  (forall ms, Forall (fun m => P (snd m)) ms -> P (JObject ms)) -> forall j, P j.
Proof.
  intros Hs Hi Ha Ho. fix go 1. intros [s|v|l|ms]; [apply Hs | apply Hi| |].
  - apply Ha. induction l as [|v l IH]; constructor; [apply go | exact IH].
  - apply Ho. induction ms as [|[k v] ms IH]; constructor; [apply go | exact IH].
Qed.

(** The integers of a value have their Go type. *)
Fixpoint ints_sized (j : json) : Prop :=
  match j with
  | JString _ => True
  | JInt v => int_sized v
  | JArray l => (fix all (l : list json) : Prop := match l with [] => True | v :: rest => ints_sized v /\ all rest end) l
  | JObject ms => (fix all (ms : list (string * json)) : Prop :=
                     match ms with [] => True | (_, v) :: rest => ints_sized v /\ all rest end) ms
  end.

(** No value is written with a closing bracket at its head. *)
Lemma print_head j : ints_sized j -> exists c r, print j = String c r /\ c <> "]"%char.
Proof.
  destruct j as [s|v|l|ms]; intros H; [by eexists _, _| |by eexists _, _|by eexists _, _].
  destruct (int_text_head v H) as (c & r & E & _ & _ & _ & Hc). by exists c, r.
Qed.

Lemma items_end l first rest : ends rest -> ends (print_items l first +:+ rest) \/ first = true.
Proof. destruct l as [|v l]; simpl; [by left|]. destruct first; [by right | by left]. Qed.

Lemma members_end ms first rest : ends rest -> ends (print_members ms first +:+ rest) \/ first = true.
Proof. destruct ms as [|[k v] ms]; simpl; [by left|]. destruct first; [by right | by left]. Qed.

Definition unambiguous (j : json) : Prop :=
  forall k s t, ints_sized j -> ints_sized k -> ends s -> ends t -> print j +:+ s = print k +:+ t -> j = k /\ s = t.

Lemma print_members_inj ms : Forall (fun m => unambiguous (snd m)) ms -> forall ks first s t,
  ints_sized (JObject ms) -> ints_sized (JObject ks) ->
  print_members ms first +:+ "}" +:+ s = print_members ks first +:+ "}" +:+ t -> ms = ks /\ s = t.
Proof.
  induction 1 as [|[k v] ms Hv HF IH]; intros [|[k' v'] ks] first s t Hms Hks E; cbn [print_members] in E;
    rewrite ?string_app_assoc in E.
  - simpl in E. injection E as ->. done.
  - exfalso. destruct first; simpl in E; discriminate E.
  - exfalso. destruct first; simpl in E; discriminate E.
  - apply string_app_inj_l in E. apply quote_inj in E as [-> E]. apply string_app_inj_l in E.
    destruct Hms as [Hm Hms], Hks as [Hk Hks]. simpl in Hv.
    apply Hv in E as [-> E]; try done.
    + apply IH in E as [-> ->]; done.
    + destruct (members_end ms false ("}" +:+ s)) as [?|?]; done.
    + destruct (members_end ks false ("}" +:+ t)) as [?|?]; done.
Qed.

Lemma print_items_inj l : Forall unambiguous l -> forall k first s t,
  ints_sized (JArray l) -> ints_sized (JArray k) ->
  print_items l first +:+ "]" +:+ s = print_items k first +:+ "]" +:+ t -> l = k /\ s = t.
Proof.
  induction 1 as [|v l Hv HF IH]; intros [|v' k] first s t Hl Hk E; cbn [print_items] in E; rewrite ?string_app_assoc in E.
  - simpl in E. injection E as ->. done.
  - exfalso. destruct Hk as [Hk _], (print_head v' Hk) as (c & r & Ev & Hc). rewrite Ev in E.
    destruct first; simpl in E; [injection E as <- _; done | discriminate E].
  - exfalso. destruct Hl as [Hl _], (print_head v Hl) as (c & r & Ev & Hc). rewrite Ev in E.
    destruct first; simpl in E; [injection E as -> _; done | discriminate E].
  - apply string_app_inj_l in E. destruct Hl as [Hl Hls], Hk as [Hk Hks]. apply Hv in E as [-> E]; try done.
    + apply IH in E as [-> ->]; done.
    + destruct (items_end l false ("]" +:+ s)) as [?|?]; done.
    + destruct (items_end k false ("]" +:+ t)) as [?|?]; done.
Qed.

Lemma print_unambiguous j : unambiguous j.
Proof.
  induction j as [a|v|l IH|ms IH] using json_induction; intros k s t Hj Hk Hs Ht E.
  - destruct k as [b|w|m|ks]; [|exfalso..].
    + apply quote_inj in E as [-> ->]. done.
    + destruct (int_text_head w Hk) as (c & r & Ew & Hc & _). cbn [print] in E. rewrite Ew in E. simpl in E.
      injection E as <- _. done.
    + rewrite print_array in E. simpl in E. discriminate E.
    + rewrite print_object in E. simpl in E. discriminate E.
  - destruct (int_text_head v Hj) as (c & r & Ev & Hc & Hb & Ha & _). destruct k as [b|w|m|ks].
    + exfalso. cbn [print] in E. rewrite Ev in E. simpl in E. injection E as -> _. done.
    + cbn [print] in E. apply int_text_inj in E as [-> ->]; done.
    + exfalso. rewrite print_array in E. cbn [print] in E. rewrite Ev in E. simpl in E. injection E as -> _. done.
    + exfalso. rewrite print_object in E. cbn [print] in E. rewrite Ev in E. simpl in E. injection E as -> _. done.
  - rewrite print_array in E. destruct k as [b|w|m|ks].
    + exfalso. simpl in E. discriminate E.
    + exfalso. destruct (int_text_head w Hk) as (c & r & Ew & _ & _ & Ha & _). cbn [print] in E. rewrite Ew in E. simpl in E.
      injection E as <- _. done.
    + rewrite print_array, !string_app_assoc in E. apply string_app_inj_l in E. apply (print_items_inj l IH) in E as [-> ->]; done.
    + exfalso. rewrite print_object in E. simpl in E. discriminate E.
  - rewrite print_object in E. destruct k as [b|w|m|ks].
    + exfalso. simpl in E. discriminate E.
    + exfalso. destruct (int_text_head w Hk) as (c & r & Ew & _ & Hb & _). cbn [print] in E. rewrite Ew in E. simpl in E.
      injection E as <- _. done.
    + exfalso. rewrite print_array in E. simpl in E. discriminate E.
    + rewrite print_object, !string_app_assoc in E. apply string_app_inj_l in E.
      apply (print_members_inj ms IH) in E as [-> ->]; done.
Qed.

Lemma print_inj j k : ints_sized j -> ints_sized k -> print j = print k -> j = k.
Proof.
  intros Hj Hk E. destruct (print_unambiguous j k "" "" Hj Hk I I) as [-> _]; [|done]. by rewrite E.
Qed.

(** ** Lengths *)

Lemma piece_text_length p : slen (piece_text p) <= 6 * slen (piece_bytes p).
Proof.
  destruct p as [c|[]]; [|vm_compute; done..]. unfold piece_text.
  repeat case_match; vm_compute; done.
Qed.

Lemma texts_length ps : slen (texts ps) <= 6 * slen (bytes_of ps).
Proof.
  induction ps as [|p ps IH]; simpl; [done|]. rewrite !slen_app. pose proof (piece_text_length p). lia.
Qed.

(** A string is at most six times as long when it is written. *)
Lemma quote_length s : slen (quote s) <= 6 * slen s + 2.
Proof.
  unfold quote. pose proof (texts_length (pieces s)) as H. rewrite bytes_pieces in H.
  change (slen (String quote_mark (texts (pieces s) +:+ String quote_mark ""))) with
    (slen (String quote_mark "" +:+ texts (pieces s) +:+ String quote_mark "")).
  rewrite !slen_app. unfold slen in *. simpl in *. lia.
Qed.
