(* ===== verification/JsonParse.v ===== *)
(** * Reading canonical JSON text

    [UnmarshalCanonical] functions decode with [jsonv2.Unmarshal], rebuild the
    value, encode it again and accept the text only when it is byte for byte
    the canonical one.  What is accepted is therefore decided by the canonical
    texts alone; [parse] reads exactly those, and refuses any other text as the
    final comparison would.  Members are then read by name: an absent one is
    the zero value, an unknown or repeated one is refused. *)

From S2P Require Import Prelude Bytes Json.
From Stdlib Require Import Ascii String.

(** ** Strings *)

Definition hex_value (c : ascii) : option Z :=
  if is_digit c then Some (byte_val c - 48) else if between 97 102 c then Some (byte_val c - 87) else None.

(** The first piece of the inside of a string. *)
Definition next_piece (s : string) : option (piece * string) :=
  match s with
  | EmptyString => None
  | String c rest =>
      if negb (Ascii.eqb c backslash) then Some (Byte c, rest) else
      match rest with
      | String e rest =>
          if Ascii.eqb e quote_mark || Ascii.eqb e backslash then Some (Byte e, rest)
          else if Ascii.eqb e "b" then Some (Byte (byte_of 8), rest)
          else if Ascii.eqb e "f" then Some (Byte (byte_of 12), rest)
          else if Ascii.eqb e "n" then Some (Byte (byte_of 10), rest)
          else if Ascii.eqb e "r" then Some (Byte (byte_of 13), rest)
          else if Ascii.eqb e "t" then Some (Byte (byte_of 9), rest)
          else if Ascii.eqb e "u" then
            match rest with
            | String a (String b (String x (String y rest))) =>
                if Ascii.eqb a "0" && Ascii.eqb b "0" then
                  high ← hex_value x; low ← hex_value y; Some (Byte (byte_of (high * 16 + low)), rest)
                else if Ascii.eqb a "2" && Ascii.eqb b "0" && Ascii.eqb x "2" then
                  if Ascii.eqb y "8" then Some (Separator false, rest)
                  else if Ascii.eqb y "9" then Some (Separator true, rest) else None
                else None
            | _ => None
            end
          else None
      | EmptyString => None
      end
  end.

Lemma next_piece_text p s : next_piece (piece_text p +:+ s) = Some (p, s).
Proof. destruct p as [c|[]]; [|reflexivity..]. destruct c as [[] [] [] [] [] [] [] []]; reflexivity. Qed.

(** The rest of a string after its opening mark. *)
Fixpoint unquote (fuel : nat) (s : string) : option (string * string) :=
  match fuel with
  | O => None
  | S fuel' =>
      match s with
      | EmptyString => None
      | String c rest =>
          if Ascii.eqb c quote_mark then Some ("", rest) else
          '(p, rest) ← next_piece s;
          '(text, rest) ← unquote fuel' rest;
          Some (piece_bytes p +:+ text, rest)
      end
  end.

Lemma unquote_texts ps : forall fuel s, (List.length ps < fuel)%nat ->
  unquote fuel (texts ps +:+ String quote_mark s) = Some (bytes_of ps, s).
Proof.
  induction ps as [|p ps IH]; intros [|fuel] s Hf; simpl in Hf; try lia; cbn [unquote texts bytes_of].
  - reflexivity.
  - rewrite string_app_assoc. pose proof (next_piece_text p (texts ps +:+ String quote_mark s)) as Hn.
    destruct (piece_text_head p) as (c & r & Ep & Hc). rewrite Ep in *. cbn [String.append] in *.
    change (String c r +:+ (texts ps +:+ String quote_mark s)) with (String c (r +:+ (texts ps +:+ String quote_mark s))) in *.
    destruct (Ascii.eqb_spec c quote_mark) as [->|_]; [done|]. rewrite Hn. cbn [mbind option_bind]. by rewrite IH by lia.
Qed.

(** ** Integers *)

Fixpoint take_digits (s : string) : string * string :=
  match s with
  | String c rest => if is_digit c then let '(ds, r) := take_digits rest in (String c ds, r) else ("", s)
  | EmptyString => ("", "")
  end.

Definition parse_natural (s : string) : option (Z * string) :=
  let '(ds, rest) := take_digits s in if String.eqb ds "" then None else Some (read_digits 0 ds, rest).

Definition parse_int (s : string) : option (Z * string) :=
  match s with
  | String c rest => if Ascii.eqb c "-" then '(v, r) ← parse_natural rest; Some (- v, r) else parse_natural s
  | EmptyString => None
  end.

(** ** Values *)

Fixpoint parse_value (fuel : nat) (s : string) : option (json * string) :=
  match fuel with
  | O => None
  | S fuel' =>
      match s with
      | EmptyString => None
      | String c rest =>
          if Ascii.eqb c quote_mark then '(a, r) ← unquote fuel' rest; Some (JString a, r)
          else if Ascii.eqb c "{" then '(ms, r) ← parse_members fuel' true rest; Some (JObject ms, r)
          else if Ascii.eqb c "[" then '(l, r) ← parse_items fuel' true rest; Some (JArray l, r)
          else '(v, r) ← parse_int s; Some (JInt v, r)
      end
  end
with parse_members (fuel : nat) (first : bool) (s : string) : option (list (string * json) * string) :=
  match fuel with
  | O => None
  | S fuel' =>
      match s with
      | EmptyString => None
      | String c rest =>
          if Ascii.eqb c "}" then Some ([], rest) else
          body ← (if first then Some s else strip_prefix "," s);
          opened ← strip_prefix (String quote_mark "") body;
          '(k, r) ← unquote fuel' opened;
          r ← strip_prefix ":" r;
          '(v, r) ← parse_value fuel' r;
          '(ms, r) ← parse_members fuel' false r;
          Some ((k, v) :: ms, r)
      end
  end
with parse_items (fuel : nat) (first : bool) (s : string) : option (list json * string) :=
  match fuel with
  | O => None
  | S fuel' =>
      match s with
      | EmptyString => None
      | String c rest =>
          if Ascii.eqb c "]" then Some ([], rest) else
          body ← (if first then Some s else strip_prefix "," s);
          '(v, r) ← parse_value fuel' body;
          '(l, r) ← parse_items fuel' false r;
          Some (v :: l, r)
      end
  end.

(** Every call but those inside a string consumes a byte, so the length of the
    text is enough fuel. *)
Definition parse (s : string) : option json :=
  match parse_value (S (String.length s)) s with Some (j, "") => Some j | _ => None end.

(** ** Reading back what was written *)

Lemma texts_count ps : Z.of_nat (List.length ps) <= slen (texts ps).
Proof.
  induction ps as [|p ps IH]; cbn [List.length texts]; [done|]. rewrite slen_app.
  destruct (piece_text_head p) as (c & r & -> & _). unfold slen in *. cbn [String.length]. lia.
Qed.

Lemma unquote_quote fuel a rest : slen (quote a) < Z.of_nat fuel ->
  exists s, quote a +:+ rest = String quote_mark s /\ forall f, (fuel <= S f)%nat -> unquote f s = Some (a, rest).
Proof.
  intros Hf. unfold quote in *. eexists. split; [reflexivity|]. intros f Hle.
  change (texts (pieces a) +:+ String quote_mark "") with (texts (pieces a) +:+ (String quote_mark "")).
  rewrite string_app_assoc. change (String quote_mark "" +:+ rest) with (String quote_mark rest).
  rewrite unquote_texts; [by rewrite bytes_pieces|]. pose proof (texts_count (pieces a)).
  change (String quote_mark (texts (pieces a) +:+ String quote_mark "")) with (String quote_mark "" +:+ texts (pieces a) +:+ String quote_mark "") in Hf.
  rewrite !slen_app in Hf. unfold slen in *. simpl in Hf. lia.
Qed.

Lemma take_digits_app a s : string_forall is_digit a = true -> ends s -> take_digits (a +:+ s) = (a, s).
Proof.
  induction a as [|c a IH]; intros Ha Hs.
  - destruct s as [|c s]; [done|]. simpl in *. by rewrite Hs.
  - cbn [string_forall] in Ha. apply andb_true_iff in Ha as [Hc Ha]. simpl. by rewrite Hc, IH.
Qed.

Lemma parse_natural_digits v s : 0 <= v < 10 ^ 20 -> ends s -> parse_natural (decimal_digits 20 v +:+ s) = Some (v, s).
Proof.
  intros Hv Hs. unfold parse_natural. rewrite take_digits_app by (done || apply decimal_digits_digits; lia).
  destruct (decimal_digits_head 19 v) as (c & r & E & _); [lia|]. rewrite decimal_digits_read by (simpl Z.of_nat; lia).
  by rewrite E.
Qed.

Lemma parse_int_text v s : int_sized v -> ends s -> parse_int (int_text v +:+ s) = Some (v, s).
Proof.
  unfold int_sized, int_text. intros Hv Hs. destruct (Z.ltb_spec v 0).
  - rewrite string_app_assoc.
    change (parse_int ("-" +:+ (decimal_digits 20 (- v) +:+ s))) with
      ('(x, r) ← parse_natural (decimal_digits 20 (- v) +:+ s); Some (- x, r)).
    rewrite parse_natural_digits by (done || lia). cbn [mbind option_bind]. do 2 f_equal. lia.
  - destruct (decimal_digits_head 19 v) as (c & r & E & Hc); [done|].
    pose proof (parse_natural_digits v s ltac:(lia) Hs) as Hp. rewrite E in *.
    change (String c r +:+ s) with (String c (r +:+ s)) in *. cbn [parse_int].
    destruct (Ascii.eqb_spec c "-") as [->|_]; [discriminate Hc | done].
Qed.

Definition readable (j : json) : Prop := forall fuel rest, ints_sized j -> ends rest -> slen (print j) < Z.of_nat fuel ->
  parse_value fuel (print j +:+ rest) = Some (j, rest).

Lemma parse_members_print ms : Forall (fun m => readable (snd m)) ms -> forall fuel first rest,
  ints_sized (JObject ms) -> slen (print_members ms first) < Z.of_nat fuel ->
  parse_members fuel first (print_members ms first +:+ "}" +:+ rest) = Some (ms, rest).
Proof.
  induction 1 as [|[k v] ms Hv HF IH]; intros [|fuel] first rest Hs Hf; try (unfold slen in Hf; lia); [done|].
  destruct Hs as [Hsv Hs]. cbn [print_members] in *. rewrite !slen_app in Hf. change (slen ":") with 1 in Hf. cbn [snd] in Hv.
  assert (exists c r, quote k = String c r /\ c = quote_mark) as (c & r & Eq & Hc) by (unfold quote; by eexists _, _).
  destruct (unquote_quote (S fuel) k (":" +:+ print v +:+ print_members ms false +:+ "}" +:+ rest)) as (s & Es & Hu).
  { unfold slen in *. lia. }
  specialize (IH fuel false rest Hs). rewrite !string_app_assoc.
  assert (slen (print_members ms false) < Z.of_nat fuel) as Hm by (unfold slen in *; lia).
  assert (slen (print v) < Z.of_nat fuel) as Hlv by (unfold slen in *; lia).
  assert (ends (print_members ms false +:+ "}" +:+ rest)) as He by (by destruct (members_end ms false ("}" +:+ rest))).
  rewrite Es.
  assert (forall t, strip_prefix (String quote_mark "") (String quote_mark t) = Some t) as Hq
    by (intros t; exact (strip_prefix_app (String quote_mark "") t)).
  destruct first.
  - change ("" +:+ String quote_mark s) with (String quote_mark s). cbn [parse_members]. change (Ascii.eqb quote_mark "}") with false.
    cbn [mbind option_bind]. rewrite Hq. cbn [mbind option_bind]. rewrite Hu by done. cbn [mbind option_bind].
    rewrite strip_prefix_app. cbn [mbind option_bind]. rewrite Hv by done. cbn [mbind option_bind]. by rewrite IH.
  - change ("," +:+ String quote_mark s) with (String "," (String quote_mark s)). cbn [parse_members].
    change (Ascii.eqb "," "}") with false. change (strip_prefix "," (String "," ?x)) with (Some x).
    cbn [mbind option_bind]. rewrite Hq. cbn [mbind option_bind]. rewrite Hu by done. cbn [mbind option_bind].
    rewrite strip_prefix_app. cbn [mbind option_bind]. rewrite Hv by done. cbn [mbind option_bind]. by rewrite IH.
Qed.

Lemma parse_items_print l : Forall readable l -> forall fuel first rest,
  ints_sized (JArray l) -> slen (print_items l first) + 1 < Z.of_nat fuel ->
  parse_items fuel first (print_items l first +:+ "]" +:+ rest) = Some (l, rest).
Proof.
  induction 1 as [|v l Hv HF IH]; intros [|fuel] first rest Hs Hf; try (unfold slen in Hf; lia); [done|].
  destruct Hs as [Hsv Hs]. cbn [print_items] in *. rewrite !slen_app in Hf.
  destruct (print_head v Hsv) as (c & r & Ev & Hc). specialize (IH fuel false rest Hs). rewrite !string_app_assoc.
  assert (1 <= slen (print v)) as Hp by (rewrite Ev; unfold slen; cbn [String.length]; lia).
  assert (0 <= slen (if first then "" else ",")) as H0 by (unfold slen; lia).
  assert (0 <= slen (print_items l false)) as H1 by (unfold slen; lia).
  assert (slen (print_items l false) + 1 < Z.of_nat fuel) as Hm by lia.
  assert (slen (print v) < Z.of_nat fuel) as Hlv by lia.
  assert (ends (print_items l false +:+ "]" +:+ rest)) as He by (by destruct (items_end l false ("]" +:+ rest))).
  specialize (Hv fuel (print_items l false +:+ "]" +:+ rest) Hsv He Hlv). rewrite Ev in *.
  change (String c r +:+ ?x) with (String c (r +:+ x)) in *. destruct first.
  - change ("" +:+ ?x) with x. cbn [parse_items]. destruct (Ascii.eqb_spec c "]") as [->|_]; [done|].
    cbn [mbind option_bind]. rewrite Hv. cbn [mbind option_bind]. by rewrite IH.
  - change ("," +:+ ?x) with (String "," x). cbn [parse_items].
    change (Ascii.eqb "," "]") with false. change (strip_prefix "," (String "," ?x)) with (Some x).
    cbn [mbind option_bind]. rewrite Hv. cbn [mbind option_bind]. by rewrite IH.
Qed.

Lemma print_readable j : readable j.
Proof.
  induction j as [a|v|l IH|ms IH] using json_induction; intros [|fuel] rest Hs He Hf; try (unfold slen in Hf; lia).
  - cbn [print] in *. destruct (unquote_quote (S fuel) a rest Hf) as (s & -> & Hu). cbn [parse_value].
    rewrite Ascii.eqb_refl, Hu by done. done.
  - cbn [print] in *. destruct (int_text_head v Hs) as (c & r & Ev & H1 & H2 & H3 & _).
    pose proof (parse_int_text v rest Hs He) as Hp. rewrite Ev in *. change (String c r +:+ rest) with (String c (r +:+ rest)) in *.
    cbn [parse_value]. rewrite (proj2 (Ascii.eqb_neq _ _) H1), (proj2 (Ascii.eqb_neq _ _) H2), (proj2 (Ascii.eqb_neq _ _) H3).
    by rewrite Hp.
  - rewrite print_array in *. rewrite !slen_app in Hf. rewrite !string_app_assoc.
    change ("[" +:+ ?x) with (String "[" x). cbn [parse_value]. change (Ascii.eqb "[" quote_mark) with false.
    change (Ascii.eqb "[" "{") with false. change (Ascii.eqb "[" "[") with true. cbv iota.
    rewrite parse_items_print; [done | done | done|]. change (slen "[") with 1 in Hf. change (slen "]") with 1 in Hf. lia.
  - rewrite print_object in *. rewrite !slen_app in Hf. rewrite !string_app_assoc.
    change ("{" +:+ ?x) with (String "{" x). cbn [parse_value]. change (Ascii.eqb "{" quote_mark) with false.
    change (Ascii.eqb "{" "{") with true. cbv iota.
    rewrite parse_members_print; [done | done | done|]. change (slen "{") with 1 in Hf. change (slen "}") with 1 in Hf. lia.
Qed.

Lemma parse_print j : ints_sized j -> parse (print j) = Some j.
Proof.
  intros Hs. unfold parse. pose proof (print_readable j (S (String.length (print j))) "" Hs I) as H.
  rewrite string_app_nil_r in H. rewrite H by (unfold slen; lia). done.
Qed.

(** ** Members by name *)

Definition known_members (keys : list string) (ms : list (string * json)) : bool :=
  forallb (fun m => bool_decide (m.1 ∈ keys)) ms && bool_decide (NoDup ms.*1).

Fixpoint find_member (key : string) (ms : list (string * json)) : option json :=
  match ms with [] => None | (k, v) :: rest => if String.eqb k key then Some v else find_member key rest end.

(** A string member; an absent one is the empty string. *)
Definition get_string (key : string) (ms : list (string * json)) : option string :=
  match find_member key ms with None => Some "" | Some (JString s) => Some s | Some _ => None end.

(** An integer member within its type; an absent one is zero. *)
Definition get_int (low high : Z) (key : string) (ms : list (string * json)) : option Z :=
  match find_member key ms with
  | None => Some 0
  | Some (JInt v) => if (low <=? v) && (v <=? high) then Some v else None
  | Some _ => None
  end.

Definition get_object (key : string) (ms : list (string * json)) : option (list (string * json)) :=
  match find_member key ms with None => Some [] | Some (JObject inner) => Some inner | Some _ => None end.

(** A pointer member; an absent one is nil. *)
Definition get_pointer {A} (decode : list (string * json) -> option A) (key : string) (ms : list (string * json))
    : option (option A) :=
  match find_member key ms with
  | None => Some None
  | Some (JObject inner) => Some <$> decode inner
  | Some _ => None
  end.

Definition get_array (key : string) (ms : list (string * json)) : option (list json) :=
  match find_member key ms with None => Some [] | Some (JArray l) => Some l | Some _ => None end.
