(* ===== verification/Resource.v ===== *)
(** * The resource envelope (resource/resource.go, resource/canonical.go)

    Every resource is an immutable envelope: identity and revision metadata
    around a desired [spec] and an observed [status], which are kept as canonical
    JSON.  A write returns a new envelope; it consumes one resource version and
    one update time, and advances the generation exactly when the canonical
    [spec] changes.

    The typed codec of a [spec] or [status] is [encoding/json/v2] at that type,
    the class [TypedJSON]; its values are JSON trees, whose text is [text].
    The reader of canonical text is [ResourceText]; the reflection over Go types
    of [typed_json.go] is not modelled. *)

From stdpp Require Import sorting.
From S2P Require Import Prelude StringOrder Bytes GoTime Calendar Json Digests Hierarchy.
From Stdlib Require Import Ascii String.

Inductive error :=
| ErrGenerationOverflow
| ErrRepresentationTooLarge
| ErrAPIVersion
| ErrKind
| ErrID (field : string)
| ErrDisplayName
| ErrLabels
| ErrResourceVersion
| ErrTimestamp (field : string)
| ErrVersionReused
| ErrTimeBackwards
| ErrGeneration
| ErrTimestampOrder
| ErrObservation
| ErrEncode (field : string)
| ErrDecode (field : string)
| ErrJSON
| ErrNotObject
| ErrNumber
| ErrNotConverged
| ErrPlacement (inner : Hierarchy.error).

(** ** Limits and patterns *)

Definition MaxCanonicalBytes : Z := 262144.
Definition maxJSONDepth : Z := 64.
Definition maxJSONNodes : Z := 50000.
Definition maxLabels : Z := 64.
Definition maxDisplayNameRunes : Z := 128.
Definition maxLabelValueRunes : Z := 256.

(** A positive decimal number and then what [stop] accepts. *)
Fixpoint number_then (stop : string -> bool) (first : bool) (s : string) : bool :=
  match s with
  | String c rest =>
      if first then is_digit c && negb (Ascii.eqb c "0") && number_then stop false rest
      else (is_digit c && number_then stop false rest) || stop s
  | EmptyString => negb first && stop s
  end.

(** A version label such as [v1] or [v1alpha1]: [apiVersionPattern]. *)
Definition apiVersionPattern (value : string) : bool :=
  match strip_prefix "v" value with
  | None => false
  | Some s =>
      number_then (fun t =>
        String.eqb t "" ||
        match strip_prefix "alpha" t, strip_prefix "beta" t with
        | Some u, _ | None, Some u => number_then (String.eqb "") true u
        | None, None => false
        end) true s
  end.

(** [^[A-Z][A-Za-z0-9]{0,63}$] *)
Definition kindPattern (value : string) : bool := matches_pattern is_upper is_alnum 0 63 value.

(** [^[a-z][a-z0-9.-]{0,62}$] *)
Definition label_char (c : ascii) : bool := is_lower c || is_digit c || one_of ".-" c.
Definition labelKeyPattern (value : string) : bool := matches_pattern is_lower label_char 0 62 value.

(** [^[A-Za-z0-9_-]{1,128}$] *)
Definition resourceVersionPattern (value : string) : bool := matches_pattern id_char id_char 0 127 value.

Definition validateAPIVersion (value : string) : result error unit := fail_if (negb (apiVersionPattern value)) ErrAPIVersion.
Definition validateKind (value : string) : result error unit := fail_if (negb (kindPattern value)) ErrKind.
Definition validateID (value field : string) : result error ID :=
  if validID value then Ok value else Err (ErrID field).

Definition validateDisplayName (value : string) : result error unit :=
  match utf8_runes value with
  | Some length => fail_if ((length <? 1) || (maxDisplayNameRunes <? length)) ErrDisplayName
  | None => Err ErrDisplayName
  end.

Definition validateParent (value : option ID) : result error (option ID) :=
  match value with
  | None => Ok None
  | Some id => Some <$> validateID id "metadata.parent"
  end.

Definition valid_label (label : string * string) : bool :=
  labelKeyPattern label.1 &&
  match utf8_runes label.2 with Some length => length <=? maxLabelValueRunes | None => false end.

(** The labels are a Go map; an empty one is normalised to nil. *)
Definition validateLabels (labels : gmap string string) : result error (gmap string string) :=
  fail_if (maxLabels <? Z.of_nat (size labels)) ErrLabels;;
  fail_if (negb (forallb valid_label (map_to_list labels))) ErrLabels;;
  Ok labels.

Definition validateResourceVersion (value : string) : result error string :=
  if resourceVersionPattern value then Ok value else Err ErrResourceVersion.

(** [normalizeTimestamp]; the year of an instant before year 1 is not positive. *)
Definition normalizeTimestamp (value : time) (field : string) : result error time :=
  fail_if (is_zero value) (ErrTimestamp field);;
  let value := truncate_ms value in
  fail_if ((Year value <? 0) || (9999 <? Year value)) (ErrTimestamp field);;
  Ok value.

(** ** JSON trees *)

(** A decoded value.  [VInt] is an integer literal in its shortest form,
    [VNumber] any other number literal. *)
Inductive value :=
| VNull
| VBool (b : bool)
| VInt (v : Z)
| VNumber (literal : string)
| VString (s : string)
| VArray (items : list value)
| VObject (members : list (string * value)).

Fixpoint separated (parts : list string) : string :=
  match parts with
  | [] => ""
  | [p] => p
  | p :: rest => p +:+ "," +:+ separated rest
  end.

(** The compact text of a tree, members in the order of the list. *)
Fixpoint text (v : value) : string :=
  match v with
  | VNull => "null"
  | VBool b => if b then "true" else "false"
  | VInt v => int_text v
  | VNumber literal => literal
  | VString s => quote s
  | VArray items => "[" +:+ separated (map text items) +:+ "]"
  | VObject members => "{" +:+ separated (map (fun '(k, v) => quote k +:+ ":" +:+ text v) members) +:+ "}"
  end.

Fixpoint distinct (keys : list string) : bool :=
  match keys with
  | [] => true
  | k :: rest => forallb (fun k' => negb (String.eqb k k')) rest && distinct rest
  end.

(** What [scanJSONValue] counts and refuses; it stops at the first excess, with
    one error for all of them. *)
Fixpoint nodes (v : value) : Z :=
  match v with
  | VArray items => 1 + foldr Z.add 0 (map nodes items)
  | VObject members => 1 + foldr Z.add 0 (map (fun '(_, v) => nodes v) members)
  | _ => 1
  end.

Fixpoint depth (v : value) : Z :=
  match v with
  | VArray items => foldr Z.max 0 (map (fun v => 1 + depth v) items)
  | VObject members => foldr Z.max 0 (map (fun '(_, v) => 1 + depth v) members)
  | _ => 0
  end.

Fixpoint distinct_keys (v : value) : bool :=
  match v with
  | VArray items => forallb distinct_keys items
  | VObject members => distinct (map fst members) && forallb (fun '(_, v) => distinct_keys v) members
  | _ => true
  end.

(** The text is valid UTF-8 when every string in it is: everything else in it is
    ASCII. *)
Fixpoint utf8_value (v : value) : bool :=
  match v with
  | VString s | VNumber s => utf8_valid s
  | VArray items => forallb utf8_value items
  | VObject members => forallb (fun '(k, v) => utf8_valid k && utf8_value v) members
  | _ => true
  end.

Definition validateJSON (v : value) : result error unit :=
  fail_if (negb (utf8_value v)) ErrJSON;;
  fail_if ((maxJSONDepth <? depth v) || (maxJSONNodes <? nodes v) || negb (distinct_keys v)) ErrJSON.

Definition in_int64b (v : Z) : bool := (-9223372036854775808 <=? v) && (v <=? max_int64).

(** Numbers must be 64-bit integers; [strconv.ParseInt] reads [-0] as zero. *)
Fixpoint normalizeCanonicalValue (v : value) : result error value :=
  match v with
  | VInt x => if in_int64b x then Ok (VInt x) else Err ErrNumber
  | VNumber literal => if String.eqb literal "-0" then Ok (VInt 0) else Err ErrNumber
  | VArray items => VArray <$> mapM normalizeCanonicalValue items
  | VObject members => VObject <$> mapM (fun '(k, v) => v' ← normalizeCanonicalValue v; Ok (k, v')) members
  | _ => Ok v
  end.

Definition member_le (a b : string * value) : Prop := string_le a.1 b.1.
#[export] Instance member_le_dec : RelDecision member_le.
Proof. intros a b. unfold member_le. apply _. Defined.
#[export] Instance member_le_total : Total member_le.
Proof. intros a b. unfold member_le. apply (total string_le). Qed.
#[export] Instance member_le_trans : Transitive member_le.
Proof. intros a b c. unfold member_le. apply (transitivity (R := string_le)). Qed.

(** [json.Marshal] of a Go map writes its members in key order. *)
Fixpoint sort_value (v : value) : value :=
  match v with
  | VArray items => VArray (map sort_value items)
  | VObject members => VObject (merge_sort member_le (map (fun '(k, v) => (k, sort_value v)) members))
  | _ => v
  end.

Definition is_object (v : value) : bool := match v with VObject _ => true | _ => false end.

Definition canonicalizeRawObject (data : value) : result error value :=
  fail_if (MaxCanonicalBytes <? slen (text data)) ErrRepresentationTooLarge;;
  validateJSON data;;
  fail_if (negb (is_object data)) ErrNotObject;;
  normalized ← normalizeCanonicalValue data;
  Ok (sort_value normalized).

(** ** Typed values *)

(** [encodeTypedJSON] and [decodeExactJSON] at one Go type. *)
Class TypedJSON (Value : Type) := {
  encodeTypedJSON : Value -> option value;
  decodeExactJSON : value -> option Value;
}.

Class GenerationObservations (Status : Type) := ObservedGenerations : Status -> list Z.

Section Typed.
Context {Value : Type} `{TypedJSON Value}.

(** The loop of [decodeObject]: [rounds] attempts to reach a fixed point of
    decoding and encoding. *)
Fixpoint converge (rounds : nat) (canonical : value) (field : string) : result error (value * Value) :=
  match rounds with
  | O => Err ErrNotConverged
  | S rounds' =>
      typed ← of_option (decodeExactJSON canonical) (ErrDecode field);
      encoded ← of_option (encodeTypedJSON typed) (ErrEncode field);
      normalized ← canonicalizeRawObject encoded;
      if String.eqb (text canonical) (text normalized) then Ok (canonical, typed)
      else converge rounds' normalized field
  end.

Definition decodeObject (data : value) (field : string) : result error (value * Value) :=
  canonical ← canonicalizeRawObject data;
  converge 2 canonical field.

Definition canonicalizeObject (typed : Value) (field : string) : result error (value * Value) :=
  encoded ← of_option (encodeTypedJSON typed) (ErrEncode field);
  decodeObject encoded field.

Definition decodeValue (data : value) (field : string) : result error Value := snd <$> decodeObject data field.
End Typed.

(** ** Envelopes *)

Record Metadata := Meta {
  m_id : ID;
  m_workspaceID : ID;
  m_displayName : string;
  m_parent : option ID;
  m_labels : gmap string string;
  m_generation : Z;
  m_resourceVersion : string;
  m_createdAt : time;
  m_updatedAt : time;
}.

(** The trees of [spec] and [status] stand for their canonical bytes. *)
Record Resource (Spec Status : Type) := Res {
  rs_apiVersion : string;
  rs_kind : string;
  rs_metadata : Metadata;
  rs_spec : value;
  rs_status : value;
}.
Arguments Res {Spec Status}.
Arguments rs_apiVersion {Spec Status}.
Arguments rs_kind {Spec Status}.
Arguments rs_metadata {Spec Status}.
Arguments rs_spec {Spec Status}.
Arguments rs_status {Spec Status}.

Record CreateInput (Spec Status : Type) := CI {
  ci_APIVersion : string;
  ci_Kind : string;
  ci_ID : string;
  ci_WorkspaceID : string;
  ci_DisplayName : string;
  ci_Parent : option ID;
  ci_Labels : gmap string string;
  ci_ResourceVersion : string;
  ci_CreatedAt : time;
  ci_Spec : Spec;
  ci_Status : Status;
}.
Arguments CI {Spec Status}.
Arguments ci_APIVersion {Spec Status}.
Arguments ci_Kind {Spec Status}.
Arguments ci_ID {Spec Status}.
Arguments ci_WorkspaceID {Spec Status}.
Arguments ci_DisplayName {Spec Status}.
Arguments ci_Parent {Spec Status}.
Arguments ci_Labels {Spec Status}.
Arguments ci_ResourceVersion {Spec Status}.
Arguments ci_CreatedAt {Spec Status}.
Arguments ci_Spec {Spec Status}.
Arguments ci_Status {Spec Status}.

Definition wire_labels (labels : gmap string string) : list (string * value) :=
  if decide (labels = ∅) then []
  else [("labels", sort_value (VObject ((fun '(k, v) => (k, VString v)) <$> map_to_list labels)))].

Definition wire_parent (parent : option ID) : list (string * value) :=
  match parent with Some id => [("parent", VString id)] | None => [] end.

Section Envelope.
Context {Spec Status : Type} `{TypedJSON Spec} `{TypedJSON Status} `{GenerationObservations Status}.
Notation resource := (Resource Spec Status).

Definition wireResource (r : resource) : value :=
  let m := rs_metadata r in
  VObject [("apiVersion", VString (rs_apiVersion r)); ("kind", VString (rs_kind r));
    ("metadata", VObject ([("id", VString (m_id m)); ("workspaceId", VString (m_workspaceID m));
        ("displayName", VString (m_displayName m))] ++ wire_parent (m_parent m) ++ wire_labels (m_labels m) ++
        [("generation", VInt (m_generation m)); ("resourceVersion", VString (m_resourceVersion m));
         ("createdAt", VString (format_timestamp (m_createdAt m))); ("updatedAt", VString (format_timestamp (m_updatedAt m)))]));
    ("spec", rs_spec r); ("status", rs_status r)].

Definition marshalCanonical (r : resource) : result error string :=
  let m := rs_metadata r in
  validateAPIVersion (rs_apiVersion r);;
  validateKind (rs_kind r);;
  validateID (m_id m) "metadata.id";;
  validateID (m_workspaceID m) "metadata.workspaceId";;
  validateDisplayName (m_displayName m);;
  validateParent (m_parent m);;
  validateLabels (m_labels m);;
  fail_if (m_generation m <? 1) ErrGeneration;;
  validateResourceVersion (m_resourceVersion m);;
  fail_if (before (m_updatedAt m) (m_createdAt m)) ErrTimestampOrder;;
  validateJSON (wireResource r);;
  Ok (text (wireResource r)).

Definition MarshalCanonical (r : resource) : result error string :=
  encoded ← marshalCanonical r;
  fail_if (MaxCanonicalBytes <? slen encoded) ErrRepresentationTooLarge;;
  Ok encoded.

Definition validateSize (r : resource) : result error unit :=
  encoded ← marshalCanonical r;
  fail_if (MaxCanonicalBytes <? slen encoded) ErrRepresentationTooLarge.

Definition validateObservations (status : Status) (generation : Z) : result error unit :=
  fail_if (existsb (fun observed => (observed <? 0) || (generation <? observed)) (ObservedGenerations status)) ErrObservation.

Definition New (input : CreateInput Spec Status) : result error resource :=
  validateAPIVersion (ci_APIVersion input);;
  validateKind (ci_Kind input);;
  id ← validateID (ci_ID input) "metadata.id";
  workspaceID ← validateID (ci_WorkspaceID input) "metadata.workspaceId";
  validateDisplayName (ci_DisplayName input);;
  parent ← validateParent (ci_Parent input);
  labels ← validateLabels (ci_Labels input);
  version ← validateResourceVersion (ci_ResourceVersion input);
  createdAt ← normalizeTimestamp (ci_CreatedAt input) "metadata.createdAt";
  '(spec, _) ← canonicalizeObject (ci_Spec input) "spec";
  '(status, canonicalStatus) ← canonicalizeObject (ci_Status input) "status";
  validateObservations canonicalStatus 1;;
  let result := Res (ci_APIVersion input) (ci_Kind input)
    (Meta id workspaceID (ci_DisplayName input) parent labels 1 version createdAt createdAt) spec status in
  validateSize result;;
  Ok result.

Definition Resource_Spec (r : resource) : result error Spec := decodeValue (rs_spec r) "spec".
Definition Resource_Status (r : resource) : result error Status := decodeValue (rs_status r) "status".

Definition set_revision (m : Metadata) (version : string) (updatedAt : time) : Metadata :=
  Meta (m_id m) (m_workspaceID m) (m_displayName m) (m_parent m) (m_labels m) (m_generation m) version
    (m_createdAt m) updatedAt.

Definition advance (r : resource) (nextResourceVersion : string) (updatedAt : time) : result error resource :=
  version ← validateResourceVersion nextResourceVersion;
  fail_if (String.eqb version (m_resourceVersion (rs_metadata r))) ErrVersionReused;;
  normalizedTime ← normalizeTimestamp updatedAt "metadata.updatedAt";
  fail_if (before normalizedTime (m_updatedAt (rs_metadata r))) ErrTimeBackwards;;
  Ok (Res (rs_apiVersion r) (rs_kind r) (set_revision (rs_metadata r) version normalizedTime) (rs_spec r) (rs_status r)).

(** The fields a write changes after [advance]. *)
Definition with_intent (r : resource) (displayName : string) (labels : gmap string string) (spec : value) (generation : Z)
    : resource :=
  let m := rs_metadata r in
  Res (rs_apiVersion r) (rs_kind r)
    (Meta (m_id m) (m_workspaceID m) displayName (m_parent m) labels generation (m_resourceVersion m)
       (m_createdAt m) (m_updatedAt m)) spec (rs_status r).

Definition with_status (r : resource) (status : value) : resource :=
  Res (rs_apiVersion r) (rs_kind r) (rs_metadata r) (rs_spec r) status.

Definition labelsEqual (left right : gmap string string) : bool := bool_decide (left = right).

Definition ReplaceIntent (r : resource) (displayName : string) (labels : gmap string string) (spec : Spec)
    (nextResourceVersion : string) (updatedAt : time) : result error resource :=
  let m := rs_metadata r in
  validateDisplayName displayName;;
  normalizedLabels ← validateLabels labels;
  '(canonicalSpec, _) ← canonicalizeObject spec "spec";
  let specChanged := negb (String.eqb (text canonicalSpec) (text (rs_spec r))) in
  if String.eqb displayName (m_displayName m) && labelsEqual normalizedLabels (m_labels m) && negb specChanged then Ok r else
  fail_if (specChanged && (m_generation m =? max_int64)) ErrGenerationOverflow;;
  result ← advance r nextResourceVersion updatedAt;
  let result := with_intent result displayName normalizedLabels canonicalSpec
                  (if specChanged then m_generation m + 1 else m_generation m) in
  validateSize result;;
  Ok result.

Definition Rename (r : resource) (displayName nextResourceVersion : string) (updatedAt : time) : result error resource :=
  let m := rs_metadata r in
  validateDisplayName displayName;;
  if String.eqb displayName (m_displayName m) then Ok r else
  result ← advance r nextResourceVersion updatedAt;
  let result := with_intent result displayName (m_labels m) (rs_spec r) (m_generation m) in
  validateSize result;;
  Ok result.

Definition ReplaceLabels (r : resource) (labels : gmap string string) (nextResourceVersion : string) (updatedAt : time)
    : result error resource :=
  let m := rs_metadata r in
  normalized ← validateLabels labels;
  if labelsEqual normalized (m_labels m) then Ok r else
  result ← advance r nextResourceVersion updatedAt;
  let result := with_intent result (m_displayName m) normalized (rs_spec r) (m_generation m) in
  validateSize result;;
  Ok result.

Definition ReplaceSpec (r : resource) (spec : Spec) (nextResourceVersion : string) (updatedAt : time) : result error resource :=
  let m := rs_metadata r in
  '(canonical, _) ← canonicalizeObject spec "spec";
  if String.eqb (text canonical) (text (rs_spec r)) then Ok r else
  fail_if (m_generation m =? max_int64) ErrGenerationOverflow;;
  result ← advance r nextResourceVersion updatedAt;
  let result := with_intent result (m_displayName m) (m_labels m) canonical (m_generation m + 1) in
  validateSize result;;
  Ok result.

Definition ReplaceStatus (r : resource) (status : Status) (nextResourceVersion : string) (updatedAt : time)
    : result error resource :=
  '(canonical, canonicalStatus) ← canonicalizeObject status "status";
  validateObservations canonicalStatus (m_generation (rs_metadata r));;
  if String.eqb (text canonical) (text (rs_status r)) then Ok r else
  result ← advance r nextResourceVersion updatedAt;
  let result := with_status result canonical in
  validateSize result;;
  Ok result.

(** [hierarchy.NewResource] *)
Definition NewResource (placement : Placement) (displayName : string) (labels : gmap string string) (resourceVersion : string)
    (createdAt : time) (spec : Spec) (status : Status) : result error resource :=
  map_err ErrPlacement (validatePlacement placement);;
  New (CI APIVersion (Kind_String (p_kind placement)) (p_id placement) (p_workspaceID placement) displayName
    (p_parent placement) labels resourceVersion createdAt spec status).
End Envelope.
