(* ===== verification/ResourceProps.v ===== *)
(** * Resource envelopes: canonical values and histories of writes

    Canonicalisation is idempotent, so what an envelope retains reads back; a
    history of writes keeps identity, orders update times, and its generation
    counts the changes of the canonical [spec]. *)

From stdpp Require Import sorting.
From S2P Require Import Prelude StringOrder Bytes GoTime Calendar Json Digests Hierarchy Resource.
From Stdlib Require Import Ascii String.

(** ** Induction on trees *)

Lemma value_ind' (P : value -> Prop) :
  P VNull -> (forall b, P (VBool b)) -> (forall x, P (VInt x)) -> (forall l, P (VNumber l)) -> (forall s, P (VString s)) ->
  (forall items, Forall P items -> P (VArray items)) ->
  (forall members, Forall (fun m => P m.2) members -> P (VObject members)) ->
  forall v, P v.
Proof.
  intros Hn Hb Hi Hl Hs Ha Ho. fix IH 1. intros [| | | | |items|members]; [done..| |].
  - apply Ha. induction items; constructor; [apply IH | done].
  - apply Ho. induction members as [|[k v] rest IHm]; constructor; [apply IH | done].
Qed.

Section MapM.
Context {E A B : Type} (f : A -> result E B).

Lemma mapM_ok l k : mapM f l = Ok k <-> Forall2 (fun x y => f x = Ok y) l k.
Proof.
  revert k. induction l as [|x l IH]; intros k; simpl.
  - split; [intros [= <-]; constructor | inversion 1; done].
  - rewrite bind_ok. setoid_rewrite bind_ok. split.
    + intros (y & Hy & ys & Hys & [= <-]). constructor; [done | by apply IH].
    + inversion 1; subst. eexists; split; [done|]. eexists; split; [by apply IH|done].
Qed.
End MapM.

(** ** Normal trees *)

(** What normalisation and sorting leave: integers in range, members in
    strictly increasing order. *)
Fixpoint canonical_value (v : value) : bool :=
  match v with
  | VInt x => in_int64b x
  | VNumber _ => false
  | VArray items => forallb canonical_value items
  | VObject members => increasing (map fst members) && forallb (fun '(_, v) => canonical_value v) members
  | _ => true
  end.

Lemma distinct_nodup keys : distinct keys = true <-> NoDup keys.
Proof.
  induction keys as [|k keys IH]; simpl; [split; [constructor|done]|].
  rewrite andb_true_iff, IH, NoDup_cons, forallb_forall. f_equiv. split.
  - intros H Hin. apply list_elem_of_In in Hin. specialize (H k Hin). by rewrite String.eqb_refl in H.
  - intros H x Hx. apply negb_true_iff, String.eqb_neq. intros <-. apply H. by apply list_elem_of_In.
Qed.

(** The measures that [validateJSON] and the size limit read. *)
Record fits (v w : value) : Prop := {
  fit_nodes : nodes w <= nodes v;
  fit_depth : depth w <= depth v;
  fit_text : slen (text w) <= slen (text v);
  fit_utf8 : utf8_value v = true -> utf8_value w = true;
  fit_keys : distinct_keys v = true -> distinct_keys w = true;
}.

#[export] Instance fits_preorder : PreOrder fits.
Proof.
  split; [intros v; split; done || lia|]. intros u v w [] []. split; [lia..|auto|auto].
Qed.

Section Folds.
Context {A : Type} (f : A -> Z).

Lemma sum_mono {B} (g : B -> Z) l k : Forall2 (fun x y => g y <= f x) l k -> foldr Z.add 0 (map g k) <= foldr Z.add 0 (map f l).
Proof. induction 1; simpl; lia. Qed.

Lemma max_mono {B} (g : B -> Z) l k : Forall2 (fun x y => g y <= f x) l k -> foldr Z.max 0 (map g k) <= foldr Z.max 0 (map f l).
Proof. induction 1; simpl; lia. Qed.

Lemma sum_perm l k : l ≡ₚ k -> foldr Z.add 0 (map f l) = foldr Z.add 0 (map f k).
Proof. induction 1; simpl; lia. Qed.

Lemma max_perm l k : l ≡ₚ k -> foldr Z.max 0 (map f l) = foldr Z.max 0 (map f k).
Proof. induction 1; simpl; lia. Qed.

End Folds.

Lemma forallb_perm {A} (p : A -> bool) l k : l ≡ₚ k -> forallb p l = forallb p k.
Proof. induction 1; simpl; try congruence. by rewrite !andb_assoc, (andb_comm (p y)). Qed.

Lemma forallb_forall2 {A B} (p : A -> bool) (q : B -> bool) l k :
  Forall2 (fun x y => p x = true -> q y = true) l k -> forallb p l = true -> forallb q k = true.
Proof. induction 1; simpl; [done|]. rewrite !andb_true_iff. intuition. Qed.
Lemma separated_len parts : slen (separated parts) = foldr Z.add 0 (map slen parts) + Z.max 0 (llen parts - 1).
Proof.
  induction parts as [|p [|q rest] IH]; [done|simpl; lia|].
  change (separated (p :: q :: rest)) with (p +:+ "," +:+ separated (q :: rest)). rewrite !slen_app, IH.
  change (slen ",") with 1. simpl. lia.
Qed.

Lemma text_array l : slen (text (VArray l)) = 2 + foldr Z.add 0 (map (fun v => slen (text v)) l) + Z.max 0 (llen l - 1).
Proof. cbn [text]. rewrite !slen_app, separated_len, length_map, map_map. change (slen "[") with 1. change (slen "]") with 1. lia. Qed.

Definition member_len (m : string * value) : Z := slen (quote m.1) + 1 + slen (text m.2).

Lemma text_object l : slen (text (VObject l)) = 2 + foldr Z.add 0 (map member_len l) + Z.max 0 (llen l - 1).
Proof.
  cbn [text]. rewrite !slen_app, separated_len, length_map, map_map. change (slen "{") with 1. change (slen "}") with 1.
  rewrite (map_ext (fun x => slen (let '(k, v) := x in quote k +:+ ":" +:+ text v)) member_len); [lia|].
  intros [k v]. rewrite !slen_app. change (slen ":") with 1. unfold member_len. simpl. lia.
Qed.

Lemma fits_array l k : Forall2 fits l k -> fits (VArray l) (VArray k).
Proof.
  intros H. split; rewrite ?text_array; simpl.
  - assert (Forall2 (fun x y => nodes y <= nodes x) l k) as H' by (eapply Forall2_impl; [done|]; by intros ?? []).
    apply sum_mono in H'. lia.
  - apply max_mono. eapply Forall2_impl; [done|]. intros ?? []. lia.
  - rewrite (Forall2_length _ _ _ H).
    assert (foldr Z.add 0 (map (fun v => slen (text v)) k) <= foldr Z.add 0 (map (fun v => slen (text v)) l)); [|lia].
    apply sum_mono. eapply Forall2_impl; [done|]. by intros ?? [].
  - apply (forallb_forall2 utf8_value utf8_value l k). eapply Forall2_impl; [done|]. by intros ?? [].
  - apply (forallb_forall2 distinct_keys distinct_keys l k). eapply Forall2_impl; [done|]. by intros ?? [].
Qed.

Definition member_fits (m n : string * value) : Prop := n.1 = m.1 /\ fits m.2 n.2.

Lemma member_fits_keys l k : Forall2 member_fits l k -> map fst k = map fst l.
Proof. induction 1 as [|[] [] ?? [? _]]; simpl in *; congruence. Qed.

Lemma fits_object l k : Forall2 member_fits l k -> fits (VObject l) (VObject k).
Proof.
  intros H. split; rewrite ?text_object; simpl.
  - assert (Forall2 (fun x y : string * value => (let '(_, v) := y in nodes v) <= (let '(_, v) := x in nodes v)) l k) as H'
      by (eapply Forall2_impl; [done|]; by intros [] [] [_ []]).
    apply sum_mono in H'. lia.
  - apply max_mono. eapply Forall2_impl; [done|]. intros [] [] [_ []]. simpl in *. lia.
  - rewrite (Forall2_length _ _ _ H). assert (foldr Z.add 0 (map member_len k) <= foldr Z.add 0 (map member_len l)); [|lia].
    apply sum_mono. eapply Forall2_impl; [done|]. intros [] [] [E []]. unfold member_len. simpl in *. rewrite E. lia.
  - refine (forallb_forall2 _ _ l k _). eapply Forall2_impl; [done|]. intros [] [] [E []]. simpl in *. subst. rewrite !andb_true_iff. intuition.
  - rewrite (member_fits_keys _ _ H), !andb_true_iff. intros [? Hk]. split; [done|]. revert Hk.
    refine (forallb_forall2 _ _ l k _). eapply Forall2_impl; [done|]. by intros [] [] [_ []].
Qed.

Lemma fits_perm l k : l ≡ₚ k -> fits (VObject l) (VObject k).
Proof.
  intros H. split; rewrite ?text_object; simpl.
  - by rewrite (sum_perm _ _ _ H).
  - by rewrite (max_perm _ _ _ H).
  - rewrite (sum_perm _ _ _ H), (Permutation_length H). lia.
  - by rewrite (forallb_perm _ _ _ H).
  - rewrite (forallb_perm _ _ _ H), !andb_true_iff, !distinct_nodup. intros [? ?]. split; [|done].
    by rewrite <- (Permutation_map fst H).
Qed.

(** ** Normalisation and sorting *)

Fixpoint integral (v : value) : bool :=
  match v with
  | VInt x => in_int64b x
  | VNumber _ => false
  | VArray items => forallb integral items
  | VObject members => forallb (fun '(_, v) => integral v) members
  | _ => true
  end.

Lemma normalize_sound v : forall n, normalizeCanonicalValue v = Ok n -> fits v n /\ integral n = true.
Proof.
  induction v as [ | | | | |items IH|members IH] using value_ind'; intros n Hn; cbn [normalizeCanonicalValue] in Hn.
  1, 2, 5: injection Hn as <-; by split.
  - destruct (in_int64b x) eqn:E; [|done]. injection Hn as <-. by split.
  - destruct (String.eqb_spec l "-0") as [->|]; [|done]. injection Hn as <-. split; [|done]. by split.
  - destruct (mapM _ _) as [k|] eqn:E; [|done]. injection Hn as <-. apply mapM_ok in E.
    assert (Forall2 (fun x y => fits x y /\ integral y = true) items k) as F.
    { clear -IH E. induction E; [constructor|]. apply Forall_cons in IH as [IH1 IH2]. constructor; [by apply IH1 | by apply IHE]. }
    split; [apply fits_array; eapply Forall2_impl; [done|]; by intros ?? [] | cbn [integral]; clear -F].
    induction F as [|???? [_ Hy]]; [done|]. simpl. by rewrite Hy.
  - destruct (mapM _ _) as [k|] eqn:E; [|done]. injection Hn as <-. apply mapM_ok in E.
    assert (Forall2 (fun x y => member_fits x y /\ integral y.2 = true) members k) as F.
    { clear -IH E. induction E as [|[a v] [b w] ?? Ev ? IHE]; [constructor|]. apply Forall_cons in IH as [IH1 IH2].
      run_inv Ev. constructor; [|by apply IHE]. destruct (IH1 _ Hr). by split. }
    split; [apply fits_object; eapply Forall2_impl; [done|]; by intros ?? [] | cbn [integral]; clear -F].
    induction F as [|? [a w] ?? [_ Hw]]; [done|]. simpl in *. by rewrite Hw.
Qed.

Definition sort_member (m : string * value) : string * value := let '(k, v) := m in (k, sort_value v).

Lemma sort_members_perm members : merge_sort member_le (map sort_member members) ≡ₚ map sort_member members.
Proof. apply merge_sort_Permutation. Qed.

Lemma sort_fits v : fits v (sort_value v).
Proof.
  induction v as [ | | | | |items IH|members IH] using value_ind'; cbn [sort_value]; try reflexivity.
  - apply fits_array. induction IH; constructor; done.
  - etrans; [apply fits_object | apply fits_perm; symmetry; apply sort_members_perm].
    induction IH as [|[a v] ? Hv]; constructor; [by split | done].
Qed.

(** Sorting members with distinct keys gives the increasing listing. *)
Lemma sorted_members_increasing ms : NoDup (map fst ms) -> increasing (map fst (merge_sort member_le ms)) = true.
Proof.
  intros Hnd. apply increasing_sorted. pose proof (StronglySorted_merge_sort member_le ms) as Hs.
  assert (NoDup (map fst (merge_sort member_le ms))) as Hnd'.
  { by rewrite (Permutation_map fst (merge_sort_Permutation member_le ms)). }
  induction Hs as [|x l Hs IH Hf]; [constructor|]. cbn [map] in *. apply NoDup_cons in Hnd' as [Hx Hnd'].
  constructor; [by apply IH|]. apply Forall_forall. intros k Hk. apply list_elem_of_fmap in Hk as (m & -> & Hm).
  rewrite Forall_forall in Hf. apply string_le_lt; [by apply (Hf m)|]. intros E. apply Hx. rewrite E. apply list_elem_of_fmap.
  by exists m.
Qed.

Lemma sort_canonical v : integral v = true -> distinct_keys v = true -> canonical_value (sort_value v) = true.
Proof.
  induction v as [ | | | | |items IH|members IH] using value_ind'; cbn [integral distinct_keys sort_value canonical_value]; try done.
  - intros Hi Hd. rewrite forallb_forall in *. intros y Hy. apply in_map_iff in Hy as (x & <- & Hx).
    rewrite Forall_forall in IH. apply IH; [by apply list_elem_of_In | by apply Hi | by apply Hd].
  - rewrite andb_true_iff, distinct_nodup. intros Hi [Hn Hd]. apply andb_true_iff. split.
    + apply sorted_members_increasing. rewrite map_map. erewrite map_ext; [exact Hn|]. by intros [].
    + rewrite (forallb_perm _ _ _ (sort_members_perm members)). rewrite forallb_forall in *. intros y Hy.
      apply in_map_iff in Hy as ([k v] & <- & Hx). rewrite Forall_forall in IH. cbn [sort_member].
      apply (IH (k, v)); [by apply list_elem_of_In | by apply (Hi (k, v)) | by apply (Hd (k, v))].
Qed.

Lemma canonical_fixed v : canonical_value v = true -> normalizeCanonicalValue v = Ok v /\ sort_value v = v.
Proof.
  induction v as [ | |x| | |items IH|members IH] using value_ind'; cbn [canonical_value normalizeCanonicalValue sort_value];
    intros Hc; try done.
  - by rewrite Hc.
  - rewrite forallb_forall in Hc. assert (Forall (fun v => normalizeCanonicalValue v = Ok v /\ sort_value v = v) items) as F.
    { rewrite Forall_forall in *. intros x Hx. apply IH; [done|]. apply Hc. by apply list_elem_of_In. }
    assert (mapM normalizeCanonicalValue items = Ok items) as -> by (apply mapM_ok; induction F as [|?? []]; constructor; [done | by apply IHF;
      [apply Forall_cons in IH as [_ ?] | intros; apply Hc; right]]).
    split; [done|]. f_equal. clear -F. induction F as [|?? [_ E]]; simpl; congruence.
  - apply andb_true_iff in Hc as [Hinc Hc]. rewrite forallb_forall in Hc.
    assert (Forall (fun m => normalizeCanonicalValue m.2 = Ok m.2 /\ sort_value m.2 = m.2) members) as F.
    { rewrite Forall_forall in *. intros [k v] Hx. apply (IH (k, v)); [done|]. apply (Hc (k, v)). by apply list_elem_of_In. }
    assert (mapM (fun '(k, v) => v' ← normalizeCanonicalValue v; Ok (k, v')) members = Ok members) as ->.
    { apply mapM_ok. clear -F. induction F as [|[k v] ? [E _]]; constructor; [|done]. simpl in *. by rewrite E. }
    split; [done|]. f_equal.
    assert (map (fun '(k, v) => (k, sort_value v)) members = members) as ->
      by (clear -F; induction F as [|[k v] ? [_ E]]; simpl in *; congruence).
    apply (sorted_key_unique fst).
    + apply sorted_members_increasing. by apply sorted_lt_nodup, increasing_sorted.
    + done.
    + apply merge_sort_Permutation.
Qed.

Lemma normalize_object v n : normalizeCanonicalValue v = Ok n -> is_object v = true -> is_object (sort_value n) = true.
Proof. destruct v; try done. cbn [normalizeCanonicalValue]. destruct (mapM _ _); [|done]. by intros [= <-]. Qed.

Lemma canonicalize_idempotent d c : canonicalizeRawObject d = Ok c -> canonicalizeRawObject c = Ok c.
Proof.
  unfold canonicalizeRawObject, validateJSON. intros Hr. run_inv Hr. rename x3 into n.
  destruct (normalize_sound _ _ Hr4) as [Hf Hi]. pose proof (sort_fits n) as Hs.
  pose proof (transitivity Hf Hs) as [Hno Hde Hte Hut Hke]. guards_in Hr0. guards_in Hr1. guards_in Hr2. guards_in Hr3.
  assert (canonical_value (sort_value n) = true) as Hc by (apply sort_canonical; [done|]; by apply (fit_keys _ _ Hf)).
  destruct (canonical_fixed _ Hc) as [Hn Hsort]. rewrite Hn. unfold mbind at 4. cbn [result_bind]. rewrite Hsort.
  rewrite (normalize_object _ _ Hr4) by done. rewrite Hut, Hke by done.
  rewrite (proj2 (Z.ltb_ge MaxCanonicalBytes _)), (proj2 (Z.ltb_ge maxJSONDepth _)), (proj2 (Z.ltb_ge maxJSONNodes _)) by lia. done.
Qed.

(** ** What an envelope retains reads back *)

Section Typed.
Context {Value : Type} `{TypedJSON Value}.

Lemma converge_fixed n : forall d c (v : Value) field, canonicalizeRawObject d = Ok d -> converge n d field = Ok (c, v) ->
  canonicalizeRawObject c = Ok c /\ forall m, converge (S m) c field = Ok (c, v).
Proof.
  induction n as [|n IH]; intros d c v field Hd Hc; [done|]. cbn [converge] in Hc. run_inv Hc.
  destruct (String.eqb (text d) (text x1)) eqn:E.
  - injection Hc as <- <-. split; [done|]. intros m. cbn [converge]. rewrite Hr. cbn [of_option mbind result_bind].
    rewrite Hr0. cbn [of_option mbind result_bind]. rewrite Hr1. cbn [mbind result_bind]. by rewrite E.
  - apply (IH x1 c v field); [|done]. by eapply canonicalize_idempotent.
Qed.

Lemma decodeObject_fixed d c (v : Value) field : decodeObject d field = Ok (c, v) -> decodeObject c field = Ok (c, v).
Proof.
  unfold decodeObject. intros Hd. run_inv Hd. destruct (converge_fixed _ _ _ _ _ (canonicalize_idempotent _ _ Hr) Hd) as [Hc Hv].
  rewrite Hc. apply Hv.
Qed.

Lemma canonicalizeObject_fixed (w : Value) c v field : canonicalizeObject w field = Ok (c, v) -> decodeValue c field = Ok v.
Proof.
  unfold canonicalizeObject, decodeValue. intros Hd. run_inv Hd. by rewrite (decodeObject_fixed _ _ _ _ Hd).
Qed.
End Typed.

(** ** Histories of writes *)

Section Histories.
Context {Spec Status : Type} `{TypedJSON Spec} `{TypedJSON Status} `{GenerationObservations Status}.
Notation resource := (Resource Spec Status).

Inductive write :=
| WIntent (displayName : string) (labels : gmap string string) (spec : Spec) (version : string) (at_ : time)
| WRename (displayName version : string) (at_ : time)
| WLabels (labels : gmap string string) (version : string) (at_ : time)
| WSpec (spec : Spec) (version : string) (at_ : time)
| WStatus (status : Status) (version : string) (at_ : time).

Definition apply_write (r : resource) (w : write) : result error resource :=
  match w with
  | WIntent name labels spec version at_ => ReplaceIntent r name labels spec version at_
  | WRename name version at_ => Rename r name version at_
  | WLabels labels version at_ => ReplaceLabels r labels version at_
  | WSpec spec version at_ => ReplaceSpec r spec version at_
  | WStatus status version at_ => ReplaceStatus r status version at_
  end.

(** A failing write returns the resource it was given. *)
Definition write_to (r : resource) (w : write) : resource := match apply_write r w with Ok r' => r' | Err _ => r end.

(** The number of writes of a history that change the desired state. *)
Fixpoint spec_changes (r : resource) (ws : list write) : Z :=
  match ws with
  | [] => 0
  | w :: rest =>
      (if String.eqb (text (rs_spec r)) (text (rs_spec (write_to r w))) then 0 else 1) + spec_changes (write_to r w) rest
  end.

Definition same_identity (r r' : resource) : Prop :=
  rs_apiVersion r' = rs_apiVersion r /\ rs_kind r' = rs_kind r /\ m_id (rs_metadata r') = m_id (rs_metadata r) /\
  m_workspaceID (rs_metadata r') = m_workspaceID (rs_metadata r) /\ m_parent (rs_metadata r') = m_parent (rs_metadata r) /\
  m_createdAt (rs_metadata r') = m_createdAt (rs_metadata r).

(** What holds of every envelope that the package returns. *)
Definition sound (r : resource) : Prop :=
  validateSize r = Ok tt /\ m_generation (rs_metadata r) <= max_int64 /\ (exists spec, Resource_Spec r = Ok spec) /\
  exists status, Resource_Status r = Ok status /\ validateObservations status (m_generation (rs_metadata r)) = Ok tt.

Record follows (r r' : resource) : Prop := {
  fo_identity : same_identity r r';
  fo_revision : r' = r \/ (m_resourceVersion (rs_metadata r') <> m_resourceVersion (rs_metadata r) /\
                          m_updatedAt (rs_metadata r) <= m_updatedAt (rs_metadata r'));
  fo_generation : m_generation (rs_metadata r') = m_generation (rs_metadata r) +
                    (if String.eqb (text (rs_spec r)) (text (rs_spec r')) then 0 else 1);
}.

Lemma advance_ok (r a : resource) version at_ : advance r version at_ = Ok a ->
  exists t, a = Res (rs_apiVersion r) (rs_kind r) (set_revision (rs_metadata r) version t) (rs_spec r) (rs_status r) /\
    version <> m_resourceVersion (rs_metadata r) /\ m_updatedAt (rs_metadata r) <= t.
Proof.
  unfold advance, validateResourceVersion. intros Ha. destruct (resourceVersionPattern version); [|done]. run_inv Ha.
  guards_in Hr. rewrite before_false in Hr1. by eexists.
Qed.

Lemma follows_refl (r : resource) : follows r r.
Proof. split; [by repeat split | by left|]. rewrite String.eqb_refl. lia. Qed.

Lemma observations_mono (s : Status) g g' : g <= g' -> validateObservations s g = Ok tt -> validateObservations s g' = Ok tt.
Proof.
  unfold validateObservations. intros Hg. generalize (ObservedGenerations s). intros l. rewrite !fail_if_ok.
  induction l as [|x l IH]; [done|]. cbn [existsb]. rewrite !orb_false_iff, !Z.ltb_ge. intuition lia.
Qed.

(** The writes of desired state, after their own checks. *)
Lemma intent_follows (r a : resource) name labels spec (specv : Spec) generation version at_ :
  sound r -> advance r version at_ = Ok a -> decodeValue spec "spec" = Ok specv ->
  generation = m_generation (rs_metadata r) + (if String.eqb (text (rs_spec r)) (text spec) then 0 else 1) -> generation <= max_int64 ->
  validateSize (with_intent a name labels spec generation) = Ok tt ->
  sound (with_intent a name labels spec generation) /\ follows r (with_intent a name labels spec generation).
Proof.
  intros (_ & _ & _ & status & Hstatus & Hobs) Ha Hspec Hg Hmax Hsize. apply advance_ok in Ha as (t & -> & Hv & Ht).
  split.
  - split; [done|]. split; [done|]. split; [by exists specv|]. exists status. split; [done|].
    eapply observations_mono; [|done]. subst. simpl. destruct (String.eqb _ _); lia.
  - split; simpl; [by repeat split | by right | done].
Qed.

Lemma spec_decodes (spec : Spec) c v : canonicalizeObject spec "spec" = Ok (c, v) -> decodeValue c "spec" = Ok v.
Proof. apply canonicalizeObject_fixed. Qed.

Lemma size_unit (r : resource) u : validateSize r = Ok u -> validateSize r = Ok tt.
Proof. by destruct u. Qed.

Lemma apply_write_sound (r r' : resource) w : sound r -> apply_write r w = Ok r' -> sound r' /\ follows r r'.
Proof.
  intros Hs Hw. pose proof Hs as (_ & Hmax & (specv & Hspec) & _).
  assert (m_generation (rs_metadata r) = m_generation (rs_metadata r) +
    (if String.eqb (text (rs_spec r)) (text (rs_spec r)) then 0 else 1)) as Hsame by (rewrite String.eqb_refl; lia).
  destruct w as [name labels spec version at_|name version at_|labels version at_|spec version at_|status version at_]; cbn [apply_write] in Hw.
  - unfold ReplaceIntent in Hw. run_inv Hw. destruct x1 as [c v]. destruct (_ && _ && _); [injection Hw as <-; split; [done | apply follows_refl]|].
    run_inv Hw. eapply intent_follows; try done; [by eapply spec_decodes| | |by eapply size_unit];
      rewrite (String.eqb_sym (text (rs_spec r))) || idtac; destruct (String.eqb (text c) (text (rs_spec r))); simpl in *; guards_in Hr2; lia.
  - unfold Rename in Hw. run_inv Hw. destruct (String.eqb _ _); [injection Hw as <-; split; [done | apply follows_refl]|].
    run_inv Hw. eapply intent_follows; try done. by eapply size_unit.
  - unfold ReplaceLabels in Hw. run_inv Hw. destruct (labelsEqual _ _); [injection Hw as <-; split; [done | apply follows_refl]|].
    run_inv Hw. eapply intent_follows; try done. by eapply size_unit.
  - unfold ReplaceSpec in Hw. run_inv Hw. destruct x as [c v]. destruct (String.eqb (text c) _) eqn:E;
      [injection Hw as <-; split; [done | apply follows_refl]|].
    run_inv Hw. guards_in Hr0. rewrite String.eqb_sym in E.
    eapply intent_follows; try done; [by eapply spec_decodes | by rewrite E | lia | by eapply size_unit].
  - unfold ReplaceStatus in Hw. run_inv Hw. destruct x as [c v]. run_inv Hw.
    destruct (String.eqb (text c) _); [injection Hw as <-; split; [done | apply follows_refl]|].
    run_inv Hw. apply advance_ok in Hr1 as (t & -> & Hv & Ht). split.
    + split; [by eapply size_unit|]. split; [done|]. split; [by exists specv|]. exists v. split; [|by destruct x].
      by eapply canonicalizeObject_fixed.
    + split; simpl; [by repeat split | by right | done].
Qed.

Lemma New_sound input (r : resource) : New input = Ok r -> sound r /\ m_generation (rs_metadata r) = 1.
Proof.
  unfold New. intros Hn. run_inv Hn. destruct x8 as [spec specv]. run_inv Hn. destruct x8 as [status statusv]. run_inv Hn.
  split; [|done]. split; [by eapply size_unit|]. split; [done|]. split.
  - exists specv. by eapply canonicalizeObject_fixed.
  - exists statusv. split; [by eapply canonicalizeObject_fixed | by destruct x8].
Qed.

Definition run_writes (r : resource) (ws : list write) : resource := foldl write_to r ws.

Lemma write_to_sound (r : resource) w : sound r -> sound (write_to r w) /\ follows r (write_to r w).
Proof.
  intros Hs. unfold write_to. destruct (apply_write r w) eqn:E; [by eapply apply_write_sound | split; [done | apply follows_refl]].
Qed.

Lemma run_writes_sound ws : forall r : resource, sound r ->
  sound (run_writes r ws) /\ same_identity r (run_writes r ws) /\
  m_updatedAt (rs_metadata r) <= m_updatedAt (rs_metadata (run_writes r ws)) /\
  m_generation (rs_metadata (run_writes r ws)) = m_generation (rs_metadata r) + spec_changes r ws.
Proof.
  induction ws as [|w ws IH]; intros r Hs; cbn [run_writes foldl spec_changes].
  - split; [done|]. split; [by repeat split | lia].
  - destruct (write_to_sound r w Hs) as [Hs' [Hid Hrev Hgen]]. destruct (IH _ Hs') as (Hf & Hid' & Ht & Hg).
    unfold run_writes in *. split; [done|]. split.
    + unfold same_identity in *. intuition congruence.
    + assert (m_updatedAt (rs_metadata r) <= m_updatedAt (rs_metadata (write_to r w))) by (destruct Hrev as [->|[_ ?]]; lia).
      split; lia.
Qed.

(** C18: along every history of writes to a new resource, whatever fails, the
    resource keeps its version label, kind, identifier, owner, parent and
    creation time; its update time never goes back; its generation is one plus
    the number of writes that changed the canonical desired state, within 64
    bits; it has a canonical representation within the size limit; and its
    desired and observed state read back, with no observation of a generation
    it has not reached. *)
Theorem resource_history (input : CreateInput Spec Status) (r0 : resource) (ws : list write) :
  New input = Ok r0 ->
  let r := run_writes r0 ws in
  same_identity r0 r /\
  m_updatedAt (rs_metadata r0) <= m_updatedAt (rs_metadata r) /\
  m_generation (rs_metadata r) = 1 + spec_changes r0 ws /\ m_generation (rs_metadata r) <= max_int64 /\
  (exists encoded, MarshalCanonical r = Ok encoded /\ slen encoded <= MaxCanonicalBytes) /\
  (exists spec, Resource_Spec r = Ok spec) /\
  (exists status, Resource_Status r = Ok status /\ Forall (fun g => 0 <= g <= m_generation (rs_metadata r)) (ObservedGenerations status)).
Proof.
  intros Hn. destruct (New_sound _ _ Hn) as [Hs Hg]. destruct (run_writes_sound ws r0 Hs) as (Hf & Hid & Ht & Hgen). cbn zeta.
  destruct Hf as (Hsize & Hmax & Hspec & status & Hstatus & Hobs). rewrite Hgen, Hg in *.
  split; [done|]. split; [done|]. split; [done|]. split; [done|]. split; [|split; [done|]].
  - unfold validateSize in Hsize. unfold MarshalCanonical. run_inv Hsize. rewrite Hr. exists x. cbn [mbind result_bind].
    rewrite Hsize. guards_in Hsize. done.
  - exists status. split; [done|]. unfold validateObservations in Hobs. apply fail_if_ok in Hobs.
    induction (ObservedGenerations status) as [|g l IH]; constructor; cbn [existsb] in Hobs; guards_in Hobs; [lia | by apply IH].
Qed.
End Histories.

(** A concrete codec: desired state is one string, observed state the list of
    observed generations. *)
#[export] Instance sample_spec_codec : TypedJSON string := {|
  encodeTypedJSON s := if utf8_valid s then Some (VObject [("image", VString s)]) else None;
  decodeExactJSON v := match v with VObject [(k, VString s)] => if String.eqb k "image" then Some s else None | _ => None end;
|}.

Definition int_of (v : value) : option Z := match v with VInt x => Some x | _ => None end.

#[export] Instance sample_status_codec : TypedJSON (list Z) := {|
  encodeTypedJSON l := Some (VObject [("observed", VArray (VInt <$> l))]);
  decodeExactJSON v := match v with VObject [(k, VArray l)] => if String.eqb k "observed" then mapM int_of l else None | _ => None end;
|}.

#[export] Instance sample_observations : GenerationObservations (list Z) := fun l => l.

Definition s_create : CreateInput string (list Z) :=
  CI "v1alpha1" "Component" "cmp_0123456789abcdef" "wsp_0123456789abcdef" "web" (Some "app_0123456789abcdef")
    {["tier" := "front"]} "rv1" (unix_epoch + hour) "web:1" [1].

Definition s_writes : list (@write string (list Z)) :=
  [WRename "site" "rv2" (unix_epoch + 2 * hour); WSpec "web:2" "rv3" (unix_epoch + 3 * hour);
   WSpec "web:3" "rv4" (unix_epoch + hour); WStatus [1; 2] "rv5" (unix_epoch + 4 * hour); WStatus [7] "rv6" (unix_epoch + 5 * hour)].

Lemma resource_history_witness : exists r0, New s_create = Ok r0 /\
  m_generation (rs_metadata (run_writes r0 s_writes)) = 2 /\ spec_changes r0 s_writes = 1.
Proof.
  destruct (New s_create) as [r0|] eqn:E; [|vm_compute in E; discriminate]. exists r0.
  pose proof (resource_history s_create r0 s_writes E) as (_ & _ & Hg & _). rewrite Hg.
  assert (spec_changes r0 s_writes = 1) as Hs by (vm_compute in E; injection E as <-; vm_compute; reflexivity).
  rewrite Hs. split; [reflexivity | split; reflexivity].
Defined.
