(* ===== verification/ResourceText.v ===== *)
(** * Canonical resource text read back (resource/canonical.go)

    [UnmarshalCanonical] reads arbitrary JSON and normalises it.  The service
    reads only what it stored, and refuses a text that differs from the
    canonical text of what it read; so what it accepts is decided by canonical
    texts alone.  The reader here reads those: compact, with the printer's
    escapes; it refuses any other spelling. *)

From stdpp Require Import sorting.
From S2P Require Import Prelude StringOrder Bytes GoTime Calendar Json JsonParse Digests Hierarchy Resource ResourceProps.
From Stdlib Require Import Ascii String.

(** ** Reading trees *)

Definition read_constant (s : string) : option (value * string) :=
  match strip_prefix "null" s, strip_prefix "true" s, strip_prefix "false" s with
  | Some r, _, _ => Some (VNull, r)
  | _, Some r, _ => Some (VBool true, r)
  | _, _, Some r => Some (VBool false, r)
  | None, None, None => '(x, r) ← parse_int s; Some (VInt x, r)
  end.

Fixpoint read_value (fuel : nat) (s : string) : option (value * string) :=
  match fuel with
  | O => None
  | S fuel' =>
      match s with
      | EmptyString => None
      | String c rest =>
          if Ascii.eqb c quote_mark then '(a, r) ← unquote fuel' rest; Some (VString a, r)
          else if Ascii.eqb c "{" then '(ms, r) ← read_members fuel' true rest; Some (VObject ms, r)
          else if Ascii.eqb c "[" then '(l, r) ← read_items fuel' true rest; Some (VArray l, r)
          else read_constant s
      end
  end
with read_members (fuel : nat) (first : bool) (s : string) : option (list (string * value) * string) :=
  match fuel with
  | O => None
  | S fuel' =>
      match s with
      | EmptyString => None
      | String c rest =>
          if Ascii.eqb c "}" then Some ([], rest) else
          body ← (if first then Some s else strip_prefix "," s);
          opened ← strip_prefix (String quote_mark "") body;
          '(k, r) ← unquote fuel' opened;
          r ← strip_prefix ":" r;
          '(v, r) ← read_value fuel' r;
          '(ms, r) ← read_members fuel' false r;
          Some ((k, v) :: ms, r)
      end
  end
with read_items (fuel : nat) (first : bool) (s : string) : option (list value * string) :=
  match fuel with
  | O => None
  | S fuel' =>
      match s with
      | EmptyString => None
      | String c rest =>
          if Ascii.eqb c "]" then Some ([], rest) else
          body ← (if first then Some s else strip_prefix "," s);
          '(v, r) ← read_value fuel' body;
          '(l, r) ← read_items fuel' false r;
          Some (v :: l, r)
      end
  end.

(** Every call but those inside a string consumes a byte, so the length of the
    text is enough fuel. *)
Definition read (s : string) : option value :=
  match read_value (S (String.length s)) s with Some (v, "") => Some v | _ => None end.

(** ** The envelope by member names *)

Fixpoint lookup_member (key : string) (ms : list (string * value)) : option value :=
  match ms with [] => None | (k, v) :: rest => if String.eqb k key then Some v else lookup_member key rest end.

Definition only_members (keys : list string) (ms : list (string * value)) : bool := forallb (fun m => bool_decide (m.1 ∈ keys)) ms.

Definition string_member (key : string) (ms : list (string * value)) : option string :=
  match lookup_member key ms with None => Some "" | Some (VString s) => Some s | Some _ => None end.

(** Absent is zero; an [int64] otherwise. *)
Definition int_member (key : string) (ms : list (string * value)) : option Z :=
  match lookup_member key ms with None => Some 0 | Some (VInt x) => if in_int64b x then Some x else None | Some _ => None end.

(** [nonNullOptional] of a string, and of a map of strings, which is nil when it
    is absent. *)
Definition optional_member (key : string) (ms : list (string * value)) : option (option string) :=
  match lookup_member key ms with None => Some None | Some (VString s) => Some (Some s) | Some _ => None end.

Definition string_entry (m : string * value) : option (string * string) :=
  match m.2 with VString s => Some (m.1, s) | _ => None end.

Definition labels_member (key : string) (ms : list (string * value)) : option (gmap string string) :=
  match lookup_member key ms with
  | None => Some ∅
  | Some (VObject entries) => list_to_map <$> mapM string_entry entries
  | Some _ => None
  end.

Record wireInput := WI {
  wi_apiVersion : string; wi_kind : string; wi_id : string; wi_workspaceID : string; wi_displayName : string;
  wi_parent : option string; wi_labels : gmap string string; wi_generation : Z; wi_resourceVersion : string;
  wi_createdAt : string; wi_updatedAt : string; wi_spec : option value; wi_status : option value;
}.

Definition decodeWireResource (data : value) : option wireInput :=
  match data with
  | VObject ms =>
      if negb (only_members ["apiVersion"; "kind"; "metadata"; "spec"; "status"] ms) then None else
      apiVersion ← string_member "apiVersion" ms; kind ← string_member "kind" ms;
      md ← match lookup_member "metadata" ms with None => Some [] | Some (VObject md) => Some md | Some _ => None end;
      if negb (only_members ["id"; "workspaceId"; "displayName"; "parent"; "labels"; "generation"; "resourceVersion"; "createdAt";
                             "updatedAt"] md) then None else
      id ← string_member "id" md; workspace ← string_member "workspaceId" md; name ← string_member "displayName" md;
      parent ← optional_member "parent" md; labels ← labels_member "labels" md; generation ← int_member "generation" md;
      version ← string_member "resourceVersion" md; createdAt ← string_member "createdAt" md; updatedAt ← string_member "updatedAt" md;
      Some (WI apiVersion kind id workspace name parent labels generation version createdAt updatedAt
              (lookup_member "spec" ms) (lookup_member "status" ms))
  | _ => None
  end.

Section Unmarshal.
Context {Spec Status : Type} `{TypedJSON Spec} `{TypedJSON Status} `{GenerationObservations Status}.

Definition UnmarshalCanonical (data : string) : result error (Resource Spec Status) :=
  fail_if (slen data =? 0) ErrJSON;;
  fail_if (MaxCanonicalBytes <? slen data) ErrRepresentationTooLarge;;
  tree ← of_option (read data) ErrJSON;
  validateJSON tree;;
  wire ← of_option (decodeWireResource tree) ErrJSON;
  rawSpec ← of_option (wi_spec wire) ErrJSON;
  rawStatus ← of_option (wi_status wire) ErrJSON;
  id ← validateID (wi_id wire) "metadata.id";
  workspaceID ← validateID (wi_workspaceID wire) "metadata.workspaceId";
  validateAPIVersion (wi_apiVersion wire);;
  validateKind (wi_kind wire);;
  validateDisplayName (wi_displayName wire);;
  parent ← validateParent (wi_parent wire);
  labels ← validateLabels (wi_labels wire);
  fail_if (wi_generation wire <? 1) ErrGeneration;;
  version ← validateResourceVersion (wi_resourceVersion wire);
  createdAt ← of_option (parseTimestamp (wi_createdAt wire)) (ErrTimestamp "metadata.createdAt");
  updatedAt ← of_option (parseTimestamp (wi_updatedAt wire)) (ErrTimestamp "metadata.updatedAt");
  fail_if (before updatedAt createdAt) ErrTimestampOrder;;
  '(spec, _) ← decodeObject (Value := Spec) rawSpec "spec";
  '(status, statusValue) ← decodeObject (Value := Status) rawStatus "status";
  validateObservations statusValue (wi_generation wire);;
  let r := Res (wi_apiVersion wire) (wi_kind wire)
    (Meta id workspaceID (wi_displayName wire) parent labels (wi_generation wire) version createdAt updatedAt) spec status in
  MarshalCanonical r;;
  Ok r.
End Unmarshal.

(** ** Trees are read back *)

Fixpoint joined (parts : list string) (first : bool) : string :=
  match parts with
  | [] => ""
  | p :: rest => (if first then "" else ",") +:+ p +:+ joined rest false
  end.

Lemma separated_joined parts : separated parts = joined parts true.
Proof.
  assert (forall p rest, separated (p :: rest) = p +:+ joined rest false) as H.
  { intros p rest. revert p. induction rest as [|q rest IH]; intros p; [by rewrite string_app_nil_r|].
    change (separated (p :: q :: rest)) with (p +:+ "," +:+ separated (q :: rest)). by rewrite IH. }
  destruct parts as [|p rest]; [done|]. apply H.
Qed.

Definition member_text (m : string * value) : string := quote m.1 +:+ ":" +:+ text m.2.

Lemma text_items l : text (VArray l) = "[" +:+ joined (map text l) true +:+ "]".
Proof. cbn [text]. by rewrite separated_joined. Qed.

Lemma text_members ms : text (VObject ms) = "{" +:+ joined (map member_text ms) true +:+ "}".
Proof.
  cbn [text]. rewrite separated_joined. do 3 f_equal. apply map_ext. by intros [k v].
Qed.

(** Integers within the bounds the printer knows. *)
Fixpoint readable_value (v : value) : Prop :=
  match v with
  | VInt x => int_sized x
  | VNumber _ => False
  | VArray items => (fix all (l : list value) : Prop := match l with [] => True | v :: rest => readable_value v /\ all rest end) items
  | VObject members => (fix all (l : list (string * value)) : Prop :=
      match l with [] => True | (_, v) :: rest => readable_value v /\ all rest end) members
  | _ => True
  end.

Lemma readable_array items : readable_value (VArray items) <-> Forall readable_value items.
Proof. induction items as [|v l IH]; [done|]. rewrite Forall_cons, <- IH. done. Qed.

Lemma readable_object ms : readable_value (VObject ms) <-> Forall (fun m => readable_value m.2) ms.
Proof. induction ms as [|[k v] l IH]; [done|]. rewrite Forall_cons, <- IH. done. Qed.

Lemma read_constant_int x s : int_sized x -> ends s -> read_constant (int_text x +:+ s) = Some (VInt x, s).
Proof.
  intros Hx Hs. unfold read_constant. pose proof (parse_int_text x s Hx Hs) as Hp. revert Hp.
  assert (exists c r, int_text x = String c r /\ (c = "-"%char \/ is_digit c = true)) as (c & r & E & Hc).
  { unfold int_text. destruct (Z.ltb_spec x 0); [by eexists _, _; split; [done|left]|].
    destruct (decimal_digits_head 19 x) as (c & r & -> & Hc); [done|]. eauto. }
  rewrite E. change (String c r +:+ s) with (String c (r +:+ s)).
  assert (c <> "n"%char /\ c <> "t"%char /\ c <> "f"%char) as (H1 & H2 & H3)
    by (destruct Hc as [->|Hc]; [done|]; repeat split; intros ->; done).
  cbn [strip_prefix]. rewrite !(proj2 (Ascii.eqb_neq _ _)) by done. intros ->. done.
Qed.

Lemma value_head v : readable_value v -> exists c r, text v = String c r /\ c <> "]"%char.
Proof.
  destruct v as [|[]|x|l|s|l|ms]; intros Hv; try (exfalso; exact Hv); try by eexists _, _.
  destruct (int_text_head x Hv) as (c & r & E & _ & _ & _ & Hc). by exists c, r.
Qed.

Definition reads (v : value) : Prop := forall fuel rest, readable_value v -> ends rest -> slen (text v) < Z.of_nat fuel ->
  read_value fuel (text v +:+ rest) = Some (v, rest).

Lemma joined_ends parts first rest : ends rest -> ends (joined parts first +:+ rest) \/ first = true.
Proof. destruct parts as [|p l]; simpl; [by left|]. destruct first; [by right | by left]. Qed.

Lemma read_members_text ms : Forall (fun m => reads m.2) ms -> forall fuel first rest,
  readable_value (VObject ms) -> slen (joined (map member_text ms) first) < Z.of_nat fuel ->
  read_members fuel first (joined (map member_text ms) first +:+ "}" +:+ rest) = Some (ms, rest).
Proof.
  induction 1 as [|[k v] ms Hv HF IH]; intros [|fuel] first rest Hs Hf; try (unfold slen in Hf; lia); [done|].
  destruct Hs as [Hsv Hs]. cbn [map joined] in *.
  change (member_text (k, v)) with (quote k +:+ ":" +:+ text v) in *. rewrite !slen_app in Hf. change (slen ":") with 1 in Hf. cbn [snd] in Hv.
  destruct (unquote_quote (S fuel) k (":" +:+ text v +:+ joined (map member_text ms) false +:+ "}" +:+ rest)) as (s & Es & Hu).
  { unfold slen in *. lia. }
  specialize (IH fuel false rest Hs). rewrite !string_app_assoc.
  assert (slen (joined (map member_text ms) false) < Z.of_nat fuel) as Hm by (unfold slen in *; lia).
  assert (slen (text v) < Z.of_nat fuel) as Hlv by (unfold slen in *; lia).
  assert (ends (joined (map member_text ms) false +:+ "}" +:+ rest)) as He by (by destruct (joined_ends (map member_text ms) false ("}" +:+ rest))).
  rewrite Es.
  assert (forall t, strip_prefix (String quote_mark "") (String quote_mark t) = Some t) as Hq
    by (intros t; exact (strip_prefix_app (String quote_mark "") t)).
  destruct first.
  - change ("" +:+ String quote_mark s) with (String quote_mark s). cbn [read_members]. change (Ascii.eqb quote_mark "}") with false.
    cbn [mbind option_bind]. rewrite Hq. cbn [mbind option_bind]. rewrite Hu by done. cbn [mbind option_bind].
    rewrite strip_prefix_app. cbn [mbind option_bind]. rewrite Hv by done. cbn [mbind option_bind]. by rewrite IH.
  - change ("," +:+ String quote_mark s) with (String "," (String quote_mark s)). cbn [read_members].
    change (Ascii.eqb "," "}") with false. change (strip_prefix "," (String "," ?x)) with (Some x).
    cbn [mbind option_bind]. rewrite Hq. cbn [mbind option_bind]. rewrite Hu by done. cbn [mbind option_bind].
    rewrite strip_prefix_app. cbn [mbind option_bind]. rewrite Hv by done. cbn [mbind option_bind]. by rewrite IH.
Qed.

Lemma read_items_text l : Forall reads l -> forall fuel first rest,
  readable_value (VArray l) -> slen (joined (map text l) first) + 1 < Z.of_nat fuel ->
  read_items fuel first (joined (map text l) first +:+ "]" +:+ rest) = Some (l, rest).
Proof.
  induction 1 as [|v l Hv HF IH]; intros [|fuel] first rest Hs Hf; try (unfold slen in Hf; lia); [done|].
  destruct Hs as [Hsv Hs]. cbn [map joined] in *. rewrite !slen_app in Hf.
  destruct (value_head v Hsv) as (c & r & Ev & Hc). specialize (IH fuel false rest Hs). rewrite !string_app_assoc.
  assert (1 <= slen (text v)) as Hp by (rewrite Ev; unfold slen; cbn [String.length]; lia).
  assert (0 <= slen (if first then "" else ",")) as H0 by (unfold slen; lia).
  assert (0 <= slen (joined (map text l) false)) as H1 by (unfold slen; lia).
  assert (slen (joined (map text l) false) + 1 < Z.of_nat fuel) as Hm by lia.
  assert (slen (text v) < Z.of_nat fuel) as Hlv by lia.
  assert (ends (joined (map text l) false +:+ "]" +:+ rest)) as He by (by destruct (joined_ends (map text l) false ("]" +:+ rest))).
  specialize (Hv fuel (joined (map text l) false +:+ "]" +:+ rest) Hsv He Hlv). rewrite Ev in *.
  change (String c r +:+ ?x) with (String c (r +:+ x)) in *. destruct first.
  - change ("" +:+ ?x) with x. cbn [read_items]. destruct (Ascii.eqb_spec c "]") as [->|_]; [done|].
    cbn [mbind option_bind]. rewrite Hv. cbn [mbind option_bind]. by rewrite IH.
  - change ("," +:+ ?x) with (String "," x). cbn [read_items].
    change (Ascii.eqb "," "]") with false. change (strip_prefix "," (String "," ?x)) with (Some x).
    cbn [mbind option_bind]. rewrite Hv. cbn [mbind option_bind]. by rewrite IH.
Qed.

Lemma text_reads v : reads v.
Proof.
  induction v as [|b|x|l|a|items IH|members IH] using value_ind'; intros [|fuel] rest Hs He Hf; try (unfold slen in Hf; lia).
  - reflexivity.
  - by destruct b.
  - cbn [text] in *. destruct (int_text_head x Hs) as (c & r & Ev & H1 & H2 & H3 & _).
    pose proof (read_constant_int x rest Hs He) as Hp. rewrite Ev in *. change (String c r +:+ rest) with (String c (r +:+ rest)) in *.
    cbn [read_value]. by rewrite (proj2 (Ascii.eqb_neq _ _) H1), (proj2 (Ascii.eqb_neq _ _) H2), (proj2 (Ascii.eqb_neq _ _) H3).
  - done.
  - cbn [text] in *. destruct (unquote_quote (S fuel) a rest Hf) as (s & -> & Hu). cbn [read_value].
    rewrite Ascii.eqb_refl, Hu by done. done.
  - rewrite text_items in *. rewrite !slen_app in Hf. rewrite !string_app_assoc.
    change ("[" +:+ ?x) with (String "[" x). cbn [read_value]. change (Ascii.eqb "[" quote_mark) with false.
    change (Ascii.eqb "[" "{") with false. change (Ascii.eqb "[" "[") with true. cbv iota.
    rewrite read_items_text; [done | done | done|]. change (slen "[") with 1 in Hf. change (slen "]") with 1 in Hf. lia.
  - rewrite text_members in *. rewrite !slen_app in Hf. rewrite !string_app_assoc.
    change ("{" +:+ ?x) with (String "{" x). cbn [read_value]. change (Ascii.eqb "{" quote_mark) with false.
    change (Ascii.eqb "{" "{") with true. cbv iota.
    rewrite read_members_text; [done | done | done|]. change (slen "{") with 1 in Hf. change (slen "}") with 1 in Hf. lia.
Qed.

Lemma read_text v : readable_value v -> read (text v) = Some v.
Proof.
  intros Hs. unfold read. pose proof (text_reads v (S (String.length (text v))) "" Hs I) as H.
  rewrite string_app_nil_r in H. rewrite H by (unfold slen; lia). done.
Qed.

Lemma canonical_readable v : canonical_value v = true -> readable_value v.
Proof.
  induction v as [|b|x|l|a|items IH|members IH] using value_ind'; cbn [canonical_value]; try done.
  - intros Hx. unfold in_int64b, max_int64 in Hx. guards_in Hx. cbn. unfold int_sized. lia.
  - rewrite readable_array, forallb_forall. intros Hc. rewrite Forall_forall in *. intros v Hv. apply IH; [done|]. by apply Hc, list_elem_of_In.
  - rewrite readable_object, andb_true_iff, forallb_forall. intros [_ Hc]. rewrite Forall_forall in *. intros [k v] Hv.
    apply (IH (k, v) Hv). apply (Hc (k, v)). by apply list_elem_of_In.
Qed.

(** ** Canonical forms *)

Lemma canonicalize_canonical d c : canonicalizeRawObject d = Ok c -> canonical_value c = true.
Proof.
  unfold canonicalizeRawObject, validateJSON. intros Hr. run_inv Hr. destruct (normalize_sound _ _ Hr4) as [Hf Hi].
  guards_in Hr1. guards_in Hr2. apply sort_canonical; [done|]. by apply (fit_keys _ _ Hf).
Qed.

Section Fixed.
Context {Value : Type} `{TypedJSON Value}.

(** A tree that decoding leaves as it is. *)
Definition fixed_value (field : string) (c : value) (v : Value) : Prop := decodeObject c field = Ok (c, v).

Lemma converge_canonical n : forall d c (v : Value) field, canonical_value d = true -> converge n d field = Ok (c, v) -> canonical_value c = true.
Proof.
  induction n as [|n IH]; intros d c v field Hd Hc; [done|]. cbn [converge] in Hc. run_inv Hc.
  destruct (String.eqb (text d) (text x1)); [by injection Hc as <- _|]. apply (IH x1 c v field); [|done]. by eapply canonicalize_canonical.
Qed.

Lemma fixed_canonical field c (v : Value) : fixed_value field c v -> canonical_value c = true.
Proof. unfold fixed_value, decodeObject. intros Hd. run_inv Hd. eapply converge_canonical; [|exact Hd]. by eapply canonicalize_canonical. Qed.

Lemma canonicalizeObject_value (w : Value) c v field : canonicalizeObject w field = Ok (c, v) -> fixed_value field c v.
Proof. unfold canonicalizeObject. intros Hd. run_inv Hd. by eapply decodeObject_fixed. Qed.
End Fixed.

Lemma truncated_stampable v t field : Resource.normalizeTimestamp v field = Ok t -> stampable t.
Proof.
  unfold Resource.normalizeTimestamp. intros Hn. run_inv Hn. guards_in Hr0. split; [lia | apply truncate_ms_mod].
Qed.

Section Stored.
Context {Spec Status : Type} `{TypedJSON Spec} `{TypedJSON Status} `{GenerationObservations Status}.
Notation resource := (Resource Spec Status).

(** What holds of every envelope that is written to a store. *)
Record stored (r : resource) : Prop := {
  sd_sound : sound r;
  sd_spec : exists v : Spec, fixed_value "spec" (rs_spec r) v;
  sd_status : exists v : Status, fixed_value "status" (rs_status r) v;
  sd_created : stampable (m_createdAt (rs_metadata r));
  sd_updated : stampable (m_updatedAt (rs_metadata r));
}.

Lemma New_stored input (r : resource) : New input = Ok r -> stored r.
Proof.
  intros Hn. destruct (New_sound input r Hn) as [Hs _]. unfold New in Hn. run_inv Hn. destruct x8 as [spec specv]. run_inv Hn.
  destruct x8 as [status statusv]. run_inv Hn. cbn [rs_metadata rs_spec rs_status m_createdAt m_updatedAt].
  split; cbn [rs_metadata rs_spec rs_status m_createdAt m_updatedAt]; [done|exists specv|exists statusv| |].
  all: try by eapply canonicalizeObject_value.
  all: by eapply truncated_stampable.
Qed.

Lemma advance_stored (r a : resource) version at_ : stored r -> advance r version at_ = Ok a ->
  stampable (m_createdAt (rs_metadata a)) /\ stampable (m_updatedAt (rs_metadata a)) /\ rs_spec a = rs_spec r /\ rs_status a = rs_status r.
Proof.
  intros [_ _ _ Hc Hu]. unfold advance. intros Ha. run_inv Ha. cbn. split; [done|]. split; [by eapply truncated_stampable|done].
Qed.

Lemma write_stored (r r' : resource) w : stored r -> apply_write r w = Ok r' -> stored r'.
Proof.
  intros Hs Hw. destruct (apply_write_sound r r' w (sd_sound _ Hs) Hw) as [Hsd _]. pose proof Hs as [_ Hsp Hst _ _].
  assert (forall a version at_, advance r version at_ = Ok a -> stored r -> stampable (m_createdAt (rs_metadata a)) /\
    stampable (m_updatedAt (rs_metadata a)) /\ rs_spec a = rs_spec r /\ rs_status a = rs_status r) as Hadv by (intros; by eapply advance_stored).
  destruct w as [name labels spec version at_|name version at_|labels version at_|spec version at_|status version at_]; cbn [apply_write] in Hw.
  - unfold ReplaceIntent in Hw. run_inv Hw. destruct x1 as [c v]. destruct (_ && _ && _); [by injection Hw as <-|].
    run_inv Hw. destruct (Hadv _ _ _ Hr3 Hs) as (H1' & H2' & E1 & E2). split; cbn; [done| |by rewrite E2|done|done].
    exists v. by eapply canonicalizeObject_value.
  - unfold Rename in Hw. run_inv Hw. destruct (String.eqb _ _); [by injection Hw as <-|]. run_inv Hw.
    destruct (Hadv _ _ _ Hr0 Hs) as (H1' & H2' & E1 & E2). split; cbn; [done|done|by rewrite E2|done|done].
  - unfold ReplaceLabels in Hw. run_inv Hw. destruct (labelsEqual _ _); [by injection Hw as <-|]. run_inv Hw.
    destruct (Hadv _ _ _ Hr0 Hs) as (H1' & H2' & E1 & E2). split; cbn; [done|done|by rewrite E2|done|done].
  - unfold ReplaceSpec in Hw. run_inv Hw. destruct x as [c v]. destruct (String.eqb (text c) _); [by injection Hw as <-|].
    run_inv Hw. destruct (Hadv _ _ _ Hr1 Hs) as (H1' & H2' & E1 & E2). split; cbn; [done| |by rewrite E2|done|done].
    exists v. by eapply canonicalizeObject_value.
  - unfold ReplaceStatus in Hw. run_inv Hw. destruct x as [c v]. run_inv Hw. destruct (String.eqb (text c) _); [by injection Hw as <-|].
    run_inv Hw. destruct (Hadv _ _ _ Hr1 Hs) as (H1' & H2' & E1 & E2). split; cbn; [done|by rewrite E1| |done|done].
    exists v. by eapply canonicalizeObject_value.
Qed.
End Stored.

(** ** Envelopes are read back *)

Definition entry (l : string * string) : string * value := (l.1, VString l.2).

Lemma mapM_entries l : mapM string_entry (entry <$> l) = Some l.
Proof. induction l as [|[k s] l IH]; [done|]. cbn. by rewrite IH. Qed.

(** The entries of the labels, in key order. *)
Lemma labels_entries labels : exists l, sort_value (VObject ((fun '(k, v) => (k, VString v)) <$> map_to_list labels)) = VObject (entry <$> l) /\
  l ≡ₚ map_to_list labels.
Proof.
  cbn [sort_value]. set (es := map _ (_ <$> map_to_list labels)).
  assert (es = entry <$> map_to_list labels) as Ees.
  { unfold es. clear. induction (map_to_list labels) as [|[k v] l IH]; [done|]. cbn. by rewrite <- IH. }
  rewrite Ees. pose proof (merge_sort_Permutation member_le (entry <$> map_to_list labels)) as Hp.
  change (merge_sort member_le (entry <$> map_to_list labels) ≡ₚ map entry (map_to_list labels)) in Hp.
  apply Permutation_map_inv in Hp as (l & E & Hl). exists l. split; [by rewrite E | done].
Qed.

Lemma labels_read labels l : l ≡ₚ map_to_list labels -> (list_to_map l : gmap string string) = labels.
Proof.
  intros Hl. rewrite <- (list_to_map_to_list labels). apply list_to_map_proper; [|done]. rewrite Hl. apply NoDup_fst_map_to_list.
Qed.

Section Envelopes.
Context {Spec Status : Type} `{TypedJSON Spec} `{TypedJSON Status} `{GenerationObservations Status}.
Notation resource := (Resource Spec Status).

Definition wire_of (r : resource) : wireInput :=
  let m := rs_metadata r in
  WI (rs_apiVersion r) (rs_kind r) (m_id m) (m_workspaceID m) (m_displayName m) (m_parent m) (m_labels m) (m_generation m)
    (m_resourceVersion m) (format_timestamp (m_createdAt m)) (format_timestamp (m_updatedAt m)) (Some (rs_spec r)) (Some (rs_status r)).

Lemma wire_labels_cases labels : exists ls, wire_labels labels = match ls with None => [] | Some l => [("labels", VObject (entry <$> l))] end /\
  (ls = None /\ labels = ∅ \/ exists l, ls = Some l /\ (list_to_map l : gmap string string) = labels).
Proof.
  unfold wire_labels. destruct (decide (labels = ∅)) as [->|].
  - exists None. split; [done|]. by left.
  - destruct (labels_entries labels) as (l & -> & Hl). exists (Some l). split; [done|]. right. exists l. split; [done|]. by apply labels_read.
Qed.

Lemma decode_wire (r : resource) : in_int64b (m_generation (rs_metadata r)) = true ->
  decodeWireResource (wireResource r) = Some (wire_of r).
Proof.
  intros Hg. unfold wireResource. destruct r as [api kind [id ws name parent labels gen version created updated] spec status].
  cbn [rs_metadata rs_apiVersion rs_kind rs_spec rs_status m_id m_workspaceID m_displayName m_parent m_labels m_generation m_resourceVersion
       m_createdAt m_updatedAt] in *.
  unfold wire_of. cbn [rs_metadata rs_apiVersion rs_kind rs_spec rs_status m_id m_workspaceID m_displayName m_parent m_labels m_generation
    m_resourceVersion m_createdAt m_updatedAt].
  destruct (wire_labels_cases labels) as (ls & -> & Hl).
  assert (forall l, labels_member "labels" [("labels", VObject (entry <$> l))] = Some (list_to_map l)) as Hlab.
  { intros l. unfold labels_member. cbn [lookup_member String.eqb Ascii.eqb Bool.eqb]. by rewrite mapM_entries. }
  unfold labels_member in Hlab. cbn [lookup_member String.eqb Ascii.eqb Bool.eqb] in Hlab.
  destruct parent as [p|]; destruct Hl as [[-> ->]|(l & -> & <-)]; unfold decodeWireResource, wire_parent, only_members, string_member,
    optional_member, labels_member, int_member;
    cbn [app forallb lookup_member String.eqb Ascii.eqb Bool.eqb fst snd mbind option_bind];
    repeat (rewrite bool_decide_eq_true_2 by (rewrite !elem_of_cons; tauto)); cbn [andb negb mbind option_bind]; rewrite ?Hlab, ?Hg; done.
Qed.

Lemma wire_readable (r : resource) : in_int64b (m_generation (rs_metadata r)) = true -> canonical_value (rs_spec r) = true ->
  canonical_value (rs_status r) = true -> readable_value (wireResource r).
Proof.
  intros Hg Hs Ht. apply canonical_readable in Hs, Ht. unfold wireResource. apply readable_object. repeat constructor; try done.
  apply readable_object. apply Forall_app. split; [by repeat constructor|]. apply Forall_app. split.
  { unfold wire_parent. case_match; by repeat constructor. }
  apply Forall_app. split.
  - destruct (wire_labels_cases (m_labels (rs_metadata r))) as (ls & -> & _). destruct ls as [l|]; [|constructor]. constructor; [|constructor].
    apply readable_object. apply Forall_fmap, Forall_true. done.
  - assert (int_sized (m_generation (rs_metadata r))) by (unfold in_int64b, max_int64, int_sized in *; guards_in Hg; lia).
    repeat (constructor; [done|]). constructor.
Qed.

(** What [MarshalCanonical] checks. *)
Record marshals (r : resource) : Prop := {
  ms_api : validateAPIVersion (rs_apiVersion r) = Ok tt;
  ms_kind : validateKind (rs_kind r) = Ok tt;
  ms_id : validID (m_id (rs_metadata r)) = true;
  ms_workspace : validID (m_workspaceID (rs_metadata r)) = true;
  ms_name : validateDisplayName (m_displayName (rs_metadata r)) = Ok tt;
  ms_parent : validateParent (m_parent (rs_metadata r)) = Ok (m_parent (rs_metadata r));
  ms_labels : validateLabels (m_labels (rs_metadata r)) = Ok (m_labels (rs_metadata r));
  ms_generation : 1 <= m_generation (rs_metadata r);
  ms_version : resourceVersionPattern (m_resourceVersion (rs_metadata r)) = true;
  ms_times : m_createdAt (rs_metadata r) <= m_updatedAt (rs_metadata r);
  ms_tree : validateJSON (wireResource r) = Ok tt;
  ms_size : slen (text (wireResource r)) <= MaxCanonicalBytes;
}.

Lemma validateID_ok id field x : validateID id field = Ok x <-> validID id = true /\ x = id.
Proof. unfold validateID. destruct (validID id); naive_solver. Qed.

Lemma validateParent_ok p x : validateParent p = Ok x -> x = p.
Proof. destruct p as [id|]; simpl; [|by intros [= <-]]. unfold validateID. destruct (validID id); [by intros [= <-]|done]. Qed.

Lemma validateLabels_ok l x : validateLabels l = Ok x -> x = l.
Proof. unfold validateLabels. intros Hl. by run_inv Hl. Qed.

Lemma version_ok v x : validateResourceVersion v = Ok x <-> resourceVersionPattern v = true /\ x = v.
Proof. unfold validateResourceVersion. destruct (resourceVersionPattern v); naive_solver. Qed.

Lemma marshal_ok (r : resource) data : MarshalCanonical r = Ok data <-> marshals r /\ data = text (wireResource r).
Proof.
  assert (forall u : unit, u = tt) as Hunit by (by intros []). split.
  - intros Hm. assert (slen data <= MaxCanonicalBytes /\ marshalCanonical r = Ok data) as [Hsize Hm'].
    { unfold MarshalCanonical in Hm. apply bind_ok in Hm as (e & Hm & H'). apply bind_ok in H' as (? & Hg%fail_if_ok & [= <-]).
      apply Z.ltb_ge in Hg. done. }
    unfold marshalCanonical in Hm'.
    apply bind_ok in Hm' as (u1 & G1 & Hm'). apply bind_ok in Hm' as (u2 & G2 & Hm'). apply bind_ok in Hm' as (u3 & [G3 _]%validateID_ok & Hm').
    apply bind_ok in Hm' as (u4 & [G4 _]%validateID_ok & Hm'). apply bind_ok in Hm' as (u5 & G5 & Hm'). apply bind_ok in Hm' as (u6 & G6 & Hm').
    apply bind_ok in Hm' as (u7 & G7 & Hm'). apply bind_ok in Hm' as (u8 & G8%fail_if_ok & Hm').
    apply bind_ok in Hm' as (u9 & [G9 _]%version_ok & Hm'). apply bind_ok in Hm' as (u10 & G10%fail_if_ok & Hm').
    apply bind_ok in Hm' as (u11 & G11 & Hm'). assert (data = text (wireResource r)) as Hd by (by injection Hm'). split; [|done].
    rewrite (Hunit u1) in G1. rewrite (Hunit u2) in G2. rewrite (Hunit u5) in G5. rewrite (Hunit u11) in G11.
    pose proof (validateParent_ok _ _ G6) as ->. pose proof (validateLabels_ok _ _ G7) as ->.
    apply Z.ltb_ge in G8. rewrite before_false in G10. split; try done. by rewrite <- Hd.
  - intros [[G1 G2 G3 G4 G5 G6 G7 G8 G9 G10 G11 G12] ->]. unfold MarshalCanonical, marshalCanonical.
    rewrite G1, G2, G5, G6, G7, G11, (proj2 (validateID_ok _ _ _) (conj G3 eq_refl)), (proj2 (validateID_ok _ _ _) (conj G4 eq_refl)),
      (proj2 (version_ok _ _) (conj G9 eq_refl)). cbn [mbind result_bind].
    rewrite (proj2 (Z.ltb_ge _ 1) G8), (proj2 (before_false _ _) G10). cbn [fail_if mbind result_bind].
    by rewrite (proj2 (Z.ltb_ge MaxCanonicalBytes _) G12).
Qed.

Lemma stored_readable (r : resource) : stored r -> marshals r ->
  in_int64b (m_generation (rs_metadata r)) = true /\ readable_value (wireResource r).
Proof.
  intros [(_ & Hmax & _) [v Hv] [w Hw] _ _] Hm. pose proof (ms_generation _ Hm).
  assert (in_int64b (m_generation (rs_metadata r)) = true) as Hg.
  { unfold in_int64b, max_int64 in *. apply andb_true_iff. rewrite !Z.leb_le. lia. }
  split; [done|]. apply wire_readable; [done|exact (fixed_canonical _ _ _ Hv)|exact (fixed_canonical _ _ _ Hw)].
Qed.

(** An envelope is read back from its canonical text. *)
Lemma unmarshal_marshal (r : resource) data : stored r -> MarshalCanonical r = Ok data -> UnmarshalCanonical data = Ok r.
Proof.
  intros Hs Hm. pose proof Hm as [Hms Hd]%marshal_ok. destruct (stored_readable r Hs Hms) as [Hg Hrd].
  destruct Hs as [(_ & _ & _ & st & Hst & Hobs) [v Hv] [w Hw] Hc Hu]. destruct Hms as [G1 G2 G3 G4 G5 G6 G7 G8 G9 G10 G11 G12].
  assert (w = st) as ->.
  { unfold Resource_Status, decodeValue in Hst. unfold fixed_value in Hw. rewrite Hw in Hst. by injection Hst. }
  unfold UnmarshalCanonical. rewrite Hd, read_text by done.
  assert (slen (text (wireResource r)) =? 0 = false) as ->.
  { unfold wireResource. rewrite text_members, !slen_app. change (slen "{") with 1. apply Z.eqb_neq. unfold slen. lia. }
  rewrite (proj2 (Z.ltb_ge MaxCanonicalBytes _) G12). cbn [fail_if of_option mbind result_bind]. rewrite G11. cbn [mbind result_bind].
  rewrite decode_wire by done.
  cbn [of_option mbind result_bind wire_of wi_apiVersion wi_kind wi_id wi_workspaceID wi_displayName wi_parent wi_labels wi_generation
    wi_resourceVersion wi_createdAt wi_updatedAt wi_spec wi_status].
  rewrite (proj2 (validateID_ok _ _ _) (conj G3 eq_refl)), (proj2 (validateID_ok _ _ _) (conj G4 eq_refl)), G1, G2, G5, G6, G7.
  cbn [mbind result_bind]. rewrite (proj2 (Z.ltb_ge _ 1) G8), (proj2 (version_ok _ _) (conj G9 eq_refl)). cbn [fail_if mbind result_bind].
  rewrite (proj2 (parseTimestamp_ok _ _) (conj Hc eq_refl)), (proj2 (parseTimestamp_ok _ _) (conj Hu eq_refl)). cbn [of_option mbind result_bind].
  rewrite (proj2 (before_false _ _) G10). cbn [fail_if mbind result_bind]. unfold fixed_value in *. rewrite Hv, Hw. cbn [mbind result_bind].
  rewrite Hobs. cbn [mbind result_bind].
  assert (Res (rs_apiVersion r) (rs_kind r) (Meta (m_id (rs_metadata r)) (m_workspaceID (rs_metadata r)) (m_displayName (rs_metadata r))
    (m_parent (rs_metadata r)) (m_labels (rs_metadata r)) (m_generation (rs_metadata r)) (m_resourceVersion (rs_metadata r))
    (m_createdAt (rs_metadata r)) (m_updatedAt (rs_metadata r))) (rs_spec r) (rs_status r) = r) as -> by (by destruct r as [?? [] ??]).
  by rewrite Hm.
Qed.

Lemma writes_stored ws : forall r : Resource Spec Status, stored r -> stored (run_writes r ws).
Proof.
  induction ws as [|w ws IH]; intros r Hs; [done|]. apply IH. unfold write_to. destruct (apply_write r w) as [r'|] eqn:E; [|done].
  by eapply write_stored.
Qed.

(** C28: An envelope made by [New] and changed by any sequence of writes has a
    canonical text, of at most [MaxCanonicalBytes] bytes, and [UnmarshalCanonical]
    reads that text as the very envelope: every identifier, name, parent, label,
    generation, version and instant, and both JSON trees.  Two such envelopes
    with one text are one envelope. *)
Theorem resource_text_roundtrip (input input' : CreateInput Spec Status) (r0 r0' : resource) (ws ws' : list write) :
  New input = Ok r0 -> New input' = Ok r0' ->
  exists data, MarshalCanonical (run_writes r0 ws) = Ok data /\ slen data <= MaxCanonicalBytes /\
    UnmarshalCanonical data = Ok (run_writes r0 ws) /\
    (MarshalCanonical (run_writes r0' ws') = Ok data -> run_writes r0' ws' = run_writes r0 ws).
Proof.
  intros Hn%New_stored Hn'%New_stored. pose proof (writes_stored ws _ Hn) as Hs. pose proof (writes_stored ws' _ Hn') as Hs'.
  destruct (sd_sound _ Hs) as (Hsize & _). unfold validateSize in Hsize.
  destruct (marshalCanonical (run_writes r0 ws)) as [data|] eqn:E; [|done]. cbn [mbind result_bind] in Hsize. exists data.
  assert (MarshalCanonical (run_writes r0 ws) = Ok data) as Hm.
  { unfold MarshalCanonical. rewrite E. cbn [mbind result_bind]. by rewrite Hsize. }
  pose proof (unmarshal_marshal _ _ Hs Hm) as Hu. apply fail_if_ok, Z.ltb_ge in Hsize. split; [done|]. split; [done|]. split; [done|].
  intros Hm'%(unmarshal_marshal _ _ Hs'). congruence.
Qed.
End Envelopes.

(** The sample history's envelope, written and read. *)
Lemma resource_text_roundtrip_witness : exists r0 data, New s_create = Ok r0 /\
  MarshalCanonical (run_writes r0 s_writes) = Ok data /\ UnmarshalCanonical data = Ok (run_writes r0 s_writes).
Proof.
  destruct (New s_create) as [r0|] eqn:E; [|vm_compute in E; discriminate]. exists r0.
  destruct (resource_text_roundtrip s_create s_create r0 r0 s_writes s_writes E E) as (data & Hm & _ & Hu & _).
  exists data. split; [reflexivity|]. by split.
Defined.
