(* ===== verification/Isolation.v ===== *)
(** * Workspace scopes (isolation/scope.go) and the reference store
      (store/memory/store.go)

    Every storage operation names the workspaces it may touch: an update one
    scope, a view an explicit set of them.  The process-local store keeps, per
    workspace, the canonical bytes of its resources and operations; an update
    works on a private copy, which replaces the workspace's data only when the
    callback and its context have succeeded. *)

From stdpp Require Import sorting.
From S2P Require Import Prelude StringOrder Bytes Digests.
From Stdlib Require Import String.

(** ** Scopes *)

Inductive error := ErrInvalidWorkspaceScope | ErrInvalidCallback | ErrIdentityCollision | ErrContext.

Definition MaxWorkspaceScopes : Z := 4096.
Definition workspaceIDPrefix : string := "wsp_".

(** The zero value has the empty identifier, which is not valid. *)
Record WorkspaceScope := WS { ws_workspaceID : ID }.

Definition workspace_id (id : ID) : bool := validID id && String.prefix workspaceIDPrefix id.

Definition NewWorkspaceScope (workspaceID : ID) : result error WorkspaceScope :=
  if workspace_id workspaceID then Ok (WS workspaceID) else Err ErrInvalidWorkspaceScope.

Definition ValidateWorkspaceScope (scope : WorkspaceScope) : result error unit :=
  fail_if (negb (workspace_id (ws_workspaceID scope))) ErrInvalidWorkspaceScope.

Record WorkspaceScopeSet := WSS { wss_scopes : list WorkspaceScope }.

Definition WorkspaceIDs (set : WorkspaceScopeSet) : list ID := ws_workspaceID <$> wss_scopes set.

Definition scope_le (a b : WorkspaceScope) : Prop := string_le (ws_workspaceID a) (ws_workspaceID b).
#[export] Instance scope_le_dec : RelDecision scope_le.
Proof. intros a b. unfold scope_le. apply _. Defined.
#[export] Instance scope_le_total : Total scope_le.
Proof. intros a b. apply (total string_le). Qed.
#[export] Instance scope_le_trans : Transitive scope_le.
Proof. intros a b c. unfold scope_le. apply (transitivity (R := string_le)). Qed.

(** Two neighbours of a sorted collection with one identifier. *)
Fixpoint repeated_scope (scopes : list WorkspaceScope) : bool :=
  match scopes with
  | a :: (b :: _) as rest => String.eqb (ws_workspaceID a) (ws_workspaceID b) || repeated_scope rest
  | _ => false
  end.

Definition NewWorkspaceScopeSet (workspaceIDs : list ID) : result error WorkspaceScopeSet :=
  fail_if ((llen workspaceIDs =? 0) || (MaxWorkspaceScopes <? llen workspaceIDs)) ErrInvalidWorkspaceScope;;
  scopes ← mapM NewWorkspaceScope workspaceIDs;
  let scopes := merge_sort scope_le scopes in
  fail_if (repeated_scope scopes) ErrInvalidWorkspaceScope;;
  Ok (WSS scopes).

Definition ValidateWorkspaceScopeSet (set : WorkspaceScopeSet) : result error unit :=
  fail_if ((llen (wss_scopes set) =? 0) || (MaxWorkspaceScopes <? llen (wss_scopes set))) ErrInvalidWorkspaceScope;;
  fail_if (negb (forallb (fun s => result_ok (ValidateWorkspaceScope s)) (wss_scopes set)
                 && increasing (WorkspaceIDs set))) ErrInvalidWorkspaceScope.

(** [sort.Search] on the indices from [low] to [high]; the fuel bounds the
    halvings. *)
Fixpoint search (fuel : nat) (holds : nat -> bool) (low high : nat) : nat :=
  match fuel with
  | O => low
  | S fuel' =>
      if (high <=? low)%nat then low else
      let middle := ((low + high) / 2)%nat in
      if holds middle then search fuel' holds low middle else search fuel' holds (S middle) high
  end.

Definition at_least (ids : list ID) (workspaceID : ID) (i : nat) : bool :=
  match ids !! i with Some id => negb (String.ltb id workspaceID) | None => true end.

Definition Contains (set : WorkspaceScopeSet) (workspaceID : ID) : bool :=
  let ids := WorkspaceIDs set in
  let index := search (S (List.length ids)) (at_least ids workspaceID) 0 (List.length ids) in
  bool_decide (ids !! index = Some workspaceID).

Definition WorkspaceScopeSet_Len (set : WorkspaceScopeSet) : Z := llen (wss_scopes set).

(** ** The store *)

Notation bucket := (gmap string string).

Record Store := St { st_resources : gmap string bucket; st_operations : gmap string bucket }.

Definition NewStore : Store := St ∅ ∅.

(** What a callback sees: the reader of a view, or the working copy of a
    transaction. *)
Record reader := Rd { rd_resources : bucket; rd_operations : bucket }.

Definition GetResource (view : reader) (id : ID) : option string := rd_resources view !! id.
Definition GetOperation (view : reader) (id : ID) : option string := rd_operations view !! id.

(** In the order the map is iterated. *)
Definition ListResources (view : reader) : list string := (map_to_list (rd_resources view)).*2.

Definition bucket_of (source : gmap string bucket) (workspaceID : ID) : bucket := default ∅ (source !! workspaceID).

(** The union of the buckets of the scopes; an identifier in two of them is
    refused. *)
Fixpoint merge_buckets (source : gmap string bucket) (workspaceIDs : list ID) (merged : bucket) : result error bucket :=
  match workspaceIDs with
  | [] => Ok merged
  | workspaceID :: rest =>
      let retained := bucket_of source workspaceID in
      fail_if (negb (bool_decide (retained ##ₘ merged))) ErrIdentityCollision;;
      merge_buckets source rest (retained ∪ merged)
  end.

Definition scopedView (source : gmap string bucket) (scopes : WorkspaceScopeSet) : result error bucket :=
  merge_buckets source (WorkspaceIDs scopes) ∅.

Section Callbacks.
(** The errors of a callback, and the state besides the store that it may
    change; that state keeps what a failing callback did to it. *)
Context {E X : Type} (inject : error -> E).

(** [canceled] and [canceled'] are the context's errors before and after the
    callback. *)
Definition View {A} (scopes : WorkspaceScopeSet) (canceled canceled' : bool) (callback : reader -> result E A) (store : Store)
    : result E A :=
  map_err inject (ValidateWorkspaceScopeSet scopes);;
  fail_if canceled (inject ErrContext);;
  resources ← map_err inject (scopedView (st_resources store) scopes);
  operations ← map_err inject (scopedView (st_operations store) scopes);
  answer ← callback (Rd resources operations);
  fail_if canceled' (inject ErrContext);;
  Ok answer.

Definition working_copy (store : Store) (workspaceID : ID) : reader :=
  Rd (bucket_of (st_resources store) workspaceID) (bucket_of (st_operations store) workspaceID).

Definition commit (store : Store) (workspaceID : ID) (working : reader) : Store :=
  St (<[workspaceID := rd_resources working]> (st_resources store)) (<[workspaceID := rd_operations working]> (st_operations store)).

Definition Update {A} (scope : WorkspaceScope) (canceled canceled' : bool) (callback : ST (X * reader) E A) : ST (X * Store) E A :=
  fun '(x, store) =>
    match ValidateWorkspaceScope scope with
    | Err e => (Err (inject e), (x, store))
    | Ok _ =>
        if canceled then (Err (inject ErrContext), (x, store)) else
        let workspaceID := ws_workspaceID scope in
        match callback (x, working_copy store workspaceID) with
        | (Err e, (x', _)) => (Err e, (x', store))
        | (Ok answer, (x', working)) =>
            if canceled' then (Err (inject ErrContext), (x', store)) else (Ok answer, (x', commit store workspaceID working))
        end
    end.

Definition PutResource (id : ID) (value : string) : ST (X * reader) E unit := fun '(x, tx) =>
  (Ok tt, (x, Rd (<[id := value]> (rd_resources tx)) (rd_operations tx))).
Definition DeleteResource (id : ID) : ST (X * reader) E unit := fun '(x, tx) =>
  (Ok tt, (x, Rd (delete id (rd_resources tx)) (rd_operations tx))).
Definition PutOperation (id : ID) (value : string) : ST (X * reader) E unit := fun '(x, tx) =>
  (Ok tt, (x, Rd (rd_resources tx) (<[id := value]> (rd_operations tx)))).
End Callbacks.

(** * Properties of workspace scopes and of the reference store *)

(** ** Scope sets *)

Lemma scope_ok id s : NewWorkspaceScope id = Ok s <-> workspace_id id = true /\ s = WS id.
Proof. unfold NewWorkspaceScope. destruct (workspace_id id); naive_solver. Qed.

Lemma scopes_ok ids scopes : mapM NewWorkspaceScope ids = Ok scopes <-> Forall (fun id => workspace_id id = true) ids /\ scopes = WS <$> ids.
Proof.
  revert scopes. induction ids as [|id ids IH]; intros scopes.
  - split; [by intros [= <-]|by intros [_ ->]].
  - change (mapM NewWorkspaceScope (id :: ids)) with
      (s ← NewWorkspaceScope id; rest ← mapM NewWorkspaceScope ids; mret (M := result error) (s :: rest)).
    split.
    + intros (x & [? ->]%scope_ok & (rest & [? ->]%IH & [= <-])%bind_ok)%bind_ok. by repeat constructor.
    + intros [[Hid Hl]%Forall_cons ->]. by rewrite (proj2 (scope_ok id _) (conj Hid eq_refl)), (proj2 (IH _) (conj Hl eq_refl)).
Qed.

Lemma repeated_increasing scopes : StronglySorted scope_le scopes ->
  repeated_scope scopes = false <-> increasing (ws_workspaceID <$> scopes) = true.
Proof.
  induction 1 as [|a scopes Hs IH Ha]; [done|]. destruct scopes as [|b scopes]; [done|].
  change (repeated_scope (a :: b :: scopes)) with (String.eqb (ws_workspaceID a) (ws_workspaceID b) || repeated_scope (b :: scopes)).
  apply Forall_cons_1 in Ha as [Hab _]. rewrite orb_false_iff, IH, !increasing_sorted, String.eqb_neq.
  split.
  - intros [Hn Hb]. change (StronglySorted string_lt (ws_workspaceID a :: (ws_workspaceID <$> b :: scopes))).
    constructor; [done|]. assert (string_lt (ws_workspaceID a) (ws_workspaceID b)) as L by (by apply string_le_lt).
    cbn in Hb |- *. inversion Hb as [|x l Hl Hx]; subst. constructor; [done|].
    eapply Forall_impl; [exact Hx|]. intros y. apply string_ltb_trans. exact L.
  - cbn. intros H. inversion H as [|x l Hl Hx]; subst. apply Forall_cons_1 in Hx as [Hx _]. split; [|done].
    intros E. rewrite E in Hx. unfold string_lt in Hx. by rewrite string_ltb_irrefl in Hx.
Qed.

(** ** Binary search *)

Lemma search_spec holds fuel : forall low high, (high - low < fuel)%nat -> (low <= high)%nat ->
  (forall i j, (i <= j < high)%nat -> holds i = true -> holds j = true) ->
  let r := search fuel holds low high in
  (low <= r <= high)%nat /\ (forall i, (low <= i < r)%nat -> holds i = false) /\ (r < high -> holds r = true)%nat.
Proof.
  induction fuel as [|fuel IH]; intros low high Hf Hl Hm; [lia|]. cbn [search].
  destruct (Nat.leb_spec high low); [repeat split; intros; lia|].
  pose proof (Nat.div_mod_eq (low + high) 2) as Hd. pose proof (Nat.mod_upper_bound (low + high) 2 ltac:(lia)) as Hr.
  set (middle := ((low + high) / 2)%nat) in *. destruct (holds middle) eqn:E.
  - destruct (IH low middle) as (H1 & H2 & H3); [lia|lia|intros i j Hij; apply Hm; lia|].
    set (r := search fuel holds low middle) in *. repeat split; [lia..|done|]. intros Hrh.
    destruct (decide (r = middle)) as [->|]; [done|apply H3; lia].
  - destruct (IH (S middle) high) as (H1 & H2 & H3); [lia|lia|done|]. repeat split; [lia..| |done].
    intros i Hi. destruct (decide (i <= middle)%nat); [|apply H2; lia].
    destruct (holds i) eqn:Ei; [|done]. rewrite <- E. symmetry. eapply Hm; [|exact Ei]. lia.
Qed.

Lemma sorted_lookup (l : list string) i j a b : StronglySorted string_lt l -> l !! i = Some a -> l !! j = Some b -> (i < j)%nat ->
  string_lt a b.
Proof.
  intros Hs. revert i j. induction Hs as [|x l Hs IH Hx]; intros i j Hi Hj Hij; [done|].
  destruct j as [|j]; [lia|]. cbn in Hj. destruct i as [|i]; cbn in Hi.
  - injection Hi as <-. rewrite Forall_lookup in Hx. eauto.
  - apply (IH i j); [done..|lia].
Qed.

Lemma Contains_spec set id : increasing (WorkspaceIDs set) = true -> Contains set id = true <-> id ∈ WorkspaceIDs set.
Proof.
  intros Hs%increasing_sorted. unfold Contains. set (ids := WorkspaceIDs set) in *.
  destruct (search_spec (at_least ids id) (S (List.length ids)) 0 (List.length ids)) as (H1 & H2 & H3); [lia|lia| |].
  { intros i j Hij. unfold at_least. destruct (ids !! i) as [a|] eqn:Ea; [|apply lookup_ge_None in Ea; lia].
    destruct (ids !! j) as [b|] eqn:Eb; [|done]. rewrite !negb_true_iff. intros Ha.
    destruct (decide (i = j)) as [->|]; [congruence|]. pose proof (sorted_lookup _ _ _ _ _ Hs Ea Eb ltac:(lia)) as Hab.
    destruct (String.ltb b id) eqn:E; [|done]. unfold string_lt in Hab. by rewrite (string_ltb_trans _ _ _ Hab E) in Ha. }
  set (r := search _ _ _ _) in *. rewrite bool_decide_eq_true. split; [by intros ?%list_elem_of_lookup_2|].
  intros [i Hi]%list_elem_of_lookup. destruct (Nat.lt_trichotomy i r) as [L|[->|L]]; [|done|].
  - specialize (H2 i ltac:(lia)). unfold at_least in H2. rewrite Hi, negb_false_iff, string_ltb_irrefl in H2. done.
  - assert (r < List.length ids)%nat as Lr by (apply lookup_lt_Some in Hi; lia).
    destruct (lookup_lt_is_Some_2 ids r Lr) as [a Ha]. specialize (H3 Lr). unfold at_least in H3. rewrite Ha in H3.
    pose proof (sorted_lookup _ _ _ _ _ Hs Ha Hi L) as Hl. unfold string_lt in Hl. by rewrite Hl in H3.
Qed.

Lemma set_valid set : ValidateWorkspaceScopeSet set = Ok tt <->
  0 < llen (wss_scopes set) <= MaxWorkspaceScopes /\ Forall (fun id => workspace_id id = true) (WorkspaceIDs set) /\
  increasing (WorkspaceIDs set) = true.
Proof.
  unfold ValidateWorkspaceScopeSet. rewrite bind_ok. setoid_rewrite fail_if_ok.
  assert (forallb (fun s => result_ok (ValidateWorkspaceScope s)) (wss_scopes set) = true <->
          Forall (fun id => workspace_id id = true) (WorkspaceIDs set)) as Hv.
  { unfold WorkspaceIDs. rewrite Forall_fmap, forallb_forall, Forall_forall. setoid_rewrite list_elem_of_In.
    unfold ValidateWorkspaceScope. split; intros H s Hs; specialize (H s Hs); cbn in *; by destruct (workspace_id _). }
  split.
  - intros (_ & H1 & H2). guards_in H1. guards_in H2. split; [lia|]. by rewrite <- Hv.
  - intros (H1 & H2%Hv & H3). exists tt. autorewrite with guards. split; [lia|]. by rewrite H2.
Qed.

Lemma new_set_ok ids set : NewWorkspaceScopeSet ids = Ok set <->
  0 < llen ids <= MaxWorkspaceScopes /\ Forall (fun id => workspace_id id = true) ids /\
  repeated_scope (merge_sort scope_le (WS <$> ids)) = false /\ set = WSS (merge_sort scope_le (WS <$> ids)).
Proof.
  unfold NewWorkspaceScopeSet. split.
  - intros ([] & H1%fail_if_ok & (scopes & [H2 ->]%scopes_ok & ([] & H3%fail_if_ok & [= <-])%bind_ok)%bind_ok)%bind_ok.
    guards_in H1. by repeat split; [lia..| |].
  - intros (H1 & H2 & H3 & ->). rewrite (proj2 (scopes_ok _ _) (conj H2 eq_refl)).
    rewrite (proj2 (orb_false_iff _ _)); [|lia]. unfold mbind, result_bind. cbn. by rewrite H3.
Qed.

(** A scope set is one set of workspaces: it can be built exactly from a
    non-empty bounded list of distinct workspace identifiers, in any order; it
    is then valid and lists them in increasing order; and the binary search
    finds exactly the identifiers in it. *)
Theorem scope_set_exact (ids : list ID) :
  (forall set, NewWorkspaceScopeSet ids = Ok set <->
     (0 < llen ids <= MaxWorkspaceScopes /\ Forall (fun id => workspace_id id = true) ids /\ NoDup ids) /\
     ValidateWorkspaceScopeSet set = Ok tt /\ WorkspaceIDs set ≡ₚ ids) /\
  (forall set id, ValidateWorkspaceScopeSet set = Ok tt -> Contains set id = true <-> id ∈ WorkspaceIDs set).
Proof.
  split; [|intros set id (_ & _ & H)%set_valid; by apply Contains_spec].
  intros set. rewrite new_set_ok.
  assert (ws_workspaceID <$> (WS <$> ids) = ids) as Hids by (rewrite <- list_fmap_compose; by apply list_fmap_id).
  pose proof (merge_sort_Permutation scope_le (WS <$> ids)) as Hp. pose proof (StronglySorted_merge_sort scope_le (WS <$> ids)) as Hsort.
  set (sorted := merge_sort scope_le (WS <$> ids)) in *.
  assert (ws_workspaceID <$> sorted ≡ₚ ids) as Hp' by (by rewrite Hp, Hids).
  assert (llen sorted = llen ids) as Hn by (by rewrite Hp, length_fmap).
  rewrite (repeated_increasing _ Hsort), set_valid. split.
  - intros (H1 & H2 & H3 & ->). unfold WorkspaceIDs. cbn [wss_scopes]. repeat split; [lia..|done| |lia|lia|by rewrite Hp'|done|done].
    rewrite <- Hp'. by apply sorted_lt_nodup, increasing_sorted.
  - intros [(H1 & H2 & H3) [(H4 & H5 & H6) H7]].
    assert (increasing (ws_workspaceID <$> sorted) = true) as Hinc.
    { apply (repeated_increasing _ Hsort). assert (NoDup (ws_workspaceID <$> sorted)) as Hd by (by rewrite Hp'). revert Hd. clear.
      induction sorted as [|a l IH]; [done|]. intros [Ha Hd]%NoDup_cons. destruct l as [|b l]; [done|].
      change (String.eqb (ws_workspaceID a) (ws_workspaceID b) || repeated_scope (b :: l) = false).
      apply orb_false_iff. split; [|by apply IH]. apply String.eqb_neq. intros E. apply Ha. rewrite E. constructor. }
    repeat split; [lia..|done|done|]. destruct set as [l]. f_equal.
    assert (ws_workspaceID <$> l = ws_workspaceID <$> sorted) as E.
    { apply sorted_lt_unique; [by apply increasing_sorted..|]. intros x. by rewrite H7, Hp'. }
    apply list_fmap_eq_inj in E; [done|]. by intros [] [] [= ->].
Qed.

Definition w_a : ID := "wsp_000000000001".
Definition w_b : ID := "wsp_000000000002".

Lemma scope_set_exact_witness : exists set, NewWorkspaceScopeSet [w_b; w_a] = Ok set /\ WorkspaceIDs set = [w_a; w_b] /\
  Contains set w_b = true.
Proof.
  exists (WSS [WS w_a; WS w_b]). split; [|split; [reflexivity|]].
  - apply (scope_set_exact [w_b; w_a]). split; [split; [by vm_compute|split]|].
    + repeat constructor.
    + apply (bool_decide_unpack _). by vm_compute.
    + split; [by vm_compute|]. apply perm_swap.
  - apply (scope_set_exact [w_b; w_a]); [by vm_compute|]. apply (bool_decide_unpack _). by vm_compute.
Defined.

(** ** The store *)

Lemma merge_buckets_lookup source ids : forall merged m id v, NoDup ids -> merge_buckets source ids merged = Ok m ->
  m !! id = Some v <-> merged !! id = Some v \/ exists w, w ∈ ids /\ bucket_of source w !! id = Some v.
Proof.
  induction ids as [|w ids IH]; intros merged m id v Hd; cbn [merge_buckets].
  - intros [= <-]. set_solver.
  - apply NoDup_cons in Hd as [Hw Hd]. intros ([] & Hg%fail_if_ok & Hm)%bind_ok. guards_in Hg.
    rewrite (IH _ _ id v Hd Hm), (lookup_union_Some _ _ _ _ Hg). split.
    + intros [[?|?]|(w' & ? & ?)]; [right; exists w|left|right; exists w']; set_solver.
    + intros [?|(w' & [->|?]%elem_of_cons & ?)]; [auto..|right; by exists w'].
Qed.

Lemma merge_buckets_disjoint source ids : forall merged m, merge_buckets source ids merged = Ok m ->
  forall w id v v', w ∈ ids -> bucket_of source w !! id = Some v -> merged !! id = Some v' -> False.
Proof.
  induction ids as [|w ids IH]; intros merged m; cbn [merge_buckets]; [set_solver|].
  intros ([] & Hg%fail_if_ok & Hm)%bind_ok w' id v v' [->|Hw']%elem_of_cons Hv Hv'; guards_in Hg.
  - rewrite map_disjoint_spec in Hg. by apply (Hg id v v').
  - apply (IH _ _ Hm w' id v v' Hw' Hv). apply lookup_union_Some; auto.
Qed.

Lemma merge_buckets_once source ids : forall merged m i j w w' id, merge_buckets source ids merged = Ok m ->
  ids !! i = Some w -> ids !! j = Some w' -> is_Some (bucket_of source w !! id) -> is_Some (bucket_of source w' !! id) -> i = j.
Proof.
  induction ids as [|x ids IH]; intros merged m i j w w' id; cbn [merge_buckets]; [done|].
  intros ([] & Hg%fail_if_ok & Hm)%bind_ok Hi Hj Hw Hw'. pose proof (merge_buckets_disjoint _ _ _ _ Hm) as Hdis.
  assert (forall y k, ids !! k = Some y -> is_Some (bucket_of source y !! id) -> is_Some (bucket_of source x !! id) -> False) as Hno.
  { intros y k Hy%list_elem_of_lookup_2 [v Hv] [v' Hv']. guards_in Hg. apply (Hdis y id v v' Hy Hv). apply lookup_union_Some; auto. }
  destruct i as [|i], j as [|j]; cbn in Hi, Hj; [done| | |f_equal; by eapply IH].
  - injection Hi as ->. by destruct (Hno w' j).
  - injection Hj as ->. by destruct (Hno w i).
Qed.

(** Two workspaces of the list retain one identifier. *)
Definition collides (source : gmap string bucket) (ids : list ID) : Prop :=
  exists w1 w2 id, w1 <> w2 /\ w1 ∈ ids /\ w2 ∈ ids /\ is_Some (bucket_of source w1 !! id) /\ is_Some (bucket_of source w2 !! id).

Lemma merge_buckets_err source ids : forall merged e, NoDup ids -> merge_buckets source ids merged = Err e ->
  e = ErrIdentityCollision /\
  exists w id, w ∈ ids /\ is_Some (bucket_of source w !! id) /\
    (is_Some (merged !! id) \/ exists w', w' ∈ ids /\ w' <> w /\ is_Some (bucket_of source w' !! id)).
Proof.
  induction ids as [|w ids IH]; intros merged e Hd; cbn [merge_buckets]; [done|]. apply NoDup_cons in Hd as [Hw Hd].
  case_bool_decide as Hdis; cbn [negb fail_if mbind result_bind].
  - intros Hm. destruct (IH _ _ Hd Hm) as (-> & w1 & id & Hw1 & Hs & Hor). split; [done|]. exists w1, id. split; [by right|]. split; [done|].
    destruct Hor as [[v Hv]|(w2 & Hw2 & Hne & Hs2)]; [|right; exists w2; split; [by right | done]].
    apply (lookup_union_Some _ _ _ _ Hdis) in Hv as [Hv|Hv]; [|left; by exists v]. right. exists w. split; [by left|]. split; [|by exists v].
    intros ->. done.
  - intros [= <-]. split; [done|]. apply map_not_disjoint in Hdis as (id & v & v' & Hv & Hv'). exists w, id. split; [by left|].
    split; [by exists v|]. left. by exists v'.
Qed.

Lemma scopedView_cases source scopes : increasing (WorkspaceIDs scopes) = true ->
  (exists m, scopedView source scopes = Ok m /\ ~ collides source (WorkspaceIDs scopes) /\
     forall id v, m !! id = Some v <-> exists w, w ∈ WorkspaceIDs scopes /\ bucket_of source w !! id = Some v) \/
  (scopedView source scopes = Err ErrIdentityCollision /\ collides source (WorkspaceIDs scopes)).
Proof.
  intros Hinc. assert (NoDup (WorkspaceIDs scopes)) as Hd by (by apply sorted_lt_nodup, increasing_sorted). unfold scopedView.
  destruct (merge_buckets source (WorkspaceIDs scopes) ∅) as [m|e] eqn:Hm.
  - left. exists m. split; [done|]. split.
    + intros (w1 & w2 & id & Hne & [i Hi]%list_elem_of_lookup & [j Hj]%list_elem_of_lookup & H1 & H2). apply Hne.
      rewrite (merge_buckets_once _ _ _ _ _ _ _ _ _ Hm Hi Hj H1 H2) in Hi. congruence.
    + intros id v. rewrite (merge_buckets_lookup _ _ _ _ id v Hd Hm), lookup_empty. naive_solver.
  - right. destruct (merge_buckets_err _ _ _ _ Hd Hm) as (-> & w & id & Hw & Hs & [[v Hv]|(w' & Hw' & Hne & Hs')]).
    + by rewrite lookup_empty in Hv.
    + split; [done|]. by exists w', w, id.
Qed.

(** What a reader of a set of scopes shows: exactly what their workspaces retain,
    resources and operations, none of which two of them retain. *)
Record shows (store : Store) (scopes : WorkspaceScopeSet) (view : reader) : Prop := {
  sh_resources : forall id v, GetResource view id = Some v <->
    exists w, w ∈ WorkspaceIDs scopes /\ rd_resources (working_copy store w) !! id = Some v;
  sh_operations : forall id v, GetOperation view id = Some v <->
    exists w, w ∈ WorkspaceIDs scopes /\ rd_operations (working_copy store w) !! id = Some v;
  sh_listed : forall v, v ∈ ListResources view <-> exists w id, w ∈ WorkspaceIDs scopes /\ rd_resources (working_copy store w) !! id = Some v;
  sh_apart : ~ collides (st_resources store) (WorkspaceIDs scopes) /\ ~ collides (st_operations store) (WorkspaceIDs scopes);
}.

Section Isolated.
Context {E X A : Type} (inject : error -> E).

Lemma merge_buckets_frame source source' ids : (forall w, w ∈ ids -> bucket_of source w = bucket_of source' w) ->
  forall merged, merge_buckets source ids merged = merge_buckets source' ids merged.
Proof.
  induction ids as [|w ids IH]; intros H merged; cbn [merge_buckets]; [done|].
  rewrite (H w) by constructor. case_bool_decide; [|done]. cbn. apply IH. intros w' Hw'. apply H. by constructor.
Qed.

Lemma commit_bucket store w working w' : w' <> w ->
  bucket_of (st_resources (commit store w working)) w' = bucket_of (st_resources store) w' /\
  bucket_of (st_operations (commit store w working)) w' = bucket_of (st_operations store) w'.
Proof. intros H. unfold bucket_of, commit. cbn. by rewrite !lookup_insert_ne. Qed.

Lemma Update_cases scope canceled canceled' (callback : ST (X * reader) E A) x store :
  let w := ws_workspaceID scope in
  (exists e x', Update inject scope canceled canceled' callback (x, store) = (Err e, (x', store))) \/
  (exists a x' working, workspace_id w = true /\ canceled = false /\ canceled' = false /\
     callback (x, working_copy store w) = (Ok a, (x', working)) /\
     Update inject scope canceled canceled' callback (x, store) = (Ok a, (x', commit store w working))).
Proof.
  intros w. unfold Update. fold w. unfold ValidateWorkspaceScope. fold w. destruct (workspace_id w); cbn; [|left; eauto].
  destruct canceled; [left; eauto|]. destruct (callback (x, working_copy store w)) as [[a|e] [x' working]]; [|left; eauto].
  destruct canceled'; [left; eauto|]. right. exists a, x', working. done.
Qed.
End Isolated.

Lemma View_cases {E B} (inject : error -> E) store scopes : ValidateWorkspaceScopeSet scopes = Ok tt ->
  (exists view, shows store scopes view /\ forall canceled canceled' (read : reader -> result E B),
     View inject scopes canceled canceled' read store =
       if canceled then Err (inject ErrContext) else
       answer ← read view; if canceled' then Err (inject ErrContext) else Ok answer) \/
  ((collides (st_resources store) (WorkspaceIDs scopes) \/ collides (st_operations store) (WorkspaceIDs scopes)) /\
   forall canceled canceled' (read : reader -> result E B),
     View inject scopes canceled canceled' read store = Err (inject (if canceled then ErrContext else ErrIdentityCollision))).
Proof.
  intros Hv. pose proof Hv as (_ & _ & Hinc)%set_valid. unfold View. rewrite Hv. cbn [map_err mbind result_bind].
  destruct (scopedView_cases (st_resources store) scopes Hinc) as [(m & -> & Hn & Hm)|[-> Hc]].
  2:{ right. split; [by left|]. intros [] canceled' read; done. }
  destruct (scopedView_cases (st_operations store) scopes Hinc) as [(o & -> & Hn' & Ho)|[-> Hc]].
  2:{ right. split; [by right|]. intros [] canceled' read; done. }
  left. exists (Rd m o). split.
  - split; [exact Hm | exact Ho | | done]. intros v. unfold ListResources. rewrite list_elem_of_fmap. cbn [rd_resources]. split.
    + intros ([id v'] & -> & Hin%elem_of_map_to_list). apply Hm in Hin as (w & Hw & Hb). by exists w, id.
    + intros (w & id & Hw & Hb). exists (id, v). split; [done|]. apply elem_of_map_to_list, Hm. by exists w.
  - intros [] canceled' read; [done|]. cbn [fail_if map_err mbind result_bind]. destruct (read _); [|done]. by destruct canceled'.
Qed.

(** C15: The store isolates workspaces and commits whole transactions.  An update
    that fails, for whatever reason and at whatever point, leaves the store as
    it was; one that succeeds puts the callback's working copy in the place of
    the workspace's data and changes nothing of any other workspace.  A view
    hands its callback a reader that shows exactly what the workspaces of its
    scopes retain, resources and operations, and answers what the callback does;
    it is refused, without calling it, exactly when two of them retain one
    identifier, when the scopes are not valid or when its context is done; and it
    does not depend on updates of workspaces outside its scopes. *)
Theorem store_isolated {E X A B : Type} (inject : error -> E) (scope : WorkspaceScope) (canceled canceled' : bool)
    (callback : ST (X * reader) E A) (x x' : X) (store store' : Store) (r : result E A) (scopes : WorkspaceScopeSet) :
  let w := ws_workspaceID scope in
  Update inject scope canceled canceled' callback (x, store) = (r, (x', store')) ->
  match r with
  | Err _ => store' = store
  | Ok a => exists working, callback (x, working_copy store w) = (Ok a, (x', working)) /\ working_copy store' w = working /\
                            forall w', w' <> w -> working_copy store' w' = working_copy store w'
  end /\
  (ValidateWorkspaceScopeSet scopes = Ok tt ->
     (exists view, shows store scopes view /\ forall before_ after_ (read : reader -> result E B),
        View inject scopes before_ after_ read store =
          if before_ then Err (inject ErrContext) else
          answer ← read view; if after_ then Err (inject ErrContext) else Ok answer) \/
     ((collides (st_resources store) (WorkspaceIDs scopes) \/ collides (st_operations store) (WorkspaceIDs scopes)) /\
      forall before_ after_ (read : reader -> result E B),
        View inject scopes before_ after_ read store = Err (inject (if before_ then ErrContext else ErrIdentityCollision)))) /\
  (ValidateWorkspaceScopeSet scopes <> Ok tt -> forall before_ after_ (read : reader -> result E B),
     View inject scopes before_ after_ read store = Err (inject ErrInvalidWorkspaceScope)) /\
  (w ∉ WorkspaceIDs scopes -> forall before_ after_ (read : reader -> result E B),
     View inject scopes before_ after_ read store' = View inject scopes before_ after_ read store).
Proof.
  cbv zeta. intros H. split; [|split; [|split]].
  - destruct (Update_cases inject scope canceled canceled' callback x store) as [(e & y & E1)|(a & y & working & _ & _ & _ & Hc & E1)];
      rewrite E1 in H; [by injection H as <- _ <-|]. injection H as <- <- <-. exists working. split; [done|]. split.
    + unfold working_copy, commit, bucket_of. cbn. rewrite !lookup_insert_eq. by destruct working.
    + intros w' Hw'. unfold working_copy. by destruct (commit_bucket store _ working w' Hw') as [-> ->].
  - apply View_cases.
  - intros Hv b1 b2 read. unfold View. unfold ValidateWorkspaceScopeSet in *. destruct (_ || _); [done|].
    cbn [fail_if map_err mbind result_bind] in *. by destruct (negb _).
  - intros Hw b1 b2 read. unfold View, scopedView.
    assert (forall w', w' ∈ WorkspaceIDs scopes -> bucket_of (st_resources store') w' = bucket_of (st_resources store) w' /\
                       bucket_of (st_operations store') w' = bucket_of (st_operations store) w') as Hf.
    { intros w' Hw'. destruct (Update_cases inject scope canceled canceled' callback x store)
        as [(e & y & E1)|(a & y & working & _ & _ & _ & Hc & E1)]; rewrite E1 in H; [by injection H as _ _ <-|].
      injection H as _ _ <-. apply commit_bucket. set_solver. }
    rewrite (merge_buckets_frame (st_resources store') (st_resources store)) by (intros; by apply Hf).
    by rewrite (merge_buckets_frame (st_operations store') (st_operations store)) by (intros; by apply Hf).
Qed.

(** Two workspaces; an update of the first that fails after it has written. *)
Definition w_store : Store := St (<[w_a := {[w_a := "a"]}]> {[w_b := {[w_b := "b"]}]}) ∅.
Definition w_write : ST (unit * reader) error unit := PutResource w_a "changed".
Definition w_fail : ST (unit * reader) error unit := w_write;; throw ErrContext.

Lemma store_isolated_witness :
  snd (Update id (WS w_a) false false w_fail (tt, w_store)) = (tt, w_store) /\
  bucket_of (st_resources (snd (snd (Update id (WS w_a) false false w_write (tt, w_store))))) w_b = {[w_b := "b"]} /\
  View id (WSS [WS w_b]) false false (fun r => Ok (ListResources r)) (snd (snd (Update id (WS w_a) false false w_write (tt, w_store)))) =
    Ok ["b"].
Proof.
  split; [|split].
  - destruct (Update id (WS w_a) false false w_fail (tt, w_store)) as [r [[] s]] eqn:E. cbn.
    pose proof (proj1 (store_isolated (B := unit) id _ _ _ _ _ _ _ _ _ (WSS []) E)) as H.
    destruct r; [by vm_compute in E|]. cbn in H. by rewrite H.
  - by vm_compute.
  - destruct (Update id (WS w_a) false false w_write (tt, w_store)) as [r [[] s]] eqn:E. cbn [snd].
    rewrite (proj2 (proj2 (proj2 (store_isolated (B := list string) id _ _ _ _ _ _ _ _ _ (WSS [WS w_b]) E)))); [by vm_compute|].
    apply (bool_decide_unpack _). by vm_compute.
Defined.
