(* ===== verification/Codes.v ===== *)
(** * Uniquely decodable writers

    The authorization digests are taken over a stream of length-prefixed
    frames, bare eight-byte integers, counted lists and tagged options.  Each
    of these writers can be read back from the front of a stream; a writer that
    is composed of them can too, so that equal streams have equal contents. *)

From S2P Require Import Prelude Bytes.
From Stdlib Require Import String.

(** ** Writers *)

Fixpoint frames_of (values : list string) : string :=
  match values with [] => "" | v :: rest => frame v +:+ frames_of rest end.

(** A list as its length and its elements. *)
Fixpoint append_all (values : list string) : string :=
  match values with [] => "" | v :: rest => v +:+ append_all rest end.

Definition counted {A} (write : A -> string) (values : list A) : string :=
  put_uint64 (llen values) +:+ append_all (write <$> values).

Definition optional_frame (id : option string) : string :=
  match id with None => frame "0" | Some v => frame "1" +:+ frame v end.

(** ** Reading back

    [decodes P write f]: two streams that start with written values of [P] and
    agree were written from values that agree on [f], and agree afterwards. *)
Definition decodes {A B} (P : A -> Prop) (write : A -> string) (f : A -> B) : Prop :=
  forall a b s t, P a -> P b -> write a +:+ s = write b +:+ t -> f a = f b /\ s = t.

Lemma decodes_frame : decodes frame_sized frame id.
Proof. intros a b s t. apply frame_inj. Qed.

Lemma decodes_uint64 : decodes (fun x => 0 <= x <= max_uint64) put_uint64 id.
Proof.
  intros a b s t Ha Hb E. apply string_app_split in E as [E ->]; [|unfold put_uint64; by rewrite !be_bytes_length].
  split; [by apply put_uint64_inj | done].
Qed.

Lemma frames_of_decodes l : forall k s t, Forall frame_sized l -> Forall frame_sized k -> List.length l = List.length k ->
  frames_of l +:+ s = frames_of k +:+ t -> l = k /\ s = t.
Proof.
  induction l as [|x l IH]; intros [|y k] s t Hl Hk Hn E; try done.
  apply Forall_cons in Hl as [Hx Hl], Hk as [Hy Hk]. cbn [frames_of] in E. rewrite !string_app_assoc in E.
  apply frame_inj in E as [-> E]; [|done..]. simpl in Hn. apply IH in E as [-> ->]; [done..|]. lia.
Qed.

Section Lists.
Context {A B : Type} (P : A -> Prop) (write : A -> string) (f : A -> B).

Lemma append_all_decodes : decodes P write f -> forall l k s t, Forall P l -> Forall P k ->
  List.length l = List.length k ->
  append_all (write <$> l) +:+ s = append_all (write <$> k) +:+ t -> f <$> l = f <$> k /\ s = t.
Proof.
  intros Hw. induction l as [|x l IH]; intros [|y k] s t Hl Hk Hn E; try done.
  apply Forall_cons in Hl as [Hx Hl], Hk as [Hy Hk]. cbn in E. rewrite !string_app_assoc in E.
  apply Hw in E as [Exy E]; [|done..]. simpl in Hn. apply IH in E as [Elk ->]; [|done..|lia].
  split; [|done]. rewrite !fmap_cons. congruence.
Qed.

Lemma decodes_counted : decodes P write f ->
  decodes (fun l => Forall P l /\ llen l <= max_uint64) (counted write) (fmap f).
Proof.
  intros Hw l k s t [Hl Hn] [Hk Hm] E. unfold counted in E. rewrite !string_app_assoc in E.
  apply decodes_uint64 in E as [En E]; [|lia..]. apply append_all_decodes in E as [Elk ->]; try done.
  unfold id in En. lia.
Qed.
End Lists.

Lemma decodes_optional : decodes (fun o => forall v, o = Some v -> frame_sized v) optional_frame id.
Proof.
  assert (frame_sized "0" /\ frame_sized "1") as [H0 H1] by done.
  intros [a|] [b|] s t Ha Hb E; unfold optional_frame in E; rewrite ?string_app_assoc in E;
    apply frame_inj in E as [Etag E]; try done.
  - apply frame_inj in E as [-> ->]; auto.
Qed.
