(* ===== verification/AuthzVocabulary.v ===== *)
(** * Authorization vocabulary and role matrix
    (authorization/vocabulary.go, matrix.go, errors.go)

    The closed actions, roles, scopes, objects and outcomes of authorization,
    the grants of each role, the inheritance between roles and the actions that
    no tenant role may perform. *)

From S2P Require Import Prelude Bytes Sha256 GoTime Closed Vocabulary Digests Hierarchy.
From Stdlib Require Import String.

(** [BindingField]: where a policy binding is wrong. *)
Inductive BindingField := BindingFieldMemberID | BindingFieldRole | BindingFieldScopeKind | BindingFieldEnvironmentID.

(** The sentinel errors; [BindingError] is the structured error of a policy
    binding. *)
Inductive error :=
| ErrInvalidAction
| ErrInvalidRole
| ErrInvalidScope
| ErrInvalidObjectKind
| ErrInvalidMember
| ErrInvalidMemberDirectory
| ErrTooManyMembers
| ErrDuplicateMemberID
| ErrDuplicateLogicalIdentity
| ErrMemberNotFound
| ErrInvalidPolicySpec
| ErrBindingsRequired
| ErrTooManyBindings
| ErrInvalidBinding
| ErrInvalidBindingOrder
| ErrDuplicateBinding
| ErrEnvironmentNotFound
| ErrReferenceKindMismatch
| ErrWorkspaceMismatch
| ErrPrincipalKindNotAllowed
| ErrInvalidPolicyRevision
| ErrInvalidPolicySet
| ErrTooManyPolicies
| ErrDuplicatePolicyID
| ErrInvalidPolicyVersion
| ErrInvalidInputDigest
| ErrInvalidTarget
| ErrInvalidInput
| ErrInvalidDecision
| ErrDecisionTooLarge
| ErrNonCanonicalDecision
| ErrSerializationForbidden
| BindingError (index : Z) (field : BindingField) (cause : error)
| ErrWrap (outer inner : error).

(** ** Constants *)

Definition authorization_ContractVersion : string := "veer.authorization.v1alpha1".
Definition PolicyVersionPrefix : string := "azv1_".
Definition InputDigestPrefix : string := "azi1_".
Definition MaxMembers : Z := 500.
Definition MaxPolicies : Z := 2500.
Definition MaxBindingsPerPolicy : Z := 128.
Definition MaxDecisionBytes : Z := 1024.

Definition ParsePolicyVersion (value : string) : option digestValue :=
  match parseDigest PolicyVersionPrefix value with Ok d => Some d | Err _ => None end.

Definition ParseInputDigest (value : string) : option digestValue :=
  match parseDigest InputDigestPrefix value with Ok d => Some d | Err _ => None end.

(** ** Closed types *)

(** One semantic operation; resource actions are paired with the kind of the target. *)
Inductive Action :=
| ActionResourceList
| ActionResourceGet
| ActionResourceCreate
| ActionResourceReplace
| ActionResourceDelete
| ActionResourceStatusReplace
| ActionPlanList
| ActionPlanGet
| ActionPlanPreview
| ActionOperationList
| ActionOperationGet
| ActionOperationCancel
| ActionOperationRetry
| ActionOperationQuarantine
| ActionMembershipList
| ActionMembershipGet
| ActionMembershipCreate
| ActionMembershipReplace
| ActionMembershipDelete
| ActionAuditList
| ActionAuditExport
| ActionApprovalApprove
| ActionApprovalReject
| ActionApprovalOverride
| ActionWorkPublish
| ActionWorkConsume
| ActionWorkRedrive
| ActionReconcilePlan
| ActionReconcileExecute
| ActionOperationTransition
| ActionCredentialResolve
| ActionProviderDiscover
| ActionProviderApply
| ActionProviderObserve
| ActionProviderDelete
| ActionAuditAppend
| ActionOther (raw : string).

#[export] Instance Action_eq : EqDecision Action.
Proof. solve_decision. Defined.

Definition Action_String (v : Action) : string :=
  match v with
  | ActionResourceList => "resource.list"
  | ActionResourceGet => "resource.get"
  | ActionResourceCreate => "resource.create"
  | ActionResourceReplace => "resource.replace"
  | ActionResourceDelete => "resource.delete"
  | ActionResourceStatusReplace => "resource.status.replace"
  | ActionPlanList => "plan.list"
  | ActionPlanGet => "plan.get"
  | ActionPlanPreview => "plan.preview"
  | ActionOperationList => "operation.list"
  | ActionOperationGet => "operation.get"
  | ActionOperationCancel => "operation.cancel"
  | ActionOperationRetry => "operation.retry"
  | ActionOperationQuarantine => "operation.quarantine"
  | ActionMembershipList => "membership.list"
  | ActionMembershipGet => "membership.get"
  | ActionMembershipCreate => "membership.create"
  | ActionMembershipReplace => "membership.replace"
  | ActionMembershipDelete => "membership.delete"
  | ActionAuditList => "audit.list"
  | ActionAuditExport => "audit.export"
  | ActionApprovalApprove => "approval.approve"
  | ActionApprovalReject => "approval.reject"
  | ActionApprovalOverride => "approval.override"
  | ActionWorkPublish => "work.publish"
  | ActionWorkConsume => "work.consume"
  | ActionWorkRedrive => "work.redrive"
  | ActionReconcilePlan => "reconcile.plan"
  | ActionReconcileExecute => "reconcile.execute"
  | ActionOperationTransition => "operation.transition"
  | ActionCredentialResolve => "credential.resolve"
  | ActionProviderDiscover => "provider.discover"
  | ActionProviderApply => "provider.apply"
  | ActionProviderObserve => "provider.observe"
  | ActionProviderDelete => "provider.delete"
  | ActionAuditAppend => "audit.append"
  | ActionOther raw => raw
  end.

Definition allActions : list Action :=
  [ActionResourceList; ActionResourceGet; ActionResourceCreate; ActionResourceReplace; ActionResourceDelete; ActionResourceStatusReplace; ActionPlanList; ActionPlanGet; ActionPlanPreview; ActionOperationList; ActionOperationGet; ActionOperationCancel; ActionOperationRetry; ActionOperationQuarantine; ActionMembershipList; ActionMembershipGet; ActionMembershipCreate; ActionMembershipReplace; ActionMembershipDelete; ActionAuditList; ActionAuditExport; ActionApprovalApprove; ActionApprovalReject; ActionApprovalOverride; ActionWorkPublish; ActionWorkConsume; ActionWorkRedrive; ActionReconcilePlan; ActionReconcileExecute; ActionOperationTransition; ActionCredentialResolve; ActionProviderDiscover; ActionProviderApply; ActionProviderObserve; ActionProviderDelete; ActionAuditAppend].

Definition Action_known (v : Action) : bool := match v with ActionOther _ => false | _ => true end.

#[export] Instance Action_closed : Closed Action.
Proof.
  refine {| candidates := allActions; spelled := Action_String; known := Action_known |}.
  - solve_closed_known.
  - solve_closed_nodup.
Defined.

Definition ParseAction (value : string) : result error Action := of_option (parseClosed value) ErrInvalidAction.

(** The tenant roles. *)
Inductive Role :=
| RoleViewer
| RoleDeveloper
| RoleOperator
| RoleWorkspaceAdministrator
| RoleOther (raw : string).

#[export] Instance Role_eq : EqDecision Role.
Proof. solve_decision. Defined.

Definition Role_String (v : Role) : string :=
  match v with
  | RoleViewer => "Viewer"
  | RoleDeveloper => "Developer"
  | RoleOperator => "Operator"
  | RoleWorkspaceAdministrator => "WorkspaceAdministrator"
  | RoleOther raw => raw
  end.

Definition allRoles : list Role :=
  [RoleViewer; RoleDeveloper; RoleOperator; RoleWorkspaceAdministrator].

Definition Role_known (v : Role) : bool := match v with RoleOther _ => false | _ => true end.

#[export] Instance Role_closed : Closed Role.
Proof.
  refine {| candidates := allRoles; spelled := Role_String; known := Role_known |}.
  - solve_closed_known.
  - solve_closed_nodup.
Defined.

Definition ParseRole (value : string) : result error Role := of_option (parseClosed value) ErrInvalidRole.

(** The root of a grant. *)
Inductive ScopeKind :=
| ScopeKindWorkspace
| ScopeKindEnvironment
| ScopeKindOther (raw : string).

#[export] Instance ScopeKind_eq : EqDecision ScopeKind.
Proof. solve_decision. Defined.

Definition ScopeKind_String (v : ScopeKind) : string :=
  match v with
  | ScopeKindWorkspace => "Workspace"
  | ScopeKindEnvironment => "Environment"
  | ScopeKindOther raw => raw
  end.

Definition ScopeKinds : list ScopeKind :=
  [ScopeKindWorkspace; ScopeKindEnvironment].

Definition ScopeKind_known (v : ScopeKind) : bool := match v with ScopeKindOther _ => false | _ => true end.

#[export] Instance ScopeKind_closed : Closed ScopeKind.
Proof.
  refine {| candidates := ScopeKinds; spelled := ScopeKind_String; known := ScopeKind_known |}.
  - solve_closed_known.
  - solve_closed_nodup.
Defined.

Definition ParseScopeKind (value : string) : result error ScopeKind := of_option (parseClosed value) ErrInvalidScope.

(** What an action is about, as opposed to where it is anchored. *)
Inductive ObjectKind :=
| ObjectKindResource
| ObjectKindOperation
| ObjectKindPlan
| ObjectKindMembership
| ObjectKindAudit
| ObjectKindOther (raw : string).

#[export] Instance ObjectKind_eq : EqDecision ObjectKind.
Proof. solve_decision. Defined.

Definition ObjectKind_String (v : ObjectKind) : string :=
  match v with
  | ObjectKindResource => "Resource"
  | ObjectKindOperation => "Operation"
  | ObjectKindPlan => "Plan"
  | ObjectKindMembership => "Membership"
  | ObjectKindAudit => "Audit"
  | ObjectKindOther raw => raw
  end.

Definition ObjectKinds : list ObjectKind :=
  [ObjectKindResource; ObjectKindOperation; ObjectKindPlan; ObjectKindMembership; ObjectKindAudit].

Definition ObjectKind_known (v : ObjectKind) : bool := match v with ObjectKindOther _ => false | _ => true end.

#[export] Instance ObjectKind_closed : Closed ObjectKind.
Proof.
  refine {| candidates := ObjectKinds; spelled := ObjectKind_String; known := ObjectKind_known |}.
  - solve_closed_known.
  - solve_closed_nodup.
Defined.

Definition ParseObjectKind (value : string) : result error ObjectKind := of_option (parseClosed value) ErrInvalidObjectKind.

(** The outcome of a decision. *)
Inductive Effect :=
| EffectAllow
| EffectDeny
| EffectOther (raw : string).

#[export] Instance Effect_eq : EqDecision Effect.
Proof. solve_decision. Defined.

Definition Effect_String (v : Effect) : string :=
  match v with
  | EffectAllow => "Allow"
  | EffectDeny => "Deny"
  | EffectOther raw => raw
  end.

Definition Effects : list Effect :=
  [EffectAllow; EffectDeny].

Definition Effect_known (v : Effect) : bool := match v with EffectOther _ => false | _ => true end.

#[export] Instance Effect_closed : Closed Effect.
Proof.
  refine {| candidates := Effects; spelled := Effect_String; known := Effect_known |}.
  - solve_closed_known.
  - solve_closed_nodup.
Defined.

(** Why, in order of precedence. *)
Inductive Reason :=
| ReasonCrossWorkspace
| ReasonReservedAction
| ReasonNoMembership
| ReasonNoRoleBinding
| ReasonScopeNotGranted
| ReasonActionNotGranted
| ReasonRoleGranted
| ReasonOther (raw : string).

#[export] Instance Reason_eq : EqDecision Reason.
Proof. solve_decision. Defined.

Definition Reason_String (v : Reason) : string :=
  match v with
  | ReasonCrossWorkspace => "CrossWorkspace"
  | ReasonReservedAction => "ReservedAction"
  | ReasonNoMembership => "NoMembership"
  | ReasonNoRoleBinding => "NoRoleBinding"
  | ReasonScopeNotGranted => "ScopeNotGranted"
  | ReasonActionNotGranted => "ActionNotGranted"
  | ReasonRoleGranted => "RoleGranted"
  | ReasonOther raw => raw
  end.

Definition Reasons : list Reason :=
  [ReasonCrossWorkspace; ReasonReservedAction; ReasonNoMembership; ReasonNoRoleBinding; ReasonScopeNotGranted; ReasonActionNotGranted; ReasonRoleGranted].

Definition Reason_known (v : Reason) : bool := match v with ReasonOther _ => false | _ => true end.

#[export] Instance Reason_closed : Closed Reason.
Proof.
  refine {| candidates := Reasons; spelled := Reason_String; known := Reason_known |}.
  - solve_closed_known.
  - solve_closed_nodup.
Defined.

(** [InheritedRoles]: every role includes [Viewer], and nothing else. *)
Definition InheritedRoles (role : Role) : list Role :=
  match role with
  | RoleViewer => [RoleViewer]
  | RoleDeveloper => [RoleViewer; RoleDeveloper]
  | RoleOperator => [RoleViewer; RoleOperator]
  | RoleWorkspaceAdministrator => [RoleViewer; RoleWorkspaceAdministrator]
  | RoleOther _ => []
  end.

Definition ScopeDescendants (kind : ScopeKind) : list ScopeKind :=
  match kind with
  | ScopeKindWorkspace => [ScopeKindWorkspace; ScopeKindEnvironment]
  | ScopeKindEnvironment => [ScopeKindEnvironment]
  | ScopeKindOther _ => []
  end.

(** ** The matrix *)

Definition globallyReservedActions : list Action :=
  [ActionResourceStatusReplace;
   ActionOperationQuarantine;
   ActionAuditExport;
   ActionApprovalApprove;
   ActionApprovalReject;
   ActionApprovalOverride;
   ActionWorkPublish;
   ActionWorkConsume;
   ActionWorkRedrive;
   ActionReconcilePlan;
   ActionReconcileExecute;
   ActionOperationTransition;
   ActionCredentialResolve;
   ActionProviderDiscover;
   ActionProviderApply;
   ActionProviderObserve;
   ActionProviderDelete;
   ActionAuditAppend].

Record ReservedResourceAction := RRA { rra_Action : Action; rra_ResourceKind : Kind }.

Definition targetReservedActions : list ReservedResourceAction := [RRA ActionResourceCreate KindWorkspace].

Definition viewerResourceKinds : list Kind :=
  [KindApplication; KindComponent; KindEnvironment; KindProviderConnection; KindWorkspace].

(** One direct grant; an empty list of kinds grants every kind. *)
Record Grant := Gr { g_Action : Action; g_ObjectKind : ObjectKind; g_ResourceKinds : list Kind }.

Definition directRoleGrants (role : Role) : list Grant :=
  match role with
  | RoleViewer =>
     [Gr ActionResourceList ObjectKindResource viewerResourceKinds;
      Gr ActionResourceGet ObjectKindResource viewerResourceKinds;
      Gr ActionPlanList ObjectKindPlan viewerResourceKinds;
      Gr ActionPlanGet ObjectKindPlan viewerResourceKinds;
      Gr ActionOperationList ObjectKindOperation viewerResourceKinds;
      Gr ActionOperationGet ObjectKindOperation viewerResourceKinds;
      Gr ActionAuditList ObjectKindAudit viewerResourceKinds]
  | RoleDeveloper =>
     [Gr ActionResourceCreate ObjectKindResource [KindApplication; KindComponent];
      Gr ActionResourceReplace ObjectKindResource [KindApplication; KindComponent];
      Gr ActionResourceDelete ObjectKindResource [KindApplication; KindComponent];
      Gr ActionPlanPreview ObjectKindPlan [KindApplication; KindComponent];
      Gr ActionOperationCancel ObjectKindOperation [KindApplication; KindComponent]]
  | RoleOperator =>
     [Gr ActionResourceCreate ObjectKindResource [KindEnvironment; KindProviderConnection];
      Gr ActionResourceReplace ObjectKindResource [KindEnvironment; KindProviderConnection];
      Gr ActionResourceDelete ObjectKindResource [KindEnvironment; KindProviderConnection];
      Gr ActionPlanPreview ObjectKindPlan [KindEnvironment; KindProviderConnection];
      Gr ActionOperationCancel ObjectKindOperation [KindApplication; KindComponent; KindEnvironment; KindProviderConnection];
      Gr ActionOperationRetry ObjectKindOperation [KindApplication; KindComponent; KindEnvironment; KindProviderConnection]]
  | RoleWorkspaceAdministrator =>
     [Gr ActionResourceList ObjectKindResource [KindPolicy];
      Gr ActionResourceGet ObjectKindResource [KindPolicy];
      Gr ActionResourceCreate ObjectKindResource [KindPolicy];
      Gr ActionResourceReplace ObjectKindResource [KindPolicy; KindWorkspace];
      Gr ActionResourceDelete ObjectKindResource [KindPolicy; KindWorkspace];
      Gr ActionPlanList ObjectKindPlan [KindPolicy; KindWorkspace];
      Gr ActionPlanGet ObjectKindPlan [KindPolicy; KindWorkspace];
      Gr ActionPlanPreview ObjectKindPlan [KindPolicy; KindWorkspace];
      Gr ActionOperationList ObjectKindOperation [KindPolicy; KindWorkspace];
      Gr ActionOperationGet ObjectKindOperation [KindPolicy; KindWorkspace];
      Gr ActionOperationCancel ObjectKindOperation [KindPolicy; KindWorkspace];
      Gr ActionMembershipList ObjectKindMembership [];
      Gr ActionMembershipGet ObjectKindMembership [];
      Gr ActionMembershipCreate ObjectKindMembership [];
      Gr ActionMembershipReplace ObjectKindMembership [];
      Gr ActionMembershipDelete ObjectKindMembership []]
  | RoleOther _ => []
  end.
