(* ===== verification/Authorization.v ===== *)
(** * Authorization: targets, members, policies and decisions
    (authorization/target.go, membership.go, policy.go, policy_set.go, evaluator.go)

    A decision is computed from a principal, an action and a target sealed from
    a hierarchy snapshot, against a policy set compiled from validated policy
    revisions.  The default is deny. *)

From stdpp Require Import sorting.
From S2P Require Import Prelude StringOrder Bytes Sha256 GoTime Closed Vocabulary Digests Hierarchy.
From S2P Require Import Identity Codes AuthzVocabulary.
From Stdlib Require Import String.

(** ** Sealed targets *)

Record Target := Tg {
  tg_initialized : bool;
  tg_objectKind : ObjectKind;
  tg_objectID : ID;
  tg_resourceKind : Hierarchy.Kind;
  tg_resourceID : ID;
  tg_workspaceID : ID;
  tg_environmentID : option ID;
  tg_providerConnectionID : option ID;
}.

Definition wantsEnvironment (kind : Hierarchy.Kind) : bool :=
  match kind with
  | KindEnvironment | KindApplication | KindComponent | KindProviderConnection => true
  | _ => false
  end.

Definition validObject (t : Target) : bool :=
  match tg_objectKind t with
  | ObjectKindResource => String.eqb (tg_objectID t) (tg_resourceID t) && negb (is_some (tg_providerConnectionID t))
  | ObjectKindMembership =>
      bool_decide (tg_resourceKind t = KindWorkspace) && String.eqb (tg_resourceID t) (tg_workspaceID t) &&
      negb (is_some (tg_providerConnectionID t))
  | ObjectKindAudit => negb (is_some (tg_providerConnectionID t))
  | ObjectKindOperation | ObjectKindPlan => true
  | ObjectKindOther _ => false
  end.

(** [ValidateTarget]; its error is [ErrInvalidTarget]. *)
Definition ValidateTarget (t : Target) : bool :=
  tg_initialized t && ObjectKind_known (tg_objectKind t) && Kind_known (tg_resourceKind t) &&
  validID (tg_objectID t) && validID (tg_resourceID t) && validID (tg_workspaceID t) &&
  negb (bool_decide (tg_resourceKind t = KindWorkspace) && negb (String.eqb (tg_resourceID t) (tg_workspaceID t))) &&
  Bool.eqb (wantsEnvironment (tg_resourceKind t)) (is_some (tg_environmentID t)) &&
  match tg_environmentID t with Some e => validID e | None => true end &&
  match tg_providerConnectionID t with
  | Some c => is_some (tg_environmentID t) && validID c
  | None => true
  end && validObject t.

Definition newTarget (objectKind : ObjectKind) (objectID : ID) (resourceKind : Hierarchy.Kind) (resourceID workspaceID : ID)
    (environmentID providerConnectionID : option ID) : result error Target :=
  let target := Tg true objectKind objectID resourceKind resourceID workspaceID environmentID providerConnectionID in
  if ValidateTarget target then Ok target else Err ErrInvalidTarget.

Definition lookup_target (snapshot : Snapshot) (id : ID) : result error Record :=
  map_err (fun _ => ErrInvalidTarget) (Snapshot_Lookup snapshot id).

(** A parent of the required kind in the same workspace. *)
Definition owned_parent (snapshot : Snapshot) (parent : option ID) (kind : Hierarchy.Kind) (workspaceID : ID)
    : result error Record :=
  id ← of_option parent ErrInvalidTarget;
  record ← lookup_target snapshot id;
  fail_if (negb (bool_decide (r_kind record = kind)) || negb (String.eqb (r_workspaceID record) workspaceID)) ErrInvalidTarget;;
  Ok record.

Definition resolveRecordEnvironment (snapshot : Snapshot) (record : Record) : result error (option ID) :=
  match r_kind record with
  | KindWorkspace | KindPolicy => Ok None
  | KindEnvironment => Ok (Some (r_id record))
  | KindApplication | KindProviderConnection =>
      parent ← owned_parent snapshot (r_parent record) KindEnvironment (r_workspaceID record);
      Ok (Some (r_id parent))
  | KindComponent =>
      application ← owned_parent snapshot (r_parent record) KindApplication (r_workspaceID record);
      environment ← owned_parent snapshot (r_parent application) KindEnvironment (r_workspaceID record);
      Ok (Some (r_id environment))
  | Hierarchy.KindOther _ => Err ErrInvalidTarget
  end.

Definition targetFromRecord (snapshot : Snapshot) (objectKind : ObjectKind) (objectID : ID) (record : Record)
    (providerID : option ID) : result error Target :=
  environmentID ← resolveRecordEnvironment snapshot record;
  newTarget objectKind objectID (r_kind record) (r_id record) (r_workspaceID record) environmentID providerID.

Definition ResolveResourceTarget (snapshot : Snapshot) (id : ID) : result error Target :=
  record ← lookup_target snapshot id;
  targetFromRecord snapshot ObjectKindResource id record None.

Definition ResolveOperationTarget (snapshot : Snapshot) (operationID resourceID workspaceID : ID)
    (environmentID providerConnectionID : option ID) : result error Target :=
  fail_if (negb (validID operationID && validID resourceID && validID workspaceID)) ErrInvalidTarget;;
  record ← lookup_target snapshot resourceID;
  fail_if (negb (String.eqb (r_workspaceID record) workspaceID)
           || negb (String.eqb (s_workspaceID snapshot) workspaceID)) ErrInvalidTarget;;
  target ← targetFromRecord snapshot ObjectKindOperation operationID record providerConnectionID;
  fail_if (negb (Bool.eqb (is_some environmentID) (is_some providerConnectionID))) ErrInvalidTarget;;
  match providerConnectionID with
  | None => Ok target
  | Some connection =>
      fail_if (negb (bool_decide (tg_environmentID target = environmentID))) ErrInvalidTarget;;
      provider ← lookup_target snapshot connection;
      fail_if (negb (bool_decide (r_kind provider = KindProviderConnection))
               || negb (String.eqb (r_workspaceID provider) workspaceID)) ErrInvalidTarget;;
      providerEnvironment ← resolveRecordEnvironment snapshot provider;
      fail_if (negb (is_some providerEnvironment) || negb (is_some environmentID)
               || negb (bool_decide (providerEnvironment = environmentID))) ErrInvalidTarget;;
      Ok target
  end.

Definition equalPlacement (left right : Placement) : bool :=
  String.eqb (p_id left) (p_id right) && bool_decide (p_kind left = p_kind right) &&
  String.eqb (p_workspaceID left) (p_workspaceID right) && bool_decide (p_parent left = p_parent right).

Definition resolvePlacementEnvironment (snapshot : Snapshot) (placement : Placement) : result error (option ID) :=
  match p_kind placement with
  | KindWorkspace | KindPolicy => Ok None
  | KindEnvironment => Ok (Some (p_id placement))
  | KindApplication | KindProviderConnection =>
      parentID ← of_option (p_parent placement) ErrInvalidTarget; Ok (Some parentID)
  | KindComponent =>
      applicationID ← of_option (p_parent placement) ErrInvalidTarget;
      application ← lookup_target snapshot applicationID;
      fail_if (negb (bool_decide (r_kind application = KindApplication))) ErrInvalidTarget;;
      environmentID ← of_option (r_parent application) ErrInvalidTarget;
      Ok (Some environmentID)
  | Hierarchy.KindOther _ => Err ErrInvalidTarget
  end.

Definition ResolveCreateTarget (snapshot : Snapshot) (placement : Placement) : result error Target :=
  let id := p_id placement in
  fail_if (negb (Kind_known (p_kind placement)) || negb (validID id) || negb (validID (p_workspaceID placement)))
    ErrInvalidTarget;;
  if bool_decide (p_kind placement = KindWorkspace) then
    derived ← map_err (fun _ => ErrInvalidTarget) (DeriveWorkspace id);
    fail_if (negb (equalPlacement derived placement)) ErrInvalidTarget;;
    newTarget ObjectKindResource id KindWorkspace id (p_workspaceID placement) None None
  else
    parentID ← of_option (p_parent placement) ErrInvalidTarget;
    derived ← map_err (fun _ => ErrInvalidTarget) (Snapshot_DeriveChild snapshot (p_kind placement) id parentID);
    fail_if (negb (equalPlacement derived placement)) ErrInvalidTarget;;
    environmentID ← resolvePlacementEnvironment snapshot placement;
    newTarget ObjectKindResource id (p_kind placement) id (p_workspaceID placement) environmentID None.

Definition ResolveWorkspaceObjectTarget (snapshot : Snapshot) (kind : ObjectKind) (id : ID) : result error Target :=
  fail_if (negb (bool_decide (kind = ObjectKindMembership)) && negb (bool_decide (kind = ObjectKindAudit))) ErrInvalidTarget;;
  fail_if (negb (validID id)) ErrInvalidTarget;;
  workspace ← lookup_target snapshot (s_workspaceID snapshot);
  fail_if (negb (bool_decide (r_kind workspace = KindWorkspace))
           || negb (String.eqb (r_id workspace) (r_workspaceID workspace))) ErrInvalidTarget;;
  newTarget kind id KindWorkspace (r_id workspace) (r_workspaceID workspace) None None.

(** ** The matrix at work *)

Definition grants (item : Grant) (action : Action) (target : Target) : bool :=
  bool_decide (g_Action item = action) && bool_decide (g_ObjectKind item = tg_objectKind target) &&
  match g_ResourceKinds item with
  | [] => true
  | kinds => bool_decide (tg_resourceKind target ∈ kinds)
  end.

Definition roleAllows (role : Role) (action : Action) (target : Target) : bool :=
  existsb (fun inherited => existsb (fun item => grants item action target) (directRoleGrants inherited))
    (InheritedRoles role).

Definition actionReserved (action : Action) (target : Target) : bool :=
  bool_decide (action ∈ globallyReservedActions) ||
  existsb (fun item => bool_decide (rra_Action item = action) && bool_decide (rra_ResourceKind item = tg_resourceKind target)
                       && bool_decide (tg_objectKind target = ObjectKindResource)) targetReservedActions.

Notation memberIdentityKey := (Identity.Kind * string * string)%type.

Section Identities.
Context `{RequestURIs}.

(** ** Members *)

Record MemberRecord := MR {
  m_initialized : bool;
  m_id : ID;
  m_workspaceID : ID;
  m_kind : Identity.Kind;
  m_logicalIdentity : LogicalIdentity;
}.

Definition NewMemberRecord (id workspaceID : ID) (kind : Identity.Kind) (logical : LogicalIdentity)
    : result error MemberRecord :=
  fail_if (negb (validID id)) ErrInvalidMember;;
  fail_if (negb (validID workspaceID)) ErrInvalidMember;;
  fail_if (negb (validKind kind)) (ErrWrap ErrInvalidMember ErrPrincipalKindNotAllowed);;
  fail_if (negb (result_ok (ValidateLogicalIdentity logical))) ErrInvalidMember;;
  Ok (MR true id workspaceID kind logical).

(** [validateMemberRecord]; its error is [ErrInvalidMember]. *)
Definition validateMemberRecord (m : MemberRecord) : bool :=
  m_initialized m && validID (m_id m) && validID (m_workspaceID m) && validKind (m_kind m) &&
  result_ok (ValidateLogicalIdentity (m_logicalIdentity m)).

Definition memberKey (kind : Identity.Kind) (logical : LogicalIdentity) : memberIdentityKey :=
  (kind, li_issuer logical, li_subject logical).

Definition equalMemberRecord (left right : MemberRecord) : bool :=
  m_initialized left && m_initialized right && String.eqb (m_id left) (m_id right) &&
  String.eqb (m_workspaceID left) (m_workspaceID right) && bool_decide (m_kind left = m_kind right) &&
  EqualLogicalIdentity (m_logicalIdentity left) (m_logicalIdentity right).

Record MemberDirectory := MD {
  md_initialized : bool;
  md_workspaceID : ID;
  md_byID : gmap string MemberRecord;
  md_byIdentity : gmap memberIdentityKey ID;
  md_ordered : list MemberRecord;
}.

(** The loop that fills both indexes. *)
Fixpoint index_members (workspaceID : ID) (members : list MemberRecord) (byID : gmap string MemberRecord)
    (byIdentity : gmap memberIdentityKey ID)
    : result error (gmap string MemberRecord * gmap memberIdentityKey ID) :=
  match members with
  | [] => Ok (byID, byIdentity)
  | member :: rest =>
      fail_if (negb (validateMemberRecord member)) (ErrWrap ErrInvalidMemberDirectory ErrInvalidMember);;
      fail_if (negb (String.eqb (m_workspaceID member) workspaceID)) (ErrWrap ErrInvalidMemberDirectory ErrWorkspaceMismatch);;
      fail_if (is_some (byID !! m_id member)) (ErrWrap ErrInvalidMemberDirectory ErrDuplicateMemberID);;
      let key := memberKey (m_kind member) (m_logicalIdentity member) in
      fail_if (is_some (byIdentity !! key)) (ErrWrap ErrInvalidMemberDirectory ErrDuplicateLogicalIdentity);;
      index_members workspaceID rest (<[m_id member := member]> byID) (<[key := m_id member]> byIdentity)
  end.

(** [sort.Slice] by distinct keys is any sort by them. *)
Definition by_key {A} (key : A -> string) (a b : A) : Prop := string_le (key a) (key b).
#[export] Instance by_key_dec {A} (key : A -> string) : RelDecision (by_key key).
Proof. intros a b. unfold by_key. apply _. Defined.

Definition NewMemberDirectory (workspaceID : ID) (members : list MemberRecord) : result error MemberDirectory :=
  fail_if (negb (validID workspaceID)) ErrInvalidMemberDirectory;;
  fail_if (MaxMembers <? llen members) (ErrWrap ErrInvalidMemberDirectory ErrTooManyMembers);;
  '(byID, byIdentity) ← index_members workspaceID members ∅ ∅;
  Ok (MD true workspaceID byID byIdentity (merge_sort (by_key m_id) members)).

(** [ValidateMemberDirectory]; its error is [ErrInvalidMemberDirectory]. *)
Definition ValidateMemberDirectory (d : MemberDirectory) : bool :=
  md_initialized d && validID (md_workspaceID d) &&
  (Z.of_nat (size (md_byID d)) =? Z.of_nat (size (md_byIdentity d))) &&
  (Z.of_nat (size (md_byID d)) =? llen (md_ordered d)) && (llen (md_ordered d) <=? MaxMembers) &&
  forallb (fun m => validateMemberRecord m && String.eqb (m_workspaceID m) (md_workspaceID d) &&
    match md_byID d !! m_id m with Some indexed => equalMemberRecord indexed m | None => false end &&
    bool_decide (md_byIdentity d !! memberKey (m_kind m) (m_logicalIdentity m) = Some (m_id m))) (md_ordered d) &&
  increasing (m_id <$> md_ordered d).

Definition MemberDirectory_Lookup (d : MemberDirectory) (id : ID) : result error MemberRecord :=
  fail_if (negb (ValidateMemberDirectory d)) ErrInvalidMemberDirectory;;
  fail_if (negb (validID id)) ErrMemberNotFound;;
  of_option (md_byID d !! id) ErrMemberNotFound.

(** The member of a principal, by exact kind, issuer and subject. *)
Definition member_of (d : MemberDirectory) (p : Principal) : option MemberRecord :=
  id ← md_byIdentity d !! memberKey (pr_kind p) (pr_logicalIdentity p);
  member ← md_byID d !! id;
  if bool_decide (m_kind member = pr_kind p) && EqualLogicalIdentity (m_logicalIdentity member) (pr_logicalIdentity p)
  then Some member else None.

Definition MemberDirectory_Match (d : MemberDirectory) (p : Principal) : option MemberRecord :=
  if ValidateMemberDirectory d && result_ok (ValidatePrincipal p) then member_of d p else None.

(** ** Policies *)

Record Scope := Sc { sc_Kind : ScopeKind; sc_EnvironmentID : option ID }.
Record RoleBinding := RB { rb_MemberID : ID; rb_Role : Role; rb_Scope : Scope }.

(** A nil slice of bindings is [None]. *)
Record PolicySpec := PS { ps_Bindings : option (list RoleBinding) }.

Definition spec_bindings (spec : PolicySpec) : list RoleBinding := default [] (ps_Bindings spec).

Definition validateRoleBinding (b : RoleBinding) : option (BindingField * error) :=
  if negb (validID (rb_MemberID b)) then Some (BindingFieldMemberID, ErrInvalidBinding)
  else if negb (Role_known (rb_Role b)) then Some (BindingFieldRole, ErrInvalidRole)
  else match sc_Kind (rb_Scope b), sc_EnvironmentID (rb_Scope b) with
       | ScopeKindWorkspace, Some _ => Some (BindingFieldEnvironmentID, ErrInvalidScope)
       | ScopeKindWorkspace, None => None
       | ScopeKindEnvironment, None => Some (BindingFieldEnvironmentID, ErrInvalidScope)
       | ScopeKindEnvironment, Some e =>
           if negb (validID e) then Some (BindingFieldEnvironmentID, ErrInvalidScope)
           else if bool_decide (rb_Role b = RoleWorkspaceAdministrator) then Some (BindingFieldScopeKind, ErrInvalidScope)
           else None
       | ScopeKindOther _, _ => Some (BindingFieldScopeKind, ErrInvalidScope)
       end.

Definition scopeEnvironment (scope : Scope) : string := default "" (sc_EnvironmentID scope).

(** [strings.Compare] in sequence. *)
Definition compare_then (a b : string) (next : comparison) : comparison :=
  match String.compare a b with Eq => next | c => c end.

Definition CompareRoleBindings (left right : RoleBinding) : comparison :=
  compare_then (rb_MemberID left) (rb_MemberID right) (
  compare_then (ScopeKind_String (sc_Kind (rb_Scope left))) (ScopeKind_String (sc_Kind (rb_Scope right))) (
  compare_then (scopeEnvironment (rb_Scope left)) (scopeEnvironment (rb_Scope right)) (
  compare_then (Role_String (rb_Role left)) (Role_String (rb_Role right)) Eq))).

Fixpoint check_bindings (index : Z) (previous : option RoleBinding) (bindings : list RoleBinding) : result error unit :=
  match bindings with
  | [] => Ok tt
  | binding :: rest =>
      match validateRoleBinding binding with
      | Some (field, cause) => Err (ErrWrap ErrInvalidPolicySpec (BindingError index field cause))
      | None =>
          match previous with
          | Some p =>
              match CompareRoleBindings p binding with
              | Eq => Err (ErrWrap ErrInvalidPolicySpec (BindingError index BindingFieldMemberID ErrDuplicateBinding))
              | Gt => Err (ErrWrap ErrInvalidPolicySpec (BindingError index BindingFieldMemberID ErrInvalidBindingOrder))
              | Lt => Ok tt
              end
          | None => Ok tt
          end;;
          check_bindings (index + 1) (Some binding) rest
      end
  end.

Definition ValidatePolicySpec (spec : PolicySpec) : result error unit :=
  bindings ← of_option (ps_Bindings spec) (ErrWrap ErrInvalidPolicySpec ErrBindingsRequired);
  fail_if (MaxBindingsPerPolicy <? llen bindings) (ErrWrap ErrInvalidPolicySpec ErrTooManyBindings);;
  check_bindings 0 None bindings.

Definition reference_error {A} (index : Z) (field : BindingField) (cause : error) : result error A :=
  Err (ErrWrap ErrInvalidPolicySpec (BindingError index field cause)).

(** One binding's references: the member, its kind for an administrator and
    the environment of an environment scope. *)
Definition check_reference (snapshot : Snapshot) (d : MemberDirectory) (index : Z) (b : RoleBinding) : result error unit :=
  match md_byID d !! rb_MemberID b with
  | None => reference_error index BindingFieldMemberID ErrMemberNotFound
  | Some member =>
      if negb (String.eqb (m_workspaceID member) (md_workspaceID d)) then
        reference_error index BindingFieldMemberID ErrWorkspaceMismatch
      else if bool_decide (rb_Role b = RoleWorkspaceAdministrator) && negb (bool_decide (m_kind member = KindHuman)) then
        reference_error index BindingFieldRole ErrPrincipalKindNotAllowed
      else if negb (bool_decide (sc_Kind (rb_Scope b) = ScopeKindEnvironment)) then Ok tt
      else match Snapshot_Lookup snapshot (default "" (sc_EnvironmentID (rb_Scope b))) with
           | Err _ => reference_error index BindingFieldEnvironmentID ErrEnvironmentNotFound
           | Ok environment =>
               if negb (bool_decide (r_kind environment = KindEnvironment)) then
                 reference_error index BindingFieldEnvironmentID ErrReferenceKindMismatch
               else if negb (String.eqb (r_workspaceID environment) (md_workspaceID d)) then
                 reference_error index BindingFieldEnvironmentID ErrWorkspaceMismatch
               else Ok tt
           end
  end.

Fixpoint check_references (snapshot : Snapshot) (d : MemberDirectory) (index : Z) (bindings : list RoleBinding)
    : result error unit :=
  match bindings with
  | [] => Ok tt
  | b :: rest => check_reference snapshot d index b;; check_references snapshot d (index + 1) rest
  end.

Definition ValidatePolicyReferences (spec : PolicySpec) (snapshot : Snapshot) (d : MemberDirectory) : result error unit :=
  ValidatePolicySpec spec;;
  root ← map_err (fun _ => ErrInvalidPolicySpec) (Snapshot_Lookup snapshot (s_workspaceID snapshot));
  fail_if (negb (bool_decide (r_kind root = KindWorkspace))) (ErrWrap ErrInvalidPolicySpec ErrReferenceKindMismatch);;
  fail_if (negb (ValidateMemberDirectory d)) (ErrWrap ErrInvalidPolicySpec ErrInvalidMemberDirectory);;
  fail_if (negb (String.eqb (md_workspaceID d) (s_workspaceID snapshot))
           || negb (String.eqb (r_workspaceID root) (md_workspaceID d))) (ErrWrap ErrInvalidPolicySpec ErrWorkspaceMismatch);;
  check_references snapshot d 0 (spec_bindings spec).

(** ** Policy sets *)

Record PolicyRevision := PR {
  pr_Record : Record;
  pr_Generation : Z;
  pr_Spec : PolicySpec;
}.

(** A [roleMask] is a [uint8] with one bit per role. *)
Definition maskForRole (role : Role) : Z :=
  match role with
  | RoleViewer => 1
  | RoleDeveloper => 2
  | RoleOperator => 4
  | RoleWorkspaceAdministrator => 8
  | RoleOther _ => 0
  end.

Definition roleMask_roles (mask : Z) : list Role := List.filter (fun role => negb (Z.land mask (maskForRole role) =? 0)) allRoles.

Record compiledMemberBindings := CB {
  cb_all : Z;
  cb_workspace : Z;
  cb_environments : gmap string Z;
}.

Definition no_bindings : compiledMemberBindings := CB 0 0 ∅.

(** The contribution of one binding to the compiled view of its member. *)
Definition compile_binding (c : compiledMemberBindings) (b : RoleBinding) : compiledMemberBindings :=
  let bit := maskForRole (rb_Role b) in
  let all := Z.lor (cb_all c) bit in
  match sc_Kind (rb_Scope b), sc_EnvironmentID (rb_Scope b) with
  | ScopeKindWorkspace, _ => CB all (Z.lor (cb_workspace c) bit) (cb_environments c)
  | ScopeKindEnvironment, Some e =>
      CB all (cb_workspace c) (<[e := Z.lor (default 0 (cb_environments c !! e)) bit]> (cb_environments c))
  | _, _ => CB all (cb_workspace c) (cb_environments c)
  end.

Definition compile_one (bindings : gmap string compiledMemberBindings) (b : RoleBinding)
    : gmap string compiledMemberBindings :=
  <[rb_MemberID b := compile_binding (default no_bindings (bindings !! rb_MemberID b)) b]> bindings.

Definition policy_bindings (policies : list PolicyRevision) : list RoleBinding :=
  List.concat ((fun p => spec_bindings (pr_Spec p)) <$> policies).

Definition compilePolicyBindings (policies : list PolicyRevision) : gmap string compiledMemberBindings :=
  foldl compile_one ∅ (policy_bindings policies).

Definition PolicyVersion := digestValue.

(** [derivePolicyVersion], over the frames of [Codes]. *)
Definition member_frames (m : MemberRecord) : string :=
  frames_of [m_id m; Identity.Kind_String (m_kind m); li_issuer (m_logicalIdentity m); li_subject (m_logicalIdentity m)].

Definition binding_frames (b : RoleBinding) : string :=
  frames_of [rb_MemberID b; Role_String (rb_Role b); ScopeKind_String (sc_Kind (rb_Scope b)); scopeEnvironment (rb_Scope b)].

Definition policy_frames (p : PolicyRevision) : string :=
  frame (r_id (pr_Record p)) +:+ put_uint64 (pr_Generation p) +:+ counted binding_frames (spec_bindings (pr_Spec p)).

Definition policy_preimage (d : MemberDirectory) (policies : list PolicyRevision) : string :=
  frames_of ["veer.authorization.policy-set.v1"; authorization_ContractVersion; md_workspaceID d] +:+
  counted member_frames (md_ordered d) +:+ counted policy_frames policies.

Definition derivePolicyVersion (d : MemberDirectory) (policies : list PolicyRevision) : PolicyVersion :=
  DV true (sha256 (policy_preimage d policies)).

Record PolicySet := PSet {
  set_initialized : bool;
  set_workspaceID : ID;
  set_directory : MemberDirectory;
  set_policies : list PolicyRevision;
  set_bindings : gmap string compiledMemberBindings;
  set_version : PolicyVersion;
}.

(** Errors of the hierarchy are dropped by the [%w] of these calls. *)
Definition validatePolicyRevision (policy : PolicyRevision) (snapshot : Snapshot) (d : MemberDirectory) : result error unit :=
  fail_if (negb (bool_decide (r_kind (pr_Record policy) = KindPolicy))) (ErrWrap ErrInvalidPolicyRevision ErrReferenceKindMismatch);;
  fail_if (negb (String.eqb (r_workspaceID (pr_Record policy)) (s_workspaceID snapshot)))
    (ErrWrap ErrInvalidPolicyRevision ErrWorkspaceMismatch);;
  retained ← map_err (fun _ => ErrInvalidPolicyRevision) (Snapshot_Lookup snapshot (r_id (pr_Record policy)));
  map_err (fun _ => ErrInvalidPolicyRevision) (CheckTransition retained (pr_Record policy));;
  fail_if (pr_Generation policy <? 1) ErrInvalidPolicyRevision;;
  map_err (ErrWrap ErrInvalidPolicyRevision) (ValidatePolicyReferences (pr_Spec policy) snapshot d).

Fixpoint check_policies (snapshot : Snapshot) (d : MemberDirectory) (seen : gset string) (policies : list PolicyRevision)
    : result error unit :=
  match policies with
  | [] => Ok tt
  | policy :: rest =>
      map_err (ErrWrap ErrInvalidPolicySet) (validatePolicyRevision policy snapshot d);;
      fail_if (bool_decide (r_id (pr_Record policy) ∈ seen)) (ErrWrap ErrInvalidPolicySet ErrDuplicatePolicyID);;
      check_policies snapshot d ({[r_id (pr_Record policy)]} ∪ seen) rest
  end.

Definition policy_id (p : PolicyRevision) : string := r_id (pr_Record p).

Definition NewPolicySet (snapshot : Snapshot) (d : MemberDirectory) (policies : list PolicyRevision)
    : result error PolicySet :=
  workspace ← map_err (fun _ => ErrInvalidPolicySet) (Snapshot_Lookup snapshot (s_workspaceID snapshot));
  fail_if (negb (bool_decide (r_kind workspace = KindWorkspace))) ErrInvalidPolicySet;;
  fail_if (negb (ValidateMemberDirectory d)) (ErrWrap ErrInvalidPolicySet ErrInvalidMemberDirectory);;
  fail_if (negb (String.eqb (md_workspaceID d) (s_workspaceID snapshot))
           || negb (String.eqb (r_workspaceID workspace) (md_workspaceID d))) (ErrWrap ErrInvalidPolicySet ErrWorkspaceMismatch);;
  fail_if (MaxPolicies <? llen policies) (ErrWrap ErrInvalidPolicySet ErrTooManyPolicies);;
  check_policies snapshot d ∅ policies;;
  let owned := merge_sort (by_key policy_id) policies in
  Ok (PSet true (s_workspaceID snapshot) d owned (compilePolicyBindings owned) (derivePolicyVersion d owned)).

(** [equalCompiledBindings]: a missing environment reads as the empty mask. *)
Definition equalCompiled (left right : compiledMemberBindings) : bool :=
  (cb_all left =? cb_all right) && (cb_workspace left =? cb_workspace right) &&
  (Z.of_nat (size (cb_environments left)) =? Z.of_nat (size (cb_environments right))) &&
  forallb (fun '(e, roles) => default 0 (cb_environments right !! e) =? roles) (map_to_list (cb_environments left)).

Definition equalCompiledBindings (left right : gmap string compiledMemberBindings) : bool :=
  (Z.of_nat (size left) =? Z.of_nat (size right)) &&
  forallb (fun '(id, l) => match right !! id with Some r => equalCompiled l r | None => false end) (map_to_list left).

Definition policy_well_formed (set : PolicySet) (p : PolicyRevision) : bool :=
  bool_decide (r_kind (pr_Record p) = KindPolicy) && String.eqb (r_workspaceID (pr_Record p)) (set_workspaceID set) &&
  (1 <=? pr_Generation p) && result_ok (ValidatePolicySpec (pr_Spec p)) &&
  result_ok (CheckTransition (pr_Record p) (pr_Record p)) &&
  forallb (fun b => match md_byID (set_directory set) !! rb_MemberID b with
                    | Some m => negb (bool_decide (rb_Role b = RoleWorkspaceAdministrator)) || bool_decide (m_kind m = KindHuman)
                    | None => false
                    end) (spec_bindings (pr_Spec p)).

(** [ValidatePolicySet]; its error is [ErrInvalidPolicySet].  The version of a
    set is a digest, which [ParsePolicyVersion] accepts as it is printed. *)
Definition ValidatePolicySet (set : PolicySet) : bool :=
  set_initialized set && validID (set_workspaceID set) && ValidateMemberDirectory (set_directory set) &&
  String.eqb (md_workspaceID (set_directory set)) (set_workspaceID set) &&
  (llen (set_policies set) <=? MaxPolicies) && (Z.of_nat (size (set_bindings set)) <=? MaxMembers) &&
  is_some (ParsePolicyVersion (formatDigest PolicyVersionPrefix (set_version set))) &&
  equalDigest (set_version set) (derivePolicyVersion (set_directory set) (set_policies set)) &&
  forallb (policy_well_formed set) (set_policies set) && increasing (policy_id <$> set_policies set) &&
  equalCompiledBindings (set_bindings set) (compilePolicyBindings (set_policies set)).

(** ** Decisions *)

Record Input := In {
  in_Principal : Principal;
  in_Action : Action;
  in_Target : Target;
}.

Definition validateInput (input : Input) : result error unit :=
  fail_if (negb (result_ok (ValidatePrincipal (in_Principal input)))) ErrInvalidInput;;
  fail_if (negb (Action_known (in_Action input))) (ErrWrap ErrInvalidInput ErrInvalidAction);;
  fail_if (negb (ValidateTarget (in_Target input))) (ErrWrap ErrInvalidInput ErrInvalidTarget).

Definition input_preimage (input : Input) : string :=
  let p := in_Principal input in
  let t := in_Target input in
  frames_of ["veer.authorization.input.v1"; authorization_ContractVersion; Identity.Kind_String (pr_kind p);
             li_issuer (pr_logicalIdentity p); li_subject (pr_logicalIdentity p)] +:+
  counted frame (pr_audiences p) +:+ counted frame (pr_groups p) +:+
  optional_frame (pr_workloadIdentity p) +:+
  frames_of [Action_String (in_Action input); ObjectKind_String (tg_objectKind t); tg_objectID t;
             Hierarchy.Kind_String (tg_resourceKind t); tg_resourceID t; tg_workspaceID t] +:+
  optional_frame (tg_environmentID t) +:+ optional_frame (tg_providerConnectionID t).

Definition deriveInputDigest (input : Input) : digestValue := DV true (sha256 (input_preimage input)).

Record Decision := Dec {
  de_initialized : bool;
  de_policyVersion : PolicyVersion;
  de_inputDigest : digestValue;
  de_effect : Effect;
  de_reason : Reason;
}.

Definition Decision_Allowed (d : Decision) : bool := bool_decide (de_effect d = EffectAllow).

Definition PolicySet_Evaluate (set : PolicySet) (input : Input) : result error Decision :=
  fail_if (negb (set_initialized set) || negb (dv_initialized (set_version set)) || negb (md_initialized (set_directory set))
           || negb (String.eqb (md_workspaceID (set_directory set)) (set_workspaceID set))) ErrInvalidPolicySet;;
  validateInput input;;
  let decide (effect : Effect) (reason : Reason) : result error Decision :=
    Ok (Dec true (set_version set) (deriveInputDigest input) effect reason) in
  let target := in_Target input in
  if negb (String.eqb (tg_workspaceID target) (set_workspaceID set)) then decide EffectDeny ReasonCrossWorkspace
  else if actionReserved (in_Action input) target then decide EffectDeny ReasonReservedAction
  else match member_of (set_directory set) (in_Principal input) with
  | None => decide EffectDeny ReasonNoMembership
  | Some member =>
      if bool_decide (in_Action input = ActionMembershipGet) && bool_decide (tg_objectKind target = ObjectKindMembership)
         && String.eqb (tg_objectID target) (m_id member)
      then decide EffectAllow ReasonRoleGranted
      else match set_bindings set !! m_id member with
      | None => decide EffectDeny ReasonNoRoleBinding
      | Some compiled =>
          if cb_all compiled =? 0 then decide EffectDeny ReasonNoRoleBinding else
          let roles := match tg_environmentID target with
                       | Some e => Z.lor (cb_workspace compiled) (default 0 (cb_environments compiled !! e))
                       | None => cb_workspace compiled
                       end in
          if roles =? 0 then decide EffectDeny ReasonScopeNotGranted
          else if existsb (fun role => roleAllows role (in_Action input) target) (roleMask_roles roles)
          then decide EffectAllow ReasonRoleGranted
          else decide EffectDeny ReasonActionNotGranted
      end
  end.

Definition validateDecisionFields (d : Decision) : result error unit :=
  fail_if (negb (de_initialized d)) ErrInvalidDecision;;
  fail_if (negb (is_some (ParsePolicyVersion (formatDigest PolicyVersionPrefix (de_policyVersion d)))))
    (ErrWrap ErrInvalidDecision ErrInvalidPolicyVersion);;
  fail_if (negb (is_some (ParseInputDigest (formatDigest InputDigestPrefix (de_inputDigest d)))))
    (ErrWrap ErrInvalidDecision ErrInvalidInputDigest);;
  match de_effect d, de_reason d with
  | EffectAllow, ReasonRoleGranted => Ok tt
  | EffectDeny, (ReasonCrossWorkspace | ReasonReservedAction | ReasonNoMembership | ReasonNoRoleBinding
                 | ReasonScopeNotGranted | ReasonActionNotGranted) => Ok tt
  | _, _ => Err ErrInvalidDecision
  end.
End Identities.
