(* ===== verification/Receipt.v ===== *)
(** * The canonical form of a decision (authorization/canonical.go)

    [ValidateDecision] checks the fields of a decision and the size of its
    canonical JSON, which [MarshalCanonical] emits.  The text determines the
    decision, and a decision whose fields are valid is never too large. *)

From S2P Require Import Prelude Bytes Sha256 Closed Json Digests Identity AuthzVocabulary Authorization.
From Stdlib Require Import String.

Record decisionWire := DW {
  dw_ContractVersion : string;
  dw_PolicyVersion : string;
  dw_InputDigest : string;
  dw_Effect : Effect;
  dw_Reason : Reason;
}.

(** The members of the wire struct, by its tags. *)
Definition wire_json (wire : decisionWire) : json :=
  JObject [("contractVersion", JString (dw_ContractVersion wire)); ("policyVersion", JString (dw_PolicyVersion wire));
           ("inputDigest", JString (dw_InputDigest wire)); ("effect", JString (Effect_String (dw_Effect wire)));
           ("reason", JString (Reason_String (dw_Reason wire)))].

(** All strings of a valid decision are ASCII, so that encoding does not fail. *)
Definition encodeDecision (d : Decision) : string :=
  print (wire_json (DW authorization_ContractVersion (formatDigest PolicyVersionPrefix (de_policyVersion d))
                       (formatDigest InputDigestPrefix (de_inputDigest d)) (de_effect d) (de_reason d))).

Definition ValidateDecision (d : Decision) : result error unit :=
  validateDecisionFields d;;
  fail_if (MaxDecisionBytes <? slen (encodeDecision d)) (ErrWrap ErrInvalidDecision ErrDecisionTooLarge).

Definition MarshalCanonical (d : Decision) : result error string :=
  validateDecisionFields d;;
  fail_if (MaxDecisionBytes <? slen (encodeDecision d)) ErrDecisionTooLarge;;
  Ok (encodeDecision d).

(** ** Valid fields *)

Record fields_valid (d : Decision) : Prop := {
  fv_initialized : de_initialized d = true;
  fv_policy : dv_initialized (de_policyVersion d) = true /\ digest_wf (de_policyVersion d);
  fv_input : dv_initialized (de_inputDigest d) = true /\ digest_wf (de_inputDigest d);
  fv_effect : Effect_known (de_effect d) = true;
  fv_reason : Reason_known (de_reason d) = true;
}.

Lemma parsed_iff prefix d :
  is_some (match parseDigest prefix (formatDigest prefix d) with Ok x => Some x | Err _ => None end) = true <->
  dv_initialized d = true /\ digest_wf d.
Proof.
  destruct (parseDigest prefix (formatDigest prefix d)) as [x|e] eqn:E; simpl.
  - apply parseDigest_iff in E as (Hi & Hw & E). split; [intros _|done].
    unfold formatDigest in E. rewrite Hi in E. destruct (dv_initialized d) eqn:Hd.
    + apply string_app_inj_l in E. apply b64_encode_inj in E. unfold digest_wf. by rewrite E.
    + apply string_app_inj_l in E. exfalso. apply (f_equal slen) in E. rewrite (b64_encode_length (dv_digest x)) in E.
      unfold digest_wf, sha256_size in Hw. rewrite Hw in E. vm_compute in E. discriminate E.
  - split; [done|]. intros [Hi Hw].
    assert (parseDigest prefix (formatDigest prefix d) = Ok d) as E' by (by apply parseDigest_iff). congruence.
Qed.

Lemma validateDecisionFields_facts d : validateDecisionFields d = Ok tt -> fields_valid d.
Proof.
  unfold validateDecisionFields, ParsePolicyVersion, ParseInputDigest. intros E. run_inv E.
  autorewrite with guards in *. rewrite parsed_iff in *.
  split; try done; destruct (de_effect d), (de_reason d); done.
Qed.

(** ** The size limit is never reached *)

Lemma formatDigest_length prefix d : dv_initialized d = true -> digest_wf d -> slen (formatDigest prefix d) = slen prefix + 43.
Proof.
  intros Hi Hw. unfold formatDigest. rewrite Hi, slen_app, b64_encode_length, Hw. done.
Qed.

(** Evaluates the lengths of the closed strings of the goal. *)
Ltac closed_lengths X Y :=
  repeat match goal with |- context [slen ?s] =>
    lazymatch s with X => fail | Y => fail | _ => let n := eval vm_compute in (slen s) in change (slen s) with n end end.

Lemma encodeDecision_fits d : fields_valid d -> slen (encodeDecision d) <= MaxDecisionBytes.
Proof.
  intros [_ [Hpi Hpw] [Hii Hiw] He Hr].
  pose proof (quote_length (formatDigest PolicyVersionPrefix (de_policyVersion d))) as Qp.
  pose proof (quote_length (formatDigest InputDigestPrefix (de_inputDigest d))) as Qi.
  rewrite formatDigest_length in Qp, Qi by done.
  unfold encodeDecision, wire_json, MaxDecisionBytes. cbn [dw_ContractVersion dw_PolicyVersion dw_InputDigest dw_Effect dw_Reason print].
  revert Qp Qi. generalize (quote (formatDigest PolicyVersionPrefix (de_policyVersion d))) as X.
  generalize (quote (formatDigest InputDigestPrefix (de_inputDigest d))) as Y. intros Y X Qp Qi.
  change (slen PolicyVersionPrefix) with 5 in Qp. change (slen InputDigestPrefix) with 5 in Qi.
  rewrite !slen_app. destruct (de_effect d), (de_reason d); try done; closed_lengths X Y; lia.
Qed.

Lemma ValidateDecision_iff d : ValidateDecision d = Ok tt <-> validateDecisionFields d = Ok tt.
Proof.
  unfold ValidateDecision. split.
  - intros E. apply bind_ok in E as ([] & E & _). done.
  - intros E. rewrite E. cbn [mbind result_bind]. apply fail_if_ok, Z.ltb_ge, encodeDecision_fits, validateDecisionFields_facts, E.
Qed.

Lemma MarshalCanonical_iff d s : MarshalCanonical d = Ok s <-> validateDecisionFields d = Ok tt /\ s = encodeDecision d.
Proof.
  unfold MarshalCanonical. split.
  - intros E. apply bind_ok in E as ([] & Hv & E). apply bind_ok in E as (? & _ & E). injection E as <-. done.
  - intros [E ->]. rewrite E. cbn [mbind result_bind].
    by rewrite (proj2 (Z.ltb_ge _ _) (encodeDecision_fits d (validateDecisionFields_facts d E))).
Qed.

(** The canonical text of a decision is its identity.  A decision is valid
    exactly when its fields are: at most 1024 bytes are ever written, so the
    size errors are unreachable.  [MarshalCanonical] succeeds exactly on those
    decisions, and two decisions with one text are the same decision - policy
    version, input digest, effect and reason. *)
Theorem decision_text_binds :
  (forall d, ValidateDecision d = Ok tt <-> validateDecisionFields d = Ok tt) /\
  (forall d s, MarshalCanonical d = Ok s <-> ValidateDecision d = Ok tt /\ s = encodeDecision d) /\
  (forall d s, MarshalCanonical d = Ok s -> slen s <= MaxDecisionBytes) /\
  (forall d e s, MarshalCanonical d = Ok s -> MarshalCanonical e = Ok s -> d = e).
Proof.
  split; [exact ValidateDecision_iff|]. split; [intros d s; by rewrite MarshalCanonical_iff, ValidateDecision_iff|].
  split; [intros d s [Hv ->]%MarshalCanonical_iff; by apply encodeDecision_fits, validateDecisionFields_facts|].
  intros d e s [Hd ->]%MarshalCanonical_iff [He E]%MarshalCanonical_iff.
  apply validateDecisionFields_facts in Hd as [Id [Pd _] [Nd _] Ed Rd].
  apply validateDecisionFields_facts in He as [Ie [Pe _] [Ne _] Ee Re].
  apply print_inj in E; [|repeat split..]. unfold wire_json in E. cbn [dw_ContractVersion dw_PolicyVersion dw_InputDigest dw_Effect dw_Reason] in E.
  injection E as Ep Ei Eef Er. apply formatDigest_inj in Ep; [|done..]. apply formatDigest_inj in Ei; [|done..].
  assert (de_effect d = de_effect e) by (by apply (spelled_inj (T:=Effect))).
  assert (de_reason d = de_reason e) by (by apply (spelled_inj (T:=Reason))).
  destruct d, e. simpl in *. congruence.
Qed.

Definition receipt : Decision :=
  Dec true (DV true "0123456789abcdef0123456789abcdef") (DV true "fedcba9876543210fedcba9876543210") EffectDeny ReasonNoMembership.

Lemma decision_text_binds_witness :
  MarshalCanonical receipt = Ok (encodeDecision receipt) /\
  forall e, MarshalCanonical e = Ok (encodeDecision receipt) -> e = receipt.
Proof.
  destruct decision_text_binds as (_ & _ & _ & H).
  assert (MarshalCanonical receipt = Ok (encodeDecision receipt)) as Hm by (vm_compute; reflexivity).
  split; [exact Hm|]. intros e He. symmetry. exact (H receipt e _ Hm He).
Defined.
