(* ===== verification/AuthorizationProps.v ===== *)
(** * Members and compiled bindings

    Role masks and compiled bindings, canonical member directories and the sets
    they are built from. *)

From stdpp Require Import sorting.
From S2P Require Import Prelude StringOrder Bytes Sha256 GoTime Closed Vocabulary Digests Hierarchy HierarchyProps.
From S2P Require Import Identity AuthzVocabulary Authorization.
From Stdlib Require Import String.

(** ** Role masks *)

Definition role_bit (role : Role) : option Z :=
  match role with
  | RoleViewer => Some 0
  | RoleDeveloper => Some 1
  | RoleOperator => Some 2
  | RoleWorkspaceAdministrator => Some 3
  | RoleOther _ => None
  end.

Definition has_role (mask : Z) (role : Role) : bool :=
  match role_bit role with Some n => Z.testbit mask n | None => false end.

Lemma land_pow2 m n : 0 <= n -> (Z.land m (2 ^ n) =? 0) = negb (Z.testbit m n).
Proof.
  intros Hn. destruct (Z.testbit m n) eqn:E; simpl.
  - apply Z.eqb_neq. intros H. apply (f_equal (fun x => Z.testbit x n)) in H.
    rewrite Z.land_spec, Z.pow2_bits_true, Z.bits_0, E in H by done. done.
  - apply Z.eqb_eq, Z.bits_inj'. intros k Hk. rewrite Z.land_spec, Z.bits_0.
    destruct (decide (k = n)) as [->|Hne]; [by rewrite E|].
    rewrite Z.pow2_bits_false by done. apply andb_false_r.
Qed.

Lemma mask_has_role mask role : negb (Z.land mask (maskForRole role) =? 0) = has_role mask role.
Proof.
  destruct role; unfold has_role; simpl role_bit; cbv iota.
  - change (maskForRole RoleViewer) with (2 ^ 0). by rewrite land_pow2, negb_involutive.
  - change (maskForRole RoleDeveloper) with (2 ^ 1). by rewrite land_pow2, negb_involutive.
  - change (maskForRole RoleOperator) with (2 ^ 2). by rewrite land_pow2, negb_involutive.
  - change (maskForRole RoleWorkspaceAdministrator) with (2 ^ 3). by rewrite land_pow2, negb_involutive.
  - simpl. by rewrite Z.land_0_r.
Qed.

Lemma roleMask_roles_elem mask role : role ∈ roleMask_roles mask <-> has_role mask role = true.
Proof.
  unfold roleMask_roles. rewrite list_elem_of_In, filter_In, mask_has_role, <- list_elem_of_In. split; [by intros [_ ?]|].
  intros H. split; [|done]. destruct role; first [done | by repeat constructor].
Qed.

Lemma has_role_lor m k role : has_role (Z.lor m k) role = has_role m role || has_role k role.
Proof. unfold has_role. destruct (role_bit role); [apply Z.lor_spec | done]. Qed.

Lemma has_role_mask r role : has_role (maskForRole r) role = bool_decide (r = role) && is_some (role_bit role).
Proof. destruct r, role; try reflexivity; simpl; by case_bool_decide. Qed.

Lemma has_role_0 role : has_role 0 role = false.
Proof. unfold has_role. destruct (role_bit role); [apply Z.bits_0 | done]. Qed.

Lemma has_role_nonzero mask role : has_role mask role = true -> mask <> 0.
Proof. intros H ->. by rewrite has_role_0 in H. Qed.

Lemma roleAllows_known role action target : roleAllows role action target = true -> is_some (role_bit role) = true.
Proof. by destruct role. Qed.

(** ** The compiled bindings *)

(** The three masks of a member are the unions of its bindings of each scope. *)
Definition binds (id : ID) (in_scope : Scope -> bool) (role : Role) (bs : list RoleBinding) : bool :=
  existsb (fun b => String.eqb (rb_MemberID b) id && in_scope (rb_Scope b) && has_role (maskForRole (rb_Role b)) role) bs.

Definition any_scope (_ : Scope) : bool := true.
Definition workspace_scope (s : Scope) : bool := bool_decide (sc_Kind s = ScopeKindWorkspace).
Definition environment_scope (e : ID) (s : Scope) : bool :=
  bool_decide (sc_Kind s = ScopeKindEnvironment) && bool_decide (sc_EnvironmentID s = Some e).

Definition compiled_of (bs : list RoleBinding) (id : ID) : compiledMemberBindings :=
  default no_bindings (foldl compile_one ∅ bs !! id).

Definition environment_mask (c : compiledMemberBindings) (e : ID) : Z := default 0 (cb_environments c !! e).

Lemma compiled_snoc bs b id :
  compiled_of (bs ++ [b]) id =
    if String.eqb (rb_MemberID b) id then compile_binding (compiled_of bs id) b else compiled_of bs id.
Proof.
  unfold compiled_of. rewrite foldl_app. simpl. unfold compile_one at 1.
  destruct (String.eqb_spec (rb_MemberID b) id) as [->|Hne]; [by rewrite lookup_insert_eq | by rewrite lookup_insert_ne].
Qed.

Lemma binds_snoc id sc role bs b :
  binds id sc role (bs ++ [b]) =
    binds id sc role bs || (String.eqb (rb_MemberID b) id && sc (rb_Scope b) && has_role (maskForRole (rb_Role b)) role).
Proof. unfold binds. rewrite existsb_app. simpl. by rewrite orb_false_r. Qed.

Lemma compile_binding_masks c b role e :
  has_role (cb_all (compile_binding c b)) role = has_role (cb_all c) role || has_role (maskForRole (rb_Role b)) role /\
  has_role (cb_workspace (compile_binding c b)) role
    = has_role (cb_workspace c) role || (workspace_scope (rb_Scope b) && has_role (maskForRole (rb_Role b)) role) /\
  has_role (environment_mask (compile_binding c b) e) role
    = has_role (environment_mask c e) role || (environment_scope e (rb_Scope b) && has_role (maskForRole (rb_Role b)) role).
Proof.
  unfold compile_binding, environment_mask, workspace_scope, environment_scope.
  destruct (rb_Scope b) as [kind env]. simpl.
  destruct kind, env as [e'|]; simpl; rewrite ?has_role_lor, ?orb_false_r; try done.
  split; [done|]. split; [done|]. destruct (decide (e' = e)) as [->|Hne].
  - rewrite lookup_insert_eq. simpl. by rewrite has_role_lor, bool_decide_eq_true_2.
  - rewrite lookup_insert_ne by done. rewrite bool_decide_eq_false_2 by congruence. by rewrite orb_false_r.
Qed.

Lemma compiled_masks bs id role e :
  has_role (cb_all (compiled_of bs id)) role = binds id any_scope role bs /\
  has_role (cb_workspace (compiled_of bs id)) role = binds id workspace_scope role bs /\
  has_role (environment_mask (compiled_of bs id) e) role = binds id (environment_scope e) role bs.
Proof.
  induction bs as [|b bs IH] using rev_ind.
  - unfold compiled_of, environment_mask. simpl. rewrite lookup_empty. simpl. by rewrite !has_role_0.
  - rewrite compiled_snoc, !binds_snoc. destruct IH as (<- & <- & <-).
    destruct (String.eqb (rb_MemberID b) id); simpl; [apply compile_binding_masks | by rewrite !orb_false_r].
Qed.

(** A scope covers a target when it is the workspace or the target's own
    environment. *)
Definition covers (s : Scope) (t : Target) : bool :=
  workspace_scope s || match tg_environmentID t with Some e => environment_scope e s | None => false end.

(** The evaluator's look-up of roles, on one member's compiled bindings. *)
Definition roles_at (c : compiledMemberBindings) (t : Target) : Z :=
  match tg_environmentID t with
  | Some e => Z.lor (cb_workspace c) (environment_mask c e)
  | None => cb_workspace c
  end.

Lemma binds_or id s1 s2 role bs :
  binds id (fun s => s1 s || s2 s) role bs = binds id s1 role bs || binds id s2 role bs.
Proof.
  unfold binds. induction bs as [|b bs IH]; [done|]. cbn [existsb]. rewrite IH.
  destruct (String.eqb _ _), (s1 (rb_Scope b)), (s2 (rb_Scope b)), (has_role (maskForRole (rb_Role b)) role);
    simpl; rewrite ?orb_true_r; done.
Qed.

Lemma roles_at_spec bs id role t :
  has_role (roles_at (compiled_of bs id) t) role = binds id (fun s => covers s t) role bs.
Proof.
  unfold roles_at, covers. destruct (compiled_masks bs id role (default "" (tg_environmentID t))) as (_ & Hw & He).
  destruct (tg_environmentID t) as [e|]; simpl in *.
  - by rewrite has_role_lor, Hw, He, binds_or.
  - rewrite Hw. unfold binds. clear Hw He. induction bs as [|b bs IH]; [done|]. cbn [existsb].
    by rewrite IH, orb_false_r.
Qed.

(** ** Member directories *)

(** A map with as many entries as distinct keys that it holds has no other. *)
Lemma dom_exact {A} `{Countable K} (m : gmap K A) (keys : list K) :
  NoDup keys -> (forall k, k ∈ keys -> is_Some (m !! k)) -> size m = List.length keys ->
  forall k, is_Some (m !! k) <-> k ∈ keys.
Proof.
  intros Hnd Hin Hsize.
  assert ((list_to_set keys : gset K) ≡ dom m) as Heq.
  { apply set_subseteq_size_equiv.
    - intros k Hk. apply elem_of_dom, Hin. by apply elem_of_list_to_set in Hk.
    - rewrite size_dom, size_list_to_set by done. lia. }
  intros k. rewrite <- elem_of_dom, <- Heq, elem_of_list_to_set. done.
Qed.

Lemma size_exact {A} `{Countable K} (m : gmap K A) (keys : list K) :
  NoDup keys -> (forall k, is_Some (m !! k) <-> k ∈ keys) -> size m = List.length keys.
Proof.
  intros Hnd Hk. rewrite <- (size_dom (D := gset K)), <- (size_list_to_set (C := gset K) keys) by done.
  apply set_size_proper. intros k. by rewrite elem_of_dom, elem_of_list_to_set, Hk.
Qed.

(** Inserting the elements of a list at distinct keys. *)
Definition insert_all {A V} `{Countable K} (key : A -> K) (val : A -> V) (l : list A) (m : gmap K V) : gmap K V :=
  foldl (fun acc a => <[key a := val a]> acc) m l.

Lemma insert_all_lookup {A V} `{Countable K} (key : A -> K) (val : A -> V) l : forall (m : gmap K V) k v,
  NoDup (key <$> l) ->
  insert_all key val l m !! k = Some v <->
  (exists a, a ∈ l /\ key a = k /\ val a = v) \/ (k ∉ key <$> l /\ m !! k = Some v).
Proof.
  induction l as [|a l IH]; intros m k v Hnd.
  - simpl. split; [intros ?; right; split; [apply not_elem_of_nil | done] | intros [(? & []%elem_of_nil & _)|[_ ?]]; done].
  - rewrite fmap_cons, NoDup_cons in Hnd. destruct Hnd as [Hn Hnd]. change (insert_all key val (a :: l) m) with (insert_all key val l (<[key a := val a]> m)). rewrite IH by done.
    rewrite fmap_cons, not_elem_of_cons. setoid_rewrite (elem_of_cons l). split.
    + intros [(b & Hb & <- & <-)|[Hk Hl]]; [left; exists b; auto|].
      destruct (decide (key a = k)) as [E|Hne]; [subst k; rewrite lookup_insert_eq in Hl; naive_solver|].
      rewrite lookup_insert_ne in Hl by done. naive_solver.
    + intros [(b & [->|Hb] & <- & <-)|[[Hk1 Hk] Hl]]; [| left; exists b; auto |].
      * right. split; [done | apply lookup_insert_eq].
      * right. split; [done|]. rewrite lookup_insert_ne by congruence. done.
Qed.

(** Sorting by distinct keys. *)
Lemma sort_by_increasing {A} (key : A -> string) (l : list A) :
  NoDup (key <$> l) -> increasing (key <$> merge_sort (by_key key) l) = true.
Proof.
  intros Hnd. apply increasing_sorted.
  assert (StronglySorted (by_key key) (merge_sort (by_key key) l)) as Hs.
  { apply StronglySorted_merge_sort; unfold by_key; [intros x y z ??; by transitivity (key y) | intros x y; apply total, _]. }
  rewrite <- (merge_sort_Permutation (by_key key) l) in Hnd. revert Hnd.
  induction Hs as [|x k Hs IH Hf]; simpl; [constructor|]. rewrite NoDup_cons. intros [Hx Hnd].
  constructor; [auto|]. apply Forall_fmap. apply Forall_forall. intros y Hy. simpl. apply string_le_lt.
  - rewrite Forall_forall in Hf. by apply Hf.
  - intros E. apply Hx. rewrite E. by apply list_elem_of_fmap_2.
Qed.

Section Authorizing.
Context `{RequestURIs}.

Definition key_of (m : MemberRecord) : memberIdentityKey := memberKey (m_kind m) (m_logicalIdentity m).

Record directory_ok (d : MemberDirectory) : Prop := {
  do_init : md_initialized d = true;
  do_workspace : validID (md_workspaceID d) = true;
  do_bounded : llen (md_ordered d) <= MaxMembers;
  do_valid : Forall (fun m => validateMemberRecord m = true /\ m_workspaceID m = md_workspaceID d) (md_ordered d);
  do_sorted : increasing (m_id <$> md_ordered d) = true;
  do_byID : forall id m, md_byID d !! id = Some m <-> m ∈ md_ordered d /\ m_id m = id;
  do_byIdentity : forall k id, md_byIdentity d !! k = Some id <-> exists m, m ∈ md_ordered d /\ key_of m = k /\ m_id m = id;
}.

Lemma validateMemberRecord_facts m : validateMemberRecord m = true ->
  m_initialized m = true /\ validID (m_id m) = true /\ validID (m_workspaceID m) = true /\
  validKind (m_kind m) = true /\ ValidateLogicalIdentity (m_logicalIdentity m) = Ok tt.
Proof.
  unfold validateMemberRecord. rewrite !andb_true_iff, result_ok_true.
  intros ((((? & ?) & ?) & ?) & [[] ?]). done.
Qed.

Lemma equalMemberRecord_ok l r : equalMemberRecord l r = true -> l = r.
Proof.
  unfold equalMemberRecord. rewrite !andb_true_iff, !String.eqb_eq, bool_decide_eq_true, EqualLogicalIdentity_ok.
  intros (((((? & ?) & ?) & ?) & ?) & _ & ?). destruct l, r. simpl in *. congruence.
Qed.

Lemma equalMemberRecord_refl m : validateMemberRecord m = true -> equalMemberRecord m m = true.
Proof.
  intros Hv. apply validateMemberRecord_facts in Hv as (Hi & _ & _ & _ & Hl). unfold equalMemberRecord.
  rewrite Hi, !String.eqb_refl, bool_decide_eq_true_2 by done. simpl. by apply EqualLogicalIdentity_ok.
Qed.

Lemma ids_distinct (ms : list MemberRecord) a b :
  NoDup (m_id <$> ms) -> a ∈ ms -> b ∈ ms -> m_id a = m_id b -> a = b.
Proof.
  intros Hnd Ha Hb E. apply list_elem_of_lookup in Ha as [i Ha], Hb as [j Hb].
  assert (i = j) as ->.
  { eapply NoDup_lookup; [exact Hnd| |]; rewrite list_lookup_fmap; [rewrite Ha; done | rewrite Hb, E; done]. }
  congruence.
Qed.

Lemma ValidateMemberDirectory_ok d : ValidateMemberDirectory d = true <-> directory_ok d.
Proof.
  unfold ValidateMemberDirectory. rewrite !andb_true_iff, !Z.eqb_eq, Z.leb_le, forallb_forall.
  setoid_rewrite <- list_elem_of_In. split.
  - intros ((((((Hi & Hw) & Hs1) & Hs2) & Hn) & Hall) & Hinc).
    assert (NoDup (m_id <$> md_ordered d)) as Hnd by by apply sorted_lt_nodup, increasing_sorted.
    assert (forall m, m ∈ md_ordered d -> validateMemberRecord m = true /\ m_workspaceID m = md_workspaceID d /\
      md_byID d !! m_id m = Some m /\ md_byIdentity d !! key_of m = Some (m_id m)) as Hm.
    { intros m Hin. specialize (Hall m Hin). rewrite !andb_true_iff, String.eqb_eq, bool_decide_eq_true in Hall.
      destruct Hall as (((Hv & Hws) & Heq) & Hk). destruct (md_byID d !! m_id m) as [m'|]; [|done].
      apply equalMemberRecord_ok in Heq as ->. done. }
    assert (NoDup (key_of <$> md_ordered d)) as Hndk.
    { apply NoDup_fmap_2_strong; [|by eapply NoDup_fmap_1].
      intros a b Ha Hb E. apply Hm in Ha as Ha', Hb as Hb'. destruct Ha' as (_ & _ & _ & Ha'), Hb' as (_ & _ & _ & Hb').
      rewrite E in Ha'. apply (ids_distinct (md_ordered d)); congruence. }
    split; try done.
    + apply Forall_forall. intros m Hin. apply Hm in Hin as (? & ? & _). done.
    + intros id m. split.
      * intros Hl.
        pose proof (dom_exact (md_byID d) (m_id <$> md_ordered d) Hnd) as Hd.
        assert (id ∈ m_id <$> md_ordered d) as Hin.
        { apply Hd; [|rewrite length_fmap; lia|by eexists].
          intros k (m' & -> & Hin)%list_elem_of_fmap. apply Hm in Hin as (_ & _ & -> & _). by eexists. }
        apply list_elem_of_fmap in Hin as (m' & -> & Hin). pose proof (Hm m' Hin) as (_ & _ & Hl' & _).
        split; congruence.
      * intros [Hin <-]. by apply Hm.
    + intros k id. split.
      * intros Hl.
        pose proof (dom_exact (md_byIdentity d) (key_of <$> md_ordered d) Hndk) as Hd.
        assert (k ∈ key_of <$> md_ordered d) as Hin.
        { apply Hd; [|rewrite length_fmap; lia|by eexists].
          intros k' (m' & -> & Hin)%list_elem_of_fmap. apply Hm in Hin as (_ & _ & _ & ->). by eexists. }
        apply list_elem_of_fmap in Hin as (m' & -> & Hin). pose proof (Hm m' Hin) as (_ & _ & _ & Hl').
        exists m'. split; [done|]. split; [done | congruence].
      * intros (m & Hin & <- & <-). by apply Hm.
  - intros [Hi Hw Hbnd Hv Hs H1 H2].
    assert (NoDup (m_id <$> md_ordered d)) as Hnd by by apply sorted_lt_nodup, increasing_sorted.
    assert (NoDup (key_of <$> md_ordered d)) as Hndk.
    { apply NoDup_fmap_2_strong; [|by eapply NoDup_fmap_1]. intros a b Ha Hb E.
      assert (md_byIdentity d !! key_of a = Some (m_id a)) as Ea by (apply H2; eauto).
      assert (md_byIdentity d !! key_of a = Some (m_id b)) as Eb by (apply H2; rewrite E; eauto).
      apply (ids_distinct (md_ordered d)); congruence. }
    rewrite (size_exact (md_byID d) (m_id <$> md_ordered d)), (size_exact (md_byIdentity d) (key_of <$> md_ordered d)),
      !length_fmap; try done.
    + repeat split; try done. intros m Hin. rewrite Forall_forall in Hv. destruct (Hv m Hin) as [Hmv Hmw].
      rewrite Hmv, Hmw, String.eqb_refl, (proj2 (H1 (m_id m) m)), (equalMemberRecord_refl m Hmv) by done. simpl.
      apply bool_decide_eq_true, H2. eauto.
    + intros k. rewrite list_elem_of_fmap. split.
      * intros [id (m & ? & ? & ?)%H2]. eauto.
      * intros (m & -> & Hin). exists (m_id m). apply H2. eauto.
    + intros id. rewrite list_elem_of_fmap. split.
      * intros [m [Hin <-]%H1]. eauto.
      * intros (m & -> & Hin). exists m. by apply H1.
Qed.

(** ** Building a directory *)

Definition member_in (ws : ID) (m : MemberRecord) : Prop := validateMemberRecord m = true /\ m_workspaceID m = ws.

(** The members a directory can be built from. *)
Definition members_ok (ws : ID) (ms : list MemberRecord) : Prop :=
  Forall (member_in ws) ms /\ NoDup (m_id <$> ms) /\ NoDup (key_of <$> ms).

Lemma index_members_ok ws ms : forall byID byIdentity out,
  index_members ws ms byID byIdentity = Ok out <->
  members_ok ws ms /\
  Forall (fun m => byID !! m_id m = None /\ byIdentity !! key_of m = None) ms /\
  out = (insert_all m_id id ms byID, insert_all key_of m_id ms byIdentity).
Proof.
  induction ms as [|m ms IH]; intros byID byIdentity out; simpl.
  - unfold members_ok. split; [intros [= <-]|intros (_ & _ & ->); done].
    split; [|done]. repeat split; constructor.
  - assert (forall x e u, fail_if x (e : error) = Ok u -> x = false) as Hf by (intros ???; apply fail_if_ok).
    split.
    + intros E. repeat (apply bind_ok in E as (? & ?%Hf & E)). apply IH in E as ((HF & Hi & Hk) & Hfree & ->).
      autorewrite with guards in *. rewrite Forall_forall in Hfree.
      split; [|split; [|done]].
      * split; [by constructor|]. split; (constructor; [|done]); intros (a & Ea & Ha)%list_elem_of_fmap;
          specialize (Hfree a Ha) as [H1' H2'];
          [rewrite <- Ea in H1'; by rewrite lookup_insert_eq in H1'
          | rewrite <- Ea in H2'; unfold key_of in H2'; by rewrite lookup_insert_eq in H2'].
      * constructor; [split; [destruct (byID !! m_id m) | unfold key_of; destruct (byIdentity !! _)]; done|].
        apply Forall_forall. intros a Ha. specialize (Hfree a Ha) as [H1' H2'].
        apply lookup_insert_None in H1', H2'. tauto.
    + intros ((HF & Hi & Hk) & Hfree & ->). apply NoDup_cons in Hi as [Hi1 Hi], Hk as [Hk1 Hk].
      inversion HF as [|?? [Hv Hw] HF']; subst. inversion Hfree as [|?? [E1 E2] Hfree']; subst.
      rewrite Hv, E1, String.eqb_refl. unfold key_of in E2. rewrite E2. simpl.
      apply IH. split; [done|]. split; [|done]. rewrite Forall_forall in *. intros a Ha.
      destruct (Hfree' a Ha) as [? ?]. split; rewrite lookup_insert_ne; try done; intros E.
      * apply Hi1. rewrite E. by apply list_elem_of_fmap_2.
      * apply Hk1. unfold key_of at 1. rewrite E. by apply (list_elem_of_fmap_2 key_of).
Qed.

Lemma directory_unique d1 d2 :
  directory_ok d1 -> directory_ok d2 -> md_workspaceID d1 = md_workspaceID d2 -> md_ordered d1 = md_ordered d2 -> d1 = d2.
Proof.
  intros [Hi1 _ _ _ _ Ha1 Hb1] [Hi2 _ _ _ _ Ha2 Hb2] Hw Ho.
  assert (md_byID d1 = md_byID d2) as E1.
  { apply map_eq. intros i. apply option_eq. intros m. by rewrite Ha1, Ha2, Ho. }
  assert (md_byIdentity d1 = md_byIdentity d2) as E2.
  { apply map_eq. intros i. apply option_eq. intros m. by rewrite Hb1, Hb2, Ho. }
  destruct d1, d2. simpl in *. congruence.
Qed.

Lemma directory_members d : directory_ok d -> members_ok (md_workspaceID d) (md_ordered d).
Proof.
  intros [_ _ _ Hv Hs _ H2]. split; [done|].
  assert (NoDup (m_id <$> md_ordered d)) as Hnd by by apply sorted_lt_nodup, increasing_sorted.
  split; [done|]. apply NoDup_fmap_2_strong; [|by eapply NoDup_fmap_1]. intros a b Ha Hb E.
  assert (md_byIdentity d !! key_of a = Some (m_id a)) as Ea by (apply H2; eauto).
  assert (md_byIdentity d !! key_of a = Some (m_id b)) as Eb by (apply H2; rewrite E; eauto).
  apply (ids_distinct (md_ordered d)); congruence.
Qed.

Lemma members_ok_perm ws ms ks : ms ≡ₚ ks -> members_ok ws ms -> members_ok ws ks.
Proof. intros E (H1 & H2 & H3). unfold members_ok. rewrite <- E. done. Qed.

Lemma NewMemberDirectory_built ws ms : validID ws = true -> llen ms <= MaxMembers -> members_ok ws ms ->
  exists d, NewMemberDirectory ws ms = Ok d /\ directory_ok d /\ md_workspaceID d = ws /\ md_ordered d ≡ₚ ms.
Proof.
  intros Hw Hn Hms. pose proof Hms as (HF & Hi & Hk).
  assert (index_members ws ms ∅ ∅ = Ok (insert_all m_id id ms ∅, insert_all key_of m_id ms ∅)) as E.
  { apply index_members_ok. split; [done|]. split; [|done]. apply Forall_forall. intros. by rewrite !lookup_empty. }
  eexists. unfold NewMemberDirectory. rewrite Hw, E.
  assert (MaxMembers <? llen ms = false) as -> by by apply Z.ltb_ge.
  split; [reflexivity|]. pose proof (merge_sort_Permutation (by_key m_id) ms) as Hp. split; [|done].
  split; simpl; try done.
  - by rewrite Hp.
  - by rewrite Hp.
  - apply sort_by_increasing. done.
  - intros i m. rewrite insert_all_lookup, lookup_empty by done. unfold id. setoid_rewrite Hp. naive_solver.
  - intros k i. rewrite insert_all_lookup, lookup_empty by done. setoid_rewrite Hp. naive_solver.
Qed.

(** The directories [NewMemberDirectory] makes are the valid ones of the same
    members. *)
Lemma NewMemberDirectory_ok ws ms d :
  NewMemberDirectory ws ms = Ok d <-> directory_ok d /\ md_workspaceID d = ws /\ md_ordered d ≡ₚ ms.
Proof.
  split.
  - intros E. pose proof E as E'. unfold NewMemberDirectory in E'. run_inv E'. destruct x1. autorewrite with guards in *.
    apply index_members_ok in Hr1 as (Hms & _ & _).
    destruct (NewMemberDirectory_built ws ms) as (d' & E2 & ?); [done..|]. rewrite E in E2. by injection E2 as <-.
  - intros (Hd & <- & Hp).
    destruct (NewMemberDirectory_built (md_workspaceID d) ms) as (d' & E & Hd' & Hw' & Hp').
    + apply Hd.
    + rewrite <- Hp. apply Hd.
    + eapply members_ok_perm; [done|]. by apply directory_members.
    + rewrite E. f_equal. symmetry. apply directory_unique; [done..|].
      apply (sorted_key_unique m_id); [apply Hd|apply Hd'|by rewrite Hp, Hp'].
Qed.

Lemma member_of_ok d p m : directory_ok d -> ValidateLogicalIdentity (pr_logicalIdentity p) = Ok tt ->
  member_of d p = Some m <->
  m ∈ md_ordered d /\ m_kind m = pr_kind p /\ m_logicalIdentity m = pr_logicalIdentity p.
Proof.
  intros Hd Hp. unfold member_of. split.
  - intros E. apply bind_Some in E as (i & E1 & E). apply bind_Some in E as (m' & E2 & E).
    case_match eqn:G; [|done]. injection E as <-.
    apply andb_true_iff in G as [Hk%bool_decide_eq_true [_ Hl]%EqualLogicalIdentity_ok].
    apply Hd in E2 as [? _]. done.
  - intros (Hin & Hk & Hl).
    assert (md_byIdentity d !! memberKey (pr_kind p) (pr_logicalIdentity p) = Some (m_id m)) as ->.
    { apply Hd. exists m. split; [done|]. split; [|done]. unfold key_of. by rewrite Hk, Hl. }
    simpl. assert (md_byID d !! m_id m = Some m) as -> by by apply Hd.
    simpl. rewrite bool_decide_eq_true_2 by done. simpl.
    rewrite (proj2 (EqualLogicalIdentity_ok _ _)); [done|]. by rewrite Hl.
Qed.
End Authorizing.
