(* ===== verification/DecisionProps.v ===== *)
(** * Properties of authorization decisions

    The evaluator of a compiled policy set gives the decision and the reason of
    a reference evaluator that reads the raw policies; policy sets are valid
    and do not depend on the order of their inputs; a policy version stands for
    everything the evaluator reads. *)

From stdpp Require Import sorting.
From S2P Require Import Prelude StringOrder Bytes Sha256 GoTime Closed Vocabulary Digests Hierarchy HierarchyProps.
From S2P Require Import Identity Codes AuthzVocabulary Authorization Receipt AuthorizationProps.
From Stdlib Require Import String.

(** ** Masks of known roles *)

(** A role mask has bits for the four roles only. *)
Definition role_mask (m : Z) : Prop := forall n, 4 <= n -> Z.testbit m n = false.

Lemma role_mask_role r : role_mask (maskForRole r).
Proof.
  intros n Hn. destruct r; simpl;
    rewrite ?Z.bits_0; try done;
    [change 1 with (2 ^ 0) | change 2 with (2 ^ 1) | change 4 with (2 ^ 2) | change 8 with (2 ^ 3)];
    apply Z.pow2_bits_false; lia.
Qed.

Lemma role_mask_0 : role_mask 0.
Proof. intros n _. apply Z.bits_0. Qed.

Lemma role_mask_lor m k : role_mask m -> role_mask k -> role_mask (Z.lor m k).
Proof. intros Hm Hk n Hn. by rewrite Z.lor_spec, Hm, Hk. Qed.

#[export] Hint Resolve role_mask_role role_mask_0 role_mask_lor : core.

Lemma role_mask_zero m : role_mask m -> m = 0 <-> forall role, has_role m role = false.
Proof.
  intros Hm. split; [intros -> ?; apply has_role_0|]. intros Hr. apply Z.bits_inj'. intros n Hn. rewrite Z.bits_0.
  destruct (decide (4 <= n)) as [?|Hlt]; [by apply Hm|].
  assert (n = 0 \/ n = 1 \/ n = 2 \/ n = 3) as [->|[->|[->| ->]]] by lia;
    [apply (Hr RoleViewer) | apply (Hr RoleDeveloper) | apply (Hr RoleOperator) | apply (Hr RoleWorkspaceAdministrator)].
Qed.

Lemma compile_binding_small c b :
  (role_mask (cb_all c) /\ forall t, role_mask (roles_at c t)) ->
  role_mask (cb_all (compile_binding c b)) /\ forall t, role_mask (roles_at (compile_binding c b) t).
Proof.
  intros [Ha Ht]. pose proof (Ht (Tg true ObjectKindAudit "" KindWorkspace "" "" None None)) as Hw. simpl in Hw.
  unfold compile_binding. destruct (rb_Scope b) as [kind env].
  assert (forall t, role_mask (cb_workspace c) -> role_mask (roles_at c t)) as Ht' by auto.
  destruct kind, env as [e|]; simpl; (split; [auto|]); intros t; specialize (Ht t); unfold roles_at, environment_mask in *;
    destruct (tg_environmentID t) as [e'|]; simpl in *; auto.
  - intros n Hn. specialize (Ht n Hn). rewrite !Z.lor_spec in *. apply orb_false_iff in Ht as [-> ->].
    by rewrite role_mask_role.
  - intros n Hn. specialize (Ht n Hn). rewrite !Z.lor_spec in *. apply orb_false_iff in Ht as [-> ->].
    by rewrite role_mask_role.
  - destruct (decide (e = e')) as [->|Hne]; [rewrite lookup_insert_eq | by rewrite lookup_insert_ne]. simpl.
    intros n Hn. specialize (Ht n Hn). rewrite !Z.lor_spec in *. apply orb_false_iff in Ht as [-> ->].
    by rewrite role_mask_role.
Qed.

Lemma compiled_small bs id :
  role_mask (cb_all (compiled_of bs id)) /\ forall t, role_mask (roles_at (compiled_of bs id) t).
Proof.
  induction bs as [|b bs IH] using rev_ind.
  - unfold compiled_of, roles_at, environment_mask. simpl. rewrite lookup_empty. simpl.
    split; [auto|]. intros t. case_match; auto.
  - rewrite compiled_snoc. case_match; [by apply compile_binding_small | done].
Qed.

(** [bound id p bs]: the member holds a binding with the property. *)
Definition bound (id : ID) (p : RoleBinding -> bool) (bs : list RoleBinding) : bool :=
  existsb (fun b => String.eqb (rb_MemberID b) id && p b) bs.

Definition roles_known (bs : list RoleBinding) : Prop := Forall (fun b => Role_known (rb_Role b) = true) bs.

Lemma known_bit role : Role_known role = is_some (role_bit role).
Proof. by destruct role. Qed.

(** With known roles, some role is held in a scope exactly when some binding
    has that scope. *)
Lemma binds_bound id sc bs : roles_known bs ->
  (forall role, binds id sc role bs = false) <-> bound id (fun b => sc (rb_Scope b)) bs = false.
Proof.
  intros Hk. unfold binds, bound. induction Hk as [|b bs Hb Hk IH]; [done|]. cbn [existsb]. setoid_rewrite orb_false_iff.
  rewrite <- IH. split.
  - intros Hall. split; [|intros role; apply (Hall role)]. destruct (Hall (rb_Role b)) as [Hr _]. rewrite has_role_mask in Hr.
    rewrite bool_decide_eq_true_2, <- known_bit, Hb in Hr by done. simpl in Hr. by rewrite andb_true_r in Hr.
  - intros [H1 H2] role. split; [by rewrite H1 | done].
Qed.

Lemma all_zero bs id : roles_known bs ->
  (cb_all (compiled_of bs id) =? 0) = negb (bound id (fun _ => true) bs).
Proof.
  intros Hk. apply eq_bool_prop_intro. rewrite !Is_true_true, Z.eqb_eq, negb_true_iff.
  rewrite role_mask_zero by apply compiled_small. rewrite <- (binds_bound id any_scope) by done.
  apply forall_proper. intros role. by rewrite (proj1 (compiled_masks bs id role "")).
Qed.

Lemma roles_zero bs id t : roles_known bs ->
  (roles_at (compiled_of bs id) t =? 0) = negb (bound id (fun b => covers (rb_Scope b) t) bs).
Proof.
  intros Hk. apply eq_bool_prop_intro. rewrite !Is_true_true, Z.eqb_eq, negb_true_iff.
  rewrite role_mask_zero by apply compiled_small. rewrite <- (binds_bound id (fun s => covers s t)) by done.
  by setoid_rewrite roles_at_spec.
Qed.

Lemma roles_allow bs id t action :
  existsb (fun role => roleAllows role action t) (roleMask_roles (roles_at (compiled_of bs id) t)) =
  bound id (fun b => covers (rb_Scope b) t && roleAllows (rb_Role b) action t) bs.
Proof.
  apply eq_bool_prop_intro. unfold bound. rewrite !Is_true_true, !existsb_exists.
  setoid_rewrite <- list_elem_of_In. setoid_rewrite roleMask_roles_elem. split.
  - intros (role & Hr & Ha). rewrite roles_at_spec in Hr. unfold binds in Hr.
    apply existsb_exists in Hr as (b & Hb & Hg). exists b. rewrite <- list_elem_of_In in Hb. split; [done|].
    rewrite has_role_mask, !andb_true_iff, bool_decide_eq_true in Hg. destruct Hg as ((-> & ->) & -> & _). by rewrite Ha.
  - intros (b & Hb & Hg). rewrite !andb_true_iff in Hg. destruct Hg as (Hm & Hc & Ha).
    exists (rb_Role b). split; [|done]. rewrite roles_at_spec. apply existsb_exists. exists b.
    rewrite <- list_elem_of_In. split; [done|].
    by rewrite Hm, Hc, has_role_mask, bool_decide_eq_true_2, (roleAllows_known _ _ _ Ha).
Qed.

Lemma existsb_perm {A} (f : A -> bool) l k : l ≡ₚ k -> existsb f l = existsb f k.
Proof.
  intros Hp. apply eq_bool_prop_intro. rewrite !Is_true_true, !existsb_exists. setoid_rewrite <- list_elem_of_In.
  by setoid_rewrite Hp.
Qed.

Lemma policy_bindings_perm l k : l ≡ₚ k -> policy_bindings l ≡ₚ policy_bindings k.
Proof. intros Hp. unfold policy_bindings. by rewrite Hp. Qed.

#[export] Instance LogicalIdentity_eq : EqDecision LogicalIdentity.
Proof. solve_decision. Defined.

Section Deciding.
Context `{RequestURIs}.

(** ** Policy sets *)

Lemma check_policies_ok snapshot d policies : forall seen,
  check_policies snapshot d seen policies = Ok tt <->
  Forall (fun p => validatePolicyRevision p snapshot d = Ok tt) policies /\
  NoDup (policy_id <$> policies) /\ Forall (fun p => policy_id p ∉ seen) policies.
Proof.
  induction policies as [|p policies IH]; intros seen.
  - split; [intros _|done]. split; [by apply Forall_nil|]. split; [by apply NoDup_nil | by apply Forall_nil].
  - cbn [check_policies]. rewrite fmap_cons, !Forall_cons, NoDup_cons. change (r_id (pr_Record p)) with (policy_id p). split.
    + intros E. apply bind_ok in E as ([] & Hv%map_err_ok & E). apply bind_ok in E as ([] & Hs%fail_if_ok & E).
      apply IH in E as (HF & Hnd & Hout). apply bool_decide_eq_false in Hs. rewrite Forall_forall in Hout.
      split; [done|]. split; [split; [|done]|split; [done|]].
      * intros (q & Eq & Hq)%list_elem_of_fmap. apply (Hout q Hq). rewrite <- Eq. set_solver.
      * apply Forall_forall. intros q Hq Hin. apply (Hout q Hq). set_solver.
    + intros ((Hv & HF) & (Hn & Hnd) & (Hs & Hout)). rewrite Hv. simpl. rewrite bool_decide_eq_false_2 by done.
      simpl. apply IH. split; [done|]. split; [done|]. rewrite Forall_forall in *. intros q Hq [Heq|?]%elem_of_union.
      * apply Hn. apply elem_of_singleton in Heq. rewrite <- Heq. by apply (list_elem_of_fmap_2 policy_id).
      * by apply (Hout q Hq).
Qed.

Lemma check_bindings_ok bs : forall i prev, check_bindings i prev bs = Ok tt ->
  Forall (fun b => validateRoleBinding b = None) bs.
Proof.
  induction bs as [|b bs IH]; intros i prev E; [constructor|]. simpl in E.
  destruct (validateRoleBinding b) as [[]|] eqn:Hv; [done|]. apply bind_ok in E as (? & _ & E). constructor; eauto.
Qed.

Lemma ValidatePolicySpec_bindings spec : ValidatePolicySpec spec = Ok tt ->
  Forall (fun b => validateRoleBinding b = None) (spec_bindings spec).
Proof.
  unfold ValidatePolicySpec. intros E. run_inv E. apply check_bindings_ok in E. unfold spec_bindings. by rewrite Hr.
Qed.

Lemma validateRoleBinding_known b : validateRoleBinding b = None -> Role_known (rb_Role b) = true.
Proof. unfold validateRoleBinding. repeat case_match; try done; intros _; by apply negb_false_iff. Qed.

Lemma revision_facts p snapshot d : validatePolicyRevision p snapshot d = Ok tt ->
  r_kind (pr_Record p) = KindPolicy /\ r_workspaceID (pr_Record p) = s_workspaceID snapshot /\ 1 <= pr_Generation p /\
  (exists r, CheckTransition r (pr_Record p) = Ok tt) /\ ValidatePolicySpec (pr_Spec p) = Ok tt /\
  check_references snapshot d 0 (spec_bindings (pr_Spec p)) = Ok tt.
Proof.
  unfold validatePolicyRevision, ValidatePolicyReferences. intros E. run_inv E.
  autorewrite with guards in *. repeat match goal with x : unit |- _ => destruct x end.
  repeat split; try done. by exists x1.
Qed.

Lemma check_references_ok snapshot d bs : forall i, check_references snapshot d i bs = Ok tt ->
  Forall (fun b => exists j, check_reference snapshot d j b = Ok tt) bs.
Proof.
  induction bs as [|b bs IH]; intros i E; [constructor|]. simpl in E. apply bind_ok in E as ([] & E1 & E2).
  constructor; eauto.
Qed.

Lemma check_reference_member snapshot d j b : check_reference snapshot d j b = Ok tt ->
  exists m, md_byID d !! rb_MemberID b = Some m /\ (rb_Role b = RoleWorkspaceAdministrator -> m_kind m = KindHuman).
Proof.
  unfold check_reference, reference_error. destruct (md_byID d !! rb_MemberID b) as [m|]; [|done].
  case_match; [done|]. destruct (bool_decide (rb_Role b = RoleWorkspaceAdministrator)) eqn:G; simpl.
  - case_match eqn:G1; [done|]. intros _. exists m. split; [done|]. autorewrite with guards in *. done.
  - intros _. exists m. split; [done|]. autorewrite with guards in *. done.
Qed.

(** What a policy set is made from. *)
Record set_made (snapshot : Snapshot) (d : MemberDirectory) (policies : list PolicyRevision) (set : PolicySet) : Prop := {
  sm_directory : ValidateMemberDirectory d = true;
  sm_workspace : md_workspaceID d = s_workspaceID snapshot;
  sm_bounded : llen policies <= MaxPolicies;
  sm_valid : Forall (fun p => validatePolicyRevision p snapshot d = Ok tt) policies;
  sm_distinct : NoDup (policy_id <$> policies);
  sm_set : set = PSet true (s_workspaceID snapshot) d (merge_sort (by_key policy_id) policies)
                   (compilePolicyBindings (merge_sort (by_key policy_id) policies))
                   (derivePolicyVersion d (merge_sort (by_key policy_id) policies));
}.

Lemma NewPolicySet_made snapshot d policies set : NewPolicySet snapshot d policies = Ok set -> set_made snapshot d policies set.
Proof.
  unfold NewPolicySet. intros E. run_inv E. autorewrite with guards in *. destruct_and!. destruct x4.
  apply check_policies_ok in Hr4 as (HF & Hnd & _). by split.
Qed.

Lemma NewPolicySet_perm snapshot d l k : l ≡ₚ k -> NoDup (policy_id <$> l) ->
  result_ok (NewPolicySet snapshot d l) = true -> NewPolicySet snapshot d k = NewPolicySet snapshot d l.
Proof.
  intros Hp Hnd [set E]%result_ok_true. rewrite E. unfold NewPolicySet in *. run_inv E. rewrite Hr. simpl. rewrite Hr0. simpl. rewrite Hr1. simpl.
  rewrite Hr2. simpl. rewrite <- Hp, Hr3. simpl. destruct x4.
  assert (check_policies snapshot d ∅ k = Ok tt) as ->.
  { apply check_policies_ok. apply check_policies_ok in Hr4 as (? & ? & ?). by rewrite <- Hp. }
  simpl.
  assert (merge_sort (by_key policy_id) k = merge_sort (by_key policy_id) l) as ->; [|done].
  apply (sorted_key_unique policy_id); [apply sort_by_increasing; by rewrite <- Hp | by apply sort_by_increasing|].
  by rewrite !merge_sort_Permutation.
Qed.

Lemma made_roles_known snapshot d policies set : set_made snapshot d policies set ->
  roles_known (policy_bindings policies).
Proof.
  intros [_ _ _ Hv _ _]. unfold roles_known, policy_bindings. induction Hv as [|p ps Hp Hv IH]; simpl; [constructor|].
  apply Forall_app. split; [|done]. apply revision_facts in Hp as (_ & _ & _ & _ & Hs & _).
  eapply Forall_impl; [by apply ValidatePolicySpec_bindings|]. intros b. apply validateRoleBinding_known.
Qed.

(** ** The reference evaluator

    A policy set read as it was written: the member of the principal among the
    members, and its bindings among those of all policies. *)
Definition is_member (p : Principal) (m : MemberRecord) : bool :=
  bool_decide (m_kind m = pr_kind p /\ m_logicalIdentity m = pr_logicalIdentity p).

Definition self_read (input : Input) (m : MemberRecord) : bool :=
  bool_decide (in_Action input = ActionMembershipGet) && bool_decide (tg_objectKind (in_Target input) = ObjectKindMembership)
  && String.eqb (tg_objectID (in_Target input)) (m_id m).

(** The outcome of the bindings of one member. *)
Definition bindings_outcome (id : ID) (action : Action) (t : Target) (bs : list RoleBinding) : Effect * Reason :=
  if negb (bound id (fun _ => true) bs) then (EffectDeny, ReasonNoRoleBinding)
  else if negb (bound id (fun b => covers (rb_Scope b) t) bs) then (EffectDeny, ReasonScopeNotGranted)
  else if bound id (fun b => covers (rb_Scope b) t && roleAllows (rb_Role b) action t) bs
  then (EffectAllow, ReasonRoleGranted)
  else (EffectDeny, ReasonActionNotGranted).

Definition reference_outcome (d : MemberDirectory) (policies : list PolicyRevision) (input : Input) : Effect * Reason :=
  let t := in_Target input in
  let bs := policy_bindings policies in
  if negb (String.eqb (tg_workspaceID t) (md_workspaceID d)) then (EffectDeny, ReasonCrossWorkspace)
  else if actionReserved (in_Action input) t then (EffectDeny, ReasonReservedAction)
  else match List.find (is_member (in_Principal input)) (md_ordered d) with
       | None => (EffectDeny, ReasonNoMembership)
       | Some m =>
           if self_read input m then (EffectAllow, ReasonRoleGranted)
           else bindings_outcome (m_id m) (in_Action input) t bs
       end.

(** Who may do what, without an evaluator. *)
Definition permitted (d : MemberDirectory) (policies : list PolicyRevision) (input : Input) : Prop :=
  tg_workspaceID (in_Target input) = md_workspaceID d /\
  actionReserved (in_Action input) (in_Target input) = false /\
  exists m, m ∈ md_ordered d /\ m_kind m = pr_kind (in_Principal input) /\
    m_logicalIdentity m = pr_logicalIdentity (in_Principal input) /\
    ((in_Action input = ActionMembershipGet /\ tg_objectKind (in_Target input) = ObjectKindMembership /\
      tg_objectID (in_Target input) = m_id m) \/
     exists p b, p ∈ policies /\ b ∈ spec_bindings (pr_Spec p) /\ rb_MemberID b = m_id m /\
       covers (rb_Scope b) (in_Target input) = true /\
       roleAllows (rb_Role b) (in_Action input) (in_Target input) = true).

Lemma find_is_member d p m : directory_ok d ->
  List.find (is_member p) (md_ordered d) = Some m <->
  m ∈ md_ordered d /\ m_kind m = pr_kind p /\ m_logicalIdentity m = pr_logicalIdentity p.
Proof.
  intros Hd. split.
  - intros [Hin Hm]%find_some. rewrite <- list_elem_of_In in Hin. unfold is_member in Hm.
    apply bool_decide_eq_true in Hm as [? ?]. done.
  - intros (Hin & Hk & Hl). destruct (find _ _) as [m'|] eqn:E.
    + apply find_some in E as [Hin' Hm']. rewrite <- list_elem_of_In in Hin'. unfold is_member in Hm'.
      apply bool_decide_eq_true in Hm' as [Hk' Hl']. f_equal.
      destruct (directory_members d Hd) as (_ & Hi & Hkeys). apply (ids_distinct (md_ordered d)); try done.
      assert (key_of m' = key_of m) as Ek by (unfold key_of; by rewrite Hk, Hk', Hl, Hl').
      assert (md_byIdentity d !! key_of m = Some (m_id m)) as E1 by (apply Hd; eauto).
      assert (md_byIdentity d !! key_of m = Some (m_id m')) as E2 by (apply Hd; rewrite <- Ek; eauto). congruence.
    + rewrite list_elem_of_In in Hin. apply (find_none _ _ E) in Hin. unfold is_member in Hin.
      by apply bool_decide_eq_false in Hin as [].
Qed.

Lemma bound_exists id p bs : bound id p bs = true <-> exists b, b ∈ bs /\ rb_MemberID b = id /\ p b = true.
Proof.
  unfold bound. rewrite existsb_exists. setoid_rewrite <- list_elem_of_In. setoid_rewrite andb_true_iff.
  by setoid_rewrite String.eqb_eq.
Qed.

Lemma policy_bindings_elem policies b :
  b ∈ policy_bindings policies <-> exists p, p ∈ policies /\ b ∈ spec_bindings (pr_Spec p).
Proof.
  unfold policy_bindings. rewrite list_elem_of_In, in_concat. setoid_rewrite <- list_elem_of_In.
  setoid_rewrite list_elem_of_fmap. naive_solver.
Qed.

Lemma bindings_allow id action t policies :
  fst (bindings_outcome id action t (policy_bindings policies)) = EffectAllow <->
  exists p b, p ∈ policies /\ b ∈ spec_bindings (pr_Spec p) /\ rb_MemberID b = id /\
    covers (rb_Scope b) t = true /\ roleAllows (rb_Role b) action t = true.
Proof.
  trans (bound id (fun b => covers (rb_Scope b) t && roleAllows (rb_Role b) action t) (policy_bindings policies) = true).
  - unfold bindings_outcome. destruct (bound id (fun b => covers _ _ && _) _) eqn:Gb; [|split; [by repeat case_match | done]].
    split; [done|intros _]. apply bound_exists in Gb as (b & Hin & Hid & [Hcov Hra]%andb_true_iff).
    rewrite (proj2 (bound_exists id (fun _ => true) _)) by eauto.
    rewrite (proj2 (bound_exists id (fun b => covers (rb_Scope b) t) _)) by eauto. done.
  - rewrite bound_exists. setoid_rewrite policy_bindings_elem. setoid_rewrite andb_true_iff.
    split; [intros (b & (p & ? & ?) & ? & ? & ?); exists p, b; done|].
    intros (p & b & ? & ? & ? & ? & ?). exists b. split; [by exists p | done].
Qed.

Lemma reference_allows d policies input : directory_ok d ->
  fst (reference_outcome d policies input) = EffectAllow <-> permitted d policies input.
Proof.
  intros Hd. unfold reference_outcome, permitted. set (t := in_Target input).
  destruct (String.eqb_spec (tg_workspaceID t) (md_workspaceID d)) as [Ew|Ew]; simpl; [|naive_solver].
  destruct (actionReserved _ _); simpl; [naive_solver|].
  destruct (List.find _ _) as [m|] eqn:E.
  - apply (find_is_member d _ m Hd) in E as Hm. unfold self_read. fold t.
    assert (forall m', m' ∈ md_ordered d -> m_kind m' = pr_kind (in_Principal input) ->
              m_logicalIdentity m' = pr_logicalIdentity (in_Principal input) -> m' = m) as Hunique.
    { intros m' ? ? ?. assert (List.find (is_member (in_Principal input)) (md_ordered d) = Some m') as E2
        by by apply find_is_member. congruence. }
    destruct (bool_decide _ && bool_decide _ && String.eqb _ _) eqn:Gs; simpl.
    + split; [intros _|done]. rewrite !andb_true_iff, !bool_decide_eq_true, String.eqb_eq in Gs.
      split; [done|]. split; [done|]. exists m. naive_solver.
    + rewrite bindings_allow. split.
      * intros Hp. split; [done|]. split; [done|]. exists m. unfold t. destruct Hm as (? & ? & ?). auto.
      * intros (_ & _ & m' & Hin & Hk & Hl & Hor). assert (m' = m) as -> by auto.
        destruct Hor as [(Ha & Ho & Hid)|Hp]; [|done]. exfalso. revert Gs.
        rewrite !bool_decide_eq_true_2 by done. by rewrite Hid, String.eqb_refl.
  - simpl. split; [done|]. intros (_ & _ & m & Hin & Hk & Hl & _).
    assert (List.find (is_member (in_Principal input)) (md_ordered d) = Some m) as E2 by by apply find_is_member.
    congruence.
Qed.

Lemma reference_perm d l k input : l ≡ₚ k -> reference_outcome d l input = reference_outcome d k input.
Proof.
  intros Hp. apply policy_bindings_perm in Hp. unfold reference_outcome.
  destruct (negb _); [done|]. destruct (actionReserved _ _); [done|]. destruct (List.find _ _) as [m|]; [|done].
  unfold bindings_outcome, bound. by rewrite !(existsb_perm _ _ _ Hp).
Qed.

Lemma roles_known_perm l k : policy_bindings l ≡ₚ policy_bindings k -> roles_known (policy_bindings l) -> roles_known (policy_bindings k).
Proof. unfold roles_known. by intros ->. Qed.

(** Evaluation against compiled bindings. *)
Lemma evaluate_compiled d policies version input :
  directory_ok d -> roles_known (policy_bindings policies) -> dv_initialized version = true ->
  validateInput input = Ok tt ->
  PolicySet_Evaluate (PSet true (md_workspaceID d) d policies (compilePolicyBindings policies) version) input =
  Ok (Dec true version (deriveInputDigest input)
        (fst (reference_outcome d policies input)) (snd (reference_outcome d policies input))).
Proof.
  intros Hd Hk Hv Hi. unfold PolicySet_Evaluate. simpl. rewrite Hv, (do_init d Hd), String.eqb_refl, Hi. simpl.
  unfold reference_outcome. destruct (String.eqb _ _); simpl; [|done].
  destruct (actionReserved _ _); [done|].
  assert (ValidateLogicalIdentity (pr_logicalIdentity (in_Principal input)) = Ok tt) as Hl.
  { unfold validateInput in Hi. run_inv Hi. autorewrite with guards in Hr. apply result_ok_true in Hr as [[] Hp].
    unfold ValidatePrincipal, in_principal in Hp. rewrite map_err_ok in Hp.
    apply bind_ok in Hp as (? & _ & Hp). by apply bind_ok in Hp as ([] & ? & _). }
  assert (member_of d (in_Principal input) = List.find (is_member (in_Principal input)) (md_ordered d)) as ->.
  { apply option_eq. intros m. by rewrite (member_of_ok d _ m Hd Hl), (find_is_member d _ m Hd). }
  destruct (List.find _ _) as [m|]; [|done]. fold (self_read input m).
  destruct (self_read input m); [done|].
  unfold compilePolicyBindings.
  assert (compiled_of (policy_bindings policies) (m_id m) =
          default no_bindings (foldl compile_one ∅ (policy_bindings policies) !! m_id m)) as Hc by done.
  destruct (foldl compile_one ∅ (policy_bindings policies) !! m_id m) as [c|]; simpl in Hc.
  - subst c. unfold bindings_outcome. rewrite (all_zero _ _ Hk). destruct (bound _ (fun _ => true) _); simpl; [|done].
    set (C := compiled_of (policy_bindings policies) (m_id m)).
    change (match tg_environmentID (in_Target input) with
            | Some e => Z.lor (cb_workspace C) (default 0 (cb_environments C !! e))
            | None => cb_workspace C
            end) with (roles_at C (in_Target input)). unfold C.
    rewrite (roles_zero _ _ _ Hk), roles_allow. destruct (bound _ (fun b => covers _ _) _); simpl; [|done].
    by destruct (bound _ _ _).
  - pose proof (all_zero _ (m_id m) Hk) as Hz. rewrite Hc in Hz. simpl in Hz. unfold bindings_outcome. by rewrite <- Hz.
Qed.

Lemma parsed_digest prefix bytes : is_some (match parseDigest prefix (formatDigest prefix (DV true (sha256 bytes))) with
                                            | Ok v => Some v | Err _ => None end) = true.
Proof.
  assert (parseDigest prefix (formatDigest prefix (DV true (sha256 bytes))) = Ok (DV true (sha256 bytes))) as ->; [|done].
  apply parseDigest_iff. split; [done|]. split; [apply sha256_length | done].
Qed.

Lemma reference_reasons d policies input :
  match reference_outcome d policies input with
  | (EffectAllow, ReasonRoleGranted) => true
  | (EffectAllow, _) => false
  | (EffectDeny, (ReasonCrossWorkspace | ReasonReservedAction | ReasonNoMembership | ReasonNoRoleBinding
                 | ReasonScopeNotGranted | ReasonActionNotGranted)) => true
  | _ => false
  end = true.
Proof. unfold reference_outcome, bindings_outcome. by repeat case_match; simplify_eq. Qed.

Lemma made_evaluate snapshot d policies set input : set_made snapshot d policies set -> validateInput input = Ok tt ->
  PolicySet_Evaluate set input =
  Ok (Dec true (set_version set) (deriveInputDigest input)
        (fst (reference_outcome d policies input)) (snd (reference_outcome d policies input))).
Proof.
  intros Hm Hi. pose proof (made_roles_known _ _ _ _ Hm) as Hk. destruct Hm as [Hd Hw _ _ _ ->].
  apply ValidateMemberDirectory_ok in Hd. rewrite <- Hw.
  pose proof (merge_sort_Permutation (by_key policy_id) policies) as Hp.
  rewrite <- (reference_perm d _ _ input Hp). apply evaluate_compiled; try done.
  eapply roles_known_perm; [|done]. apply policy_bindings_perm. by symmetry.
Qed.

(** C1: the evaluator decides exactly the policy.  On a set compiled from any
    revisions and a valid input it always returns a decision; its effect and
    its reason are those of the reference evaluator, which reads the raw
    bindings and not the role masks; it allows exactly what is permitted - the
    principal is a member of the target's workspace, the action is not reserved
    to the system, and the member either reads its own membership or holds a
    binding whose scope covers the target and whose role grants the action -
    and the decision is valid, its canonical size included. *)
Theorem evaluate_exact (snapshot : Snapshot) (d : MemberDirectory) (policies : list PolicyRevision) (set : PolicySet)
  (input : Input) (Hset : NewPolicySet snapshot d policies = Ok set) (Hinput : validateInput input = Ok tt) :
  exists dec, PolicySet_Evaluate set input = Ok dec /\
    (de_effect dec, de_reason dec) = reference_outcome d policies input /\
    (Decision_Allowed dec = true <-> permitted d policies input) /\
    ValidateDecision dec = Ok tt.
Proof.
  apply NewPolicySet_made in Hset. pose proof Hset as [Hd Hw _ _ _ Hs]. apply ValidateMemberDirectory_ok in Hd.
  eexists. split; [by eapply made_evaluate|]. cbn [de_effect de_reason]. split; [by rewrite <- surjective_pairing|]. split.
  - unfold Decision_Allowed. cbn [de_effect]. rewrite bool_decide_eq_true. by apply reference_allows.
  - apply ValidateDecision_iff. unfold validateDecisionFields, ParsePolicyVersion, ParseInputDigest. cbn [de_initialized de_policyVersion de_inputDigest de_effect de_reason].
    rewrite Hs. unfold set_version, derivePolicyVersion, deriveInputDigest. rewrite !parsed_digest. simpl.
    pose proof (reference_reasons d policies input) as Hr. destruct (reference_outcome d policies input) as [[] []]; by try discriminate Hr.
Qed.

(** ** Policy sets are valid, whatever the order of the policies *)

Lemma CheckTransition_self r a : CheckTransition a r = Ok tt -> CheckTransition r r = Ok tt.
Proof.
  unfold CheckTransition. intros E. run_inv E. destruct x0. rewrite Hr0. simpl.
  by rewrite !String.eqb_refl, !bool_decide_eq_true_2.
Qed.

Lemma equalCompiled_refl c : equalCompiled c c = true.
Proof.
  unfold equalCompiled. rewrite !Z.eqb_refl. simpl. apply forallb_forall. intros [e m] Hin.
  rewrite <- list_elem_of_In, elem_of_map_to_list in Hin. rewrite Hin. apply Z.eqb_refl.
Qed.

Lemma equalCompiledBindings_refl m : equalCompiledBindings m m = true.
Proof.
  unfold equalCompiledBindings. rewrite Z.eqb_refl. apply forallb_forall. intros [i c] Hin.
  rewrite <- list_elem_of_In, elem_of_map_to_list in Hin. rewrite Hin. apply equalCompiled_refl.
Qed.

Lemma compiled_dom bs : dom (foldl compile_one ∅ bs) = list_to_set (rb_MemberID <$> bs) :> gset string.
Proof.
  induction bs as [|b bs IH] using rev_ind; [apply dom_empty_L|].
  rewrite foldl_app, fmap_app, list_to_set_app_L, <- IH. simpl. unfold compile_one at 1. rewrite dom_insert_L. set_solver.
Qed.

Lemma made_members snapshot d policies set b : set_made snapshot d policies set -> b ∈ policy_bindings policies ->
  exists m, md_byID d !! rb_MemberID b = Some m /\ (rb_Role b = RoleWorkspaceAdministrator -> m_kind m = KindHuman).
Proof.
  intros [_ _ _ Hv _ _] (p & Hp & Hb)%policy_bindings_elem. rewrite Forall_forall in Hv.
  apply Hv, revision_facts in Hp as (_ & _ & _ & _ & _ & Href). apply check_references_ok in Href.
  rewrite Forall_forall in Href. destruct (Href b Hb) as [j Hj]. by eapply check_reference_member.
Qed.

Lemma made_size snapshot d policies set : set_made snapshot d policies set ->
  Z.of_nat (size (compilePolicyBindings policies)) <= MaxMembers.
Proof.
  intros Hm. assert (size (compilePolicyBindings policies) <= size (md_byID d))%nat.
  { rewrite <- !(size_dom (D := gset string)). apply subseteq_size. unfold compilePolicyBindings. rewrite compiled_dom.
    intros i. rewrite elem_of_list_to_set. intros (b & -> & Hb)%list_elem_of_fmap.
    destruct (made_members _ _ _ _ _ Hm Hb) as (m & Hl & _). apply elem_of_dom. eauto. }
  destruct Hm as [Hd _ _ _ _ _]. unfold ValidateMemberDirectory in Hd. autorewrite with guards in Hd. lia.
Qed.

Lemma made_well_formed snapshot d policies set : set_made snapshot d policies set ->
  Forall (fun p => policy_well_formed set p = true) policies.
Proof.
  intros Hm. apply Forall_forall. intros p Hp. pose proof Hm as [Hd Hw _ Hv _ ->]. rewrite Forall_forall in Hv.
  pose proof (revision_facts _ _ _ (Hv p Hp)) as (Hk & Hws & Hg & (a & Ht) & Hspec & _).
  unfold policy_well_formed. simpl.
  rewrite bool_decide_eq_true_2, Hws, String.eqb_refl, (proj2 (Z.leb_le _ _) Hg), Hspec, (CheckTransition_self _ _ Ht) by done.
  simpl. apply forallb_forall. intros b Hb. rewrite <- list_elem_of_In in Hb.
  destruct (made_members _ _ _ _ b Hm) as (m & -> & Hadmin); [apply policy_bindings_elem; by exists p|].
  destruct (decide (rb_Role b = RoleWorkspaceAdministrator)) as [E|E].
  - rewrite (bool_decide_eq_true_2 (m_kind m = _)) by auto. apply orb_true_r.
  - by rewrite bool_decide_eq_false_2.
Qed.

Lemma set_made_sorted snapshot d policies set : set_made snapshot d policies set ->
  set_made snapshot d (merge_sort (by_key policy_id) policies) set.
Proof.
  intros [Hd Hw Hn Hv Hnd Hs]. pose proof (merge_sort_Permutation (by_key policy_id) policies) as Hp.
  split; rewrite ?Hp; try done. rewrite Hs.
  assert (merge_sort (by_key policy_id) (merge_sort (by_key policy_id) policies) = merge_sort (by_key policy_id) policies)
    as ->; [|done].
  apply (sorted_key_unique policy_id); [apply sort_by_increasing; by rewrite Hp | by apply sort_by_increasing|].
  by rewrite !merge_sort_Permutation.
Qed.

(** Policy sets are well formed and canonical.  Every set [NewPolicySet]
    makes passes [ValidatePolicySet], over a directory that is itself exactly
    one of those [NewMemberDirectory] makes, and neither depends on the order
    in which policies and members are given. *)
Theorem policy_set_canonical (snapshot : Snapshot) (ws : ID) (members : list MemberRecord) (d : MemberDirectory)
  (policies : list PolicyRevision) (set : PolicySet)
  (Hdirectory : NewMemberDirectory ws members = Ok d) (Hset : NewPolicySet snapshot d policies = Ok set) :
  ValidateMemberDirectory d = true /\ ValidatePolicySet set = true /\
  (forall members', members' ≡ₚ members -> NewMemberDirectory ws members' = Ok d) /\
  (forall policies', policies' ≡ₚ policies -> NewPolicySet snapshot d policies' = Ok set) /\
  (forall d', ValidateMemberDirectory d' = true <-> NewMemberDirectory (md_workspaceID d') (md_ordered d') = Ok d').
Proof.
  pose proof Hset as Hm. apply NewPolicySet_made in Hm.
  split; [|split; [|split; [|split]]].
  - apply NewMemberDirectory_ok in Hdirectory as [? _]. by apply ValidateMemberDirectory_ok.
  - pose proof Hm as [Hd Hw Hn Hv Hnd Hs]. pose proof (made_well_formed _ _ _ _ Hm) as Hf.
    pose proof (merge_sort_Permutation (by_key policy_id) policies) as Hp. rewrite <- Hp in Hf.
    pose proof (made_size _ _ _ _ Hm) as Hsize.
    destruct set as [si sw sd sp sb sv]. injection Hs as -> -> -> -> -> ->.
    unfold ValidatePolicySet, ParsePolicyVersion. cbn [set_initialized set_workspaceID set_directory set_policies set_bindings set_version].
    rewrite Hd, Hw, String.eqb_refl. 
    assert (llen (merge_sort (by_key policy_id) policies) <=? MaxPolicies = true) as -> by (apply Z.leb_le; by rewrite Hp).
    assert (Z.of_nat (size (compilePolicyBindings (merge_sort (by_key policy_id) policies))) <=? MaxMembers = true) as ->.
    { apply Z.leb_le. eapply made_size. by eapply set_made_sorted. }
    unfold derivePolicyVersion at 1. rewrite parsed_digest, equalDigest_refl, equalCompiledBindings_refl.
    rewrite (sort_by_increasing policy_id) by done. 
    assert (validID (s_workspaceID snapshot) = true) as ->.
    { rewrite <- Hw. unfold ValidateMemberDirectory in Hd. autorewrite with guards in Hd. tauto. }
    rewrite Forall_forall in Hf. rewrite (proj2 (forallb_forall _ _)); [done|]. intros p Hin. apply Hf. by apply list_elem_of_In.
  - intros members' Hp. apply NewMemberDirectory_ok in Hdirectory as (? & ? & ?). apply NewMemberDirectory_ok.
    by rewrite Hp.
  - intros policies' Hp. destruct Hm as [_ _ _ _ Hnd _]. rewrite <- Hset. symmetry in Hp.
    apply NewPolicySet_perm; [done..|]. by rewrite Hset.
  - intros d'. rewrite NewMemberDirectory_ok, ValidateMemberDirectory_ok. naive_solver.
Qed.

(** ** What a policy version stands for *)

Lemma validID_sized i : validID i = true -> frame_sized i.
Proof.
  unfold validID, matches_pattern. destruct i as [|c i]; [done|]. autorewrite with guards. intros H0. destruct_and!.
  unfold frame_sized, max_uint64. unfold slen in *. simpl. lia.
Qed.

Lemma logical_sized l : ValidateLogicalIdentity l = Ok tt -> frame_sized (li_issuer l) /\ frame_sized (li_subject l).
Proof.
  unfold ValidateLogicalIdentity, validateIssuer, validateClaim, validateSubject. intros E. run_inv E.
  unfold MaxIssuerBytes, MaxSubjectBytes in *. autorewrite with guards in *. destruct_and!.
  unfold frame_sized, max_uint64. lia.
Qed.

Lemma short_sized (v : string) : (String.length v <= 100)%nat -> frame_sized v.
Proof. unfold frame_sized, max_uint64, slen. lia. Qed.

Lemma decodes_member ws : decodes (member_in ws) member_frames id.
Proof.
  intros a b s t [Ha Wa] [Hb Wb] E. apply validateMemberRecord_facts in Ha as (Ia & ia & _ & ka & la), Hb as (Ib & ib & _ & kb & lb).
  apply logical_sized in la as Sa, lb as Sb. destruct Sa as [Sa1 Sa2], Sb as [Sb1 Sb2]. apply validID_sized in ia, ib.
  assert (forall k, frame_sized (Identity.Kind_String k)) as Sk by (intros []; by apply short_sized; vm_compute; lia).
  unfold member_frames in E. apply frames_of_decodes in E as [E ->]; [|by repeat constructor..|done].
  cons_inv_in E. split; [|done]. unfold id. apply logical_valid in la, lb.
  rewrite E2, E3, lb in la. injection la as Hl.
  assert (m_kind a = m_kind b) as Hk.
  { clear -E1 ka kb. by destruct (m_kind a), (m_kind b). }
  destruct a, b. simpl in *. congruence.
Qed.

Lemma binding_facts b : validateRoleBinding b = None ->
  validID (rb_MemberID b) = true /\ Role_known (rb_Role b) = true /\
  (rb_Scope b = Sc ScopeKindWorkspace None \/ exists e, rb_Scope b = Sc ScopeKindEnvironment (Some e) /\ validID e = true).
Proof.
  destruct b as [m r [k e]]. unfold validateRoleBinding. simpl. intros Hv.
  repeat (case_match; try done); simplify_eq; autorewrite with guards in *; eauto 6.
Qed.

Lemma binding_sized b : validateRoleBinding b = None ->
  Forall frame_sized [rb_MemberID b; Role_String (rb_Role b); ScopeKind_String (sc_Kind (rb_Scope b)); scopeEnvironment (rb_Scope b)].
Proof.
  intros (Hm & Hr & Hs)%binding_facts. apply validID_sized in Hm.
  assert (frame_sized (Role_String (rb_Role b))) as Hrs by (destruct (rb_Role b); try done; apply short_sized; vm_compute; lia).
  destruct Hs as [->|(e & -> & He)]; repeat constructor; try done; try (apply short_sized; vm_compute; lia).
  by apply validID_sized.
Qed.

Lemma decodes_binding : decodes (fun b => validateRoleBinding b = None) binding_frames id.
Proof.
  intros a b s t Ha Hb E. apply frames_of_decodes in E as [E ->]; [|by apply binding_sized..|done].
  apply binding_facts in Ha as (_ & Ra & Sa), Hb as (_ & Rb & Sb). cons_inv_in E. split; [|done].
  assert (rb_Role a = rb_Role b) as Hr by by apply spelled_inj.
  destruct a as [ma ra sa], b as [mb rb sb]. unfold scopeEnvironment, id in *. simpl in *.
  destruct Sa as [->|(e & -> & _)], Sb as [->|(e' & -> & _)]; simpl in *; congruence.
Qed.

(** What the version records of a policy. *)
Definition policy_content (p : PolicyRevision) : ID * Z * list RoleBinding :=
  (policy_id p, pr_Generation p, spec_bindings (pr_Spec p)).

(** Policies that can be written: valid identifiers and bindings, generations
    and lengths of their Go types. *)
Definition policy_written (p : PolicyRevision) : Prop :=
  validID (policy_id p) = true /\ 0 <= pr_Generation p <= max_int64 /\
  Forall (fun b => validateRoleBinding b = None) (spec_bindings (pr_Spec p)) /\ llen (spec_bindings (pr_Spec p)) <= max_uint64.

Lemma decodes_policy : decodes policy_written policy_frames policy_content.
Proof.
  intros a b s t (ia & ga & ba & na) (ib & gb & bb & nb) E. apply validID_sized in ia, ib.
  unfold policy_frames in E. rewrite !string_app_assoc in E.
  apply frame_inj in E as [Ei E]; [|done..].
  apply decodes_uint64 in E as [Eg E]; [|unfold max_int64, max_uint64 in *; lia..].
  apply (decodes_counted _ _ _ decodes_binding) in E as [Eb ->]; [|done..]. rewrite !list_fmap_id in Eb. unfold id in Eg.
  split; [|done]. unfold policy_content, policy_id. congruence.
Qed.

Lemma policy_preimage_decodes d1 ps1 d2 ps2 :
  directory_ok d1 -> directory_ok d2 -> Forall policy_written ps1 -> Forall policy_written ps2 ->
  llen ps1 <= MaxPolicies -> llen ps2 <= MaxPolicies ->
  policy_preimage d1 ps1 = policy_preimage d2 ps2 -> d1 = d2 /\ policy_content <$> ps1 = policy_content <$> ps2.
Proof.
  intros Hd1 Hd2 Hp1 Hp2 Hn1 Hn2. unfold policy_preimage.
  assert (frame_sized "veer.authorization.policy-set.v1" /\ frame_sized authorization_ContractVersion) as [Hs1 Hs2]
    by (split; apply short_sized; vm_compute; lia).
  revert Hs1 Hs2. generalize "veer.authorization.policy-set.v1" authorization_ContractVersion. intros x y Hx Hy E.
  pose proof (do_workspace _ Hd1) as W1%validID_sized. pose proof (do_workspace _ Hd2) as W2%validID_sized.
  apply frames_of_decodes in E as [Ew E]; [|by repeat constructor..|done]. cons_inv_in Ew.
  pose proof (do_bounded _ Hd1). pose proof (do_bounded _ Hd2). unfold MaxMembers, MaxPolicies, max_uint64 in *.
  apply (decodes_counted _ _ _ (decodes_member (md_workspaceID d1))) in E as [Em E];
    [| split; [apply Hd1 | unfold max_uint64; lia] | split; [rewrite E2; apply Hd2 | unfold max_uint64; lia]].
  rewrite !list_fmap_id in Em.
  assert (d1 = d2) as -> by by apply directory_unique. split; [done|].
  rewrite <- (string_app_nil_r (counted policy_frames ps1)), <- (string_app_nil_r (counted policy_frames ps2)) in E.
  apply (decodes_counted _ _ _ decodes_policy) in E as [Ep _]; [done| split; [done | unfold max_uint64; lia]..].
Qed.

Lemma revision_written p snapshot d : validatePolicyRevision p snapshot d = Ok tt -> pr_Generation p <= max_int64 -> policy_written p.
Proof.
  intros Hv Hg. apply revision_facts in Hv as (_ & _ & Hg1 & (a & Ht) & Hs & _). split; [|split; [lia|split]].
  - unfold CheckTransition, validateRecord in Ht. run_inv Ht. autorewrite with guards in *. done.
  - by apply ValidatePolicySpec_bindings.
  - unfold ValidatePolicySpec in Hs. run_inv Hs. unfold spec_bindings. rewrite Hr. simpl.
    autorewrite with guards in *. unfold MaxBindingsPerPolicy, max_uint64 in *. lia.
Qed.

Lemma bindings_of_content l k : policy_content <$> l = policy_content <$> k -> policy_bindings l = policy_bindings k.
Proof.
  intros E. unfold policy_bindings.
  assert (forall ps, (fun p => spec_bindings (pr_Spec p)) <$> ps = snd <$> (policy_content <$> ps)) as Hf
    by (intros ps; by rewrite <- list_fmap_compose).
  by rewrite !Hf, E.
Qed.

Lemma made_written snapshot d l set : set_made snapshot d l set -> Forall (fun p => pr_Generation p <= max_int64) l ->
  Forall policy_written (set_policies set) /\ llen (set_policies set) <= MaxPolicies /\
  directory_ok (set_directory set) /\ set_directory set = d /\
  set = PSet true (md_workspaceID (set_directory set)) (set_directory set) (set_policies set)
          (compilePolicyBindings (set_policies set)) (derivePolicyVersion (set_directory set) (set_policies set)).
Proof.
  intros Hm Hg. pose proof Hm as [Hd Hw Hn Hv Hnd ->]. cbn [set_policies set_directory].
  pose proof (merge_sort_Permutation (by_key policy_id) l) as Hp.
  split; [|split; [by rewrite Hp|split; [by apply ValidateMemberDirectory_ok | by rewrite Hw]]].
  rewrite Hp. rewrite Forall_forall in *. intros p Hin. apply (revision_written p snapshot d); auto.
Qed.

(** The evaluator does not read the policies themselves. *)
Lemma evaluate_fields set1 set2 input :
  set_initialized set1 = set_initialized set2 -> set_workspaceID set1 = set_workspaceID set2 ->
  set_directory set1 = set_directory set2 -> set_bindings set1 = set_bindings set2 -> set_version set1 = set_version set2 ->
  PolicySet_Evaluate set1 input = PolicySet_Evaluate set2 input.
Proof. destruct set1, set2. simpl. intros -> -> -> -> ->. done. Qed.

(** C25: a policy version stands for everything authorization reads.  Two policy
    sets with the same version have the same members and the same policies -
    identifiers, generations and bindings - and evaluate every input to the
    same decision or error, unless their encodings are a SHA-256 collision. *)
Theorem policy_version_binds (s1 s2 : Snapshot) (d1 d2 : MemberDirectory) (l1 l2 : list PolicyRevision) (set1 set2 : PolicySet)
  (Hset1 : NewPolicySet s1 d1 l1 = Ok set1) (Hset2 : NewPolicySet s2 d2 l2 = Ok set2)
  (Hint64 : Forall (fun p => pr_Generation p <= max_int64) (l1 ++ l2))
  (Hversion : equalDigest (set_version set1) (set_version set2) = true)
  (Hno_collision : let e1 := policy_preimage d1 (set_policies set1) in let e2 := policy_preimage d2 (set_policies set2) in
                   sha256 e1 = sha256 e2 -> e1 = e2) :
  set_directory set1 = set_directory set2 /\
  policy_content <$> set_policies set1 = policy_content <$> set_policies set2 /\
  forall input, PolicySet_Evaluate set1 input = PolicySet_Evaluate set2 input.
Proof.
  apply NewPolicySet_made in Hset1, Hset2. apply Forall_app in Hint64 as [G1 G2].
  apply (made_written _ _ _ _ Hset1) in G1 as (W1 & N1 & Hd1 & D1 & E1).
  apply (made_written _ _ _ _ Hset2) in G2 as (W2 & N2 & Hd2 & D2 & E2).
  apply equalDigest_true in Hversion as (_ & _ & Hv).
  assert (d1 = d2 /\ policy_content <$> set_policies set1 = policy_content <$> set_policies set2) as [-> Hc].
  { apply policy_preimage_decodes; try done; [by rewrite <- D1 | by rewrite <- D2|]. apply Hno_collision.
    rewrite E1, E2 in Hv. apply (f_equal dv_digest) in Hv. unfold derivePolicyVersion, set_version in Hv. cbn [dv_digest] in Hv.
    by rewrite D1, D2 in Hv. }
  split; [congruence|]. split; [done|]. intros input. apply evaluate_fields.
  - rewrite E1, E2. cbn [set_initialized]. done.
  - rewrite E1, E2, D1, D2. cbn [set_workspaceID]. done.
  - congruence.
  - rewrite E1, E2. cbn [set_bindings]. unfold compilePolicyBindings. by rewrite (bindings_of_content _ _ Hc).
  - done.
Qed.
End Deciding.

(** ** A concrete workspace: one person, one policy, two environments *)

Definition a_member : MemberRecord := MR true "member-000000000001" h_ws KindHuman s_logical.

Definition a_policy (role : Role) : PolicyRevision :=
  PR (h_record h_policy KindPolicy (Some h_ws)) 3
     (PS (Some [RB "member-000000000001" role (Sc ScopeKindEnvironment (Some h_env));
                RB "member-000000000001" RoleViewer (Sc ScopeKindWorkspace None)])).

Definition a_directory : MemberDirectory :=
  MD true h_ws {[ "member-000000000001" := a_member ]}
     {[ memberKey KindHuman s_logical := "member-000000000001" ]} [a_member].

Definition a_policies : list PolicyRevision := [a_policy RoleDeveloper].

Definition a_set : PolicySet :=
  PSet true h_ws a_directory a_policies (compilePolicyBindings a_policies) (derivePolicyVersion a_directory a_policies).

Definition a_input (action : Action) (environment : ID) : Input :=
  In s_principal action (Tg true ObjectKindResource environment KindEnvironment environment h_ws (Some environment) None).

Lemma a_directory_made : NewMemberDirectory (H := s_uris) h_ws [a_member] = Ok a_directory.
Proof. vm_cast_no_check (eq_refl (Ok (E := error) a_directory)). Qed.

Lemma a_set_made : NewPolicySet (H := s_uris) (snapshot_of h_ws h_records) a_directory a_policies = Ok a_set.
Proof. vm_cast_no_check (eq_refl (Ok (E := error) a_set)). Qed.

Lemma a_input_valid action environment :
  Action_known action = true -> environment = h_env \/ environment = h_env2 ->
  validateInput (H := s_uris) (a_input action environment) = Ok tt.
Proof.
  intros Ha He. unfold validateInput, a_input. cbn [in_Principal in_Action in_Target]. rewrite Ha.
  assert (result_ok (ValidatePrincipal (H := s_uris) s_principal) = true) as -> by (vm_cast_no_check (eq_refl true)).
  destruct He as [-> | ->]; vm_compute; done.
Qed.

(** A developer of one environment who views the whole workspace reads the other
    environment, and may not delete their own. *)
Lemma evaluate_exact_witness :
  (exists dec, PolicySet_Evaluate (H := s_uris) a_set (a_input ActionResourceGet h_env2) = Ok dec /\
    Decision_Allowed dec = true /\ de_reason dec = ReasonRoleGranted) /\
  (exists dec, PolicySet_Evaluate (H := s_uris) a_set (a_input ActionResourceDelete h_env) = Ok dec /\
    Decision_Allowed dec = false /\ de_reason dec = ReasonActionNotGranted).
Proof.
  split.
  - destruct (evaluate_exact (H := s_uris) _ _ _ _ (a_input ActionResourceGet h_env2) a_set_made
      (a_input_valid ActionResourceGet h_env2 eq_refl (or_intror eq_refl))) as (dec & He & Hr & Ha & Hv).
    exists dec. split; [exact He|].
    assert (reference_outcome a_directory a_policies (a_input ActionResourceGet h_env2) = (EffectAllow, ReasonRoleGranted)) as Hc
      by (vm_compute; reflexivity).
    rewrite Hc in Hr. unfold Decision_Allowed. destruct dec as [i v g e r]. cbn [de_effect de_reason] in *. injection Hr as -> ->. exact (conj eq_refl eq_refl).
  - destruct (evaluate_exact (H := s_uris) _ _ _ _ (a_input ActionResourceDelete h_env) a_set_made
      (a_input_valid ActionResourceDelete h_env eq_refl (or_introl eq_refl))) as (dec & He & Hr & Ha & Hv).
    exists dec. split; [exact He|].
    assert (reference_outcome a_directory a_policies (a_input ActionResourceDelete h_env) = (EffectDeny, ReasonActionNotGranted)) as Hc
      by (vm_compute; reflexivity).
    rewrite Hc in Hr. unfold Decision_Allowed. destruct dec as [i v g e r]. cbn [de_effect de_reason] in *. injection Hr as -> ->. exact (conj eq_refl eq_refl).
Defined.

Lemma policy_set_canonical_witness :
  ValidateMemberDirectory (H := s_uris) a_directory = true /\ ValidatePolicySet (H := s_uris) a_set = true.
Proof.
  pose proof (policy_set_canonical (H := s_uris) _ _ _ _ _ _ a_directory_made a_set_made) as (H1 & H2 & _).
  split; [exact H1 | exact H2].
Defined.

Lemma policy_version_binds_witness :
  set_directory a_set = set_directory a_set /\
  forall input, PolicySet_Evaluate (H := s_uris) a_set input = PolicySet_Evaluate (H := s_uris) a_set input.
Proof.
  pose proof (policy_version_binds (H := s_uris) _ _ _ _ _ _ _ _ a_set_made a_set_made
    ltac:(repeat constructor; vm_compute; discriminate) (equalDigest_refl (set_version a_set)) (fun _ => eq_refl)) as (H1 & _ & H2).
  split; [exact H1 | exact H2].
Defined.
