(* ===== verification/TargetProps.v ===== *)
(** * Properties of authorization targets

    A target is sealed from a hierarchy snapshot: its environment is the one
    the resource really lives in, and a created resource will have the target
    its creation was authorized on. *)

From S2P Require Import Prelude Bytes Sha256 GoTime Closed Vocabulary Digests Hierarchy HierarchyProps.
From S2P Require Import Identity Codes AuthzVocabulary Authorization.
From Stdlib Require Import String.

(** The environment at or above a resource, by the parents of the records. *)
Definition environment_above (index : record_index) (id e : ID) : Prop :=
  rtc (up index) id e /\ exists r, index !! e = Some r /\ r_kind r = KindEnvironment.

Lemma above_step index id r e : index !! id = Some r ->
  environment_above index id e <->
  (r_kind r = KindEnvironment /\ e = id) \/ exists p, r_parent r = Some p /\ environment_above index p e.
Proof.
  intros Hr. assert (forall p, up index id p <-> r_parent r = Some p) as Hup.
  { intros p. unfold up, parent_of. by rewrite Hr. }
  split.
  - intros [Hc He]. inversion Hc as [|? p ? Hs Hrest]; subst.
    + left. destruct He as (r' & ? & ?). split; [congruence | done].
    + right. exists p. split; [by apply Hup | done].
  - intros [[Hk ->]|(p & Hp & Hc & He)]; split; try done; try (by exists r).
    + eapply rtc_l; [|done]. by apply Hup.
Qed.

Section Sealed.
Context (ws : ID) (records : list Record) (Ht : tree ws records).
Let s := snapshot_of ws records.
Let index := index_of records.

Lemma tree_record id r : index !! id = Some r ->
  r ∈ records /\ r_id r = id /\ validID id = true /\ Kind_known (r_kind r) = true /\ r_workspaceID r = ws /\
  placed ws index r.
Proof.
  intros [Hin <-]%index_of_lookup; [|apply Ht]. destruct Ht as [_ _ Hv _ Ho _ Hp]. rewrite Forall_forall in Hv, Ho, Hp.
  destruct (Hv r Hin) as (? & ? & ? & ? & ?). auto 7.
Qed.

Lemma lookup_target_ok id r : lookup_target s id = Ok r <-> index !! id = Some r.
Proof.
  unfold lookup_target. rewrite map_err_ok. unfold Snapshot_Lookup. simpl. split.
  - destruct (validID id); [|done]. apply of_option_ok.
  - intros Hr. destruct (tree_record id r Hr) as (_ & _ & -> & _). simpl. by rewrite (of_option_ok _ _ r).
Qed.

(** A child and its parent in the tree. *)
Lemma tree_parent id r : index !! id = Some r -> r_kind r <> KindWorkspace ->
  exists p parent, r_parent r = Some p /\ index !! p = Some parent /\ r_kind parent = expectedParentKind (r_kind r) /\
    lookup_target s p = Ok parent /\ r_id parent = p /\ r_workspaceID parent = ws.
Proof.
  intros Hr Hk. destruct (tree_record id r Hr) as (_ & _ & _ & _ & _ & Hp). unfold placed, is_workspace in Hp.
  rewrite bool_decide_eq_false_2 in Hp by done. destruct Hp as (p & parent & Hpar & Hl & Hkind).
  exists p, parent. destruct (tree_record p parent Hl) as (_ & ? & _ & _ & ? & _).
  repeat split; try done. by apply lookup_target_ok.
Qed.

Lemma no_environment_above id r e : index !! id = Some r -> r_kind r = KindWorkspace -> ~ environment_above index id e.
Proof.
  intros Hr Hk. rewrite (above_step _ _ _ _ Hr). intros [[? _]|(p & Hp & _)]; [congruence|].
  destruct (tree_record id r Hr) as (_ & _ & _ & _ & _ & Hpl). unfold placed, is_workspace in Hpl.
  rewrite bool_decide_eq_true_2 in Hpl by done. destruct Hpl. congruence.
Qed.

Lemma environment_is id r e : index !! id = Some r -> r_kind r = KindEnvironment -> environment_above index id e <-> e = id.
Proof.
  intros Hr Hk. rewrite (above_step _ _ _ _ Hr). split; [|by left]. intros [[_ ->]|(p & Hp & Ha)]; [done|].
  destruct (tree_parent id r Hr) as (p' & pr & Hp' & Hl & Hpk & _); [by rewrite Hk|].
  rewrite Hk in Hpk. replace p with p' in Ha by congruence. by destruct (no_environment_above p' pr e Hl Hpk).
Qed.

(** A record below a parent has the environment of the parent. *)
Lemma environment_up id r p e : index !! id = Some r -> r_kind r <> KindEnvironment -> r_parent r = Some p ->
  environment_above index id e <-> environment_above index p e.
Proof.
  intros Hr Hk Hp. rewrite (above_step _ _ _ _ Hr). split.
  - intros [[? _]|(q & Hq & Ha)]; [done|]. by replace p with q by congruence.
  - intros Ha. right. by exists p.
Qed.

Lemma owned_parent_ok p kind parent : index !! p = Some parent -> r_kind parent = kind ->
  owned_parent s (Some p) kind ws = Ok parent.
Proof.
  intros Hl Hk. unfold owned_parent. simpl. rewrite (proj2 (lookup_target_ok p parent) Hl). simpl.
  destruct (tree_record p parent Hl) as (_ & _ & _ & _ & -> & _). by rewrite bool_decide_eq_true_2, String.eqb_refl.
Qed.

Lemma resolve_environment id r : index !! id = Some r ->
  exists o, resolveRecordEnvironment s r = Ok o /\ (forall e, o = Some e <-> environment_above index id e) /\
    is_some o = wantsEnvironment (r_kind r).
Proof.
  intros Hr. destruct (tree_record id r Hr) as (_ & Hid & _ & Hkn & Hws & _). unfold resolveRecordEnvironment.
  destruct (r_kind r) eqn:Hk; try done.
  - exists None. split; [done|]. split; [|done]. intros e. split; [done|]. intros Ha. by destruct (no_environment_above id r e).
  - exists (Some (r_id r)). split; [done|]. split; [|done]. intros e. rewrite (environment_is id r e Hr Hk), Hid. naive_solver.
  - destruct (tree_parent id r Hr) as (p & pr & Hp & Hl & Hpk & _ & Hpid & _); [by rewrite Hk|]. rewrite Hk in Hpk.
    rewrite Hp, Hws, (owned_parent_ok p KindEnvironment pr Hl Hpk). exists (Some p). simpl. rewrite Hpid. split; [done|]. split; [|done].
    intros e. rewrite (environment_up id r p e Hr) by (done || by rewrite Hk). rewrite (environment_is p pr e Hl Hpk). naive_solver.
  - destruct (tree_parent id r Hr) as (p & pr & Hp & Hl & Hpk & _ & Hpid & _); [by rewrite Hk|]. rewrite Hk in Hpk.
    destruct (tree_parent p pr Hl) as (q & qr & Hq & Hql & Hqk & _ & Hqid & _); [by rewrite Hpk|]. rewrite Hpk in Hqk.
    rewrite Hp, Hws, (owned_parent_ok p KindApplication pr Hl Hpk). simpl. rewrite Hq, (owned_parent_ok q KindEnvironment qr Hql Hqk). simpl.
    exists (Some q). rewrite Hqid. split; [done|]. split; [|done].
    intros e. rewrite (environment_up id r p e Hr) by (done || by rewrite Hk).
    rewrite (environment_up p pr q e Hl) by (done || by rewrite Hpk). rewrite (environment_is q qr e Hql Hqk). naive_solver.
  - exists None. split; [done|]. split; [|done]. intros e. split; [done|]. intros Ha. exfalso. revert Ha.
    destruct (tree_parent id r Hr) as (p & pr & Hp & Hl & Hpk & _); [by rewrite Hk|]. rewrite Hk in Hpk.
    rewrite (environment_up id r p e Hr) by (done || by rewrite Hk). by apply (no_environment_above p pr).
  - destruct (tree_parent id r Hr) as (p & pr & Hp & Hl & Hpk & _ & Hpid & _); [by rewrite Hk|]. rewrite Hk in Hpk.
    rewrite Hp, Hws, (owned_parent_ok p KindEnvironment pr Hl Hpk). exists (Some p). simpl. rewrite Hpid. split; [done|]. split; [|done].
    intros e. rewrite (environment_up id r p e Hr) by (done || by rewrite Hk). rewrite (environment_is p pr e Hl Hpk). naive_solver.
Qed.

Lemma environment_valid id e : environment_above index id e -> validID e = true.
Proof. intros [_ (r & Hr & _)]. by destruct (tree_record e r Hr) as (_ & _ & ? & _). Qed.

(** The target of a record for an object of one of the kinds. *)
Definition sealed (target : Target) (objectKind : ObjectKind) (objectID : ID) (r : Record) : Prop :=
  tg_initialized target = true /\ tg_objectKind target = objectKind /\ tg_objectID target = objectID /\
  tg_resourceKind target = r_kind r /\ tg_resourceID target = r_id r /\ tg_workspaceID target = ws /\
  forall e, tg_environmentID target = Some e <-> environment_above index (r_id r) e.

Lemma targetFromRecord_ok objectKind objectID r provider t : r ∈ records ->
  targetFromRecord s objectKind objectID r provider = Ok t ->
  sealed t objectKind objectID r /\ tg_providerConnectionID t = provider /\ ValidateTarget t = true.
Proof.
  intros Hr E. assert (index !! r_id r = Some r) as Hl by (apply index_of_lookup; [apply Ht | done]).
  destruct (resolve_environment _ _ Hl) as (o & Ho & He & _). unfold targetFromRecord in E. rewrite Ho in E. simpl in E.
  unfold newTarget in E. case_match eqn:G; [|done]. injection E as <-. split; [|done].
  destruct (tree_record _ _ Hl) as (_ & _ & _ & _ & Hw & _). repeat split; try done; by apply He.
Qed.

Lemma resource_target r : r ∈ records -> exists t, ResolveResourceTarget s (r_id r) = Ok t.
Proof.
  intros Hr. assert (index !! r_id r = Some r) as Hl by (apply index_of_lookup; [apply Ht | done]).
  destruct (resolve_environment _ _ Hl) as (o & Ho & He & Hw).
  destruct (tree_record _ _ Hl) as (_ & _ & Hid & Hkn & Hws & Hp).
  unfold ResolveResourceTarget. rewrite (proj2 (lookup_target_ok _ _) Hl). simpl. unfold targetFromRecord. rewrite Ho. simpl.
  unfold newTarget. assert (ValidateTarget (Tg true ObjectKindResource (r_id r) (r_kind r) (r_id r) (r_workspaceID r) o None) = true)
    as ->; [|by eexists].
  unfold ValidateTarget. cbn -[validID wantsEnvironment Kind_known]. rewrite Hkn, Hid, Hws, (tr_workspace _ _ Ht), <- Hw, String.eqb_refl, Bool.eqb_reflx.
  assert (bool_decide (r_kind r = KindWorkspace) && negb (String.eqb (r_id r) ws) = false) as ->.
  { unfold placed, is_workspace in Hp. case_bool_decide; [|done]. destruct Hp as [-> _]. by rewrite String.eqb_refl. }
  destruct o as [e|]; [|done]. assert (environment_above index (r_id r) e) as Ha by by apply He.
  by rewrite (environment_valid _ _ Ha).
Qed.

Lemma operation_target op res w env conn t : ResolveOperationTarget s op res w env conn = Ok t ->
  w = ws /\ exists r, r ∈ records /\ r_id r = res /\ sealed t ObjectKindOperation op r /\ tg_providerConnectionID t = conn /\
  forall c, conn = Some c -> exists e cr, env = Some e /\ tg_environmentID t = Some e /\ index !! c = Some cr /\
    r_kind cr = KindProviderConnection /\ environment_above index c e.
Proof.
  unfold ResolveOperationTarget. intros E. run_inv E. apply lookup_target_ok in Hr0.
  destruct (tree_record _ _ Hr0) as (Hin & Hid & _ & _ & Hw & _).
  apply (targetFromRecord_ok _ _ _ _ _ Hin) in Hr2 as (Hs & Hc & Hv). autorewrite with guards in *.
  destruct conn as [c|].
  - run_inv E. match goal with G : lookup_target s c = Ok ?x |- _ => rename x into cr, G into Hcr end.
    match goal with G : resolveRecordEnvironment s cr = Ok ?x |- _ => rename x into o, G into Hco end.
    apply lookup_target_ok in Hcr. destruct (resolve_environment _ _ Hcr) as (o' & Ho & He & _).
    rewrite Hco in Ho. injection Ho as <-. autorewrite with guards in *. split; [destruct_and!; congruence|].
    exists x0. split; [done|]. split; [done|]. split; [done|]. split; [done|]. intros c' [= <-].
    destruct_and!. destruct env as [e|]; [|done]. exists e, cr. subst o. repeat split; try done; by apply He.
  - run_inv E. split; [destruct_and!; congruence|]. by exists x0.
Qed.
End Sealed.

(** ** Creation *)

Lemma index_extended records r id old : index_of records !! r_id r = None -> index_of records !! id = Some old ->
  index_of (r :: records) !! id = Some old.
Proof. intros Hn Hl. rewrite index_of_cons_ne; [done|]. intros ->. congruence. Qed.

(** The environment read from a placement is the one read from its record. *)
Lemma placement_environment ws records pl p parent o : tree ws records -> tree ws (record_of pl :: records) ->
  index_of records !! p_id pl = None -> p_workspaceID pl = ws -> p_parent pl = Some p -> p_kind pl <> KindWorkspace ->
  index_of records !! p = Some parent -> r_kind parent = expectedParentKind (p_kind pl) ->
  resolvePlacementEnvironment (snapshot_of ws records) pl = Ok o ->
  resolveRecordEnvironment (snapshot_of ws (record_of pl :: records)) (record_of pl) = Ok o.
Proof.
  intros Ht Ht' Hnew Hw Hp Hk Hl Hpk E.
  assert (forall q r, index_of records !! q = Some r -> index_of (record_of pl :: records) !! q = Some r) as Hext
    by (intros q r; by apply index_extended).
  destruct (tree_record _ _ Ht p parent Hl) as (_ & Hid & _).
  unfold resolvePlacementEnvironment in E. unfold resolveRecordEnvironment.
  change (r_kind (record_of pl)) with (p_kind pl). change (r_parent (record_of pl)) with (p_parent pl).
  change (r_workspaceID (record_of pl)) with (p_workspaceID pl). change (r_id (record_of pl)) with (p_id pl).
  rewrite Hp, Hw in *.
  destruct (p_kind pl); try done.
  - simpl in E. injection E as <-. rewrite (owned_parent_ok ws _ Ht' p KindEnvironment parent (Hext _ _ Hl) Hpk). simpl. by rewrite Hid.
  - rewrite (owned_parent_ok ws _ Ht' p KindApplication parent (Hext _ _ Hl) Hpk). simpl in E |- *.
    rewrite (proj2 (lookup_target_ok _ _ Ht p parent) Hl) in E. simpl in E. rewrite bool_decide_eq_true_2 in E by done. simpl in E.
    destruct (tree_parent _ _ Ht p parent Hl) as (q & qr & Hq & Hql & Hqk & _ & Hqid & _); [by rewrite Hpk|].
    rewrite Hq in *. rewrite Hpk in Hqk. simpl in E. injection E as <-.
    rewrite (owned_parent_ok ws _ Ht' q KindEnvironment qr (Hext _ _ Hql) Hqk). simpl. by rewrite Hqid.
  - simpl in E. injection E as <-. rewrite (owned_parent_ok ws _ Ht' p KindEnvironment parent (Hext _ _ Hl) Hpk). simpl. by rewrite Hid.
Qed.

Lemma create_target ws records pl t : tree ws records -> p_kind pl <> KindWorkspace ->
  ResolveCreateTarget (snapshot_of ws records) pl = Ok t -> llen records < MaxSnapshotRecords ->
  tree ws (record_of pl :: records) /\ ResolveResourceTarget (snapshot_of ws (record_of pl :: records)) (p_id pl) = Ok t.
Proof.
  intros Ht Hk E Hmax. unfold ResolveCreateTarget in E. rewrite (bool_decide_eq_false_2 _ Hk) in E. run_inv E.
  rename x0 into p, Hr1 into Hd, Hr3 into He.
  apply DeriveChild_ok in Hd as (parent & _ & H1 & H2 & H3 & H4 & H5 & H6 & H7 & _ & ->).
  unfold equalPlacement in Hr2. simpl in Hr2, H5, H6. autorewrite with guards in Hr2. destruct_and!.
  assert (tree ws (record_of pl :: records)) as Ht'.
  { destruct pl as [i k w o]. simpl in *. subst. by eapply tree_insert. }
  split; [done|].
  assert (index_of (record_of pl :: records) !! p_id pl = Some (record_of pl)) as Hl
    by (apply index_of_lookup; [apply Ht' | split; [constructor | done]]).
  unfold ResolveResourceTarget. rewrite (proj2 (lookup_target_ok _ _ Ht' _ _) Hl). simpl.
  unfold targetFromRecord. rewrite (placement_environment ws records pl p parent x3); done.
Qed.

(** C33: authorization targets are sealed.  Every resource of the workspace has
    a target, and only these; its workspace, kind and environment are the ones
    of the tree - the environment is the one at or above the resource.  An
    operation target has moreover no provider connection, or one in that very
    environment, which the caller named.  And a creation is authorized on
    exactly the target the new resource resolves to once it is in the tree. *)
Theorem targets_sealed (ws : ID) (records : list Record) (s : Snapshot) (Hs : NewSnapshot ws records = Ok s) :
  (forall r, r ∈ records -> exists t, ResolveResourceTarget s (r_id r) = Ok t) /\
  (forall id t, ResolveResourceTarget s id = Ok t ->
     exists r, r ∈ records /\ r_id r = id /\ sealed ws records t ObjectKindResource id r /\ tg_providerConnectionID t = None) /\
  (forall op res w env conn t, ResolveOperationTarget s op res w env conn = Ok t ->
     w = ws /\ exists r, r ∈ records /\ r_id r = res /\ sealed ws records t ObjectKindOperation op r /\
       tg_providerConnectionID t = conn /\
       forall c, conn = Some c -> exists e cr, env = Some e /\ tg_environmentID t = Some e /\
         index_of records !! c = Some cr /\ r_kind cr = KindProviderConnection /\ environment_above (index_of records) c e) /\
  (forall pl t, p_kind pl <> KindWorkspace -> ResolveCreateTarget s pl = Ok t -> llen records < MaxSnapshotRecords ->
     exists s', NewSnapshot ws (record_of pl :: records) = Ok s' /\ ResolveResourceTarget s' (p_id pl) = Ok t).
Proof.
  apply NewSnapshot_ok in Hs as [Ht ->]. split; [|split; [|split]].
  - by apply resource_target.
  - intros id t E. unfold ResolveResourceTarget in E. run_inv E. apply (lookup_target_ok _ _ Ht) in Hr.
    destruct (tree_record _ _ Ht _ _ Hr) as (Hin & Hid & _). exists x.
    destruct (targetFromRecord_ok _ _ Ht _ _ _ _ _ Hin E) as (? & ? & _). done.
  - by apply operation_target.
  - intros pl t Hk E Hmax. destruct (create_target ws records pl t Ht Hk E Hmax) as [Ht' Ht2].
    eexists. split; [by apply NewSnapshot_ok | done].
Qed.

(** The application lives in its environment; an operation on it cannot be
    bound to a connection of another. *)
Lemma targets_sealed_witness :
  (exists t, ResolveResourceTarget (snapshot_of h_ws h_records) h_app = Ok t /\ tg_environmentID t = Some h_env) /\
  (exists s', NewSnapshot h_ws (record_of (Pl "component-0000000001" KindComponent h_ws (Some h_app)) :: h_records) = Ok s' /\
     result_ok (ResolveResourceTarget s' "component-0000000001") = true) /\
  ResolveOperationTarget (snapshot_of h_ws h_records) "operation-0000000001" h_app h_ws (Some h_env2) (Some h_connection)
    = Err ErrInvalidTarget.
Proof.
  destruct (targets_sealed h_ws h_records _ h_snapshot_ok) as (H1 & H2 & _ & H4). split; [|split].
  - destruct (H1 (h_record h_app KindApplication (Some h_env))) as [t Ht]; [do 3 right; left|].
    exists t. split; [exact Ht|]. destruct (H2 _ _ Ht) as (r & Hr & Hid & (_ & _ & _ & _ & _ & _ & He) & _).
    apply He. rewrite Hid. split.
    + apply rtc_once. vm_compute. reflexivity.
    + exists (h_record h_env KindEnvironment (Some h_ws)). split; vm_compute; reflexivity.
  - destruct (ResolveCreateTarget (snapshot_of h_ws h_records) (Pl "component-0000000001" KindComponent h_ws (Some h_app))) as [t|e] eqn:E.
    + destruct (H4 (Pl "component-0000000001" KindComponent h_ws (Some h_app)) t) as (s' & Hs' & Ht);
        [discriminate | exact E | vm_compute; reflexivity|]. exists s'.
      split; [exact Hs'|]. cbn [p_id] in Ht. rewrite Ht. reflexivity.
    + exfalso. vm_compute in E. discriminate E.
  - vm_compute. reflexivity.
Defined.
