(* ===== verification/Condition.v ===== *)
(** * Status conditions (condition/condition.go)

    A condition is one typed, three-valued observation with the generation it
    observed and the time its truth last changed.  [New] and [Transition] are
    the only writers; a set of conditions is kept sorted by type. *)

From S2P Require Import Prelude StringOrder Bytes GoTime Calendar Closed.
From Stdlib Require Import String.

Inductive error :=
| ErrInvalidCondition
| ErrInvalidConditionType
| ErrInvalidStatus
| ErrInvalidReason
| ErrInvalidMessage
| ErrObservedGeneration
| ErrInvalidTimestamp
| ErrInvalidTransition
| ErrInvalidConditionSet
| ErrTooManyConditions
| ErrDuplicateCondition
| ErrConditionOrder
| ErrWrap (outer inner : error).

Definition MaxConditions : Z := 32.
Definition maxMessageRunes : Z := 512.

(** [utf8.UTFMax] *)
Definition UTFMax : Z := 4.

(** [^[A-Z][A-Za-z0-9]{0,63}$] *)
Definition typePattern (value : string) : bool := matches_pattern is_upper is_alnum 0 63 value.
Definition reasonPattern (value : string) : bool := matches_pattern is_upper is_alnum 0 63 value.

Inductive Status := StatusTrue | StatusFalse | StatusUnknown | StatusOther (raw : string).

#[export] Instance Status_eq : EqDecision Status.
Proof. solve_decision. Defined.

Definition validStatus (status : Status) : bool := match status with StatusOther _ => false | _ => true end.

Record Condition := Cond {
  co_Type : string;
  co_Status : Status;
  co_Reason : string;
  co_Message : string;
  co_ObservedGeneration : Z;
  co_LastTransitionAt : string;
}.

#[export] Instance Condition_eq : EqDecision Condition.
Proof. solve_decision. Defined.

(** [condition.Input] and [condition.Update] *)
Record ConditionInput := CI {
  ci_Type : string;
  ci_Status : Status;
  ci_Reason : string;
  ci_Message : string;
  ci_ObservedGeneration : Z;
}.

Record ConditionUpdate := CU {
  cu_Status : Status;
  cu_Reason : string;
  cu_Message : string;
  cu_ObservedGeneration : Z;
}.

(** A bounded safe message, shared with operations. *)
Definition valid_message (message : string) : bool :=
  negb ((maxMessageRunes * UTFMax <? slen message) || negb (utf8_valid message) || (maxMessageRunes <? llen (runes message))).

Definition invalid {A} (e : error) : result error A := Err (ErrWrap ErrInvalidCondition e).

Definition Condition_Validate (value : Condition) (resourceGeneration : Z) : result error unit :=
  if resourceGeneration <? 1 then invalid ErrObservedGeneration
  else if negb (typePattern (co_Type value)) then invalid ErrInvalidConditionType
  else if negb (validStatus (co_Status value)) then invalid ErrInvalidStatus
  else if negb (reasonPattern (co_Reason value)) then invalid ErrInvalidReason
  else if negb (valid_message (co_Message value)) then invalid ErrInvalidMessage
  else if (co_ObservedGeneration value <? 0) || (resourceGeneration <? co_ObservedGeneration value) then invalid ErrObservedGeneration
  else match parseTimestamp (co_LastTransitionAt value) with
       | None => invalid ErrInvalidTimestamp
       | Some _ => Ok tt
       end.

Definition Condition_New (input : ConditionInput) (resourceGeneration : Z) (transitionAt : time) : result error Condition :=
  timestamp ← of_option (normalizeTimestamp transitionAt) ErrInvalidTimestamp;
  let result := Cond (ci_Type input) (ci_Status input) (ci_Reason input) (ci_Message input) (ci_ObservedGeneration input) timestamp in
  Condition_Validate result resourceGeneration;;
  Ok result.

(** [time.Parse] with its error ignored: the zero time on failure. *)
Definition parsed_or_zero (value : string) : time := default zero_time (parse_layout value).

(** The new transition time of a condition whose status changes. *)
Definition advance_transition (before : Condition) (transitionAt : time) : result error string :=
  normalized ← of_option (normalizeTimestamp transitionAt) (ErrWrap ErrInvalidTransition ErrInvalidTimestamp);
  fail_if (negb (after (parsed_or_zero normalized) (parsed_or_zero (co_LastTransitionAt before))))
    (ErrWrap ErrInvalidTransition ErrInvalidTimestamp);;
  Ok normalized.

Definition Condition_Transition (before : Condition) (update : ConditionUpdate) (resourceGeneration : Z) (transitionAt : time)
    : result error Condition :=
  map_err (ErrWrap ErrInvalidTransition) (Condition_Validate before resourceGeneration);;
  fail_if (cu_ObservedGeneration update <? co_ObservedGeneration before) (ErrWrap ErrInvalidTransition ErrObservedGeneration);;
  let after_at (at_ : string) := Cond (co_Type before) (cu_Status update) (cu_Reason update) (cu_Message update)
                                      (cu_ObservedGeneration update) at_ in
  let unmoved := after_at (co_LastTransitionAt before) in
  if bool_decide (unmoved = before) then Ok before else
  after ← (if bool_decide (co_Status before = cu_Status update) then Ok unmoved
           else at_ ← advance_transition before transitionAt; Ok (after_at at_));
  map_err (ErrWrap ErrInvalidTransition) (Condition_Validate after resourceGeneration);;
  Ok after.

Definition in_set {A} (e : error) : result error A := Err (ErrWrap ErrInvalidConditionSet e).

(** The loop of [ValidateSet]. *)
Fixpoint check_conditions (previous : option string) (resourceGeneration : Z) (values : list Condition) : result error unit :=
  match values with
  | [] => Ok tt
  | value :: rest =>
      map_err (ErrWrap ErrInvalidConditionSet) (Condition_Validate value resourceGeneration);;
      match previous with
      | None => Ok tt
      | Some p => if String.eqb p (co_Type value) then in_set ErrDuplicateCondition
                  else if String.ltb (co_Type value) p then in_set ErrConditionOrder else Ok tt
      end;;
      check_conditions (Some (co_Type value)) resourceGeneration rest
  end.

Definition ValidateSet (values : list Condition) (resourceGeneration : Z) : result error unit :=
  fail_if (MaxConditions <? llen values) (ErrWrap ErrInvalidConditionSet ErrTooManyConditions);;
  check_conditions None resourceGeneration values.

(** * Properties of status conditions

    A condition keeps its type, never observes an older generation, and its
    transition time is the time of its last change of status; a valid set has
    one condition per type, in order. *)

Lemma Validate_ok c g : Condition_Validate c g = Ok tt <->
  1 <= g /\ typePattern (co_Type c) = true /\ validStatus (co_Status c) = true /\ reasonPattern (co_Reason c) = true /\
  valid_message (co_Message c) = true /\ 0 <= co_ObservedGeneration c <= g /\
  exists t, parseTimestamp (co_LastTransitionAt c) = Some t.
Proof.
  unfold Condition_Validate, invalid. split.
  - intros E. repeat (destruct (_ : bool) eqn:?G in E; [discriminate E|]).
    destruct (parseTimestamp _) as [t|]; [|done]. autorewrite with guards in *. destruct_and!.
    repeat split; try done; try lia. by exists t.
  - intros (H1 & -> & -> & -> & -> & H2 & t & ->). simpl.
    assert (g <? 1 = false) as -> by by apply Z.ltb_ge.
    assert ((co_ObservedGeneration c <? 0) || (g <? co_ObservedGeneration c) = false) as ->; [|done].
    apply orb_false_iff. rewrite !Z.ltb_ge. lia.
Qed.

(** The instant of a valid condition's last transition. *)
Definition transition_time (c : Condition) : time := parsed_or_zero (co_LastTransitionAt c).

Lemma parsed_parse s t : parseTimestamp s = Some t -> parsed_or_zero s = t.
Proof. intros (Hs & ->)%parseTimestamp_ok. unfold parsed_or_zero. by rewrite parse_format. Qed.

Lemma parsed_normalized v s : normalizeTimestamp v = Some s -> parsed_or_zero s = truncate_ms v.
Proof. intros Hn. by apply parsed_parse, normalize_parse. Qed.

(** What [Transition] makes of a condition. *)
Definition updated (b : Condition) (u : ConditionUpdate) (at_ : string) : Condition :=
  Cond (co_Type b) (cu_Status u) (cu_Reason u) (cu_Message u) (cu_ObservedGeneration u) at_.

Lemma Transition_ok b u g at_ a : Condition_Transition b u g at_ = Ok a <->
  Condition_Validate b g = Ok tt /\ co_ObservedGeneration b <= cu_ObservedGeneration u /\
  ((a = b /\ updated b u (co_LastTransitionAt b) = b) \/
   (Condition_Validate a g = Ok tt /\ updated b u (co_LastTransitionAt b) <> b /\
    ((co_Status b = cu_Status u /\ a = updated b u (co_LastTransitionAt b)) \/
     (co_Status b <> cu_Status u /\ exists s, normalizeTimestamp at_ = Some s /\ transition_time b < truncate_ms at_ /\
        a = updated b u s)))).
Proof.
  unfold Condition_Transition. fold (updated b u (co_LastTransitionAt b)). split.
  - intros E. apply bind_ok in E as ([] & Hv%map_err_ok & E). apply bind_ok in E as ([] & Hg%fail_if_ok & E).
    apply Z.ltb_ge in Hg. split; [done|]. split; [done|]. case_bool_decide as Heq; [injection E as <-; by left|]. right.
    apply bind_ok in E as (c & Ec & E). apply bind_ok in E as ([] & Hva%map_err_ok & E). injection E as <-.
    split; [done|]. split; [done|]. case_bool_decide as Hs; [left; split; [done|]; by injection Ec as <-|]. right. split; [done|].
    apply bind_ok in Ec as (s & Es & Ec). injection Ec as <-. unfold advance_transition in Es.
    apply bind_ok in Es as (s' & Hn%of_option_ok & Es). apply bind_ok in Es as ([] & Ha%fail_if_ok & Es). injection Es as <-.
    exists s'. split; [done|]. split; [|done]. autorewrite with guards in Ha. unfold transition_time.
    by rewrite (parsed_normalized _ _ Hn) in Ha.
  - intros (Hv & Hg & Hcase). rewrite Hv. simpl. rewrite (proj2 (Z.ltb_ge _ _) Hg). simpl.
    destruct Hcase as [[-> Heq]|(Hva & Hne & Hcase)]; [by rewrite bool_decide_eq_true_2|]. rewrite bool_decide_eq_false_2 by done.
    destruct Hcase as [[Hs ->]|(Hs & s & Hn & Ht & ->)].
    + rewrite bool_decide_eq_true_2 by done. simpl. by rewrite Hva.
    + rewrite bool_decide_eq_false_2 by done. unfold advance_transition. rewrite Hn. simpl.
      rewrite (parsed_normalized _ _ Hn). unfold transition_time in Ht.
      rewrite (proj2 (after_true _ _) Ht). simpl. fold (updated b u s). by rewrite Hva.
Qed.

(** One write of a condition: any update, at any time, at the generation the
    resource has then. *)
Definition condition_step (g : Z) (b a : Condition) : Prop := exists u at_, Condition_Transition b u g at_ = Ok a.

(** Histories: the generation of the resource never goes back. *)
Inductive condition_history : Z -> Condition -> Z -> Condition -> Prop :=
| history_refl g c : condition_history g c g c
| history_step g c g1 c1 g2 c2 :
    condition_history g c g1 c1 -> g1 <= g2 -> condition_step g2 c1 c2 -> condition_history g c g2 c2.

Lemma validate_time c g : Condition_Validate c g = Ok tt -> exists t, parseTimestamp (co_LastTransitionAt c) = Some t /\ transition_time c = t.
Proof. intros (_ & _ & _ & _ & _ & _ & t & Ht)%Validate_ok. exists t. split; [done | by apply parsed_parse]. Qed.

Lemma step_facts g b a : condition_step g b a ->
  Condition_Validate a g = Ok tt /\ co_Type a = co_Type b /\ co_ObservedGeneration b <= co_ObservedGeneration a /\
  (co_Status a = co_Status b -> co_LastTransitionAt a = co_LastTransitionAt b) /\
  (co_Status a <> co_Status b -> transition_time b < transition_time a).
Proof.
  intros (u & at_ & (Hv & Hg & [[-> _]|(Hva & _ & [[Hs ->]|(Hs & s & Hn & Ht & ->)])])%Transition_ok).
  - done.
  - split; [done|]. split; [done|]. split; [done|]. split; [done|]. simpl. congruence.
  - split; [done|]. split; [done|]. split; [done|]. simpl. split; [congruence|]. intros _.
    unfold transition_time at 2. simpl. by rewrite (parsed_normalized _ _ Hn).
Qed.

(** Conditions move forward.  A new condition is valid; through any
    sequence of transitions, under generations that do not go back, it stays
    valid, keeps its type and never observes an older generation; its
    transition time never moves back, and strictly advances whenever the status
    is another one.  A transition to the same fields returns the condition
    unchanged whatever its timestamp, and a transition changes the time exactly
    when it changes the status. *)
Theorem condition_moves_forward :
  (forall input g at_ c, Condition_New input g at_ = Ok c ->
     Condition_Validate c g = Ok tt /\ transition_time c = truncate_ms at_) /\
  (forall g c g' c', Condition_Validate c g = Ok tt -> condition_history g c g' c' ->
     Condition_Validate c' g' = Ok tt /\ co_Type c' = co_Type c /\ co_ObservedGeneration c <= co_ObservedGeneration c' /\
     transition_time c <= transition_time c' /\
     (transition_time c = transition_time c' -> co_Status c' = co_Status c)) /\
  (forall g b u at_, Condition_Validate b g = Ok tt -> updated b u (co_LastTransitionAt b) = b ->
     Condition_Transition b u g at_ = Ok b) /\
  (forall g b a, condition_step g b a ->
     co_LastTransitionAt a = co_LastTransitionAt b <-> co_Status a = co_Status b).
Proof.
  split; [|split; [|split]].
  - intros input g at_ c H. unfold Condition_New in H. run_inv H. destruct x0. split; [done|].
    unfold transition_time. simpl. by apply parsed_normalized.
  - intros g c g' c' Hv Hh. induction Hh as [g c|g c g1 c1 g2 c2 Hh IH Hle Hs]; [repeat split; try done; lia|].
    destruct (IH Hv) as (Hv1 & Ht & Hg & Htime & Heq). apply step_facts in Hs as (Hv2 & Ht2 & Hg2 & Hsame & Hdiff).
    split; [done|]. split; [congruence|]. split; [lia|].
    destruct (decide (co_Status c2 = co_Status c1)) as [E|E].
    + unfold transition_time in *. rewrite (Hsame E). split; [done|]. intros Ec. rewrite E. by apply Heq.
    + specialize (Hdiff E). split; [lia|]. lia.
  - intros g b u at_ Hv Heq. apply Transition_ok. split; [done|]. split; [|by left].
    assert (co_ObservedGeneration (updated b u (co_LastTransitionAt b)) = co_ObservedGeneration b) as E by by rewrite Heq.
    simpl in E. lia.
  - intros g b a Hs. apply step_facts in Hs as (_ & _ & _ & Hsame & Hdiff). split; [|done]. intros E.
    destruct (decide (co_Status a = co_Status b)) as [?|Hne]; [done|]. specialize (Hdiff Hne).
    unfold transition_time in Hdiff. rewrite E in Hdiff. lia.
Qed.

(** ** Sets *)

Lemma check_conditions_ok g values : forall p,
  check_conditions p g values = Ok tt <->
  Forall (fun c => Condition_Validate c g = Ok tt) values /\ increasing_from p (co_Type <$> values) = true.
Proof.
  induction values as [|c values IH]; intros p.
  - split; [intros _; split; [by apply Forall_nil | done] | done].
  - cbn [check_conditions]. rewrite Forall_cons, fmap_cons. cbn [increasing_from]. rewrite andb_true_iff. split.
    + intros E. apply bind_ok in E as ([] & Hv%map_err_ok & E). apply bind_ok in E as ([] & Hp & E).
      apply IH in E as [HF Hi]. split; [done|]. split; [|done]. destruct p as [p|]; [|done]. unfold in_set in Hp.
      destruct (String.eqb_spec p (co_Type c)) as [?|Hne]; [done|]. destruct (String.ltb (co_Type c) p) eqn:Hl; [done|].
      destruct (string_trichotomy p (co_Type c)) as [?|[?|?]]; congruence.
    + intros ((Hv & HF) & (Hp & Hi)). rewrite Hv. simpl. destruct p as [p|].
      * destruct (String.eqb_spec p (co_Type c)) as [->|Hne]; [by rewrite string_ltb_irrefl in Hp|].
        rewrite (string_ltb_asym _ _ Hp). simpl. by apply IH.
      * simpl. by apply IH.
Qed.

Lemma ValidateSet_ok g vs : ValidateSet vs g = Ok tt <->
  llen vs <= MaxConditions /\ Forall (fun c => Condition_Validate c g = Ok tt) vs /\ increasing (co_Type <$> vs) = true.
Proof.
  unfold ValidateSet. rewrite bind_ok. setoid_rewrite fail_if_ok. setoid_rewrite Z.ltb_ge.
  setoid_rewrite check_conditions_ok. unfold increasing. split; [intros (_ & ? & ?); done | intros; exists tt; done].
Qed.

Lemma condition_set_facts vs g : ValidateSet vs g = Ok tt ->
  NoDup (co_Type <$> vs) /\ Forall (fun c => Condition_Validate c g = Ok tt) vs.
Proof. intros (_ & HF & Hi)%ValidateSet_ok. split; [by apply sorted_lt_nodup, increasing_sorted | done]. Qed.

(** Condition sets are exact.  [ValidateSet] accepts exactly the sequences
    of at most 32 valid conditions in strictly increasing byte order of their
    types; so there is at most one condition of a type, and a set of conditions
    has one accepted order. *)
Theorem condition_set_exact (values : list Condition) (g : Z) :
  (ValidateSet values g = Ok tt <->
     llen values <= MaxConditions /\ Forall (fun c => Condition_Validate c g = Ok tt) values /\
     increasing (co_Type <$> values) = true) /\
  (ValidateSet values g = Ok tt -> NoDup (co_Type <$> values)) /\
  (forall values', ValidateSet values g = Ok tt -> ValidateSet values' g = Ok tt ->
     (forall c, c ∈ values <-> c ∈ values') -> values = values').
Proof.
  split; [apply ValidateSet_ok|]. split.
  - intros Hv. by apply condition_set_facts in Hv as [? _].
  - intros values' (_ & _ & H1)%ValidateSet_ok (_ & _ & H2)%ValidateSet_ok Hset. apply (sorted_key_unique co_Type); [done..|].
    apply NoDup_Permutation; [| | done]; eapply NoDup_fmap_1; apply sorted_lt_nodup, increasing_sorted; eassumption.
Qed.

(** ** A condition that turns true *)

Definition c_now : time := unix_epoch + 1700000000 * second.

Definition c_input : ConditionInput := CI "Ready" StatusFalse "Provisioning" "waiting for the provider" 1.
Definition c_created : Condition := Cond "Ready" StatusFalse "Provisioning" "waiting for the provider" 1 "2023-11-14T22:13:20.000Z".
Definition c_ready : Condition := Cond "Ready" StatusTrue "Provisioned" "" 2 "2023-11-14T22:13:21.000Z".

Lemma condition_set_exact_witness : [c_created] = [c_created] /\ NoDup (co_Type <$> [c_created]).
Proof.
  assert (ValidateSet [c_created] 2 = Ok tt) as Hv by (vm_compute; reflexivity).
  destruct (condition_set_exact [c_created] 2) as (_ & Hnd & Hu). split; [|exact (Hnd Hv)].
  exact (Hu [c_created] Hv Hv (fun c => conj (fun h => h) (fun h => h))).
Defined.

Lemma condition_moves_forward_witness :
  Condition_New c_input 1 c_now = Ok c_created /\
  Condition_Validate c_ready 2 = Ok tt /\ transition_time c_created < transition_time c_ready.
Proof.
  assert (Condition_New c_input 1 c_now = Ok c_created) as Hnew by (vm_compute; reflexivity).
  assert (condition_step 2 c_created c_ready) as Hs.
  { exists (CU StatusTrue "Provisioned" "" 2), (c_now + second). vm_compute. reflexivity. }
  destruct condition_moves_forward as (H1 & H2 & _). destruct (H1 _ _ _ _ Hnew) as [Hv _].
  assert (condition_history 1 c_created 2 c_ready) as Hh
    by (eapply history_step; [apply history_refl | | exact Hs]; vm_compute; discriminate).
  destruct (H2 1 c_created 2 c_ready Hv Hh) as (Hv2 & _ & _ & _ & _). split; [exact Hnew|]. split; [exact Hv2|].
  vm_compute. reflexivity.
Defined.
