(* ===== verification/Control.v ===== *)
(** * Provider control view (control/control.go, control/decimal.go)

    What Veer retains of a provider: the connection and its credential
    reference, capability and quota observations and cost estimates, with
    canonical decimals that are compared exactly.  The constructors of policy
    and connection resources wrap these validators around [hierarchy.NewResource]
    and are not modelled. *)

From S2P Require Import Prelude StringOrder Bytes GoTime Calendar Closed Digests Json Condition.
From Stdlib Require Import Ascii String.

Inductive error :=
| ErrInvalidPolicyStatus
| ErrInvalidProviderConnectionSpec
| ErrInvalidProviderConnectionSpecTransition
| ErrProviderConnectionRebind
| ErrInvalidProviderConnectionStatus
| ErrInvalidCredentialReference
| ErrInvalidProvider
| ErrInvalidProviderCapability
| ErrInvalidCapabilityState
| ErrInvalidQuotaCheck
| ErrInvalidQuotaState
| ErrInvalidCostEstimate
| ErrInvalidCostState
| ErrInvalidConfidence
| ErrInvalidObservationName
| ErrInvalidObservationSource
| ErrInvalidObservationReason
| ErrInvalidObservationTimestamp
| ErrInvalidObservationGeneration
| ErrObservationCollectionRequired
| ErrTooManyProviderCapabilities
| ErrTooManyQuotaChecks
| ErrDuplicateObservation
| ErrObservationOrder
| ErrInvalidDecimal
| ErrCondition (inner : Condition.error)
| ErrWrap (outer inner : error).

(** ** Patterns *)

Definition MaxProviderCapabilities : Z := 128.
Definition MaxQuotaChecks : Z := 128.

(** [[a-z0-9.-]] *)
Definition name_char (c : ascii) : bool := is_lower c || is_digit c || one_of ".-" c.

Definition providerPattern (value : string) : bool := matches_pattern is_lower name_char 0 63 value.
Definition observationPattern (value : string) : bool := matches_pattern is_lower name_char 0 127 value.
Definition sourcePattern (value : string) : bool := matches_pattern is_lower name_char 0 63 value.

(** [^[A-Za-z0-9_-]{1,128}$] *)
Definition versionPattern (value : string) : bool := matches_pattern id_char id_char 0 127 value.

(** [^[A-Z]{3}$] *)
Definition currencyPattern (value : string) : bool := matches_pattern is_upper is_upper 2 2 value.

(** [^[a-z0-9][a-z0-9-]{0,62}$] *)
Definition region_char (c : ascii) : bool := is_lower c || is_digit c.
Definition regionPattern (value : string) : bool :=
  matches_pattern region_char (fun c => region_char c || one_of "-" c) 0 62 value.

(** ** Canonical decimals *)

Definition MaxDecimalLength : Z := 64.

(** The text before the first point and the text after it. *)
Fixpoint split_point (s : string) : string * option string :=
  match s with
  | EmptyString => ("", None)
  | String c s' => if Ascii.eqb c "."%char then ("", Some s')
                   else let '(whole, fraction) := split_point s' in (String c whole, fraction)
  end.

(** [0|[1-9][0-9]*] *)
Definition canonical_whole (s : string) : bool :=
  match s with
  | EmptyString => false
  | String c s' => if Ascii.eqb c "0"%char then String.eqb s' "" else is_digit c && string_forall is_digit s'
  end.

(** [[0-9]*[1-9]] *)
Fixpoint canonical_fraction (s : string) : bool :=
  match s with
  | EmptyString => false
  | String c s' => is_digit c && match s' with EmptyString => negb (Ascii.eqb c "0"%char) | _ => canonical_fraction s' end
  end.

Definition canonicalDecimalPattern (value : string) : bool :=
  let '(whole, fraction) := split_point value in
  canonical_whole whole && match fraction with None => true | Some f => canonical_fraction f end.

(** [validateCanonicalDecimal]; its error is [ErrInvalidDecimal]. *)
Definition validateCanonicalDecimal (value : string) : bool :=
  negb ((slen value =? 0) || (MaxDecimalLength <? slen value) || negb (canonicalDecimalPattern value)).

(** The digits of a text as an integer. *)
Fixpoint digits_value (acc : Z) (s : string) : Z :=
  match s with EmptyString => acc | String c s' => digits_value (acc * 10 + (byte_val c - 48)) s' end.

(** [big.Rat.SetString] of a canonical decimal: all digits over a power of ten. *)
Record decimal := Decimal { dc_digits : Z; dc_scale : nat }.

Definition decimal_of (value : string) : decimal :=
  let '(whole, fraction) := split_point value in
  let f := default "" fraction in
  Decimal (digits_value (digits_value 0 whole) f) (String.length f).

(** [Rat.Cmp] *)
Definition compare_decimal (left right : decimal) : comparison :=
  Z.compare (dc_digits left * 10 ^ Z.of_nat (dc_scale right)) (dc_digits right * 10 ^ Z.of_nat (dc_scale left)).

Definition compareCanonicalDecimals (left right : string) : result error comparison :=
  fail_if (negb (validateCanonicalDecimal left)) ErrInvalidDecimal;;
  fail_if (negb (validateCanonicalDecimal right)) ErrInvalidDecimal;;
  Ok (compare_decimal (decimal_of left) (decimal_of right)).

(** ** Observations *)

Definition validateObservedGeneration (observed resourceGeneration : Z) : result error unit :=
  fail_if ((resourceGeneration <? 1) || (observed <? 0) || (resourceGeneration <? observed)) ErrInvalidObservationGeneration.

Definition validateObservationMetadata (name source observedAt reason : string) : result error unit :=
  fail_if (negb (observationPattern name)) ErrInvalidObservationName;;
  fail_if (negb (sourcePattern source)) ErrInvalidObservationSource;;
  fail_if (negb (is_some (parseTimestamp observedAt))) ErrInvalidObservationTimestamp;;
  fail_if (negb (reasonPattern reason)) ErrInvalidObservationReason.

(** [validateObservationOrder], given the name before, if there is one. *)
Definition validateObservationOrder (previous : option string) (current : string) : result error unit :=
  match previous with
  | None => Ok tt
  | Some prior =>
      fail_if (String.eqb prior current) ErrDuplicateObservation;;
      fail_if (String.ltb current prior) ErrObservationOrder
  end.

Definition observedGenerations (outer : Z) (conditions : list Condition) : list Z := outer :: (co_ObservedGeneration <$> conditions).

Inductive CapabilityState := CapabilitySupported | CapabilityUnsupported | CapabilityUnknown | CapabilityOther (raw : string).

Record ProviderCapability := PC {
  pcap_Name : string;
  pcap_State : CapabilityState;
  pcap_Source : string;
  pcap_ObservedAt : string;
  pcap_Reason : string;
}.

Definition ValidateProviderCapability (c : ProviderCapability) : result error unit :=
  map_err (ErrWrap ErrInvalidProviderCapability)
    (validateObservationMetadata (pcap_Name c) (pcap_Source c) (pcap_ObservedAt c) (pcap_Reason c));;
  match pcap_State c with
  | CapabilityOther _ => Err (ErrWrap ErrInvalidProviderCapability ErrInvalidCapabilityState)
  | _ => Ok tt
  end.

Inductive QuotaState := QuotaWithinLimit | QuotaExceeded | QuotaUnknown | QuotaOther (raw : string).

Record QuotaCheck := QC {
  qc_Name : string;
  qc_State : QuotaState;
  qc_Requested : option string;
  qc_Available : option string;
  qc_Source : string;
  qc_ObservedAt : string;
  qc_Reason : string;
}.

Definition in_quota {A} (r : result error A) : result error A := map_err (ErrWrap ErrInvalidQuotaCheck) r.

Definition ValidateQuotaCheck (quota : QuotaCheck) : result error unit :=
  in_quota (validateObservationMetadata (qc_Name quota) (qc_Source quota) (qc_ObservedAt quota) (qc_Reason quota));;
  match qc_State quota with
  | QuotaUnknown =>
      in_quota (fail_if (is_some (qc_Requested quota) || is_some (qc_Available quota)) ErrInvalidQuotaState)
  | QuotaOther _ => in_quota (Err ErrInvalidQuotaState)
  | state =>
      match qc_Requested quota, qc_Available quota with
      | Some requested, Some available =>
          comparison ← in_quota (compareCanonicalDecimals requested available);
          in_quota (match state, comparison with
                    | QuotaWithinLimit, Gt => Err ErrInvalidQuotaState
                    | QuotaExceeded, (Lt | Eq) => Err ErrInvalidQuotaState
                    | _, _ => Ok tt
                    end)
      | _, _ => in_quota (Err ErrInvalidQuotaState)
      end
  end.

(** ** Cost estimates *)

Inductive CostState := CostKnown | CostUnknown | CostOther (raw : string).
Inductive Confidence := ConfidenceLow | ConfidenceMedium | ConfidenceHigh | ConfidenceUnknown | ConfidenceOther (raw : string).

#[export] Instance CostState_eq : EqDecision CostState.
Proof. solve_decision. Defined.
#[export] Instance Confidence_eq : EqDecision Confidence.
Proof. solve_decision. Defined.

Definition CostState_text (s : CostState) : string :=
  match s with CostKnown => "Known" | CostUnknown => "Unknown" | CostOther raw => raw end.
Definition Confidence_text (c : Confidence) : string :=
  match c with
  | ConfidenceLow => "Low" | ConfidenceMedium => "Medium" | ConfidenceHigh => "High" | ConfidenceUnknown => "Unknown"
  | ConfidenceOther raw => raw
  end.

Definition validConfidence (c : Confidence) : bool := match c with ConfidenceOther _ => false | _ => true end.

Record CostEstimate := CE {
  ce_State : CostState;
  ce_Amount : option string;
  ce_Currency : string;
  ce_Region : string;
  ce_Source : string;
  ce_ObservedAt : string;
  ce_Confidence : Confidence;
  ce_Reason : string;
}.

Definition in_cost {A} (r : result error A) : result error A := map_err (ErrWrap ErrInvalidCostEstimate) r.

Definition ValidateCostEstimate (e : CostEstimate) : result error unit :=
  fail_if (negb (currencyPattern (ce_Currency e)) || negb (regionPattern (ce_Region e))) ErrInvalidCostEstimate;;
  in_cost (validateObservationMetadata "cost" (ce_Source e) (ce_ObservedAt e) (ce_Reason e));;
  in_cost (fail_if (negb (validConfidence (ce_Confidence e))) ErrInvalidConfidence);;
  match ce_State e with
  | CostKnown =>
      match ce_Amount e with
      | None => in_cost (Err ErrInvalidCostState)
      | Some amount =>
          in_cost (fail_if (bool_decide (ce_Confidence e = ConfidenceUnknown)) ErrInvalidCostState);;
          in_cost (fail_if (negb (validateCanonicalDecimal amount)) ErrInvalidDecimal)
      end
  | CostUnknown =>
      in_cost (fail_if (is_some (ce_Amount e) || negb (bool_decide (ce_Confidence e = ConfidenceUnknown))) ErrInvalidCostState)
  | CostOther _ => in_cost (Err ErrInvalidCostState)
  end.

Definition equalStrings (left right : option string) : bool := bool_decide (left = right).

Definition EqualCostEstimate (left right : CostEstimate) : bool :=
  bool_decide (ce_State left = ce_State right) && equalStrings (ce_Amount left) (ce_Amount right) &&
  String.eqb (ce_Currency left) (ce_Currency right) && String.eqb (ce_Region left) (ce_Region right) &&
  String.eqb (ce_Source left) (ce_Source right) && String.eqb (ce_ObservedAt left) (ce_ObservedAt right) &&
  bool_decide (ce_Confidence left = ce_Confidence right) && String.eqb (ce_Reason left) (ce_Reason right).

(** ** Provider connections *)

Record CredentialReference := CR { cr_ReferenceID : string; cr_Version : string }.
Record ProviderConnectionSpec := PCS { pcs_Provider : string; pcs_CredentialRef : CredentialReference }.

Definition ValidateCredentialReference (r : CredentialReference) : result error unit :=
  fail_if (negb (validID (cr_ReferenceID r))) ErrInvalidCredentialReference;;
  fail_if (negb (versionPattern (cr_Version r))) ErrInvalidCredentialReference.

Definition ValidateProviderConnectionSpec (spec : ProviderConnectionSpec) : result error unit :=
  fail_if (negb (providerPattern (pcs_Provider spec))) (ErrWrap ErrInvalidProviderConnectionSpec ErrInvalidProvider);;
  map_err (ErrWrap ErrInvalidProviderConnectionSpec) (ValidateCredentialReference (pcs_CredentialRef spec)).

Definition CheckProviderConnectionSpecTransition (before after : ProviderConnectionSpec) : result error unit :=
  map_err (ErrWrap ErrInvalidProviderConnectionSpecTransition) (ValidateProviderConnectionSpec before);;
  map_err (ErrWrap ErrInvalidProviderConnectionSpecTransition) (ValidateProviderConnectionSpec after);;
  fail_if (negb (String.eqb (pcs_Provider before) (pcs_Provider after))
           || negb (String.eqb (cr_ReferenceID (pcs_CredentialRef before)) (cr_ReferenceID (pcs_CredentialRef after))))
    (ErrWrap ErrInvalidProviderConnectionSpecTransition ErrProviderConnectionRebind).

(** A nil slice is [None]. *)
Record PolicyStatus := PSt { pst_ObservedGeneration : Z; pst_Conditions : option (list Condition) }.

Definition ValidatePolicyStatus (status : PolicyStatus) (resourceGeneration : Z) : result error unit :=
  conditions ← of_option (pst_Conditions status) (ErrWrap ErrInvalidPolicyStatus ErrObservationCollectionRequired);
  map_err (ErrWrap ErrInvalidPolicyStatus) (validateObservedGeneration (pst_ObservedGeneration status) resourceGeneration);;
  map_err (fun e => ErrWrap ErrInvalidPolicyStatus (ErrCondition e)) (ValidateSet conditions resourceGeneration).

Record ProviderConnectionStatus := PCSt {
  pcst_ObservedGeneration : Z;
  pcst_Conditions : option (list Condition);
  pcst_Capabilities : option (list ProviderCapability);
  pcst_QuotaChecks : option (list QuotaCheck);
}.

(** The loops over observations: each is valid and follows the one before. *)
Fixpoint check_observations {A} (validate : A -> result error unit) (name : A -> string) (previous : option string)
    (values : list A) : result error unit :=
  match values with
  | [] => Ok tt
  | value :: rest =>
      map_err (ErrWrap ErrInvalidProviderConnectionStatus) (validate value);;
      map_err (ErrWrap ErrInvalidProviderConnectionStatus) (validateObservationOrder previous (name value));;
      check_observations validate name (Some (name value)) rest
  end.

Definition ValidateProviderConnectionStatus (status : ProviderConnectionStatus) (resourceGeneration : Z) : result error unit :=
  match pcst_Conditions status, pcst_Capabilities status, pcst_QuotaChecks status with
  | Some conditions, Some capabilities, Some quotas =>
      map_err (ErrWrap ErrInvalidProviderConnectionStatus)
        (validateObservedGeneration (pcst_ObservedGeneration status) resourceGeneration);;
      map_err (fun e => ErrWrap ErrInvalidProviderConnectionStatus (ErrCondition e)) (ValidateSet conditions resourceGeneration);;
      fail_if (MaxProviderCapabilities <? llen capabilities) (ErrWrap ErrInvalidProviderConnectionStatus ErrTooManyProviderCapabilities);;
      check_observations ValidateProviderCapability pcap_Name None capabilities;;
      fail_if (MaxQuotaChecks <? llen quotas) (ErrWrap ErrInvalidProviderConnectionStatus ErrTooManyQuotaChecks);;
      check_observations ValidateQuotaCheck qc_Name None quotas
  | _, _, _ => Err (ErrWrap ErrInvalidProviderConnectionStatus ErrObservationCollectionRequired)
  end.

(** * Properties of the provider control view

    Canonical decimals have one spelling per number and are compared exactly;
    quota observations state the truth about them; a provider connection is
    never rebound; observation lists are sorted sets. *)

(** ** Decimals *)

Lemma split_point_spec s : forall whole fraction, split_point s = (whole, fraction) ->
  s = whole +:+ match fraction with Some f => "." +:+ f | None => "" end.
Proof.
  induction s as [|c s IH]; intros whole fraction E; simpl in E; [by injection E as <- <-|].
  destruct (Ascii.eqb_spec c "."%char) as [->|Hc]; [by injection E as <- <-|].
  destruct (split_point s) as [w f]. injection E as <- <-. simpl. f_equal. by apply IH.
Qed.

Lemma digits_value_read acc s : digits_value acc s = read_digits acc s.
Proof. revert acc. induction s as [|c s IH]; intros acc; simpl; [done | apply IH]. Qed.

(** A text of digits is the fixed-width spelling of its value. *)
Lemma digits_text s : string_forall is_digit s = true ->
  digits (String.length s) s 0 = Some (digits_value 0 s, "").
Proof.
  generalize 0 at 1 2 as acc. induction s as [|c s IH]; intros acc Hs; [done|]. simpl in Hs. apply andb_true_iff in Hs as [Hc Hs].
  cbn [String.length digits digits_value]. rewrite Hc. by apply IH.
Qed.

Lemma digits_pad_value s : string_forall is_digit s = true ->
  s = pad (String.length s) (digits_value 0 s) /\ 0 <= digits_value 0 s < 10 ^ slen s.
Proof.
  intros Hs. apply digits_text in Hs. apply digits_sound in Hs as (w & Hw & E & Es). rewrite E. rewrite string_app_nil_r in Es.
  replace (0 * 10 ^ Z.of_nat (String.length s) + w) with w by lia. done.
Qed.

Lemma digits_value_app acc s t : digits_value acc (s +:+ t) = digits_value (digits_value acc s) t.
Proof. revert acc. induction s as [|c s IH]; intros acc; simpl; [done | apply IH]. Qed.

Lemma digits_value_acc s : forall acc, digits_value acc s = acc * 10 ^ slen s + digits_value 0 s.
Proof.
  induction s as [|c s IH]; intros acc; [unfold slen; simpl; lia|]. simpl. rewrite IH, (IH (0 * 10 + _)).
  unfold slen. simpl String.length. rewrite Nat2Z.inj_succ, Z.pow_succ_r by lia. lia.
Qed.

Lemma canonical_whole_digits s : canonical_whole s = true -> string_forall is_digit s = true.
Proof.
  destruct s as [|c s]; [done|]. simpl. destruct (Ascii.eqb_spec c "0"%char) as [->|Hc]; [|done].
  rewrite String.eqb_eq. by intros ->.
Qed.

(** Canonical whole parts are determined by their value. *)
Lemma canonical_whole_bounds s : canonical_whole s = true -> s <> "0" -> 10 ^ (slen s - 1) <= digits_value 0 s.
Proof.
  destruct s as [|c s]; [done|]. simpl. destruct (Ascii.eqb_spec c "0"%char) as [->|Hc].
  - rewrite String.eqb_eq. by intros -> [].
  - intros [Hd Hs]%andb_true_iff _. rewrite digits_value_acc. pose proof (digits_pad_value s Hs) as [_ Hv].
    assert (1 <= byte_val c - 48) as Hb.
    { unfold is_digit, between in Hd. autorewrite with guards in Hd.
      assert (byte_val c <> 48); [|lia]. intros E. apply Hc. rewrite <- (byte_of_val c), E. done. }
    unfold slen in *. simpl String.length. replace (Z.of_nat (S (String.length s)) - 1) with (Z.of_nat (String.length s)) by lia.
    pose proof (pow10_pos (String.length s)). nia.
Qed.

Lemma canonical_whole_inj a b : canonical_whole a = true -> canonical_whole b = true ->
  digits_value 0 a = digits_value 0 b -> a = b.
Proof.
  intros Ha Hb E. pose proof (canonical_whole_digits a Ha) as Da. pose proof (canonical_whole_digits b Hb) as Db.
  apply digits_pad_value in Da as [Pa Ba], Db as [Pb Bb].
  assert (forall x y, canonical_whole x = true -> x <> "0" -> 0 <= digits_value 0 y < 10 ^ slen y ->
            digits_value 0 x = digits_value 0 y -> slen x <= slen y) as Hle.
  { intros x y Hx Hne Hy Exy. pose proof (canonical_whole_bounds x Hx Hne).
    assert (10 ^ (slen x - 1) < 10 ^ slen y) as Hlt by lia. apply Z.pow_lt_mono_r_iff in Hlt; [lia | lia | apply slen_nonneg]. }
  assert (forall x, x <> "" -> 1 <= slen x) as Hpos by (intros [|? ?] ?; [done | unfold slen; simpl; lia]).
  assert (slen a = slen b) as El.
  { destruct (decide (a = "0")) as [->|Na], (decide (b = "0")) as [->|Nb]; [done| | |].
    - pose proof (Hle b "0" Hb Nb Ba (eq_sym E)). assert (1 <= slen b) by (apply Hpos; by intros ->). unfold slen in *. simpl in *. lia.
    - pose proof (Hle a "0" Ha Na Bb E). assert (1 <= slen a) by (apply Hpos; by intros ->). unfold slen in *. simpl in *. lia.
    - pose proof (Hle a b Ha Na Bb E). pose proof (Hle b a Hb Nb Ba (eq_sym E)). lia. }
  rewrite Pa, Pb, E. f_equal. unfold slen in El. lia.
Qed.

Lemma canonical_fraction_facts s : canonical_fraction s = true ->
  string_forall is_digit s = true /\ s <> "" /\ digits_value 0 s mod 10 <> 0.
Proof.
  assert (forall t acc, canonical_fraction t = true -> string_forall is_digit t = true /\ t <> "" /\ digits_value acc t mod 10 <> 0) as Hall.
  { induction t as [|c t IH]; intros acc H; [done|]. simpl in H. apply andb_true_iff in H as [Hc H]. destruct t as [|d t].
    - simpl. rewrite Hc. split; [done|]. split; [done|]. unfold is_digit, between in Hc. autorewrite with guards in Hc.
      assert (byte_val c <> 48) as Hne.
      { intros E. destruct (Ascii.eqb_spec c "0"%char) as [->|Hn]; [done|]. apply Hn. by rewrite <- (byte_of_val c), E. }
      rewrite Z.add_comm, Z.mod_add, Z.mod_small; lia.
    - destruct (IH (acc * 10 + (byte_val c - 48)) H) as (Hd & _ & Hv). split; [simpl in *; by rewrite Hc|]. done. }
  apply Hall.
Qed.

(** A canonical decimal: its whole part and its fraction. *)
Lemma valid_decimal_parts s : validateCanonicalDecimal s = true ->
  exists whole fraction, s = whole +:+ match fraction with Some f => "." +:+ f | None => "" end /\
    canonical_whole whole = true /\ (forall f, fraction = Some f -> canonical_fraction f = true) /\
    decimal_of s = Decimal (digits_value 0 (whole +:+ default "" fraction)) (String.length (default "" fraction)).
Proof.
  unfold validateCanonicalDecimal, canonicalDecimalPattern, decimal_of. intros Hv.
  destruct (split_point s) as [whole fraction] eqn:E. exists whole, fraction. apply split_point_spec in E as Hs.
  autorewrite with guards in Hv. destruct_and!. split; [done|]. split; [done|]. split.
  - intros f ->. done.
  - by rewrite digits_value_app.
Qed.

Lemma scale_zero m k : (0 < k)%nat -> (m * 10 ^ Z.of_nat k) mod 10 = 0.
Proof.
  intros Hk. replace (Z.of_nat k) with (Z.succ (Z.of_nat (k - 1))) by lia. rewrite Z.pow_succ_r by lia.
  replace (m * (10 * 10 ^ Z.of_nat (k - 1))) with (m * 10 ^ Z.of_nat (k - 1) * 10) by lia. apply Z.mod_mul. lia.
Qed.

(** A shorter scale means the longer one ends in a zero. *)
Lemma scale_le a b j k : a * 10 ^ Z.of_nat k = b * 10 ^ Z.of_nat j -> (j < k)%nat -> b mod 10 = 0.
Proof.
  intros E Hjk. assert (b = a * 10 ^ Z.of_nat (k - j)) as ->; [|apply scale_zero; lia].
  replace (Z.of_nat k) with (Z.of_nat (k - j) + Z.of_nat j) in E by lia. rewrite Z.pow_add_r in E by lia.
  pose proof (pow10_pos j). nia.
Qed.

Lemma fraction_last whole f : canonical_fraction f = true -> digits_value 0 (whole +:+ f) mod 10 <> 0.
Proof.
  intros Hf. destruct (canonical_fraction_facts f Hf) as (_ & Hne & Hv). rewrite digits_value_app, digits_value_acc.
  replace (slen f) with (Z.of_nat (String.length f)) by done.
  rewrite Z.add_mod, scale_zero, Z.add_0_l, Z.mod_mod by (lia || (destruct f; [done | simpl; lia])). done.
Qed.

Lemma base_split p a b x y : 0 <= x < p -> 0 <= y < p -> a * p + x = b * p + y -> a = b /\ x = y.
Proof. intros Hx Hy E. destruct (Z.lt_trichotomy a b) as [?|[->|?]]; [nia | lia | nia]. Qed.

(** Equal numbers of two canonical decimals are equal texts. *)
Definition canonical_parts (w : string) (f : option string) : Prop :=
  canonical_whole w = true /\ forall x, f = Some x -> canonical_fraction x = true.

Definition parts_value (w : string) (f : option string) : Z := digits_value 0 (w +:+ default "" f).
Definition parts_scale (f : option string) : nat := String.length (default "" f).

Lemma parts_last w f : canonical_parts w f -> (0 < parts_scale f)%nat -> parts_value w f mod 10 <> 0.
Proof.
  intros [_ Hf] Hk. destruct f as [f|]; unfold parts_scale in Hk; simpl in Hk; [|lia]. apply fraction_last. by apply Hf.
Qed.

Lemma parts_fraction_digits f : (forall x, f = Some x -> canonical_fraction x = true) -> string_forall is_digit (default "" f) = true.
Proof. intros Hf. destruct f as [f|]; [|done]. by destruct (canonical_fraction_facts f (Hf f eq_refl)) as (? & _). Qed.

Lemma parts_inj w1 f1 w2 f2 : canonical_parts w1 f1 -> canonical_parts w2 f2 ->
  parts_value w1 f1 * 10 ^ Z.of_nat (parts_scale f2) = parts_value w2 f2 * 10 ^ Z.of_nat (parts_scale f1) -> w1 = w2 /\ f1 = f2.
Proof.
  intros P1 P2 E. destruct (Nat.lt_trichotomy (parts_scale f1) (parts_scale f2)) as [Hlt|[Heq|Hlt]].
  - exfalso. apply (parts_last w2 f2 P2); [lia|]. by eapply scale_le.
  - destruct P1 as [W1 F1], P2 as [W2 F2]. unfold parts_scale in *. rewrite Heq in E. pose proof (pow10_pos (String.length (default "" f2))).
    assert (parts_value w1 f1 = parts_value w2 f2) as Ev by nia. clear E. unfold parts_value in Ev.
    pose proof (digits_pad_value _ (parts_fraction_digits f1 F1)) as [T1 B1].
    pose proof (digits_pad_value _ (parts_fraction_digits f2 F2)) as [T2 B2]. unfold slen in B1, B2. rewrite Heq in B1, T1.
    rewrite !digits_value_app, digits_value_acc, (digits_value_acc (default "" f2)) in Ev. unfold slen in Ev. rewrite Heq in Ev.
    apply base_split in Ev as [Ew Ef]; [|done..].
    split; [by apply canonical_whole_inj|]. rewrite Ef, <- T2 in T1.
    destruct f1 as [f1|], f2 as [f2|]; simpl in T1; [congruence | | |done].
    + subst. by specialize (F1 "" eq_refl).
    + subst. by specialize (F2 "" eq_refl).
  - exfalso. apply (parts_last w1 f1 P1); [lia|]. symmetry in E. by eapply scale_le.
Qed.

(** Canonical decimals are compared exactly, and each number has one
    spelling.  Comparing two valid decimals always succeeds with the order of
    the rational numbers they denote, and the result is equality only for the
    same text - there are no leading or trailing zeros and no empty fraction;
    an observed quota is valid exactly when what it says about them is true. *)
Theorem decimal_compare_exact :
  (forall l r, validateCanonicalDecimal l = true -> validateCanonicalDecimal r = true ->
     exists c, compareCanonicalDecimals l r = Ok c /\ compareCanonicalDecimals r l = Ok (CompOpp c) /\ (c = Eq <-> l = r)) /\
  (forall q, ValidateQuotaCheck q = Ok tt <->
     validateObservationMetadata (qc_Name q) (qc_Source q) (qc_ObservedAt q) (qc_Reason q) = Ok tt /\
     match qc_State q, qc_Requested q, qc_Available q with
     | QuotaUnknown, None, None => True
     | QuotaWithinLimit, Some a, Some b =>
         validateCanonicalDecimal a = true /\ validateCanonicalDecimal b = true /\
         dc_digits (decimal_of a) * 10 ^ Z.of_nat (dc_scale (decimal_of b)) <= dc_digits (decimal_of b) * 10 ^ Z.of_nat (dc_scale (decimal_of a))
     | QuotaExceeded, Some a, Some b =>
         validateCanonicalDecimal a = true /\ validateCanonicalDecimal b = true /\
         dc_digits (decimal_of b) * 10 ^ Z.of_nat (dc_scale (decimal_of a)) < dc_digits (decimal_of a) * 10 ^ Z.of_nat (dc_scale (decimal_of b))
     | _, _, _ => False
     end).
Proof.
  split.
  - intros l r Hl Hr. unfold compareCanonicalDecimals. rewrite Hl, Hr. simpl. eexists. split; [done|].
    split; [unfold compare_decimal; by rewrite Z.compare_antisym|]. unfold compare_decimal. rewrite Z.compare_eq_iff.
    split; [|by intros ->].
    apply valid_decimal_parts in Hl as (w1 & f1 & -> & W1 & F1 & ->), Hr as (w2 & f2 & -> & W2 & F2 & ->). simpl. intros E.
    destruct (parts_inj w1 f1 w2 f2) as [-> ->]; done.
  - intros q. unfold ValidateQuotaCheck, in_quota. rewrite bind_ok. setoid_rewrite map_err_ok.
    assert (forall P : Prop, (exists a : unit, validateObservationMetadata (qc_Name q) (qc_Source q) (qc_ObservedAt q) (qc_Reason q) = Ok a /\ P) <->
      validateObservationMetadata (qc_Name q) (qc_Source q) (qc_ObservedAt q) (qc_Reason q) = Ok tt /\ P) as Hunit
      by (intros P; split; [intros ([] & ? & ?); done | intros [? ?]; by exists tt]).
    rewrite Hunit. apply and_iff_compat_l. clear Hunit.
    destruct (qc_State q), (qc_Requested q) as [a|], (qc_Available q) as [b|]; simpl; try done;
      unfold compareCanonicalDecimals;
      (destruct (validateCanonicalDecimal a); simpl; [|split; [done | by intros [? _]]]);
      (destruct (validateCanonicalDecimal b); simpl; [|split; [done | by intros (_ & ? & _)]]);
      unfold compare_decimal;
      destruct (Z.compare_spec (dc_digits (decimal_of a) * 10 ^ Z.of_nat (dc_scale (decimal_of b)))
                  (dc_digits (decimal_of b) * 10 ^ Z.of_nat (dc_scale (decimal_of a)))); simpl;
      (split; [intros; try done; repeat split; lia | intros (_ & _ & ?); first [done | lia]]).
Qed.

(** ** Provider connections *)

Lemma spec_transition_ok b a : CheckProviderConnectionSpecTransition b a = Ok tt <->
  ValidateProviderConnectionSpec b = Ok tt /\ ValidateProviderConnectionSpec a = Ok tt /\
  pcs_Provider b = pcs_Provider a /\ cr_ReferenceID (pcs_CredentialRef b) = cr_ReferenceID (pcs_CredentialRef a).
Proof.
  unfold CheckProviderConnectionSpecTransition. split.
  - intros E. apply bind_ok in E as ([] & Hb%map_err_ok & E). apply bind_ok in E as ([] & Ha%map_err_ok & E%fail_if_ok).
    autorewrite with guards in E. destruct E. done.
  - intros (-> & -> & -> & ->). simpl. by rewrite !String.eqb_refl.
Qed.

Lemma check_observations_ok {A} (validate : A -> result error unit) (name : A -> string) values : forall p,
  check_observations validate name p values = Ok tt <->
  Forall (fun v => validate v = Ok tt) values /\ increasing_from p (name <$> values) = true.
Proof.
  induction values as [|v values IH]; intros p.
  - split; [intros _; split; [by apply Forall_nil | done] | done].
  - cbn [check_observations]. rewrite Forall_cons, fmap_cons. cbn [increasing_from]. rewrite andb_true_iff. split.
    + intros E. apply bind_ok in E as ([] & Hv%map_err_ok & E). apply bind_ok in E as ([] & Ho%map_err_ok & E).
      apply IH in E as [HF Hi]. split; [done|]. split; [|done]. destruct p as [p|]; [|done]. simpl in Ho.
      apply bind_ok in Ho as ([] & Hne%fail_if_ok & Hlt%fail_if_ok). apply String.eqb_neq in Hne.
      destruct (string_trichotomy p (name v)) as [?|[?|?]]; congruence.
    + intros ((Hv & HF) & (Hp & Hi)). rewrite Hv. simpl. destruct p as [p|].
      * simpl. destruct (String.eqb_spec p (name v)) as [->|Hne]; [by rewrite string_ltb_irrefl in Hp|].
        rewrite (string_ltb_asym _ _ Hp). simpl. by apply IH.
      * simpl. by apply IH.
Qed.

(** A provider connection is never rebound.  Through any sequence of
    accepted spec transitions the provider and the credential reference stay
    the same, so only the credential version can rotate; accepted transitions
    form an equivalence on valid specs; and a valid status lists conditions,
    capabilities and quotas strictly sorted by type or name, so none twice. *)
Theorem connection_never_rebound :
  (forall b a, rtc (fun x y => CheckProviderConnectionSpecTransition x y = Ok tt) b a ->
     pcs_Provider a = pcs_Provider b /\ cr_ReferenceID (pcs_CredentialRef a) = cr_ReferenceID (pcs_CredentialRef b)) /\
  (forall b a, CheckProviderConnectionSpecTransition b a = Ok tt -> CheckProviderConnectionSpecTransition a b = Ok tt) /\
  (forall b m a, CheckProviderConnectionSpecTransition b m = Ok tt -> CheckProviderConnectionSpecTransition m a = Ok tt ->
     CheckProviderConnectionSpecTransition b a = Ok tt) /\
  (forall status g, ValidateProviderConnectionStatus status g = Ok tt ->
     exists conditions capabilities quotas, pcst_Conditions status = Some conditions /\
       pcst_Capabilities status = Some capabilities /\ pcst_QuotaChecks status = Some quotas /\
       0 <= pcst_ObservedGeneration status <= g /\
       NoDup (co_Type <$> conditions) /\ NoDup (pcap_Name <$> capabilities) /\ NoDup (qc_Name <$> quotas) /\
       Forall (fun v => 0 <= v <= g) (observedGenerations (pcst_ObservedGeneration status) conditions)).
Proof.
  split; [|split; [|split]].
  - intros b a H. induction H as [|b m a Hs H IH]; [done|]. apply spec_transition_ok in Hs as (_ & _ & ? & ?). destruct IH. split; congruence.
  - intros b a. rewrite !spec_transition_ok. naive_solver.
  - intros b m a. rewrite !spec_transition_ok. intros (? & ? & ? & ?) (? & ? & ? & ?). repeat split; congruence.
  - intros status g H. unfold ValidateProviderConnectionStatus in H.
    destruct (pcst_Conditions status) as [cs|], (pcst_Capabilities status) as [ps|], (pcst_QuotaChecks status) as [qs|]; try done.
    apply bind_ok in H as ([] & Hg%map_err_ok & H). apply bind_ok in H as ([] & Hc%map_err_ok & H).
    apply bind_ok in H as ([] & _ & H). apply bind_ok in H as ([] & Hp & H). apply bind_ok in H as ([] & _ & Hq).
    unfold validateObservedGeneration in Hg. apply fail_if_ok in Hg. autorewrite with guards in Hg.
    apply check_observations_ok in Hp as [_ Hp], Hq as [_ Hq]. exists cs, ps, qs.
    pose proof (condition_set_facts cs g Hc) as [Hcn Hcv]. destruct_and!.
    repeat split; try done; try lia; try (by apply sorted_lt_nodup, increasing_sorted).
    unfold observedGenerations. constructor; [lia|]. apply Forall_fmap. eapply Forall_impl; [exact Hcv|].
    intros c Hv. apply Validate_ok in Hv as (_ & _ & _ & _ & _ & ? & _). done.
Qed.

(** ** Concrete observations *)

Definition k_spec (version : string) : ProviderConnectionSpec := PCS "aws" (CR "credential-00000001" version).

Definition k_quota : QuotaCheck :=
  QC "cpu" QuotaWithinLimit (Some "0.5") (Some "12") "quota.api" "2023-11-14T22:13:20.000Z" "Checked".

Lemma decimal_compare_exact_witness :
  ValidateQuotaCheck k_quota = Ok tt /\
  exists c, compareCanonicalDecimals "10.25" "9.5" = Ok c /\ (c = Eq <-> "10.25" = "9.5").
Proof.
  destruct decimal_compare_exact as [H1 H2]. split.
  - apply (H2 k_quota). split; [vm_compute; reflexivity|]. split; [vm_compute; reflexivity|].
    split; [vm_compute; reflexivity|]. vm_compute. discriminate.
  - destruct (H1 "10.25" "9.5" eq_refl eq_refl) as (c & Hc & _ & Heq). exists c. split; [exact Hc | exact Heq].
Defined.

Lemma connection_never_rebound_witness :
  CheckProviderConnectionSpecTransition (k_spec "1") (k_spec "3") = Ok tt /\
  pcs_Provider (k_spec "3") = pcs_Provider (k_spec "1").
Proof.
  destruct connection_never_rebound as (H1 & _ & H3 & _).
  assert (CheckProviderConnectionSpecTransition (k_spec "1") (k_spec "2") = Ok tt) as S1 by (vm_compute; reflexivity).
  assert (CheckProviderConnectionSpecTransition (k_spec "2") (k_spec "3") = Ok tt) as S2 by (vm_compute; reflexivity).
  split; [exact (H3 _ _ _ S1 S2)|].
  exact (proj1 (H1 (k_spec "1") (k_spec "3") (rtc_l _ _ _ _ S1 (rtc_l _ _ _ _ S2 (rtc_refl _ _))))).
Defined.
