(* ===== verification/Model.v ===== *)
(** * The version-neutral model and its v1alpha1 form (model/*.go and
      model/v1alpha1/*.go)

    Admitted desired and observed state is a closed sum over the six kinds.  The
    six Go types per sum, and the six functions over each, are one family
    indexed by the kind; a kind outside the vocabulary is the [default] branch
    of the type switches.  A transport version converts into these values. *)

From S2P Require Import Prelude StringOrder Bytes GoTime Calendar Closed Digests Hierarchy AuthzVocabulary Identity Authorization.
From S2P Require Import Condition Control Resource.
From Stdlib Require Import String.

Inductive error :=
| ErrInvalidWriteMetadata
| ErrInvalidDisplayName
| ErrInvalidLabels
| ErrInvalidIntent
| ErrInvalidStatusWrite
| ErrInvalidCommonStatus
| ErrObservationCollectionRequired
| ErrInvalidObservedGeneration
| ErrInvalidSource
| ErrSourceNotDefaulted
| ErrSourceKindMismatch
| ErrInvalidHubValue
| ErrHierarchy (inner : Hierarchy.error)
| ErrAuthorization (inner : AuthzVocabulary.error)
| ErrControl (inner : Control.error)
| ErrCondition (inner : Condition.error)
| ErrWrap (outer inner : error).

(** ** Desired and observed state by kind *)

Record WorkspaceSpec := WSp { ws_SuspendReconciliation : bool }.

(** The specs of environments, applications and components are closed. *)
Definition Spec (kind : Hierarchy.Kind) : Type :=
  match kind with
  | KindWorkspace => WorkspaceSpec
  | KindPolicy => PolicySpec
  | KindProviderConnection => ProviderConnectionSpec
  | _ => unit
  end.

(** A nil slice of conditions is [None]. *)
Record CommonStatus := CSt { cs_ObservedGeneration : Z; cs_Conditions : option (list Condition) }.

Definition Status (kind : Hierarchy.Kind) : Type :=
  match kind with
  | KindPolicy => PolicyStatus
  | KindProviderConnection => ProviderConnectionStatus
  | _ => CommonStatus
  end.

Definition CommonStatus_ObservedGenerations (status : CommonStatus) : list Z :=
  observedGenerations (cs_ObservedGeneration status) (default [] (cs_Conditions status)).

#[export] Instance Status_observations kind : GenerationObservations (Status kind) :=
  match kind with
  | KindPolicy => fun s => observedGenerations (pst_ObservedGeneration s) (default [] (pst_Conditions s))
  | KindProviderConnection => fun s => observedGenerations (pcst_ObservedGeneration s) (default [] (pcst_Conditions s))
  | _ => CommonStatus_ObservedGenerations
  end.

#[export] Instance WorkspaceSpec_eq : EqDecision WorkspaceSpec.
Proof. solve_decision. Defined.
#[export] Instance Scope_eq : EqDecision Scope.
Proof. solve_decision. Defined.
#[export] Instance RoleBinding_eq : EqDecision RoleBinding.
Proof. solve_decision. Defined.
#[export] Instance PolicySpec_eq : EqDecision PolicySpec.
Proof. solve_decision. Defined.
#[export] Instance CredentialReference_eq : EqDecision CredentialReference.
Proof. solve_decision. Defined.
#[export] Instance ProviderConnectionSpec_eq : EqDecision ProviderConnectionSpec.
Proof. solve_decision. Defined.
#[export] Instance Spec_eq kind : EqDecision (Spec kind).
Proof. destruct kind; apply _. Defined.

(** ** Caller-owned metadata *)

Record WriteMetadata := WM { wm_displayName : string; wm_labels : gmap string string }.
#[export] Instance WriteMetadata_eq : EqDecision WriteMetadata.
Proof. solve_decision. Defined.

Definition ValidateWriteMetadata (metadata : WriteMetadata) : result error unit :=
  map_err (fun _ => ErrWrap ErrInvalidWriteMetadata ErrInvalidDisplayName) (validateDisplayName (wm_displayName metadata));;
  map_err (fun _ => ErrWrap ErrInvalidWriteMetadata ErrInvalidLabels) (validateLabels (wm_labels metadata));;
  Ok tt.

Definition NewWriteMetadata (displayName : string) (labels : gmap string string) : result error WriteMetadata :=
  map_err (fun _ => ErrWrap ErrInvalidWriteMetadata ErrInvalidDisplayName) (validateDisplayName displayName);;
  normalized ← map_err (fun _ => ErrWrap ErrInvalidWriteMetadata ErrInvalidLabels) (validateLabels labels);
  Ok (WM displayName normalized).

Definition EqualWriteMetadata (left right : WriteMetadata) : bool :=
  String.eqb (wm_displayName left) (wm_displayName right) && bool_decide (wm_labels left = wm_labels right).

(** ** Intents *)

Record Intent := Int { in_kind : Hierarchy.Kind; in_metadata : WriteMetadata; in_spec : Spec in_kind }.

Definition validateSpec (kind : Hierarchy.Kind) : Spec kind -> result error unit :=
  match kind with
  | KindPolicy => fun spec => map_err (fun e => ErrWrap ErrInvalidIntent (ErrAuthorization e)) (ValidatePolicySpec spec)
  | KindProviderConnection => fun spec => map_err (fun e => ErrWrap ErrInvalidIntent (ErrControl e)) (ValidateProviderConnectionSpec spec)
  | _ => fun _ => Ok tt
  end.

Definition ValidateIntent (intent : Intent) : result error unit :=
  fail_if (negb (Kind_known (in_kind intent))) ErrInvalidIntent;;
  map_err (ErrWrap ErrInvalidIntent) (ValidateWriteMetadata (in_metadata intent));;
  validateSpec (in_kind intent) (in_spec intent).

Definition NewIntent (kind : Hierarchy.Kind) (metadata : WriteMetadata) (spec : Spec kind) : result error Intent :=
  ValidateIntent (Int kind metadata spec);;
  Ok (Int kind metadata spec).

(** [CloneIntent] gives nil for a value that is not valid. *)
Definition CloneIntent (intent : Intent) : option Intent := if result_ok (ValidateIntent intent) then Some intent else None.

Definition equalSpec (kind : Hierarchy.Kind) (left right : Spec kind) : bool := bool_decide (left = right).

Definition EqualIntent (left right : Intent) : bool :=
  result_ok (ValidateIntent left) && result_ok (ValidateIntent right) &&
  match decide (in_kind left = in_kind right) with
  | left same =>
      EqualWriteMetadata (in_metadata left) (in_metadata right) &&
      equalSpec (in_kind right) (eq_rect _ Spec (in_spec left) _ same) (in_spec right)
  | right _ => false
  end.

(** ** Status writes *)

Record StatusWrite := SW { sw_kind : Hierarchy.Kind; sw_status : Status sw_kind; sw_resourceGeneration : Z }.

Definition ValidateCommonStatus (status : CommonStatus) (resourceGeneration : Z) : result error unit :=
  conditions ← of_option (cs_Conditions status) (ErrWrap ErrInvalidCommonStatus ErrObservationCollectionRequired);
  fail_if ((resourceGeneration <? 1) || (cs_ObservedGeneration status <? 0) || (resourceGeneration <? cs_ObservedGeneration status))
    (ErrWrap ErrInvalidCommonStatus ErrInvalidObservedGeneration);;
  map_err (fun e => ErrWrap ErrInvalidCommonStatus (ErrCondition e)) (ValidateSet conditions resourceGeneration).

Definition validateStatus (kind : Hierarchy.Kind) : Status kind -> Z -> result error unit :=
  match kind with
  | KindPolicy => fun status generation => map_err ErrControl (ValidatePolicyStatus status generation)
  | KindProviderConnection => fun status generation => map_err ErrControl (ValidateProviderConnectionStatus status generation)
  | _ => ValidateCommonStatus
  end.

Definition ValidateStatusWrite (write : StatusWrite) (resourceGeneration : Z) : result error unit :=
  fail_if (negb (Kind_known (sw_kind write)) || negb (sw_resourceGeneration write =? resourceGeneration)) ErrInvalidStatusWrite;;
  map_err (ErrWrap ErrInvalidStatusWrite) (validateStatus (sw_kind write) (sw_status write) resourceGeneration).

Definition NewStatusWrite (kind : Hierarchy.Kind) (status : Status kind) (resourceGeneration : Z) : result error StatusWrite :=
  map_err (ErrWrap ErrInvalidStatusWrite) (validateStatus kind status resourceGeneration);;
  ValidateStatusWrite (SW kind status resourceGeneration) resourceGeneration;;
  Ok (SW kind status resourceGeneration).

Definition CloneStatusWrite (write : StatusWrite) : option StatusWrite :=
  if result_ok (ValidateStatusWrite write (sw_resourceGeneration write)) then Some write else None.

(** ** The v1alpha1 source values *)

(** The pointer of [WorkspaceWriteSpec] tells an omitted flag from false. *)
Definition WriteSpec (kind : Hierarchy.Kind) : Type := match kind with KindWorkspace => option bool | _ => Spec kind end.
#[export] Instance WriteSpec_eq kind : EqDecision (WriteSpec kind).
Proof. destruct kind; apply _. Defined.

Record DesiredWrite (kind : Hierarchy.Kind) := DWr {
  dwr_APIVersion : string;
  dwr_Kind : string;
  dwr_Metadata : WriteMetadata;
  dwr_Spec : WriteSpec kind;
}.
Arguments DWr {kind}.
Arguments dwr_APIVersion {kind}.
Arguments dwr_Kind {kind}.
Arguments dwr_Metadata {kind}.
Arguments dwr_Spec {kind}.
#[export] Instance DesiredWrite_eq kind : EqDecision (DesiredWrite kind).
Proof. solve_decision. Defined.

Record ObservedWrite (kind : Hierarchy.Kind) := OWr { owr_APIVersion : string; owr_Kind : string; owr_Status : Status kind }.
Arguments OWr {kind}.
Arguments owr_APIVersion {kind}.
Arguments owr_Kind {kind}.
Arguments owr_Status {kind}.

Definition DefaultWriteSpec (kind : Hierarchy.Kind) : WriteSpec kind -> WriteSpec kind :=
  match kind with
  | KindWorkspace => fun spec => Some (default false spec)
  | _ => fun spec => spec
  end.

Definition DefaultWrite {kind} (source : DesiredWrite kind) : DesiredWrite kind :=
  DWr (dwr_APIVersion source) (dwr_Kind source) (dwr_Metadata source) (DefaultWriteSpec kind (dwr_Spec source)).

Definition validateSourceIdentity (apiVersion kind : string) (expected : Hierarchy.Kind) : result error unit :=
  fail_if (negb (String.eqb apiVersion APIVersion)) (ErrWrap ErrInvalidSource (ErrHierarchy ErrUnsupportedAPIVersion));;
  fail_if (negb (String.eqb kind (Hierarchy.Kind_String expected))) (ErrWrap ErrInvalidSource ErrSourceKindMismatch).

Definition specToHub (kind : Hierarchy.Kind) : WriteSpec kind -> result error (Spec kind) :=
  match kind with
  | KindWorkspace => fun spec => flag ← of_option spec (ErrWrap ErrInvalidSource ErrSourceNotDefaulted); Ok (WSp flag)
  | _ => fun spec => Ok spec
  end.

Definition specFromHub (kind : Hierarchy.Kind) : Spec kind -> WriteSpec kind :=
  match kind with
  | KindWorkspace => fun spec => Some (ws_SuspendReconciliation spec)
  | _ => fun spec => spec
  end.

Definition ToHubIntent {kind} (source : DesiredWrite kind) : result error Intent :=
  validateSourceIdentity (dwr_APIVersion source) (dwr_Kind source) kind;;
  spec ← specToHub kind (dwr_Spec source);
  metadata ← map_err (ErrWrap ErrInvalidSource)
               (NewWriteMetadata (wm_displayName (dwr_Metadata source)) (wm_labels (dwr_Metadata source)));
  map_err (ErrWrap ErrInvalidSource) (NewIntent kind metadata spec).

Definition FromHubIntent (hub : Intent) : result error (DesiredWrite (in_kind hub)) :=
  map_err (ErrWrap ErrInvalidHubValue) (ValidateIntent hub);;
  Ok (DWr APIVersion (Hierarchy.Kind_String (in_kind hub)) (in_metadata hub) (specFromHub (in_kind hub) (in_spec hub))).

Definition ToHubStatusWrite {kind} (source : ObservedWrite kind) (resourceGeneration : Z) : result error StatusWrite :=
  validateSourceIdentity (owr_APIVersion source) (owr_Kind source) kind;;
  map_err (ErrWrap ErrInvalidSource) (NewStatusWrite kind (owr_Status source) resourceGeneration).

Definition FromHubStatusWrite (hub : StatusWrite) : result error (ObservedWrite (sw_kind hub)) :=
  map_err (ErrWrap ErrInvalidHubValue) (ValidateStatusWrite hub (sw_resourceGeneration hub));;
  Ok (OWr APIVersion (Hierarchy.Kind_String (sw_kind hub)) (sw_status hub)).
