(* ===== verification/Rejection.v ===== *)
(** * Rejections of write admission (admission/error.go, schema_candidates.go)

    A rejection names its stage, a code and a bounded JSON pointer; within a
    stage the least pointer, then the least code, is reported. *)

From S2P Require Import Prelude StringOrder Bytes Json.
From Stdlib Require Import Ascii String.

Inductive Stage := StageSchema | StageSemantic | StageImmutable | StageReference | StageDefault | StageConversion.

Inductive Code :=
| CodeRequestTooLarge | CodeInvalidJSON | CodeJSONTooDeep | CodeTooManyJSONNodes | CodeDuplicateField | CodeUnknownField
| CodeMissingField | CodeInvalidType | CodeInvalidValue | CodeUnsupportedVersion | CodeUnsupportedKind
| CodeInvalidSpec | CodeInvalidStatus | CodeInvalidOrder | CodeDuplicateItem | CodeFutureObservation
| CodeImmutableField
| CodeInvalidPlacement | CodeParentNotFound | CodeParentKindMismatch | CodeReferenceNotFound | CodeReferenceKindMismatch
| CodeWorkspaceMismatch
| CodeDefaultFailed | CodeConversionFailed.

Definition Code_String (code : Code) : string :=
  match code with
  | CodeRequestTooLarge => "request-too-large" | CodeInvalidJSON => "invalid-json" | CodeJSONTooDeep => "json-too-deep"
  | CodeTooManyJSONNodes => "too-many-json-nodes" | CodeDuplicateField => "duplicate-field"
  | CodeUnknownField => "unknown-field" | CodeMissingField => "missing-field" | CodeInvalidType => "invalid-type"
  | CodeInvalidValue => "invalid-value" | CodeUnsupportedVersion => "unsupported-version"
  | CodeUnsupportedKind => "unsupported-kind" | CodeInvalidSpec => "invalid-spec" | CodeInvalidStatus => "invalid-status"
  | CodeInvalidOrder => "invalid-order" | CodeDuplicateItem => "duplicate-item"
  | CodeFutureObservation => "future-observation" | CodeImmutableField => "immutable-field"
  | CodeInvalidPlacement => "invalid-placement" | CodeParentNotFound => "parent-not-found"
  | CodeParentKindMismatch => "parent-kind-mismatch" | CodeReferenceNotFound => "reference-not-found"
  | CodeReferenceKindMismatch => "reference-kind-mismatch" | CodeWorkspaceMismatch => "workspace-mismatch"
  | CodeDefaultFailed => "default-failed" | CodeConversionFailed => "conversion-failed"
  end.

Record Error := Rejection { rj_stage : Stage; rj_code : Code; rj_path : string }.

Definition MaxFieldPathRunes : Z := 96.
Definition MaxEncodedFieldPathBytes : Z := 98.

(** Not a pointer, and not the empty root pointer. *)
Definition unrepresentablePointer : string := String (byte_of 0) "".

(** [utf8.RuneLen] *)
Definition rune_len (r : Z) : Z := if r <? 128 then 1 else if r <? 2048 then 2 else if r <? 65536 then 3 else 4.

Definition jsonEncodedRuneBytes (value : Z) : Z :=
  if existsb (Z.eqb value) [8; 12; 10; 13; 9; 34; 92] then 2
  else if existsb (Z.eqb value) [60; 62; 38] then 6
  else if (value =? 8232) || (value =? 8233) then 6
  else if value <? 32 then 6
  else rune_len value.

Definition too_long (path_runes encoded : Z) : bool := (MaxFieldPathRunes <? path_runes) || (MaxEncodedFieldPathBytes <? encoded + 2).

(** The loops stop at the first excess; their counts only grow. *)
Definition boundedStringMetrics (value : string) : option (Z * Z) :=
  let encoded := foldr Z.add 0 (jsonEncodedRuneBytes <$> runes value) in
  if negb (utf8_valid value) || too_long (llen (runes value)) encoded then None else Some (llen (runes value), encoded).

(** Every tilde begins one of the two escapes. *)
Fixpoint tildes_escaped (s : string) : bool :=
  match s with
  | EmptyString => true
  | String c rest =>
      (if Ascii.eqb c "~" then match rest with String d _ => Ascii.eqb d "0" || Ascii.eqb d "1" | EmptyString => false end else true)
      && tildes_escaped rest
  end.

(** [jsontext.Pointer.IsValid] *)
Definition pointer_valid (path : string) : bool :=
  utf8_valid path && tildes_escaped path && match path with EmptyString => true | String c _ => Ascii.eqb c "/" end.

Fixpoint escape_token (token : string) : string :=
  match token with
  | EmptyString => ""
  | String c rest => (if Ascii.eqb c "~" then "~0" else if Ascii.eqb c "/" then "~1" else String c "") +:+ escape_token rest
  end.

Definition token_runes (value : Z) : Z := if (value =? 126) || (value =? 47) then 2 else 1.
Definition token_bytes (value : Z) : Z := if (value =? 126) || (value =? 47) then 2 else jsonEncodedRuneBytes value.

Definition appendPointer (path token : string) : string :=
  if String.eqb path unrepresentablePointer || negb (utf8_valid token) then unrepresentablePointer else
  match boundedStringMetrics path with
  | None => unrepresentablePointer
  | Some (pathRunes, pathBytes) =>
      if negb (String.eqb path "") && negb (pointer_valid path) then unrepresentablePointer
      else if too_long (pathRunes + 1 + foldr Z.add 0 (token_runes <$> runes token))
                       (pathBytes + 1 + foldr Z.add 0 (token_bytes <$> runes token)) then unrepresentablePointer
      else path +:+ "/" +:+ escape_token token
  end.

Definition boundedPointer (path : string) : string :=
  if String.eqb path "" then ""
  else if String.eqb path unrepresentablePointer || negb (pointer_valid path) then ""
  else if is_some (boundedStringMetrics path) then path else "".

Definition reject_at (stage : Stage) (code : Code) (path : string) : Error := Rejection stage code (boundedPointer path).

(** The least candidate so far. *)
Definition candidateSet := option (Code * string).

Definition add (code : Code) (path : string) (set : candidateSet) : candidateSet :=
  let path := boundedPointer path in
  match set with
  | None => Some (code, path)
  | Some (code', path') =>
      if String.ltb path path' || (String.eqb path path' && String.ltb (Code_String code) (Code_String code'))
      then Some (code, path) else set
  end.

Definition add_if (c : bool) (code : Code) (path : string) (set : candidateSet) : candidateSet := if c then add code path set else set.

Definition failure (stage : Stage) (set : candidateSet) : result Error unit :=
  match set with None => Ok tt | Some (code, path) => Err (reject_at stage code path) end.

Definition integerToken (value : Z) : string := int_text value.
