(* ===== verification/Raw.v ===== *)
(** * Raw JSON documents (admission/raw.go)

    The bounded scan of a submitted document.  [jsontext.Decoder] reads one
    token at a time, and [scanJSONStructure] walks over the tokens; here each
    value is scanned by descent, in the order of the tokens, and decoded on the
    way ([json.Decoder] with [UseNumber], which cannot fail on a text that was
    scanned).  What the walk carries besides the text is the number of values
    so far and the least duplicate name.  Names and strings are unescaped as the
    decoder does it: UTF-16 surrogates come in pairs, anything else is invalid. *)

From S2P Require Import Prelude StringOrder Bytes Json JsonParse Resource Rejection.
From Stdlib Require Import Ascii String.

Definition MaxRawBytes : Z := MaxCanonicalBytes.
Definition MaxJSONDepth : Z := 64.
Definition MaxJSONNodes : Z := 50000.

(** [any] as the decoder fills it; a number keeps its literal. *)
Inductive tree :=
| TNull
| TBool (b : bool)
| TNumber (literal : string)
| TString (s : string)
| TArray (items : list tree)
| TObject (members : list (string * tree)).

(** A [map[string]any]: every name once, with the value it was last given. *)
Fixpoint object_set (members : list (string * tree)) (name : string) (value : tree) : list (string * tree) :=
  match members with
  | [] => [(name, value)]
  | (k, v) :: rest => if String.eqb k name then (k, value) :: rest else (k, v) :: object_set rest name value
  end.

(** ** Tokens *)

Definition is_space (c : ascii) : bool := existsb (Z.eqb (byte_val c)) [32; 9; 10; 13].

Fixpoint skip_space (s : string) : string :=
  match s with
  | String c rest => if is_space c then skip_space rest else s
  | EmptyString => s
  end.

Definition hex_digit (c : ascii) : option Z :=
  if is_digit c then Some (byte_val c - 48)
  else if between 97 102 c then Some (byte_val c - 87)
  else if between 65 70 c then Some (byte_val c - 55)
  else None.

Definition hex4 (a b x y : ascii) : option Z :=
  a ← hex_digit a; b ← hex_digit b; x ← hex_digit x; y ← hex_digit y; Some (((a * 16 + b) * 16 + x) * 16 + y).

(** [utf8.AppendRune] of a rune that is not a surrogate. *)
Definition utf8_encode (r : Z) : string :=
  if r <? 128 then String (byte_of r) ""
  else if r <? 2048 then String (byte_of (192 + r / 64)) (String (byte_of (128 + r mod 64)) "")
  else if r <? 65536 then
    String (byte_of (224 + r / 4096)) (String (byte_of (128 + r / 64 mod 64)) (String (byte_of (128 + r mod 64)) ""))
  else String (byte_of (240 + r / 262144)) (String (byte_of (128 + r / 4096 mod 64))
         (String (byte_of (128 + r / 64 mod 64)) (String (byte_of (128 + r mod 64)) ""))).

Definition high_surrogate (r : Z) : bool := (55296 <=? r) && (r <=? 56319).
Definition low_surrogate (r : Z) : bool := (56320 <=? r) && (r <=? 57343).

Definition short_escape (c : ascii) : option Z :=
  if Ascii.eqb c quote_mark then Some 34
  else if Ascii.eqb c backslash then Some 92
  else if Ascii.eqb c "/" then Some 47
  else if Ascii.eqb c "b" then Some 8
  else if Ascii.eqb c "f" then Some 12
  else if Ascii.eqb c "n" then Some 10
  else if Ascii.eqb c "r" then Some 13
  else if Ascii.eqb c "t" then Some 9
  else None.

Definition prepend (text : string) (r : option (string * string)) : option (string * string) :=
  match r with Some (t, rest) => Some (text +:+ t, rest) | None => None end.

(** A string after its opening mark: its text and what follows the closing one. *)
Fixpoint scan_string (s : string) : option (string * string) :=
  match s with
  | EmptyString => None
  | String c s1 =>
      if Ascii.eqb c quote_mark then Some ("", s1)
      else if byte_val c <? 32 then None
      else if negb (Ascii.eqb c backslash) then prepend (String c "") (scan_string s1)
      else
        match s1 with
        | EmptyString => None
        | String e s2 =>
            match short_escape e with
            | Some r => prepend (String (byte_of r) "") (scan_string s2)
            | None =>
                if negb (Ascii.eqb e "u") then None else
                match s2 with
                | String a (String b (String x (String y s3))) =>
                    match hex4 a b x y with
                    | None => None
                    | Some r =>
                        if low_surrogate r then None
                        else if negb (high_surrogate r) then prepend (utf8_encode r) (scan_string s3)
                        else
                          match s3 with
                          | String p (String q (String a (String b (String x (String y s4))))) =>
                              match hex4 a b x y with
                              | Some r' =>
                                  if Ascii.eqb p backslash && Ascii.eqb q "u" && low_surrogate r'
                                  then prepend (utf8_encode (65536 + (r - 55296) * 1024 + (r' - 56320))) (scan_string s4)
                                  else None
                              | None => None
                              end
                          | _ => None
                          end
                    end
                | _ => None
                end
            end
        end
  end.

(** One or more digits. *)
Definition scan_digits (s : string) : option (string * string) :=
  let '(digits, rest) := take_digits s in if String.eqb digits "" then None else Some (digits, rest).

(** A part of a number that may be missing: it begins with a byte that [starts]. *)
Definition scan_part (starts : ascii -> bool) (scan : string -> option (string * string)) (s : string) : option (string * string) :=
  match s with
  | String c rest => if starts c then prepend (String c "") (scan rest) else Some ("", s)
  | EmptyString => Some ("", s)
  end.

Definition scan_whole (s : string) : option (string * string) :=
  match s with
  | String c rest => if Ascii.eqb c "0" then Some ("0", rest) else scan_digits s
  | EmptyString => None
  end.

Definition scan_exponent (s : string) : option (string * string) :=
  match s with
  | String c rest => if one_of "+-" c then prepend (String c "") (scan_digits rest) else scan_digits s
  | EmptyString => None
  end.

(** A number: its literal and what follows it. *)
Definition scan_number (s : string) : option (string * string) :=
  '(whole, s) ← match s with
                | String c rest => if Ascii.eqb c "-" then prepend "-" (scan_whole rest) else scan_whole s
                | EmptyString => None
                end;
  '(fraction, s) ← scan_part (Ascii.eqb ".") scan_digits s;
  '(exponent, s) ← scan_part (one_of "eE") scan_exponent s;
  Some (whole +:+ fraction +:+ exponent, s).

Definition scan_literal (s : string) : option (tree * string) :=
  match strip_prefix "null" s, strip_prefix "true" s, strip_prefix "false" s with
  | Some rest, _, _ => Some (TNull, rest)
  | _, Some rest, _ => Some (TBool true, rest)
  | _, _, Some rest => Some (TBool false, rest)
  | None, None, None => '(literal, rest) ← scan_number s; Some (TNumber literal, rest)
  end.

(** ** The walk *)

Record scan := Scan { wk_rest : string; wk_nodes : Z; wk_found : candidateSet }.

(** Why a walk stops: [rawFailure], whose path is always the root, or the fuel
    of the recursion, which never runs out ([scan_ends]). *)
Inductive scan_stop := Failed (code : Code) | OutOfFuel.

Definition Walk := ST scan scan_stop.

Definition text_left : Walk string := s ← get_state; mret (wk_rest s).
Definition proceed (rest : string) : Walk unit := s ← get_state; set_state (Scan rest (wk_nodes s) (wk_found s)).
Definition spaces : Walk string := rest ← text_left; proceed (skip_space rest);; mret (skip_space rest).

(** The next value, at [depth]: the work ceilings. *)
Definition enter (depth : Z) : Walk unit :=
  s ← get_state;
  set_state (Scan (wk_rest s) (wk_nodes s + 1) (wk_found s));;
  reject (MaxJSONDepth <? depth) (Failed CodeJSONTooDeep);;
  reject (MaxJSONNodes <? wk_nodes s + 1) (Failed CodeTooManyJSONNodes).

(** A byte that must come next. *)
Definition expect (c : ascii) : Walk unit :=
  rest ← spaces;
  match rest with
  | String d rest => reject (negb (Ascii.eqb c d)) (Failed CodeInvalidJSON);; proceed rest
  | EmptyString => throw (Failed CodeInvalidJSON)
  end.

Definition next_string : Walk string :=
  expect quote_mark;;
  rest ← text_left;
  '(text, rest) ← lift (of_option (scan_string rest) (Failed CodeInvalidJSON));
  proceed rest;;
  mret text.

Definition next_is (c : ascii) (rest : string) : bool := match rest with String d _ => Ascii.eqb c d | EmptyString => false end.

(** The name of a member, the [seen] ones being those before it. *)
Definition scan_name (path : string) (seen : list string) : Walk string :=
  name ← next_string;
  s ← get_state;
  set_state (Scan (wk_rest s) (wk_nodes s) (add_if (bool_decide (name ∈ seen)) CodeDuplicateField (appendPointer path name) (wk_found s)));;
  expect ":";;
  mret name.

Fixpoint scan_value (fuel : nat) (depth : Z) (path : string) : Walk tree :=
  match fuel with
  | O => throw OutOfFuel
  | S fuel' =>
      rest ← spaces;
      if next_is "{" rest then
        expect "{";; enter depth;;
        members ← scan_members fuel' (depth + 1) path [] true [];
        mret (TObject members)
      else if next_is "[" rest then
        expect "[";; enter depth;;
        items ← scan_items fuel' (depth + 1) path 0;
        mret (TArray items)
      else if next_is quote_mark rest then
        text ← next_string;
        enter depth;;
        mret (TString text)
      else
        '(value, rest) ← lift (of_option (scan_literal rest) (Failed CodeInvalidJSON));
        proceed rest;;
        enter depth;;
        mret value
  end
with scan_members (fuel : nat) (depth : Z) (path : string) (seen : list string) (first : bool) (members : list (string * tree))
    : Walk (list (string * tree)) :=
  match fuel with
  | O => throw OutOfFuel
  | S fuel' =>
      rest ← spaces;
      if next_is "}" rest then expect "}";; mret members
      else
        (if first then mret tt else expect ",");;
        name ← scan_name path seen;
        value ← scan_value fuel' depth (appendPointer path name);
        scan_members fuel' depth path (name :: seen) false (object_set members name value)
  end
with scan_items (fuel : nat) (depth : Z) (path : string) (index : Z) : Walk (list tree) :=
  match fuel with
  | O => throw OutOfFuel
  | S fuel' =>
      rest ← spaces;
      if next_is "]" rest then expect "]";; mret []
      else
        (if index =? 0 then mret tt else expect ",");;
        value ← scan_value fuel' depth (appendPointer path (integerToken index));
        values ← scan_items fuel' depth path (index + 1);
        mret (value :: values)
  end.

(** Two calls for every byte and one more. *)
Definition scan_fuel (raw : string) : nat := (2 * String.length raw + 1)%nat.

(** The whole document: nothing but white space follows the value. *)
Definition scanJSONStructure (fuel : nat) : Walk tree :=
  value ← scan_value fuel 0 "";
  rest ← spaces;
  reject (negb (String.eqb rest "")) (Failed CodeInvalidJSON);;
  mret value.

Record rawDocument := Raw { rd_value : tree; rd_candidates : candidateSet }.

(** [None] is a scan that ran out of fuel. *)
Definition scan_document (fuel : nat) (raw : string) : option (result Error rawDocument) :=
  match scanJSONStructure fuel (Scan raw 0 None) with
  | (Ok value, s) => Some (Ok (Raw value (wk_found s)))
  | (Err (Failed code), _) => Some (Err (reject_at StageSchema code ""))
  | (Err OutOfFuel, _) => None
  end.

Definition parseRaw (raw : string) : result Error rawDocument :=
  fail_if (MaxRawBytes <? slen raw) (reject_at StageSchema CodeRequestTooLarge "");;
  fail_if ((slen raw =? 0) || negb (utf8_valid raw)) (reject_at StageSchema CodeInvalidJSON "");;
  default (Err (reject_at StageSchema CodeInvalidJSON "")) (scan_document (scan_fuel raw) raw).

(** ** Tokens are not empty *)

Definition shrinks (scan : string -> option (string * string)) : Prop := forall s t r, scan s = Some (t, r) -> (String.length r < String.length s)%nat.

Lemma prepend_some text r t rest : prepend text r = Some (t, rest) -> exists t', r = Some (t', rest).
Proof. unfold prepend. destruct r as [[t' r]|]; [|done]. intros [= _ <-]. by exists t'. Qed.

Lemma take_digits_length s : String.length s = (String.length (take_digits s).1 + String.length (take_digits s).2)%nat.
Proof.
  induction s as [|c s IH]; [done|]. cbn [take_digits]. destruct (is_digit c); [|done].
  destruct (take_digits s) as [ds r]. simpl in *. lia.
Qed.

Lemma scan_digits_shrinks : shrinks scan_digits.
Proof.
  intros s t r. unfold scan_digits. pose proof (take_digits_length s) as H. destruct (take_digits s) as [ds r']. simpl in H.
  destruct (String.eqb_spec ds ""); [done|]. intros [= <- <-]. destruct ds; [done|]. simpl in *. lia.
Qed.

Lemma scan_whole_shrinks : shrinks scan_whole.
Proof.
  intros [|c s] t r; [done|]. cbn [scan_whole]. destruct (Ascii.eqb c "0"); [intros [= _ <-]; simpl; lia | apply scan_digits_shrinks].
Qed.

Lemma scan_exponent_shrinks : shrinks scan_exponent.
Proof.
  intros [|c s] t r; [done|]. cbn [scan_exponent]. destruct (one_of "+-" c); [|apply scan_digits_shrinks].
  intros [t' H%scan_digits_shrinks]%prepend_some. simpl. lia.
Qed.

Lemma scan_part_length starts scan s t r : shrinks scan -> scan_part starts scan s = Some (t, r) -> (String.length r <= String.length s)%nat.
Proof.
  intros Hs. destruct s as [|c s]; [by intros [= _ <-]|]. cbn [scan_part]. destruct (starts c); [|by intros [= _ <-]].
  intros [t' H%Hs]%prepend_some. simpl. lia.
Qed.

Lemma scan_number_shrinks : shrinks scan_number.
Proof.
  intros s t r. unfold scan_number. intros ([whole s1] & H1 & H)%bind_Some. apply bind_Some in H as ([fraction s2] & H2 & H).
  apply bind_Some in H as ([exponent s3] & H3 & [= _ <-]).
  apply (scan_part_length _ _ _ _ _ scan_exponent_shrinks) in H3. apply (scan_part_length _ _ _ _ _ scan_digits_shrinks) in H2.
  enough (String.length s1 < String.length s)%nat by lia. destruct s as [|c s]; [done|]. destruct (Ascii.eqb c "-").
  - apply prepend_some in H1 as [t' H1%scan_whole_shrinks]. simpl. lia.
  - by apply scan_whole_shrinks in H1.
Qed.

Lemma scan_literal_shrinks s v r : scan_literal s = Some (v, r) -> (String.length r < String.length s)%nat.
Proof.
  assert (forall p r, strip_prefix p s = Some r -> String.length s = (String.length p + String.length r)%nat) as Hp.
  { intros p r' ->%strip_prefix_some. apply string_length_app. }
  unfold scan_literal.
  destruct (strip_prefix "null" s) eqn:E1; [intros [= _ <-]; apply Hp in E1; simpl in E1; lia|].
  destruct (strip_prefix "true" s) eqn:E2; [intros [= _ <-]; apply Hp in E2; simpl in E2; lia|].
  destruct (strip_prefix "false" s) eqn:E3; [intros [= _ <-]; apply Hp in E3; simpl in E3; lia|].
  intros ([l r'] & H%scan_number_shrinks & [= _ <-])%bind_Some. done.
Qed.

Lemma scan_string_shrinks : shrinks scan_string.
Proof.
  intros s. remember (String.length s) as n eqn:Hn. revert s Hn. induction (lt_wf n) as [n _ IH]. intros s -> t r H.
  assert (forall s' text, (String.length s' < String.length s)%nat -> prepend text (scan_string s') = Some (t, r) ->
            (String.length r < String.length s)%nat) as Step.
  { intros s' text Hs [t' E]%prepend_some. apply (IH _ Hs s' eq_refl) in E. lia. }
  destruct s as [|c s1]; [done|]. cbn [scan_string] in H. destruct (Ascii.eqb c quote_mark); [injection H as _ <-; simpl; lia|].
  destruct (byte_val c <? 32); [done|]. destruct (negb _); [eapply Step; [|exact H]; simpl; lia|].
  destruct s1 as [|e s2]; [done|]. destruct (short_escape e); [eapply Step; [|exact H]; simpl; lia|].
  destruct (negb _); [done|]. do 4 (destruct s2 as [|? s2]; [done|]). destruct (hex4 _ _ _ _); [|done].
  destruct (low_surrogate _); [done|]. destruct (negb _); [eapply Step; [|exact H]; simpl; lia|].
  do 6 (destruct s2 as [|? s2]; [done|]). destruct (hex4 _ _ _ _); [|done]. destruct (_ && _ && _); [|done].
  eapply Step; [|exact H]; simpl; lia.
Qed.

(** ** The walk ends *)

Definition left_of (s : scan) : nat := String.length (wk_rest s).

(** A run that started with [n] bytes: it has fuel, and takes [k] of them. *)
Definition takes {A} (k n : nat) (p : result scan_stop A * scan) : Prop :=
  p.1 <> Err OutOfFuel /\ forall a, p.1 = Ok a -> (left_of p.2 + k <= n)%nat.

Lemma takes_bind {A B} (m : Walk A) (f : A -> Walk B) k j n s :
  takes k n (m s) -> (forall a s', (left_of s' + k <= n)%nat -> m s = (Ok a, s') -> takes j (left_of s') (f a s')) ->
  takes (k + j) n ((m ≫= f) s).
Proof.
  intros [H1 H2] Hf. unfold mbind, ST_bind. destruct (m s) as [[a|e] s'] eqn:E; [|split; [intros [= ->]; by apply H1 | done]].
  specialize (H2 a eq_refl). destruct (Hf a s' H2 eq_refl) as [H3 H4]. split; [exact H3|]. intros b Hb%H4. simpl in H2. lia.
Qed.

Lemma takes_weaken {A} j k n (p : result scan_stop A * scan) : (j <= k)%nat -> takes k n p -> takes j n p.
Proof. intros Hj [H1 H2]. split; [done|]. intros a Ha%H2. lia. Qed.

Lemma takes_ret {A} (a : A) s : takes 0 (left_of s) ((mret a : Walk A) s).
Proof. split; [done|]. intros ? _. simpl. lia. Qed.

Lemma skip_space_length s : (String.length (skip_space s) <= String.length s)%nat.
Proof. induction s as [|c s IH]; [done|]. cbn [skip_space]. case_match; simpl; lia. Qed.

Lemma spaces_run s : spaces s = (Ok (skip_space (wk_rest s)), Scan (skip_space (wk_rest s)) (wk_nodes s) (wk_found s)).
Proof. done. Qed.

Lemma takes_spaces s : takes 0 (left_of s) (spaces s).
Proof. rewrite spaces_run. split; [done|]. intros ? _. unfold left_of. simpl. pose proof (skip_space_length (wk_rest s)). lia. Qed.

Lemma takes_enter depth s : takes 0 (left_of s) (enter depth s).
Proof.
  unfold enter, reject, lift, fail_if, mbind, ST_bind, get_state, set_state.
  destruct (_ <? depth); [by split|]. destruct (_ <? _ + 1); [by split|]. split; [done|]. intros ? _. unfold left_of. simpl. lia.
Qed.

Lemma takes_proceed rest s n k : (String.length rest + k <= n)%nat -> takes k n (proceed rest s).
Proof. split; [done|]. intros ? _. done. Qed.

Lemma takes_expect c s : takes 1 (left_of s) (expect c s).
Proof.
  change 1%nat with (0 + 1)%nat. apply takes_bind; [apply takes_spaces|]. intros rest s' Hle E. rewrite spaces_run in E. injection E as <- <-.
  set (rest := skip_space _). unfold left_of at 1. cbn [wk_rest]. destruct rest as [|d rest]; [by split|].
  unfold reject, lift, fail_if, mbind, ST_bind. destruct (negb _); [by split|]. apply takes_proceed. simpl. lia.
Qed.

Lemma takes_next_string s : takes 2 (left_of s) (next_string s).
Proof.
  unfold next_string. change 2%nat with (1 + (0 + (0 + (1 + 0))))%nat. apply takes_bind; [apply takes_expect|]. intros _ s1 _ _.
  apply takes_bind; [split; [done|]; intros ? _; unfold left_of; simpl; lia|]. intros rest s2 _ E. injection E as <- <-.
  unfold lift, of_option. destruct (scan_string (wk_rest s1)) as [[text rest]|] eqn:E2; unfold mbind, ST_bind; [|by split].
  apply scan_string_shrinks in E2. apply (takes_bind _ _ 1 0); [apply takes_proceed; unfold left_of; lia|]. intros ? s3 _ _. apply takes_ret.
Qed.

Lemma takes_scan_name path seen s : takes 2 (left_of s) (scan_name path seen s).
Proof.
  unfold scan_name. change 2%nat with (2 + 0)%nat. apply takes_bind; [apply takes_next_string|]. intros name s1 _ _.
  unfold mbind at 1, ST_bind at 1, get_state. unfold mbind at 1, ST_bind at 1, set_state. set (s2 := Scan _ _ _).
  change (left_of s1) with (left_of s2). apply (takes_weaken _ (1 + 0)); [lia|]. apply takes_bind; [apply takes_expect|].
  intros ? s3 _ _. apply takes_ret.
Qed.

(** The calls of the scan: two units of fuel for every byte. *)
Lemma takes_scan fuel :
  (forall depth path s, (2 * left_of s + 1 <= fuel)%nat -> takes 1 (left_of s) (scan_value fuel depth path s)) /\
  (forall depth path seen first members s, (2 * left_of s + 2 <= fuel)%nat ->
     takes 1 (left_of s) (scan_members fuel depth path seen first members s)) /\
  (forall depth path index s, (2 * left_of s + 2 <= fuel)%nat -> takes 1 (left_of s) (scan_items fuel depth path index s)).
Proof.
  induction fuel as [|fuel (IHv & IHm & IHi)]; [split_and!; intros; lia|]. split_and!.
  - intros depth path s Hf. cbn [scan_value]. change 1%nat with (0 + 1)%nat. apply takes_bind; [apply takes_spaces|].
    intros rest s1 Hle E. rewrite spaces_run in E. injection E as <- <-. set (s1 := Scan _ _ _) in *. rewrite Nat.add_0_r in Hle.
    destruct (next_is "{" _).
    { change 1%nat with (1 + 0)%nat. apply takes_bind; [apply takes_expect|]. intros _ s2 H2 _.
      apply (takes_bind _ _ 0 0); [apply takes_enter|]. intros _ s3 H3 _. apply (takes_weaken _ (1 + 0)); [lia|].
      apply takes_bind; [apply IHm; lia|]. intros ms s4 _ _. apply takes_ret. }
    destruct (next_is "[" _).
    { change 1%nat with (1 + 0)%nat. apply takes_bind; [apply takes_expect|]. intros _ s2 H2 _.
      apply (takes_bind _ _ 0 0); [apply takes_enter|]. intros _ s3 H3 _. apply (takes_weaken _ (1 + 0)); [lia|].
      apply takes_bind; [apply IHi; lia|]. intros ms s4 _ _. apply takes_ret. }
    destruct (next_is quote_mark _).
    { apply (takes_weaken _ (2 + 0)); [lia|]. apply takes_bind; [apply takes_next_string|]. intros text s2 _ _.
      apply (takes_bind _ _ 0 0); [apply takes_enter|]. intros _ s3 _ _. apply takes_ret. }
    unfold lift, of_option. change (skip_space (wk_rest s)) with (wk_rest s1).
    destruct (scan_literal (wk_rest s1)) as [[v r]|] eqn:E2; unfold mbind at 1, ST_bind at 1; [|by split].
    apply scan_literal_shrinks in E2. apply (takes_bind _ _ 1 0); [apply takes_proceed; unfold left_of; lia|]. intros ? s2 _ _.
    apply (takes_bind _ _ 0 0); [apply takes_enter|]. intros _ s3 _ _. apply takes_ret.
  - intros depth path seen first members s Hf. cbn [scan_members]. change 1%nat with (0 + 1)%nat. apply takes_bind; [apply takes_spaces|].
    intros rest s1 Hle _. rewrite Nat.add_0_r in Hle. destruct (next_is "}" _).
    { apply (takes_bind _ _ 1 0); [apply takes_expect|]. intros _ s2 _ _. apply takes_ret. }
    change 1%nat with (0 + 1)%nat. apply takes_bind; [destruct first; [apply takes_ret | eapply takes_weaken; [|apply takes_expect]; lia]|].
    intros _ s2 H2 _. apply (takes_weaken _ (2 + (1 + 0))); [lia|]. apply takes_bind; [apply takes_scan_name|]. intros name s3 H3 _.
    apply takes_bind; [apply IHv; lia|]. intros v s4 H4 _. eapply takes_weaken; [|apply IHm]; lia.
  - intros depth path index s Hf. cbn [scan_items]. change 1%nat with (0 + 1)%nat. apply takes_bind; [apply takes_spaces|].
    intros rest s1 Hle _. rewrite Nat.add_0_r in Hle. destruct (next_is "]" _).
    { apply (takes_bind _ _ 1 0); [apply takes_expect|]. intros _ s2 _ _. apply takes_ret. }
    change 1%nat with (0 + 1)%nat. apply takes_bind; [destruct (index =? 0); [apply takes_ret | eapply takes_weaken; [|apply takes_expect]; lia]|].
    intros _ s2 H2 _. apply (takes_weaken _ (1 + 0)); [lia|]. apply takes_bind; [apply IHv; lia|]. intros v s3 H3 _.
    apply (takes_weaken _ (1 + 0)); [lia|]. apply takes_bind; [apply IHi; lia|]. intros vs s4 _ _. apply takes_ret.
Qed.

(** More fuel changes nothing. *)
Definition agree {A} (m m' : Walk A) : Prop := forall s, (m s).1 <> Err OutOfFuel -> m' s = m s.

Lemma agree_refl {A} (m : Walk A) : agree m m.
Proof. done. Qed.

Lemma agree_bind {A B} (m m' : Walk A) (f f' : A -> Walk B) : agree m m' -> (forall a, agree (f a) (f' a)) -> agree (m ≫= f) (m' ≫= f').
Proof.
  intros Hm Hf s. unfold mbind, ST_bind. intros H. assert ((m s).1 <> Err OutOfFuel) as H1.
  { destruct (m s) as [[a|e] s1]; [done|]. intros [= ->]. by apply H. }
  rewrite (Hm s H1). destruct (m s) as [[a|e] s1]; [|done]. by apply Hf.
Qed.

Ltac agreeing := repeat first [apply agree_refl | apply agree_bind; [|intros ?] | case_match]; eauto.

Definition agrees (fuel fuel' : nat) : Prop :=
  (forall depth path, agree (scan_value fuel depth path) (scan_value fuel' depth path)) /\
  (forall depth path seen first members,
     agree (scan_members fuel depth path seen first members) (scan_members fuel' depth path seen first members)) /\
  (forall depth path index, agree (scan_items fuel depth path index) (scan_items fuel' depth path index)).

Lemma agrees_step fuel fuel' : agrees fuel fuel' -> agrees (S fuel) (S fuel').
Proof. intros (IHv & IHm & IHi). split_and!; intros; cbn [scan_value scan_members scan_items]; agreeing. Qed.

Lemma agrees_more fuel n : agrees fuel (n + fuel).
Proof.
  revert n. induction fuel as [|fuel IH]; intros n; [by split_and!; intros; intros s []|].
  rewrite Nat.add_succ_r. by apply agrees_step.
Qed.

(** A document is scanned to an answer, whatever the fuel above [scan_fuel], and
    always to the same one. *)
Lemma scan_ends raw fuel : (scan_fuel raw <= fuel)%nat ->
  is_Some (scan_document fuel raw) /\ scan_document fuel raw = scan_document (scan_fuel raw) raw.
Proof.
  intros Hf. set (s := Scan raw 0 None).
  assert (takes 1 (left_of s) (scanJSONStructure (scan_fuel raw) s)) as [T _].
  { unfold scanJSONStructure. change 1%nat with (1 + 0)%nat.
    apply takes_bind; [apply (proj1 (takes_scan _)); unfold left_of, scan_fuel; simpl; lia|]. intros v s1 _ _.
    apply (takes_bind _ _ 0 0); [apply takes_spaces|]. intros rest s2 _ _. unfold reject, lift, fail_if, mbind, ST_bind.
    destruct (negb _); [by split | apply takes_ret]. }
  assert (scanJSONStructure fuel s = scanJSONStructure (scan_fuel raw) s) as E.
  { apply (agree_bind (scan_value (scan_fuel raw) 0 "") (scan_value fuel 0 "")); [|intros; apply agree_refl | exact T].
    replace fuel with ((fuel - scan_fuel raw) + scan_fuel raw)%nat by lia. apply agrees_more. }
  unfold scan_document. fold s. rewrite E. split; [|done].
  destruct (scanJSONStructure (scan_fuel raw) s) as [[v|[code|]] s']; [by eexists.. | by destruct T].
Qed.
