(* ===== verification/Schema.v ===== *)
(** * The schema stage (admission/schema.go, schema_candidates.go, number.go)

    A scanned document is checked twice: a first pass collects a candidate for
    every fault, of which the least is reported, and a second one reads the
    members into [sourceIntent] or [sourceStatus].  Members of a Go map are
    visited in any order; the first pass keeps a minimum ([add_comm]) and the
    second one sorts, so the order of the scan stands for all of them. *)

From S2P Require Import Prelude StringOrder Bytes GoTime Calendar Closed Json Digests Hierarchy AuthzVocabulary Authorization.
From S2P Require Import Condition Control Resource Model Rejection Raw.
From Stdlib Require Import Ascii String.

(** ** Numbers *)

Fixpoint split_first (stop : ascii -> bool) (s : string) : string * option string :=
  match s with
  | EmptyString => ("", None)
  | String c rest => if stop c then ("", Some rest) else let '(before, after) := split_first stop rest in (String c before, after)
  end.

Definition decimalDigits (text : string) : bool := string_forall is_digit text.

(** One digit of the exponent, which is held at [limit]. *)
Definition clamp_digit (limit value digit : Z) : Z :=
  if (limit - digit) / 10 <? value then limit else Z.min limit (value * 10 + digit).

Fixpoint clamp_digits (limit value : Z) (text : string) : option Z :=
  match text with
  | EmptyString => Some value
  | String c rest => if is_digit c then clamp_digits limit (clamp_digit limit value (byte_val c - 48)) rest else None
  end.

Definition clampedDecimalExponent (text : string) : option Z :=
  let '(sign, digits) := match text with
                         | String c rest => if Ascii.eqb c "-" then (-1, rest) else if Ascii.eqb c "+" then (1, rest) else (1, text)
                         | EmptyString => (1, "")
                         end in
  if String.eqb digits "" then None else Z.mul sign <$> clamp_digits (MaxRawBytes + 1) 0 digits.

(** [strings.TrimLeft(digits, "0")] *)
Fixpoint trim_zeros (s : string) : string :=
  match s with
  | String c rest => if Ascii.eqb c "0" then trim_zeros rest else s
  | EmptyString => ""
  end.

(** The two loops to the result; either fails on overflow. *)
Fixpoint accumulate (result : Z) (digits : string) : option Z :=
  match digits with
  | EmptyString => Some result
  | String c rest =>
      let digit := byte_val c - 48 in
      if (max_int64 - digit) / 10 <? result then None else accumulate (result * 10 + digit) rest
  end.

Fixpoint scale_up (scale : nat) (result : Z) : option Z :=
  match scale with
  | O => Some result
  | S scale' => if max_int64 / 10 <? result then None else scale_up scale' (result * 10)
  end.

(** The digits without a fraction, and the scale that is left. *)
Definition drop_fraction (digits : string) (scale : Z) : option (string * Z) :=
  if 0 <=? scale then Some (digits, scale) else
  let kept := slen digits + scale in
  if kept <=? 0 then None
  else if negb (string_forall (Ascii.eqb "0") (substring (Z.to_nat kept) (Z.to_nat (- scale)) digits)) then None
  else Some (substring 0 (Z.to_nat kept) digits, 0).

Definition scaled_int64 (digits : string) (scale : Z) : option Z :=
  '(digits, scale) ← drop_fraction digits scale;
  let digits := trim_zeros digits in
  if String.eqb digits "" then Some 0
  else if (19 <? scale) || (19 <? slen digits + scale) then None
  else result ← accumulate 0 digits; scale_up (Z.to_nat scale) result.

Definition exponent_of (text : option string) : option Z :=
  match text with None => Some 0 | Some e => clampedDecimalExponent e end.

Definition nonNegativeInt64 (number : string) : option Z :=
  let '(negative, text) := match number with
                           | String c rest => if Ascii.eqb c "-" then (true, rest) else (false, number)
                           | EmptyString => (false, "")
                           end in
  let '(mantissa, exponent) := split_first (one_of "eE") text in
  exponent ← exponent_of exponent;
  let '(integerPart, fraction) := split_first (Ascii.eqb ".") mantissa in
  let fractionPart := default "" fraction in
  if String.eqb integerPart "" || ((1 <? slen integerPart) && next_is "0" integerPart)
     || negb (decimalDigits integerPart)
     || (is_some fraction && (String.eqb fractionPart "" || negb (decimalDigits fractionPart))) then None else
  let digits := integerPart +:+ fractionPart in
  if string_forall (Ascii.eqb "0") digits then Some 0
  else if negative then None
  else scaled_int64 digits (exponent - slen fractionPart).

(** ** Members *)

Notation object := (list (string * tree)).

Fixpoint object_get (members : object) (name : string) : option tree :=
  match members with
  | [] => None
  | (k, v) :: rest => if String.eqb k name then Some v else object_get rest name
  end.

(** [utf8.RuneCountInString] *)
Definition rune_count (text : string) : Z := llen (runes text).

Definition decimalPattern (text : string) : bool := canonicalDecimalPattern text.

(** [len(text) > 64 || !decimalPattern.MatchString(text)] *)
Definition bad_decimal (text : string) : bool := (64 <? slen text) || negb (decimalPattern text).

(** [time.Parse] gives a time that formats back to the text. *)
Definition exact_timestamp (text : string) : bool :=
  match parse_layout text with Some t => String.eqb (format_timestamp t) text | None => false end.

Definition condition_status (text : string) : Condition.Status :=
  if String.eqb text "True" then StatusTrue else if String.eqb text "False" then StatusFalse
  else if String.eqb text "Unknown" then StatusUnknown else StatusOther text.

Definition capability_state (text : string) : CapabilityState :=
  if String.eqb text "Supported" then CapabilitySupported else if String.eqb text "Unsupported" then CapabilityUnsupported
  else if String.eqb text "Unknown" then CapabilityUnknown else CapabilityOther text.

Definition quota_state (text : string) : QuotaState :=
  if String.eqb text "WithinLimit" then QuotaWithinLimit else if String.eqb text "Exceeded" then QuotaExceeded
  else if String.eqb text "Unknown" then QuotaUnknown else QuotaOther text.

Definition listed (text : string) (values : list string) : bool := existsb (String.eqb text) values.

(** ** The first pass: candidates *)

(** A pass hands the set on. *)
Definition Pass := candidateSet -> candidateSet.

Definition add_at (code : Code) (path name : string) : Pass := add code (appendPointer path name).

Definition check_required (members : object) (path : string) (set : candidateSet) (name : string) : candidateSet :=
  match object_get members name with
  | None => add_at CodeMissingField path name set
  | Some TNull => add_at CodeInvalidType path name set
  | Some _ => set
  end.

Definition check_allowed (allowed : list string) (path : string) (set : candidateSet) (member : string * tree) : candidateSet :=
  if listed member.1 allowed then set else add_at CodeUnknownField path member.1 set.

(** [collectObject], with what is done with the members of an object. *)
Definition collectObject (value : tree) (path : string) (required allowed : list string) (members_of : object -> Pass) : Pass := fun set =>
  match value with
  | TObject members => members_of members (foldl (check_allowed allowed path) (foldl (check_required members path) set required) members)
  | _ => add CodeInvalidType path set
  end.

(** [collectString]: the text, if there is one. *)
Definition string_at (members : object) (name : string) : option string :=
  match object_get members name with Some (TString text) => Some text | _ => None end.

Definition collectString (members : object) (name path : string) : Pass := fun set =>
  match object_get members name with
  | None | Some TNull | Some (TString _) => set
  | Some _ => add_at CodeInvalidType path name set
  end.

(** A string that fails a test. *)
Definition collect_test (bad : string -> bool) (members : object) (name path : string) : Pass := fun set =>
  let set := collectString members name path set in
  match string_at members name with Some text => if bad text then add_at CodeInvalidValue path name set else set | None => set end.

Definition bad_pattern (pattern : string -> bool) (maxRunes : Z) (text : string) : bool := (maxRunes <? rune_count text) || negb (pattern text).

Definition collectPatternString (members : object) (name path : string) (pattern : string -> bool) (maxRunes : Z) : Pass :=
  collect_test (bad_pattern pattern maxRunes) members name path.

Definition collectTimestamp (members : object) (name path : string) : Pass :=
  collect_test (fun text => negb (exact_timestamp text)) members name path.

Definition collectNonNegativeInt64 (members : object) (name path : string) : Pass := fun set =>
  match object_get members name with
  | None | Some TNull => set
  | Some (TNumber literal) => if is_some (nonNegativeInt64 literal) then set else add_at CodeInvalidValue path name set
  | Some _ => add_at CodeInvalidType path name set
  end.

Definition collectOptionalDecimal (members : object) (name path : string) : Pass := fun set =>
  match object_get members name with
  | None => set
  | Some (TString text) => if bad_decimal text then add_at CodeInvalidValue path name set else set
  | Some _ => add_at CodeInvalidType path name set
  end.

(** A member, when it is there. *)
Definition when_present (members : object) (name : string) (pass : tree -> Pass) : Pass := fun set =>
  match object_get members name with Some value => pass value set | None => set end.

(** A member, when it is there and not null. *)
Definition when_given (members : object) (name : string) (pass : tree -> Pass) : Pass := fun set =>
  match object_get members name with Some TNull | None => set | Some value => pass value set end.

(** A list of at most [limit] items. *)
Fixpoint collect_each (pass : string -> tree -> Pass) (path : string) (index : Z) (items : list tree) : Pass := fun set =>
  match items with
  | [] => set
  | item :: rest => collect_each pass path (index + 1) rest (pass (appendPointer path (integerToken index)) item set)
  end.

Definition collect_list (limit : Z) (pass : string -> tree -> Pass) (value : tree) (path : string) : Pass := fun set =>
  match value with
  | TArray items => collect_each pass path 0 items (add_if (limit <? llen items) CodeInvalidValue path set)
  | _ => add CodeInvalidType path set
  end.

Definition collect_label (path : string) (set : candidateSet) (label : string * tree) : candidateSet :=
  let itemPath := appendPointer path label.1 in
  let set := add_if (negb (labelKeyPattern label.1)) CodeInvalidValue itemPath set in
  match label.2 with
  | TString text => add_if (256 <? rune_count text) CodeInvalidValue itemPath set
  | _ => add CodeInvalidType itemPath set
  end.

Definition collect_labels (path : string) (value : tree) : Pass := fun set =>
  match value with
  | TObject labels => foldl (collect_label path) (add_if (64 <? llen labels) CodeInvalidValue path set) labels
  | _ => add CodeInvalidType path set
  end.

Definition bad_display_name (text : string) : bool := (rune_count text <? 1) || (128 <? rune_count text).

Definition collectMetadataSchema (value : tree) (path : string) : Pass :=
  collectObject value path ["displayName"] ["displayName"; "labels"] (fun members set =>
    let set := collect_test bad_display_name members "displayName" path set in
    when_present members "labels" (collect_labels (appendPointer path "labels")) set).

Definition collectPolicyScopeSchema (value : tree) (path : string) : Pass :=
  collectObject value path ["kind"] ["kind"; "environmentId"] (fun members set =>
    let set := collectString members "kind" path set in
    let kind := text ← string_at members "kind"; Some (ParseScopeKind text) in
    let set := match kind with Some (Err _) => add_at CodeInvalidValue path "kind" set | _ => set end in
    let environment := object_get members "environmentId" in
    let set := match environment with
               | None => set
               | Some TNull => add_at CodeInvalidType path "environmentId" set
               | Some _ => collectPatternString members "environmentId" path validID 128 set
               end in
    match kind with
    | Some (Ok ScopeKindWorkspace) => if is_some environment then add_at CodeInvalidValue path "environmentId" set else set
    | Some (Ok _) => if is_some environment then set else add_at CodeMissingField path "environmentId" set
    | _ => set
    end).

Definition collect_binding (itemPath : string) (item : tree) : Pass :=
  collectObject item itemPath ["memberId"; "role"; "scope"] ["memberId"; "role"; "scope"] (fun members set =>
    let set := collectPatternString members "memberId" itemPath validID 128 set in
    let set := collect_test (fun role => negb (result_ok (ParseRole role))) members "role" itemPath set in
    when_given members "scope" (fun scope => collectPolicyScopeSchema scope (appendPointer itemPath "scope")) set).

Definition collectPolicySpecSchema (value : tree) (path : string) : Pass :=
  collectObject value path ["bindings"] ["bindings"] (fun members =>
    when_given members "bindings" (fun bindings => collect_list MaxBindingsPerPolicy collect_binding bindings (appendPointer path "bindings"))).

Definition collectProviderSpecSchema (value : tree) (path : string) : Pass :=
  collectObject value path ["provider"; "credentialRef"] ["provider"; "credentialRef"] (fun members set =>
    let set := collect_test (fun text => negb (providerPattern text)) members "provider" path set in
    let referencePath := appendPointer path "credentialRef" in
    when_present members "credentialRef" (fun reference =>
      collectObject reference referencePath ["referenceId"; "version"] ["referenceId"; "version"] (fun members set =>
        collect_test (fun text => negb (versionPattern text)) members "version" referencePath
          (collect_test (fun text => negb (validID text)) members "referenceId" referencePath set))) set).

Definition collect_flag (path name : string) (flag : tree) : Pass := fun set =>
  match flag with TBool _ => set | _ => add_at CodeInvalidType path name set end.

Definition collectIntentSpecSchema (kind : Hierarchy.Kind) (value : tree) (path : string) : Pass :=
  match kind with
  | KindWorkspace =>
      collectObject value path [] ["suspendReconciliation"] (fun members =>
        when_present members "suspendReconciliation" (collect_flag path "suspendReconciliation"))
  | KindPolicy => collectPolicySpecSchema value path
  | KindProviderConnection => collectProviderSpecSchema value path
  | _ => collectObject value path [] [] (fun _ set => set)
  end.

Definition conditionMembers : list string := ["type"; "status"; "reason"; "message"; "observedGeneration"; "lastTransitionAt"].

Definition collect_condition (itemPath : string) (item : tree) : Pass :=
  collectObject item itemPath conditionMembers conditionMembers (fun members set =>
    let set := collectPatternString members "type" itemPath typePattern 64 set in
    let set := collect_test (fun text => negb (listed text ["True"; "False"; "Unknown"])) members "status" itemPath set in
    let set := collectPatternString members "reason" itemPath reasonPattern 64 set in
    let set := collect_test (fun text => 512 <? rune_count text) members "message" itemPath set in
    let set := collectNonNegativeInt64 members "observedGeneration" itemPath set in
    collectTimestamp members "lastTransitionAt" itemPath set).

Definition collectConditionsSchema (value : tree) (path : string) : Pass := collect_list MaxConditions collect_condition value path.

(** The members every observation ends with. *)
Definition collect_source (members : object) (itemPath : string) : Pass := fun set =>
  let set := collectPatternString members "source" itemPath sourcePattern 64 set in
  let set := collectTimestamp members "observedAt" itemPath set in
  collectPatternString members "reason" itemPath reasonPattern 64 set.

Definition capabilityMembers : list string := ["name"; "state"; "source"; "observedAt"; "reason"].
Definition capabilityStates : list string := ["Supported"; "Unsupported"; "Unknown"].

Definition collect_capability (itemPath : string) (item : tree) : Pass :=
  collectObject item itemPath capabilityMembers capabilityMembers (fun members set =>
    let set := collectPatternString members "name" itemPath observationPattern 128 set in
    let set := collect_test (fun text => negb (listed text capabilityStates)) members "state" itemPath set in
    collect_source members itemPath set).

Definition collectCapabilitiesSchema (value : tree) (path : string) : Pass := collect_list 128 collect_capability value path.

Definition quotaMembers : list string := ["name"; "state"; "requested"; "available"; "source"; "observedAt"; "reason"].
Definition quotaStates : list string := ["WithinLimit"; "Exceeded"; "Unknown"].

(** A known quota has its two amounts, an unknown one neither. *)
Definition collect_amounts (members : object) (itemPath : string) : Pass := fun set =>
  let requestedPresent := is_some (object_get members "requested") in
  let availablePresent := is_some (object_get members "available") in
  match string_at members "state" with
  | None => set
  | Some state =>
      let set := if String.eqb state "Unknown" && (requestedPresent || availablePresent) then add_at CodeInvalidValue itemPath "state" set else set in
      if String.eqb state "WithinLimit" || String.eqb state "Exceeded" then
        let set := if availablePresent then set else add_at CodeMissingField itemPath "available" set in
        if requestedPresent then set else add_at CodeMissingField itemPath "requested" set
      else set
  end.

Definition collect_quota (itemPath : string) (item : tree) : Pass :=
  collectObject item itemPath capabilityMembers quotaMembers (fun members set =>
    let set := collectPatternString members "name" itemPath observationPattern 128 set in
    let set := collect_test (fun text => negb (listed text quotaStates)) members "state" itemPath set in
    let set := collectOptionalDecimal members "requested" itemPath set in
    let set := collectOptionalDecimal members "available" itemPath set in
    let set := collect_amounts members itemPath set in
    collect_source members itemPath set).

Definition collectQuotasSchema (value : tree) (path : string) : Pass := collect_list 128 collect_quota value path.

Definition collectStatusSchema (kind : Hierarchy.Kind) (value : tree) (path : string) : Pass :=
  let provider := bool_decide (kind = KindProviderConnection) in
  let names := ["observedGeneration"; "conditions"] ++ if provider then ["capabilities"; "quotaChecks"] else [] in
  collectObject value path names names (fun members set =>
    let set := collectNonNegativeInt64 members "observedGeneration" path set in
    let set := when_present members "conditions" (fun v => collectConditionsSchema v (appendPointer path "conditions")) set in
    if negb provider then set else
    let set := when_present members "capabilities" (fun v => collectCapabilitiesSchema v (appendPointer path "capabilities")) set in
    when_present members "quotaChecks" (fun v => collectQuotasSchema v (appendPointer path "quotaChecks")) set).

(** The version and the kind, and what depends on the kind. *)
Definition collect_head (members : object) (body : Hierarchy.Kind -> Pass) (between : Pass) : Pass := fun set =>
  let set := collectString members "apiVersion" "" set in
  let set := match string_at members "apiVersion" with
             | Some version => add_if (negb (String.eqb version APIVersion)) CodeUnsupportedVersion "/apiVersion" set
             | None => set
             end in
  let set := collectString members "kind" "" set in
  match string_at members "kind" with
  | None => between set
  | Some kind =>
      match ParseKind kind with
      | Err _ => between (add CodeUnsupportedKind "/kind" set)
      | Ok kind => body kind (between set)
      end
  end.

Definition validateIntentSchema (value : tree) (rawCandidates : candidateSet) : result Error unit :=
  let names := ["apiVersion"; "kind"; "metadata"; "spec"] in
  failure StageSchema (collectObject value "" names names (fun members =>
    collect_head members
      (fun kind => when_present members "spec" (fun spec => collectIntentSpecSchema kind spec "/spec"))
      (when_present members "metadata" (fun metadata => collectMetadataSchema metadata "/metadata"))) rawCandidates).

Definition validateStatusSchema (value : tree) (rawCandidates : candidateSet) : result Error unit :=
  let names := ["apiVersion"; "kind"; "status"] in
  failure StageSchema (collectObject value "" names names (fun members =>
    collect_head members
      (fun kind => when_present members "status" (fun status => collectStatusSchema kind status "/status"))
      (fun set => set)) rawCandidates).

(** ** The second pass: members *)

Record sourceIntent := SI {
  si_apiVersion : string;
  si_kind : Hierarchy.Kind;
  si_metadata : WriteMetadata;
  si_workspace : option bool;
  si_policy : PolicySpec;
  si_provider : ProviderConnectionSpec;
}.

Record sourceStatus := SS {
  ss_apiVersion : string;
  ss_kind : Hierarchy.Kind;
  ss_common : CommonStatus;
  ss_provider : ProviderConnectionStatus;
}.

(** [reject(StageSchema, code, path)] *)
Definition schema_error (code : Code) (path : string) : Error := reject_at StageSchema code path.
Definition schema_error_at (code : Code) (path name : string) : Error := schema_error code (appendPointer path name).

Definition schemaObject (value : tree) (path : string) : result Error object :=
  match value with TObject members => Ok members | _ => Err (schema_error CodeInvalidType path) end.

Definition required (members : object) (name path : string) : result Error tree :=
  match object_get members name with
  | None => Err (schema_error_at CodeMissingField path name)
  | Some TNull => Err (schema_error_at CodeInvalidType path name)
  | Some value => Ok value
  end.

Definition requiredString (members : object) (name path : string) : result Error string :=
  value ← required members name path;
  match value with TString text => Ok text | _ => Err (schema_error_at CodeInvalidType path name) end.

(** A required string that passes a test. *)
Definition required_test (bad : string -> bool) (members : object) (name path : string) : result Error string :=
  text ← requiredString members name path;
  fail_if (bad text) (schema_error_at CodeInvalidValue path name);;
  Ok text.

Definition requiredPatternString (members : object) (name path : string) (pattern : string -> bool) (maxRunes : Z) : result Error string :=
  required_test (bad_pattern pattern maxRunes) members name path.

Definition requiredNonNegativeInt64 (members : object) (name path : string) : result Error Z :=
  value ← required members name path;
  match value with
  | TNumber literal => of_option (nonNegativeInt64 literal) (schema_error_at CodeInvalidValue path name)
  | _ => Err (schema_error_at CodeInvalidType path name)
  end.

Definition optionalDecimal (members : object) (name path : string) : result Error (option string) :=
  match object_get members name with
  | None => Ok None
  | Some (TString text) => fail_if (bad_decimal text) (schema_error_at CodeInvalidValue path name);; Ok (Some text)
  | Some _ => Err (schema_error_at CodeInvalidType path name)
  end.

Definition rejectUnknown (members : object) (path : string) (allowed : list string) : result Error unit :=
  match sort_strings (List.filter (fun name => negb (listed name allowed)) members.*1) with
  | [] => Ok tt
  | name :: _ => Err (schema_error_at CodeUnknownField path name)
  end.

(** The members of an object with known names only. *)
Definition known_object (value : tree) (path : string) (allowed : list string) : result Error object :=
  members ← schemaObject value path;
  rejectUnknown members path allowed;;
  Ok members.

(** The items of a list of at most [limit]. *)
Definition schema_list (limit : Z) (value : tree) (path : string) : result Error (list tree) :=
  match value with
  | TArray items => fail_if (limit <? llen items) (schema_error CodeInvalidValue path);; Ok items
  | _ => Err (schema_error CodeInvalidType path)
  end.

Fixpoint schema_each {A} (read : tree -> string -> result Error A) (path : string) (index : Z) (items : list tree) : result Error (list A) :=
  match items with
  | [] => Ok []
  | item :: rest =>
      value ← read item (appendPointer path (integerToken index));
      values ← schema_each read path (index + 1) rest;
      Ok (value :: values)
  end.

Fixpoint schema_labels (members : object) (path : string) (keys : list string) : result Error (gmap string string) :=
  match keys with
  | [] => Ok ∅
  | key :: rest =>
      fail_if (negb (labelKeyPattern key)) (schema_error_at CodeInvalidValue path key);;
      text ← of_option (string_at members key) (schema_error_at CodeInvalidType path key);
      fail_if (256 <? rune_count text) (schema_error_at CodeInvalidValue path key);;
      labels ← schema_labels members path rest;
      Ok (<[key := text]> labels)
  end.

Definition schemaMetadata (value : tree) (path : string) : result Error WriteMetadata :=
  members ← known_object value path ["displayName"; "labels"];
  displayName ← required_test bad_display_name members "displayName" path;
  match object_get members "labels" with
  | None => Ok (WM displayName ∅)
  | Some value =>
      let labelsPath := appendPointer path "labels" in
      labels ← schemaObject value labelsPath;
      fail_if (64 <? llen labels) (schema_error CodeInvalidValue labelsPath);;
      labels ← schema_labels labels labelsPath (sort_strings labels.*1);
      Ok (WM displayName labels)
  end.

Definition schemaWorkspaceSpec (value : tree) (path : string) : result Error (option bool) :=
  members ← known_object value path ["suspendReconciliation"];
  match object_get members "suspendReconciliation" with
  | None => Ok None
  | Some (TBool flag) => Ok (Some flag)
  | Some _ => Err (schema_error_at CodeInvalidType path "suspendReconciliation")
  end.

Definition schemaPolicyScope (value : tree) (path : string) : result Error Scope :=
  members ← known_object value path ["kind"; "environmentId"];
  kindValue ← requiredString members "kind" path;
  kind ← map_err (fun _ => schema_error_at CodeInvalidValue path "kind") (ParseScopeKind kindValue);
  let environment := object_get members "environmentId" in
  if bool_decide (kind = ScopeKindWorkspace) then
    match environment with
    | None => Ok (Sc kind None)
    | Some (TString _) => Err (schema_error_at CodeInvalidValue path "environmentId")
    | Some _ => Err (schema_error_at CodeInvalidType path "environmentId")
    end
  else
    fail_if (negb (is_some environment)) (schema_error_at CodeMissingField path "environmentId");;
    environmentID ← requiredPatternString members "environmentId" path validID 128;
    Ok (Sc kind (Some environmentID)).

Definition schemaPolicyBinding (value : tree) (path : string) : result Error RoleBinding :=
  members ← known_object value path ["memberId"; "role"; "scope"];
  memberID ← requiredPatternString members "memberId" path validID 128;
  roleValue ← requiredString members "role" path;
  role ← map_err (fun _ => schema_error_at CodeInvalidValue path "role") (ParseRole roleValue);
  scopeValue ← required members "scope" path;
  scope ← schemaPolicyScope scopeValue (appendPointer path "scope");
  Ok (RB memberID role scope).

Definition schemaPolicySpec (value : tree) (path : string) : result Error PolicySpec :=
  members ← known_object value path ["bindings"];
  bindingsValue ← required members "bindings" path;
  items ← schema_list MaxBindingsPerPolicy bindingsValue (appendPointer path "bindings");
  bindings ← schema_each schemaPolicyBinding (appendPointer path "bindings") 0 items;
  Ok (PS (Some bindings)).

Definition schemaEmptySpec (value : tree) (path : string) : result Error unit :=
  known_object value path [];; Ok tt.

Definition schemaProviderSpec (value : tree) (path : string) : result Error ProviderConnectionSpec :=
  members ← known_object value path ["provider"; "credentialRef"];
  provider ← required_test (fun text => negb (providerPattern text)) members "provider" path;
  referenceValue ← required members "credentialRef" path;
  let referencePath := appendPointer path "credentialRef" in
  reference ← known_object referenceValue referencePath ["referenceId"; "version"];
  referenceID ← required_test (fun text => negb (validID text)) reference "referenceId" referencePath;
  version ← required_test (fun text => negb (versionPattern text)) reference "version" referencePath;
  Ok (PCS provider (CR referenceID version)).

Definition schemaCondition (value : tree) (path : string) : result Error Condition :=
  members ← known_object value path conditionMembers;
  typeName ← requiredPatternString members "type" path typePattern 64;
  status ← required_test (fun text => negb (listed text ["True"; "False"; "Unknown"])) members "status" path;
  reason ← requiredPatternString members "reason" path reasonPattern 64;
  message ← required_test (fun text => 512 <? rune_count text) members "message" path;
  observed ← requiredNonNegativeInt64 members "observedGeneration" path;
  lastTransitionAt ← requiredString members "lastTransitionAt" path;
  Ok (Cond typeName (condition_status status) reason message observed lastTransitionAt).

Definition schemaConditions (value : tree) (path : string) : result Error (list Condition) :=
  items ← schema_list MaxConditions value path;
  schema_each schemaCondition path 0 items.

Definition schemaCommonStatusFields (members : object) (path : string) : result Error CommonStatus :=
  observed ← requiredNonNegativeInt64 members "observedGeneration" path;
  conditionsValue ← required members "conditions" path;
  conditions ← schemaConditions conditionsValue (appendPointer path "conditions");
  Ok (CSt observed (Some conditions)).

Definition schemaCommonStatus (value : tree) (path : string) : result Error CommonStatus :=
  members ← known_object value path ["observedGeneration"; "conditions"];
  schemaCommonStatusFields members path.

Definition schemaCapability (value : tree) (path : string) : result Error ProviderCapability :=
  members ← known_object value path capabilityMembers;
  name ← requiredPatternString members "name" path observationPattern 128;
  state ← required_test (fun text => negb (listed text capabilityStates)) members "state" path;
  source ← requiredPatternString members "source" path sourcePattern 64;
  observedAt ← requiredString members "observedAt" path;
  reason ← requiredPatternString members "reason" path reasonPattern 64;
  Ok (PC name (capability_state state) source observedAt reason).

Definition schemaCapabilities (value : tree) (path : string) : result Error (list ProviderCapability) :=
  items ← schema_list 128 value path;
  schema_each schemaCapability path 0 items.

Definition schemaQuotaCheck (value : tree) (path : string) : result Error QuotaCheck :=
  members ← known_object value path quotaMembers;
  name ← requiredPatternString members "name" path observationPattern 128;
  state ← required_test (fun text => negb (listed text quotaStates)) members "state" path;
  requested ← optionalDecimal members "requested" path;
  available ← optionalDecimal members "available" path;
  source ← requiredPatternString members "source" path sourcePattern 64;
  observedAt ← requiredString members "observedAt" path;
  reason ← requiredPatternString members "reason" path reasonPattern 64;
  Ok (QC name (quota_state state) requested available source observedAt reason).

Definition schemaQuotaChecks (value : tree) (path : string) : result Error (list QuotaCheck) :=
  items ← schema_list 128 value path;
  schema_each schemaQuotaCheck path 0 items.

Definition schemaProviderStatus (value : tree) (path : string) : result Error ProviderConnectionStatus :=
  members ← known_object value path ["observedGeneration"; "conditions"; "capabilities"; "quotaChecks"];
  common ← schemaCommonStatusFields members path;
  capabilitiesValue ← required members "capabilities" path;
  capabilities ← schemaCapabilities capabilitiesValue (appendPointer path "capabilities");
  quotaValue ← required members "quotaChecks" path;
  quotas ← schemaQuotaChecks quotaValue (appendPointer path "quotaChecks");
  Ok (PCSt (cs_ObservedGeneration common) (cs_Conditions common) (Some capabilities) (Some quotas)).

(** The values of the fields a document does not have. *)
Definition no_policy : PolicySpec := PS None.
Definition no_provider : ProviderConnectionSpec := PCS "" (CR "" "").
Definition no_common : CommonStatus := CSt 0 None.
Definition no_provider_status : ProviderConnectionStatus := PCSt 0 None None None.

(** [apiVersion] and [kind]. *)
Definition schema_head (members : object) : result Error (string * Hierarchy.Kind) :=
  apiVersion ← requiredString members "apiVersion" "";
  fail_if (negb (String.eqb apiVersion APIVersion)) (schema_error CodeUnsupportedVersion "/apiVersion");;
  kindValue ← requiredString members "kind" "";
  kind ← map_err (fun _ => schema_error CodeUnsupportedKind "/kind") (ParseKind kindValue);
  Ok (apiVersion, kind).

Definition schemaIntent (document : rawDocument) : result Error sourceIntent :=
  validateIntentSchema (rd_value document) (rd_candidates document);;
  members ← known_object (rd_value document) "" ["apiVersion"; "kind"; "metadata"; "spec"];
  '(apiVersion, kind) ← schema_head members;
  metadataValue ← required members "metadata" "";
  metadata ← schemaMetadata metadataValue "/metadata";
  spec ← required members "spec" "";
  match kind with
  | KindWorkspace => flag ← schemaWorkspaceSpec spec "/spec"; Ok (SI apiVersion kind metadata flag no_policy no_provider)
  | KindPolicy => policy ← schemaPolicySpec spec "/spec"; Ok (SI apiVersion kind metadata None policy no_provider)
  | KindProviderConnection => provider ← schemaProviderSpec spec "/spec"; Ok (SI apiVersion kind metadata None no_policy provider)
  | _ => schemaEmptySpec spec "/spec";; Ok (SI apiVersion kind metadata None no_policy no_provider)
  end.

Definition schemaStatus (document : rawDocument) : result Error sourceStatus :=
  validateStatusSchema (rd_value document) (rd_candidates document);;
  members ← known_object (rd_value document) "" ["apiVersion"; "kind"; "status"];
  '(apiVersion, kind) ← schema_head members;
  status ← required members "status" "";
  if bool_decide (kind = KindProviderConnection)
  then provider ← schemaProviderStatus status "/status"; Ok (SS apiVersion kind no_common provider)
  else common ← schemaCommonStatus status "/status"; Ok (SS apiVersion kind common no_provider_status).
