(* ===== verification/WriteAdmission.v ===== *)
(** * Write admission (admission/admission.go, semantic.go)

    A submitted document passes six stages in a fixed order: schema ([Raw],
    [Schema]), semantic, immutable, reference, default and conversion.  What the
    entry points return is a copy of the converted value; a copy of a valid value
    is equal to it ([CloneIntent], [CloneStatusWrite]). *)

From S2P Require Import Prelude StringOrder Bytes GoTime Calendar Closed Json Digests Hierarchy AuthzVocabulary Identity Authorization.
From S2P Require Import Condition Control Resource Model Rejection Raw Schema.
From Stdlib Require Import Ascii String.

(** ** Errors of the packages below *)

#[export] Instance hierarchy_error_eq : EqDecision Hierarchy.error.
Proof. solve_decision. Defined.
#[export] Instance BindingField_eq : EqDecision BindingField.
Proof. solve_decision. Defined.
#[export] Instance authorization_error_eq : EqDecision AuthzVocabulary.error.
Proof. solve_decision. Defined.
#[export] Instance condition_error_eq : EqDecision Condition.error.
Proof. solve_decision. Defined.
#[export] Instance control_error_eq : EqDecision Control.error.
Proof. solve_decision. Defined.

(** [errors.Is]: the error itself or one it wraps. *)
Fixpoint hierarchy_is (target e : Hierarchy.error) : bool :=
  bool_decide (e = target) ||
  match e with Hierarchy.ErrWrap a b => hierarchy_is target a || hierarchy_is target b | _ => false end.

Fixpoint authorization_is (target e : AuthzVocabulary.error) : bool :=
  bool_decide (e = target) ||
  match e with
  | AuthzVocabulary.ErrWrap a b => authorization_is target a || authorization_is target b
  | BindingError _ _ cause => authorization_is target cause
  | _ => false
  end.

Fixpoint condition_is (target e : Condition.error) : bool :=
  bool_decide (e = target) ||
  match e with Condition.ErrWrap a b => condition_is target a || condition_is target b | _ => false end.

Fixpoint control_is (target e : Control.error) : bool :=
  bool_decide (e = target) ||
  match e with Control.ErrWrap a b => control_is target a || control_is target b | _ => false end.

(** [errors.As] with a [BindingError] *)
Fixpoint find_binding (e : AuthzVocabulary.error) : option (Z * BindingField) :=
  match e with
  | BindingError index field _ => Some (index, field)
  | AuthzVocabulary.ErrWrap a b => match find_binding a with Some f => Some f | None => find_binding b end
  | _ => None
  end.

Definition policyBindingErrorPath (e : AuthzVocabulary.error) : string :=
  match find_binding e with
  | None => ""
  | Some (index, field) =>
      let path := appendPointer "/spec/bindings" (integerToken index) in
      match field with
      | BindingFieldMemberID => appendPointer path "memberId"
      | BindingFieldRole => appendPointer path "role"
      | BindingFieldScopeKind => appendPointer (appendPointer path "scope") "kind"
      | BindingFieldEnvironmentID => appendPointer (appendPointer path "scope") "environmentId"
      end
  end.

Definition conditionErrorPath (e : Condition.error) (itemPath : string) : string :=
  if condition_is ErrInvalidConditionType e then appendPointer itemPath "type"
  else if condition_is ErrInvalidStatus e then appendPointer itemPath "status"
  else if condition_is ErrInvalidReason e then appendPointer itemPath "reason"
  else if condition_is ErrInvalidMessage e then appendPointer itemPath "message"
  else if condition_is ErrObservedGeneration e then appendPointer itemPath "observedGeneration"
  else if condition_is ErrInvalidTimestamp e then appendPointer itemPath "lastTransitionAt"
  else itemPath.

Definition observationErrorPath (e : Control.error) (itemPath : string) : string :=
  if control_is ErrInvalidObservationName e then appendPointer itemPath "name"
  else if control_is ErrInvalidCapabilityState e then appendPointer itemPath "state"
  else if control_is ErrInvalidObservationSource e then appendPointer itemPath "source"
  else if control_is ErrInvalidObservationTimestamp e then appendPointer itemPath "observedAt"
  else if control_is ErrInvalidObservationReason e then appendPointer itemPath "reason"
  else itemPath.

Definition quotaErrorPath (e : Control.error) (itemPath : string) : string :=
  if control_is ErrInvalidQuotaState e || control_is ErrInvalidCostState e then appendPointer itemPath "state"
  else observationErrorPath e itemPath.

(** ** The semantic stage *)

Fixpoint collect_bindings (index : Z) (previous : option RoleBinding) (bindings : list RoleBinding) (set : candidateSet) : candidateSet :=
  match bindings with
  | [] => set
  | binding :: rest =>
      let itemPath := appendPointer "/spec/bindings" (integerToken index) in
      let set := add_if (bool_decide (rb_Role binding = RoleWorkspaceAdministrator)
                         && bool_decide (sc_Kind (rb_Scope binding) = ScopeKindEnvironment))
                   CodeInvalidSpec (appendPointer (appendPointer itemPath "scope") "kind") set in
      let set := match previous with
                 | None => set
                 | Some p =>
                     match CompareRoleBindings p binding with
                     | Eq => add CodeDuplicateItem (appendPointer itemPath "memberId") set
                     | Gt => add CodeInvalidOrder (appendPointer itemPath "memberId") set
                     | Lt => set
                     end
                 end in
      collect_bindings (index + 1) (Some binding) rest set
  end.

Definition collectSemanticPolicySpec (spec : PolicySpec) (set : candidateSet) : candidateSet :=
  if MaxBindingsPerPolicy <? llen (spec_bindings spec) then set else collect_bindings 0 None (spec_bindings spec) set.

Definition mapPolicySemanticError (e : AuthzVocabulary.error) : Error :=
  let code := if authorization_is ErrInvalidBindingOrder e then CodeInvalidOrder
              else if authorization_is ErrDuplicateBinding e then CodeDuplicateItem else CodeInvalidSpec in
  let path := policyBindingErrorPath e in
  let path := if negb (String.eqb path "") then path
              else if authorization_is ErrBindingsRequired e || authorization_is ErrTooManyBindings e then "/spec/bindings"
              else "/spec" in
  reject_at StageSemantic code path.

Definition semanticIntent (source : sourceIntent) : result Error unit :=
  map_err (fun _ => reject_at StageSemantic CodeInvalidSpec "/metadata/displayName")
    (validateDisplayName (wm_displayName (si_metadata source)));;
  map_err (fun _ => reject_at StageSemantic CodeInvalidSpec "/metadata/labels") (validateLabels (wm_labels (si_metadata source)));;
  match si_kind source with
  | KindPolicy =>
      failure StageSemantic (collectSemanticPolicySpec (si_policy source) None);;
      map_err mapPolicySemanticError (ValidatePolicySpec (si_policy source))
  | KindProviderConnection =>
      map_err (fun e =>
        if control_is ErrInvalidCredentialReference e then reject_at StageSemantic CodeInvalidSpec "/spec/credentialRef/referenceId"
        else reject_at StageSemantic CodeInvalidSpec "/spec") (ValidateProviderConnectionSpec (si_provider source))
  | _ => Ok tt
  end.

Fixpoint collect_conditions (generation : Z) (conditionsPath : string) (index : Z) (seen : list string) (previous : option string)
    (conditions : list Condition) (set : candidateSet) : candidateSet :=
  match conditions with
  | [] => set
  | value :: rest =>
      let itemPath := appendPointer conditionsPath (integerToken index) in
      let set := add_if (generation <? co_ObservedGeneration value) CodeFutureObservation (appendPointer itemPath "observedGeneration") set in
      let set := match Condition_Validate value generation with
                 | Ok _ => set
                 | Err e => add CodeInvalidStatus (conditionErrorPath e itemPath) set
                 end in
      let set := add_if (bool_decide (co_Type value ∈ seen)) CodeDuplicateItem (appendPointer itemPath "type") set in
      let set := add_if (match previous with Some p => String.ltb (co_Type value) p | None => false end)
                   CodeInvalidOrder (appendPointer itemPath "type") set in
      collect_conditions generation conditionsPath (index + 1) (co_Type value :: seen) (Some (co_Type value)) rest set
  end.

Definition collectSemanticCommonStatus (status : CommonStatus) (generation : Z) (path : string) (set : candidateSet) : candidateSet :=
  let set := add_if (generation <? cs_ObservedGeneration status) CodeFutureObservation (appendPointer path "observedGeneration") set in
  collect_conditions generation (appendPointer path "conditions") 0 [] None (default [] (cs_Conditions status)) set.

(** The loops over capabilities and over quota checks. *)
Fixpoint collect_observations {A} (validate : A -> result Control.error unit) (error_path : Control.error -> string -> string)
    (name : A -> string) (path : string) (index : Z) (seen : list string) (previous : option string) (values : list A)
    (set : candidateSet) : candidateSet :=
  match values with
  | [] => set
  | value :: rest =>
      let itemPath := appendPointer path (integerToken index) in
      let set := match validate value with
                 | Ok _ => set
                 | Err e => add CodeInvalidStatus (error_path e itemPath) set
                 end in
      let set := add_if (bool_decide (name value ∈ seen)) CodeDuplicateItem (appendPointer itemPath "name") set in
      let set := add_if (match previous with Some p => String.ltb (name value) p | None => false end)
                   CodeInvalidOrder (appendPointer itemPath "name") set in
      collect_observations validate error_path name path (index + 1) (name value :: seen) (Some (name value)) rest set
  end.

Definition collectSemanticProviderStatus (status : ProviderConnectionStatus) (generation : Z) (set : candidateSet) : candidateSet :=
  let common := CSt (pcst_ObservedGeneration status) (pcst_Conditions status) in
  let set := collectSemanticCommonStatus common generation "/status" set in
  let set := collect_observations ValidateProviderCapability observationErrorPath pcap_Name "/status/capabilities" 0 [] None
               (default [] (pcst_Capabilities status)) set in
  let set := collect_observations ValidateQuotaCheck quotaErrorPath qc_Name "/status/quotaChecks" 0 [] None
               (default [] (pcst_QuotaChecks status)) set in
  match set with
  | Some _ => set
  | None => if result_ok (ValidateProviderConnectionStatus status generation) then None else add CodeInvalidStatus "/status" None
  end.

Definition semanticStatus (source : sourceStatus) (generation : Z) : result Error unit :=
  let set := add_if (generation <? 1) CodeInvalidStatus "/status/observedGeneration" None in
  match ss_kind source with
  | KindProviderConnection => failure StageSemantic (collectSemanticProviderStatus (ss_provider source) generation set)
  | kind =>
      failure StageSemantic (collectSemanticCommonStatus (ss_common source) generation "/status" set);;
      map_err (fun _ => reject_at StageSemantic CodeInvalidStatus "/status")
        (match kind with
         | KindPolicy => map_err (fun _ => tt)
             (ValidatePolicyStatus (PSt (cs_ObservedGeneration (ss_common source)) (cs_Conditions (ss_common source))) generation)
         | _ => map_err (fun _ => tt) (ValidateCommonStatus (ss_common source) generation)
         end)
  end.

(** ** The immutable stage *)

Definition immutableCurrent (apiVersion : string) (kind : Hierarchy.Kind) (current : Hierarchy.Record) : result Error unit :=
  fail_if (negb (String.eqb (r_apiVersion current) apiVersion)) (reject_at StageImmutable CodeImmutableField "/apiVersion");;
  fail_if (negb (bool_decide (r_kind current = kind))) (reject_at StageImmutable CodeImmutableField "/kind").

Definition immutableProvider (before after : ProviderConnectionSpec) : result Error unit :=
  if result_ok (CheckProviderConnectionSpecTransition before after) then Ok tt else
  fail_if (negb (result_ok (ValidateProviderConnectionSpec before))) (reject_at StageImmutable CodeImmutableField "/spec");;
  let set := add_if (negb (String.eqb (pcs_Provider before) (pcs_Provider after))) CodeImmutableField "/spec/provider" None in
  let set := add_if (negb (String.eqb (cr_ReferenceID (pcs_CredentialRef before)) (cr_ReferenceID (pcs_CredentialRef after))))
               CodeImmutableField "/spec/credentialRef/referenceId" set in
  failure StageImmutable set;;
  Err (reject_at StageImmutable CodeImmutableField "/spec").

Definition immutableReplace (source : sourceIntent) (current : Hierarchy.Record) (currentProvider : ProviderConnectionSpec)
    : result Error unit :=
  immutableCurrent (si_apiVersion source) (si_kind source) current;;
  if bool_decide (si_kind source = KindProviderConnection) then immutableProvider currentProvider (si_provider source) else Ok tt.

(** ** The default and conversion stages *)

Definition sourceSpec (source : sourceIntent) (kind : Hierarchy.Kind) : WriteSpec kind :=
  match kind with
  | KindWorkspace => si_workspace source
  | KindPolicy => si_policy source
  | KindProviderConnection => si_provider source
  | _ => tt
  end.

Definition spec_explicit (kind : Hierarchy.Kind) : WriteSpec kind -> bool :=
  match kind with KindWorkspace => fun spec => is_some spec | _ => fun _ => true end.

Definition checkedDefaultIntent {kind} (value : DesiredWrite kind) : result Error (DesiredWrite kind) :=
  fail_if (negb (String.eqb (dwr_APIVersion value) APIVersion && String.eqb (dwr_Kind value) (Hierarchy.Kind_String kind)
                 && spec_explicit kind (dwr_Spec value) && bool_decide (value = DefaultWrite value)))
    (reject_at StageDefault CodeDefaultFailed "");;
  Ok value.

Definition defaultIntent (source : sourceIntent) : result Error (DesiredWrite (si_kind source)) :=
  fail_if (negb (Kind_known (si_kind source))) (reject_at StageDefault CodeDefaultFailed "");;
  checkedDefaultIntent (DefaultWrite (DWr (si_apiVersion source) (Hierarchy.Kind_String (si_kind source)) (si_metadata source)
                                        (sourceSpec source (si_kind source)))).

Definition convertIntent {kind} (defaulted : DesiredWrite kind) : result Error Intent :=
  map_err (fun _ => reject_at StageConversion CodeConversionFailed "") (ToHubIntent defaulted).

Definition sourceObserved (source : sourceStatus) (kind : Hierarchy.Kind) : Status kind :=
  match kind with
  | KindPolicy => PSt (cs_ObservedGeneration (ss_common source)) (cs_Conditions (ss_common source))
  | KindProviderConnection => ss_provider source
  | _ => ss_common source
  end.

Definition checkedDefaultStatus {kind} (value : ObservedWrite kind) : result Error (ObservedWrite kind) :=
  fail_if (negb (String.eqb (owr_APIVersion value) APIVersion && String.eqb (owr_Kind value) (Hierarchy.Kind_String kind)))
    (reject_at StageDefault CodeDefaultFailed "");;
  Ok value.

Definition defaultStatus (source : sourceStatus) : result Error (ObservedWrite (ss_kind source)) :=
  fail_if (negb (Kind_known (ss_kind source))) (reject_at StageDefault CodeDefaultFailed "");;
  checkedDefaultStatus (OWr (ss_apiVersion source) (Hierarchy.Kind_String (ss_kind source)) (sourceObserved source (ss_kind source))).

Definition convertStatus {kind} (defaulted : ObservedWrite kind) (generation : Z) : result Error StatusWrite :=
  map_err (fun _ => reject_at StageConversion CodeConversionFailed "") (ToHubStatusWrite defaulted generation).

(** ** The reference stage *)

Definition mapReferenceError (e : Hierarchy.error) : Error :=
  if hierarchy_is ErrParentNotFound e then reject_at StageReference CodeParentNotFound ""
  else if hierarchy_is ErrParentKindMismatch e then reject_at StageReference CodeParentKindMismatch ""
  else if hierarchy_is Hierarchy.ErrWorkspaceMismatch e || hierarchy_is ErrImmutableWorkspaceID e
  then reject_at StageReference CodeWorkspaceMismatch ""
  else reject_at StageReference CodeInvalidPlacement "".

Definition mapPolicyReferenceError (e : AuthzVocabulary.error) : Error :=
  let path := policyBindingErrorPath e in
  if authorization_is ErrMemberNotFound e || authorization_is ErrEnvironmentNotFound e
  then reject_at StageReference CodeReferenceNotFound path
  else if authorization_is ErrReferenceKindMismatch e || authorization_is ErrPrincipalKindNotAllowed e
  then reject_at StageReference CodeReferenceKindMismatch path
  else if authorization_is AuthzVocabulary.ErrWorkspaceMismatch e then reject_at StageReference CodeWorkspaceMismatch path
  else reject_at StageReference CodeInvalidPlacement path.

Definition referenceCurrent (current : Hierarchy.Record) (snapshot : Snapshot) : result Error unit :=
  retained ← map_err mapReferenceError (Snapshot_Lookup snapshot (r_id current));
  map_err mapReferenceError (CheckTransition retained current).

Definition Snapshot_Len (snapshot : Snapshot) : Z := Z.of_nat (size (s_records snapshot)).

Section Stages.
Context `{RequestURIs}.

Definition collect_member (members : MemberDirectory) (workspaceID : ID) (itemPath : string) (binding : RoleBinding)
    (set : candidateSet) : candidateSet :=
  let memberPath := appendPointer itemPath "memberId" in
  match MemberDirectory_Lookup members (rb_MemberID binding) with
  | Err e => add (if authorization_is ErrMemberNotFound e then CodeReferenceNotFound else CodeInvalidPlacement) memberPath set
  | Ok member =>
      let set := add_if (negb (String.eqb (Authorization.m_workspaceID member) workspaceID)) CodeWorkspaceMismatch memberPath set in
      add_if (bool_decide (rb_Role binding = RoleWorkspaceAdministrator) && negb (bool_decide (Authorization.m_kind member = KindHuman)))
        CodeReferenceKindMismatch (appendPointer itemPath "role") set
  end.

Definition collect_environment (snapshot : Snapshot) (workspaceID : ID) (itemPath : string) (binding : RoleBinding)
    (set : candidateSet) : candidateSet :=
  match sc_Kind (rb_Scope binding), sc_EnvironmentID (rb_Scope binding) with
  | ScopeKindEnvironment, Some environmentID =>
      let environmentPath := appendPointer (appendPointer itemPath "scope") "environmentId" in
      match Snapshot_Lookup snapshot environmentID with
      | Err e => add (if hierarchy_is ErrResourceNotFound e then CodeReferenceNotFound else CodeInvalidPlacement) environmentPath set
      | Ok environment =>
          let set := add_if (negb (bool_decide (r_kind environment = KindEnvironment))) CodeReferenceKindMismatch environmentPath set in
          add_if (negb (String.eqb (r_workspaceID environment) workspaceID)) CodeWorkspaceMismatch environmentPath set
      end
  | _, _ => set
  end.

Fixpoint collect_references (snapshot : Snapshot) (members : MemberDirectory) (workspaceID : ID) (index : Z)
    (bindings : list RoleBinding) (set : candidateSet) : candidateSet :=
  match bindings with
  | [] => set
  | binding :: rest =>
      let itemPath := appendPointer "/spec/bindings" (integerToken index) in
      collect_references snapshot members workspaceID (index + 1) rest
        (collect_environment snapshot workspaceID itemPath binding (collect_member members workspaceID itemPath binding set))
  end.

Definition collectPolicyReferences (spec : PolicySpec) (workspaceID : ID) (snapshot : Snapshot) (members : MemberDirectory)
    (set : candidateSet) : candidateSet :=
  if MaxBindingsPerPolicy <? llen (spec_bindings spec) then set
  else collect_references snapshot members workspaceID 0 (spec_bindings spec) set.

Definition referencePolicy (spec : PolicySpec) (workspaceID : ID) (snapshot : Snapshot) (members : MemberDirectory) : result Error unit :=
  fail_if (Snapshot_Len snapshot =? 0) (reject_at StageReference CodeInvalidPlacement "");;
  fail_if (negb (String.eqb (s_workspaceID snapshot) workspaceID)) (reject_at StageReference CodeWorkspaceMismatch "");;
  root ← map_err (fun _ => reject_at StageReference CodeInvalidPlacement "") (Snapshot_Lookup snapshot (s_workspaceID snapshot));
  fail_if (negb (bool_decide (r_kind root = KindWorkspace))) (reject_at StageReference CodeReferenceKindMismatch "");;
  fail_if (negb (ValidateMemberDirectory members)) (reject_at StageReference CodeInvalidPlacement "");;
  fail_if (negb (String.eqb (md_workspaceID members) (s_workspaceID snapshot))
           || negb (String.eqb (r_workspaceID root) (md_workspaceID members))) (reject_at StageReference CodeWorkspaceMismatch "");;
  failure StageReference (collectPolicyReferences spec workspaceID snapshot members None);;
  map_err mapPolicyReferenceError (ValidatePolicyReferences spec snapshot members).

(** The snapshot and the directory may be zero values, which are not
    initialised. *)
Record CreateContext := CC {
  cc_ID : ID;
  cc_ParentID : option ID;
  cc_Snapshot : Snapshot;
  cc_Members : MemberDirectory;
}.

Record ReplaceContext := RCx {
  rc_Snapshot : Snapshot;
  rc_Members : MemberDirectory;
  rc_CurrentProviderConnectionSpec : ProviderConnectionSpec;
}.

Definition referenceCreate (source : sourceIntent) (context : CreateContext) : result Error Placement :=
  if bool_decide (si_kind source = KindWorkspace) then
    fail_if (is_some (cc_ParentID context)) (reject_at StageReference CodeInvalidPlacement "");;
    map_err mapReferenceError (DeriveWorkspace (cc_ID context))
  else
    parentID ← of_option (cc_ParentID context) (reject_at StageReference CodeInvalidPlacement "");
    placement ← map_err mapReferenceError (Snapshot_DeriveChild (cc_Snapshot context) (si_kind source) (cc_ID context) parentID);
    (if bool_decide (si_kind source = KindPolicy)
     then referencePolicy (si_policy source) (p_workspaceID placement) (cc_Snapshot context) (cc_Members context) else Ok tt);;
    Ok placement.

Definition referenceReplace (source : sourceIntent) (current : Hierarchy.Record) (context : ReplaceContext) : result Error unit :=
  referenceCurrent current (rc_Snapshot context);;
  if bool_decide (si_kind source = KindPolicy)
  then referencePolicy (si_policy source) (r_workspaceID current) (rc_Snapshot context) (rc_Members context) else Ok tt.

(** ** The stages in order *)

Definition NormalizeIntent (raw : string) : result Error Intent :=
  document ← parseRaw raw;
  source ← schemaIntent document;
  semanticIntent source;;
  defaulted ← defaultIntent source;
  convertIntent defaulted.

Definition NormalizeStatus (raw : string) : result Error StatusWrite :=
  document ← parseRaw raw;
  source ← schemaStatus document;
  semanticStatus source max_int64;;
  defaulted ← defaultStatus source;
  convertStatus defaulted max_int64.

Record CreateResult := CRs { crs_placement : Placement; crs_intent : Intent }.

(** [immutableCreate] refuses nothing. *)
Definition AdmitCreate (raw : string) (context : CreateContext) : result Error CreateResult :=
  document ← parseRaw raw;
  source ← schemaIntent document;
  semanticIntent source;;
  placement ← referenceCreate source context;
  defaulted ← defaultIntent source;
  intent ← convertIntent defaulted;
  Ok (CRs placement intent).

Definition AdmitReplace (raw : string) (current : Hierarchy.Record) (context : ReplaceContext) : result Error Intent :=
  document ← parseRaw raw;
  source ← schemaIntent document;
  semanticIntent source;;
  immutableReplace source current (rc_CurrentProviderConnectionSpec context);;
  referenceReplace source current context;;
  defaulted ← defaultIntent source;
  convertIntent defaulted.

Definition AdmitStatus (raw : string) (current : Hierarchy.Record) (generation : Z) (snapshot : Snapshot) : result Error StatusWrite :=
  document ← parseRaw raw;
  source ← schemaStatus document;
  semanticStatus source generation;;
  immutableCurrent (ss_apiVersion source) (ss_kind source) current;;
  referenceCurrent current snapshot;;
  defaulted ← defaultStatus source;
  convertStatus defaulted generation.
End Stages.
