(* ===== verification/WriteAdmissionProps.v ===== *)
(** * Properties of write admission

    What the stages accept and reject, and that the stages after the schema and
    semantic ones reject nothing of what reaches them but for retained state. *)

From S2P Require Import Prelude StringOrder Bytes GoTime Calendar Closed Json Digests Hierarchy AuthzVocabulary Identity Authorization.
From S2P Require Import Condition Control Resource Model Rejection Raw Schema WriteAdmission.
From Stdlib Require Import Ascii String.

(** ** Candidates *)

Lemma failure_ok stage set u : failure stage set = Ok u <-> set = None.
Proof. destruct set as [[]|], u; simpl; naive_solver. Qed.

Lemma add_not_none code path set : add code path set <> None.
Proof. unfold add. destruct set as [[]|]; [|done]. by case_match. Qed.

Lemma add_if_none c code path set : add_if c code path set = None <-> c = false /\ set = None.
Proof. destruct c; simpl; [|naive_solver]. split; [by intros ?%add_not_none | by intros []]. Qed.

Lemma validate_none {E A} (r : result E A) (f : E -> string -> string) code path set :
  match r with Ok _ => set | Err e => add code (f e path) set end = None <-> result_ok r = true /\ set = None.
Proof. destruct r; simpl; [naive_solver|]. split; [by intros ?%add_not_none | by intros []]. Qed.

(** A stage finds no candidate in the conditions exactly when each is valid,
    observed in time, and follows the one before. *)
Fixpoint conditions_clean (generation : Z) (seen : list string) (previous : option string) (conditions : list Condition) : bool :=
  match conditions with
  | [] => true
  | value :: rest =>
      negb (generation <? co_ObservedGeneration value) && result_ok (Condition_Validate value generation) &&
      negb (bool_decide (co_Type value ∈ seen)) && negb (match previous with Some p => String.ltb (co_Type value) p | None => false end) &&
      conditions_clean generation (co_Type value :: seen) (Some (co_Type value)) rest
  end.

Lemma collect_conditions_none generation path conditions : forall index seen previous set,
  collect_conditions generation path index seen previous conditions set = None <->
  set = None /\ conditions_clean generation seen previous conditions = true.
Proof.
  induction conditions as [|value rest IH]; intros index seen previous set; cbn [collect_conditions conditions_clean]; [naive_solver|].
  rewrite IH, !add_if_none, (validate_none _ conditionErrorPath), add_if_none, !andb_true_iff, !negb_true_iff. naive_solver.
Qed.

Lemma Condition_Validate_mono value g g' : g <= g' -> result_ok (Condition_Validate value g) = true ->
  result_ok (Condition_Validate value g') = true.
Proof.
  intros Hg. unfold Condition_Validate, invalid.
  destruct (Z.ltb_spec g 1); [done|]. destruct (Z.ltb_spec g' 1); [lia|]. repeat (case_match; try done).
  autorewrite with guards in *. lia.
Qed.

Lemma Condition_Validate_observed value g : result_ok (Condition_Validate value g) = true -> co_ObservedGeneration value <= g.
Proof. unfold Condition_Validate, invalid. repeat (case_match; try done). autorewrite with guards in *. lia. Qed.

(** Conditions that are clean for a generation are so for any other one they are valid for. *)
Lemma conditions_clean_valid g g' conditions : forall seen previous previous',
  conditions_clean g seen previous conditions = true -> result_ok (check_conditions previous' g' conditions) = true ->
  conditions_clean g' seen previous conditions = true.
Proof.
  induction conditions as [|value rest IH]; intros seen previous previous'; [done|]. cbn [conditions_clean check_conditions].
  rewrite !andb_true_iff, !negb_true_iff, !Z.ltb_ge. intros [[[[_ _] H3] H4] H5] [[] Hv]%result_ok_true.
  apply bind_ok in Hv as (a & Ha%map_err_ok & Hv). apply bind_ok in Hv as (b & _ & Hv).
  assert (result_ok (Condition_Validate value g') = true) as Hok by (rewrite Ha; done).
  split; [|by eapply IH; [|rewrite Hv]]. split; [|done]. split; [|done]. split; [by apply Condition_Validate_observed | done].
Qed.

Lemma collect_observations_none {A} validate error_path (name : A -> string) path values : forall index seen previous set,
  collect_observations validate error_path name path index seen previous values set = None ->
  set = None /\ forall index', collect_observations validate error_path name path index' seen previous values None = None.
Proof.
  induction values as [|value rest IH]; intros index seen previous set; cbn [collect_observations]; [naive_solver|].
  intros H%IH. destruct H as [H1 H2]. apply add_if_none in H1 as [H3 H1]. apply add_if_none in H1 as [H4 H1].
  apply (validate_none _ error_path) in H1 as [H5 H1]. split; [done|]. intros index'. rewrite H3, H4. cbn [add_if].
  destruct (validate value); [|done]. apply H2.
Qed.

(** ** The generation only widens what is accepted *)

Lemma check_conditions_mono g g' values : g <= g' -> forall previous,
  result_ok (check_conditions previous g values) = true -> result_ok (check_conditions previous g' values) = true.
Proof.
  intros Hg. induction values as [|value rest IH]; intros previous; [done|]. cbn [check_conditions].
  rewrite !result_ok_true. setoid_rewrite bind_ok. setoid_rewrite map_err_ok. intros (u & a & H1 & H2).
  apply bind_ok in H2 as (b & H2 & H3).
  assert (result_ok (Condition_Validate value g') = true) as [a' Ha']%result_ok_true.
  { eapply Condition_Validate_mono; [done|]. apply result_ok_true. by exists a. }
  assert (result_ok (check_conditions (Some (co_Type value)) g' rest) = true) as [u' Hu']%result_ok_true.
  { apply IH. apply result_ok_true. by exists u. }
  exists u', a'. split; [done|]. apply bind_ok. exists b. done.
Qed.

Lemma ValidateSet_mono g g' values : g <= g' -> result_ok (ValidateSet values g) = true -> result_ok (ValidateSet values g') = true.
Proof.
  intros Hg. unfold ValidateSet. destruct (MaxConditions <? llen values); [done|]. by apply check_conditions_mono.
Qed.

Lemma result_ok_map {E F A} (f : E -> F) (r : result E A) : result_ok (map_err f r) = result_ok r.
Proof. by destruct r. Qed.

Lemma result_ok_bind {E A B} (r : result E A) (f : A -> result E B) :
  result_ok (r ≫= f) = match r with Ok a => result_ok (f a) | Err _ => false end.
Proof. by destruct r. Qed.

Lemma result_ok_fail {E} c (e : E) : result_ok (fail_if c e) = negb c.
Proof. by destruct c. Qed.

Ltac results := repeat (rewrite ?result_ok_bind, ?result_ok_map, ?result_ok_fail).

Lemma ValidateCommonStatus_mono s g g' : g <= g' -> result_ok (ValidateCommonStatus s g) = true -> result_ok (ValidateCommonStatus s g') = true.
Proof.
  intros Hg. unfold ValidateCommonStatus. destruct (cs_Conditions s) as [l|]; [|done].
  cbn [of_option mbind result_bind]. destruct (_ || _) eqn:E1; [done|]. guards_in E1.
  destruct (_ || _) eqn:E2; [autorewrite with guards in E2; lia|].
  cbn [fail_if mbind result_bind]. rewrite !result_ok_map. by apply ValidateSet_mono.
Qed.

Lemma observed_mono o g g' : g <= g' -> result_ok (validateObservedGeneration o g) = true -> result_ok (validateObservedGeneration o g') = true.
Proof. unfold validateObservedGeneration. rewrite !result_ok_fail, !negb_true_iff. intros Hg H. guards_in H. autorewrite with guards. lia. Qed.

Lemma unit_ok {E} (r : result E unit) : result_ok r = true <-> r = Ok tt.
Proof. destruct r as [[]|]; naive_solver. Qed.

Lemma ValidatePolicyStatus_mono s g g' : g <= g' -> result_ok (ValidatePolicyStatus s g) = true -> result_ok (ValidatePolicyStatus s g') = true.
Proof.
  intros Hg. unfold ValidatePolicyStatus. destruct (pst_Conditions s) as [l|]; [|done]. cbn [of_option mbind result_bind].
  destruct (validateObservedGeneration _ g) eqn:E; [|done]. cbn [map_err mbind result_bind]. rewrite result_ok_map. intros H.
  pose proof (observed_mono (pst_ObservedGeneration s) g g' Hg ltac:(by rewrite E)) as [u ->]%result_ok_true.
  cbn [map_err mbind result_bind]. rewrite result_ok_map. by eapply ValidateSet_mono.
Qed.

Lemma ValidateProviderConnectionStatus_mono s g g' : g <= g' -> result_ok (ValidateProviderConnectionStatus s g) = true ->
  result_ok (ValidateProviderConnectionStatus s g') = true.
Proof.
  intros Hg. unfold ValidateProviderConnectionStatus. destruct (pcst_Conditions s) as [l|], (pcst_Capabilities s), (pcst_QuotaChecks s); try done.
  destruct (validateObservedGeneration _ g) eqn:E; [|done]. cbn [map_err mbind result_bind]. intros H.
  pose proof (observed_mono (pcst_ObservedGeneration s) g g' Hg ltac:(by rewrite E)) as [u ->]%result_ok_true.
  cbn [map_err mbind result_bind]. destruct (ValidateSet l g) eqn:E2; [|done]. cbn [map_err mbind result_bind] in H.
  pose proof (ValidateSet_mono g g' l Hg ltac:(by rewrite E2)) as [u' ->]%result_ok_true. done.
Qed.

Lemma validateStatus_mono kind (s : Status kind) g g' : g <= g' -> result_ok (validateStatus kind s g) = true ->
  result_ok (validateStatus kind s g') = true.
Proof.
  intros Hg. destruct kind; cbn [validateStatus]; try by apply ValidateCommonStatus_mono.
  - rewrite !result_ok_map. by apply ValidatePolicyStatus_mono.
  - rewrite !result_ok_map. by apply ValidateProviderConnectionStatus_mono.
Qed.

(** ** Status writes *)

Lemma semantic_status_valid source g : semanticStatus source g = Ok tt ->
  result_ok (validateStatus (ss_kind source) (sourceObserved source (ss_kind source)) g) = true.
Proof.
  unfold semanticStatus. destruct (ss_kind source); cbn [sourceObserved validateStatus];
    try by intros (? & _ & H%map_err_ok)%bind_ok; apply map_err_ok in H; apply unit_ok.
  - intros (? & _ & H%map_err_ok)%bind_ok. apply map_err_ok in H. rewrite result_ok_map. by apply unit_ok.
  - intros H%failure_ok. unfold collectSemanticProviderStatus in H. case_match; [done|].
    rewrite result_ok_map. by destruct (result_ok (ValidateProviderConnectionStatus _ g)).
Qed.

(** A status that is clean for a generation is so for any other one it is valid for. *)
Lemma common_valid s g g' path set : collectSemanticCommonStatus s g path set = None ->
  cs_ObservedGeneration s <= g' -> result_ok (ValidateSet (default [] (cs_Conditions s)) g') = true ->
  set = None /\ collectSemanticCommonStatus s g' path None = None.
Proof.
  unfold collectSemanticCommonStatus. rewrite !collect_conditions_none, !add_if_none. intros [[_ H2] H3] Ho [[] Hv]%result_ok_true.
  apply bind_ok in Hv as (? & _ & Hv). split; [done|]. split; [split; [by apply Z.ltb_ge | done]|].
  eapply conditions_clean_valid; [done|]. by rewrite Hv.
Qed.

Lemma common_status_parts s g : ValidateCommonStatus s g = Ok tt ->
  1 <= g /\ cs_ObservedGeneration s <= g /\ result_ok (ValidateSet (default [] (cs_Conditions s)) g) = true.
Proof.
  unfold ValidateCommonStatus. intros H. apply bind_ok in H as (l & Hl%of_option_ok & H). apply bind_ok in H as (? & Hf%fail_if_ok & H).
  guards_in Hf. rewrite Hl. apply map_err_ok in H. simpl. rewrite H. split_and!; [lia..|done].
Qed.

Lemma observed_ok o g u : validateObservedGeneration o g = Ok u -> 1 <= g /\ o <= g.
Proof. intros H%fail_if_ok. guards_in H. lia. Qed.

Lemma policy_status_parts s g : ValidatePolicyStatus s g = Ok tt ->
  1 <= g /\ pst_ObservedGeneration s <= g /\ result_ok (ValidateSet (default [] (pst_Conditions s)) g) = true.
Proof.
  unfold ValidatePolicyStatus. intros H. apply bind_ok in H as (l & Hl%of_option_ok & H). apply bind_ok in H as (u & Ho%map_err_ok%observed_ok & H). destruct Ho.
  rewrite Hl. apply map_err_ok in H. simpl. by rewrite H.
Qed.

Lemma provider_status_parts s g : ValidateProviderConnectionStatus s g = Ok tt ->
  1 <= g /\ pcst_ObservedGeneration s <= g /\ result_ok (ValidateSet (default [] (pcst_Conditions s)) g) = true.
Proof.
  unfold ValidateProviderConnectionStatus. destruct (pcst_Conditions s) as [l|], (pcst_Capabilities s), (pcst_QuotaChecks s); try done.
  intros H. apply bind_ok in H as (u & Ho%map_err_ok%observed_ok & H). apply bind_ok in H as (u2 & H2%map_err_ok & _). simpl. rewrite H2. by destruct Ho.
Qed.

Lemma provider_valid s g g' set : collectSemanticProviderStatus s g set = None -> ValidateProviderConnectionStatus s g' = Ok tt ->
  set = None /\ collectSemanticProviderStatus s g' None = None.
Proof.
  intros H Hv. unfold collectSemanticProviderStatus in *. case_match eqn:E; [done|]. rewrite Hv. clear H.
  apply provider_status_parts in Hv as (_ & Ho & Hs).
  apply collect_observations_none in E as [E H1]. apply collect_observations_none in E as [E H2].
  apply (common_valid (CSt (pcst_ObservedGeneration s) (pcst_Conditions s)) g g') in E as [-> ->]; [|done..]. rewrite H2, H1. done.
Qed.

Lemma status_valid source g g' : semanticStatus source g = Ok tt ->
  result_ok (validateStatus (ss_kind source) (sourceObserved source (ss_kind source)) g') = true -> semanticStatus source g' = Ok tt.
Proof.
  intros H Hv. unfold semanticStatus in *.
  destruct (ss_kind source); cbn [sourceObserved validateStatus] in Hv; rewrite ?result_ok_map in Hv; apply unit_ok in Hv.
  all: first
    [ apply failure_ok in H; destruct (provider_status_parts _ _ Hv) as (Hg & _); apply (provider_valid _ g g' _) in H as [_ Hc]; [|exact Hv]
    | apply bind_ok in H as ([] & H%failure_ok & _); first [apply common_status_parts in Hv as Hp | apply policy_status_parts in Hv as Hp];
      destruct Hp as (Hg & Ho & Hs); apply (common_valid _ g g') in H as [_ Hc]; [|done..] ].
  all: rewrite (proj2 (Z.ltb_ge g' 1)) by lia; cbn [add_if]; rewrite Hc; cbn [failure mbind result_bind]; first [done | by rewrite Hv].
Qed.

Lemma semanticStatus_mono source g g' : g <= g' -> semanticStatus source g = Ok tt -> semanticStatus source g' = Ok tt.
Proof. intros Hg H. eapply status_valid; [done|]. eapply validateStatus_mono; [done|]. by apply semantic_status_valid. Qed.

Lemma default_status_ok source d : defaultStatus source = Ok d <->
  Kind_known (ss_kind source) = true /\ ss_apiVersion source = APIVersion /\
  d = OWr APIVersion (Hierarchy.Kind_String (ss_kind source)) (sourceObserved source (ss_kind source)).
Proof.
  unfold defaultStatus, checkedDefaultStatus. cbn [owr_APIVersion owr_Kind]. rewrite bind_ok. split.
  - intros ([] & H1%fail_if_ok & H). apply bind_ok in H as ([] & H2%fail_if_ok & [= <-]). guards_in H1. guards_in H2.
    split; [done|]. split; [done|]. congruence.
  - intros (H1 & H2 & ->). exists tt. rewrite H1, H2. split; [done|]. by rewrite !String.eqb_refl.
Qed.

Lemma convert_status_ok kind (s : Status kind) g w : Kind_known kind = true ->
  convertStatus (OWr APIVersion (Hierarchy.Kind_String kind) s) g = Ok w <-> result_ok (validateStatus kind s g) = true /\ w = SW kind s g.
Proof.
  intros Hk. unfold convertStatus, ToHubStatusWrite, validateSourceIdentity, NewStatusWrite, ValidateStatusWrite.
  cbn [owr_APIVersion owr_Kind owr_Status sw_kind sw_status sw_resourceGeneration]. rewrite !String.eqb_refl, Hk, Z.eqb_refl.
  cbn [negb fail_if orb mbind result_bind]. destruct (validateStatus kind s g); cbn; naive_solver.
Qed.

(** ** Intents *)

(** What the defaults make of the source. *)
Definition hubSpec (source : sourceIntent) (kind : Hierarchy.Kind) : Spec kind :=
  match kind with
  | KindWorkspace => WSp (default false (si_workspace source))
  | KindPolicy => si_policy source
  | KindProviderConnection => si_provider source
  | _ => tt
  end.

Definition hubIntent (source : sourceIntent) : Intent :=
  Int (si_kind source) (si_metadata source) (hubSpec source (si_kind source)).

Lemma labels_ok labels l : validateLabels labels = Ok l -> l = labels.
Proof. unfold validateLabels. intros H. by run_inv H. Qed.

Lemma semantic_intent_valid source : Kind_known (si_kind source) = true -> semanticIntent source = Ok tt ->
  ValidateIntent (hubIntent source) = Ok tt /\ NewWriteMetadata (wm_displayName (si_metadata source)) (wm_labels (si_metadata source)) =
    Ok (si_metadata source).
Proof.
  intros Hk H. unfold semanticIntent in H. apply bind_ok in H as ([] & Hn%map_err_ok & H). apply bind_ok in H as (l & Hl%map_err_ok & H).
  unfold ValidateIntent, hubIntent, ValidateWriteMetadata, NewWriteMetadata. cbn [in_kind in_metadata in_spec].
  pose proof (labels_ok _ _ Hl) as ->. rewrite Hk, Hn, Hl. cbn [negb fail_if map_err mbind result_bind]. split; [|by destruct (si_metadata source)].
  destruct (si_kind source); try done; cbn [validateSpec hubSpec].
  - apply bind_ok in H as (? & _ & H%map_err_ok). by rewrite H.
  - apply map_err_ok in H. by rewrite H.
Qed.

Lemma default_intent_ok source d : defaultIntent source = Ok d <->
  Kind_known (si_kind source) = true /\ si_apiVersion source = APIVersion /\
  d = DefaultWrite (DWr APIVersion (Hierarchy.Kind_String (si_kind source)) (si_metadata source) (sourceSpec source (si_kind source))).
Proof.
  unfold defaultIntent, checkedDefaultIntent. rewrite bind_ok. set (w := DefaultWrite _). split.
  - intros ([] & H1%fail_if_ok & H). apply bind_ok in H as ([] & H2%fail_if_ok & [= <-]). guards_in H1. guards_in H2.
    cbn [dwr_APIVersion w DefaultWrite] in *. subst w. split; [done|]. split; [done|]. congruence.
  - intros (H1 & H2 & ->). exists tt. subst w. rewrite H1, H2. split; [done|]. cbn [dwr_APIVersion dwr_Kind dwr_Spec DefaultWrite].
    rewrite !String.eqb_refl. cbn [andb]. rewrite bool_decide_eq_true_2 by (destruct (si_kind source); done).
    by replace (spec_explicit _ _) with true by (by destruct (si_kind source)).
Qed.

Lemma convert_intent_ok source i : Kind_known (si_kind source) = true -> semanticIntent source = Ok tt ->
  convertIntent (DefaultWrite (DWr APIVersion (Hierarchy.Kind_String (si_kind source)) (si_metadata source)
                                 (sourceSpec source (si_kind source)))) = Ok i <-> i = hubIntent source.
Proof.
  intros Hk Hs. destruct (semantic_intent_valid source Hk Hs) as [Hv Hm]. unfold convertIntent, ToHubIntent, validateSourceIdentity.
  cbn [dwr_APIVersion dwr_Kind dwr_Spec dwr_Metadata DefaultWrite]. rewrite !String.eqb_refl. cbn [negb fail_if mbind result_bind].
  assert (specToHub (si_kind source) (DefaultWriteSpec (si_kind source) (sourceSpec source (si_kind source))) =
          Ok (hubSpec source (si_kind source))) as -> by (by destruct (si_kind source)).
  cbn [mbind result_bind]. rewrite Hm. cbn [map_err mbind result_bind]. unfold NewIntent. change (Int _ _ _) with (hubIntent source).
  rewrite Hv. cbn. naive_solver.
Qed.

(** ** The stages *)

Lemma reject_at_stage stage code path : rj_stage (reject_at stage code path) = stage.
Proof. done. Qed.

Lemma map_err_stage {E A} (r : result E A) (f : E -> Error) stage e : (forall x, rj_stage (f x) = stage) ->
  map_err f r = Err e -> rj_stage e = stage.
Proof. intros H. destruct r; [done|]. by intros [= <-]. Qed.

Lemma failure_stage stage set e : failure stage set = Err e -> rj_stage e = stage.
Proof. destruct set as [[]|]; [by intros [= <-]|done]. Qed.

Lemma fail_if_stage c stage code path e : fail_if c (reject_at stage code path) = Err e -> rj_stage e = stage.
Proof. destruct c; [by intros [= <-]|done]. Qed.

Lemma bind_err {E A B} (m : result E A) (f : A -> result E B) e :
  m ≫= f = Err e <-> m = Err e \/ exists a, m = Ok a /\ f a = Err e.
Proof. destruct m; unfold mbind; simpl; naive_solver. Qed.

Lemma semantic_intent_stage source e : semanticIntent source = Err e -> rj_stage e = StageSemantic.
Proof.
  unfold semanticIntent. rewrite bind_err. intros [H|([] & _ & H)]; [by eapply map_err_stage in H|].
  apply bind_err in H as [H|(l & _ & H)]; [by eapply map_err_stage in H|].
  destruct (si_kind source); try done.
  - apply bind_err in H as [H|(? & _ & H)]; [by eapply failure_stage|]. by eapply map_err_stage in H.
  - eapply map_err_stage in H; [done|]. intros x. by case_match.
Qed.

Lemma semantic_status_stage source g e : semanticStatus source g = Err e -> rj_stage e = StageSemantic.
Proof.
  unfold semanticStatus. destruct (ss_kind source);
    try (rewrite bind_err; intros [H|(? & _ & H)]; [by eapply failure_stage|]; by eapply map_err_stage in H).
  by apply failure_stage.
Qed.

(** ** The schema stage *)

(** Every rejection is made in the name of the stage. *)
Definition in_schema {A} (r : result Error A) : Prop := forall e, r = Err e -> rj_stage e = StageSchema.

Lemma in_schema_ok {A} (a : A) : in_schema (Ok a).
Proof. done. Qed.
Lemma in_schema_err {A} code path : in_schema (Err (reject_at StageSchema code path) : result Error A).
Proof. by intros e [= <-]. Qed.
Lemma in_schema_bind {A B} (r : result Error A) (f : A -> result Error B) : in_schema r -> (forall a, in_schema (f a)) -> in_schema (r ≫= f).
Proof. intros Hr Hf e [H|(a & _ & H)]%bind_err; [by apply Hr | by eapply Hf]. Qed.
Lemma in_schema_fail c code path : in_schema (fail_if c (reject_at StageSchema code path)).
Proof. destruct c; [apply in_schema_err | done]. Qed.
Lemma in_schema_option {A} (o : option A) code path : in_schema (of_option o (reject_at StageSchema code path)).
Proof. destruct o; [done | apply in_schema_err]. Qed.
Lemma in_schema_map {E A} (r : result E A) code path : in_schema (map_err (fun _ => reject_at StageSchema code path) r).
Proof. destruct r; [done | apply in_schema_err]. Qed.
Lemma in_schema_failure set : in_schema (failure StageSchema set).
Proof. intros e. apply failure_stage. Qed.

Create HintDb schema.
#[export] Hint Resolve in_schema_ok in_schema_err in_schema_fail in_schema_option in_schema_map in_schema_failure : schema.

(** A reader is taken apart to its rejections. *)
Ltac schema_reader :=
  repeat first [ solve [eauto with schema] | progress cbv zeta | case_match | apply in_schema_bind; [|intros ?] ].

Lemma in_required ms name path : in_schema (required ms name path).
Proof. unfold required, schema_error_at, schema_error. schema_reader. Qed.
#[export] Hint Resolve in_required : schema.
Lemma in_requiredString ms name path : in_schema (requiredString ms name path).
Proof. unfold requiredString, schema_error_at, schema_error. schema_reader. Qed.
#[export] Hint Resolve in_requiredString : schema.
Lemma in_required_test bad ms name path : in_schema (required_test bad ms name path).
Proof. unfold required_test, schema_error_at, schema_error. schema_reader. Qed.
#[export] Hint Resolve in_required_test : schema.
Lemma in_requiredPattern ms name path p n : in_schema (requiredPatternString ms name path p n).
Proof. apply in_required_test. Qed.
Lemma in_requiredInt ms name path : in_schema (requiredNonNegativeInt64 ms name path).
Proof. unfold requiredNonNegativeInt64, schema_error_at, schema_error. schema_reader. Qed.
Lemma in_optionalDecimal ms name path : in_schema (optionalDecimal ms name path).
Proof. unfold optionalDecimal, schema_error_at, schema_error. schema_reader. Qed.
Lemma in_schemaObject v path : in_schema (schemaObject v path).
Proof. unfold schemaObject, schema_error. schema_reader. Qed.
#[export] Hint Resolve in_requiredPattern in_requiredInt in_optionalDecimal in_schemaObject : schema.
Lemma in_known_object v path allowed : in_schema (known_object v path allowed).
Proof. unfold known_object, rejectUnknown, schema_error_at, schema_error. schema_reader. Qed.
Lemma in_schema_list limit v path : in_schema (schema_list limit v path).
Proof. unfold schema_list, schema_error. schema_reader. Qed.
Lemma in_schema_each {A} (read : tree -> string -> result Error A) path items : (forall v p, in_schema (read v p)) ->
  forall index, in_schema (schema_each read path index items).
Proof. intros Hr. induction items as [|item items IH]; intros index; cbn [schema_each]; schema_reader. Qed.
Lemma in_schema_labels ms path keys : in_schema (schema_labels ms path keys).
Proof. induction keys as [|key keys IH]; cbn [schema_labels]; unfold schema_error_at, schema_error; schema_reader. Qed.
#[export] Hint Resolve in_known_object in_schema_list in_schema_each in_schema_labels : schema.

Lemma in_schemaMetadata v path : in_schema (schemaMetadata v path).
Proof. unfold schemaMetadata, schema_error. schema_reader. Qed.
Lemma in_schemaWorkspaceSpec v path : in_schema (schemaWorkspaceSpec v path).
Proof. unfold schemaWorkspaceSpec, schema_error_at, schema_error. schema_reader. Qed.
Lemma in_schemaPolicyScope v path : in_schema (schemaPolicyScope v path).
Proof. unfold schemaPolicyScope, schema_error_at, schema_error. schema_reader. Qed.
#[export] Hint Resolve in_schemaMetadata in_schemaWorkspaceSpec in_schemaPolicyScope : schema.
Lemma in_schemaPolicyBinding v path : in_schema (schemaPolicyBinding v path).
Proof. unfold schemaPolicyBinding, schema_error_at, schema_error. schema_reader. Qed.
#[export] Hint Resolve in_schemaPolicyBinding : schema.
Lemma in_schemaPolicySpec v path : in_schema (schemaPolicySpec v path).
Proof. unfold schemaPolicySpec. schema_reader. Qed.
Lemma in_schemaProviderSpec v path : in_schema (schemaProviderSpec v path).
Proof. unfold schemaProviderSpec. schema_reader. Qed.
Lemma in_schemaEmptySpec v path : in_schema (schemaEmptySpec v path).
Proof. unfold schemaEmptySpec. schema_reader. Qed.
Lemma in_schemaCondition v path : in_schema (schemaCondition v path).
Proof. unfold schemaCondition. schema_reader. Qed.
#[export] Hint Resolve in_schemaPolicySpec in_schemaProviderSpec in_schemaEmptySpec in_schemaCondition : schema.
Lemma in_schemaCommonStatusFields ms path : in_schema (schemaCommonStatusFields ms path).
Proof. unfold schemaCommonStatusFields, schemaConditions. schema_reader. Qed.
Lemma in_schemaCapability v path : in_schema (schemaCapability v path).
Proof. unfold schemaCapability. schema_reader. Qed.
Lemma in_schemaQuotaCheck v path : in_schema (schemaQuotaCheck v path).
Proof. unfold schemaQuotaCheck. schema_reader. Qed.
#[export] Hint Resolve in_schemaCommonStatusFields in_schemaCapability in_schemaQuotaCheck : schema.
Lemma in_schemaCommonStatus v path : in_schema (schemaCommonStatus v path).
Proof. unfold schemaCommonStatus. schema_reader. Qed.
Lemma in_schemaProviderStatus v path : in_schema (schemaProviderStatus v path).
Proof. unfold schemaProviderStatus, schemaCapabilities, schemaQuotaChecks. schema_reader. Qed.
Lemma in_schema_head ms : in_schema (schema_head ms).
Proof. unfold schema_head, schema_error. schema_reader. Qed.
#[export] Hint Resolve in_schemaCommonStatus in_schemaProviderStatus in_schema_head : schema.

Lemma schema_intent_stage document : in_schema (schemaIntent document).
Proof. unfold schemaIntent, validateIntentSchema. schema_reader. Qed.
Lemma schema_status_stage document : in_schema (schemaStatus document).
Proof. unfold schemaStatus, validateStatusSchema. schema_reader. Qed.

Lemma parse_raw_stage raw : in_schema (parseRaw raw).
Proof.
  unfold parseRaw. apply in_schema_bind; [apply in_schema_fail|]. intros _. apply in_schema_bind; [apply in_schema_fail|]. intros _.
  unfold scan_document. destruct (scanJSONStructure _ _) as [[v|[code|]] s]; apply in_schema_ok || apply in_schema_err.
Qed.

(** The version and kind that were read are supported. *)
Lemma schema_head_ok ms version kind : schema_head ms = Ok (version, kind) -> version = APIVersion /\ Kind_known kind = true.
Proof.
  unfold schema_head. intros H. run_inv H. guards_in Hr0. split; [done|].
  match goal with H : ParseKind _ = Ok _ |- _ => unfold ParseKind in H; apply of_option_ok in H; by apply parseClosed_sound in H as [? _] end.
Qed.

Lemma schema_intent_typed document source : schemaIntent document = Ok source ->
  si_apiVersion source = APIVersion /\ Kind_known (si_kind source) = true.
Proof.
  unfold schemaIntent. intros ([] & _ & H)%bind_ok. apply bind_ok in H as (ms & _ & H). apply bind_ok in H as ([version kind] & Hh & H).
  apply schema_head_ok in Hh. apply bind_ok in H as (? & _ & H). apply bind_ok in H as (? & _ & H). apply bind_ok in H as (? & _ & H).
  destruct kind; apply bind_ok in H as (? & _ & [= <-]); exact Hh.
Qed.

Lemma schema_status_typed document source : schemaStatus document = Ok source ->
  ss_apiVersion source = APIVersion /\ Kind_known (ss_kind source) = true.
Proof.
  unfold schemaStatus. intros ([] & _ & H)%bind_ok. apply bind_ok in H as (ms & _ & H). apply bind_ok in H as ([version kind] & Hh & H).
  apply schema_head_ok in Hh. apply bind_ok in H as (? & _ & H). case_bool_decide; apply bind_ok in H as (? & _ & [= <-]); exact Hh.
Qed.

(** Candidates are kept in any order: the set is a minimum. *)
Lemma Code_String_inj c d : Code_String c = Code_String d -> c = d.
Proof. destruct c, d; done. Qed.

Definition before_candidate (x y : Code * string) : bool :=
  String.ltb x.2 y.2 || (String.eqb x.2 y.2 && String.ltb (Code_String x.1) (Code_String y.1)).

Lemma before_total x y : x = y \/ before_candidate x y = true \/ before_candidate y x = true.
Proof.
  unfold before_candidate. destruct x as [c p], y as [d q]. simpl. destruct (string_trichotomy p q) as [->|[->| ->]]; [|by right; left..|by right; right].
  rewrite String.eqb_refl. destruct (string_trichotomy (Code_String c) (Code_String d)) as [->%Code_String_inj|[->| ->]]; [by left|..];
    rewrite orb_true_r; auto.
Qed.

Lemma before_irrefl x : before_candidate x x = false.
Proof. unfold before_candidate. by rewrite !string_ltb_irrefl, andb_false_r. Qed.

Lemma before_trans x y z : before_candidate x y = true -> before_candidate y z = true -> before_candidate x z = true.
Proof.
  unfold before_candidate. rewrite !orb_true_iff, !andb_true_iff, !String.eqb_eq.
  intros [H1|[E1 H1]] [H2|[E2 H2]]; [left; by eapply string_ltb_trans | left; by rewrite <- E2 | left; by rewrite E1 |
    right; split; [congruence | by eapply string_ltb_trans]].
Qed.

Definition least (x y : Code * string) : Code * string := if before_candidate x y then x else y.

Lemma add_least c p set : add c p set = Some (match set with None => (c, boundedPointer p) | Some y => least (c, boundedPointer p) y end).
Proof. unfold add, least, before_candidate. destruct set as [[d q]|]; [|done]. cbn [fst snd]. by case_match. Qed.

Lemma least_comm x y z : least x (least y z) = least y (least x z).
Proof.
  unfold least. destruct (before_candidate y z) eqn:Hyz, (before_candidate x z) eqn:Hxz; rewrite ?Hyz, ?Hxz; try done.
  - destruct (before_total x y) as [->|[Hxy|Hyx]]; [done|..].
    + rewrite Hxy. destruct (before_candidate y x) eqn:Hyx; [|done]. pose proof (before_trans _ _ _ Hxy Hyx) as E. by rewrite before_irrefl in E.
    + rewrite Hyx. destruct (before_candidate x y) eqn:Hxy; [|done]. pose proof (before_trans _ _ _ Hxy Hyx) as E. by rewrite before_irrefl in E.
  - destruct (before_candidate x y) eqn:Hxy; [|done]. by rewrite (before_trans _ _ _ Hxy Hyz) in Hxz.
  - destruct (before_candidate y x) eqn:Hyx; [|done]. by rewrite (before_trans _ _ _ Hyx Hxz) in Hyz.
Qed.

Lemma least_sym x y : least x y = least y x.
Proof.
  unfold least. destruct (before_candidate x y) eqn:Hxy, (before_candidate y x) eqn:Hyx; try done.
  - pose proof (before_trans _ _ _ Hxy Hyx) as E. by rewrite before_irrefl in E.
  - destruct (before_total x y) as [->|[H|H]]; [done | congruence..].
Qed.

Lemma add_comm c1 p1 c2 p2 set : add c1 p1 (add c2 p2 set) = add c2 p2 (add c1 p1 set).
Proof. rewrite !add_least. f_equal. destruct set as [z|]; [apply least_comm | apply least_sym]. Qed.

(** ** Passes never forget a candidate *)

Definition grows (pass : Pass) : Prop := forall set, pass set = None -> set = None.

Lemma grows_id : grows (fun set => set).
Proof. by intros set. Qed.
Lemma grows_add code path : grows (add code path).
Proof. by intros set ?%add_not_none. Qed.
Lemma grows_add_if c code path : grows (add_if c code path).
Proof. by intros set [_ ?]%add_if_none. Qed.
Lemma grows_fold {A} (f : candidateSet -> A -> candidateSet) l : (forall x, grows (fun set => f set x)) -> grows (fun set => foldl f set l).
Proof. intros Hf. induction l as [|x l IH]; intros set H; [exact H|]. apply IH in H. by apply Hf in H. Qed.
Create HintDb passes.
#[export] Hint Resolve grows_id grows_add grows_add_if grows_fold : passes.

(** A pass is taken apart from its last candidate to its first. *)
Ltac grow :=
  let set := fresh "set" in let H := fresh "H" in intros set H; cbv beta zeta in H;
  repeat first
    [ exact H
    | match type of H with (match ?x with _ => _ end) = None => destruct x end
    | match type of H with ?p ?s = None =>
        let G := fresh in assert (grows p) as G by (eauto with passes); apply G in H; clear G; cbv beta zeta in H end ].

Lemma grows_add_at code path name : grows (add_at code path name).
Proof. apply grows_add. Qed.
#[export] Hint Resolve grows_add_at : passes.
Lemma grows_required ms path name : grows (fun set => check_required ms path set name).
Proof. unfold check_required. grow. Qed.
Lemma grows_allowed allowed path m : grows (fun set => check_allowed allowed path set m).
Proof. unfold check_allowed. grow. Qed.
Lemma grows_object value path required allowed f : (forall ms, grows (f ms)) -> grows (collectObject value path required allowed f).
Proof.
  intros Hf set H. destruct value; try (by apply grows_add in H). cbn [collectObject] in H. apply Hf in H.
  apply (grows_fold (check_allowed allowed path) _ (grows_allowed allowed path)) in H.
  by apply (grows_fold (check_required _ path) _ (grows_required _ path)) in H.
Qed.
Lemma grows_string ms name path : grows (collectString ms name path).
Proof. unfold collectString. grow. Qed.
#[export] Hint Resolve grows_string : passes.
Lemma grows_test bad ms name path : grows (collect_test bad ms name path).
Proof. unfold collect_test. grow. Qed.
Lemma grows_pattern ms name path p n : grows (collectPatternString ms name path p n).
Proof. apply grows_test. Qed.
Lemma grows_timestamp ms name path : grows (collectTimestamp ms name path).
Proof. apply grows_test. Qed.
Lemma grows_int ms name path : grows (collectNonNegativeInt64 ms name path).
Proof. unfold collectNonNegativeInt64. grow. Qed.
Lemma grows_decimal ms name path : grows (collectOptionalDecimal ms name path).
Proof. unfold collectOptionalDecimal. grow. Qed.
Lemma grows_present ms name pass : (forall v, grows (pass v)) -> grows (when_present ms name pass).
Proof. intros Hp. unfold when_present. grow. Qed.
Lemma grows_given ms name pass : (forall v, grows (pass v)) -> grows (when_given ms name pass).
Proof. intros Hp. unfold when_given. grow. Qed.
Lemma grows_each pass path items : (forall p v, grows (pass p v)) -> forall index, grows (collect_each pass path index items).
Proof. intros Hp. induction items as [|item items IH]; intros index set H; [exact H|]. apply IH in H. by apply Hp in H. Qed.
Lemma grows_list limit pass value path : (forall p v, grows (pass p v)) -> grows (collect_list limit pass value path).
Proof. intros Hp. pose proof (fun items => grows_each pass path items Hp). unfold collect_list. grow. Qed.
Lemma grows_label path l : grows (fun set => collect_label path set l).
Proof. unfold collect_label. grow. Qed.
#[export] Hint Resolve grows_test grows_pattern grows_timestamp grows_int grows_decimal grows_label : passes.
Lemma grows_labels path v : grows (collect_labels path v).
Proof.
  intros set H. destruct v; try (by apply grows_add in H). cbn [collect_labels] in H.
  apply (grows_fold (collect_label path) _ (grows_label path)) in H. by apply grows_add_if in H.
Qed.
Lemma grows_flag path name v : grows (collect_flag path name v).
Proof. unfold collect_flag. grow. Qed.
Lemma grows_source ms path : grows (collect_source ms path).
Proof. unfold collect_source. grow. Qed.
Lemma grows_amounts ms path : grows (collect_amounts ms path).
Proof. unfold collect_amounts. grow. Qed.
#[export] Hint Resolve grows_labels grows_flag grows_source grows_amounts grows_object grows_present grows_given grows_list : passes.

Lemma grows_metadata v path : grows (collectMetadataSchema v path).
Proof. unfold collectMetadataSchema. apply grows_object. intros ms. grow. Qed.
Lemma grows_scope v path : grows (collectPolicyScopeSchema v path).
Proof. unfold collectPolicyScopeSchema. apply grows_object. intros ms. grow. Qed.
#[export] Hint Resolve grows_metadata grows_scope : passes.
Lemma grows_binding path v : grows (collect_binding path v).
Proof. unfold collect_binding. apply grows_object. intros ms. grow. Qed.
Lemma grows_condition path v : grows (collect_condition path v).
Proof. unfold collect_condition. apply grows_object. intros ms. grow. Qed.
Lemma grows_capability path v : grows (collect_capability path v).
Proof. unfold collect_capability. apply grows_object. intros ms. grow. Qed.
Lemma grows_quota path v : grows (collect_quota path v).
Proof. unfold collect_quota. apply grows_object. intros ms. grow. Qed.
#[export] Hint Resolve grows_binding grows_condition grows_capability grows_quota : passes.
Lemma grows_policy v path : grows (collectPolicySpecSchema v path).
Proof. unfold collectPolicySpecSchema. apply grows_object. intros ms. grow. Qed.
Lemma grows_provider v path : grows (collectProviderSpecSchema v path).
Proof. unfold collectProviderSpecSchema. apply grows_object. intros ms set H. cbv beta zeta in H.
  eapply grows_present in H; [by eapply grows_test in H|]. intros reference. apply grows_object. intros members. grow. Qed.
#[export] Hint Resolve grows_policy grows_provider : passes.
Lemma grows_intent_spec kind v path : grows (collectIntentSpecSchema kind v path).
Proof. destruct kind; cbn [collectIntentSpecSchema]; eauto 6 with passes. Qed.
Lemma grows_status kind v path : grows (collectStatusSchema kind v path).
Proof. unfold collectStatusSchema, collectConditionsSchema, collectCapabilitiesSchema, collectQuotasSchema. apply grows_object. intros ms. grow. Qed.
#[export] Hint Resolve grows_intent_spec grows_status : passes.
Lemma grows_head ms body between : (forall k, grows (body k)) -> grows between -> grows (collect_head ms body between).
Proof. intros Hb Hw. unfold collect_head. grow. Qed.
#[export] Hint Resolve grows_head : passes.

(** A document with a duplicate name is rejected. *)
Lemma schema_intent_unique document source : schemaIntent document = Ok source -> rd_candidates document = None.
Proof.
  intros ([] & H%failure_ok & _)%bind_ok. revert H. apply grows_object. intros ms. apply grows_head; eauto with passes.
Qed.
Lemma schema_status_unique document source : schemaStatus document = Ok source -> rd_candidates document = None.
Proof.
  intros ([] & H%failure_ok & _)%bind_ok. revert H. apply grows_object. intros ms. apply grows_head; eauto with passes.
Qed.
(** ** The stages in order *)

Section Admission.
Context `{RequestURIs}.

(** The schema stage on a text. *)
Definition read_intent (raw : string) : result Error sourceIntent := document ← parseRaw raw; schemaIntent document.
Definition read_status (raw : string) : result Error sourceStatus := document ← parseRaw raw; schemaStatus document.

Lemma read_intent_typed raw source : read_intent raw = Ok source -> si_apiVersion source = APIVersion /\ Kind_known (si_kind source) = true.
Proof. intros (document & _ & H1)%bind_ok. by eapply schema_intent_typed. Qed.
Lemma read_status_typed raw source : read_status raw = Ok source -> ss_apiVersion source = APIVersion /\ Kind_known (ss_kind source) = true.
Proof. intros (document & _ & H1)%bind_ok. by eapply schema_status_typed. Qed.
Lemma read_intent_stage raw : in_schema (read_intent raw).
Proof. apply in_schema_bind; [apply parse_raw_stage | apply schema_intent_stage]. Qed.

(** The last two stages accept what the first two accepted. *)
Lemma convert_default source : si_apiVersion source = APIVersion -> Kind_known (si_kind source) = true -> semanticIntent source = Ok tt ->
  (defaulted ← defaultIntent source; convertIntent defaulted) = Ok (hubIntent source).
Proof.
  intros Ha Hk Hs. rewrite (proj2 (default_intent_ok source _)) by (split; [done|]; split; [done|reflexivity]).
  cbn [mbind result_bind]. by apply convert_intent_ok.
Qed.

(** The same, with the schema stage in one. *)
Lemma bind_assoc_result {E A B C} (m : result E A) (f : A -> result E B) (g : B -> result E C) : (m ≫= f) ≫= g = m ≫= (fun a => f a ≫= g).
Proof. by destruct m. Qed.

Lemma NormalizeIntent_read raw : NormalizeIntent raw =
  (source ← read_intent raw; semanticIntent source;; defaulted ← defaultIntent source; convertIntent defaulted).
Proof. unfold read_intent. by rewrite bind_assoc_result. Qed.
Lemma NormalizeStatus_read raw : NormalizeStatus raw =
  (source ← read_status raw; semanticStatus source max_int64;; defaulted ← defaultStatus source; convertStatus defaulted max_int64).
Proof. unfold read_status. by rewrite bind_assoc_result. Qed.
Lemma AdmitCreate_read raw context : AdmitCreate raw context =
  (source ← read_intent raw; semanticIntent source;; placement ← referenceCreate source context;
   defaulted ← defaultIntent source; intent ← convertIntent defaulted; Ok (CRs placement intent)).
Proof. unfold read_intent. by rewrite bind_assoc_result. Qed.
Lemma AdmitReplace_read raw current context : AdmitReplace raw current context =
  (source ← read_intent raw; semanticIntent source;; immutableReplace source current (rc_CurrentProviderConnectionSpec context);;
   referenceReplace source current context;; defaulted ← defaultIntent source; convertIntent defaulted).
Proof. unfold read_intent. by rewrite bind_assoc_result. Qed.
Lemma AdmitStatus_read raw current generation snapshot : AdmitStatus raw current generation snapshot =
  (source ← read_status raw; semanticStatus source generation;; immutableCurrent (ss_apiVersion source) (ss_kind source) current;;
   referenceCurrent current snapshot;; defaulted ← defaultStatus source; convertStatus defaulted generation).
Proof. unfold read_status. by rewrite bind_assoc_result. Qed.

Lemma normalize_ok raw i : NormalizeIntent raw = Ok i <->
  exists source, read_intent raw = Ok source /\ semanticIntent source = Ok tt /\ i = hubIntent source.
Proof.
  rewrite NormalizeIntent_read, bind_ok. split.
  - intros (source & Hc & H2). exists source. apply bind_ok in H2 as ([] & Hs & H2). destruct (read_intent_typed _ _ Hc) as [Ha Hk].
    rewrite convert_default in H2 by done. naive_solver.
  - intros (source & Hc & Hs & ->). exists source. split; [done|]. rewrite Hs. destruct (read_intent_typed _ _ Hc) as [Ha Hk].
    by apply convert_default.
Qed.

Lemma normalize_status_ok raw w : NormalizeStatus raw = Ok w <->
  exists source, read_status raw = Ok source /\ semanticStatus source max_int64 = Ok tt /\
    w = SW (ss_kind source) (sourceObserved source (ss_kind source)) max_int64.
Proof.
  rewrite NormalizeStatus_read, bind_ok. split.
  - intros (source & Hc & H2). exists source. apply bind_ok in H2 as ([] & Hs & H2). destruct (read_status_typed _ _ Hc) as [Ha Hk].
    apply bind_ok in H2 as (d & (_ & _ & ->)%default_status_ok & H2). apply convert_status_ok in H2 as [_ ->]; done.
  - intros (source & Hc & Hs & ->). exists source. split; [done|]. rewrite Hs. destruct (read_status_typed _ _ Hc) as [Ha Hk].
    cbn [mbind result_bind]. rewrite (proj2 (default_status_ok source _)) by (split; [done|]; split; [done|reflexivity]).
    cbn [mbind result_bind]. apply convert_status_ok; [done|]. split; [|done]. by apply semantic_status_valid.
Qed.

Lemma admit_create_ok raw context r : AdmitCreate raw context = Ok r <->
  NormalizeIntent raw = Ok (crs_intent r) /\
  exists source, read_intent raw = Ok source /\ referenceCreate source context = Ok (crs_placement r).
Proof.
  rewrite AdmitCreate_read, normalize_ok, bind_ok. split.
  - intros (source & Hc & H2). apply bind_ok in H2 as ([] & Hs & H2). apply bind_ok in H2 as (p & Hp & H2).
    destruct (read_intent_typed _ _ Hc) as [Ha Hk]. apply bind_ok in H2 as (d & Hd & H2). apply bind_ok in H2 as (i & Hi & [= <-]).
    pose proof (convert_default source Ha Hk Hs) as E. rewrite Hd in E. cbn [mbind result_bind] in E. cbn [crs_intent crs_placement].
    split; exists source; [|done]. split; [done|]. split; [done|]. congruence.
  - intros [(source & Hc & Hs & Hi) (source' & Hc' & Hp)]. rewrite Hc in Hc'. injection Hc' as <-.
    destruct (read_intent_typed _ _ Hc) as [Ha Hk]. exists source. split; [done|]. rewrite Hs, Hp. cbn [mbind result_bind].
    pose proof (convert_default source Ha Hk Hs) as E. apply bind_ok in E as (d & -> & E). cbn [mbind result_bind]. rewrite E.
    destruct r. cbn in *. by subst.
Qed.

Lemma immutable_current_ok version kind current : immutableCurrent version kind current = Ok tt <->
  r_apiVersion current = version /\ r_kind current = kind.
Proof.
  unfold immutableCurrent. split.
  - intros (? & H1%fail_if_ok & H2%fail_if_ok)%bind_ok. guards_in H1. by guards_in H2.
  - intros [-> ->]. by rewrite String.eqb_refl, bool_decide_eq_true_2.
Qed.

Lemma immutable_provider_ok before after : immutableProvider before after = Ok tt <->
  CheckProviderConnectionSpecTransition before after = Ok tt.
Proof.
  unfold immutableProvider. split.
  - destruct (result_ok _) eqn:E; [intros _; by apply unit_ok|]. intros (? & _ & H2)%bind_ok. by apply bind_ok in H2 as (? & _ & ?).
  - intros ->. done.
Qed.

(** What a write may not change of the record it is for. *)
Definition same_identity (source : sourceIntent) (current : Hierarchy.Record) (provider : ProviderConnectionSpec) : Prop :=
  r_apiVersion current = si_apiVersion source /\ r_kind current = si_kind source /\
  (si_kind source = KindProviderConnection -> CheckProviderConnectionSpecTransition provider (si_provider source) = Ok tt).

Lemma immutable_replace_ok source current provider : immutableReplace source current provider = Ok tt <-> same_identity source current provider.
Proof.
  unfold immutableReplace, same_identity. rewrite bind_ok. setoid_rewrite <- immutable_provider_ok. case_bool_decide as Hk; split.
  - intros ([] & [? ?]%immutable_current_ok & H2). done.
  - intros (H1 & H2 & H3). exists tt. split; [by apply immutable_current_ok | by apply H3].
  - intros ([] & [? ?]%immutable_current_ok & _). done.
  - intros (H1 & H2 & _). exists tt. split; [by apply immutable_current_ok | done].
Qed.

(** The record is the one the snapshot retains, or a legal successor of it. *)
Definition follows_retained (snapshot : Snapshot) (current : Hierarchy.Record) : Prop :=
  exists retained, Snapshot_Lookup snapshot (r_id current) = Ok retained /\ CheckTransition retained current = Ok tt.

Lemma reference_current_ok current snapshot : referenceCurrent current snapshot = Ok tt <-> follows_retained snapshot current.
Proof.
  unfold referenceCurrent, follows_retained. rewrite bind_ok. split; intros (retained & H1 & H2); exists retained.
  - by apply map_err_ok in H1, H2.
  - by rewrite H1, H2.
Qed.

Lemma reference_replace_ok source current context : referenceReplace source current context = Ok tt <->
  follows_retained (rc_Snapshot context) current /\
  (si_kind source = KindPolicy ->
     referencePolicy (si_policy source) (r_workspaceID current) (rc_Snapshot context) (rc_Members context) = Ok tt).
Proof.
  unfold referenceReplace. rewrite bind_ok. setoid_rewrite <- reference_current_ok. case_bool_decide as Hk; split.
  - intros ([] & ? & ?). done.
  - intros [? H2]. exists tt. split; [done|]. by apply H2.
  - intros ([] & ? & _). done.
  - intros [? _]. by exists tt.
Qed.

Lemma admit_replace_ok raw current context i : AdmitReplace raw current context = Ok i <->
  NormalizeIntent raw = Ok i /\
  exists source, read_intent raw = Ok source /\ same_identity source current (rc_CurrentProviderConnectionSpec context) /\
    follows_retained (rc_Snapshot context) current /\
    (si_kind source = KindPolicy ->
       referencePolicy (si_policy source) (r_workspaceID current) (rc_Snapshot context) (rc_Members context) = Ok tt).
Proof.
  setoid_rewrite <- reference_replace_ok. setoid_rewrite <- immutable_replace_ok. rewrite AdmitReplace_read, normalize_ok, bind_ok. split.
  - intros (source & Hc & H2). apply bind_ok in H2 as ([] & Hs & H2). apply bind_ok in H2 as ([] & Him & H2).
    apply bind_ok in H2 as ([] & Hr & H2). destruct (read_intent_typed _ _ Hc) as [Ha Hk]. rewrite convert_default in H2 by done.
    injection H2 as <-. split; exists source; done.
  - intros [(source & Hc & Hs & ->) (source' & Hc' & Him & Hr)]. rewrite Hc in Hc'. injection Hc' as <-.
    exists source. split; [done|]. rewrite Hs, Him, Hr. destruct (read_intent_typed _ _ Hc) as [Ha Hk]. by apply convert_default.
Qed.

Lemma admit_status_ok raw current g snapshot w : g <= max_int64 ->
  AdmitStatus raw current g snapshot = Ok w <->
  NormalizeStatus raw = Ok (SW (sw_kind w) (sw_status w) max_int64) /\ sw_resourceGeneration w = g /\
  result_ok (validateStatus (sw_kind w) (sw_status w) g) = true /\
  r_apiVersion current = APIVersion /\ r_kind current = sw_kind w /\ follows_retained snapshot current.
Proof.
  intros Hg. rewrite <- reference_current_ok, AdmitStatus_read, normalize_status_ok, bind_ok. split.
  - intros (source & Hc & H2). apply bind_ok in H2 as ([] & Hs & H2). apply bind_ok in H2 as ([] & [Hv Hkind]%immutable_current_ok & H2).
    apply bind_ok in H2 as ([] & Hr & H2). destruct (read_status_typed _ _ Hc) as [Ha Hk].
    apply bind_ok in H2 as (d & (_ & _ & ->)%default_status_ok & H2). apply convert_status_ok in H2 as [Hok ->]; [|done].
    cbn [sw_kind sw_status sw_resourceGeneration]. split; [|split_and!; congruence || done].
    exists source. split; [done|]. split; [|done]. by apply (semanticStatus_mono source g).
  - intros ((source & Hc & Hs & Hw) & Hgen & Hok & Hv & Hkind & Hr). exists source. split; [done|].
    destruct (read_status_typed _ _ Hc) as [Ha Hk]. destruct w as [kind status gen]. cbn in *. injection Hw as -> Hst. subst gen.
    apply (Eqdep_dec.inj_pair2_eq_dec _ (fun a b => decide (a = b))) in Hst. subst status.
    rewrite (status_valid source max_int64 g) by done. cbn [mbind result_bind]. rewrite Ha, (proj2 (immutable_current_ok _ _ _)) by done.
    cbn [mbind result_bind]. rewrite Hr. cbn [mbind result_bind]. rewrite (proj2 (default_status_ok source _)) by (split; [done|]; split; [done|reflexivity]).
    cbn [mbind result_bind]. by apply convert_status_ok.
Qed.

Lemma admit_status_copied raw current g snapshot w : AdmitStatus raw current g snapshot = Ok w -> CloneStatusWrite w = Some w.
Proof.
  rewrite AdmitStatus_read. intros (source & Hc & E)%bind_ok. destruct (read_status_typed _ _ Hc) as [_ Hk].
  apply bind_ok in E as (? & _ & E). apply bind_ok in E as (? & _ & E). apply bind_ok in E as (? & _ & E).
  apply bind_ok in E as (d & (_ & _ & ->)%default_status_ok & E). apply convert_status_ok in E as [Hv ->]; [|done].
  unfold CloneStatusWrite, ValidateStatusWrite. cbn [sw_kind sw_status sw_resourceGeneration]. rewrite Hk, Z.eqb_refl.
  apply unit_ok in Hv. cbn [negb orb fail_if mbind result_bind]. by rewrite Hv.
Qed.

Lemma normalize_stage raw e : NormalizeIntent raw = Err e -> rj_stage e = StageSchema \/ rj_stage e = StageSemantic.
Proof.
  rewrite NormalizeIntent_read, bind_err. intros [He|(source & Hc & He)]; [left; by eapply read_intent_stage|]. right.
  apply bind_err in He as [He|([] & Hs & He)]; [by eapply semantic_intent_stage|]. destruct (read_intent_typed _ _ Hc) as [Ha Hk].
  by rewrite convert_default in He.
Qed.

(** What a document that passed the schema stage is: a text within the bounds,
    scanned to its end with any fuel from [scan_fuel] on, with no name twice in
    an object, from which the source is extracted. *)
Definition scanned {A} (extract : rawDocument -> result Error A) (raw : string) (source : A) : Prop :=
  0 < slen raw <= MaxRawBytes /\ utf8_valid raw = true /\
  exists value, extract (Raw value None) = Ok source /\
    forall fuel, (scan_fuel raw <= fuel)%nat -> scan_document fuel raw = Some (Ok (Raw value None)).

Lemma read_scanned {A} (extract : rawDocument -> result Error A) raw source :
  (forall document source, extract document = Ok source -> rd_candidates document = None) ->
  (document ← parseRaw raw; extract document) = Ok source -> scanned extract raw source.
Proof.
  intros Hu (document & Hp & Hd)%bind_ok. pose proof (Hu _ _ Hd) as Hn. destruct document as [value candidates]. cbn in Hn. subst candidates.
  unfold parseRaw in Hp. apply bind_ok in Hp as ([] & H1%fail_if_ok & Hp). apply bind_ok in Hp as ([] & H2%fail_if_ok & Hp).
  guards_in H1. apply orb_false_iff in H2 as [H2 H3]. guards_in H2. apply negb_false_iff in H3.
  assert (0 <= slen raw) by (unfold slen; lia). split; [lia|]. split; [done|]. exists value. split; [done|]. intros fuel Hf.
  destruct (scan_ends raw fuel Hf) as [_ ->]. destruct (scan_ends raw (scan_fuel raw) (le_n _)) as [[r Hr] _]. rewrite Hr in Hp |- *. by rewrite <- Hp.
Qed.

(** C8: Write admission is normalisation plus the checks against retained state.
    A document is normalised exactly when the schema and semantic stages accept
    it, to a valid intent with explicit defaults; the default and conversion
    stages reject nothing that reaches them, and the copies that are returned are
    the values themselves.  A document the schema stage accepts
    is within the bounds, was scanned to its end and has no name twice in an
    object.  A creation is admitted exactly when the document normalises to that
    same intent and the placement is derived from the snapshot; a replacement
    exactly when it normalises to that intent, keeps version, kind and provider
    identity, the record follows the retained one and a policy's references
    resolve; and a status for a generation exactly when it normalises to the same
    observations, they are valid for that generation, the record has the version
    and kind of the document and follows the retained one.  So what is
    fingerprinted before the retained state is read is what is admitted after it. *)
Theorem admission_normalizes :
  (forall raw i, NormalizeIntent raw = Ok i <->
     exists source, read_intent raw = Ok source /\ semanticIntent source = Ok tt /\ i = hubIntent source) /\
  (forall raw source, read_intent raw = Ok source -> scanned schemaIntent raw source) /\
  (forall raw source, read_status raw = Ok source -> scanned schemaStatus raw source) /\
  (forall raw i, NormalizeIntent raw = Ok i -> CloneIntent i = Some i) /\
  (forall raw e, NormalizeIntent raw = Err e -> rj_stage e = StageSchema \/ rj_stage e = StageSemantic) /\
  (forall raw context r, AdmitCreate raw context = Ok r <->
     NormalizeIntent raw = Ok (crs_intent r) /\
     exists source, read_intent raw = Ok source /\ referenceCreate source context = Ok (crs_placement r)) /\
  (forall raw current context i, AdmitReplace raw current context = Ok i <->
     NormalizeIntent raw = Ok i /\
     exists source, read_intent raw = Ok source /\ same_identity source current (rc_CurrentProviderConnectionSpec context) /\
       follows_retained (rc_Snapshot context) current /\
       (si_kind source = KindPolicy ->
          referencePolicy (si_policy source) (r_workspaceID current) (rc_Snapshot context) (rc_Members context) = Ok tt)) /\
  (forall raw current g snapshot w, g <= max_int64 ->
     AdmitStatus raw current g snapshot = Ok w <->
     NormalizeStatus raw = Ok (SW (sw_kind w) (sw_status w) max_int64) /\ sw_resourceGeneration w = g /\
     result_ok (validateStatus (sw_kind w) (sw_status w) g) = true /\
     r_apiVersion current = APIVersion /\ r_kind current = sw_kind w /\ follows_retained snapshot current) /\
  (forall raw current g snapshot w, AdmitStatus raw current g snapshot = Ok w -> CloneStatusWrite w = Some w).
Proof.
  split; [apply normalize_ok|]. split; [intros raw source; apply read_scanned, schema_intent_unique|].
  split; [intros raw source; apply read_scanned, schema_status_unique|]. split.
  { intros raw i (source & Hc & Hs & ->)%normalize_ok. destruct (read_intent_typed _ _ Hc) as [_ Hk]. apply semantic_intent_valid in Hs as [Hs _]; [|done]. unfold CloneIntent. by rewrite Hs. }
  split; [apply normalize_stage|]. split; [apply admit_create_ok|]. split; [apply admit_replace_ok|].
  split; [apply admit_status_ok | apply admit_status_copied].
Qed.
End Admission.

(** A document for the witness: its marks are written as apostrophes. *)
Fixpoint quoted (s : string) : string :=
  match s with
  | String c rest => String (if Ascii.eqb c "'" then quote_mark else c) (quoted rest)
  | EmptyString => ""
  end.

Definition sample_document : string := quoted
  "{'apiVersion': 'v1alpha1', 'kind': 'Workspace', 'metadata': {'displayName': 'pr\u006fd'}, 'spec': {}}".
Definition sample_source : sourceIntent := SI APIVersion KindWorkspace (WM "prod" ∅) None no_policy no_provider.

Definition no_snapshot : Snapshot := Snap false "" ∅ ∅.
Definition no_directory : MemberDirectory := MD false "" ∅ ∅ [].

(** The reasons of rejections, and where they are. *)
Definition rejection {A} (r : result Error A) : option (Stage * Code * string) :=
  match r with Err e => Some (rj_stage e, rj_code e, rj_path e) | Ok _ => None end.

Example reads_sample : read_intent sample_document = Ok sample_source.
Proof. vm_compute. reflexivity. Qed.
Example reads_duplicate : rejection (read_intent (quoted "{'kind': 'Workspace', 'kind': 'Workspace', 'spec': 1}")) =
  Some (StageSchema, CodeMissingField, "/apiVersion").
Proof. vm_compute. reflexivity. Qed.
Example reads_unknown : rejection (read_status (quoted "{'apiVersion': 'v1alpha1', 'kind': 'Policy', 'status': {'observedGeneration': 1e0, 'conditions': []}, 'x/y': 0}")) =
  Some (StageSchema, CodeUnknownField, "/x~1y").
Proof. vm_compute. reflexivity. Qed.
Example reads_trailing : rejection (read_status "[] 1") = Some (StageSchema, CodeInvalidJSON, "").
Proof. vm_compute. reflexivity. Qed.

Lemma admission_normalizes_witness :
  exists i, NormalizeIntent sample_document = Ok i /\ CloneIntent i = Some i /\
    exists r, AdmitCreate (H := s_uris) sample_document (CC "wsp_0123456789abcdef" None no_snapshot no_directory) = Ok r /\ crs_intent r = i.
Proof.
  destruct (admission_normalizes (H := s_uris)) as (H1 & _ & _ & H2 & _ & H4 & _). exists (hubIntent sample_source).
  assert (NormalizeIntent sample_document = Ok (hubIntent sample_source)) as Hn.
  { apply H1. exists sample_source. split; [vm_compute; reflexivity|]. split; reflexivity. }
  split; [exact Hn|]. split; [by apply (H2 sample_document)|].
  exists (CRs (Pl "wsp_0123456789abcdef" KindWorkspace "wsp_0123456789abcdef" None) (hubIntent sample_source)).
  split; [|reflexivity]. apply H4. split; [exact Hn|]. exists sample_source. split; vm_compute; reflexivity.
Defined.
