(* ===== verification/Operation.v ===== *)
(** * Operations (operation/operation.go)

    An operation is the public record of one accepted asynchronous request: an
    immutable binding to a resource generation, a phase, safe detail and two
    timestamps.  [New], [Transition] and [CheckTransition] are its only
    writers; the canonical JSON text bounds its size. *)

From S2P Require Import Prelude Bytes GoTime Calendar Closed Json Condition Digests Control.
From Stdlib Require Import String.

Inductive error :=
| ErrInvalidOperation
| ErrInvalidOperationID
| ErrInvalidWorkspaceID
| ErrInvalidResourceID
| ErrInvalidGeneration
| ErrInvalidResourceVersion
| ErrInvalidPhase
| ErrInvalidReason
| ErrInvalidMessage
| ErrInvalidTimestamp
| ErrInvalidProviderBinding
| ErrInvalidTransition
| ErrPhaseTransition
| ErrNoMaterialChange
| ErrResourceVersionUnchanged
| ErrImmutableOperationID
| ErrImmutableWorkspaceID
| ErrImmutableResourceID
| ErrImmutableProviderBinding
| ErrImmutableGeneration
| ErrImmutableCreatedAt
| ErrCanonicalTooLarge
| ErrNonCanonical
| ErrCost (inner : Control.error)
| ErrWrap (outer inner : error).

Definition MaxCanonicalBytes : Z := 4096.

Inductive Phase :=
| PhasePending
| PhaseWaiting
| PhaseRunning
| PhaseSucceeded
| PhaseFailed
| PhaseCanceled
| PhaseOther (raw : string).

#[export] Instance Phase_eq : EqDecision Phase.
Proof. solve_decision. Defined.

Definition Phase_text (p : Phase) : string :=
  match p with
  | PhasePending => "Pending"
  | PhaseWaiting => "Waiting"
  | PhaseRunning => "Running"
  | PhaseSucceeded => "Succeeded"
  | PhaseFailed => "Failed"
  | PhaseCanceled => "Canceled"
  | PhaseOther raw => raw
  end.

Definition validPhase (phase : Phase) : bool := match phase with PhaseOther _ => false | _ => true end.

Definition terminal (phase : Phase) : bool :=
  match phase with PhaseSucceeded | PhaseFailed | PhaseCanceled => true | _ => false end.

Definition allowedTransition (before after : Phase) : bool :=
  match before, after with
  | PhasePending, (PhaseWaiting | PhaseRunning | PhaseSucceeded | PhaseFailed | PhaseCanceled) => true
  | PhaseWaiting, (PhasePending | PhaseRunning | PhaseSucceeded | PhaseFailed | PhaseCanceled) => true
  | PhaseRunning, (PhaseWaiting | PhaseSucceeded | PhaseFailed | PhaseCanceled) => true
  | _, _ => false
  end.

Record Operation := Op {
  op_ID : ID;
  op_WorkspaceID : ID;
  op_ResourceID : ID;
  op_EnvironmentID : option ID;
  op_ProviderConnectionID : option ID;
  op_Generation : Z;
  op_ResourceVersion : string;
  op_Phase : Phase;
  op_Reason : string;
  op_Message : string;
  op_CostEstimate : option CostEstimate;
  op_CreatedAt : string;
  op_UpdatedAt : string;
}.

(** [operation.Input] *)
Record OperationInput := OI {
  oi_ID : ID;
  oi_WorkspaceID : ID;
  oi_ResourceID : ID;
  oi_EnvironmentID : option ID;
  oi_ProviderConnectionID : option ID;
  oi_Generation : Z;
  oi_ResourceVersion : string;
  oi_Reason : string;
  oi_Message : string;
  oi_CostEstimate : option CostEstimate;
  oi_CreatedAt : time;
}.

Record TransitionInput := TI {
  ti_Phase : Phase;
  ti_Reason : string;
  ti_Message : string;
  ti_CostEstimate : option CostEstimate;
  ti_ResourceVersion : string;
  ti_UpdatedAt : time;
}.

(** ** Canonical text *)

(** A member written unless it is empty. *)
Definition omitempty (key value : string) : list (string * json) :=
  if String.eqb value "" then [] else [(key, JString value)].
Definition optional_member (key : string) (value : option string) : list (string * json) :=
  match value with None => [] | Some v => [(key, JString v)] end.

Definition cost_json (e : CostEstimate) : json :=
  JObject ([("state", JString (CostState_text (ce_State e)))] ++ optional_member "amount" (ce_Amount e) ++
           [("currency", JString (ce_Currency e)); ("region", JString (ce_Region e)); ("source", JString (ce_Source e));
            ("observedAt", JString (ce_ObservedAt e)); ("confidence", JString (Confidence_text (ce_Confidence e)));
            ("reason", JString (ce_Reason e))]).

Definition operation_json (o : Operation) : json :=
  JObject ([("id", JString (op_ID o)); ("workspaceId", JString (op_WorkspaceID o)); ("resourceId", JString (op_ResourceID o))] ++
           optional_member "environmentId" (op_EnvironmentID o) ++
           optional_member "providerConnectionId" (op_ProviderConnectionID o) ++
           [("generation", JInt (op_Generation o)); ("resourceVersion", JString (op_ResourceVersion o));
            ("phase", JString (Phase_text (op_Phase o)))] ++
           omitempty "reason" (op_Reason o) ++ omitempty "message" (op_Message o) ++
           match op_CostEstimate o with None => [] | Some e => [("costEstimate", cost_json e)] end ++
           [("createdAt", JString (op_CreatedAt o)); ("updatedAt", JString (op_UpdatedAt o))]).

(** [encodeCanonical]; it fails only on text that is not UTF-8, and every text
    of an operation that reaches it is. *)
Definition encodeCanonical (o : Operation) : string := print (operation_json o).

Definition validateCanonicalSize (o : Operation) : result error unit :=
  fail_if (MaxCanonicalBytes <? slen (encodeCanonical o)) ErrCanonicalTooLarge.

(** ** Validation *)

Definition validateBinding (environmentID connectionID : option ID) : result error unit :=
  match environmentID, connectionID with
  | None, None => Ok tt
  | Some e, Some c => fail_if (negb (validID e) || negb (validID c)) ErrInvalidProviderBinding
  | _, _ => Err ErrInvalidProviderBinding
  end.

Definition in_operation {A} (r : result error A) : result error A := map_err (ErrWrap ErrInvalidOperation) r.

Definition Validate (o : Operation) : result error unit :=
  in_operation (
    fail_if (negb (validID (op_ID o))) ErrInvalidOperationID;;
    fail_if (negb (validID (op_WorkspaceID o))) ErrInvalidWorkspaceID;;
    fail_if (negb (validID (op_ResourceID o))) ErrInvalidResourceID;;
    validateBinding (op_EnvironmentID o) (op_ProviderConnectionID o);;
    fail_if (op_Generation o <? 1) ErrInvalidGeneration;;
    fail_if (negb (versionPattern (op_ResourceVersion o))) ErrInvalidResourceVersion;;
    fail_if (negb (validPhase (op_Phase o))) ErrInvalidPhase;;
    fail_if (negb (String.eqb (op_Reason o) "") && negb (reasonPattern (op_Reason o))) ErrInvalidReason;;
    fail_if (negb (valid_message (op_Message o))) ErrInvalidMessage;;
    match op_CostEstimate o with None => Ok tt | Some e => map_err ErrCost (ValidateCostEstimate e) end;;
    createdAt ← of_option (parseTimestamp (op_CreatedAt o)) ErrInvalidTimestamp;
    updatedAt ← of_option (parseTimestamp (op_UpdatedAt o)) ErrInvalidTimestamp;
    fail_if (before updatedAt createdAt) ErrInvalidTimestamp;;
    validateCanonicalSize o).

Definition MarshalCanonical (o : Operation) : result error string :=
  Validate o;;
  fail_if (MaxCanonicalBytes <? slen (encodeCanonical o)) ErrCanonicalTooLarge;;
  Ok (encodeCanonical o).

(** ** Comparison *)

Definition equalIDs (left right : option ID) : bool := bool_decide (left = right).

Definition equalCost (left right : option CostEstimate) : bool :=
  match left, right with
  | None, None => true
  | Some l, Some r => EqualCostEstimate l r
  | _, _ => false
  end.

Definition equalSemantic (left right : Operation) : bool :=
  String.eqb (op_ID left) (op_ID right) && String.eqb (op_WorkspaceID left) (op_WorkspaceID right) &&
  String.eqb (op_ResourceID left) (op_ResourceID right) && equalIDs (op_EnvironmentID left) (op_EnvironmentID right) &&
  equalIDs (op_ProviderConnectionID left) (op_ProviderConnectionID right) &&
  (op_Generation left =? op_Generation right) && bool_decide (op_Phase left = op_Phase right) &&
  String.eqb (op_Reason left) (op_Reason right) && String.eqb (op_Message left) (op_Message right) &&
  String.eqb (op_CreatedAt left) (op_CreatedAt right) && equalCost (op_CostEstimate left) (op_CostEstimate right).

Definition equal (left right : Operation) : bool :=
  equalSemantic left right && String.eqb (op_ResourceVersion left) (op_ResourceVersion right) &&
  String.eqb (op_UpdatedAt left) (op_UpdatedAt right).

(** ** Writers *)

Definition New (input : OperationInput) : result error Operation :=
  createdAt ← of_option (normalizeTimestamp (oi_CreatedAt input)) (ErrWrap ErrInvalidOperation ErrInvalidTimestamp);
  let result := Op (oi_ID input) (oi_WorkspaceID input) (oi_ResourceID input) (oi_EnvironmentID input)
                   (oi_ProviderConnectionID input) (oi_Generation input) (oi_ResourceVersion input) PhasePending
                   (oi_Reason input) (oi_Message input) (oi_CostEstimate input) createdAt createdAt in
  Validate result;;
  Ok result.

Definition in_transition {A} (r : result error A) : result error A := map_err (ErrWrap ErrInvalidTransition) r.

Definition CheckTransition (before after : Operation) : result error unit :=
  in_transition (Validate before);;
  in_transition (Validate after);;
  in_transition (
    fail_if (negb (String.eqb (op_ID before) (op_ID after))) ErrImmutableOperationID;;
    fail_if (negb (String.eqb (op_WorkspaceID before) (op_WorkspaceID after))) ErrImmutableWorkspaceID;;
    fail_if (negb (String.eqb (op_ResourceID before) (op_ResourceID after))) ErrImmutableResourceID;;
    fail_if (negb (equalIDs (op_EnvironmentID before) (op_EnvironmentID after))
             || negb (equalIDs (op_ProviderConnectionID before) (op_ProviderConnectionID after))) ErrImmutableProviderBinding;;
    fail_if (negb (op_Generation before =? op_Generation after)) ErrImmutableGeneration;;
    fail_if (negb (String.eqb (op_CreatedAt before) (op_CreatedAt after))) ErrImmutableCreatedAt;;
    if equal before after then Ok tt else
    fail_if (equalSemantic before after) ErrNoMaterialChange;;
    fail_if (terminal (op_Phase before)) ErrPhaseTransition;;
    fail_if (negb (bool_decide (op_Phase before = op_Phase after)) && negb (allowedTransition (op_Phase before) (op_Phase after)))
      ErrPhaseTransition;;
    fail_if (String.eqb (op_ResourceVersion before) (op_ResourceVersion after)) ErrResourceVersionUnchanged;;
    fail_if (GoTime.before (parsed_or_zero (op_UpdatedAt after)) (parsed_or_zero (op_UpdatedAt before))) ErrInvalidTimestamp).

(** The operation with the mutable detail of a transition. *)
Definition with_detail (o : Operation) (input : TransitionInput) (version updatedAt : string) : Operation :=
  Op (op_ID o) (op_WorkspaceID o) (op_ResourceID o) (op_EnvironmentID o) (op_ProviderConnectionID o) (op_Generation o)
     version (ti_Phase input) (ti_Reason input) (ti_Message input) (ti_CostEstimate input) (op_CreatedAt o) updatedAt.

Definition Transition (before : Operation) (input : TransitionInput) : result error Operation :=
  in_transition (Validate before);;
  if equalSemantic (with_detail before input (op_ResourceVersion before) (op_UpdatedAt before)) before then Ok before else
  updatedAt ← of_option (normalizeTimestamp (ti_UpdatedAt input)) (ErrWrap ErrInvalidTransition ErrInvalidTimestamp);
  let after := with_detail before input (ti_ResourceVersion input) updatedAt in
  CheckTransition before after;;
  Ok after.
