(* ===== verification/OperationProps.v ===== *)
(** * Properties of operations

    Transitions are characterised exactly; along any history the binding of an
    operation never changes, its time never goes back and a terminal phase is
    final; and the canonical text of an operation determines it. *)

From S2P Require Import Prelude Bytes GoTime Calendar Closed Json Condition Digests Control Operation.
From Stdlib Require Import String.

(** ** Equality *)

Lemma EqualCostEstimate_ok l r : EqualCostEstimate l r = true <-> l = r.
Proof.
  unfold EqualCostEstimate, equalStrings. rewrite !andb_true_iff, !bool_decide_eq_true, !String.eqb_eq.
  split; [|by intros ->]. intros (((((((? & ?) & ?) & ?) & ?) & ?) & ?) & ?). destruct l, r. simpl in *. congruence.
Qed.

Lemma equalCost_ok l r : equalCost l r = true <-> l = r.
Proof. destruct l as [l|], r as [r|]; simpl; try done. rewrite EqualCostEstimate_ok. naive_solver. Qed.

(** The part of an operation that [equalSemantic] compares. *)
Definition semantics (o : Operation) : Operation :=
  Op (op_ID o) (op_WorkspaceID o) (op_ResourceID o) (op_EnvironmentID o) (op_ProviderConnectionID o) (op_Generation o) ""
     (op_Phase o) (op_Reason o) (op_Message o) (op_CostEstimate o) (op_CreatedAt o) "".

Lemma equalSemantic_ok l r : equalSemantic l r = true <-> semantics l = semantics r.
Proof.
  unfold equalSemantic, equalIDs, semantics. rewrite !andb_true_iff, !bool_decide_eq_true, !String.eqb_eq, Z.eqb_eq, equalCost_ok.
  split.
  - intros ((((((((((? & ?) & ?) & ?) & ?) & ?) & ?) & ?) & ?) & ?) & ?). congruence.
  - intros [= -> -> -> -> -> -> -> -> -> -> ->]. done.
Qed.

Lemma equal_ok l r : equal l r = true <-> l = r.
Proof.
  unfold equal. rewrite !andb_true_iff, !String.eqb_eq, equalSemantic_ok. split; [|by intros ->].
  intros ((E & Hv) & Hu). destruct l, r. unfold semantics in E. simpl in *. injection E as -> -> -> -> -> -> -> -> -> -> ->. congruence.
Qed.

(** ** Valid operations *)

Record operation_facts (o : Operation) : Prop := {
  of_id : validID (op_ID o) = true;
  of_workspace : validID (op_WorkspaceID o) = true;
  of_resource : validID (op_ResourceID o) = true;
  of_binding : validateBinding (op_EnvironmentID o) (op_ProviderConnectionID o) = Ok tt;
  of_generation : 1 <= op_Generation o;
}.

Lemma operation_valid o : Operation.Validate o = Ok tt -> operation_facts o.
Proof.
  unfold Operation.Validate, in_operation. intros E. apply map_err_ok in E.
  do 3 (let G := fresh "G" in apply bind_ok in E as (? & G%fail_if_ok & E)). apply bind_ok in E as ([] & Hb & E).
  apply bind_ok in E as (? & Hg%fail_if_ok & _). autorewrite with guards in *. done.
Qed.

(** ** Transitions *)

(** The immutable binding of an operation. *)
Definition binding (o : Operation) : ID * ID * ID * option ID * option ID * Z * string :=
  (op_ID o, op_WorkspaceID o, op_ResourceID o, op_EnvironmentID o, op_ProviderConnectionID o, op_Generation o, op_CreatedAt o).

(** The instant of the last update of a valid operation. *)
Definition updated_time (o : Operation) : time := parsed_or_zero (op_UpdatedAt o).

(** A change of an operation: within the phase machine, under a new version,
    not back in time. *)
Definition advances (b a : Operation) : Prop :=
  semantics b <> semantics a /\ terminal (op_Phase b) = false /\
  (op_Phase b = op_Phase a \/ allowedTransition (op_Phase b) (op_Phase a) = true) /\
  op_ResourceVersion b <> op_ResourceVersion a /\ updated_time b <= updated_time a.

Lemma CheckTransition_ok b a : CheckTransition b a = Ok tt <->
  Validate b = Ok tt /\ Validate a = Ok tt /\ binding b = binding a /\ (b = a \/ advances b a).
Proof.
  unfold CheckTransition, in_transition, advances, binding, equalIDs. split.
  - intros E. apply bind_ok in E as ([] & Hb%map_err_ok & E). apply bind_ok in E as ([] & Ha%map_err_ok & E%map_err_ok).
    do 6 (let G := fresh "G" in apply bind_ok in E as ([] & G%fail_if_ok & E)). autorewrite with guards in *.
    destruct G2 as [G2 G2']. split; [done|]. split; [done|]. split; [congruence|].
    destruct (equal b a) eqn:Eq; [left; by apply equal_ok|]. right.
    do 4 (let G := fresh "K" in apply bind_ok in E as ([] & G%fail_if_ok & E)). apply fail_if_ok in E.
    apply before_false in E. apply String.eqb_neq in K2. split; [intros Es%equalSemantic_ok; congruence|].
    split; [done|]. split; [|done]. apply andb_false_iff in K1 as [K1|K1]; autorewrite with guards in K1; by auto.
  - intros (-> & -> & Hbind & Hcase). injection Hbind as E1 E2 E3 E4 E5 E6 E7. simpl.
    rewrite E1, E2, E3, E4, E5, E6, E7, !String.eqb_refl, (bool_decide_eq_true_2 (op_EnvironmentID a = _)),
      (bool_decide_eq_true_2 (op_ProviderConnectionID a = _)), Z.eqb_refl by done. simpl.
    destruct Hcase as [->|(Hs & Ht & Hp & Hv & Hu)]; [by rewrite (proj2 (equal_ok a a))|].
    destruct (equal b a) eqn:Eq; [done|].
    assert (equalSemantic b a = false) as -> by (apply not_true_iff_false; by rewrite equalSemantic_ok).
    rewrite Ht. apply String.eqb_neq in Hv as ->. simpl.
    assert (negb (bool_decide (op_Phase b = op_Phase a)) && negb (allowedTransition (op_Phase b) (op_Phase a)) = false) as ->
      by (destruct Hp as [->| ->]; [by rewrite bool_decide_eq_true_2 | apply andb_false_r]).
    simpl. by rewrite (proj2 (before_false _ _)).
Qed.

Lemma Transition_exact b input a : Transition b input = Ok a <->
  Validate b = Ok tt /\
  ((semantics (with_detail b input "" "") = semantics b /\ a = b) \/
   (semantics (with_detail b input "" "") <> semantics b /\
    exists s, normalizeTimestamp (ti_UpdatedAt input) = Some s /\ a = with_detail b input (ti_ResourceVersion input) s /\
      Validate a = Ok tt /\ advances b a)).
Proof.
  unfold Transition, in_transition.
  assert (forall v u, semantics (with_detail b input v u) = semantics (with_detail b input "" "")) as Hsem by done.
  split.
  - intros E. apply bind_ok in E as ([] & Hb%map_err_ok & E). split; [done|].
    destruct (equalSemantic _ b) eqn:Eq; [left; apply equalSemantic_ok in Eq; injection E as <-; done|]. right.
    assert (semantics (with_detail b input "" "") <> semantics b) as Hne.
    { intros Es. rewrite <- not_true_iff_false, equalSemantic_ok, Hsem in Eq. done. }
    split; [done|]. apply bind_ok in E as (s & Hs%of_option_ok & E). apply bind_ok in E as ([] & Hc & E). injection E as <-.
    apply CheckTransition_ok in Hc as (_ & Ha & _ & [Hba|Hadv]); [|by exists s].
    exfalso. apply Hne. apply (f_equal semantics) in Hba. by rewrite Hsem in Hba.
  - intros (Hb & Hcase). rewrite Hb. simpl. destruct Hcase as [[Es ->]|(Hne & s & Hn & -> & Ha & Hadv)].
    + rewrite (proj2 (equalSemantic_ok _ _)); [done|]. by rewrite Hsem.
    + destruct (equalSemantic _ b) eqn:Eq; [apply equalSemantic_ok in Eq; rewrite Hsem in Eq; done|].
      rewrite Hn. simpl. rewrite (proj2 (CheckTransition_ok _ _)); [done|]. split; [done|]. split; [done|]. split; [done | by right].
Qed.

(** Operation transitions are exact.  [CheckTransition] accepts exactly the
    pairs of valid operations of the same immutable binding that are equal, or
    differ materially from a phase that is not terminal, by the phase graph,
    under another resource version and not back in time.  [Transition] returns
    the operation itself exactly on a replay of its detail - whatever the
    version and the time offered - and otherwise exactly an accepted next
    operation, stamped with the normalised time. *)
Theorem operation_transition_exact :
  (forall b a, CheckTransition b a = Ok tt <->
     Validate b = Ok tt /\ Validate a = Ok tt /\ binding b = binding a /\ (b = a \/ advances b a)) /\
  (forall b input a, Transition b input = Ok a <->
     Validate b = Ok tt /\
     ((semantics (with_detail b input "" "") = semantics b /\ a = b) \/
      (semantics (with_detail b input "" "") <> semantics b /\
       exists s, normalizeTimestamp (ti_UpdatedAt input) = Some s /\ a = with_detail b input (ti_ResourceVersion input) s /\
         Validate a = Ok tt /\ advances b a))).
Proof. split; [apply CheckTransition_ok | apply Transition_exact]. Qed.

(** One accepted step. *)
Definition operation_step (b a : Operation) : Prop := CheckTransition b a = Ok tt.

(** C14: the life of an operation.  [New] makes valid pending operations, and
    along any sequence of accepted transitions the operation stays valid, keeps
    its identity, binding, generation and creation time, its update time never
    goes back, and once its phase is terminal it never changes again; a
    Succeeded, Failed or Canceled phase is thus reached at most once. *)
Theorem operation_life :
  (forall input o, New input = Ok o -> Validate o = Ok tt /\ op_Phase o = PhasePending /\ op_UpdatedAt o = op_CreatedAt o) /\
  (forall b input a, Transition b input = Ok a -> operation_step b a) /\
  (forall o o', Validate o = Ok tt -> rtc operation_step o o' ->
     Validate o' = Ok tt /\ binding o' = binding o /\ updated_time o <= updated_time o' /\
     (terminal (op_Phase o) = true -> o' = o)).
Proof.
  split; [|split].
  - intros input o H. unfold New in H. run_inv H. destruct x0. done.
  - intros b input a (Hb & [[_ ->]|(_ & s & _ & -> & Ha & Hadv)])%Transition_exact; apply CheckTransition_ok.
    + split; [done|]. split; [done|]. split; [done | by left].
    + split; [done|]. split; [done|]. split; [done | by right].
  - intros o o' Hv H. induction H as [o|o m o' Hs H IH]; [done|].
    apply CheckTransition_ok in Hs as (_ & Hm & Hbind & Hcase). destruct (IH Hm) as (Hv' & Hb' & Ht' & Hterm).
    split; [done|]. split; [congruence|]. destruct Hcase as [->|(Hsem & Hnt & _ & _ & Hu)]; [done|].
    split; [lia|]. congruence.
Qed.

(** ** The canonical text *)

Lemma Phase_text_inj p q : validPhase p = true -> validPhase q = true -> Phase_text p = Phase_text q -> p = q.
Proof. by destruct p, q. Qed.

Lemma Validate_facts o : Validate o = Ok tt ->
  op_ID o <> "" /\ validPhase (op_Phase o) = true /\ 1 <= op_Generation o /\
  (is_some (op_EnvironmentID o) = is_some (op_ProviderConnectionID o)) /\
  (forall e, op_CostEstimate o = Some e -> ValidateCostEstimate e = Ok tt) /\
  slen (encodeCanonical o) <= MaxCanonicalBytes.
Proof.
  unfold Validate, in_operation, validateCanonicalSize. intros E. apply map_err_ok in E. run_inv E. autorewrite with guards in *.
  split; [intros Hid; by rewrite Hid in *|]. split; [done|]. split; [lia|]. split; [|split].
  - unfold validateBinding in *. by destruct (op_EnvironmentID o), (op_ProviderConnectionID o).
  - intros e He. rewrite He in *. match goal with H : map_err _ (ValidateCostEstimate e) = Ok ?u |- _ => apply map_err_ok in H; by destruct u end.
  - done.
Qed.

(** The value of a member of an object. *)
Fixpoint member (key : string) (ms : list (string * json)) : option json :=
  match ms with [] => None | (k, v) :: rest => if String.eqb k key then Some v else member key rest end.

Lemma member_app key a b : member key (a ++ b) = match member key a with Some v => Some v | None => member key b end.
Proof. induction a as [|[k v] a IH]; [done|]. simpl. by destruct (String.eqb k key). Qed.

Definition members_of (j : json) : list (string * json) := match j with JObject ms => ms | _ => [] end.

Definition nonempty (s : string) : option json := if String.eqb s "" then None else Some (JString s).

Lemma member_omitempty key k v : member key (omitempty k v) = if String.eqb k key then nonempty v else None.
Proof. unfold omitempty, nonempty. destruct (String.eqb v ""); simpl; by destruct (String.eqb k key). Qed.

Lemma member_optional key k v : member key (optional_member k v) = if String.eqb k key then JString <$> v else None.
Proof. destruct v; simpl; by destruct (String.eqb k key). Qed.

Lemma member_cost key o : member key (match o with None => [] | Some e => [("costEstimate", cost_json e)] end) =
  if String.eqb "costEstimate" key then cost_json <$> o else None.
Proof. destruct o; cbn [member]; by destruct (String.eqb _ key). Qed.

Ltac read_members :=
  unfold operation_json, cost_json, members_of;
  rewrite ?member_app, ?member_omitempty, ?member_optional, ?member_cost; simpl;
  unfold nonempty, fmap, option_fmap, option_map; by repeat case_match.

Lemma operation_members o : let ms := members_of (operation_json o) in
  member "id" ms = Some (JString (op_ID o)) /\ member "workspaceId" ms = Some (JString (op_WorkspaceID o)) /\
  member "resourceId" ms = Some (JString (op_ResourceID o)) /\ member "environmentId" ms = JString <$> op_EnvironmentID o /\
  member "providerConnectionId" ms = JString <$> op_ProviderConnectionID o /\ member "generation" ms = Some (JInt (op_Generation o)) /\
  member "resourceVersion" ms = Some (JString (op_ResourceVersion o)) /\ member "phase" ms = Some (JString (Phase_text (op_Phase o))) /\
  member "reason" ms = nonempty (op_Reason o) /\ member "message" ms = nonempty (op_Message o) /\
  member "costEstimate" ms = cost_json <$> op_CostEstimate o /\
  member "createdAt" ms = Some (JString (op_CreatedAt o)) /\ member "updatedAt" ms = Some (JString (op_UpdatedAt o)).
Proof. repeat split; read_members. Qed.

Lemma cost_members e : let ms := members_of (cost_json e) in
  member "state" ms = Some (JString (CostState_text (ce_State e))) /\ member "amount" ms = JString <$> ce_Amount e /\
  member "currency" ms = Some (JString (ce_Currency e)) /\ member "region" ms = Some (JString (ce_Region e)) /\
  member "source" ms = Some (JString (ce_Source e)) /\ member "observedAt" ms = Some (JString (ce_ObservedAt e)) /\
  member "confidence" ms = Some (JString (Confidence_text (ce_Confidence e))) /\ member "reason" ms = Some (JString (ce_Reason e)).
Proof. repeat split; read_members. Qed.

Lemma JString_inj a b : Some (JString a) = Some (JString b) -> a = b.
Proof. by intros [= ->]. Qed.

Lemma option_JString_inj (a b : option string) : JString <$> a = JString <$> b -> a = b.
Proof. destruct a, b; simpl; naive_solver. Qed.

Lemma nonempty_inj a b : nonempty a = nonempty b -> a = b.
Proof. unfold nonempty. destruct (String.eqb_spec a ""), (String.eqb_spec b ""); naive_solver. Qed.

Lemma cost_json_inj a b : ValidateCostEstimate a = Ok tt -> ValidateCostEstimate b = Ok tt -> cost_json a = cost_json b -> a = b.
Proof.
  assert (forall e, ValidateCostEstimate e = Ok tt -> (ce_State e = CostKnown \/ ce_State e = CostUnknown) /\ validConfidence (ce_Confidence e) = true) as Hv.
  { intros e H. unfold ValidateCostEstimate, in_cost in H. apply bind_ok in H as (? & _ & H). apply bind_ok in H as (? & _ & H).
    apply bind_ok in H as (? & Hc%map_err_ok & H). apply fail_if_ok in Hc. autorewrite with guards in Hc. split; [|done].
    destruct (ce_State e); [by left | by right | done]. }
  intros [Sa Ca]%Hv [Sb Cb]%Hv E. apply (f_equal members_of) in E.
  destruct (cost_members a) as (A1 & A2 & A3 & A4 & A5 & A6 & A7 & A8). destruct (cost_members b) as (B1 & B2 & B3 & B4 & B5 & B6 & B7 & B8).
  rewrite E in *. rewrite A1 in B1. rewrite A2 in B2. rewrite A3 in B3. rewrite A4 in B4. rewrite A5 in B5. rewrite A6 in B6.
  rewrite A7 in B7. rewrite A8 in B8. apply JString_inj in B1, B3, B4, B5, B6, B7, B8. apply option_JString_inj in B2.
  assert (ce_State a = ce_State b) as E1 by (destruct Sa as [Sa|Sa], Sb as [Sb|Sb]; rewrite Sa, Sb in *; done).
  assert (ce_Confidence a = ce_Confidence b) as E2 by (clear -B7 Ca Cb; by destruct (ce_Confidence a), (ce_Confidence b)).
  destruct a, b. simpl in *. congruence.
Qed.

Lemma operation_ints o : op_Generation o <= max_int64 -> 1 <= op_Generation o -> ints_sized (operation_json o).
Proof.
  intros Hm Hp. assert (int_sized (op_Generation o)) as Hi by (unfold int_sized, max_int64 in *; lia).
  unfold operation_json, omitempty, optional_member.
  destruct (op_EnvironmentID o), (op_ProviderConnectionID o), (String.eqb (op_Reason o) ""), (String.eqb (op_Message o) ""),
    (op_CostEstimate o) as [e|]; try (destruct (ce_Amount e) eqn:Ea); simpl; unfold optional_member; rewrite ?Ea; simpl; tauto.
Qed.

(** The canonical text of an operation determines it.  [MarshalCanonical]
    succeeds exactly on the valid operations, within 4096 bytes, and no two of
    them have the same text: members that are left out when empty, escaped
    strings and the nested cost estimate included. *)
Theorem operation_text_binds :
  (forall o s, MarshalCanonical o = Ok s <-> Validate o = Ok tt /\ s = encodeCanonical o) /\
  (forall o s, MarshalCanonical o = Ok s -> slen s <= MaxCanonicalBytes) /\
  (forall o p s, op_Generation o <= max_int64 -> op_Generation p <= max_int64 ->
     MarshalCanonical o = Ok s -> MarshalCanonical p = Ok s -> o = p).
Proof.
  assert (forall o s, MarshalCanonical o = Ok s <-> Validate o = Ok tt /\ s = encodeCanonical o) as Hok.
  { intros o s. unfold MarshalCanonical. split.
    - intros H. apply bind_ok in H as ([] & Hv & H). apply bind_ok in H as (? & _ & H). injection H as <-. done.
    - intros [Hv ->]. rewrite Hv. cbn [mbind result_bind]. destruct (Validate_facts o Hv) as (_ & _ & _ & _ & _ & Hs).
      by rewrite (proj2 (Z.ltb_ge _ _) Hs). }
  split; [exact Hok|]. split; [intros o s [Hv ->]%Hok; by apply Validate_facts|].
  intros o p s Go Gp [Ho ->]%Hok [Hp E]%Hok.
  destruct (Validate_facts o Ho) as (_ & Po & Geno & _ & Co & _). destruct (Validate_facts p Hp) as (_ & Pp & Genp & _ & Cp & _).
  apply print_inj in E; [|by apply operation_ints..]. apply (f_equal members_of) in E.
  destruct (operation_members o) as (A1 & A2 & A3 & A4 & A5 & A6 & A7 & A8 & A9 & A10 & A11 & A12 & A13).
  destruct (operation_members p) as (B1 & B2 & B3 & B4 & B5 & B6 & B7 & B8 & B9 & B10 & B11 & B12 & B13).
  rewrite <- E in *. rewrite A1 in B1. rewrite A2 in B2. rewrite A3 in B3. rewrite A4 in B4. rewrite A5 in B5. rewrite A6 in B6.
  rewrite A7 in B7. rewrite A8 in B8. rewrite A9 in B9. rewrite A10 in B10. rewrite A11 in B11. rewrite A12 in B12. rewrite A13 in B13.
  apply JString_inj in B1, B2, B3, B7, B8, B12, B13. apply option_JString_inj in B4, B5. apply nonempty_inj in B9, B10.
  apply Phase_text_inj in B8; [|done..].
  assert (op_CostEstimate o = op_CostEstimate p) as Ec.
  { destruct (op_CostEstimate o) as [a|], (op_CostEstimate p) as [b|]; simpl in B11; try done.
    f_equal. apply cost_json_inj; [by apply Co | by apply Cp | congruence]. }
  destruct o, p. simpl in *. congruence.
Qed.

(** ** A cancelled operation *)

Definition o_created : time := c_now.

Definition o_input : OperationInput :=
  OI "operation-0000000001" "workspace-0000000001" "application-00000001" None None 3 "v1" "Accepted" "plan <pending>" None o_created.

Definition o_pending : Operation :=
  Op "operation-0000000001" "workspace-0000000001" "application-00000001" None None 3 "v1" PhasePending "Accepted" "plan <pending>"
     None "2023-11-14T22:13:20.000Z" "2023-11-14T22:13:20.000Z".

Definition o_canceled : Operation :=
  Op "operation-0000000001" "workspace-0000000001" "application-00000001" None None 3 "v2" PhaseCanceled "Canceled" ""
     None "2023-11-14T22:13:20.000Z" "2023-11-14T22:13:25.000Z".

Lemma operation_life_witness :
  New o_input = Ok o_pending /\ Validate o_canceled = Ok tt /\
  (forall o, rtc operation_step o_canceled o -> o = o_canceled).
Proof.
  destruct operation_life as (H1 & H2 & H3).
  assert (New o_input = Ok o_pending) as Hnew by (vm_compute; reflexivity).
  assert (Transition o_pending (TI PhaseCanceled "Canceled" "" None "v2" (o_created + 5 * second)) = Ok o_canceled) as Ht
    by (vm_compute; reflexivity).
  destruct (H1 _ _ Hnew) as (Hv & _ & _).
  destruct (H3 o_pending o_canceled Hv (rtc_once _ _ (H2 _ _ _ Ht))) as (Hvc & _ & _ & _).
  split; [exact Hnew|]. split; [exact Hvc|]. intros o Ho. exact (proj2 (proj2 (proj2 (H3 o_canceled o Hvc Ho))) eq_refl).
Defined.

Lemma operation_text_binds_witness :
  MarshalCanonical o_canceled = Ok (encodeCanonical o_canceled) /\
  forall p, op_Generation p <= max_int64 -> MarshalCanonical p = Ok (encodeCanonical o_canceled) -> p = o_canceled.
Proof.
  destruct operation_text_binds as (H1 & _ & H3).
  assert (MarshalCanonical o_canceled = Ok (encodeCanonical o_canceled)) as Hm by (vm_compute; reflexivity).
  split; [exact Hm|]. intros p Hp E. symmetry. refine (H3 o_canceled p _ _ Hp Hm E). vm_compute. discriminate.
Defined.
