(* ===== verification/Credential.v ===== *)
(** * Provider-credential requests, material and sessions (credential)

    A request for provider authority is sealed from a hierarchy snapshot, the
    provider connection, the target resource and a running operation; its
    binding digest covers every field.  Source and session material lives in
    shared cells, so that copies of a wrapper share one destruction state. *)

From S2P Require Import Prelude Bytes Sha256 GoTime Calendar Digests Hierarchy Identity AuthzVocabulary Authorization.
From S2P Require Import Condition Control Operation Resource.
From Stdlib Require Import Ascii String.

Inductive error :=
| ErrInvalidRecipient
| ErrInvalidResourceView
| ErrInvalidRequest
| ErrConnectionNotRetained
| ErrTargetNotRetained
| ErrScopeMismatch
| ErrTargetGenerationMismatch
| ErrOperationNotRunning
| ErrUnsupportedProviderAction
| ErrInvalidDigest
| ErrInvalidMaterial
| ErrInvalidMaterialCallback
| ErrMaterialDestroyed
| ErrInvalidIssuedSession
| ErrInvalidSessionLifetime
| ErrWrap (outer inner : error).

(** ** Limits *)

Definition credential_ContractVersion : string := "veer.credentials.v1alpha1".
Definition MaxRecipientBytes : Z := 64.
Definition MaxSourceMaterialBytes : Z := 65536.
Definition MaxSessionMaterialBytes : Z := 16384.
Definition MinIssuedSessionTTL : Z := 5 * minute.
Definition MaxIssuedSessionTTL : Z := 15 * minute.
Definition SessionRefreshAhead : Z := 3 * minute.
Definition MinNewUseLifetime : Z := 2 * minute.
Definition SessionExpirySkew : Z := 30 * second.

(** ** Recipients *)

(** [^[a-z][a-z0-9.-]{0,63}$] *)
Definition recipientPattern (value : string) : bool := matches_pattern is_lower name_char 0 63 value.

Record Recipient := Rcp { rcp_provider : string; rcp_name : string }.

Definition Recipient_Valid (r : Recipient) : bool :=
  (slen (rcp_provider r) <=? MaxRecipientBytes) && (slen (rcp_name r) <=? MaxRecipientBytes) &&
  recipientPattern (rcp_provider r) && recipientPattern (rcp_name r).

Definition NewRecipient (provider name : string) : result error Recipient :=
  let recipient := Rcp provider name in
  if Recipient_Valid recipient then Ok recipient else Err ErrInvalidRecipient.

(** ** Views of the target *)

Record ResourceView := RView {
  rv_initialized : bool;
  rv_apiVersion : string;
  rv_kind : Hierarchy.Kind;
  rv_id : ID;
  rv_workspaceID : ID;
  rv_parent : option ID;
  rv_generation : Z;
}.

Definition validResourceView (view : ResourceView) : bool :=
  rv_initialized view && String.eqb (rv_apiVersion view) Hierarchy.APIVersion && (1 <=? rv_generation view) &&
  Hierarchy.Kind_known (rv_kind view) && validID (rv_id view) && validID (rv_workspaceID view) &&
  if bool_decide (rv_kind view = KindWorkspace)
  then negb (is_some (rv_parent view)) && String.eqb (rv_id view) (rv_workspaceID view)
  else match rv_parent view with Some parent => validID parent | None => false end.

Section Views.
Context {Spec Status : Type}.

(** [hierarchy.RecordFrom] of an envelope. *)
Definition envelope_record (r : Resource Spec Status) : result Hierarchy.error Hierarchy.Record :=
  let m := rs_metadata r in
  RecordFrom (rs_apiVersion r) (rs_kind r) (m_id m) (m_workspaceID m) (m_parent m).

Definition NewResourceView (r : Resource Spec Status) : result error ResourceView :=
  record ← map_err (fun _ => ErrInvalidResourceView) (envelope_record r);
  fail_if (m_generation (rs_metadata r) <? 1) ErrInvalidResourceView;;
  let view := RView true (r_apiVersion record) (r_kind record) (r_id record) (r_workspaceID record) (r_parent record)
                (m_generation (rs_metadata r)) in
  if validResourceView view then Ok view else Err ErrInvalidResourceView.
End Views.

(** ** Source lookups and requests *)

Definition SourceDigest := digestValue.
Definition BindingDigest := digestValue.

Record SourceLookup := SL {
  sl_initialized : bool;
  sl_workspaceID : ID;
  sl_environmentID : ID;
  sl_providerConnectionID : ID;
  sl_connectionGeneration : Z;
  sl_provider : string;
  sl_referenceID : ID;
  sl_version : string;
  sl_digest : SourceDigest;
}.

Record Request := Rq {
  rq_initialized : bool;
  rq_workspaceID : ID;
  rq_environmentID : ID;
  rq_providerConnectionID : ID;
  rq_connectionGeneration : Z;
  rq_operationID : ID;
  rq_targetResourceID : ID;
  rq_targetKind : Hierarchy.Kind;
  rq_targetGeneration : Z;
  rq_provider : string;
  rq_action : Action;
  rq_recipient : Recipient;
  rq_source : SourceLookup;
  rq_binding : BindingDigest;
}.

Definition sourceDigestDomain : string := "veer.credentials.source.v1alpha1".
Definition bindingDigestDomain : string := "veer.credentials.binding.v1alpha1".

(** [writeInt64] frames the eight bytes of a two's complement integer. *)
Definition source_frames (source : SourceLookup) : list string :=
  [sourceDigestDomain; credential_ContractVersion; sl_workspaceID source; sl_environmentID source;
   sl_providerConnectionID source; put_uint64 (sl_connectionGeneration source); sl_provider source;
   sl_referenceID source; sl_version source].

Definition deriveSourceDigest (source : SourceLookup) : SourceDigest := digestFromHasher (source_frames source).

Definition binding_frames (request : Request) : list string :=
  [bindingDigestDomain; credential_ContractVersion; dv_digest (sl_digest (rq_source request)); rq_operationID request;
   rq_targetResourceID request; Hierarchy.Kind_String (rq_targetKind request); put_uint64 (rq_targetGeneration request);
   Action_String (rq_action request); rcp_provider (rq_recipient request); rcp_name (rq_recipient request)].

Definition deriveBindingDigest (request : Request) : BindingDigest := digestFromHasher (binding_frames request).

Definition validateSourceLookup (source : SourceLookup) : result error unit :=
  fail_if (negb (sl_initialized source) || (sl_connectionGeneration source <? 1) || negb (recipientPattern (sl_provider source))
           || negb (versionPattern (sl_version source))) ErrInvalidRequest;;
  fail_if (existsb (fun id => negb (validID id))
             [sl_workspaceID source; sl_environmentID source; sl_providerConnectionID source; sl_referenceID source]) ErrInvalidRequest;;
  fail_if (negb (equalDigest (sl_digest source) (deriveSourceDigest source))) ErrInvalidDigest.

Definition validProviderAction (action : Action) : bool :=
  match action with
  | ActionProviderDiscover | ActionProviderApply | ActionProviderObserve | ActionProviderDelete => true
  | _ => false
  end.

Definition ValidateRequest (request : Request) : result error unit :=
  fail_if (negb (rq_initialized request) || negb (Recipient_Valid (rq_recipient request))
           || negb (result_ok (validateSourceLookup (rq_source request))) || negb (validProviderAction (rq_action request))
           || (rq_connectionGeneration request <? 1) || (rq_targetGeneration request <? 1)) ErrInvalidRequest;;
  fail_if (existsb (fun id => negb (validID id))
             [rq_workspaceID request; rq_environmentID request; rq_providerConnectionID request; rq_operationID request;
              rq_targetResourceID request]) ErrInvalidRequest;;
  fail_if (negb (Hierarchy.Kind_known (rq_targetKind request))) ErrInvalidRequest;;
  fail_if (negb (String.eqb (rq_workspaceID request) (sl_workspaceID (rq_source request)))
           || negb (String.eqb (rq_environmentID request) (sl_environmentID (rq_source request)))
           || negb (String.eqb (rq_providerConnectionID request) (sl_providerConnectionID (rq_source request)))
           || negb (rq_connectionGeneration request =? sl_connectionGeneration (rq_source request))
           || negb (String.eqb (rq_provider request) (sl_provider (rq_source request)))
           || negb (String.eqb (rq_provider request) (rcp_provider (rq_recipient request)))
           || negb (equalDigest (rq_binding request) (deriveBindingDigest request))) ErrInvalidRequest.

Definition Request_Valid (request : Request) : bool := result_ok (ValidateRequest request).

Definition equalRecords (left right : Hierarchy.Record) : bool :=
  String.eqb (r_apiVersion left) (r_apiVersion right) && bool_decide (r_kind left = r_kind right) &&
  String.eqb (r_id left) (r_id right) && String.eqb (r_workspaceID left) (r_workspaceID right) &&
  bool_decide (r_parent left = r_parent right).

Definition viewMatchesRecord (view : ResourceView) (record : Hierarchy.Record) : bool :=
  validResourceView view && String.eqb (rv_apiVersion view) (r_apiVersion record) && bool_decide (rv_kind view = r_kind record) &&
  String.eqb (rv_id view) (r_id record) && String.eqb (rv_workspaceID view) (r_workspaceID record) &&
  bool_decide (rv_parent view = r_parent record).

Definition invalid_request {A} (r : result error A) : result error A := map_err (ErrWrap ErrInvalidRequest) r.

Section NewRequest.
Context `{TypedJSON ProviderConnectionSpec} `{TypedJSON ProviderConnectionStatus}.
Notation connection_resource := (Resource ProviderConnectionSpec ProviderConnectionStatus).

(** The connection of a request: its specification and its record. *)
Definition connection_of (connection : connection_resource) : result error (ProviderConnectionSpec * Hierarchy.Record) :=
  let metadata := rs_metadata connection in
  spec ← map_err (fun _ => ErrInvalidRequest) (Resource_Spec connection);
  fail_if (negb (result_ok (ValidateProviderConnectionSpec spec))) ErrInvalidRequest;;
  status ← map_err (fun _ => ErrInvalidRequest) (Resource_Status connection);
  fail_if (negb (result_ok (ValidateProviderConnectionStatus status (m_generation metadata)))) ErrInvalidRequest;;
  record ← map_err (fun _ => ErrInvalidRequest) (envelope_record connection);
  fail_if (negb (bool_decide (r_kind record = KindProviderConnection)) || (m_generation metadata <? 1)) ErrInvalidRequest;;
  Ok (spec, record).

(** The comparison of every scope: the operation's, the snapshot's, the
    connection's, the target's and the recipient's. *)
Definition scope_matches (snapshot : Snapshot) (connectionRecord targetRecord : Hierarchy.Record) (environmentID targetEnvironmentID : ID)
    (target : ResourceView) (op : Operation) (recipient : Recipient) (provider : string) : bool :=
  bool_decide (op_EnvironmentID op = Some environmentID) && bool_decide (op_EnvironmentID op = Some targetEnvironmentID) &&
  bool_decide (op_ProviderConnectionID op = Some (r_id connectionRecord)) &&
  String.eqb (op_WorkspaceID op) (s_workspaceID snapshot) && String.eqb (r_workspaceID connectionRecord) (s_workspaceID snapshot) &&
  String.eqb (r_workspaceID targetRecord) (s_workspaceID snapshot) && String.eqb (op_ResourceID op) (rv_id target) &&
  String.eqb (rcp_provider recipient) provider.

Definition sealed_source (snapshot : Snapshot) (environmentID : ID) (connectionRecord : Hierarchy.Record) (generation : Z)
    (spec : ProviderConnectionSpec) : SourceLookup :=
  let unsealed digest := SL true (s_workspaceID snapshot) environmentID (r_id connectionRecord) generation (pcs_Provider spec)
                           (cr_ReferenceID (pcs_CredentialRef spec)) (cr_Version (pcs_CredentialRef spec)) digest in
  unsealed (deriveSourceDigest (unsealed (DV false ""))).

Definition sealed_request (source : SourceLookup) (op : Operation) (target : ResourceView) (action : Action) (recipient : Recipient)
    : Request :=
  let unsealed binding := Rq true (sl_workspaceID source) (sl_environmentID source) (sl_providerConnectionID source)
                            (sl_connectionGeneration source) (op_ID op) (rv_id target) (rv_kind target) (rv_generation target)
                            (sl_provider source) action recipient source binding in
  unsealed (deriveBindingDigest (unsealed (DV false ""))).

Definition NewRequest (snapshot : Snapshot) (connection : connection_resource) (target : ResourceView) (op : Operation)
    (action : Action) (recipient : Recipient) : result error Request :=
  fail_if (negb (result_ok (Operation.Validate op))) ErrInvalidRequest;;
  invalid_request (
    fail_if (negb (bool_decide (op_Phase op = PhaseRunning))) ErrOperationNotRunning;;
    fail_if (negb (validProviderAction action)) ErrUnsupportedProviderAction;;
    fail_if (negb (Recipient_Valid recipient)) ErrInvalidRecipient;;
    fail_if (negb (validResourceView target)) ErrInvalidResourceView);;
  '(spec, connectionRecord) ← connection_of connection;
  environmentIDs ← invalid_request (
    retained ← map_err (fun _ => ErrConnectionNotRetained) (Snapshot_Lookup snapshot (r_id connectionRecord));
    fail_if (negb (equalRecords connectionRecord retained)) ErrConnectionNotRetained;;
    environmentID ← of_option (r_parent connectionRecord) ErrScopeMismatch;
    targetRecord ← map_err (fun _ => ErrTargetNotRetained) (Snapshot_Lookup snapshot (rv_id target));
    fail_if (negb (viewMatchesRecord target targetRecord)) ErrTargetNotRetained;;
    targetAuthorization ← map_err (fun _ => ErrTargetNotRetained) (ResolveResourceTarget snapshot (rv_id target));
    targetEnvironmentID ← of_option (tg_environmentID targetAuthorization) ErrScopeMismatch;
    fail_if (negb (scope_matches snapshot connectionRecord targetRecord environmentID targetEnvironmentID target op recipient
                     (pcs_Provider spec))) ErrScopeMismatch;;
    fail_if (negb (op_Generation op =? rv_generation target)) ErrTargetGenerationMismatch;;
    Ok environmentID);
  fail_if (negb (validID (cr_ReferenceID (pcs_CredentialRef spec)))) ErrInvalidRequest;;
  let source := sealed_source snapshot environmentIDs connectionRecord (m_generation (rs_metadata connection)) spec in
  let request := sealed_request source op target action recipient in
  ValidateRequest request;;
  Ok request.
End NewRequest.

(** ** Material *)

(** One owned buffer.  Wrappers are pointers to it, so copies of a wrapper
    share its destruction. *)
Record materialState := MS { ms_value : string; ms_limit : Z; ms_destroyed : bool }.

Notation cell := positive.
Notation memory := (gmap cell materialState).

Definition newMaterialState (value : string) (limit : Z) : ST memory error cell := fun h =>
  if (slen value =? 0) || (limit <? slen value) then (Err ErrInvalidMaterial, h)
  else let l := fresh (dom h) in (Ok l, <[l := MS value limit false]> h).

Definition NewSourceMaterial (value : string) : ST memory error cell := newMaterialState value MaxSourceMaterialBytes.
Definition NewSessionMaterial (value : string) : ST memory error cell := newMaterialState value MaxSessionMaterialBytes.

Definition material_usable (s : materialState) : bool :=
  negb (ms_destroyed s) && (0 <? slen (ms_value s)) && (slen (ms_value s) <=? ms_limit s).

(** [valid]; a nil wrapper or state is [None]. *)
Definition material_valid (h : memory) (material : option cell) : bool :=
  match material ≫= fun l => h !! l with Some s => material_usable s | None => false end.

Definition material_length (h : memory) (material : option cell) : Z :=
  match material ≫= fun l => h !! l with
  | Some s => if ms_destroyed s then 0 else slen (ms_value s)
  | None => 0
  end.

(** [withBytes]: the callback runs on a copy, without the lock, and may itself
    change the memory. *)
Definition withBytes {A} (material : option cell) (callback : string -> ST memory error A) : ST memory error A := fun h =>
  match material ≫= fun l => h !! l with
  | Some s => if material_usable s then callback (ms_value s) h else (Err ErrMaterialDestroyed, h)
  | None => (Err ErrMaterialDestroyed, h)
  end.

Definition material_destroy (material : option cell) (h : memory) : memory :=
  match material with
  | Some l => match h !! l with Some s => <[l := MS "" (ms_limit s) true]> h | None => h end
  | None => h
  end.

(** ** Issued sessions *)

Record IssuedSession := IS {
  is_binding : BindingDigest;
  is_issuedAt : time;
  is_expiresAt : time;
  is_material : option cell;
}.

(** [value.UTC().Truncate(time.Second)] *)
Definition truncate_second (t : time) : time := t - t mod second.

Definition normalizeSessionTime (value : time) : option time :=
  if is_zero value then None else
  let normalized := truncate_second value in
  if (Year normalized <? 1) || (9999 <? Year normalized) then None else Some normalized.

Definition canonicalSessionTime (value : time) : bool :=
  match normalizeSessionTime value with Some normalized => (value mod second =? 0) && time_equal value normalized | None => false end.

Definition validSessionDuration (issuedAt expiresAt : time) : bool :=
  (MinIssuedSessionTTL <=? time_sub expiresAt issuedAt) && (time_sub expiresAt issuedAt <=? MaxIssuedSessionTTL).

Definition IssuedSession_Valid (h : memory) (session : IssuedSession) : bool :=
  dv_initialized (is_binding session) && canonicalSessionTime (is_issuedAt session) && canonicalSessionTime (is_expiresAt session) &&
  validSessionDuration (is_issuedAt session) (is_expiresAt session) && material_valid h (is_material session).

Definition IssuedSession_Destroy (session : IssuedSession) (h : memory) : memory := material_destroy (is_material session) h.

Definition RefreshAt (session : IssuedSession) : time :=
  if is_zero (is_expiresAt session) then zero_time else is_expiresAt session - SessionRefreshAhead.

Definition RefreshDueAt (h : memory) (session : IssuedSession) (now : time) : bool :=
  IssuedSession_Valid h session && negb (is_zero now) && negb (before now (RefreshAt session)).

Definition ExpiredAt (h : memory) (session : IssuedSession) (now : time) : bool :=
  negb (IssuedSession_Valid h session) || is_zero now || negb (before now (is_expiresAt session - SessionExpirySkew)).

Definition CanStartUse (h : memory) (session : IssuedSession) (now : time) : bool :=
  IssuedSession_Valid h session && negb (is_zero now) &&
  negb (after now (is_expiresAt session - SessionExpirySkew - MinNewUseLifetime)).

Definition wrap_session {A} (inner : error) (r : result error A) : result error A := map_err (fun _ => ErrWrap ErrInvalidIssuedSession inner) r.

(** An independently owned copy of the material. *)
Definition copy_material (material : cell) : ST memory error cell := fun h =>
  let '(r, h') := withBytes (Some material) NewSessionMaterial h in (wrap_session ErrInvalidMaterial r, h').

(** [session.Valid()], with its destruction when it fails. *)
Definition keep_valid (session : IssuedSession) : ST memory error IssuedSession := fun h =>
  if IssuedSession_Valid h session then (Ok session, h) else (Err ErrInvalidIssuedSession, IssuedSession_Destroy session h).

(** The constructor's body, before the deferred destruction of its argument. *)
Definition open_session (request : Request) (material : cell) (issuedAt expiresAt : time) : ST memory error IssuedSession :=
  lift (wrap_session ErrInvalidRequest (ValidateRequest request));;
  normalizedIssued ← lift (of_option (normalizeSessionTime issuedAt) (ErrWrap ErrInvalidIssuedSession ErrInvalidSessionLifetime));
  normalizedExpires ← lift (of_option (normalizeSessionTime expiresAt) (ErrWrap ErrInvalidIssuedSession ErrInvalidSessionLifetime));
  reject (negb (validSessionDuration issuedAt expiresAt) || negb (validSessionDuration normalizedIssued normalizedExpires))
    (ErrWrap ErrInvalidIssuedSession ErrInvalidSessionLifetime);;
  owned ← copy_material material;
  keep_valid (IS (rq_binding request) normalizedIssued normalizedExpires (Some owned)).

Definition NewIssuedSession (request : Request) (material : option cell) (issuedAt expiresAt : time)
    : ST memory error IssuedSession := fun h =>
  match material with
  | None => (Err (ErrWrap ErrInvalidIssuedSession ErrInvalidMaterial), h)
  | Some l => let '(r, h') := open_session request l issuedAt expiresAt h in (r, material_destroy material h')
  end.
