(* ===== verification/CredentialProps.v ===== *)
(** * Credential requests, bindings and sessions

    A sealed request is confined to one operation in one environment; its
    binding digest determines it; material is consumed once and a destroyed
    buffer is never readable again; the windows of a session are ordered. *)

From S2P Require Import Prelude Bytes Sha256 GoTime Calendar Digests Closed Hierarchy HierarchyProps Identity AuthzVocabulary.
From S2P Require Import Authorization TargetProps Condition Control Operation Resource Credential.
From Stdlib Require Import Ascii String.

(** ** Valid requests *)

Lemma pattern_sized head tail lo hi s : matches_pattern head tail lo hi s = true -> hi < 1000 -> frame_sized s.
Proof.
  unfold frame_sized, max_uint64. destruct s as [|c s]; simpl; [done|]. intros Hm Hhi. guards_in Hm.
  unfold slen in *. simpl. lia.
Qed.

Lemma request_id_sized id : validID id = true -> frame_sized id.
Proof. intros H. eapply pattern_sized; [done|lia]. Qed.

Lemma put_uint64_sized x : frame_sized (put_uint64 x).
Proof. unfold frame_sized, put_uint64, slen. rewrite be_bytes_length. done. Qed.

Lemma kind_string_sized k : Hierarchy.Kind_known k = true -> frame_sized (Hierarchy.Kind_String k).
Proof. destruct k; done. Qed.

Lemma action_string_sized a : validProviderAction a = true -> frame_sized (Action_String a).
Proof. destruct a; done. Qed.

Lemma forall_ids ids : existsb (fun id => negb (validID id)) ids = false -> Forall (fun id => validID id = true) ids.
Proof. induction ids as [|id ids IH]; [constructor|]. cbn [existsb]. intros H. guards_in H. by constructor; [|apply IH]. Qed.

Lemma Recipient_Valid_iff r : Recipient_Valid r = true <-> recipientPattern (rcp_provider r) = true /\ recipientPattern (rcp_name r) = true.
Proof.
  unfold Recipient_Valid. rewrite !andb_true_iff, !Z.leb_le. split; [tauto|]. intros [Hp Hn]. repeat split; try done.
  - unfold MaxRecipientBytes. destruct (rcp_provider r) as [|c s]; [done|]. simpl in Hp. guards_in Hp. unfold slen in *. simpl. lia.
  - unfold MaxRecipientBytes. destruct (rcp_name r) as [|c s]; [done|]. simpl in Hn. guards_in Hn. unfold slen in *. simpl. lia.
Qed.

Record source_facts (s : SourceLookup) : Prop := {
  sf_init : sl_initialized s = true;
  sf_generation : 1 <= sl_connectionGeneration s;
  sf_provider : recipientPattern (sl_provider s) = true;
  sf_version : versionPattern (sl_version s) = true;
  sf_ids : Forall (fun id => validID id = true)
             [sl_workspaceID s; sl_environmentID s; sl_providerConnectionID s; sl_referenceID s];
  sf_digest : sl_digest s = deriveSourceDigest s;
}.

Lemma validateSourceLookup_ok s u : validateSourceLookup s = Ok u <-> source_facts s.
Proof.
  unfold validateSourceLookup. split.
  - intros H. run_inv H. guards_in Hr. guards_in H. apply forall_ids in Hr0. by split.
  - intros [H1 H2 H3 H4 H5 H6]. rewrite H1, H3, H4, H6, equalDigest_refl. rewrite (proj2 (Z.ltb_ge _ _)) by lia.
    unfold deriveSourceDigest at 1, digestFromHasher at 1. cbn [negb orb fail_if mbind result_bind dv_initialized].
    assert (existsb (fun id => negb (validID id)) [sl_workspaceID s; sl_environmentID s; sl_providerConnectionID s; sl_referenceID s] = false) as ->.
    { rewrite !Forall_cons in H5. destruct H5 as (E1 & E2 & E3 & E4 & _). cbn [existsb]. by rewrite E1, E2, E3, E4. }
    by destruct u.
Qed.

Record request_facts (q : Request) : Prop := {
  qf_init : rq_initialized q = true;
  qf_recipient : Recipient_Valid (rq_recipient q) = true;
  qf_source : source_facts (rq_source q);
  qf_action : validProviderAction (rq_action q) = true;
  qf_generations : 1 <= rq_connectionGeneration q /\ 1 <= rq_targetGeneration q;
  qf_ids : Forall (fun id => validID id = true)
             [rq_workspaceID q; rq_environmentID q; rq_providerConnectionID q; rq_operationID q; rq_targetResourceID q];
  qf_kind : Hierarchy.Kind_known (rq_targetKind q) = true;
  qf_scope : rq_workspaceID q = sl_workspaceID (rq_source q) /\ rq_environmentID q = sl_environmentID (rq_source q) /\
             rq_providerConnectionID q = sl_providerConnectionID (rq_source q) /\
             rq_connectionGeneration q = sl_connectionGeneration (rq_source q);
  qf_provider : rq_provider q = sl_provider (rq_source q) /\ rq_provider q = rcp_provider (rq_recipient q);
  qf_binding : rq_binding q = deriveBindingDigest q;
}.

Lemma ValidateRequest_facts q u : ValidateRequest q = Ok u -> request_facts q.
Proof.
  unfold ValidateRequest. intros H. run_inv H. guards_in Hr. guards_in H. apply forall_ids in Hr0. guards_in Hr1.
  repeat match goal with G : result_ok _ = true |- _ => apply result_ok_true in G as [v G]; apply validateSourceLookup_ok in G end.
  by split.
Qed.

Lemma Request_Valid_facts q : Request_Valid q = true -> request_facts q.
Proof. intros [u H]%result_ok_true. by eapply ValidateRequest_facts. Qed.

(** ** Bindings *)

Lemma source_frames_sized s : source_facts s -> Forall frame_sized (source_frames s).
Proof.
  intros [_ _ Hp Hv Hids _]. rewrite !Forall_cons in Hids. destruct Hids as (H1 & H2 & H3 & H4 & _).
  unfold source_frames. repeat constructor; try done; try (by apply request_id_sized); try apply put_uint64_sized;
    eapply pattern_sized; done || lia.
Qed.

Lemma binding_frames_sized q : request_facts q -> Forall frame_sized (binding_frames q).
Proof.
  intros [_ Hr Hs Ha _ Hids Hk _ _ _]. rewrite !Forall_cons in Hids. destruct Hids as (H1 & H2 & H3 & H4 & H5 & _).
  apply Recipient_Valid_iff in Hr as [Hp Hn].
  unfold binding_frames. rewrite (sf_digest _ Hs). repeat constructor; try done; try (by apply request_id_sized); try apply put_uint64_sized;
    try (by apply kind_string_sized); try (by apply action_string_sized);
    eapply pattern_sized; done || lia.
Qed.

(** Two different hash inputs with one hash. *)
Definition collide (a b : list string) : Prop := preimage a <> preimage b /\ sha256 (preimage a) = sha256 (preimage b).

Lemma digest_binds a b : Forall frame_sized a -> Forall frame_sized b -> digestFromHasher a = digestFromHasher b -> a = b \/ collide a b.
Proof.
  intros Ha Hb E. apply (f_equal dv_digest) in E. cbn [digestFromHasher dv_digest] in E.
  destruct (decide (preimage a = preimage b)) as [Hp|Hp]; [left | by right]. by apply preimage_inj.
Qed.

(** The generations of a request are [int64]s. *)
Definition request_sized (q : Request) : Prop := in_int64 (rq_connectionGeneration q) /\ in_int64 (rq_targetGeneration q).

Lemma source_frames_inj s t : source_facts s -> source_facts t -> in_int64 (sl_connectionGeneration s) ->
  in_int64 (sl_connectionGeneration t) -> source_frames s = source_frames t -> s = t.
Proof.
  intros [I1 _ _ _ _ D1] [I2 _ _ _ _ D2] G1 G2 E. pose proof E as Ef. unfold source_frames in E. cons_inv_in E.
  match goal with G : put_uint64 _ = put_uint64 _ |- _ => apply put_int64_inj in G; [|done|done] end.
  assert (sl_digest s = sl_digest t) by (rewrite D1, D2; unfold deriveSourceDigest; by rewrite Ef).
  destruct s, t; simpl in *. congruence.
Qed.

Lemma kind_string_inj a b : Hierarchy.Kind_known a = true -> Hierarchy.Kind_known b = true ->
  Hierarchy.Kind_String a = Hierarchy.Kind_String b -> a = b.
Proof. destruct a, b; done. Qed.

Lemma action_string_inj a b : validProviderAction a = true -> validProviderAction b = true -> Action_String a = Action_String b -> a = b.
Proof. destruct a, b; done. Qed.

(** C20: the binding digest of a request covers the whole request: two valid
    requests with one binding are the same request, unless their binding or
    source encodings are a SHA-256 collision. *)
Theorem binding_determines_request (p q : Request) :
  Request_Valid p = true -> Request_Valid q = true -> request_sized p -> request_sized q ->
  equalDigest (rq_binding p) (rq_binding q) = true ->
  p = q \/ collide (binding_frames p) (binding_frames q) \/
  collide (source_frames (rq_source p)) (source_frames (rq_source q)).
Proof.
  intros Hp%Request_Valid_facts Hq%Request_Valid_facts [Gp Tp] [Gq Tq] (_ & _ & E)%equalDigest_true.
  pose proof (binding_frames_sized _ Hp) as Fp. pose proof (binding_frames_sized _ Hq) as Fq.
  destruct Hp as [Ip _ Sp Ap _ _ Kp (Wp & Ep & Cp & Np) [Pp Rp] Bp], Hq as [Iq _ Sq Aq _ _ Kq (Wq & Eq & Cq & Nq) [Pq Rq] Bq].
  rewrite Bp, Bq in E. apply digest_binds in E as [E|E]; [|by right; left|done..].
  unfold binding_frames in E. cons_inv_in E.
  match goal with G : put_uint64 _ = put_uint64 _ |- _ => apply put_int64_inj in G; [|done|done] end.
  match goal with G : Action_String _ = _ |- _ => apply action_string_inj in G; [|done|done] end.
  match goal with G : Hierarchy.Kind_String _ = _ |- _ => apply kind_string_inj in G; [|done|done] end.
  assert (deriveSourceDigest (rq_source p) = deriveSourceDigest (rq_source q)) as Es.
  { rewrite <- (sf_digest _ Sp), <- (sf_digest _ Sq). rewrite (sf_digest _ Sp), (sf_digest _ Sq) in *.
    unfold deriveSourceDigest, digestFromHasher in *. cbn [dv_digest] in *. congruence. }
  apply digest_binds in Es as [Es|Es]; [|by right; right|by apply source_frames_sized..].
  left. rewrite Np in Gp. rewrite Nq in Gq. apply source_frames_inj in Es; [|done..].
  assert (rq_binding p = rq_binding q).
  { rewrite Bp, Bq. unfold deriveBindingDigest, binding_frames. congruence. }
  destruct p as [? ? ? ? ? ? ? ? ? ? ? rp ? ?], q as [? ? ? ? ? ? ? ? ? ? ? rq ? ?], rp, rq; simpl in *. congruence.
Qed.

(** ** Confinement *)

Lemma equalRecords_true a b : equalRecords a b = true <-> a = b.
Proof.
  unfold equalRecords. destruct a, b; simpl. rewrite !andb_true_iff, !String.eqb_eq, !bool_decide_eq_true. split; [|intros [=]; tauto].
  intros ((((? & ?) & ?) & ?) & ?). congruence.
Qed.

Section Confined.
Context `{TypedJSON ProviderConnectionSpec} `{TypedJSON ProviderConnectionStatus}.

Lemma connection_of_ok (c : Resource ProviderConnectionSpec ProviderConnectionStatus) spec record :
  connection_of c = Ok (spec, record) ->
  Resource_Spec c = Ok spec /\ ValidateProviderConnectionSpec spec = Ok tt /\
  envelope_record c = Ok record /\ r_kind record = KindProviderConnection.
Proof.
  unfold connection_of. intros Hc. run_inv Hc. apply negb_false in Hr0. apply result_ok_true in Hr0 as [[] Hv].
  apply orb_false_iff in Hr4 as [Hk _]. apply negb_false, bool_decide_eq_true in Hk. done.
Qed.

(** C12: provider authority is confined.  A sealed request exists only for a
    valid running operation and a provider action; it names the operation, its
    target at the operation's generation, and the provider connection the
    operation is bound to; both are resources of the workspace's tree, the
    connection is a child of the operation's environment, and the target lives
    in that very environment; provider, credential reference and version are
    those of the connection, and the recipient belongs to that provider. *)
Theorem request_confined (ws : ID) (records : list Hierarchy.Record) (s : Snapshot)
    (connection : Resource ProviderConnectionSpec ProviderConnectionStatus) (target : ResourceView) (op : Operation)
    (action : Action) (recipient : Recipient) (q : Request) :
  NewSnapshot ws records = Ok s -> NewRequest s connection target op action recipient = Ok q ->
  Request_Valid q = true /\ Operation.Validate op = Ok tt /\ op_Phase op = PhaseRunning /\
  rq_operationID q = op_ID op /\ rq_targetResourceID q = op_ResourceID op /\ rq_targetGeneration q = op_Generation op /\
  rq_action q = action /\ validProviderAction action = true /\ rq_recipient q = recipient /\
  rq_workspaceID q = ws /\ op_WorkspaceID op = ws /\
  op_EnvironmentID op = Some (rq_environmentID q) /\ op_ProviderConnectionID op = Some (rq_providerConnectionID q) /\
  (exists c, index_of records !! rq_providerConnectionID q = Some c /\ r_kind c = KindProviderConnection /\
     r_parent c = Some (rq_environmentID q)) /\
  environment_above (index_of records) (rq_targetResourceID q) (rq_environmentID q) /\
  exists spec, Resource_Spec connection = Ok spec /\ rq_connectionGeneration q = m_generation (rs_metadata connection) /\
    rq_provider q = pcs_Provider spec /\ rcp_provider recipient = pcs_Provider spec /\
    sl_referenceID (rq_source q) = cr_ReferenceID (pcs_CredentialRef spec) /\
    sl_version (rq_source q) = cr_Version (pcs_CredentialRef spec).
Proof.
  intros Hs Hq. apply NewSnapshot_ok in Hs as [Ht ->]. unfold NewRequest, invalid_request in Hq. run_inv Hq.
  destruct x4 as [spec record]. run_inv Hq. apply connection_of_ok in Hr4 as (Hspec & _ & _ & Hkind).
  apply negb_false, result_ok_true in Hr as [[] Hval]. apply negb_false, equalRecords_true in Hr7. subst x5.
  unfold scope_matches in Hr13. guards_in Hr13. guards_in Hr1. guards_in Hr2. guards_in Hr14.
  assert (Hlook : lookup_target (snapshot_of ws records) (r_id record) = Ok record) by (unfold lookup_target; by rewrite Hr6).
  apply (lookup_target_ok _ _ Ht) in Hlook.
  unfold ResolveResourceTarget in Hr11. run_inv Hr11. apply (lookup_target_ok _ _ Ht) in Hr.
  destruct (tree_record _ _ Ht _ _ Hr) as (Hin & Hid & _).
  destruct (targetFromRecord_ok _ _ Ht _ _ _ _ _ Hin Hr11) as ((_ & _ & _ & _ & _ & _ & Henv) & _).
  assert (x4 = x11) as <- by congruence. apply Henv in Hr12. rewrite Hid in Hr12.
  split; [by apply result_ok_true; eexists|]. cbn. repeat (split; [done || congruence|]).
  split; [by exists record|]. split; [done|]. exists spec. done.
Qed.
End Confined.

(** ** Material and sessions *)

Definition destroyed (h : memory) (l : cell) : Prop := exists s, h !! l = Some s /\ ms_destroyed s = true.

Lemma destroyed_invalid h l : destroyed h l -> material_valid h (Some l) = false.
Proof. intros (s & Hs & Hd). unfold material_valid. simpl. rewrite Hs. unfold material_usable. by rewrite Hd. Qed.

Lemma material_destroy_valid h l k :
  material_valid (material_destroy (Some l) h) (Some k) = negb (bool_decide (k = l)) && material_valid h (Some k).
Proof.
  unfold material_destroy, material_valid. simpl. destruct (h !! l) as [s|] eqn:E.
  - destruct (decide (k = l)) as [->|Hne].
    + rewrite lookup_insert_eq, bool_decide_eq_true_2 by done. done.
    + rewrite lookup_insert_ne, bool_decide_eq_false_2 by done. done.
  - case_bool_decide; [subst; by rewrite E | done].
Qed.

Lemma copy_material_spec l h r h' : copy_material l h = (r, h') ->
  match r with
  | Ok k => exists s, h !! l = Some s /\ material_usable s = true /\ h !! k = None /\
              h' = <[k := MS (ms_value s) MaxSessionMaterialBytes false]> h /\ 0 < slen (ms_value s) <= MaxSessionMaterialBytes
  | Err _ => h' = h
  end.
Proof.
  unfold copy_material, withBytes, NewSessionMaterial, newMaterialState. simpl. destruct (h !! l) as [s|] eqn:E; [|by intros [= <- <-]].
  destruct (material_usable s) eqn:U; [|by intros [= <- <-]].
  destruct (_ || _) eqn:G; intros [= <- <-]; [done|]. guards_in G. exists s. pose proof (slen_nonneg (ms_value s)).
  repeat split; try done; [apply not_elem_of_dom, is_fresh | lia..].
Qed.

Lemma keep_valid_ok s h s' h' : keep_valid s h = (Ok s', h') -> s' = s /\ h' = h /\ IssuedSession_Valid h s = true.
Proof. unfold keep_valid. destruct (IssuedSession_Valid h s) eqn:E; [|done]. by intros [= <- <-]. Qed.

Lemma normalizeSessionTime_some t u : normalizeSessionTime t = Some u -> u = truncate_second t.
Proof. unfold normalizeSessionTime. destruct (is_zero t); [done|]. destruct (_ || _); [done|]. by intros [= <-]. Qed.

Lemma validSessionDuration_true i e : validSessionDuration i e = true -> MinIssuedSessionTTL <= e - i <= MaxIssuedSessionTTL.
Proof.
  unfold validSessionDuration, time_sub, MinIssuedSessionTTL, MaxIssuedSessionTTL, minute, second, millisecond, max_int64.
  intros H. guards_in H. lia.
Qed.

(** A failing construction leaves nothing readable behind. *)
Lemma open_session_err q l issuedAt expiresAt h e h' : open_session q l issuedAt expiresAt h = (Err e, h') ->
  forall j, material_valid h' (Some j) = true -> material_valid h (Some j) = true.
Proof.
  assert (forall (A : Type) (r : result error A) (h : memory) e h', lift r h = (Err e, h') -> h' = h) as Hlift by (unfold lift; congruence).
  unfold open_session. intros E j Hj.
  apply st_bind_err in E as [E|(? & h1 & [_ ->]%lift_ok & E)]; [apply Hlift in E; by subst|].
  apply st_bind_err in E as [E|(? & h1 & [_ ->]%lift_ok & E)]; [apply Hlift in E; by subst|].
  apply st_bind_err in E as [E|(? & h1 & [_ ->]%lift_ok & E)]; [apply Hlift in E; by subst|].
  apply st_bind_err in E as [E|(? & h1 & [_ ->]%reject_ok & E)]; [unfold reject in E; apply Hlift in E; by subst|].
  apply st_bind_err in E as [E|(k & h1 & Hc & E)]; [apply copy_material_spec in E; by subst|].
  apply copy_material_spec in Hc as (s & Hs & _ & Hk & -> & _). unfold keep_valid in E.
  destruct (IssuedSession_Valid _ _); [done|]. apply pair_equal_spec in E as [_ <-]. unfold IssuedSession_Destroy in Hj. cbn [is_material] in Hj.
  rewrite material_destroy_valid, andb_true_iff, negb_true, bool_decide_eq_false in Hj. destruct Hj as [Hne Hj].
  unfold material_valid in *. simpl in *. by rewrite lookup_insert_ne in Hj by done.
Qed.

(** C26: issuing a session consumes the material it is given: whatever the
    outcome, that buffer is destroyed, and nothing becomes readable that was
    not.  A session that is issued is valid, is bound to the very request,
    lasts between five and fifteen minutes in whole seconds, and owns a new
    buffer with the bytes of the old one. *)
Theorem session_consumes_material (q : Request) (l : cell) (issuedAt expiresAt : time) (h h' : memory) (r : result error IssuedSession) :
  NewIssuedSession q (Some l) issuedAt expiresAt h = (r, h') ->
  material_valid h' (Some l) = false /\
  match r with
  | Ok s => Request_Valid q = true /\ is_binding s = rq_binding q /\ IssuedSession_Valid h' s = true /\
      is_issuedAt s = truncate_second issuedAt /\ is_expiresAt s = truncate_second expiresAt /\
      MinIssuedSessionTTL <= is_expiresAt s - is_issuedAt s <= MaxIssuedSessionTTL /\
      exists k old new, is_material s = Some k /\ h !! k = None /\ h !! l = Some old /\ h' !! k = Some new /\ ms_value new = ms_value old /\
        forall j, j <> k -> material_valid h' (Some j) = true -> material_valid h (Some j) = true
  | Err _ => forall j, material_valid h' (Some j) = true -> material_valid h (Some j) = true
  end.
Proof.
  unfold NewIssuedSession. destruct (open_session q l issuedAt expiresAt h) as [r1 h1] eqn:E. intros [<- <-]%pair_equal_spec.
  split; [rewrite material_destroy_valid, bool_decide_eq_true_2 by done; done|]. destruct r1 as [s|e].
  - unfold open_session in E. run_inv E. apply copy_material_spec in Hr3 as (old & Hold & Huse & Hk & -> & Hlen).
    apply keep_valid_ok in E as (-> & -> & Hv). apply normalizeSessionTime_some in Hr0 as ->, Hr1 as ->.
    apply orb_false_iff in Hr2 as [_ Hd%negb_false%validSessionDuration_true].
    unfold wrap_session in Hr. apply map_err_ok in Hr. destruct (decide (x3 = l)) as [->|Hne]; [congruence|].
    split; [by apply result_ok_true; eexists|]. split; [done|]. split.
    { revert Hv. unfold IssuedSession_Valid. cbn [is_material]. rewrite !andb_true_iff, material_destroy_valid. intros [? ->].
      split; [done|]. by rewrite bool_decide_eq_false_2. }
    split; [done|]. split; [done|]. split; [done|].
    exists x3, old, (MS (ms_value old) MaxSessionMaterialBytes false). split; [done|]. split; [done|]. split; [done|]. split.
    { unfold material_destroy. rewrite (lookup_insert_ne _ _ l) by done. rewrite Hold, lookup_insert_ne by done. apply lookup_insert_eq. }
    split; [done|]. intros j Hj. rewrite material_destroy_valid, andb_true_iff. intros [_ Hv']. unfold material_valid in *. simpl in *.
    by rewrite lookup_insert_ne in Hv' by done.
  - intros j. rewrite material_destroy_valid, andb_true_iff. intros [_ Hj]. by eapply open_session_err.
Qed.

(** ** A concrete request *)

Definition member (key : string) (v : value) : option value :=
  match v with VObject ms => snd <$> list_find (fun m => m.1 = key) ms ≫= fun p => Some p.2 | _ => None end.

Definition string_member (key : string) (v : value) : option string :=
  match member key v with Some (VString s) => Some s | _ => None end.

(** The codec of a connection specification. *)
#[export] Instance connection_spec_codec : TypedJSON ProviderConnectionSpec := {|
  encodeTypedJSON s :=
    Some (VObject [("provider", VString (pcs_Provider s));
      ("credentialRef", VObject [("referenceId", VString (cr_ReferenceID (pcs_CredentialRef s)));
                                 ("version", VString (cr_Version (pcs_CredentialRef s)))])]);
  decodeExactJSON v :=
    provider ← string_member "provider" v; reference ← member "credentialRef" v;
    id ← string_member "referenceId" reference; version ← string_member "version" reference;
    Some (PCS provider (CR id version));
|}.

(** The codec of a connection status, on statuses without observations. *)
#[export] Instance connection_status_codec : TypedJSON ProviderConnectionStatus := {|
  encodeTypedJSON s :=
    match s with
    | PCSt g (Some []) (Some []) (Some []) =>
        Some (VObject [("observedGeneration", VInt g); ("conditions", VArray []); ("capabilities", VArray []); ("quotaChecks", VArray [])])
    | _ => None
    end;
  decodeExactJSON v :=
    match member "observedGeneration" v with Some (VInt g) => Some (PCSt g (Some []) (Some []) (Some [])) | _ => None end;
|}.

#[export] Instance connection_observations : GenerationObservations ProviderConnectionStatus :=
  fun s => observedGenerations (pcst_ObservedGeneration s) (default [] (pcst_Conditions s)).

Definition cd_reference : ID := "secret-0000000000001".
Definition cd_spec (version : string) : ProviderConnectionSpec := PCS "aws" (CR cd_reference version).

Definition cd_connection : result Resource.error (Resource ProviderConnectionSpec ProviderConnectionStatus) :=
  NewResource (Pl h_connection KindProviderConnection h_ws (Some h_env)) "main" ∅ "rv1" (unix_epoch + hour)
    (cd_spec "version-1") (PCSt 1 (Some []) (Some []) (Some [])).

Definition cd_view : ResourceView := RView true Hierarchy.APIVersion KindApplication h_app h_ws (Some h_env) 3.

Definition cd_operation (environment : ID) : Operation :=
  Op "operation-0000000001" h_ws h_app (Some environment) (Some h_connection) 3 "v1" PhaseRunning "" ""
     None "2023-11-14T22:13:20.000Z" "2023-11-14T22:13:20.000Z".

Definition cd_recipient : Recipient := Rcp "aws" "primary".

Definition cd_request (environment : ID) : result error Request :=
  match cd_connection with
  | Ok connection => NewRequest (snapshot_of h_ws h_records) connection cd_view (cd_operation environment) ActionProviderApply cd_recipient
  | Err _ => Err ErrInvalidRequest
  end.

Lemma request_confined_witness : exists q, cd_request h_env = Ok q /\
  rq_provider q = "aws" /\ environment_above (index_of h_records) h_app h_env /\
  cd_request h_env2 = Err (ErrWrap ErrInvalidRequest ErrScopeMismatch).
Proof.
  destruct (cd_request h_env) as [q|] eqn:E; [|vm_compute in E; discriminate]. exists q. split; [reflexivity|].
  unfold cd_request in E. destruct cd_connection as [c|] eqn:Ec; [|discriminate].
  destruct (request_confined h_ws h_records _ c cd_view (cd_operation h_env) ActionProviderApply cd_recipient q h_snapshot_ok E)
    as (_ & _ & _ & _ & Ht & _ & _ & _ & _ & _ & _ & He & _ & _ & Ha & spec & _ & _ & Hp & Hr & _).
  assert (rq_environmentID q = h_env) as Hq by (injection He as ->; reflexivity).
  rewrite Ht, Hq in Ha. split; [rewrite Hp, <- Hr; reflexivity|]. split; [exact Ha|].
  unfold cd_request. clear -Ec. vm_compute in Ec. injection Ec as <-. vm_compute. reflexivity.
Defined.

Definition cd_q : Request := match cd_request h_env with Ok q => q | Err _ => Rq false "" "" "" 0 "" "" KindWorkspace 0 "" ActionProviderApply cd_recipient (SL false "" "" "" 0 "" "" "" (DV false "")) (DV false "") end.

Lemma binding_determines_request_witness : Request_Valid cd_q = true /\
  (cd_q = cd_q \/ collide (binding_frames cd_q) (binding_frames cd_q) \/
   collide (source_frames (rq_source cd_q)) (source_frames (rq_source cd_q))).
Proof.
  assert (Request_Valid cd_q = true) as Hv by (vm_compute; reflexivity).
  assert (request_sized cd_q) as Hs by (split; vm_compute; split; discriminate).
  split; [exact Hv|]. apply (binding_determines_request cd_q cd_q Hv Hv Hs Hs). vm_compute. reflexivity.
Defined.

Definition cd_memory : memory := {[1%positive := MS "token" MaxSessionMaterialBytes false]}.

Lemma session_consumes_material_witness : exists s h', 
  NewIssuedSession cd_q (Some 1%positive) (unix_epoch + hour) (unix_epoch + hour + 10 * minute) cd_memory = (Ok s, h') /\
  material_valid h' (Some 1%positive) = false /\ IssuedSession_Valid h' s = true.
Proof.
  destruct (NewIssuedSession cd_q (Some 1%positive) (unix_epoch + hour) (unix_epoch + hour + 10 * minute) cd_memory) as [r h'] eqn:E.
  destruct r as [s|]; [|vm_compute in E; discriminate]. exists s, h'.
  pose proof (session_consumes_material _ _ _ _ _ _ _ E) as (H1 & _ & _ & H2 & _). split; [reflexivity | split; [exact H1 | exact H2]].
Defined.
