(* ===== verification/BrokerState.v ===== *)
(** * The credential broker: state and locked helpers (credentialbroker)

    The broker keeps, per process: the lineage of each provider connection (its
    current generation, epoch and tombstone), each operation's binding and
    terminal flag, cached source material, issued sessions in shared cells,
    single-flight groups and leases.  Everything is guarded by one mutex; a
    definition here is what the code does while it holds it.

    Objects the code shares by pointer (entries, cells, flights, leases) live in
    heaps and are named by locations.  What a locked section destroys or cancels
    after it has released the mutex is queued in [disposals] and
    [cancellations].  Clock samples, the results of resolvers and issuers and
    cancelled contexts are arguments.  The counters of [Stats] and the issuer
    values (a set of registrations here) have no influence on the state. *)

From S2P Require Import Prelude Bytes GoTime Calendar Digests Hierarchy Identity AuthzVocabulary Authorization.
From S2P Require Import Condition Control Operation Resource Credential.
From Stdlib Require Import Ascii String.

Inductive Failure :=
| ErrInvalid
| ErrConflict
| ErrStale
| ErrRevoked
| ErrOperationTerminated
| ErrExpired
| ErrClosed
| ErrUnavailable
| ErrCapacity
| ErrCredentialRotationRequired
| ErrContext.  (** the error of a cancelled context, returned as it is *)

(** [ports.RevocationResult] *)
Inductive RevocationResult := RevocationNotRequired | RevocationProviderConfirmed | RevocationExpiryBound | RevocationPending.

#[export] Instance Failure_eq : EqDecision Failure.
Proof. solve_decision. Defined.
#[export] Instance RevocationResult_eq : EqDecision RevocationResult.
Proof. solve_decision. Defined.

#[export] Instance digestValue_countable : Countable digestValue.
Proof. by refine (inj_countable' (fun d => (dv_initialized d, dv_digest d)) (fun p => DV p.1 p.2) _); intros []. Defined.

Definition MaxSourceEntries : Z := 500.
Definition MaxSessionEntries : Z := 1000.
Definition MaxActiveLeases : Z := 1000.
Definition MaxTrackedConnections : Z := 500.
Definition MaxTrackedOperations : Z := 10000.
Definition MaxConcurrentResolves : Z := 32.
Definition MaxIssuerRegistrations : Z := 16.
Definition MaxSourceCacheTTL : Z := hour.

(** ** Keys *)

Notation connectionKey := (string * string * string)%type.
Notation operationKey := (string * string * string)%type.
Notation issuerKey := (string * string)%type.
Notation loc := positive.

Definition keyForConnection (q : Request) : connectionKey := (rq_workspaceID q, rq_environmentID q, rq_providerConnectionID q).
Definition keyForOperation (q : Request) : operationKey := (rq_workspaceID q, rq_environmentID q, rq_operationID q).
Definition keyForIssuer (q : Request) : issuerKey := (rq_provider q, rcp_name (rq_recipient q)).

(** ** Objects *)

Record lineageState := LS {
  ln_generation : Z;
  ln_provider : string;
  ln_referenceID : ID;
  ln_version : string;
  ln_sourceDigest : SourceDigest;
  ln_epoch : Z;
  ln_revokedThrough : Z;
  ln_expiryBoundUntil : time;
}.

Record operationState := OS {
  os_binding : BindingDigest;
  os_epoch : Z;
  os_terminal : bool;
  os_expiryBoundUntil : time;
}.

Record sourceEntry := SE {
  se_key : connectionKey;
  se_digest : SourceDigest;
  se_epoch : Z;
  se_material : option cell;
  se_expiresAt : time;
  se_lastUsed : Z;
  se_borrows : Z;
  se_invalid : bool;
  se_retired : bool;
}.

Record flightSource := FS { fs_material : option cell; fs_invalid : bool }.

Record sourceFlight := SFl {
  sf_digest : SourceDigest;
  sf_request : Request;
  sf_connKey : connectionKey;
  sf_connEpoch : Z;
  sf_sourceExpiresAt : time;
  sf_canceled : bool;
  sf_waiters : Z;
  sf_finished : bool;
  sf_abandoned : bool;
  sf_source : loc;
  sf_entry : option loc;
  sf_err : option Failure;
}.

Record revocationAttempt := RA {
  ra_started : bool;
  ra_finished : bool;
  ra_result : RevocationResult;
  ra_err : bool;
}.

(** An attempt belongs to one cell and is named by its location. *)
Record sessionCell := SC {
  sc_request : Request;
  sc_session : IssuedSession;
  sc_connKey : connectionKey;
  sc_opKey : operationKey;
  sc_binding : BindingDigest;
  sc_connEpoch : Z;
  sc_opEpoch : Z;
  sc_lastUsed : Z;
  sc_refs : Z;
  sc_flightPins : Z;
  sc_invalid : bool;
  sc_draining : bool;
  sc_canceled : bool;
  sc_revocation : option revocationAttempt;
}.

Record sessionFlight := SsF {
  fl_request : Request;
  fl_connKey : connectionKey;
  fl_opKey : operationKey;
  fl_binding : BindingDigest;
  fl_connEpoch : Z;
  fl_opEpoch : Z;
  fl_refresh : bool;
  fl_fallback : option loc;
  fl_reserved : bool;
  fl_pinned : option loc;
  fl_canceled : bool;
  fl_waiters : Z;
  fl_finished : bool;
  fl_abandoned : bool;
  fl_cell : option loc;
  fl_revocation : RevocationResult;
  fl_err : option Failure;
}.

Record rotationFlight := RF {
  rf_request : Request;
  rf_connKey : connectionKey;
  rf_binding : BindingDigest;
  rf_fromEpoch : Z;
  rf_fromGen : Z;
  rf_canceled : bool;
  rf_waiters : Z;
  rf_finished : bool;
  rf_abandoned : bool;
  rf_cell : option loc;
  rf_source : loc;
  rf_reserved : bool;
  rf_sourceExpiresAt : time;
  rf_sourceReserved : bool;
  rf_resolveActive : bool;
  rf_operationReserved : bool;
  rf_leaseReserved : Z;
  rf_committed : bool;
  rf_leases : list loc;
  rf_revocation : RevocationResult;
  rf_err : option Failure;
}.

(** [Lease.Close] is two locked sections: [closed] is set in the first, the count
    given back in the second.  A lease between them is [LeaseClosing]. *)
Inductive leaseStatus := LeaseOpen | LeaseClosing | LeaseReleased.
#[export] Instance leaseStatus_eq_dec : EqDecision leaseStatus.
Proof. solve_decision. Defined.

Record leaseState := LeS { ls_cell : loc; ls_status : leaseStatus }.

(** [state.closed] *)
Definition ls_closed (x : leaseState) : bool := negb (bool_decide (ls_status x = LeaseOpen)).

(** What a locked section leaves to be destroyed or cancelled outside it. *)
Inductive disposal := DFlightSource (source : loc) | DSource (material : cell) | DSession (session : IssuedSession).
Inductive cancellation := CSourceFlight (flight : loc) | CSessionFlight (flight : loc) | CRotation (flight : loc) | CCell (cell : loc).

(** ** The broker *)

(** Who may hold authority: lineages, operations, epochs. *)
Record authority := Auth {
  au_lineages : gmap connectionKey lineageState;
  au_operations : gmap operationKey operationState;
  au_nextEpoch : Z;
  au_closed : bool;
}.

(** Cached source material and its flights. *)
Record sourcing := Srcs {
  so_sources : gmap SourceDigest loc;
  so_retiredSources : gset loc;
  so_sourceFlights : gmap SourceDigest loc;
  so_entryHeap : gmap loc sourceEntry;
  so_sourceHeap : gmap loc flightSource;
  so_sourceFlightHeap : gmap loc sourceFlight;
  so_activeResolves : Z;
  so_sourceReservations : Z;
}.

(** Session cells and the flights that fill them. *)
Record serving := Sess {
  sv_sessions : gmap BindingDigest loc;
  sv_cells : gset loc;
  sv_sessionFlights : gmap BindingDigest loc;
  sv_rotations : gmap connectionKey loc;
  sv_cellHeap : gmap loc sessionCell;
  sv_flightHeap : gmap loc sessionFlight;
  sv_rotationHeap : gmap loc rotationFlight;
  sv_sessionReservations : Z;
}.

(** Leases and what is reserved for them. *)
Record leasing := Leas {
  le_leaseHeap : gmap loc leaseState;
  le_activeLeases : Z;
  le_leaseReservations : Z;
  le_operationReservations : Z;
}.

(** The clock fence and the use counter. *)
Record timing := Tim {
  ti_clockSamples : Z;
  ti_lastClockSample : Z;
  ti_lastNow : time;
  ti_nextUse : Z;
}.

(** Material, and what is destroyed or cancelled after the lock is released. *)
Record outside := Outs {
  ou_material : memory;
  ou_disposals : list disposal;
  ou_cancellations : list cancellation;
}.

Record Broker := Brk {
  b_issuers : gset issuerKey;
  b_authority : authority;
  b_sourcing : sourcing;
  b_serving : serving;
  b_leasing : leasing;
  b_timing : timing;
  b_outside : outside;
}.

Definition lineages (b : Broker) : gmap connectionKey lineageState := au_lineages (b_authority b).
Definition operations (b : Broker) : gmap operationKey operationState := au_operations (b_authority b).
Definition nextEpoch (b : Broker) : Z := au_nextEpoch (b_authority b).
Definition closed (b : Broker) : bool := au_closed (b_authority b).
Definition sources (b : Broker) : gmap SourceDigest loc := so_sources (b_sourcing b).
Definition retiredSources (b : Broker) : gset loc := so_retiredSources (b_sourcing b).
Definition sourceFlights (b : Broker) : gmap SourceDigest loc := so_sourceFlights (b_sourcing b).
Definition entryHeap (b : Broker) : gmap loc sourceEntry := so_entryHeap (b_sourcing b).
Definition sourceHeap (b : Broker) : gmap loc flightSource := so_sourceHeap (b_sourcing b).
Definition sourceFlightHeap (b : Broker) : gmap loc sourceFlight := so_sourceFlightHeap (b_sourcing b).
Definition activeResolves (b : Broker) : Z := so_activeResolves (b_sourcing b).
Definition sourceReservations (b : Broker) : Z := so_sourceReservations (b_sourcing b).
Definition sessions (b : Broker) : gmap BindingDigest loc := sv_sessions (b_serving b).
Definition cells (b : Broker) : gset loc := sv_cells (b_serving b).
Definition sessionFlights (b : Broker) : gmap BindingDigest loc := sv_sessionFlights (b_serving b).
Definition rotations (b : Broker) : gmap connectionKey loc := sv_rotations (b_serving b).
Definition cellHeap (b : Broker) : gmap loc sessionCell := sv_cellHeap (b_serving b).
Definition flightHeap (b : Broker) : gmap loc sessionFlight := sv_flightHeap (b_serving b).
Definition rotationHeap (b : Broker) : gmap loc rotationFlight := sv_rotationHeap (b_serving b).
Definition sessionReservations (b : Broker) : Z := sv_sessionReservations (b_serving b).
Definition leaseHeap (b : Broker) : gmap loc leaseState := le_leaseHeap (b_leasing b).
Definition activeLeases (b : Broker) : Z := le_activeLeases (b_leasing b).
Definition leaseReservations (b : Broker) : Z := le_leaseReservations (b_leasing b).
Definition operationReservations (b : Broker) : Z := le_operationReservations (b_leasing b).
Definition clockSamples (b : Broker) : Z := ti_clockSamples (b_timing b).
Definition lastClockSample (b : Broker) : Z := ti_lastClockSample (b_timing b).
Definition lastNow (b : Broker) : time := ti_lastNow (b_timing b).
Definition nextUse (b : Broker) : Z := ti_nextUse (b_timing b).
Definition material (b : Broker) : memory := ou_material (b_outside b).
Definition disposals (b : Broker) : list disposal := ou_disposals (b_outside b).
Definition cancellations (b : Broker) : list cancellation := ou_cancellations (b_outside b).

Definition set_issuers (v : gset issuerKey) (b : Broker) : Broker :=
  Brk v (b_authority b) (b_sourcing b) (b_serving b) (b_leasing b) (b_timing b) (b_outside b).
Definition set_authority (v : authority) (b : Broker) : Broker :=
  Brk (b_issuers b) v (b_sourcing b) (b_serving b) (b_leasing b) (b_timing b) (b_outside b).
Definition set_sourcing (v : sourcing) (b : Broker) : Broker :=
  Brk (b_issuers b) (b_authority b) v (b_serving b) (b_leasing b) (b_timing b) (b_outside b).
Definition set_serving (v : serving) (b : Broker) : Broker :=
  Brk (b_issuers b) (b_authority b) (b_sourcing b) v (b_leasing b) (b_timing b) (b_outside b).
Definition set_leasing (v : leasing) (b : Broker) : Broker :=
  Brk (b_issuers b) (b_authority b) (b_sourcing b) (b_serving b) v (b_timing b) (b_outside b).
Definition set_timing (v : timing) (b : Broker) : Broker :=
  Brk (b_issuers b) (b_authority b) (b_sourcing b) (b_serving b) (b_leasing b) v (b_outside b).
Definition set_outside (v : outside) (b : Broker) : Broker :=
  Brk (b_issuers b) (b_authority b) (b_sourcing b) (b_serving b) (b_leasing b) (b_timing b) v.
Definition set_lineages (v : gmap connectionKey lineageState) (b : Broker) : Broker :=
  set_authority (Auth v (operations b) (nextEpoch b) (closed b)) b.
Definition set_operations (v : gmap operationKey operationState) (b : Broker) : Broker :=
  set_authority (Auth (lineages b) v (nextEpoch b) (closed b)) b.
Definition set_nextEpoch (v : Z) (b : Broker) : Broker :=
  set_authority (Auth (lineages b) (operations b) v (closed b)) b.
Definition set_closed (v : bool) (b : Broker) : Broker :=
  set_authority (Auth (lineages b) (operations b) (nextEpoch b) v) b.
Definition set_sources (v : gmap SourceDigest loc) (b : Broker) : Broker :=
  set_sourcing (Srcs v (retiredSources b) (sourceFlights b) (entryHeap b) (sourceHeap b) (sourceFlightHeap b) (activeResolves b) (sourceReservations b)) b.
Definition set_retiredSources (v : gset loc) (b : Broker) : Broker :=
  set_sourcing (Srcs (sources b) v (sourceFlights b) (entryHeap b) (sourceHeap b) (sourceFlightHeap b) (activeResolves b) (sourceReservations b)) b.
Definition set_sourceFlights (v : gmap SourceDigest loc) (b : Broker) : Broker :=
  set_sourcing (Srcs (sources b) (retiredSources b) v (entryHeap b) (sourceHeap b) (sourceFlightHeap b) (activeResolves b) (sourceReservations b)) b.
Definition set_entryHeap (v : gmap loc sourceEntry) (b : Broker) : Broker :=
  set_sourcing (Srcs (sources b) (retiredSources b) (sourceFlights b) v (sourceHeap b) (sourceFlightHeap b) (activeResolves b) (sourceReservations b)) b.
Definition set_sourceHeap (v : gmap loc flightSource) (b : Broker) : Broker :=
  set_sourcing (Srcs (sources b) (retiredSources b) (sourceFlights b) (entryHeap b) v (sourceFlightHeap b) (activeResolves b) (sourceReservations b)) b.
Definition set_sourceFlightHeap (v : gmap loc sourceFlight) (b : Broker) : Broker :=
  set_sourcing (Srcs (sources b) (retiredSources b) (sourceFlights b) (entryHeap b) (sourceHeap b) v (activeResolves b) (sourceReservations b)) b.
Definition set_activeResolves (v : Z) (b : Broker) : Broker :=
  set_sourcing (Srcs (sources b) (retiredSources b) (sourceFlights b) (entryHeap b) (sourceHeap b) (sourceFlightHeap b) v (sourceReservations b)) b.
Definition set_sourceReservations (v : Z) (b : Broker) : Broker :=
  set_sourcing (Srcs (sources b) (retiredSources b) (sourceFlights b) (entryHeap b) (sourceHeap b) (sourceFlightHeap b) (activeResolves b) v) b.
Definition set_sessions (v : gmap BindingDigest loc) (b : Broker) : Broker :=
  set_serving (Sess v (cells b) (sessionFlights b) (rotations b) (cellHeap b) (flightHeap b) (rotationHeap b) (sessionReservations b)) b.
Definition set_cells (v : gset loc) (b : Broker) : Broker :=
  set_serving (Sess (sessions b) v (sessionFlights b) (rotations b) (cellHeap b) (flightHeap b) (rotationHeap b) (sessionReservations b)) b.
Definition set_sessionFlights (v : gmap BindingDigest loc) (b : Broker) : Broker :=
  set_serving (Sess (sessions b) (cells b) v (rotations b) (cellHeap b) (flightHeap b) (rotationHeap b) (sessionReservations b)) b.
Definition set_rotations (v : gmap connectionKey loc) (b : Broker) : Broker :=
  set_serving (Sess (sessions b) (cells b) (sessionFlights b) v (cellHeap b) (flightHeap b) (rotationHeap b) (sessionReservations b)) b.
Definition set_cellHeap (v : gmap loc sessionCell) (b : Broker) : Broker :=
  set_serving (Sess (sessions b) (cells b) (sessionFlights b) (rotations b) v (flightHeap b) (rotationHeap b) (sessionReservations b)) b.
Definition set_flightHeap (v : gmap loc sessionFlight) (b : Broker) : Broker :=
  set_serving (Sess (sessions b) (cells b) (sessionFlights b) (rotations b) (cellHeap b) v (rotationHeap b) (sessionReservations b)) b.
Definition set_rotationHeap (v : gmap loc rotationFlight) (b : Broker) : Broker :=
  set_serving (Sess (sessions b) (cells b) (sessionFlights b) (rotations b) (cellHeap b) (flightHeap b) v (sessionReservations b)) b.
Definition set_sessionReservations (v : Z) (b : Broker) : Broker :=
  set_serving (Sess (sessions b) (cells b) (sessionFlights b) (rotations b) (cellHeap b) (flightHeap b) (rotationHeap b) v) b.
Definition set_leaseHeap (v : gmap loc leaseState) (b : Broker) : Broker :=
  set_leasing (Leas v (activeLeases b) (leaseReservations b) (operationReservations b)) b.
Definition set_activeLeases (v : Z) (b : Broker) : Broker :=
  set_leasing (Leas (leaseHeap b) v (leaseReservations b) (operationReservations b)) b.
Definition set_leaseReservations (v : Z) (b : Broker) : Broker :=
  set_leasing (Leas (leaseHeap b) (activeLeases b) v (operationReservations b)) b.
Definition set_operationReservations (v : Z) (b : Broker) : Broker :=
  set_leasing (Leas (leaseHeap b) (activeLeases b) (leaseReservations b) v) b.
Definition set_clockSamples (v : Z) (b : Broker) : Broker :=
  set_timing (Tim v (lastClockSample b) (lastNow b) (nextUse b)) b.
Definition set_lastClockSample (v : Z) (b : Broker) : Broker :=
  set_timing (Tim (clockSamples b) v (lastNow b) (nextUse b)) b.
Definition set_lastNow (v : time) (b : Broker) : Broker :=
  set_timing (Tim (clockSamples b) (lastClockSample b) v (nextUse b)) b.
Definition set_nextUse (v : Z) (b : Broker) : Broker :=
  set_timing (Tim (clockSamples b) (lastClockSample b) (lastNow b) v) b.
Definition set_material (v : memory) (b : Broker) : Broker :=
  set_outside (Outs v (disposals b) (cancellations b)) b.
Definition set_disposals (v : list disposal) (b : Broker) : Broker :=
  set_outside (Outs (material b) v (cancellations b)) b.
Definition set_cancellations (v : list cancellation) (b : Broker) : Broker :=
  set_outside (Outs (material b) (disposals b) v) b.

(** ** Field updates *)

Definition ln_set_epoch (v : Z) (o : lineageState) : lineageState :=
  LS (ln_generation o) (ln_provider o) (ln_referenceID o) (ln_version o) (ln_sourceDigest o) v (ln_revokedThrough o)
  (ln_expiryBoundUntil o).
Definition ln_set_revokedThrough (v : Z) (o : lineageState) : lineageState :=
  LS (ln_generation o) (ln_provider o) (ln_referenceID o) (ln_version o) (ln_sourceDigest o) (ln_epoch o) v
  (ln_expiryBoundUntil o).
Definition ln_set_expiryBoundUntil (v : time) (o : lineageState) : lineageState :=
  LS (ln_generation o) (ln_provider o) (ln_referenceID o) (ln_version o) (ln_sourceDigest o) (ln_epoch o) (ln_revokedThrough
  o) v.
Definition os_set_expiryBoundUntil (v : time) (o : operationState) : operationState :=
  OS (os_binding o) (os_epoch o) (os_terminal o) v.
Definition se_set_lastUsed (v : Z) (o : sourceEntry) : sourceEntry :=
  SE (se_key o) (se_digest o) (se_epoch o) (se_material o) (se_expiresAt o) v (se_borrows o) (se_invalid o) (se_retired o).
Definition se_set_borrows (v : Z) (o : sourceEntry) : sourceEntry :=
  SE (se_key o) (se_digest o) (se_epoch o) (se_material o) (se_expiresAt o) (se_lastUsed o) v (se_invalid o) (se_retired o).
Definition se_set_invalid (v : bool) (o : sourceEntry) : sourceEntry :=
  SE (se_key o) (se_digest o) (se_epoch o) (se_material o) (se_expiresAt o) (se_lastUsed o) (se_borrows o) v (se_retired o).
Definition se_set_retired (v : bool) (o : sourceEntry) : sourceEntry :=
  SE (se_key o) (se_digest o) (se_epoch o) (se_material o) (se_expiresAt o) (se_lastUsed o) (se_borrows o) (se_invalid o) v.
Definition sf_set_sourceExpiresAt (v : time) (o : sourceFlight) : sourceFlight :=
  SFl (sf_digest o) (sf_request o) (sf_connKey o) (sf_connEpoch o) v (sf_canceled o) (sf_waiters o) (sf_finished o)
  (sf_abandoned o) (sf_source o) (sf_entry o) (sf_err o).
Definition sf_set_canceled (v : bool) (o : sourceFlight) : sourceFlight :=
  SFl (sf_digest o) (sf_request o) (sf_connKey o) (sf_connEpoch o) (sf_sourceExpiresAt o) v (sf_waiters o) (sf_finished o)
  (sf_abandoned o) (sf_source o) (sf_entry o) (sf_err o).
Definition sf_set_waiters (v : Z) (o : sourceFlight) : sourceFlight :=
  SFl (sf_digest o) (sf_request o) (sf_connKey o) (sf_connEpoch o) (sf_sourceExpiresAt o) (sf_canceled o) v (sf_finished o)
  (sf_abandoned o) (sf_source o) (sf_entry o) (sf_err o).
Definition sf_set_finished (v : bool) (o : sourceFlight) : sourceFlight :=
  SFl (sf_digest o) (sf_request o) (sf_connKey o) (sf_connEpoch o) (sf_sourceExpiresAt o) (sf_canceled o) (sf_waiters o) v
  (sf_abandoned o) (sf_source o) (sf_entry o) (sf_err o).
Definition sf_set_abandoned (v : bool) (o : sourceFlight) : sourceFlight :=
  SFl (sf_digest o) (sf_request o) (sf_connKey o) (sf_connEpoch o) (sf_sourceExpiresAt o) (sf_canceled o) (sf_waiters o)
  (sf_finished o) v (sf_source o) (sf_entry o) (sf_err o).
Definition sf_set_entry (v : option loc) (o : sourceFlight) : sourceFlight :=
  SFl (sf_digest o) (sf_request o) (sf_connKey o) (sf_connEpoch o) (sf_sourceExpiresAt o) (sf_canceled o) (sf_waiters o)
  (sf_finished o) (sf_abandoned o) (sf_source o) v (sf_err o).
Definition sf_set_err (v : option Failure) (o : sourceFlight) : sourceFlight :=
  SFl (sf_digest o) (sf_request o) (sf_connKey o) (sf_connEpoch o) (sf_sourceExpiresAt o) (sf_canceled o) (sf_waiters o)
  (sf_finished o) (sf_abandoned o) (sf_source o) (sf_entry o) v.
Definition sc_set_lastUsed (v : Z) (o : sessionCell) : sessionCell :=
  SC (sc_request o) (sc_session o) (sc_connKey o) (sc_opKey o) (sc_binding o) (sc_connEpoch o) (sc_opEpoch o) v (sc_refs o)
  (sc_flightPins o) (sc_invalid o) (sc_draining o) (sc_canceled o) (sc_revocation o).
Definition sc_set_refs (v : Z) (o : sessionCell) : sessionCell :=
  SC (sc_request o) (sc_session o) (sc_connKey o) (sc_opKey o) (sc_binding o) (sc_connEpoch o) (sc_opEpoch o) (sc_lastUsed o)
  v (sc_flightPins o) (sc_invalid o) (sc_draining o) (sc_canceled o) (sc_revocation o).
Definition sc_set_flightPins (v : Z) (o : sessionCell) : sessionCell :=
  SC (sc_request o) (sc_session o) (sc_connKey o) (sc_opKey o) (sc_binding o) (sc_connEpoch o) (sc_opEpoch o) (sc_lastUsed o)
  (sc_refs o) v (sc_invalid o) (sc_draining o) (sc_canceled o) (sc_revocation o).
Definition sc_set_invalid (v : bool) (o : sessionCell) : sessionCell :=
  SC (sc_request o) (sc_session o) (sc_connKey o) (sc_opKey o) (sc_binding o) (sc_connEpoch o) (sc_opEpoch o) (sc_lastUsed o)
  (sc_refs o) (sc_flightPins o) v (sc_draining o) (sc_canceled o) (sc_revocation o).
Definition sc_set_draining (v : bool) (o : sessionCell) : sessionCell :=
  SC (sc_request o) (sc_session o) (sc_connKey o) (sc_opKey o) (sc_binding o) (sc_connEpoch o) (sc_opEpoch o) (sc_lastUsed o)
  (sc_refs o) (sc_flightPins o) (sc_invalid o) v (sc_canceled o) (sc_revocation o).
Definition sc_set_canceled (v : bool) (o : sessionCell) : sessionCell :=
  SC (sc_request o) (sc_session o) (sc_connKey o) (sc_opKey o) (sc_binding o) (sc_connEpoch o) (sc_opEpoch o) (sc_lastUsed o)
  (sc_refs o) (sc_flightPins o) (sc_invalid o) (sc_draining o) v (sc_revocation o).
Definition sc_set_revocation (v : option revocationAttempt) (o : sessionCell) : sessionCell :=
  SC (sc_request o) (sc_session o) (sc_connKey o) (sc_opKey o) (sc_binding o) (sc_connEpoch o) (sc_opEpoch o) (sc_lastUsed o)
  (sc_refs o) (sc_flightPins o) (sc_invalid o) (sc_draining o) (sc_canceled o) v.
Definition fl_set_reserved (v : bool) (o : sessionFlight) : sessionFlight :=
  SsF (fl_request o) (fl_connKey o) (fl_opKey o) (fl_binding o) (fl_connEpoch o) (fl_opEpoch o) (fl_refresh o) (fl_fallback o)
  v (fl_pinned o) (fl_canceled o) (fl_waiters o) (fl_finished o) (fl_abandoned o) (fl_cell o) (fl_revocation o) (fl_err o).
Definition fl_set_pinned (v : option loc) (o : sessionFlight) : sessionFlight :=
  SsF (fl_request o) (fl_connKey o) (fl_opKey o) (fl_binding o) (fl_connEpoch o) (fl_opEpoch o) (fl_refresh o) (fl_fallback o)
  (fl_reserved o) v (fl_canceled o) (fl_waiters o) (fl_finished o) (fl_abandoned o) (fl_cell o) (fl_revocation o) (fl_err o).
Definition fl_set_canceled (v : bool) (o : sessionFlight) : sessionFlight :=
  SsF (fl_request o) (fl_connKey o) (fl_opKey o) (fl_binding o) (fl_connEpoch o) (fl_opEpoch o) (fl_refresh o) (fl_fallback o)
  (fl_reserved o) (fl_pinned o) v (fl_waiters o) (fl_finished o) (fl_abandoned o) (fl_cell o) (fl_revocation o) (fl_err o).
Definition fl_set_waiters (v : Z) (o : sessionFlight) : sessionFlight :=
  SsF (fl_request o) (fl_connKey o) (fl_opKey o) (fl_binding o) (fl_connEpoch o) (fl_opEpoch o) (fl_refresh o) (fl_fallback o)
  (fl_reserved o) (fl_pinned o) (fl_canceled o) v (fl_finished o) (fl_abandoned o) (fl_cell o) (fl_revocation o) (fl_err o).
Definition fl_set_finished (v : bool) (o : sessionFlight) : sessionFlight :=
  SsF (fl_request o) (fl_connKey o) (fl_opKey o) (fl_binding o) (fl_connEpoch o) (fl_opEpoch o) (fl_refresh o) (fl_fallback o)
  (fl_reserved o) (fl_pinned o) (fl_canceled o) (fl_waiters o) v (fl_abandoned o) (fl_cell o) (fl_revocation o) (fl_err o).
Definition fl_set_abandoned (v : bool) (o : sessionFlight) : sessionFlight :=
  SsF (fl_request o) (fl_connKey o) (fl_opKey o) (fl_binding o) (fl_connEpoch o) (fl_opEpoch o) (fl_refresh o) (fl_fallback o)
  (fl_reserved o) (fl_pinned o) (fl_canceled o) (fl_waiters o) (fl_finished o) v (fl_cell o) (fl_revocation o) (fl_err o).
Definition fl_set_cell (v : option loc) (o : sessionFlight) : sessionFlight :=
  SsF (fl_request o) (fl_connKey o) (fl_opKey o) (fl_binding o) (fl_connEpoch o) (fl_opEpoch o) (fl_refresh o) (fl_fallback o)
  (fl_reserved o) (fl_pinned o) (fl_canceled o) (fl_waiters o) (fl_finished o) (fl_abandoned o) v (fl_revocation o) (fl_err
  o).
Definition fl_set_revocation (v : RevocationResult) (o : sessionFlight) : sessionFlight :=
  SsF (fl_request o) (fl_connKey o) (fl_opKey o) (fl_binding o) (fl_connEpoch o) (fl_opEpoch o) (fl_refresh o) (fl_fallback o)
  (fl_reserved o) (fl_pinned o) (fl_canceled o) (fl_waiters o) (fl_finished o) (fl_abandoned o) (fl_cell o) v (fl_err o).
Definition fl_set_err (v : option Failure) (o : sessionFlight) : sessionFlight :=
  SsF (fl_request o) (fl_connKey o) (fl_opKey o) (fl_binding o) (fl_connEpoch o) (fl_opEpoch o) (fl_refresh o) (fl_fallback o)
  (fl_reserved o) (fl_pinned o) (fl_canceled o) (fl_waiters o) (fl_finished o) (fl_abandoned o) (fl_cell o) (fl_revocation o)
  v.
Definition rf_set_canceled (v : bool) (o : rotationFlight) : rotationFlight :=
  RF (rf_request o) (rf_connKey o) (rf_binding o) (rf_fromEpoch o) (rf_fromGen o) v (rf_waiters o) (rf_finished o)
  (rf_abandoned o) (rf_cell o) (rf_source o) (rf_reserved o) (rf_sourceExpiresAt o) (rf_sourceReserved o) (rf_resolveActive o)
  (rf_operationReserved o) (rf_leaseReserved o) (rf_committed o) (rf_leases o) (rf_revocation o) (rf_err o).
Definition rf_set_waiters (v : Z) (o : rotationFlight) : rotationFlight :=
  RF (rf_request o) (rf_connKey o) (rf_binding o) (rf_fromEpoch o) (rf_fromGen o) (rf_canceled o) v (rf_finished o)
  (rf_abandoned o) (rf_cell o) (rf_source o) (rf_reserved o) (rf_sourceExpiresAt o) (rf_sourceReserved o) (rf_resolveActive o)
  (rf_operationReserved o) (rf_leaseReserved o) (rf_committed o) (rf_leases o) (rf_revocation o) (rf_err o).
Definition rf_set_finished (v : bool) (o : rotationFlight) : rotationFlight :=
  RF (rf_request o) (rf_connKey o) (rf_binding o) (rf_fromEpoch o) (rf_fromGen o) (rf_canceled o) (rf_waiters o) v
  (rf_abandoned o) (rf_cell o) (rf_source o) (rf_reserved o) (rf_sourceExpiresAt o) (rf_sourceReserved o) (rf_resolveActive o)
  (rf_operationReserved o) (rf_leaseReserved o) (rf_committed o) (rf_leases o) (rf_revocation o) (rf_err o).
Definition rf_set_abandoned (v : bool) (o : rotationFlight) : rotationFlight :=
  RF (rf_request o) (rf_connKey o) (rf_binding o) (rf_fromEpoch o) (rf_fromGen o) (rf_canceled o) (rf_waiters o) (rf_finished
  o) v (rf_cell o) (rf_source o) (rf_reserved o) (rf_sourceExpiresAt o) (rf_sourceReserved o) (rf_resolveActive o)
  (rf_operationReserved o) (rf_leaseReserved o) (rf_committed o) (rf_leases o) (rf_revocation o) (rf_err o).
Definition rf_set_cell (v : option loc) (o : rotationFlight) : rotationFlight :=
  RF (rf_request o) (rf_connKey o) (rf_binding o) (rf_fromEpoch o) (rf_fromGen o) (rf_canceled o) (rf_waiters o) (rf_finished
  o) (rf_abandoned o) v (rf_source o) (rf_reserved o) (rf_sourceExpiresAt o) (rf_sourceReserved o) (rf_resolveActive o)
  (rf_operationReserved o) (rf_leaseReserved o) (rf_committed o) (rf_leases o) (rf_revocation o) (rf_err o).
Definition rf_set_reserved (v : bool) (o : rotationFlight) : rotationFlight :=
  RF (rf_request o) (rf_connKey o) (rf_binding o) (rf_fromEpoch o) (rf_fromGen o) (rf_canceled o) (rf_waiters o) (rf_finished
  o) (rf_abandoned o) (rf_cell o) (rf_source o) v (rf_sourceExpiresAt o) (rf_sourceReserved o) (rf_resolveActive o)
  (rf_operationReserved o) (rf_leaseReserved o) (rf_committed o) (rf_leases o) (rf_revocation o) (rf_err o).
Definition rf_set_sourceExpiresAt (v : time) (o : rotationFlight) : rotationFlight :=
  RF (rf_request o) (rf_connKey o) (rf_binding o) (rf_fromEpoch o) (rf_fromGen o) (rf_canceled o) (rf_waiters o) (rf_finished
  o) (rf_abandoned o) (rf_cell o) (rf_source o) (rf_reserved o) v (rf_sourceReserved o) (rf_resolveActive o)
  (rf_operationReserved o) (rf_leaseReserved o) (rf_committed o) (rf_leases o) (rf_revocation o) (rf_err o).
Definition rf_set_sourceReserved (v : bool) (o : rotationFlight) : rotationFlight :=
  RF (rf_request o) (rf_connKey o) (rf_binding o) (rf_fromEpoch o) (rf_fromGen o) (rf_canceled o) (rf_waiters o) (rf_finished
  o) (rf_abandoned o) (rf_cell o) (rf_source o) (rf_reserved o) (rf_sourceExpiresAt o) v (rf_resolveActive o)
  (rf_operationReserved o) (rf_leaseReserved o) (rf_committed o) (rf_leases o) (rf_revocation o) (rf_err o).
Definition rf_set_resolveActive (v : bool) (o : rotationFlight) : rotationFlight :=
  RF (rf_request o) (rf_connKey o) (rf_binding o) (rf_fromEpoch o) (rf_fromGen o) (rf_canceled o) (rf_waiters o) (rf_finished
  o) (rf_abandoned o) (rf_cell o) (rf_source o) (rf_reserved o) (rf_sourceExpiresAt o) (rf_sourceReserved o) v
  (rf_operationReserved o) (rf_leaseReserved o) (rf_committed o) (rf_leases o) (rf_revocation o) (rf_err o).
Definition rf_set_operationReserved (v : bool) (o : rotationFlight) : rotationFlight :=
  RF (rf_request o) (rf_connKey o) (rf_binding o) (rf_fromEpoch o) (rf_fromGen o) (rf_canceled o) (rf_waiters o) (rf_finished
  o) (rf_abandoned o) (rf_cell o) (rf_source o) (rf_reserved o) (rf_sourceExpiresAt o) (rf_sourceReserved o) (rf_resolveActive
  o) v (rf_leaseReserved o) (rf_committed o) (rf_leases o) (rf_revocation o) (rf_err o).
Definition rf_set_leaseReserved (v : Z) (o : rotationFlight) : rotationFlight :=
  RF (rf_request o) (rf_connKey o) (rf_binding o) (rf_fromEpoch o) (rf_fromGen o) (rf_canceled o) (rf_waiters o) (rf_finished
  o) (rf_abandoned o) (rf_cell o) (rf_source o) (rf_reserved o) (rf_sourceExpiresAt o) (rf_sourceReserved o) (rf_resolveActive
  o) (rf_operationReserved o) v (rf_committed o) (rf_leases o) (rf_revocation o) (rf_err o).
Definition rf_set_committed (v : bool) (o : rotationFlight) : rotationFlight :=
  RF (rf_request o) (rf_connKey o) (rf_binding o) (rf_fromEpoch o) (rf_fromGen o) (rf_canceled o) (rf_waiters o) (rf_finished
  o) (rf_abandoned o) (rf_cell o) (rf_source o) (rf_reserved o) (rf_sourceExpiresAt o) (rf_sourceReserved o) (rf_resolveActive
  o) (rf_operationReserved o) (rf_leaseReserved o) v (rf_leases o) (rf_revocation o) (rf_err o).
Definition rf_set_leases (v : list loc) (o : rotationFlight) : rotationFlight :=
  RF (rf_request o) (rf_connKey o) (rf_binding o) (rf_fromEpoch o) (rf_fromGen o) (rf_canceled o) (rf_waiters o) (rf_finished
  o) (rf_abandoned o) (rf_cell o) (rf_source o) (rf_reserved o) (rf_sourceExpiresAt o) (rf_sourceReserved o) (rf_resolveActive
  o) (rf_operationReserved o) (rf_leaseReserved o) (rf_committed o) v (rf_revocation o) (rf_err o).
Definition rf_set_revocation (v : RevocationResult) (o : rotationFlight) : rotationFlight :=
  RF (rf_request o) (rf_connKey o) (rf_binding o) (rf_fromEpoch o) (rf_fromGen o) (rf_canceled o) (rf_waiters o) (rf_finished
  o) (rf_abandoned o) (rf_cell o) (rf_source o) (rf_reserved o) (rf_sourceExpiresAt o) (rf_sourceReserved o) (rf_resolveActive
  o) (rf_operationReserved o) (rf_leaseReserved o) (rf_committed o) (rf_leases o) v (rf_err o).
Definition rf_set_err (v : option Failure) (o : rotationFlight) : rotationFlight :=
  RF (rf_request o) (rf_connKey o) (rf_binding o) (rf_fromEpoch o) (rf_fromGen o) (rf_canceled o) (rf_waiters o) (rf_finished
  o) (rf_abandoned o) (rf_cell o) (rf_source o) (rf_reserved o) (rf_sourceExpiresAt o) (rf_sourceReserved o) (rf_resolveActive
  o) (rf_operationReserved o) (rf_leaseReserved o) (rf_committed o) (rf_leases o) (rf_revocation o) v.

(** The updates of the objects in the heaps. *)
Definition upd_lineage (k : connectionKey) (f : lineageState -> lineageState) (b : Broker) : Broker := set_lineages (alter f k (lineages b)) b.
Definition upd_operation (k : operationKey) (f : operationState -> operationState) (b : Broker) : Broker := set_operations (alter f k (operations b)) b.
Definition upd_entry (l : loc) (f : sourceEntry -> sourceEntry) (b : Broker) : Broker := set_entryHeap (alter f l (entryHeap b)) b.
Definition upd_source_flight (l : loc) (f : sourceFlight -> sourceFlight) (b : Broker) : Broker := set_sourceFlightHeap (alter f l (sourceFlightHeap b)) b.
Definition upd_cell (l : loc) (f : sessionCell -> sessionCell) (b : Broker) : Broker := set_cellHeap (alter f l (cellHeap b)) b.
Definition upd_flight (l : loc) (f : sessionFlight -> sessionFlight) (b : Broker) : Broker := set_flightHeap (alter f l (flightHeap b)) b.
Definition upd_rotation (l : loc) (f : rotationFlight -> rotationFlight) (b : Broker) : Broker := set_rotationHeap (alter f l (rotationHeap b)) b.

(** ** Programs *)

Definition locked (A : Type) : Type := ST Broker Failure A.
Definition gets {A} (f : Broker -> A) : locked A := fun b => (Ok (f b), b).
Definition modify (f : Broker -> Broker) : locked unit := fun b => (Ok tt, f b).
Definition when (c : bool) (m : locked unit) : locked unit := if c then m else mret tt.
Definition the {A} (o : option A) : locked A := lift (of_option o ErrUnavailable).

(** A loop over the objects of a Go map, in some order. *)
Fixpoint for_each {X} (f : X -> locked unit) (l : list X) : locked unit :=
  match l with [] => mret tt | x :: rest => f x;; for_each f rest end.

Definition at_least_zero (x : Z) : Z := if 0 <? x then x - 1 else x.

(** ** Clock, epochs, use counter *)

Record clockSample := Smp { cs_sequence : Z; cs_observed : time; cs_failed : bool }.

(** [sampleNow]: the sequence number is taken before the clock is read. *)
Definition sampleNow (observed : time) : locked clockSample :=
  current ← gets clockSamples;
  if current =? max_uint64 then mret (Smp 0 zero_time true) else
  modify (set_clockSamples (current + 1));;
  mret (Smp (current + 1) observed false).

Definition observeNowLocked (sample : clockSample) : locked time :=
  reject (cs_sequence sample =? 0) ErrUnavailable;;
  last ← gets lastClockSample;
  now ← gets lastNow;
  if cs_failed sample || is_zero (cs_observed sample) then
    when (last <? cs_sequence sample) (modify (set_lastClockSample (cs_sequence sample)));;
    throw ErrUnavailable
  else if cs_sequence sample <=? last then
    reject (is_zero now) ErrUnavailable;;
    mret now
  else
    modify (set_lastClockSample (cs_sequence sample));;
    reject (before (cs_observed sample) now) ErrUnavailable;;
    modify (set_lastNow (cs_observed sample));;
    mret (cs_observed sample).

Definition reserveEpochsLocked (count : Z) : locked Z :=
  if count =? 0 then mret 0 else
  next ← gets nextEpoch;
  reject (max_uint64 - next <? count) ErrUnavailable;;
  modify (set_nextEpoch (next + count));;
  mret (next + 1).

Definition newEpochLocked : locked Z := reserveEpochsLocked 1.

(** [touchLocked]; the counter saturates. *)
Definition touchLocked : locked Z :=
  use ← gets nextUse;
  let use' := if use =? max_uint64 then use else use + 1 in
  modify (set_nextUse use');;
  mret use'.

(** ** Disposal and cancellation *)

Definition addSourceLocked (material : option cell) : locked unit :=
  match material with
  | None => mret tt
  | Some m => modify (fun b => set_sourceReservations (sourceReservations b + 1) (set_disposals (disposals b ++ [DSource m]) b))
  end.

Definition addFlightSourceLocked (source : loc) : locked unit :=
  modify (fun b => set_disposals (disposals b ++ [DFlightSource source]) b).

Definition addSessionLocked (session : IssuedSession) : locked unit :=
  modify (fun b => set_sessionReservations (sessionReservations b + 1) (set_disposals (disposals b ++ [DSession session]) b)).

Definition add_cancellation (c : cancellation) : locked unit := modify (fun b => set_cancellations (cancellations b ++ [c]) b).

(** [flightSource.invalidate] *)
Definition invalidate_source (l : loc) : locked unit :=
  modify (fun b =>
    match sourceHeap b !! l with
    | Some (FS m false) => set_material (material_destroy m (material b)) (set_sourceHeap (<[l := FS None true]> (sourceHeap b)) b)
    | _ => b
    end).

Definition destroy_disposal (d : disposal) : locked unit :=
  match d with
  | DFlightSource source => invalidate_source source
  | DSource m => modify (fun b => set_material (material_destroy (Some m) (material b)) b)
  | DSession s => modify (fun b => set_material (IssuedSession_Destroy s (material b)) b)
  end.

(** One queued disposal: the material is destroyed, and later its slot is
    returned; the code returns the slots of a batch together. *)
Definition destroy_queued (i : nat) : locked unit :=
  queue ← gets disposals;
  match queue !! i with Some d => destroy_disposal d | None => mret tt end.

Definition release_queued (i : nat) : locked unit :=
  queue ← gets disposals;
  match queue !! i with
  | None => mret tt
  | Some d =>
      destroy_disposal d;;
      modify (fun b => set_disposals (delete i queue) b);;
      match d with
      | DSource _ => modify (fun b => set_sourceReservations (at_least_zero (sourceReservations b)) b)
      | DSession _ => modify (fun b => set_sessionReservations (at_least_zero (sessionReservations b)) b)
      | DFlightSource _ => mret tt
      end
  end.

Definition cancel (c : cancellation) : locked unit :=
  match c with
  | CSourceFlight l => modify (upd_source_flight l (sf_set_canceled true))
  | CSessionFlight l => modify (upd_flight l (fl_set_canceled true))
  | CRotation l => modify (upd_rotation l (rf_set_canceled true))
  | CCell l => modify (upd_cell l (sc_set_canceled true))
  end.

(** [cancellationBatch.publish], one callback at a time. *)
Definition publish_queued (i : nat) : locked unit :=
  queue ← gets cancellations;
  match queue !! i with
  | None => mret tt
  | Some c => cancel c;; modify (fun b => set_cancellations (delete i queue) b)
  end.

(** ** Lineages and operations *)

Definition newLineageState (q : Request) (epoch : Z) : lineageState :=
  let source := rq_source q in
  LS (rq_connectionGeneration q) (rq_provider q) (sl_referenceID source) (sl_version source) (sl_digest source) epoch 0 zero_time.

Definition sameLineageRequest (lineage : lineageState) (q : Request) : bool :=
  let source := rq_source q in
  (ln_generation lineage =? rq_connectionGeneration q) && String.eqb (ln_provider lineage) (rq_provider q) &&
  String.eqb (ln_referenceID lineage) (sl_referenceID source) && String.eqb (ln_version lineage) (sl_version source) &&
  equalDigest (ln_sourceDigest lineage) (sl_digest source).

(** The generation and the tombstone a request meets. *)
Definition check_lineage (lineage : lineageState) (q : Request) : result Failure unit :=
  if rq_connectionGeneration q <? ln_generation lineage then Err ErrStale
  else if (rq_connectionGeneration q =? ln_generation lineage) && negb (sameLineageRequest lineage q) then Err ErrConflict
  else if rq_connectionGeneration q <=? ln_revokedThrough lineage then Err ErrRevoked
  else if ln_generation lineage <? rq_connectionGeneration q then Err ErrCredentialRotationRequired
  else Ok tt.

Definition check_operation (operation : operationState) (q : Request) : result Failure unit :=
  fail_if (os_terminal operation) ErrOperationTerminated;;
  fail_if (negb (equalDigest (os_binding operation) (rq_binding q))) ErrConflict.

Definition connections_full (b : Broker) (k : connectionKey) : bool :=
  negb (is_some (lineages b !! k)) && (MaxTrackedConnections <=? Z.of_nat (size (lineages b))).

Definition operations_full (b : Broker) (k : operationKey) : bool :=
  negb (is_some (operations b !! k)) && (MaxTrackedOperations <=? Z.of_nat (size (operations b)) + operationReservations b).

(** [prepareRequestLocked]: the epochs of the request's lineage and operation,
    created when they are missing. *)
Definition prepareRequestLocked (q : Request) : locked (Z * Z) :=
  b ← get_state;
  let connKey := keyForConnection q in
  let opKey := keyForOperation q in
  reject (negb (bool_decide (keyForIssuer q ∈ b_issuers b))) ErrUnavailable;;
  reject (connections_full b connKey) ErrCapacity;;
  reject (operations_full b opKey) ErrCapacity;;
  lift (match lineages b !! connKey with Some lineage => check_lineage lineage q | None => Ok tt end);;
  lift (match operations b !! opKey with Some operation => check_operation operation q | None => Ok tt end);;
  let missing := (if is_some (lineages b !! connKey) then 0 else 1) + (if is_some (operations b !! opKey) then 0 else 1) in
  first ← reserveEpochsLocked missing;
  match lineages b !! connKey, operations b !! opKey with
  | Some lineage, Some operation => mret (ln_epoch lineage, os_epoch operation)
  | Some lineage, None =>
      modify (fun b => set_operations (<[opKey := OS (rq_binding q) first false zero_time]> (operations b)) b);;
      mret (ln_epoch lineage, first)
  | None, Some operation =>
      modify (fun b => set_lineages (<[connKey := newLineageState q first]> (lineages b)) b);;
      mret (first, os_epoch operation)
  | None, None =>
      modify (fun b => set_lineages (<[connKey := newLineageState q first]> (lineages b)) b);;
      modify (fun b => set_operations (<[opKey := OS (rq_binding q) (first + 1) false zero_time]> (operations b)) b);;
      mret (first, first + 1)
  end.

(** ** Cells and leases *)

Definition cellCurrentLocked (b : Broker) (c : sessionCell) : bool :=
  negb (sc_invalid c) && IssuedSession_Valid (material b) (sc_session c) &&
  match lineages b !! sc_connKey c, operations b !! sc_opKey c with
  | Some lineage, Some operation =>
      negb (os_terminal operation) && (ln_epoch lineage =? sc_connEpoch c) && (os_epoch operation =? sc_opEpoch c) &&
      (ln_revokedThrough lineage <? ln_generation lineage) && equalDigest (os_binding operation) (sc_binding c)
  | _, _ => false
  end.

Definition allocateLeaseLocked (l : loc) : locked loc :=
  leases ← gets leaseHeap;
  let lease := fresh (dom leases) in
  use ← touchLocked;
  modify (fun b => set_leaseHeap (<[lease := LeS l LeaseOpen]> (leaseHeap b)) b);;
  modify (upd_cell l (fun c => sc_set_lastUsed use (sc_set_refs (sc_refs c + 1) c)));;
  modify (fun b => set_activeLeases (activeLeases b + 1) b);;
  mret lease.

Definition leases_full (b : Broker) : bool := MaxActiveLeases <=? activeLeases b + leaseReservations b.

Definition newLeaseLocked (l : loc) (now : time) : locked loc :=
  b ← get_state;
  reject (leases_full b) ErrCapacity;;
  match cellHeap b !! l with
  | None => throw ErrRevoked
  | Some c =>
      reject (negb (cellCurrentLocked b c)) ErrRevoked;;
      reject (negb (CanStartUse (material b) (sc_session c) now)) ErrExpired;;
      allocateLeaseLocked l
  end.

(** ** Expiry evidence *)

Definition recordExpiryUntilLocked (c : sessionCell) (expiresAt : time) : locked unit :=
  modify (upd_lineage (sc_connKey c) (fun s => if before (ln_expiryBoundUntil s) expiresAt then ln_set_expiryBoundUntil expiresAt s else s));;
  modify (upd_operation (sc_opKey c) (fun s => if before (os_expiryBoundUntil s) expiresAt then os_set_expiryBoundUntil expiresAt s else s)).

Definition recordExpiryEvidenceLocked (c : sessionCell) (now : time) : locked unit :=
  h ← gets material;
  when (IssuedSession_Valid h (sc_session c) && negb (is_some (sc_revocation c)) && before now (is_expiresAt (sc_session c)))
    (recordExpiryUntilLocked c (is_expiresAt (sc_session c))).

Definition sweepExpiryEvidenceLocked (now : time) : locked unit :=
  modify (fun b => set_lineages ((fun s => if negb (is_zero (ln_expiryBoundUntil s)) && negb (before now (ln_expiryBoundUntil s))
                                            then ln_set_expiryBoundUntil zero_time s else s) <$> lineages b) b);;
  modify (fun b => set_operations ((fun s => if negb (is_zero (os_expiryBoundUntil s)) && negb (before now (os_expiryBoundUntil s))
                                              then os_set_expiryBoundUntil zero_time s else s) <$> operations b) b).

Definition evidence_of (bound : bool) : RevocationResult := if bound then RevocationExpiryBound else RevocationNotRequired.

Definition connectionExpiryEvidenceLocked (b : Broker) (k : connectionKey) (now : time) : RevocationResult :=
  evidence_of (match lineages b !! k with Some s => before now (ln_expiryBoundUntil s) | None => false end).

Definition operationExpiryEvidenceLocked (b : Broker) (k : operationKey) (now : time) : RevocationResult :=
  evidence_of (match operations b !! k with Some s => before now (os_expiryBoundUntil s) | None => false end).

Definition allExpiryEvidenceLocked (b : Broker) (now : time) : RevocationResult :=
  evidence_of (existsb (fun s => before now (ln_expiryBoundUntil s)) (map_to_list (lineages b)).*2).

(** ** Sweeping *)

Definition sweep_source (now : time) (p : SourceDigest * loc) : locked unit :=
  let '(digest, l) := p in
  b ← get_state;
  match entryHeap b !! l with
  | None => mret tt
  | Some e =>
      if before now (se_expiresAt e) && material_valid (material b) (se_material e) then mret tt else
      modify (fun b => set_sources (delete digest (sources b)) b);;
      modify (upd_entry l (se_set_invalid true));;
      if se_borrows e =? 0 then addSourceLocked (se_material e) else
      modify (upd_entry l (se_set_retired true));;
      modify (fun b => set_retiredSources ({[l]} ∪ retiredSources b) b)
  end.

Definition sweep_session (now : time) (p : BindingDigest * loc) : locked unit :=
  let '(binding, l) := p in
  b ← get_state;
  match cellHeap b !! l with
  | None => mret tt
  | Some c =>
      if CanStartUse (material b) (sc_session c) now then mret tt else
      modify (fun b => set_sessions (delete binding (sessions b)) b);;
      modify (upd_cell l (sc_set_draining true));;
      when (sc_refs c =? 0) (
        recordExpiryEvidenceLocked c now;;
        modify (fun b => set_cells (cells b ∖ {[l]}) b);;
        addSessionLocked (sc_session c))
  end.

Definition sweepLocked (now : time) : locked unit :=
  sweepExpiryEvidenceLocked now;;
  entries ← gets (fun b => map_to_list (sources b));
  for_each (sweep_source now) entries;;
  current ← gets (fun b => map_to_list (sessions b));
  for_each (sweep_session now) current.

(** ** Invalidation, draining, eviction *)

(** [broker.sessions[cell.binding] == cell] *)
Definition forget_session (l : loc) (c : sessionCell) : locked unit :=
  modify (fun b => if bool_decide (sessions b !! sc_binding c = Some l) then set_sessions (delete (sc_binding c) (sessions b)) b else b).

Definition revocation_running (c : sessionCell) : bool :=
  match sc_revocation c with Some a => negb (ra_finished a) | None => false end.

Definition new_attempt : revocationAttempt := RA false false RevocationNotRequired false.

(** [invalidateCellLocked] with a batch of cancellations. *)
Definition invalidateCellLocked (l : loc) (c : sessionCell) (holdForRevocation : bool) : locked unit :=
  forget_session l c;;
  when (negb (sc_invalid c)) (
    modify (upd_cell l (fun c => sc_set_invalid true (sc_set_draining true c)));;
    add_cancellation (CCell l));;
  if holdForRevocation then
    when (negb (is_some (sc_revocation c))) (modify (upd_cell l (sc_set_revocation (Some new_attempt))))
  else
    when ((sc_refs c =? 0) && negb (revocation_running c)) (modify (fun b => set_cells (cells b ∖ {[l]}) b)).

Definition drainCellLocked (l : loc) : locked unit :=
  b ← get_state;
  match cellHeap b !! l with
  | None => mret tt
  | Some c =>
      forget_session l c;;
      modify (upd_cell l (sc_set_draining true));;
      when (sc_refs c =? 0) (
        recordExpiryEvidenceLocked c (lastNow b);;
        modify (fun b => set_cells (cells b ∖ {[l]}) b);;
        addSessionLocked (sc_session c))
  end.

(** The least recently used of the candidates. *)
Fixpoint oldest {X} (used : X -> Z) (l : list (loc * X)) : option (loc * X) :=
  match l with
  | [] => None
  | x :: rest =>
      match oldest used rest with
      | Some y => if used y.2 <? used x.2 then Some y else Some x
      | None => Some x
      end
  end.

Definition protects (protected : option connectionKey) (k : connectionKey) : bool := bool_decide (protected = Some k).

Definition source_load (b : Broker) : Z :=
  Z.of_nat (size (sources b)) + Z.of_nat (size (retiredSources b)) + Z.of_nat (size (sourceFlights b)) + sourceReservations b.

(** [makeSourceRoomExceptLocked]; what is evicted is added to the disposals, as
    every caller does. *)
Definition makeSourceRoomLocked (protected : option connectionKey) : locked unit :=
  b ← get_state;
  if source_load b <? MaxSourceEntries then mret tt else
  let candidates := omap (fun l => e ← entryHeap b !! l;
      if negb (se_borrows e =? 0) || se_invalid e || protects protected (se_key e) then None else Some (l, e))
    (map_to_list (sources b)).*2 in
  match oldest se_lastUsed candidates with
  | None => throw ErrCapacity
  | Some (l, e) =>
      modify (fun b => set_sources (delete (se_digest e) (sources b)) b);;
      modify (upd_entry l (se_set_invalid true));;
      addSourceLocked (se_material e)
  end.

Definition makeSessionRoomLocked (protected : option connectionKey) : locked unit :=
  b ← get_state;
  if Z.of_nat (size (cells b)) + sessionReservations b <? MaxSessionEntries then mret tt else
  let candidates := omap (fun l => c ← cellHeap b !! l;
      if negb (sc_refs c =? 0) || negb (sc_flightPins c =? 0) || revocation_running c || protects protected (sc_connKey c)
      then None else Some (l, c))
    (elements (cells b)) in
  match oldest sc_lastUsed candidates with
  | None => throw ErrCapacity
  | Some (l, c) =>
      forget_session l c;;
      modify (upd_cell l (fun c => sc_set_canceled true (sc_set_invalid true (sc_set_draining true c))));;
      recordExpiryEvidenceLocked c (lastNow b);;
      modify (fun b => set_cells (cells b ∖ {[l]}) b);;
      addSessionLocked (sc_session c)
  end.

(** ** Construction and registration *)

Definition empty_broker : Broker :=
  Brk ∅ (Auth ∅ ∅ 0 false) (Srcs ∅ ∅ ∅ ∅ ∅ ∅ 0 0) (Sess ∅ ∅ ∅ ∅ ∅ ∅ ∅ 0) (Leas ∅ 0 0 0) (Tim 0 0 zero_time 0) (Outs ∅ [] []).

(** [New]: the first sample must be accepted. *)
Definition New_broker (h : memory) (observed : time) : result Failure Broker :=
  let b := set_material h empty_broker in
  match (sample ← sampleNow observed; observeNowLocked sample) b with
  | (Ok _, b') => Ok b'
  | (Err _, _) => Err ErrInvalid
  end.

Definition RegisterIssuer (recipient : Recipient) : locked unit :=
  reject (negb (Recipient_Valid recipient)) ErrInvalid;;
  b ← get_state;
  let key := (rcp_provider recipient, rcp_name recipient) in
  reject (closed b) ErrClosed;;
  reject (bool_decide (key ∈ b_issuers b)) ErrConflict;;
  reject (MaxIssuerRegistrations <=? Z.of_nat (size (b_issuers b))) ErrCapacity;;
  modify (set_issuers ({[key]} ∪ b_issuers b)).

(** [SweepExpired] *)
Definition SweepExpired (sample : clockSample) : locked unit :=
  b ← get_state;
  reject (closed b) ErrClosed;;
  now ← observeNowLocked sample;
  sweepLocked now.
