(* ===== verification/Broker.v ===== *)
(** * The credential broker: sessions, sources, rotation, lifecycle

    Each definition is one locked section of a method of the broker, or the part
    of it between two blocking points; a history of the broker is any
    interleaving of them ([broker_event]).  A call that waits for a flight is
    its first section, which starts or joins the flight, and a last one, which
    reads the flight's result. *)

From S2P Require Import Prelude Bytes GoTime Calendar Digests Hierarchy Identity AuthzVocabulary Authorization.
From S2P Require Import Condition Control Operation Resource Credential BrokerState.
From Stdlib Require Import Ascii String.

(** [normalizeFlightError] *)
Definition normalizeFlightError (err : option Failure) : option Failure :=
  match err with Some ErrContext => Some ErrUnavailable | _ => err end.

Definition ensure_open : locked unit := c ← gets closed; reject c ErrClosed.

(** ** Sessions: session.go *)

Definition validIssuedSession (h : memory) (q : Request) (issued : IssuedSession) (now : time) : bool :=
  IssuedSession_Valid h issued && equalDigest (is_binding issued) (rq_binding q) && negb (after (is_issuedAt issued) now) &&
  (MinIssuedSessionTTL <=? time_sub (is_expiresAt issued) now) && CanStartUse h issued now.

Inductive acquired := Leased (lease : loc) | Joined (flight : loc) | Started (flight : loc).

Definition new_session_flight (q : Request) (connEpoch opEpoch : Z) (force : bool) (fallback : option loc) : sessionFlight :=
  SsF q (keyForConnection q) (keyForOperation q) (rq_binding q) connEpoch opEpoch (force || is_some fallback) fallback true fallback
    false 1 false false None RevocationNotRequired None.

Definition pin (l : option loc) (change : Z -> Z) : locked unit :=
  match l with Some l => modify (upd_cell l (fun c => sc_set_flightPins (change (sc_flightPins c)) c)) | None => mret tt end.

(** A failing [m] is followed by [undo]. *)
Definition on_failure {A} (m : locked A) (undo : locked unit) : locked A := fun b =>
  match m b with
  | (Ok a, b') => (Ok a, b')
  | (Err e, b') => (Err e, (undo b').2)
  end.

Definition start_session_flight (q : Request) (connEpoch opEpoch : Z) (force : bool) (fallback : option loc) : locked acquired :=
  pin fallback (fun n => n + 1);;
  on_failure (makeSessionRoomLocked None) (pin fallback at_least_zero);;
  flights ← gets flightHeap;
  let l := fresh (dom flights) in
  modify (fun b => set_sessionReservations (sessionReservations b + 1) b);;
  modify (fun b => set_flightHeap (<[l := new_session_flight q connEpoch opEpoch force fallback]> (flightHeap b)) b);;
  modify (fun b => set_sessionFlights (<[rq_binding q := l]> (sessionFlights b)) b);;
  mret (Started l).

(** Joining the flight of the binding, or starting one. *)
Definition join_session_flight (q : Request) (connEpoch opEpoch : Z) (force : bool) (fallback : option loc) : locked acquired :=
  b ← get_state;
  match sessionFlights b !! rq_binding q with
  | Some l =>
      flight ← the (flightHeap b !! l);
      reject (fl_abandoned flight || negb (fl_connEpoch flight =? connEpoch) || negb (fl_opEpoch flight =? opEpoch)) ErrUnavailable;;
      modify (upd_flight l (fun f => fl_set_waiters (fl_waiters f + 1) f));;
      mret (Joined l)
  | None => start_session_flight q connEpoch opEpoch force fallback
  end.

(** [acquire], up to the wait; [Acquire] and [Refresh] differ in [force]. *)
Definition acquire_begin (q : Request) (force canceled : bool) (sample : clockSample) : locked acquired :=
  reject (negb (Request_Valid q)) ErrInvalid;;
  reject canceled ErrContext;;
  ensure_open;;
  now ← observeNowLocked sample;
  sweepLocked now;;
  full ← gets leases_full;
  reject full ErrCapacity;;
  '(connEpoch, opEpoch) ← prepareRequestLocked q;
  b ← get_state;
  match sessions b !! rq_binding q with
  | None => join_session_flight q connEpoch opEpoch force None
  | Some l =>
      c ← the (cellHeap b !! l);
      let usable := cellCurrentLocked b c && CanStartUse (material b) (sc_session c) now in
      if usable && negb force && negb (RefreshDueAt (material b) (sc_session c) now) then
        lease ← newLeaseLocked l now;
        mret (Leased lease)
      else if usable then join_session_flight q connEpoch opEpoch force (Some l)
      else drainCellLocked l;; join_session_flight q connEpoch opEpoch force None
  end.

Definition leaveSessionFlight (l : loc) (canceled : bool) : locked unit :=
  modify (upd_flight l (fun f => fl_set_waiters (at_least_zero (fl_waiters f)) f));;
  b ← get_state;
  match flightHeap b !! l with
  | Some f => when (canceled && negb (fl_finished f) && (fl_waiters f =? 0))
                (modify (upd_flight l (fun f => fl_set_canceled true (fl_set_abandoned true f))))
  | None => mret tt
  end.

Definition fallbackCurrentLocked (b : Broker) (f : sessionFlight) (now : time) : bool :=
  match fl_fallback f with
  | None => false
  | Some l =>
      bool_decide (sessions b !! fl_binding f = Some l) &&
      match cellHeap b !! l with
      | Some c => cellCurrentLocked b c && (sc_connEpoch c =? fl_connEpoch f) && (sc_opEpoch c =? fl_opEpoch f) &&
                  CanStartUse (material b) (sc_session c) now
      | None => false
      end
  end.

(** [waitSessionFlight] after the flight is done and the waiter has left. *)
Definition acquire_end (l : loc) (sample : clockSample) : locked loc := fun b0 =>
  let '(observed, b) := observeNowLocked sample b0 in
  match flightHeap b !! l with
  | None => (Err ErrUnavailable, b)
  | Some f =>
      let fallback (now : time) := match fl_fallback f with Some c => newLeaseLocked c now | None => throw ErrUnavailable end in
      match observed, fl_err f with
      | Ok now, None => match fl_cell f with Some c => newLeaseLocked c now b | None => (Err (if leases_full b then ErrCapacity else ErrRevoked), b) end
      | Ok now, Some ErrUnavailable =>
          if fl_refresh f && fallbackCurrentLocked b f now then fallback now b else (Err ErrUnavailable, b)
      | Ok _, Some e => (Err e, b)
      | Err ErrUnavailable, _ =>
          if fl_refresh f && fallbackCurrentLocked b f zero_time then fallback zero_time b else (Err ErrUnavailable, b)
      | Err e, _ => (Err e, b)
      end
  end.

Definition releaseSessionFlightLocked (l : loc) : locked unit :=
  b ← get_state;
  match flightHeap b !! l with
  | None => mret tt
  | Some f =>
      when (bool_decide (sessionFlights b !! fl_binding f = Some l))
        (modify (fun b => set_sessionFlights (delete (fl_binding f) (sessionFlights b)) b));;
      when (fl_reserved f) (
        modify (upd_flight l (fl_set_reserved false));;
        modify (fun b => set_sessionReservations (at_least_zero (sessionReservations b)) b));;
      match fl_pinned f with
      | None => mret tt
      | Some p =>
          let pins := default 0 (sc_flightPins <$> cellHeap b !! p) in
          when (0 <? pins) (pin (Some p) at_least_zero;; modify (upd_flight l (fl_set_pinned None)))
      end
  end.

(** Why a finished flight must not install its session, whatever it brought. *)
Definition flight_stale (b : Broker) (f : sessionFlight) : option Failure :=
  let lineage_ok := match lineages b !! fl_connKey f with
                    | Some s => (ln_epoch s =? fl_connEpoch f) && (ln_revokedThrough s <? ln_generation s)
                    | None => false
                    end in
  let operation_ok := match operations b !! fl_opKey f with
                      | Some s => negb (os_terminal s) && (os_epoch s =? fl_opEpoch f) && equalDigest (os_binding s) (fl_binding f)
                      | None => false
                      end in
  if closed b then Some ErrClosed
  else if negb lineage_ok then Some ErrRevoked
  else if negb operation_ok then Some ErrOperationTerminated
  else if fl_abandoned f || (fl_waiters f =? 0) || fl_canceled f then Some ErrUnavailable
  else None.

Definition cell_of_flight (f : sessionFlight) (session : IssuedSession) (use : Z) : sessionCell :=
  SC (fl_request f) session (fl_connKey f) (fl_opKey f) (fl_binding f) (fl_connEpoch f) (fl_opEpoch f) use 0 0 false false false None.

(** Publishing the issued session in a new cell; the cell it replaces drains. *)
Definition install_session (l : loc) (f : sessionFlight) (session : IssuedSession) : locked unit :=
  use ← touchLocked;
  current ← gets sessions;
  match current !! fl_binding f with Some old => drainCellLocked old | None => mret tt end;;
  heap ← gets cellHeap;
  let c := fresh (dom heap) in
  modify (fun b => set_cellHeap (<[c := cell_of_flight f session use]> (cellHeap b)) b);;
  modify (fun b => set_sessions (<[fl_binding f := c]> (sessions b)) b);;
  modify (fun b => set_cells ({[c]} ∪ cells b) b);;
  modify (upd_flight l (fl_set_cell (Some c))).

(** The first section of [finishSessionFlight]; [failed] is the error the flight
    met, [issued] what the issuer returned.  It fails when nothing is
    installed. *)
Definition try_install (l : loc) (f : sessionFlight) (issued : option IssuedSession) (failed : option Failure) (sample : clockSample)
    : locked unit :=
  b ← get_state;
  match flight_stale b f with
  | Some e => throw e
  | None =>
      match failed with
      | Some e => throw e
      | None =>
          now ← observeNowLocked sample;
          h ← gets material;
          match issued with
          | Some session =>
              reject (negb (validIssuedSession h (fl_request f) session now)) ErrUnavailable;;
              when (negb (fl_reserved f)) (makeSessionRoomLocked None);;
              install_session l f session
          | None => throw ErrUnavailable
          end
      end
  end.

Definition finish_session (l : loc) (issued : option IssuedSession) (failed : option Failure) (sample : clockSample) : locked unit := fun b =>
  match flightHeap b !! l with
  | None => (Err ErrUnavailable, b)
  | Some f =>
      match try_install l f issued failed sample b with
      | (Ok _, b1) =>
          (modify (upd_flight l (fun f => fl_set_canceled true (fl_set_err None f)));; releaseSessionFlightLocked l) b1
      | (Err e, b1) => (Err e, upd_flight l (fun f => fl_set_canceled true (fl_set_err (normalizeFlightError (Some e)) f)) b1)
      end
  end.

(** [cleanupUnpublished], up to the revocation: an unpublished cell holds the
    session until the issuer has answered. *)
Definition cleanupUnpublished (q : Request) (session : option IssuedSession) : locked (option loc) :=
  b ← get_state;
  match session with
  | None => mret None
  | Some s =>
      if negb (IssuedSession_Valid (material b) s) then
        modify (fun b => set_material (IssuedSession_Destroy s (material b)) b);; mret None
      else
        let l := fresh (dom (cellHeap b)) in
        modify (fun b => set_cellHeap (<[l := SC q s (keyForConnection q) (keyForOperation q) (rq_binding q) 0 0 0 0 0 true true true
                                                (Some (RA true false RevocationNotRequired false))]> (cellHeap b)) b);;
        mret (Some l)
  end.

(** After the cleanup of an uninstalled session. *)
Definition session_cleaned (l : loc) (cleanup : option loc) : locked unit :=
  b ← get_state;
  let result := match cleanup ≫= fun c => cellHeap b !! c with
                | Some c => match sc_revocation c with Some a => ra_result a | None => RevocationNotRequired end
                | None => RevocationNotRequired
                end in
  modify (upd_flight l (fl_set_revocation result));;
  releaseSessionFlightLocked l.

(** [flight.finished = true; close(flight.done)] *)
Definition session_done (l : loc) : locked unit := modify (upd_flight l (fl_set_finished true)).

(** ** Leases: broker.go *)

(** [Lease.Close], its first section, under the lease's lock: the result says
    whether this call closed the handle. *)
Definition Lease_Close_begin (l : loc) : locked bool :=
  b ← get_state;
  lease ← lift (of_option (leaseHeap b !! l) ErrInvalid);
  if ls_closed lease then mret false
  else modify (fun b => set_leaseHeap (<[l := LeS (ls_cell lease) LeaseClosing]> (leaseHeap b)) b);; mret true.

(** [Lease.Close], its second section, under the broker's lock: it is entered
    once, by the call that closed the handle. *)
Definition Lease_Close_end (l : loc) : locked unit :=
  b ← get_state;
  lease ← the (leaseHeap b !! l);
  reject (negb (bool_decide (ls_status lease = LeaseClosing))) ErrInvalid;;
  modify (fun b => set_leaseHeap (<[l := LeS (ls_cell lease) LeaseReleased]> (leaseHeap b)) b);;
  modify (upd_cell (ls_cell lease) (fun c => sc_set_refs (at_least_zero (sc_refs c)) c));;
  modify (fun b => set_activeLeases (at_least_zero (activeLeases b)) b);;
  match cellHeap b !! ls_cell lease with
  | None => mret tt
  | Some c =>
      when ((at_least_zero (sc_refs c) =? 0) && negb (revocation_running c) && (sc_invalid c || sc_draining c)) (
        recordExpiryEvidenceLocked c (lastNow b);;
        modify (fun b => set_cells (cells b ∖ {[ls_cell lease]}) b);;
        addSessionLocked (sc_session c))
  end.

(** [Use]: the first look at the lease, under its own lock. *)
Definition use_begin (l : loc) (canceled : bool) : locked unit :=
  reject canceled ErrContext;;
  b ← get_state;
  lease ← the (leaseHeap b !! l);
  reject (ls_closed lease) ErrRevoked.

(** [Use]: the preliminary check under the broker's lock. *)
Definition use_check (l : loc) (sample : clockSample) : locked unit :=
  b ← get_state;
  lease ← the (leaseHeap b !! l);
  now ← observeNowLocked sample;
  b ← get_state;
  reject (closed b) ErrClosed;;
  c ← the (cellHeap b !! ls_cell lease);
  reject (sc_invalid c) ErrRevoked;;
  if CanStartUse (material b) (sc_session c) now then mret tt
  else modify (upd_cell (ls_cell lease) (sc_set_draining true));; throw ErrExpired.

(** [Use]: the admission.  The result is the scratch copy the callback is given
    and the instant its context ends. *)
Definition use_admit (l : loc) (canceled : bool) (sample : clockSample) : locked (string * time) :=
  reject canceled ErrContext;;
  b ← get_state;
  lease ← the (leaseHeap b !! l);
  reject (ls_closed lease) ErrRevoked;;
  now ← observeNowLocked sample;
  b ← get_state;
  reject (closed b) ErrClosed;;
  c ← the (cellHeap b !! ls_cell lease);
  reject (sc_invalid c || negb (cellCurrentLocked b c)) ErrRevoked;;
  if negb (CanStartUse (material b) (sc_session c) now) then
    modify (upd_cell (ls_cell lease) (sc_set_draining true));; throw ErrExpired
  else
    reject (sc_canceled c) ErrUnavailable;;
    state ← the (is_material (sc_session c) ≫= fun m => material b !! m);
    reject (negb (material_usable state)) ErrUnavailable;;
    use ← touchLocked;
    modify (upd_cell (ls_cell lease) (sc_set_lastUsed use));;
    mret (ms_value state, is_expiresAt (sc_session c) - SessionExpirySkew).

(** [Use]: the verdict after the callback has returned without a cancelled
    context. *)
Definition use_finish (l : loc) (expires : time) (callbackFailed : bool) (sample : clockSample) : locked unit :=
  now ← observeNowLocked sample;
  b ← get_state;
  reject (closed b) ErrClosed;;
  lease ← the (leaseHeap b !! l);
  c ← the (cellHeap b !! ls_cell lease);
  reject (negb (cellCurrentLocked b c)) ErrRevoked;;
  reject (negb (before now expires)) ErrExpired;;
  reject callbackFailed ErrUnavailable.

(** ** Sources: source.go *)

Definition lineage_serves (b : Broker) (q : Request) (connEpoch : Z) : bool :=
  match lineages b !! keyForConnection q with
  | Some s => (ln_epoch s =? connEpoch) && (ln_revokedThrough s <? ln_generation s) && sameLineageRequest s q
  | None => false
  end.

Inductive sourced := Borrowed (entry : loc) | SourceJoined (flight : loc) | SourceStarted (flight : loc).

Definition borrow_entry (l : loc) : locked unit :=
  use ← touchLocked;
  modify (upd_entry l (fun e => se_set_lastUsed use (se_set_borrows (se_borrows e + 1) e))).

(** [acquireSource], up to the wait. *)
Definition acquireSource_begin (q : Request) (connEpoch : Z) (sample : clockSample) : locked sourced :=
  ensure_open;;
  now ← observeNowLocked sample;
  sweepLocked now;;
  b ← get_state;
  reject (negb (lineage_serves b q connEpoch)) ErrRevoked;;
  let digest := sl_digest (rq_source q) in
  let hit := l ← sources b !! digest; e ← entryHeap b !! l;
             if negb (se_invalid e) && (se_epoch e =? connEpoch) && before now (se_expiresAt e) && material_valid (material b) (se_material e)
             then Some l else None in
  match hit, sourceFlights b !! digest with
  | Some l, _ => borrow_entry l;; mret (Borrowed l)
  | None, Some l =>
      f ← the (sourceFlightHeap b !! l);
      reject (sf_abandoned f || negb (sf_connEpoch f =? connEpoch)) ErrUnavailable;;
      modify (upd_source_flight l (fun f => sf_set_waiters (sf_waiters f + 1) f));;
      mret (SourceJoined l)
  | None, None =>
      reject (MaxConcurrentResolves <=? activeResolves b) ErrCapacity;;
      makeSourceRoomLocked None;;
      let l := fresh (dom (sourceFlightHeap b)) in
      let owned := fresh (dom (sourceHeap b)) in
      modify (fun b => set_sourceHeap (<[owned := FS None false]> (sourceHeap b)) b);;
      modify (fun b => set_sourceFlightHeap (<[l := SFl digest q (keyForConnection q) connEpoch zero_time false 1 false false owned None None]>
                                              (sourceFlightHeap b)) b);;
      modify (fun b => set_sourceFlights (<[digest := l]> (sourceFlights b)) b);;
      modify (fun b => set_activeResolves (activeResolves b + 1) b);;
      mret (SourceStarted l)
  end.

(** [leaveSourceFlight], with what it does after the lock. *)
Definition leaveSourceFlight (l : loc) (canceled : bool) : locked unit :=
  modify (upd_source_flight l (fun f => sf_set_waiters (at_least_zero (sf_waiters f)) f));;
  b ← get_state;
  match sourceFlightHeap b !! l with
  | Some f => when (canceled && negb (sf_finished f) && (sf_waiters f =? 0)) (
                modify (upd_source_flight l (fun f => sf_set_canceled true (sf_set_abandoned true f)));;
                invalidate_source (sf_source f))
  | None => mret tt
  end.

(** [waitSourceFlight] after the flight is done. *)
Definition acquireSource_end (l : loc) (sample : clockSample) : locked loc :=
  now ← observeNowLocked sample;
  b ← get_state;
  f ← the (sourceFlightHeap b !! l);
  match sf_err f with
  | Some e => throw e
  | None =>
      let usable := entry ← sf_entry f; e ← entryHeap b !! entry; lineage ← lineages b !! sf_connKey f;
                    if closed b || negb (ln_epoch lineage =? sf_connEpoch f) || se_invalid e || negb (before now (se_expiresAt e))
                       || negb (material_valid (material b) (se_material e))
                    then None else Some entry in
      match usable with
      | None => throw ErrRevoked
      | Some entry => borrow_entry entry;; mret entry
      end
  end.

(** [flightSource.publish] *)
Definition publish_source (l : loc) (m : option cell) : locked bool := fun b =>
  let drop := set_material (material_destroy m (material b)) b in
  match m, sourceHeap b !! l with
  | Some _, Some (FS None false) => (Ok true, set_sourceHeap (<[l := FS m false]> (sourceHeap b)) b)
  | _, _ => (Ok false, drop)
  end.

Definition source_owns (b : Broker) (l : loc) (m : option cell) : bool :=
  match sourceHeap b !! l with
  | Some (FS (Some held) false) => bool_decide (m = Some held) && material_valid (material b) m
  | _ => false
  end.

(** [flightSource.take] *)
Definition take_source (l : loc) (m : option cell) : locked bool := fun b =>
  match sourceHeap b !! l with
  | Some (FS (Some held) false) =>
      if bool_decide (m = Some held) then (Ok true, set_sourceHeap (<[l := FS None false]> (sourceHeap b)) b) else (Ok false, b)
  | _ => (Ok false, b)
  end.

(** [resolveOwned] after the resolver has returned: [material_] is what it
    returned, [good] that it returned without an error, with material and with a
    consumed read, within its deadline, and that the claim could be settled.
    The result is the expiry of the cached material. *)
Definition resolve_returned (l : loc) (returned : option cell) (good : bool) (sample : clockSample) : locked time :=
  published ← publish_source l returned;
  on_failure (
    _ ← observeNowLocked sample;
    b ← get_state;
    let current := match sourceHeap b !! l with Some (FS m false) => m | _ => None end in
    reject (negb (good && published && material_valid (material b) current)) ErrUnavailable;;
    mret (cs_observed sample + MaxSourceCacheTTL)) (invalidate_source l).

(** [finishSourceFlight], its first section. *)
Definition finish_source (l : loc) (m : option cell) (expiresAt : time) (failed : option Failure) (sample : clockSample) : locked unit :=
  b ← get_state;
  f ← the (sourceFlightHeap b !! l);
  modify (upd_source_flight l (sf_set_sourceExpiresAt expiresAt));;
  match failed with
  | Some e => throw e
  | None =>
      now ← observeNowLocked sample;
      b ← get_state;
      reject (closed b) ErrClosed;;
      reject (sf_abandoned f || (sf_waiters f =? 0) || sf_canceled f) ErrUnavailable;;
      reject (negb (lineage_serves b (sf_request f) (sf_connEpoch f))) ErrRevoked;;
      reject (is_zero expiresAt || negb (before now expiresAt)) ErrUnavailable;;
      reject (negb (material_valid (material b) m)) ErrUnavailable;;
      taken ← take_source (sf_source f) m;
      reject (negb taken) ErrUnavailable;;
      use ← touchLocked;
      b ← get_state;
      let entry := fresh (dom (entryHeap b)) in
      modify (fun b => set_entryHeap (<[entry := SE (sf_connKey f) (sf_digest f) (sf_connEpoch f) m expiresAt use 0 false false]>
                                        (entryHeap b)) b);;
      modify (fun b => set_sources (<[sf_digest f := entry]> (sources b)) b);;
      modify (upd_source_flight l (fun f => sf_set_err None (sf_set_entry (Some entry) f)))
  end.

(** The last section of a source flight. *)
Definition source_done (l : loc) : locked unit :=
  b ← get_state;
  f ← the (sourceFlightHeap b !! l);
  when (bool_decide (sourceFlights b !! sf_digest f = Some l)) (modify (fun b => set_sourceFlights (delete (sf_digest f) (sourceFlights b)) b));;
  modify (fun b => set_activeResolves (at_least_zero (activeResolves b)) b);;
  modify (upd_source_flight l (fun f => sf_set_canceled true (sf_set_finished true f))).

(** [finishSourceFlight]: an installed entry ends the flight at once; otherwise
    the error is recorded, the material destroyed outside the lock
    ([source_failed]) and the flight ended after it. *)
Definition finishSourceFlight (l : loc) (m : option cell) (expiresAt : time) (failed : option Failure) (sample : clockSample) : locked unit := fun b =>
  match finish_source l m expiresAt failed sample b with
  | (Ok _, b1) => source_done l b1
  | (Err e, b1) => (Err e, upd_source_flight l (sf_set_err (normalizeFlightError (Some e))) b1)
  end.

Definition source_failed (l : loc) : locked unit :=
  b ← get_state;
  f ← the (sourceFlightHeap b !! l);
  invalidate_source (sf_source f);;
  source_done l.

(** [sourceBorrow.release] *)
Definition release_borrow (l : loc) : locked unit :=
  modify (upd_entry l (fun e => se_set_borrows (at_least_zero (se_borrows e)) e));;
  b ← get_state;
  match entryHeap b !! l with
  | None => mret tt
  | Some e =>
      when (se_invalid e && (se_borrows e =? 0) && se_retired e) (
        modify (fun b => set_retiredSources (retiredSources b ∖ {[l]}) b);;
        modify (upd_entry l (se_set_retired false));;
        addSourceLocked (se_material e))
  end.

(** ** Rotation: rotation.go *)

Definition validateRotationTarget (lineage : lineageState) (next : Request) : result Failure unit :=
  let source := rq_source next in
  if rq_connectionGeneration next <=? ln_revokedThrough lineage then Err ErrRevoked
  else if rq_connectionGeneration next <=? ln_generation lineage then Err ErrStale
  else if negb (String.eqb (rq_provider next) (ln_provider lineage)) then Err ErrConflict
  else if negb (String.eqb (sl_referenceID source) (ln_referenceID lineage)) then Err ErrConflict
  else if String.eqb (sl_version source) (ln_version lineage) then Err ErrConflict
  else Ok tt.

Inductive rotating := RotationJoined (flight : loc) | RotationStarted (flight : loc).

Definition reserve_lease : locked unit := modify (fun b => set_leaseReservations (leaseReservations b + 1) b).

Definition start_rotation (next : Request) (lineage : lineageState) : locked rotating :=
  b ← get_state;
  let key := keyForConnection next in
  let operationMissing := negb (is_some (operations b !! keyForOperation next)) in
  reject (operationMissing && (MaxTrackedOperations <=? Z.of_nat (size (operations b)) + operationReservations b)) ErrCapacity;;
  reject (MaxConcurrentResolves <=? activeResolves b) ErrCapacity;;
  makeSourceRoomLocked (Some key);;
  modify (fun b => set_sourceReservations (sourceReservations b + 1) b);;
  on_failure (makeSessionRoomLocked (Some key)) (modify (fun b => set_sourceReservations (sourceReservations b - 1) b));;
  modify (fun b => set_sessionReservations (sessionReservations b + 1) b);;
  when operationMissing (modify (fun b => set_operationReservations (operationReservations b + 1) b));;
  modify (fun b => set_activeResolves (activeResolves b + 1) b);;
  reserve_lease;;
  let l := fresh (dom (rotationHeap b)) in
  let owned := fresh (dom (sourceHeap b)) in
  modify (fun b => set_sourceHeap (<[owned := FS None false]> (sourceHeap b)) b);;
  modify (fun b => set_rotationHeap (<[l :=
    RF next key (rq_binding next) (ln_epoch lineage) (ln_generation lineage) false 1 false false None owned true zero_time true true
       operationMissing 1 false [] RevocationNotRequired None]> (rotationHeap b)) b);;
  modify (fun b => set_rotations (<[key := l]> (rotations b)) b);;
  mret (RotationStarted l).

(** [Rotate], up to the wait. *)
Definition rotate_begin (next : Request) (canceled : bool) (sample : clockSample) : locked rotating :=
  reject (negb (Request_Valid next)) ErrInvalid;;
  reject canceled ErrContext;;
  ensure_open;;
  now ← observeNowLocked sample;
  sweepLocked now;;
  b ← get_state;
  reject (leases_full b) ErrCapacity;;
  let key := keyForConnection next in
  lineage ← lift (of_option (lineages b !! key) ErrConflict);
  lift (validateRotationTarget lineage next);;
  reject (negb (bool_decide (keyForIssuer next ∈ b_issuers b))) ErrUnavailable;;
  lift (match operations b !! keyForOperation next with Some operation => check_operation operation next | None => Ok tt end);;
  match rotations b !! key with
  | Some l =>
      f ← the (rotationHeap b !! l);
      reject (rf_abandoned f || negb (equalDigest (rf_binding f) (rq_binding next)) || negb (rf_fromEpoch f =? ln_epoch lineage)
              || rf_committed f) ErrConflict;;
      reserve_lease;;
      modify (upd_rotation l (fun f => rf_set_waiters (rf_waiters f + 1) (rf_set_leaseReserved (rf_leaseReserved f + 1) f)));;
      mret (RotationJoined l)
  | None => start_rotation next lineage
  end.

(** [cancelRotationWaiter]; the result says whether the commit came first. *)
Definition cancelRotationWaiter (l : loc) : locked bool :=
  b ← get_state;
  f ← the (rotationHeap b !! l);
  if rf_committed f then mret true else
  modify (upd_rotation l (fun f => rf_set_waiters (at_least_zero (rf_waiters f)) f));;
  when (0 <? rf_leaseReserved f) (
    modify (upd_rotation l (fun f => rf_set_leaseReserved (rf_leaseReserved f - 1) f));;
    modify (fun b => set_leaseReservations (at_least_zero (leaseReservations b)) b));;
  when (negb (rf_finished f) && (at_least_zero (rf_waiters f) =? 0)) (
    modify (upd_rotation l (fun f => rf_set_canceled true (rf_set_abandoned true f)));;
    invalidate_source (rf_source f));;
  mret false.

(** [waitRotation] after the flight is done: the lease and the prior
    revocation. *)
Definition rotate_end (l : loc) (canceled : bool) : locked (loc * RevocationResult) :=
  modify (upd_rotation l (fun f => rf_set_waiters (at_least_zero (rf_waiters f)) f));;
  b ← get_state;
  f ← the (rotationHeap b !! l);
  if rf_committed f then
    match last (rf_leases f) with
    | Some lease =>
        modify (upd_rotation l (fun f => rf_set_leases (removelast (rf_leases f)) f));;
        mret (lease, rf_revocation f)
    | None => throw ErrUnavailable
    end
  else
    reject canceled ErrContext;;
    match rf_err f with Some e => throw e | None => throw ErrUnavailable end.

(** [runRotation], the section after the source was resolved. *)
Definition rotation_resolved (l : loc) (expiresAt : time) : locked unit :=
  b ← get_state;
  f ← the (rotationHeap b !! l);
  modify (upd_rotation l (rf_set_sourceExpiresAt expiresAt));;
  when (rf_resolveActive f) (
    modify (upd_rotation l (rf_set_resolveActive false));;
    modify (fun b => set_activeResolves (at_least_zero (activeResolves b)) b)).

Definition consumeRotationPublishReservationsLocked (l : loc) (f : rotationFlight) : locked unit :=
  when (rf_reserved f) (
    modify (upd_rotation l (rf_set_reserved false));;
    modify (fun b => set_sessionReservations (at_least_zero (sessionReservations b)) b));;
  when (rf_sourceReserved f) (
    modify (upd_rotation l (rf_set_sourceReserved false));;
    modify (fun b => set_sourceReservations (at_least_zero (sourceReservations b)) b));;
  when (rf_operationReserved f) (
    modify (upd_rotation l (rf_set_operationReserved false));;
    modify (fun b => set_operationReservations (at_least_zero (operationReservations b)) b)).

Definition releaseRotationReservationsLocked (l : loc) (f : rotationFlight) : locked unit :=
  consumeRotationPublishReservationsLocked l f;;
  when (0 <? rf_leaseReserved f) (
    modify (fun b => set_leaseReservations (if rf_leaseReserved f <=? leaseReservations b then leaseReservations b - rf_leaseReserved f else 0) b);;
    modify (upd_rotation l (rf_set_leaseReserved 0))).

(** ** Invalidation: lifecycle.go *)

Definition mergeRevocation (left right : RevocationResult) : RevocationResult :=
  if bool_decide (left = RevocationPending) || bool_decide (right = RevocationPending) then RevocationPending
  else if bool_decide (left = RevocationExpiryBound) || bool_decide (right = RevocationExpiryBound) then RevocationExpiryBound
  else if bool_decide (left = RevocationProviderConfirmed) || bool_decide (right = RevocationProviderConfirmed)
  then RevocationProviderConfirmed else RevocationNotRequired.

(** One iteration of [invalidateMatchingCellsLocked] on a matching cell. *)
Definition invalidate_matching (now : time) (l : loc) : locked unit :=
  b ← get_state;
  match cellHeap b !! l with
  | None => mret tt
  | Some c =>
      if is_some (sc_revocation c) then mret tt
      else if before now (is_expiresAt (sc_session c)) then invalidateCellLocked l c true
      else invalidateCellLocked l c false;; addSessionLocked (sc_session c)
  end.

Definition matching_cells (matches : sessionCell -> bool) (b : Broker) : list loc :=
  List.filter (fun l => match cellHeap b !! l with Some c => matches c | None => false end) (elements (cells b)).

Definition unfinishedRevocationsLocked (matches : sessionCell -> bool) (b : Broker) : list loc :=
  List.filter (fun l => match cellHeap b !! l with Some c => revocation_running c | None => false end) (matching_cells matches b).

(** The result is the attempts to wait for: those that were running, and those
    of the cells just invalidated. *)
Definition invalidateMatchingCellsLocked (matches : sessionCell -> bool) (now : time) : locked (list loc) :=
  matching ← gets (matching_cells matches);
  for_each (invalidate_matching now) matching;;
  gets (fun b => List.filter (fun l => match cellHeap b !! l with Some c => revocation_running c | None => false end) matching).

Definition source_matches (k : connectionKey) (b : Broker) (l : loc) : bool :=
  match entryHeap b !! l with Some e => bool_decide (se_key e = k) | None => false end.

Definition invalidate_cached (p : SourceDigest * loc) : locked unit :=
  let '(digest, l) := p in
  b ← get_state;
  modify (fun b => set_sources (delete digest (sources b)) b);;
  modify (upd_entry l (se_set_invalid true));;
  addSourceLocked (entryHeap b !! l ≫= se_material).

Definition invalidate_retired (l : loc) : locked unit :=
  b ← get_state;
  modify (fun b => set_retiredSources (retiredSources b ∖ {[l]}) b);;
  modify (upd_entry l (se_set_retired false));;
  addSourceLocked (entryHeap b !! l ≫= se_material).

Definition cancel_source_flight (l : loc) : locked unit :=
  b ← get_state;
  match sourceFlightHeap b !! l with
  | Some f => addFlightSourceLocked (sf_source f);; add_cancellation (CSourceFlight l)
  | None => mret tt
  end.

Definition cancel_rotation (l : loc) : locked unit :=
  b ← get_state;
  match rotationHeap b !! l with
  | Some f => addFlightSourceLocked (rf_source f);; add_cancellation (CRotation l)
  | None => mret tt
  end.

Definition source_flights_of (matches : sourceFlight -> bool) (b : Broker) : list loc :=
  List.filter (fun l => match sourceFlightHeap b !! l with Some f => matches f | None => false end) (map_to_list (sourceFlights b)).*2.

Definition session_flights_of (matches : sessionFlight -> bool) (b : Broker) : list loc :=
  List.filter (fun l => match flightHeap b !! l with Some f => matches f | None => false end) (map_to_list (sessionFlights b)).*2.

Definition cancel_session_flight (l : loc) : locked unit := add_cancellation (CSessionFlight l).

Definition invalidateConnectionLocked (k : connectionKey) (now : time) (excluded : option loc) : locked (list loc) :=
  cached ← gets (fun b => List.filter (fun p => source_matches k b p.2) (map_to_list (sources b)));
  for_each invalidate_cached cached;;
  retired ← gets (fun b => List.filter (source_matches k b) (elements (retiredSources b)));
  for_each invalidate_retired retired;;
  fetching ← gets (source_flights_of (fun f => bool_decide (sf_connKey f = k)));
  for_each cancel_source_flight fetching;;
  issuing ← gets (session_flights_of (fun f => bool_decide (fl_connKey f = k)));
  for_each cancel_session_flight issuing;;
  rotation ← gets (fun b => rotations b !! k);
  match rotation with Some l => when (negb (bool_decide (excluded = Some l))) (cancel_rotation l) | None => mret tt end;;
  invalidateMatchingCellsLocked (fun c => bool_decide (sc_connKey c = k)) now.

(** The flights a lifecycle call waits for. *)
Definition connectionFlightsLocked (k : connectionKey) (b : Broker) : list loc * list loc :=
  (session_flights_of (fun f => bool_decide (fl_connKey f = k) && negb (fl_finished f)) b,
   source_flights_of (fun f => bool_decide (sf_connKey f = k) && negb (sf_finished f)) b).

Definition operationFlightsLocked (k : operationKey) (b : Broker) : list loc :=
  session_flights_of (fun f => bool_decide (fl_opKey f = k) && negb (fl_finished f)) b.

Definition allNonRotationFlightsLocked (b : Broker) : list loc * list loc :=
  (session_flights_of (fun f => negb (fl_finished f)) b, source_flights_of (fun f => negb (sf_finished f)) b).

Definition rotation_unfinished (b : Broker) (l : loc) : bool :=
  match rotationHeap b !! l with Some f => negb (rf_finished f) | None => false end.

Definition unfinishedRotationsLocked (b : Broker) : bool := existsb (rotation_unfinished b) (map_to_list (rotations b)).*2.

Definition connectionRotationPendingLocked (k : connectionKey) (b : Broker) : bool :=
  match rotations b !! k with Some l => rotation_unfinished b l | None => false end.

Definition pendingRotationForConnectionLocked (q : Request) (b : Broker) : option (loc * rotationFlight) :=
  l ← rotations b !! keyForConnection q; f ← rotationHeap b !! l;
  let want := rq_source (rf_request f) in
  let got := rq_source q in
  if rf_committed f || rf_finished f || negb (rq_connectionGeneration (rf_request f) =? rq_connectionGeneration q)
     || negb (String.eqb (rq_provider (rf_request f)) (rq_provider q)) || negb (String.eqb (sl_referenceID want) (sl_referenceID got))
     || negb (String.eqb (sl_version want) (sl_version got)) || negb (equalDigest (sl_digest want) (sl_digest got))
  then None else Some (l, f).

Definition pendingRotationForLifecycleLocked (q : Request) (b : Broker) : result Failure (option (loc * rotationFlight)) :=
  match (l ← rotations b !! keyForConnection q; f ← rotationHeap b !! l; Some (l, f)) with
  | None => Ok None
  | Some (l, f) =>
      if rf_committed f || rf_finished f then Ok None else
      let sameOperation := bool_decide (keyForOperation (rf_request f) = keyForOperation q) in
      let sameBinding := equalDigest (rf_binding f) (rq_binding q) in
      if sameOperation && negb sameBinding then Err ErrConflict
      else if negb sameOperation || negb sameBinding || negb (rq_connectionGeneration (rf_request f) =? rq_connectionGeneration q)
      then Ok None else Ok (Some (l, f))
  end.

Definition validateLifecycleLineageLocked (q : Request) (b : Broker) : result Failure (option lineageState) :=
  match lineages b !! keyForConnection q with
  | None => Ok None
  | Some lineage =>
      if rq_connectionGeneration q <? ln_generation lineage then Err ErrStale
      else if ln_generation lineage <? rq_connectionGeneration q then Err ErrCredentialRotationRequired
      else if negb (sameLineageRequest lineage q) then Err ErrConflict
      else Ok (Some lineage)
  end.

(** What a lifecycle call waits for after its locked section, and what it
    reports with it. *)
Record cleanup := Cl {
  cl_attempts : list loc;
  cl_sessionFlights : list loc;
  cl_sourceFlights : list loc;
  cl_pending : bool;
  cl_evidence : RevocationResult;
  cl_clockErr : bool;
}.

Definition connection_cleanup (k : connectionKey) (now : time) (attempts : list loc) (pending : bool) : locked cleanup :=
  gets (fun b => let '(ss, so) := connectionFlightsLocked k b in Cl attempts ss so pending (connectionExpiryEvidenceLocked b k now) false).

(** An unfinished rotation that has not committed is revoked with its target. *)
Definition revoke_through (q : Request) (b : Broker) : Z :=
  match l ← rotations b !! keyForConnection q; rotationHeap b !! l with
  | Some f => if negb (rf_finished f) && negb (rf_committed f) then Z.max (rq_connectionGeneration q) (rq_connectionGeneration (rf_request f))
              else rq_connectionGeneration q
  | None => rq_connectionGeneration q
  end.

(** Raising the tombstone: a new epoch, and nothing through [generation] serves
    again. *)
Definition bury (epoch generation : Z) (s : lineageState) : lineageState :=
  ln_set_epoch epoch (if ln_revokedThrough s <? generation then ln_set_revokedThrough generation s else s).

Definition revoke_lineage (q : Request) (now : time) (pending : bool) (through : Z) : locked cleanup :=
  let key := keyForConnection q in
  epoch ← newEpochLocked;
  b ← get_state;
  when (negb (is_some (lineages b !! key))) (modify (fun b => set_lineages (<[key := newLineageState q epoch]> (lineages b)) b));;
  modify (upd_lineage key (bury epoch through));;
  attempts ← invalidateConnectionLocked key now None;
  connection_cleanup key now attempts pending.

(** [RevokeConnection], up to the wait. *)
Definition RevokeConnection (q : Request) (canceled : bool) (sample : clockSample) : locked cleanup :=
  reject (negb (Request_Valid q)) ErrInvalid;;
  reject canceled ErrContext;;
  ensure_open;;
  now ← observeNowLocked sample;
  sweepLocked now;;
  b ← get_state;
  let key := keyForConnection q in
  let waiting := unfinishedRevocationsLocked (fun c => bool_decide (sc_connKey c = key)) b in
  match pendingRotationForConnectionLocked q b, lineages b !! key with
  | Some (_, pending), Some lineage =>
      if negb (ln_epoch lineage =? rf_fromEpoch pending) then
        if rq_connectionGeneration q <=? ln_revokedThrough lineage then connection_cleanup key now waiting true else throw ErrRevoked
      else revoke_lineage q now true (rq_connectionGeneration q)
  | Some _, None => throw ErrRevoked
  | None, Some lineage =>
      reject (rq_connectionGeneration q <? ln_generation lineage) ErrStale;;
      reject ((rq_connectionGeneration q =? ln_generation lineage) && negb (sameLineageRequest lineage q)) ErrConflict;;
      if rq_connectionGeneration q <=? ln_revokedThrough lineage then
        connection_cleanup key now waiting (connectionRotationPendingLocked key b)
      else
        lift (validateLifecycleLineageLocked q b);;
        revoke_lineage q now (connectionRotationPendingLocked key b) (revoke_through q b)
  | None, None =>
      reject (connections_full b key) ErrCapacity;;
      revoke_lineage q now (connectionRotationPendingLocked key b) (revoke_through q b)
  end.

Definition terminate (k : operationKey) (q : Request) (epoch : Z) (b : Broker) : Broker :=
  let s := default (OS (rq_binding q) 0 false zero_time) (operations b !! k) in
  set_operations (<[k := OS (os_binding s) epoch true (os_expiryBoundUntil s)]> (operations b)) b.

(** The reservation a pending rotation held for the operation is spent on it. *)
Definition spend_reservation (pending : option (loc * rotationFlight)) : locked unit :=
  match pending with
  | Some (l, f) =>
      when (rf_operationReserved f) (
        modify (upd_rotation l (rf_set_operationReserved false));;
        modify (fun b => set_operationReservations (at_least_zero (operationReservations b)) b))
  | None => mret tt
  end.

Definition rotations_of (k : operationKey) (b : Broker) : list loc :=
  List.filter (fun l => match rotationHeap b !! l with Some f => bool_decide (keyForOperation (rf_request f) = k) | None => false end)
    (map_to_list (rotations b)).*2.

Definition operation_cleanup (k : operationKey) (now : time) (attempts : list loc) (pending : bool) : locked cleanup :=
  gets (fun b => Cl attempts (operationFlightsLocked k b) [] pending (operationExpiryEvidenceLocked b k now) false).

(** The lineage under which an operation ends: that of the request, or the one a
    pending rotation starts from. *)
Definition lifecycle_lineage (q : Request) (pending : option (loc * rotationFlight)) (b : Broker) : result Failure (option lineageState) :=
  match pending with
  | None => validateLifecycleLineageLocked q b
  | Some (_, f) =>
      match lineages b !! keyForConnection q with
      | Some lineage => if ln_epoch lineage =? rf_fromEpoch f then Ok (Some lineage) else Err ErrRevoked
      | None => Err ErrRevoked
      end
  end.

(** [terminateOperation], up to the wait: [CancelOperation] and
    [CloseOperation]. *)
Definition terminateOperation (q : Request) (canceled : bool) (sample : clockSample) : locked cleanup :=
  reject (negb (Request_Valid q)) ErrInvalid;;
  reject canceled ErrContext;;
  ensure_open;;
  now ← observeNowLocked sample;
  sweepLocked now;;
  b ← get_state;
  pending ← lift (pendingRotationForLifecycleLocked q b);
  let opKey := keyForOperation q in
  let connKey := keyForConnection q in
  lift (match operations b !! opKey with
        | Some s => fail_if (negb (equalDigest (os_binding s) (rq_binding q))) ErrConflict
        | None => Ok tt
        end);;
  if match operations b !! opKey with Some s => os_terminal s | None => false end then
    operation_cleanup opKey now (unfinishedRevocationsLocked (fun c => bool_decide (sc_opKey c = opKey)) b) (is_some pending)
  else
    reject (negb (is_some pending) && (connections_full b connKey || operations_full b opKey)) ErrCapacity;;
    lineage ← lift (lifecycle_lineage q pending b);
    first ← reserveEpochsLocked (if is_some lineage then 1 else 2);
    when (negb (is_some lineage)) (modify (fun b => set_lineages (<[connKey := newLineageState q first]> (lineages b)) b));;
    when (negb (is_some (operations b !! opKey))) (spend_reservation pending);;
    modify (terminate opKey q (if is_some lineage then first else first + 1));;
    issuing ← gets (session_flights_of (fun f => bool_decide (fl_opKey f = opKey)));
    for_each cancel_session_flight issuing;;
    rotating_ ← gets (rotations_of opKey);
    for_each cancel_rotation rotating_;;
    attempts ← invalidateMatchingCellsLocked (fun c => bool_decide (sc_opKey c = opKey)) now;
    operation_cleanup opKey now attempts (is_some pending).

(** [Close], up to the wait.  A clock failure does not keep the broker open. *)
Definition Broker_Close (sample : clockSample) : locked cleanup := fun b0 =>
  let '(observed, b) := observeNowLocked sample b0 in
  let now := match observed with Ok now => now | Err _ => lastNow b end in
  if closed b0 then
    (when (result_ok observed) (sweepExpiryEvidenceLocked now);;
     gets (fun b => let '(ss, so) := allNonRotationFlightsLocked b in
       Cl (unfinishedRevocationsLocked (fun _ => true) b) ss so (unfinishedRotationsLocked b) (allExpiryEvidenceLocked b (lastNow b))
       (negb (result_ok observed)))) b
  else
    (modify (set_closed true);;
     flights ← gets allNonRotationFlightsLocked;
     pending ← gets unfinishedRotationsLocked;
     fetching ← gets (source_flights_of (fun _ => true));
     for_each cancel_source_flight fetching;;
     issuing ← gets (session_flights_of (fun _ => true));
     for_each cancel_session_flight issuing;;
     rotating_ ← gets (fun b => (map_to_list (rotations b)).*2);
     for_each cancel_rotation rotating_;;
     cached ← gets (fun b => map_to_list (sources b));
     for_each invalidate_cached cached;;
     retired ← gets (fun b => elements (retiredSources b));
     for_each invalidate_retired retired;;
     attempts ← invalidateMatchingCellsLocked (fun _ => true) now;
     gets (fun b => Cl attempts flights.1 flights.2 pending (allExpiryEvidenceLocked b now) (negb (result_ok observed)))) b.

(** ** Revocation attempts *)

Definition start_attempt (a : revocationAttempt) : revocationAttempt := RA true (ra_finished a) (ra_result a) (ra_err a).

(** The locked part of [waitLifecycleCleanup]: attempts not started are. *)
Definition start_revocations (attempts : list loc) : locked unit :=
  for_each (fun l => modify (upd_cell l (fun c => sc_set_revocation (start_attempt <$> sc_revocation c) c))) attempts.

Definition waits (c : cleanup) : bool :=
  negb (bool_decide (cl_attempts c ++ cl_sessionFlights c ++ cl_sourceFlights c = [])).

(** What the wait reports: [late l] are the waits that ran out of time.  The
    error of a flight's cleanup comes with a pending result, as [runRevocation]
    makes sure. *)
Definition cleanup_outcome (c : cleanup) (late : loc -> bool) (canceled : bool) (b : Broker) : RevocationResult * option Failure :=
  let attempt_result l := match cellHeap b !! l ≫= sc_revocation with Some a => (ra_result a, ra_err a || negb (ra_finished a) || late l) | None => (RevocationPending, true) end in
  let flight_result l := match flightHeap b !! l with
                         | Some f => (fl_revocation f, bool_decide (fl_revocation f = RevocationPending) || negb (fl_finished f) || late l)
                         | None => (RevocationPending, true)
                         end in
  let source_late l := match sourceFlightHeap b !! l with Some f => negb (sf_finished f) || late l | None => true end in
  let results := (attempt_result <$> cl_attempts c) ++ (flight_result <$> cl_sessionFlights c) in
  let failed := existsb snd results || existsb source_late (cl_sourceFlights c) in
  let aggregate := foldl mergeRevocation RevocationNotRequired results.*1 in
  if canceled && waits c then (RevocationPending, Some ErrContext)
  else if failed || cl_clockErr c then (RevocationPending, Some ErrUnavailable)
  else (mergeRevocation (if cl_pending c then mergeRevocation aggregate RevocationPending else aggregate) (cl_evidence c), None).

(** [Close] looks at the context once more after the wait. *)
Definition close_outcome (c : cleanup) (late : loc -> bool) (canceled : bool) (b : Broker) : RevocationResult * option Failure :=
  if canceled then (RevocationPending, Some ErrContext) else cleanup_outcome c late false b.

(** [runRevocation] after the issuer has answered: [answered] is its result,
    [None] when it failed or ran out of time. *)
Definition finish_revocation (l : loc) (answered : option RevocationResult) : locked unit :=
  b ← get_state;
  c ← the (cellHeap b !! l);
  let confirmed := match answered with Some RevocationProviderConfirmed => Some RevocationProviderConfirmed
                                  | Some RevocationExpiryBound => Some RevocationExpiryBound
                                  | _ => None end in
  let result := default RevocationPending confirmed in
  let expiresAt := is_expiresAt (sc_session c) in
  modify (fun b => set_material (IssuedSession_Destroy (sc_session c) (material b)) b);;
  when ((bool_decide (result = RevocationExpiryBound) || bool_decide (result = RevocationPending)) && before (lastNow b) expiresAt)
    (recordExpiryUntilLocked c expiresAt);;
  modify (upd_cell l (sc_set_revocation (Some (RA true true result (negb (is_some confirmed))))));;
  when (sc_refs c =? 0) (modify (fun b => set_cells (cells b ∖ {[l]}) b)).

(** ** Committing a rotation *)

(** The checks of [commitRotation], in order. *)
Definition commit_check (l : loc) (f : rotationFlight) (source : option cell) (issued : option IssuedSession) (now : time) (b : Broker)
    : result Failure lineageState :=
  let q := rf_request f in
  fail_if (closed b) ErrClosed;;
  fail_if (negb (bool_decide (rotations b !! rf_connKey f = Some l))) ErrConflict;;
  fail_if (rf_abandoned f || (rf_waiters f =? 0) || rf_canceled f) ErrUnavailable;;
  lineage ← of_option (lineages b !! rf_connKey f) ErrRevoked;
  fail_if (negb (ln_epoch lineage =? rf_fromEpoch f) || negb (ln_generation lineage =? rf_fromGen f)) ErrRevoked;;
  fail_if (negb (result_ok (validateRotationTarget lineage q))) ErrConflict;;
  match operations b !! keyForOperation q with
  | Some s => fail_if (os_terminal s) ErrOperationTerminated;; fail_if (negb (equalDigest (os_binding s) (rf_binding f))) ErrConflict
  | None => Ok tt
  end;;
  fail_if ((rf_leaseReserved f =? 0) || negb (rf_leaseReserved f =? rf_waiters f) || (leaseReservations b <? rf_leaseReserved f)) ErrUnavailable;;
  fail_if (is_zero (rf_sourceExpiresAt f) || negb (before now (rf_sourceExpiresAt f))) ErrUnavailable;;
  fail_if (negb (material_valid (material b) source)
           || negb (match issued with Some s => validIssuedSession (material b) q s now | None => false end)) ErrUnavailable;;
  fail_if (negb (source_owns b (rf_source f) source)) ErrUnavailable;;
  Ok lineage.

Definition rotated_lineage (q : Request) (epoch : Z) (s : lineageState) : lineageState :=
  let source := rq_source q in
  LS (rq_connectionGeneration q) (rq_provider q) (sl_referenceID source) (sl_version source) (sl_digest source) epoch
     (ln_revokedThrough s) (ln_expiryBoundUntil s).

Definition rotated_operation (f : rotationFlight) (epoch : Z) (s : option operationState) : operationState :=
  OS (rf_binding f) epoch false (default zero_time (os_expiryBoundUntil <$> s)).

(** [n] leases on one cell, each out of a reservation. *)
Fixpoint grant_leases (n : nat) (rotation c : loc) : locked unit :=
  match n with
  | O => mret tt
  | S n' =>
      lease ← allocateLeaseLocked c;
      modify (upd_rotation rotation (fun f => rf_set_leaseReserved (rf_leaseReserved f - 1) (rf_set_leases (rf_leases f ++ [lease]) f)));;
      modify (fun b => set_leaseReservations (leaseReservations b - 1) b);;
      grant_leases n' rotation c
  end.

(** The locked section of [commitRotation]: the cutover.  The result is what
    remains to be waited for, with the evidence of before. *)
Definition commitRotation (l : loc) (source : option cell) (issued : option IssuedSession) (sample : clockSample) : locked cleanup :=
  now ← observeNowLocked sample;
  b ← get_state;
  f ← the (rotationHeap b !! l);
  lift (commit_check l f source issued now b);;
  session ← the issued;
  connEpoch ← reserveEpochsLocked 2;
  let opEpoch := connEpoch + 1 in
  let key := rf_connKey f in
  let q := rf_request f in
  taken ← take_source (rf_source f) source;
  reject (negb taken) ErrUnavailable;;
  prior ← gets (fun b => connectionExpiryEvidenceLocked b key now);
  attempts ← invalidateConnectionLocked key now (Some l);
  flights ← gets (connectionFlightsLocked key);
  modify (upd_lineage key (rotated_lineage q connEpoch));;
  modify (fun b => set_operations (<[keyForOperation q := rotated_operation f opEpoch (operations b !! keyForOperation q)]> (operations b)) b);;
  use ← touchLocked;
  entries ← gets entryHeap;
  let entry := fresh (dom entries) in
  modify (fun b => set_entryHeap (<[entry := SE key (sl_digest (rq_source q)) connEpoch source (rf_sourceExpiresAt f) use 0 false false]> (entryHeap b)) b);;
  modify (fun b => set_sources (<[sl_digest (rq_source q) := entry]> (sources b)) b);;
  use ← touchLocked;
  heap ← gets cellHeap;
  let c := fresh (dom heap) in
  modify (fun b => set_cellHeap (<[c := SC q session key (keyForOperation q) (rf_binding f) connEpoch opEpoch use 0 0 false false false None]>
                                   (cellHeap b)) b);;
  modify (fun b => set_sessions (<[rf_binding f := c]> (sessions b)) b);;
  modify (fun b => set_cells ({[c]} ∪ cells b) b);;
  modify (upd_rotation l (rf_set_cell (Some c)));;
  grant_leases (Z.to_nat (rf_leaseReserved f)) l c;;
  consumeRotationPublishReservationsLocked l f;;
  modify (upd_rotation l (rf_set_committed true));;
  mret (Cl attempts flights.1 flights.2 false prior false).

(** The end of a committed rotation; an uncertain cleanup is reported as
    pending. *)
Definition rotation_committed (l : loc) (outcome : RevocationResult * option Failure) : locked unit :=
  b ← get_state;
  f ← the (rotationHeap b !! l);
  let result := match outcome.2 with Some _ => RevocationPending | None => outcome.1 end in
  modify (upd_rotation l (fun f => rf_set_canceled true (rf_set_finished true (rf_set_err None (rf_set_revocation result f)))));;
  when (bool_decide (rotations b !! rf_connKey f = Some l)) (modify (fun b => set_rotations (delete (rf_connKey f) (rotations b)) b)).

(** [finishRotationFailure], its first section and the destruction after it. *)
Definition fail_rotation (l : loc) (err : Failure) : locked unit :=
  b ← get_state;
  f ← the (rotationHeap b !! l);
  let lineage_ok := match lineages b !! rf_connKey f with Some s => ln_epoch s =? rf_fromEpoch f | None => false end in
  let terminal := match operations b !! keyForOperation (rf_request f) with Some s => os_terminal s | None => false end in
  let err := if closed b then ErrClosed else if negb lineage_ok then ErrRevoked else if terminal then ErrOperationTerminated else err in
  modify (upd_rotation l (rf_set_err (normalizeFlightError (Some err))));;
  invalidate_source (rf_source f);;
  modify (upd_rotation l (rf_set_canceled true)).

(** [finishRotationFailure] after the cleanup of what was issued. *)
Definition rotation_failed (l : loc) (revocation : RevocationResult) : locked unit :=
  b ← get_state;
  f ← the (rotationHeap b !! l);
  modify (upd_rotation l (rf_set_revocation revocation));;
  when (bool_decide (rotations b !! rf_connKey f = Some l)) (modify (fun b => set_rotations (delete (rf_connKey f) (rotations b)) b));;
  releaseRotationReservationsLocked l f;;
  when (rf_resolveActive f) (
    modify (upd_rotation l (rf_set_resolveActive false));;
    modify (fun b => set_activeResolves (at_least_zero (activeResolves b)) b));;
  modify (upd_rotation l (rf_set_finished true)).

(** ** Histories *)

(** Every section with its arguments, and the steps outside the lock. *)
Inductive broker_event :=
| ESample (observed : time)
| ERegister (recipient : Recipient)
| ESweep (sample : clockSample)
| EDestroy (i : nat)
| ERelease (i : nat)
| EPublish (i : nat)
| EAcquire (q : Request) (force canceled : bool) (sample : clockSample)
| ELeaveSession (flight : loc) (canceled : bool)
| EAcquired (flight : loc) (sample : clockSample)
| EFinishSession (flight : loc) (issued : option IssuedSession) (failed : option Failure) (sample : clockSample)
| ECleanup (q : Request) (issued : option IssuedSession)
| ESessionCleaned (flight : loc) (unpublished : option loc)
| ESessionDone (flight : loc)
| ELeaseClose (lease : loc)
| ELeaseClosed (lease : loc)
| EUseBegin (lease : loc) (canceled : bool)
| EUseCheck (lease : loc) (sample : clockSample)
| EUseAdmit (lease : loc) (canceled : bool) (sample : clockSample)
| EUseFinish (lease : loc) (expires : time) (callbackFailed : bool) (sample : clockSample)
| ESource (q : Request) (connEpoch : Z) (sample : clockSample)
| ELeaveSource (flight : loc) (canceled : bool)
| ESourced (flight : loc) (sample : clockSample)
| EResolved (source : loc) (returned : option cell) (good : bool) (sample : clockSample)
| EFinishSource (flight : loc) (m : option cell) (expiresAt : time) (failed : option Failure) (sample : clockSample)
| ESourceFailed (flight : loc)
| EReleaseBorrow (entry : loc)
| ERotate (next : Request) (canceled : bool) (sample : clockSample)
| ECancelRotation (flight : loc)
| ERotated (flight : loc) (canceled : bool)
| ERotationResolved (flight : loc) (expiresAt : time)
| ECommitRotation (flight : loc) (source : option cell) (issued : option IssuedSession) (sample : clockSample)
| ERotationCommitted (flight : loc) (outcome : RevocationResult * option Failure)
| EFailRotation (flight : loc) (err : Failure)
| ERotationFailed (flight : loc) (revocation : RevocationResult)
| ERevoke (q : Request) (canceled : bool) (sample : clockSample)
| ETerminate (q : Request) (canceled : bool) (sample : clockSample)
| EClose (sample : clockSample)
| EStartRevocations (attempts : list loc)
| ERevoked (c : loc) (answered : option RevocationResult)
| ENewMaterial (m : cell) (state : materialState).

(** Resolvers and issuers write new material outside the broker. *)
Definition new_material (m : cell) (state : materialState) : locked unit :=
  modify (fun b => if is_some (material b !! m) then b else set_material (<[m := state]> (material b)) b).

Definition step (e : broker_event) (b : Broker) : Broker :=
  match e with
  | ESample observed => (sampleNow observed b).2
  | ERegister recipient => (RegisterIssuer recipient b).2
  | ESweep sample => (SweepExpired sample b).2
  | EDestroy i => (destroy_queued i b).2
  | ERelease i => (release_queued i b).2
  | EPublish i => (publish_queued i b).2
  | EAcquire q force canceled sample => (acquire_begin q force canceled sample b).2
  | ELeaveSession l canceled => (leaveSessionFlight l canceled b).2
  | EAcquired l sample => (acquire_end l sample b).2
  | EFinishSession l issued failed sample => (finish_session l issued failed sample b).2
  | ECleanup q issued => (cleanupUnpublished q issued b).2
  | ESessionCleaned l unpublished => (session_cleaned l unpublished b).2
  | ESessionDone l => (session_done l b).2
  | ELeaseClose l => (Lease_Close_begin l b).2
  | ELeaseClosed l => (Lease_Close_end l b).2
  | EUseBegin l canceled => (use_begin l canceled b).2
  | EUseCheck l sample => (use_check l sample b).2
  | EUseAdmit l canceled sample => (use_admit l canceled sample b).2
  | EUseFinish l expires failed sample => (use_finish l expires failed sample b).2
  | ESource q connEpoch sample => (acquireSource_begin q connEpoch sample b).2
  | ELeaveSource l canceled => (leaveSourceFlight l canceled b).2
  | ESourced l sample => (acquireSource_end l sample b).2
  | EResolved l returned good sample => (resolve_returned l returned good sample b).2
  | EFinishSource l m expiresAt failed sample => (finishSourceFlight l m expiresAt failed sample b).2
  | ESourceFailed l => (source_failed l b).2
  | EReleaseBorrow l => (release_borrow l b).2
  | ERotate next canceled sample => (rotate_begin next canceled sample b).2
  | ECancelRotation l => (cancelRotationWaiter l b).2
  | ERotated l canceled => (rotate_end l canceled b).2
  | ERotationResolved l expiresAt => (rotation_resolved l expiresAt b).2
  | ECommitRotation l source issued sample => (commitRotation l source issued sample b).2
  | ERotationCommitted l outcome => (rotation_committed l outcome b).2
  | EFailRotation l err => (fail_rotation l err b).2
  | ERotationFailed l revocation => (rotation_failed l revocation b).2
  | ERevoke q canceled sample => (RevokeConnection q canceled sample b).2
  | ETerminate q canceled sample => (terminateOperation q canceled sample b).2
  | EClose sample => (Broker_Close sample b).2
  | EStartRevocations attempts => (start_revocations attempts b).2
  | ERevoked c answered => (finish_revocation c answered b).2
  | ENewMaterial m state => (new_material m state b).2
  end.

Definition run (es : list broker_event) (b : Broker) : Broker := foldl (fun b e => step e b) b es.
