(* ===== verification/BrokerWalk.v ===== *)
(** * Walking over locked sections

    A relation between the broker's state before and after that is reflexive and
    transitive holds of a section when it holds of its atomic updates.  The
    tactic [walk] takes a section apart; the hint database [broker] holds what
    is known of the named helpers. *)

From S2P Require Import Prelude Bytes GoTime Calendar Digests Hierarchy Identity AuthzVocabulary Authorization.
From S2P Require Import Condition Control Operation Resource Credential BrokerState Broker.
From Stdlib Require Import Ascii String.

Create HintDb broker.

Definition keeps (R : Broker -> Broker -> Prop) {A} (m : locked A) : Prop := forall b r b', m b = (r, b') -> R b b'.

Section Keeps.
Context (R : Broker -> Broker -> Prop) `{!PreOrder R}.

Lemma keeps_ret {A} (a : A) : keeps R (mret a).
Proof. intros b r b' [= <- <-]. reflexivity. Qed.

Lemma keeps_pure {A} (f : Broker -> result Failure A) : keeps R (fun b => (f b, b)).
Proof. intros b r b' [= <- <-]. reflexivity. Qed.

Lemma keeps_get : keeps R get_state.
Proof. apply keeps_pure. Qed.

Lemma keeps_gets {A} (f : Broker -> A) : keeps R (gets f).
Proof. apply keeps_pure. Qed.

Lemma keeps_lift {A} (r : result Failure A) : keeps R (lift r).
Proof. intros b r' b' [= <- <-]. reflexivity. Qed.

Lemma keeps_reject c e : keeps R (reject c e).
Proof. apply keeps_lift. Qed.

Lemma keeps_the {A} (o : option A) : keeps R (the o).
Proof. apply keeps_lift. Qed.

Lemma keeps_throw {A} e : keeps R (throw e : locked A).
Proof. apply (keeps_lift (Err e)). Qed.

Lemma keeps_bind {A B} (m : locked A) (f : A -> locked B) : keeps R m -> (forall a, keeps R (f a)) -> keeps R (m ≫= f).
Proof.
  intros Hm Hf b r b' E. unfold mbind, ST_bind in E. destruct (m b) as [[a|e] b1] eqn:E1.
  - transitivity b1; [by eapply Hm | by eapply Hf].
  - injection E as <- <-. by eapply Hm.
Qed.

Lemma keeps_modify f : (forall b, R b (f b)) -> keeps R (modify f).
Proof. intros Hf b r b' [= <- <-]. apply Hf. Qed.

Lemma keeps_when c m : keeps R m -> keeps R (when c m).
Proof. intros Hm. destruct c; [done | apply keeps_ret]. Qed.

Lemma keeps_for_each {X} (f : X -> locked unit) l : (forall x, keeps R (f x)) -> keeps R (for_each f l).
Proof. intros Hf. induction l as [|x l IH]; [apply keeps_ret | apply keeps_bind; [apply Hf | done]]. Qed.

Lemma keeps_on_failure {A} (m : locked A) undo : keeps R m -> keeps R undo -> keeps R (on_failure m undo).
Proof.
  intros Hm Hu b r b' E. unfold on_failure in E. destruct (m b) as [[a|e] b1] eqn:E1.
  - injection E as <- <-. by eapply Hm.
  - injection E as <- <-. transitivity b1; [by eapply Hm|]. destruct (undo b1) as [r2 b2] eqn:E2. by eapply Hu.
Qed.

(** What holds of a section holds of the state it leaves. *)
Lemma keeps_result {A} (m : locked A) b : keeps R m -> R b (m b).2.
Proof. intros Hm. destruct (m b) as [r b'] eqn:E. by eapply Hm. Qed.
End Keeps.

#[export] Hint Resolve keeps_ret keeps_get keeps_gets keeps_lift keeps_reject keeps_the keeps_throw : broker.

(** [walk] proves [keeps R m] from the atomic updates of [m]; [solve_update]
    proves the relation for one update. *)
Ltac walk_step :=
  lazymatch goal with
  | |- forall _, _ => intros ?
  | |- keeps _ (_ ≫= _) => apply keeps_bind; [apply _ | | intros ?]
  | |- keeps _ (modify _) => first [solve [eauto 3 with broker] | apply keeps_modify; intros ?]
  | |- keeps _ (when _ _) => apply keeps_when; [apply _|]
  | |- keeps _ (for_each _ _) => apply keeps_for_each; [apply _ | intros ?]
  | |- keeps _ (on_failure _ _) => apply keeps_on_failure; [apply _ | |]
  | |- keeps _ (match ?x with _ => _ end) => destruct x
  | |- keeps _ (let _ := _ in _) => cbv zeta
  | |- keeps _ ?m => first [solve [eauto 3 with broker typeclass_instances]]
  end.
Ltac walk := repeat walk_step.

(** ** Sections outside the core *)

(** The core of the state: authority, published sessions, cells, session flights,
    rotations and leases. *)
Definition same_core (b b' : Broker) : Prop :=
  b_authority b' = b_authority b /\ sessions b' = sessions b /\ cellHeap b' = cellHeap b /\ flightHeap b' = flightHeap b /\
  rotationHeap b' = rotationHeap b /\
  leaseHeap b' = leaseHeap b /\ activeLeases b' = activeLeases b /\ leaseReservations b' = leaseReservations b.

(** What an update of a cell or a flight leaves: all but its book-keeping. *)
Definition same_cell (c c' : sessionCell) : Prop :=
  sc_request c' = sc_request c /\ sc_session c' = sc_session c /\ sc_connKey c' = sc_connKey c /\ sc_opKey c' = sc_opKey c /\
  sc_binding c' = sc_binding c /\ sc_connEpoch c' = sc_connEpoch c /\ sc_opEpoch c' = sc_opEpoch c /\
  (sc_invalid c = true -> sc_invalid c' = true).

Definition same_flight (f f' : sessionFlight) : Prop :=
  fl_request f' = fl_request f /\ fl_connKey f' = fl_connKey f /\ fl_opKey f' = fl_opKey f /\ fl_binding f' = fl_binding f /\
  fl_connEpoch f' = fl_connEpoch f /\ fl_opEpoch f' = fl_opEpoch f /\ fl_fallback f' = fl_fallback f /\ fl_cell f' = fl_cell f.

Definition same_rotation (f f' : rotationFlight) : Prop :=
  rf_request f' = rf_request f /\ rf_connKey f' = rf_connKey f /\ rf_binding f' = rf_binding f.

Definition same_lineage (s s' : lineageState) : Prop :=
  ln_generation s' = ln_generation s /\ ln_epoch s' = ln_epoch s /\ ln_revokedThrough s' = ln_revokedThrough s.

Definition same_operation (s s' : operationState) : Prop :=
  os_binding s' = os_binding s /\ os_epoch s' = os_epoch s /\ os_terminal s' = os_terminal s.

(** The relations that book-keeping respects. *)
Class Frame (R : Broker -> Broker -> Prop) := {
  frame_order :: PreOrder R;
  frame_other b b' : same_core b b' -> R b b';
  frame_cell b l g : (forall c, same_cell c (g c)) -> R b (upd_cell l g b);
  frame_flight b l g : (forall f, same_flight f (g f)) -> R b (upd_flight l g b);
  frame_rotation b l g : (forall f, same_rotation f (g f)) -> R b (upd_rotation l g b);
  frame_forget b d : R b (set_sessions (delete d (sessions b)) b);
  frame_lineages b g : (forall s, same_lineage s (g s)) -> R b (set_lineages (g <$> lineages b) b);
  frame_lineage b k g : (forall s, same_lineage s (g s)) -> R b (upd_lineage k g b);
  frame_operations b g : (forall s, same_operation s (g s)) -> R b (set_operations (g <$> operations b) b);
  frame_operation b k g : (forall s, same_operation s (g s)) -> R b (upd_operation k g b);
}.

(** One update of the book-keeping. *)
Ltac solve_same :=
  let o := fresh "o" in intros o; repeat case_match; destruct o; unfold same_cell, same_flight, same_rotation, same_lineage, same_operation; simpl; tauto.
Ltac solve_update :=
  first [ solve [apply frame_cell; solve_same]
        | apply frame_flight; solve_same
        | apply frame_rotation; solve_same
        | apply frame_forget
        | apply frame_lineages; solve_same
        | apply frame_lineage; solve_same
        | apply frame_operations; solve_same
        | apply frame_operation; solve_same
        | solve [apply frame_other; repeat split]
        | progress case_match; solve_update ].
Ltac framed := walk; solve_update.

Section Helpers.
Context (R : Broker -> Broker -> Prop) `{!Frame R}.

Lemma fr_sampleNow t : keeps R (sampleNow t).
Proof. unfold sampleNow. framed. Qed.
Lemma fr_observeNowLocked s : keeps R (observeNowLocked s).
Proof. unfold observeNowLocked. framed. Qed.
Lemma fr_touchLocked : keeps R touchLocked.
Proof. unfold touchLocked. framed. Qed.
Lemma fr_addSourceLocked m : keeps R (addSourceLocked m).
Proof. unfold addSourceLocked. framed. Qed.
Lemma fr_addFlightSourceLocked m : keeps R (addFlightSourceLocked m).
Proof. unfold addFlightSourceLocked. framed. Qed.
Lemma fr_addSessionLocked m : keeps R (addSessionLocked m).
Proof. unfold addSessionLocked. framed. Qed.
Lemma fr_add_cancellation m : keeps R (add_cancellation m).
Proof. unfold add_cancellation. framed. Qed.
Lemma fr_invalidate_source l : keeps R (invalidate_source l).
Proof. unfold invalidate_source. apply keeps_modify. intros b. repeat case_match; apply frame_other; repeat split. Qed.
End Helpers.
#[export] Hint Resolve fr_sampleNow fr_observeNowLocked fr_touchLocked fr_addSourceLocked fr_addFlightSourceLocked fr_addSessionLocked
  fr_add_cancellation fr_invalidate_source : broker.

Section Disposal.
Context (R : Broker -> Broker -> Prop) `{!Frame R}.

Lemma fr_destroy_disposal d : keeps R (destroy_disposal d).
Proof. unfold destroy_disposal. framed. Qed.
#[local] Hint Resolve fr_destroy_disposal : broker.
Lemma fr_destroy_queued i : keeps R (destroy_queued i).
Proof. unfold destroy_queued. framed. Qed.
Lemma fr_release_queued i : keeps R (release_queued i).
Proof. unfold release_queued. framed. Qed.
Lemma fr_cancel c : keeps R (cancel c).
Proof. unfold cancel. framed. Qed.
#[local] Hint Resolve fr_cancel : broker.
Lemma fr_publish_queued i : keeps R (publish_queued i).
Proof. unfold publish_queued. framed. Qed.
Lemma fr_recordExpiryUntilLocked c t : keeps R (recordExpiryUntilLocked c t).
Proof. unfold recordExpiryUntilLocked. framed. Qed.
#[local] Hint Resolve fr_recordExpiryUntilLocked : broker.
Lemma fr_recordExpiryEvidenceLocked c t : keeps R (recordExpiryEvidenceLocked c t).
Proof. unfold recordExpiryEvidenceLocked. framed. Qed.
#[local] Hint Resolve fr_recordExpiryEvidenceLocked : broker.
Lemma fr_sweepExpiryEvidenceLocked t : keeps R (sweepExpiryEvidenceLocked t).
Proof. unfold sweepExpiryEvidenceLocked. framed. Qed.
Lemma fr_sweep_source t p : keeps R (sweep_source t p).
Proof. unfold sweep_source. framed. Qed.
Lemma fr_sweep_session t p : keeps R (sweep_session t p).
Proof. unfold sweep_session. framed. Qed.
#[local] Hint Resolve fr_sweepExpiryEvidenceLocked fr_sweep_source fr_sweep_session : broker.
Lemma fr_sweepLocked t : keeps R (sweepLocked t).
Proof. unfold sweepLocked. framed. Qed.
Lemma fr_forget_session l c : keeps R (forget_session l c).
Proof. unfold forget_session. framed. Qed.
#[local] Hint Resolve fr_forget_session : broker.
Lemma fr_invalidateCellLocked l c h : keeps R (invalidateCellLocked l c h).
Proof. unfold invalidateCellLocked. framed. Qed.
Lemma fr_drainCellLocked l : keeps R (drainCellLocked l).
Proof. unfold drainCellLocked. framed. Qed.
Lemma fr_makeSourceRoomLocked p : keeps R (makeSourceRoomLocked p).
Proof. unfold makeSourceRoomLocked. framed. Qed.
Lemma fr_makeSessionRoomLocked p : keeps R (makeSessionRoomLocked p).
Proof. unfold makeSessionRoomLocked. framed. Qed.
Lemma fr_pin l g : keeps R (pin l g).
Proof. unfold pin. framed. Qed.
Lemma fr_ensure_open : keeps R ensure_open.
Proof. unfold ensure_open. framed. Qed.
End Disposal.
#[export] Hint Resolve fr_destroy_disposal fr_destroy_queued fr_release_queued fr_cancel fr_publish_queued fr_recordExpiryUntilLocked
  fr_recordExpiryEvidenceLocked fr_sweepExpiryEvidenceLocked fr_sweepLocked fr_forget_session fr_invalidateCellLocked fr_drainCellLocked
  fr_makeSourceRoomLocked fr_makeSessionRoomLocked fr_pin fr_ensure_open : broker.

(** ** Sections that only keep books *)

Section Sections.
Context (R : Broker -> Broker -> Prop) `{!Frame R}.

Lemma fr_RegisterIssuer r : keeps R (RegisterIssuer r).
Proof. unfold RegisterIssuer. framed. Qed.
Lemma fr_SweepExpired s : keeps R (SweepExpired s).
Proof. unfold SweepExpired. framed. Qed.
Lemma fr_leaveSessionFlight l c : keeps R (leaveSessionFlight l c).
Proof. unfold leaveSessionFlight. framed. Qed.
Lemma fr_releaseSessionFlightLocked l : keeps R (releaseSessionFlightLocked l).
Proof. unfold releaseSessionFlightLocked. framed. Qed.
#[local] Hint Resolve fr_releaseSessionFlightLocked : broker.
Lemma fr_session_cleaned l c : keeps R (session_cleaned l c).
Proof. unfold session_cleaned. framed. Qed.
Lemma fr_session_done l : keeps R (session_done l).
Proof. unfold session_done. framed. Qed.
Lemma fr_use_begin l c : keeps R (use_begin l c).
Proof. unfold use_begin. framed. Qed.
Lemma fr_use_check l s : keeps R (use_check l s).
Proof. unfold use_check. framed. Qed.
Lemma fr_use_admit l c s : keeps R (use_admit l c s).
Proof. unfold use_admit. framed. Qed.
Lemma fr_use_finish l e c s : keeps R (use_finish l e c s).
Proof. unfold use_finish. framed. Qed.
Lemma fr_borrow_entry l : keeps R (borrow_entry l).
Proof. unfold borrow_entry. framed. Qed.
#[local] Hint Resolve fr_borrow_entry : broker.
Lemma fr_acquireSource_begin q e s : keeps R (acquireSource_begin q e s).
Proof. unfold acquireSource_begin. framed. Qed.
Lemma fr_leaveSourceFlight l c : keeps R (leaveSourceFlight l c).
Proof. unfold leaveSourceFlight. framed. Qed.
Lemma fr_acquireSource_end l s : keeps R (acquireSource_end l s).
Proof. unfold acquireSource_end. framed. Qed.
Lemma fr_publish_source l m : keeps R (publish_source l m).
Proof.
  intros b r b' E. unfold publish_source in E. cbv zeta in E. repeat case_match; injection E as <- <-; apply frame_other; repeat split.
Qed.
Lemma fr_take_source l m : keeps R (take_source l m).
Proof.
  intros b r b' E. unfold take_source in E. repeat case_match; injection E as <- <-; apply frame_other; repeat split.
Qed.
#[local] Hint Resolve fr_publish_source fr_take_source : broker.
Lemma fr_resolve_returned l m g s : keeps R (resolve_returned l m g s).
Proof. unfold resolve_returned. framed. Qed.
Lemma fr_finish_source l m t f s : keeps R (finish_source l m t f s).
Proof. unfold finish_source. framed. Qed.
Lemma fr_source_done l : keeps R (source_done l).
Proof. unfold source_done. framed. Qed.
#[local] Hint Resolve fr_source_done : broker.
Lemma fr_finishSourceFlight l m t f s : keeps R (finishSourceFlight l m t f s).
Proof.
  intros b r b' E. unfold finishSourceFlight in E. destruct (finish_source l m t f s b) as [[u|e] b1] eqn:E1;
    apply (fr_finish_source l m t f s) in E1; (etrans; [exact E1|]).
  - by eapply fr_source_done.
  - injection E as <- <-. apply frame_other. repeat split.
Qed.
Lemma fr_source_failed l : keeps R (source_failed l).
Proof. unfold source_failed. framed. Qed.
Lemma fr_release_borrow l : keeps R (release_borrow l).
Proof. unfold release_borrow. framed. Qed.
Lemma fr_rotate_end l c : keeps R (rotate_end l c).
Proof. unfold rotate_end. framed. Qed.
Lemma fr_rotation_resolved l t : keeps R (rotation_resolved l t).
Proof. unfold rotation_resolved. framed. Qed.
Lemma fr_consumeRotation l f : keeps R (consumeRotationPublishReservationsLocked l f).
Proof. unfold consumeRotationPublishReservationsLocked. framed. Qed.
Lemma fr_invalidate_matching t l : keeps R (invalidate_matching t l).
Proof. unfold invalidate_matching. framed. Qed.
#[local] Hint Resolve fr_invalidate_matching : broker.
Lemma fr_invalidateMatchingCellsLocked p t : keeps R (invalidateMatchingCellsLocked p t).
Proof. unfold invalidateMatchingCellsLocked. framed. Qed.
#[local] Hint Resolve fr_invalidateMatchingCellsLocked : broker.
Lemma fr_invalidate_cached p : keeps R (invalidate_cached p).
Proof. unfold invalidate_cached. framed. Qed.
Lemma fr_invalidate_retired l : keeps R (invalidate_retired l).
Proof. unfold invalidate_retired. framed. Qed.
Lemma fr_cancel_source_flight l : keeps R (cancel_source_flight l).
Proof. unfold cancel_source_flight. framed. Qed.
Lemma fr_cancel_rotation l : keeps R (cancel_rotation l).
Proof. unfold cancel_rotation. framed. Qed.
Lemma fr_cancel_session_flight l : keeps R (cancel_session_flight l).
Proof. unfold cancel_session_flight. framed. Qed.
#[local] Hint Resolve fr_invalidate_cached fr_invalidate_retired fr_cancel_source_flight fr_cancel_rotation fr_cancel_session_flight : broker.
Lemma fr_invalidateConnectionLocked k t x : keeps R (invalidateConnectionLocked k t x).
Proof. unfold invalidateConnectionLocked. framed. Qed.
Lemma fr_connection_cleanup k t l p : keeps R (connection_cleanup k t l p).
Proof. unfold connection_cleanup. framed. Qed.
Lemma fr_spend_reservation p : keeps R (spend_reservation p).
Proof. unfold spend_reservation. framed. Qed.
Lemma fr_operation_cleanup k t l p : keeps R (operation_cleanup k t l p).
Proof. unfold operation_cleanup. framed. Qed.
Lemma fr_start_revocations l : keeps R (start_revocations l).
Proof. unfold start_revocations. framed. Qed.
Lemma fr_finish_revocation l a : keeps R (finish_revocation l a).
Proof. unfold finish_revocation. framed. Qed.
Lemma fr_rotation_committed l o : keeps R (rotation_committed l o).
Proof. unfold rotation_committed. framed. Qed.
Lemma fr_fail_rotation l e : keeps R (fail_rotation l e).
Proof. unfold fail_rotation. framed. Qed.
Lemma fr_new_material m s : keeps R (new_material m s).
Proof. unfold new_material. framed. Qed.
End Sections.
#[export] Hint Resolve fr_RegisterIssuer fr_SweepExpired fr_leaveSessionFlight fr_releaseSessionFlightLocked fr_session_cleaned fr_session_done
  fr_use_begin fr_use_check fr_use_admit fr_use_finish fr_acquireSource_begin fr_leaveSourceFlight fr_acquireSource_end fr_take_source
  fr_resolve_returned fr_finishSourceFlight fr_source_failed fr_release_borrow fr_rotate_end fr_rotation_resolved fr_consumeRotation
  fr_invalidateMatchingCellsLocked fr_invalidate_cached fr_invalidate_retired fr_cancel_source_flight fr_cancel_rotation
  fr_cancel_session_flight fr_invalidateConnectionLocked fr_connection_cleanup fr_spend_reservation fr_operation_cleanup
  fr_start_revocations fr_finish_revocation fr_rotation_committed fr_fail_rotation fr_new_material : broker.
