(* ===== verification/BrokerInvariant.v ===== *)
(** * The credential broker: the invariant of its histories

    Epochs are only ever issued upwards; a cell or flight that carries the epoch
    of a lineage carries its generation too; tombstones, terminal flags and
    invalidated cells stay.  Every section keeps this, whatever the
    interleaving. *)

From S2P Require Import Prelude Bytes GoTime Calendar Digests Hierarchy Identity AuthzVocabulary Authorization.
From S2P Require Import Condition Control Operation Resource Credential CredentialProps BrokerState Broker BrokerWalk.
From Stdlib Require Import Ascii String.

(** ** Invariant *)

(** The epoch [e] was given to request [q], and serves its generation alone. *)
Definition serves (n : Z) (b : Broker) (q : Request) (e : Z) : Prop :=
  e <= n /\ forall s, lineages b !! keyForConnection q = Some s -> ln_epoch s = e -> ln_generation s = rq_connectionGeneration q.

Definition cell_ok (n : Z) (b : Broker) (c : sessionCell) : Prop :=
  sc_connKey c = keyForConnection (sc_request c) /\ sc_opKey c = keyForOperation (sc_request c) /\
  sc_binding c = rq_binding (sc_request c) /\ sc_opEpoch c <= n /\ sc_connEpoch c <= n /\
  (sc_invalid c = false -> is_binding (sc_session c) = sc_binding c /\ serves n b (sc_request c) (sc_connEpoch c)).

Definition points_to (b : Broker) (d : BindingDigest) (l : option loc) : Prop :=
  forall x, l = Some x -> exists c, cellHeap b !! x = Some c /\ sc_binding c = d.

Definition flight_ok (n : Z) (b : Broker) (f : sessionFlight) : Prop :=
  fl_connKey f = keyForConnection (fl_request f) /\ fl_opKey f = keyForOperation (fl_request f) /\
  fl_binding f = rq_binding (fl_request f) /\ fl_opEpoch f <= n /\ serves n b (fl_request f) (fl_connEpoch f) /\
  points_to b (fl_binding f) (fl_cell f) /\ points_to b (fl_binding f) (fl_fallback f).

Definition rotation_ok (f : rotationFlight) : Prop :=
  rf_connKey f = keyForConnection (rf_request f) /\ rf_binding f = rq_binding (rf_request f).

(** [n] bounds the epochs in use; those above it, up to [nextEpoch], are
    reserved. *)
Record inv (n : Z) (b : Broker) : Prop := {
  inv_bound : 0 <= n <= nextEpoch b;
  inv_lineage : forall k s, lineages b !! k = Some s -> ln_epoch s <= n;
  inv_operation : forall k s, operations b !! k = Some s -> os_epoch s <= n;
  inv_cell : forall l c, cellHeap b !! l = Some c -> cell_ok n b c;
  inv_flight : forall l f, flightHeap b !! l = Some f -> flight_ok n b f;
  inv_rotation : forall l f, rotationHeap b !! l = Some f -> rotation_ok f;
  inv_sessions : forall d l, sessions b !! d = Some l -> points_to b d (Some l);
  inv_leases : forall l x, leaseHeap b !! l = Some x -> is_Some (cellHeap b !! ls_cell x);
}.

(** ** Persistence *)

Definition lineage_persists (n : Z) (s s' : lineageState) : Prop :=
  ln_revokedThrough s <= ln_revokedThrough s' /\ ln_generation s <= ln_generation s' /\
  (ln_epoch s' = ln_epoch s /\ ln_generation s' = ln_generation s \/ n < ln_epoch s').

Definition operation_persists (n : Z) (s s' : operationState) : Prop :=
  (os_terminal s = true -> os_terminal s' = true) /\
  (os_epoch s' = os_epoch s /\ os_terminal s' = os_terminal s \/ n < os_epoch s').

Record persist (n : Z) (b b' : Broker) : Prop := {
  ps_epoch : nextEpoch b <= nextEpoch b';
  ps_closed : closed b = true -> closed b' = true;
  ps_lineage : forall k s, lineages b !! k = Some s -> exists s', lineages b' !! k = Some s' /\ lineage_persists n s s';
  ps_new : forall k s', lineages b !! k = None -> lineages b' !! k = Some s' -> n < ln_epoch s';
  ps_operation : forall k s, operations b !! k = Some s -> exists s', operations b' !! k = Some s' /\ operation_persists n s s';
  ps_new_operation : forall k s', operations b !! k = None -> operations b' !! k = Some s' -> n < os_epoch s';
  ps_cell : forall l c, cellHeap b !! l = Some c -> exists c', cellHeap b' !! l = Some c' /\ same_cell c c';
  ps_flight : forall l f, flightHeap b !! l = Some f -> exists f', flightHeap b' !! l = Some f' /\ fl_binding f' = fl_binding f;
  ps_lease : forall l x, leaseHeap b !! l = Some x -> exists x', leaseHeap b' !! l = Some x' /\ ls_cell x' = ls_cell x;
}.

#[export] Instance same_cell_preorder : PreOrder same_cell.
Proof. split; [intros c; unfold same_cell; tauto|]. unfold same_cell. intros c d e H1 H2. intuition congruence. Qed.

#[export] Instance lineage_persists_preorder n : PreOrder (lineage_persists n).
Proof.
  split; [intros s; split; [lia | split; [lia | by left]]|].
  intros s t u (R1 & G1 & E1) (R2 & G2 & E2). split; [lia|]. split; [lia|]. destruct E2 as [[E2 Eg]|?]; [|by right].
  destruct E1 as [[E1 Eg1]|?]; [left; split; congruence | right; lia].
Qed.

#[export] Instance operation_persists_preorder n : PreOrder (operation_persists n).
Proof.
  split; [intros s; split; [done | by left]|].
  intros s t u (T1 & E1) (T2 & E2). split; [auto|]. destruct E2 as [[E2 Et]|?]; [|by right].
  destruct E1 as [[E1 Et1]|?]; [left; split; congruence | right; lia].
Qed.

#[export] Instance persist_preorder n : PreOrder (persist n).
Proof.
  split.
  - intros b. split; try done; intros ? s Hs; try (by eexists; split; [exact Hs | reflexivity]); congruence.
  - intros a b c [E1 C1 L1 N1 O1 Q1 M1 F1 X1] [E2 C2 L2 N2 O2 Q2 M2 F2 X2]. split; [lia | auto | | | | | | |].
    + intros k s Hs. destruct (L1 k s Hs) as (s' & Hs' & P1). destruct (L2 k s' Hs') as (s'' & Hs'' & P2). exists s''. split; [done | by etrans].
    + intros k s'' Hn Hs''. destruct (lineages b !! k) as [s'|] eqn:E; [|by eapply N2].
      specialize (N1 k s' Hn E). destruct (L2 k s' E) as (t & Ht & (_ & _ & P)). rewrite Hs'' in Ht. injection Ht as <-.
      destruct P as [[-> _]|?]; lia.
    + intros k s Hs. destruct (O1 k s Hs) as (s' & Hs' & P1). destruct (O2 k s' Hs') as (s'' & Hs'' & P2). exists s''. split; [done | by etrans].
    + intros k s'' Hn Hs''. destruct (operations b !! k) as [s'|] eqn:E; [|by eapply Q2].
      specialize (Q1 k s' Hn E). destruct (O2 k s' E) as (t & Ht & (_ & P)). rewrite Hs'' in Ht. injection Ht as <-.
      destruct P as [[-> _]|?]; lia.
    + intros l x Hx. destruct (M1 l x Hx) as (x' & Hx' & P1). destruct (M2 l x' Hx') as (x'' & Hx'' & P2). exists x''. split; [done | by etrans].
    + intros l x Hx. destruct (F1 l x Hx) as (x' & Hx' & P1). destruct (F2 l x' Hx') as (x'' & Hx'' & P2). exists x''. split; [done | congruence].
    + intros l x Hx. destruct (X1 l x Hx) as (x' & Hx' & P1). destruct (X2 l x' Hx') as (x'' & Hx'' & P2). exists x''. split; [done | congruence].
Qed.

Lemma persist_weaken m n b b' : m <= n -> persist n b b' -> persist m b b'.
Proof.
  intros Hm [E C L N O Q M F X]. split; try done.
  - intros k s Hs. destruct (L k s Hs) as (s' & Hs' & (? & ? & P)). exists s'. split; [done|]. split; [done|]. split; [done|].
    destruct P; [by left | right; lia].
  - intros k s' Hn Hs. specialize (N k s' Hn Hs). lia.
  - intros k s Hs. destruct (O k s Hs) as (s' & Hs' & (? & P)). exists s'. split; [done|]. split; [done|]. destruct P; [by left | right; lia].
  - intros k s' Hn Hs. specialize (Q k s' Hn Hs). lia.
Qed.

(** What a request was served under persists. *)
Lemma serves_persist n b b' q e : serves n b q e -> persist n b b' -> serves n b' q e.
Proof.
  intros [He Hs] P. split; [done|]. intros s' Hs' Ee. destruct (lineages b !! keyForConnection q) as [s|] eqn:E.
  - destruct (ps_lineage _ _ _ P _ _ E) as (t & Ht & (_ & _ & Pt)). rewrite Hs' in Ht. injection Ht as <-.
    destruct Pt as [[E1 E2]|?]; [|lia]. rewrite E2. apply Hs; [done | congruence].
  - pose proof (ps_new _ _ _ P _ _ E Hs'). lia.
Qed.

Lemma serves_mono m n b q e : m <= n -> serves m b q e -> serves n b q e.
Proof. intros Hm [He Hs]. split; [lia | done]. Qed.

Lemma cell_ok_mono m n b c : m <= n -> cell_ok m b c -> cell_ok n b c.
Proof.
  intros Hm (? & ? & ? & ? & ? & Hv). do 3 (split; [done|]). do 2 (split; [lia|]).
  intros Hi. destruct (Hv Hi). split; [done|]. apply (serves_mono m); [lia | done].
Qed.

Lemma flight_ok_mono m n b f : m <= n -> flight_ok m b f -> flight_ok n b f.
Proof.
  intros Hm (? & ? & ? & ? & ? & ? & ?). do 3 (split; [done|]). split; [lia|]. split; [apply (serves_mono m); [lia | done] | done].
Qed.

(** Cells that persist keep what pointed to them. *)
Lemma points_persist n b b' d l : points_to b d l -> persist n b b' -> points_to b' d l.
Proof.
  intros Hp P x Hx. destruct (Hp x Hx) as (c & Hc & Hd). destruct (ps_cell _ _ _ P _ _ Hc) as (c' & Hc' & S).
  exists c'. split; [done|]. destruct S as (_ & _ & _ & _ & -> & _). done.
Qed.

Lemma cell_ok_persist n b b' c c' : cell_ok n b c -> same_cell c c' -> persist n b b' -> cell_ok n b' c'.
Proof.
  unfold cell_ok. intros (H1 & H2 & H3 & H4 & H5 & H6) (S1 & S2 & S3 & S4 & S5 & S6 & S7 & S8) P.
  rewrite S1, S2, S3, S4, S5, S6, S7. do 5 (split; [done|]). intros Hi. destruct (sc_invalid c) eqn:E; [rewrite S8 in Hi; done|].
  destruct (H6 eq_refl). split; [done|]. by eapply serves_persist.
Qed.

Lemma flight_ok_persist n b b' f f' : flight_ok n b f -> same_flight f f' -> persist n b b' -> flight_ok n b' f'.
Proof.
  unfold flight_ok. intros (H1 & H2 & H3 & H4 & H5 & H6 & H7) (S1 & S2 & S3 & S4 & S5 & S6 & S7 & S8) P.
  rewrite S1, S2, S3, S4, S5, S6, S7, S8. do 4 (split; [done|]). split; [by eapply serves_persist|]. split; by eapply points_persist.
Qed.

Lemma same_flight_refl f : same_flight f f.
Proof. unfold same_flight. tauto. Qed.

(** A step that persists and whose cells, flights, sessions and leases are old
    keeps the invariant. *)
Lemma inv_persist n m b b' : inv n b -> persist n b b' -> n <= m <= nextEpoch b' ->
  (forall k s, lineages b' !! k = Some s -> ln_epoch s <= m) ->
  (forall k s, operations b' !! k = Some s -> os_epoch s <= m) ->
  (forall l c', cellHeap b' !! l = Some c' -> exists c, cellHeap b !! l = Some c /\ same_cell c c') ->
  (forall l f', flightHeap b' !! l = Some f' -> exists f, flightHeap b !! l = Some f /\ same_flight f f') ->
  (forall l f, rotationHeap b' !! l = Some f -> rotation_ok f) ->
  (forall d l, sessions b' !! d = Some l -> sessions b !! d = Some l) ->
  leaseHeap b' = leaseHeap b -> inv m b'.
Proof.
  intros I P Hm HL HO HC HF HR HS HX. pose proof (inv_bound _ _ I). split; try done; [lia| | | |].
  - intros l c' Hc'. destruct (HC _ _ Hc') as (c & Hc & S). apply (cell_ok_mono n); [lia|].
    eapply cell_ok_persist; [by eapply inv_cell | done | done].
  - intros l f' Hf'. destruct (HF _ _ Hf') as (f & Hf & S). apply (flight_ok_mono n); [lia|].
    eapply flight_ok_persist; [by eapply inv_flight | done | done].
  - intros d l Hd. eapply points_persist; [by eapply (inv_sessions _ _ I), HS | done].
  - intros l x Hx. rewrite HX in Hx. destruct (inv_leases _ _ I _ _ Hx) as [c Hc].
    destruct (ps_cell _ _ _ P _ _ Hc) as (c' & Hc' & _). by eexists.
Qed.

Lemma inv_mono m n b : m <= n <= nextEpoch b -> inv m b -> inv n b.
Proof.
  intros Hm I. apply (inv_persist m n b b I); try done.
  - intros k s Hs. pose proof (inv_lineage _ _ I _ _ Hs). lia.
  - intros k s Hs. pose proof (inv_operation _ _ I _ _ Hs). lia.
  - intros l c Hc. exists c. by split; [|reflexivity].
  - intros l f Hf. exists f. by split; [|apply same_flight_refl].
  - apply I.
Qed.

(** ** The relation every section keeps *)

Definition sound_step (n : Z) (b b' : Broker) : Prop := inv n b -> inv n b' /\ persist n b b'.

#[export] Instance sound_step_preorder n : PreOrder (sound_step n).
Proof.
  split; [intros b I; split; [done | reflexivity]|]. intros a b c H1 H2 I. destruct (H1 I) as [I1 P1]. destruct (H2 I1) as [I2 P2].
  split; [done | by etrans].
Qed.

(** Steps described by what they leave of each part. *)
Lemma sound_parts n b b' :
  nextEpoch b' = nextEpoch b -> (closed b = true -> closed b' = true) ->
  (forall k, option_Forall2 (fun s s' => same_lineage s s') (lineages b !! k) (lineages b' !! k)) ->
  (forall k, option_Forall2 (fun s s' => same_operation s s') (operations b !! k) (operations b' !! k)) ->
  (forall l, option_Forall2 same_cell (cellHeap b !! l) (cellHeap b' !! l)) ->
  (forall l, option_Forall2 same_flight (flightHeap b !! l) (flightHeap b' !! l)) ->
  (forall l, option_Forall2 same_rotation (rotationHeap b !! l) (rotationHeap b' !! l)) ->
  (forall d l, sessions b' !! d = Some l -> sessions b !! d = Some l) ->
  leaseHeap b' = leaseHeap b -> sound_step n b b'.
Proof.
  intros HE HC HL HO HM HF HR HS HX I.
  assert (persist n b b') as P.
  { split; [lia | done | | | | | | |].
    - intros k s Hs. pose proof (HL k) as H. rewrite Hs in H. inversion H as [? s' (G & E & T) E1 E2|]; subst. exists s'. split; [done|].
      split; [lia|]. split; [lia|]. by left.
    - intros k s' Hn Hs. pose proof (HL k) as H. rewrite Hn, Hs in H. inversion H.
    - intros k s Hs. pose proof (HO k) as H. rewrite Hs in H. inversion H as [? s' (B & E & T) E1 E2|]; subst. exists s'. split; [done|].
      split; [congruence | by left].
    - intros k s' Hn Hs. pose proof (HO k) as H. rewrite Hn, Hs in H. inversion H.
    - intros l c Hc. pose proof (HM l) as H. rewrite Hc in H. inversion H as [? c' S E1 E2|]; subst. by exists c'.
    - intros l f Hf. pose proof (HF l) as H. rewrite Hf in H. inversion H as [? f' S E1 E2|]; subst. exists f'. split; [done | apply S].
    - intros l x Hx. rewrite HX. by exists x. }
  split; [|done]. pose proof (inv_bound _ _ I). apply (inv_persist n n b b' I P); try done; [lia| | | | |].
  - intros k s Hs. pose proof (HL k) as H'. rewrite Hs in H'. inversion H' as [t ? (G & E & T) E1 E2|]; subst.
    pose proof (inv_lineage _ _ I k t). rewrite E. auto.
  - intros k s Hs. pose proof (HO k) as H'. rewrite Hs in H'. inversion H' as [t ? (G & E & T) E1 E2|]; subst.
    pose proof (inv_operation _ _ I k t). rewrite E. auto.
  - intros l c' Hc'. pose proof (HM l) as H'. rewrite Hc' in H'. inversion H'; subst. by eexists.
  - intros l c' Hc'. pose proof (HF l) as H'. rewrite Hc' in H'. inversion H'; subst. by eexists.
  - intros l f' Hf'. pose proof (HR l) as H'. rewrite Hf' in H'. inversion H' as [f ? (Hq & Hk & Hb) E1 E2|]; subst.
    unfold rotation_ok. rewrite Hq, Hk, Hb. by eapply (inv_rotation _ _ I).
Qed.

Lemma option_Forall2_alter {A} `{Countable K} (R : relation A) `{!Reflexive R} (g : A -> A) (m : gmap K A) k i :
  (forall x, R x (g x)) -> option_Forall2 R (m !! i) (alter g k m !! i).
Proof.
  intros Hg. destruct (decide (k = i)) as [->|Hn].
  - rewrite lookup_alter_eq. destruct (m !! i); constructor. apply Hg.
  - rewrite lookup_alter_ne by done. reflexivity.
Qed.

Lemma option_Forall2_fmap_map {A} `{Countable K} (R : relation A) (g : A -> A) (m : gmap K A) i :
  (forall x, R x (g x)) -> option_Forall2 R (m !! i) ((g <$> m) !! i).
Proof. intros Hg. rewrite lookup_fmap. destruct (m !! i); constructor. apply Hg. Qed.

#[export] Instance same_flight_reflexive : Reflexive same_flight.
Proof. exact same_flight_refl. Qed.
#[export] Instance same_rotation_reflexive : Reflexive same_rotation.
Proof. intros f. repeat split. Qed.
#[export] Instance same_lineage_reflexive : Reflexive same_lineage.
Proof. intros s. repeat split. Qed.
#[export] Instance same_operation_reflexive : Reflexive same_operation.
Proof. intros s. repeat split. Qed.

(** Book-keeping keeps the invariant and what persists. *)
#[export] Instance sound_frame n : Frame (sound_step n).
Proof.
  split; [apply _|..]; intros b.
  - intros b' (HA & HS & HC & HF & HR & HL & _). unfold sound_step.
    apply sound_parts; unfold nextEpoch, closed, lineages, operations; rewrite ?HA, ?HC, ?HF, ?HR, ?HS; try done; intros; reflexivity.
  - intros l g Hg. apply sound_parts; try done; intros; try reflexivity. by apply option_Forall2_alter; [apply _|].
  - intros l g Hg. apply sound_parts; try done; intros; try reflexivity. by apply option_Forall2_alter; [apply _|].
  - intros l g Hg. apply sound_parts; try done; intros; try reflexivity. by apply option_Forall2_alter; [apply _|].
  - intros d. apply sound_parts; try done; try (intros; reflexivity). intros d1 l H%(lookup_delete_Some (sessions b)). tauto.
  - intros g Hg. apply sound_parts; try done; intros; try reflexivity. by apply option_Forall2_fmap_map.
  - intros k g Hg. apply sound_parts; try done; intros; try reflexivity. by apply option_Forall2_alter; [apply _|].
  - intros g Hg. apply sound_parts; try done; intros; try reflexivity. by apply option_Forall2_fmap_map.
  - intros k g Hg. apply sound_parts; try done; intros; try reflexivity. by apply option_Forall2_alter; [apply _|].
Qed.
