(* ===== verification/BrokerCore.v ===== *)
(** * The credential broker: every section keeps the invariant

    The updates the book-keeping lemmas do not cover: new epochs for lineages
    and operations, new cells, flights and leases, what is published.  The
    calculus is that of weakest preconditions over one locked section. *)

From S2P Require Import Prelude Bytes GoTime Calendar Digests Hierarchy Identity AuthzVocabulary Authorization.
From S2P Require Import Condition Control Operation Resource Credential CredentialProps BrokerState Broker BrokerWalk BrokerInvariant.
From Stdlib Require Import Ascii String.

(** ** Weakest preconditions *)

Definition wp {A} (m : locked A) (Q : A -> Broker -> Prop) (E : Broker -> Prop) (b : Broker) : Prop :=
  match m b with
  | (Ok a, b') => Q a b'
  | (Err _, b') => E b'
  end.

Section Calculus.
Context (E : Broker -> Prop).

Lemma wp_bind {A B} (m : locked A) (f : A -> locked B) Q b : wp m (fun a => wp (f a) Q E) E b -> wp (m ≫= f) Q E b.
Proof. unfold wp, mbind, ST_bind. by destruct (m b) as [[a|e] b1]. Qed.

Lemma wp_ret {A} (a : A) (Q : A -> Broker -> Prop) b : Q a b -> wp (mret a) Q E b.
Proof. done. Qed.

Lemma wp_get (Q : Broker -> Broker -> Prop) b : Q b b -> wp get_state Q E b.
Proof. done. Qed.

Lemma wp_gets {A} (f : Broker -> A) (Q : A -> Broker -> Prop) b : Q (f b) b -> wp (gets f) Q E b.
Proof. done. Qed.

Lemma wp_modify f (Q : unit -> Broker -> Prop) b : Q tt (f b) -> wp (modify f) Q E b.
Proof. done. Qed.

Lemma wp_throw {A} e (Q : A -> Broker -> Prop) b : E b -> wp (throw e) Q E b.
Proof. done. Qed.

Lemma wp_lift {A} (r : result Failure A) (Q : A -> Broker -> Prop) b : E b -> (forall a, r = Ok a -> Q a b) -> wp (lift r) Q E b.
Proof. intros He Hq. unfold wp, lift. destruct r; [by apply Hq | done]. Qed.

Lemma wp_reject c e (Q : unit -> Broker -> Prop) b : E b -> (c = false -> Q tt b) -> wp (reject c e) Q E b.
Proof. intros He Hq. apply wp_lift; [done|]. intros [] H%fail_if_ok. auto. Qed.

Lemma wp_the {A} (o : option A) (Q : A -> Broker -> Prop) b : E b -> (forall a, o = Some a -> Q a b) -> wp (the o) Q E b.
Proof. intros He Hq. apply wp_lift; [done|]. intros a H%of_option_ok. auto. Qed.

Lemma wp_when c m (Q : unit -> Broker -> Prop) b : (c = true -> wp m Q E b) -> (c = false -> Q tt b) -> wp (when c m) Q E b.
Proof. destruct c; [auto | intros _ H; by apply H]. Qed.

Lemma wp_keeps {A} (R : Broker -> Broker -> Prop) (m : locked A) (Q : A -> Broker -> Prop) b :
  keeps R m -> (forall b', R b b' -> E b') -> (forall a b', R b b' -> Q a b') -> wp m Q E b.
Proof. intros Hm He Hq. unfold wp. destruct (m b) as [[a|e] b'] eqn:Em; [eapply Hq | eapply He]; by eapply Hm. Qed.

Lemma wp_mono {A} (m : locked A) (Q Q' : A -> Broker -> Prop) (E' : Broker -> Prop) b :
  wp m Q E' b -> (forall a b', Q a b' -> Q' a b') -> (forall b', E' b' -> E b') -> wp m Q' E b.
Proof. unfold wp. destruct (m b) as [[a|e] b']; auto. Qed.
End Calculus.

(** ** Epochs in use *)

(** [b] has come from [b0], with the epochs through [n] in use. *)
Record upto (b0 : Broker) (n : Z) (b : Broker) : Prop := {
  up_bound : nextEpoch b0 <= n;
  up_inv : inv n b;
  up_persist : persist (nextEpoch b0) b0 b;
}.

Definition good (b0 b : Broker) : Prop := upto b0 (nextEpoch b) b.

Lemma upto_start b : inv (nextEpoch b) b -> good b b.
Proof. intros I. split; [lia | done | reflexivity]. Qed.

Lemma upto_mono b0 n m b : upto b0 n b -> n <= m <= nextEpoch b -> upto b0 m b.
Proof. intros [H I P] Hm. split; [lia | by apply (inv_mono n) | done]. Qed.

Lemma upto_good b0 n b : upto b0 n b -> good b0 b.
Proof. intros U. apply (upto_mono _ n); [done|]. pose proof (inv_bound _ _ (up_inv _ _ _ U)). lia. Qed.

Lemma upto_step b0 n m b b' : upto b0 n b -> n <= m -> inv m b' -> persist n b b' -> upto b0 m b'.
Proof. intros [H I P] Hm I' P'. split; [lia | done|]. etrans; [done|]. by apply (persist_weaken _ n). Qed.

Lemma upto_sound b0 n b b' : upto b0 n b -> sound_step n b b' -> upto b0 n b' /\ persist n b b'.
Proof. intros U S. destruct (S (up_inv _ _ _ U)) as [I P]. split; [|done]. by eapply upto_step; [| |done|]; [done | lia |]. Qed.

(** Book-keeping on the way. *)
Lemma wp_upto {A} b0 n (m : locked A) (Q : A -> Broker -> Prop) b : upto b0 n b -> keeps (sound_step n) m ->
  (forall a b', upto b0 n b' -> persist n b b' -> Q a b') -> wp m Q (good b0) b.
Proof.
  intros U Hm Hq. apply (wp_keeps _ (sound_step n)); [done | |]; intros.
  - eapply upto_good. by eapply upto_sound.
  - apply Hq; by eapply upto_sound.
Qed.

(** What is there in both states, with the epochs bounded, is the same. *)
Lemma lineage_stable n b b' k s : inv n b' -> persist n b b' -> lineages b !! k = Some s ->
  exists s', lineages b' !! k = Some s' /\ ln_generation s' = ln_generation s /\ ln_epoch s' = ln_epoch s /\
             ln_revokedThrough s <= ln_revokedThrough s'.
Proof.
  intros I P Hs. destruct (ps_lineage _ _ _ P _ _ Hs) as (s' & Hs' & Hr & _ & Hp). exists s'. split; [done|].
  pose proof (inv_lineage _ _ I _ _ Hs'). destruct Hp as [[? ?]|?]; [done | lia].
Qed.

Lemma operation_stable n b b' k : inv n b' -> persist n b b' ->
  option_Forall2 (fun s s' => os_epoch s' = os_epoch s /\ os_terminal s' = os_terminal s) (operations b !! k) (operations b' !! k).
Proof.
  intros I P. destruct (operations b !! k) as [s|] eqn:E.
  - destruct (ps_operation _ _ _ P _ _ E) as (s' & Hs' & _ & Hp). rewrite Hs'. constructor.
    pose proof (inv_operation _ _ I _ _ Hs'). destruct Hp; [done | lia].
  - destruct (operations b' !! k) as [s'|] eqn:E'; [|constructor].
    pose proof (ps_new_operation _ _ _ P _ _ E E'). pose proof (inv_operation _ _ I _ _ E'). lia.
Qed.

(** ** Core updates *)

Lemma sound_raise n v b : nextEpoch b <= v -> sound_step n b (set_nextEpoch v b).
Proof.
  intros Hv I. assert (persist n b (set_nextEpoch v b)) as P.
  { split; [done | done | ..]; try (intros ? s Hs; exists s; by split); intros ? s Hs Hs'; discriminate (eq_trans (eq_sym Hs) Hs'). }
  split; [|done]. pose proof (inv_bound _ _ I).
  apply (inv_persist n n b _ I P); try done; [change (n <= n <= v); lia | apply I | apply I | | | ].
  - intros l c Hc. exists c. by split.
  - intros l f Hf. exists f. by split.
  - apply I.
Qed.

Lemma sound_close n b : sound_step n b (set_closed true b).
Proof. apply sound_parts; try done; intros; reflexivity. Qed.

(** A new epoch for a lineage. *)
Lemma upto_lineage b0 n b k s : upto b0 n b -> n < ln_epoch s <= nextEpoch b ->
  (forall s0, lineages b !! k = Some s0 -> ln_revokedThrough s0 <= ln_revokedThrough s /\ ln_generation s0 <= ln_generation s) ->
  upto b0 (ln_epoch s) (set_lineages (<[k := s]> (lineages b)) b).
Proof.
  intros U He Hs. pose proof (up_inv _ _ _ U) as I.
  assert (persist n b (set_lineages (<[k := s]> (lineages b)) b)) as P.
  { split; try done; try (intros ? x Hx; exists x; by split); try (intros ? x Hx Hx'; discriminate (eq_trans (eq_sym Hx) Hx')).
    - intros k' s0 Hk'. destruct (decide (k = k')) as [<-|Hn].
      + exists s. split; [by apply lookup_insert_eq|]. destruct (Hs _ Hk'). split; [done|]. split; [done|]. right. lia.
      + exists s0. split; [exact (eq_trans (lookup_insert_ne (lineages b) k k' s Hn) Hk') | reflexivity].
    - intros k' s' Hn Hs'. apply (lookup_insert_Some (lineages b)) in Hs' as [[_ <-]|[_ Hs']]; [lia | by rewrite Hn in Hs']. }
  eapply upto_step; [done | | | done]; [lia|]. apply (inv_persist n _ b _ I P); try done.
  - change (n <= ln_epoch s <= nextEpoch b). lia.
  - intros k' s' [[_ <-]|[_ Hs']]%(lookup_insert_Some (lineages b)); [lia|]. pose proof (inv_lineage _ _ I _ _ Hs'). lia.
  - intros k' s' Hs'. pose proof (inv_operation _ _ I _ _ Hs'). lia.
  - intros l c Hc. exists c. by split.
  - intros l f Hf. exists f. by split.
  - apply I.
Qed.

(** A new epoch for an operation; a terminal one stays so. *)
Lemma upto_operation b0 n b k s : upto b0 n b -> n < os_epoch s <= nextEpoch b ->
  (forall s0, operations b !! k = Some s0 -> os_terminal s0 = true -> os_terminal s = true) ->
  upto b0 (os_epoch s) (set_operations (<[k := s]> (operations b)) b).
Proof.
  intros U He Hs. pose proof (up_inv _ _ _ U) as I.
  assert (persist n b (set_operations (<[k := s]> (operations b)) b)) as P.
  { split; try done; try (intros ? x Hx; exists x; by split); try (intros ? x Hx Hx'; discriminate (eq_trans (eq_sym Hx) Hx')).
    - intros k' s0 Hk'. destruct (decide (k = k')) as [<-|Hn].
      + exists s. split; [by apply lookup_insert_eq|]. split; [by apply Hs | right; lia].
      + exists s0. split; [exact (eq_trans (lookup_insert_ne (operations b) k k' s Hn) Hk') | reflexivity].
    - intros k' s' Hn Hs'. apply (lookup_insert_Some (operations b)) in Hs' as [[_ <-]|[_ Hs']]; [lia | by rewrite Hn in Hs']. }
  eapply upto_step; [done | | | done]; [lia|]. apply (inv_persist n _ b _ I P); try done.
  - change (n <= os_epoch s <= nextEpoch b). lia.
  - intros k' s' Hs'. pose proof (inv_lineage _ _ I _ _ Hs'). lia.
  - intros k' s' [[_ <-]|[_ Hs']]%(lookup_insert_Some (operations b)); [lia|]. pose proof (inv_operation _ _ I _ _ Hs'). lia.
  - intros l c Hc. exists c. by split.
  - intros l f Hf. exists f. by split.
  - apply I.
Qed.

(** Steps that leave authority alone and add objects. *)
Lemma upto_grow b0 n b b' : upto b0 n b -> b_authority b' = b_authority b -> rotationHeap b' = rotationHeap b ->
  (forall l c, cellHeap b !! l = Some c -> cellHeap b' !! l = Some c) ->
  (forall l c, cellHeap b' !! l = Some c -> cellHeap b !! l = Some c \/ cell_ok n b c) ->
  (forall l f, flightHeap b' !! l = Some f -> flightHeap b !! l = Some f \/ flight_ok n b f) ->
  (forall l f, flightHeap b !! l = Some f -> exists f', flightHeap b' !! l = Some f' /\ fl_binding f' = fl_binding f) ->
  (forall d l, sessions b' !! d = Some l -> sessions b !! d = Some l \/ points_to b d (Some l)) ->
  (forall l x, leaseHeap b !! l = Some x -> exists x', leaseHeap b' !! l = Some x' /\ ls_cell x' = ls_cell x) ->
  (forall l x, leaseHeap b' !! l = Some x -> is_Some (cellHeap b !! ls_cell x)) -> upto b0 n b'.
Proof.
  intros U HA HR HC HC' HF HF' HS HL HL'. pose proof (up_inv _ _ _ U) as I.
  assert (persist n b b') as P.
  { split; unfold nextEpoch, closed, lineages, operations; rewrite ?HA; try done;
      try (intros ? x Hx; exists x; by split); try (intros ? x Hx Hx'; discriminate (eq_trans (eq_sym Hx) Hx')).
    intros l c Hc. exists c. split; [by apply HC | reflexivity]. }
  eapply upto_step; [done | reflexivity | | done].
  split; unfold nextEpoch, lineages, operations; rewrite ?HA; try apply I.
  - intros l c Hc. eapply cell_ok_persist; [|reflexivity | done]. destruct (HC' _ _ Hc); [by eapply inv_cell | done].
  - intros l f Hf. eapply flight_ok_persist; [|reflexivity | done]. destruct (HF _ _ Hf); [by eapply inv_flight | done].
  - rewrite HR. apply I.
  - intros d l Hd. eapply points_persist; [|done]. destruct (HS _ _ Hd); [by eapply inv_sessions | done].
  - intros l x Hx. destruct (HL' _ _ Hx) as [c Hc]. exists c. by apply HC.
Qed.

Lemma fresh_none {A} (m : gmap loc A) : m !! fresh (dom m) = None.
Proof. apply not_elem_of_dom, is_fresh. Qed.

Lemma upto_new_cell b0 n b c : upto b0 n b -> cell_ok n b c ->
  upto b0 n (set_cellHeap (<[fresh (dom (cellHeap b)) := c]> (cellHeap b)) b).
Proof.
  intros U Hc. apply (upto_grow _ _ b); try done; try (by intros; left); try by intros l x Hx; eauto.
  - intros l x Hx. apply (lookup_insert_Some (cellHeap b)). right. split; [|done]. intros <-. by rewrite fresh_none in Hx.
  - intros l x [[_ <-]|[_ Hx]]%(lookup_insert_Some (cellHeap b)); auto.
  - apply (inv_leases _ _ (up_inv _ _ _ U)).
Qed.

Lemma upto_flight b0 n b l f : upto b0 n b -> flight_ok n b f ->
  (forall f0, flightHeap b !! l = Some f0 -> fl_binding f = fl_binding f0) -> upto b0 n (set_flightHeap (<[l := f]> (flightHeap b)) b).
Proof.
  intros U Hf Hb. apply (upto_grow _ _ b); try done; try (by intros; left); try by intros ? x Hx; eauto.
  - intros l' x [[_ <-]|[_ Hx]]%(lookup_insert_Some (flightHeap b)); auto.
  - intros l' y Hy. destruct (decide (l = l')) as [<-|Hn].
    + exists f. split; [by apply lookup_insert_eq | by apply Hb].
    + exists y. split; [exact (eq_trans (lookup_insert_ne (flightHeap b) l l' f Hn) Hy) | done].
  - apply (inv_leases _ _ (up_inv _ _ _ U)).
Qed.

Lemma upto_publish b0 n b d l : upto b0 n b -> points_to b d (Some l) -> upto b0 n (set_sessions (<[d := l]> (sessions b)) b).
Proof.
  intros U Hp. apply (upto_grow _ _ b); try done; try (by intros; left); try by intros ? x Hx; eauto.
  - intros d' x [[<- <-]|[_ Hx]]%(lookup_insert_Some (sessions b)); auto.
  - apply (inv_leases _ _ (up_inv _ _ _ U)).
Qed.

(** A lease is put in place, or its cell kept. *)
Lemma upto_lease b0 n b l x : upto b0 n b -> is_Some (cellHeap b !! ls_cell x) ->
  (forall x0, leaseHeap b !! l = Some x0 -> ls_cell x = ls_cell x0) -> upto b0 n (set_leaseHeap (<[l := x]> (leaseHeap b)) b).
Proof.
  intros U Hc Hx. apply (upto_grow _ _ b); try done; try (by intros; left); try by intros ? f Hf; exists f.
  - intros l' y Hy. destruct (decide (l = l')) as [<-|Hn].
    + exists x. split; [by apply lookup_insert_eq | by apply Hx].
    + exists y. split; [exact (eq_trans (lookup_insert_ne (leaseHeap b) l l' x Hn) Hy) | done].
  - intros l' y [[_ <-]|[_ Hy]]%(lookup_insert_Some (leaseHeap b)); [done|]. by eapply (inv_leases _ _ (up_inv _ _ _ U)).
Qed.

Lemma sound_counters n b b' : b_authority b' = b_authority b -> sessions b' = sessions b -> cellHeap b' = cellHeap b ->
  flightHeap b' = flightHeap b -> rotationHeap b' = rotationHeap b -> leaseHeap b' = leaseHeap b -> sound_step n b b'.
Proof.
  intros HA HS HC HF HR HL. apply sound_parts; unfold nextEpoch, closed, lineages, operations; rewrite ?HA, ?HS, ?HC, ?HF, ?HR, ?HL; try done;
    intros; reflexivity.
Qed.

(** ** Stepping through a section *)

Ltac to_good := cbv beta in *; first [eapply upto_good; eassumption | assumption | exact Logic.I | exact eq_refl].

Ltac wp_step :=
  lazymatch goal with
  | |- wp (_ ≫= _) _ _ _ => apply wp_bind
  | |- wp (mret _) _ _ _ => apply wp_ret
  | |- wp get_state _ _ _ => apply wp_get
  | |- wp (gets _) _ _ _ => apply wp_gets
  | |- wp (modify _) _ _ _ => apply wp_modify
  | |- wp (throw _) _ _ _ => apply wp_throw; to_good
  | |- wp (reject _ _) _ _ _ => apply wp_reject; [to_good | intros ?]
  | |- wp (the _) _ _ _ => apply wp_the; [to_good | intros ? ?]
  | |- wp (lift _) _ _ _ => apply wp_lift; [to_good | intros ? ?]
  end.

(** One step of book-keeping: what it gives of the state after it. *)
Ltac wp_book U P :=
  lazymatch goal with
  | |- wp _ _ (good ?b0) ?b =>
      match goal with H : _ |- _ => apply (wp_upto b0 _ _ _ _ H); [eauto 3 with broker typeclass_instances | intros ? ? U P] end
  end.

Lemma upto_update b0 n b b' : upto b0 n b -> sound_step n b b' -> upto b0 n b'.
Proof. intros U S. by apply (upto_sound _ _ b). Qed.

(** The last update of a counter or an index. *)
Ltac peel := match goal with |- upto ?b0 ?n (?f ?x) => apply (upto_update b0 n x); [|by apply sound_counters] end.

Section Reserve.
Context (b0 : Broker).

(** What reserving epochs gives. *)
Lemma wp_reserve k (Q : Z -> Broker -> Prop) n b : 0 <= k -> upto b0 n b ->
  (k = 0 -> Q 0 b) ->
  (0 < k -> upto b0 n (set_nextEpoch (nextEpoch b + k) b) -> persist n b (set_nextEpoch (nextEpoch b + k) b) ->
   Q (nextEpoch b + 1) (set_nextEpoch (nextEpoch b + k) b)) ->
  wp (reserveEpochsLocked k) Q (good b0) b.
Proof.
  intros Hk U H0 H1. unfold reserveEpochsLocked. destruct (k =? 0) eqn:E; [apply wp_ret, H0; lia|].
  do 3 wp_step. wp_step. apply wp_bind, wp_modify, wp_ret.
  destruct (upto_sound b0 n b (set_nextEpoch (nextEpoch b + k) b) U) as [U' P]; [apply sound_raise; lia|]. apply H1; [lia | done | done].
Qed.

Lemma wp_allocateLease n l b : upto b0 n b -> is_Some (cellHeap b !! l) ->
  wp (allocateLeaseLocked l) (fun _ b' => upto b0 n b' /\ is_Some (cellHeap b' !! l)) (good b0) b.
Proof.
  intros U Hc. unfold allocateLeaseLocked, touchLocked. repeat (wp_step || apply wp_modify). cbv zeta. set (b1 := set_nextUse _ b).
  assert (upto b0 n b1) as U1 by (apply (upto_update _ _ _ _ U), frame_other; repeat split).
  assert (upto b0 n (set_leaseHeap (<[fresh (dom (leaseHeap b)) := LeS l LeaseOpen]> (leaseHeap b1)) b1)) as U2.
  { apply upto_lease; [done | done|]. intros x0 Hx0. change (leaseHeap b1) with (leaseHeap b) in Hx0. by rewrite fresh_none in Hx0. }
  split.
  - peel. apply (upto_update _ _ _ _ U2), frame_cell. by intros [].
  - by eapply (lookup_alter_is_Some _ (cellHeap b) l l).
Qed.

Lemma wp_newLease n l now b : upto b0 n b -> wp (newLeaseLocked l now) (fun _ => upto b0 n) (good b0) b.
Proof.
  intros U. unfold newLeaseLocked. repeat wp_step. destruct (cellHeap b !! l) as [c|] eqn:Ec; [|wp_step].
  repeat wp_step. eapply wp_mono; [by apply wp_allocateLease | by intros ? ? [] | done].
Qed.
End Reserve.

(** ** Preparing a request *)

Lemma check_lineage_ok s q u : check_lineage s q = Ok u -> ln_generation s = rq_connectionGeneration q.
Proof. unfold check_lineage. repeat case_match; try done. intros _. lia. Qed.

Section Requests.
Context (b0 : Broker).

(** The epochs a request is served under. *)
Definition prepared (q : Request) (epochs : Z * Z) (b : Broker) : Prop :=
  good b0 b /\ serves (nextEpoch b) b q epochs.1 /\ epochs.2 <= nextEpoch b.

Lemma serves_known n b q s : inv n b -> lineages b !! keyForConnection q = Some s -> ln_generation s = rq_connectionGeneration q ->
  serves n b q (ln_epoch s).
Proof. intros I Hs Hg. split; [by eapply inv_lineage|]. intros s' Hs' _. by simplify_eq. Qed.

Lemma serves_new n b q e : e <= n -> serves n (set_lineages (<[keyForConnection q := newLineageState q e]> (lineages b)) b) q e.
Proof. intros He. split; [done|]. intros s [[_ <-]|[? _]]%(lookup_insert_Some (lineages b)) _; done. Qed.

Lemma upto_new_lineage n b q e : upto b0 n b -> n < e <= nextEpoch b -> lineages b !! keyForConnection q = None ->
  upto b0 e (set_lineages (<[keyForConnection q := newLineageState q e]> (lineages b)) b).
Proof. intros U He Hn. apply (upto_lineage b0 n b _ (newLineageState q e)); [done | done|]. intros s0 Hs. congruence. Qed.

Lemma upto_new_operation n b q e : upto b0 n b -> n < e <= nextEpoch b -> operations b !! keyForOperation q = None ->
  upto b0 e (set_operations (<[keyForOperation q := OS (rq_binding q) e false zero_time]> (operations b)) b).
Proof. intros U He Hn. apply (upto_operation b0 n b _ (OS (rq_binding q) e false zero_time)); [done | done|]. intros s0 Hs. congruence. Qed.

Lemma wp_prepareRequest q b : good b0 b -> wp (prepareRequestLocked q) (prepared q) (good b0) b.
Proof.
  intros G. pose proof (up_inv _ _ _ G) as I. unfold prepareRequestLocked. repeat wp_step. cbv zeta. repeat wp_step.
  destruct (lineages b !! keyForConnection q) as [s|] eqn:Es, (operations b !! keyForOperation q) as [o|] eqn:Eo; simpl.
  - apply wp_ret. split; [done|]. apply check_lineage_ok in H2. split; [by apply serves_known | by eapply inv_operation].
  - apply (wp_reserve b0 1 _ (nextEpoch b)); [done | done | done|]. intros _ U _. set (b1 := set_nextEpoch _ b) in *.
    apply wp_bind, wp_modify, wp_ret. apply check_lineage_ok in H2.
    assert (nextEpoch b < nextEpoch b + 1 <= nextEpoch b1) as He by (change (nextEpoch b1) with (nextEpoch b + 1); lia).
    pose proof (upto_new_operation _ b1 q _ U He Eo) as U2. split; [exact U2|]. split; [|change (nextEpoch b + 1 <= nextEpoch b + 1); lia].
    eapply serves_known; [exact (up_inv _ _ _ U2) | exact Es | done].
  - apply (wp_reserve b0 1 _ (nextEpoch b)); [done | done | done|]. intros _ U _. set (b1 := set_nextEpoch _ b) in *.
    apply wp_bind, wp_modify, wp_ret.
    assert (nextEpoch b < nextEpoch b + 1 <= nextEpoch b1) as He by (change (nextEpoch b1) with (nextEpoch b + 1); lia).
    pose proof (upto_new_lineage _ b1 q _ U He Es) as U2. split; [exact U2|]. split; [by apply serves_new|]. simpl.
    pose proof (inv_operation _ _ I _ _ Eo). change (os_epoch o <= nextEpoch b + 1). lia.
  - apply (wp_reserve b0 2 _ (nextEpoch b)); [done | done | done|]. intros _ U _. set (b1 := set_nextEpoch _ b) in *.
    apply wp_bind, wp_modify, wp_bind, wp_modify, wp_ret.
    assert (nextEpoch b1 = nextEpoch b + 2) as Hn by done.
    pose proof (upto_new_lineage _ b1 q (nextEpoch b + 1) U ltac:(lia) Es) as U2. set (b2 := set_lineages _ b1) in *.
    assert (nextEpoch b2 = nextEpoch b + 2) as Hn2 by done.
    pose proof (upto_new_operation _ b2 q (nextEpoch b + 1 + 1) U2 ltac:(lia) Eo) as U3.
    split; [eapply upto_good; exact U3|]. split; [|change (nextEpoch b + 1 + 1 <= nextEpoch b + 2); lia].
    apply (serves_new (nextEpoch b + 2) b1). simpl. lia.
Qed.

(** ** Acquiring a session *)

Lemma wp_pin n l g b (Q : unit -> Broker -> Prop) : upto b0 n b -> (forall b', upto b0 n b' -> persist n b b' -> Q tt b') ->
  wp (pin l g) Q (good b0) b.
Proof. intros U Hq. eapply wp_upto; [done | eauto with broker typeclass_instances|]. intros []. apply Hq. Qed.

Lemma wp_start_flight n q ce oe force fallback b : upto b0 n b -> serves n b q ce -> oe <= n -> points_to b (rq_binding q) fallback ->
  wp (start_session_flight q ce oe force fallback) (fun _ => good b0) (good b0) b.
Proof.
  intros U S Ho Hp. unfold start_session_flight. wp_step. apply (wp_pin n); [done|]. intros b1 U1 P1. wp_step.
  apply (wp_upto _ n); [done | |].
  { apply keeps_on_failure; [apply _ | eauto with broker typeclass_instances..]. }
  intros _ b2 U2 P2. repeat wp_step. cbv zeta. repeat (wp_step || apply wp_modify).
  set (b3 := set_sessionReservations _ b2). 
  destruct (upto_sound _ _ _ b3 U2) as [U3 P3]; [apply frame_other; repeat split|].
  assert (persist n b b3) as P by (etrans; [exact P1 | by etrans]).
  apply (upto_good _ n). peel. apply (upto_flight _ _ b3); [done| |].
  - split; [done|]. split; [done|]. split; [done|]. split; [done|].
    split; [by eapply serves_persist|]. split; [done|]. simpl. by eapply points_persist.
  - intros f0 Hf. change (flightHeap b3) with (flightHeap b2) in Hf. by rewrite fresh_none in Hf.
Qed.

Lemma wp_join_flight n q ce oe force fallback b : upto b0 n b -> serves n b q ce -> oe <= n -> points_to b (rq_binding q) fallback ->
  wp (join_session_flight q ce oe force fallback) (fun _ => good b0) (good b0) b.
Proof.
  intros U S Ho Hp. unfold join_session_flight. repeat wp_step. destruct (sessionFlights b !! rq_binding q) as [l|].
  - repeat (wp_step || apply wp_modify). eapply upto_good, (upto_update _ n _ _ U), frame_flight. by intros [].
  - by apply (wp_start_flight n).
Qed.

Lemma wp_acquire_begin q force canceled sample b : good b0 b -> wp (acquire_begin q force canceled sample) (fun _ => good b0) (good b0) b.
Proof.
  intros G. unfold acquire_begin. do 4 wp_step. wp_step. wp_book U1 P1. wp_step. wp_book U2 P2. wp_step. wp_book U3 P3. do 4 wp_step.
  wp_step. eapply wp_mono; [eapply wp_prepareRequest; to_good | | done]. intros [ce oe] b5 (G5 & S & Ho). cbn [fst snd] in *. do 2 wp_step.
  destruct (sessions b5 !! rq_binding q) as [l|] eqn:El; [|by apply (wp_join_flight (nextEpoch b5))].
  wp_step. wp_step. cbv zeta. repeat case_match.
  - wp_step. eapply wp_mono; [by apply (wp_newLease b0 (nextEpoch b5)) | | done]. intros. wp_step. to_good.
  - apply (wp_join_flight (nextEpoch b5)); try done. by apply (inv_sessions _ _ (up_inv _ _ _ G5)).
  - wp_step. wp_book U6 P6. apply (wp_join_flight (nextEpoch b5)); [done | by eapply serves_persist | done | done].
Qed.

Lemma wp_acquire_end l sample b : good b0 b -> wp (acquire_end l sample) (fun _ => good b0) (good b0) b.
Proof.
  intros G. assert (forall b1 c now, good b0 b1 -> wp (newLeaseLocked c now) (fun _ => good b0) (good b0) b1) as HN.
  { intros b1 c now G1. eapply wp_mono; [by apply (wp_newLease b0 (nextEpoch b1)) | | done]. intros. to_good. }
  assert (good b0 (observeNowLocked sample b).2) as G1.
  { eapply upto_good, (upto_update _ _ _ _ G). apply (keeps_result (sound_step _)). eauto with broker typeclass_instances. }
  unfold wp, acquire_end. destruct (observeNowLocked sample b) as [obs b1]. simpl in G1.
  destruct (flightHeap b1 !! l) as [f|]; [|done]. unfold wp in HN.
  repeat (case_match; simplify_eq); try done; try (match goal with H : throw _ _ = _ |- _ => by injection H as <- <- end);
    match goal with H : newLeaseLocked ?c ?t ?b' = _ |- _ => specialize (HN b' c t G1); by rewrite H in HN end.
Qed.
End Requests.
