(* ===== verification/BrokerSections.v ===== *)
(** * The credential broker: publication, rotation and lifecycle keep the invariant

    The sections that install sessions, commit rotations, and end connections,
    operations and the broker, and with them every step of every history. *)

From S2P Require Import Prelude Bytes GoTime Calendar Digests Hierarchy Identity AuthzVocabulary Authorization.
From S2P Require Import Condition Control Operation Resource Credential CredentialProps BrokerState Broker BrokerWalk BrokerInvariant BrokerCore.
From Stdlib Require Import Ascii String.

Lemma equalDigest_eq d e : equalDigest d e = true -> d = e.
Proof. intros H%equalDigest_true. destruct d, e; simpl in *; naive_solver. Qed.

Section Publication.
Context (b0 : Broker).

(** A flight learns of its cell. *)
Lemma upto_flight_cell n b l c : upto b0 n b -> (forall f, flightHeap b !! l = Some f -> points_to b (fl_binding f) (Some c)) ->
  upto b0 n (upd_flight l (fl_set_cell (Some c)) b).
Proof.
  intros U Hp. unfold upd_flight. destruct (flightHeap b !! l) as [f|] eqn:Ef.
  - assert (alter (fl_set_cell (Some c)) l (flightHeap b) = <[l := fl_set_cell (Some c) f]> (flightHeap b)) as E.
    { apply map_eq. intros i. rewrite lookup_alter, lookup_insert. case_decide; [subst; by rewrite Ef | done]. }
    rewrite E. apply upto_flight; [done | |].
    + destruct (inv_flight _ _ (up_inv _ _ _ U) _ _ Ef) as (? & ? & ? & ? & ? & ? & ?). do 5 (split; [done|]). split; [exact (Hp f eq_refl) | done].
    + intros f0 Hf. by simplify_eq.
  - assert (alter (fl_set_cell (Some c)) l (flightHeap b) = flightHeap b) as E.
    { apply map_eq. intros i. rewrite lookup_alter. case_decide; [subst; by rewrite Ef | done]. }
    rewrite E. apply (upto_update _ _ _ _ U). by apply sound_counters.
Qed.

Lemma wp_install_session n l f session b : upto b0 n b -> flight_ok n b f ->
  (exists f0, flightHeap b !! l = Some f0 /\ fl_binding f0 = fl_binding f) -> is_binding session = fl_binding f ->
  wp (install_session l f session) (fun _ => upto b0 n) (good b0) b.
Proof.
  intros U Hok (f0 & Hf & Ef) Hb. unfold install_session. wp_step. wp_book U1 P1. do 2 wp_step. wp_step.
  assert (keeps (sound_step n) (match sessions b' !! fl_binding f with Some old => drainCellLocked old | None => mret tt end)) as HD.
  { destruct (sessions b' !! fl_binding f); eauto with broker typeclass_instances. }
  apply (wp_upto _ n _ _ _ U1 HD). clear HD. intros _ b2 U2 P2. cbv zeta. repeat (wp_step || apply wp_modify).
  assert (persist n b b2) as P by (by etrans).
  destruct Hok as (H1 & H2 & H3 & H4 & H5 & _).
  set (x := cell_of_flight f session a). assert (cell_ok n b2 x) as Hx.
  { split; [done|]. split; [done|]. split; [done|]. split; [done|]. split; [apply H5|]. intros _. split; [done|].
    by eapply serves_persist. }
  pose proof (upto_new_cell _ _ _ _ U2 Hx) as U3. set (c := fresh _) in *. set (b3 := set_cellHeap _ b2) in *.
  assert (points_to b3 (fl_binding f) (Some c)) as Hp.
  { intros y [= <-]. exists x. split; [by apply (lookup_insert_eq (cellHeap b2)) | done]. }
  pose proof (upto_publish _ _ _ _ _ U3 Hp) as U4. set (b4 := set_sessions _ b3) in *.
  apply upto_flight_cell; [apply (upto_update _ _ b4 _ U4), frame_other; repeat split|].
  intros f' Hf'. destruct (ps_flight _ _ _ P _ _ Hf) as (f2 & Hf2 & E2). change (flightHeap b2 !! l = Some f') in Hf'.
  simplify_eq. rewrite E2, Ef. exact Hp.
Qed.

Lemma wp_try_install n l f issued failed sample b : upto b0 n b -> flightHeap b !! l = Some f ->
  wp (try_install l f issued failed sample) (fun _ => upto b0 n) (good b0) b.
Proof.
  intros U Hf. unfold try_install. do 2 wp_step. destruct (flight_stale b f); [wp_step|]. destruct failed; [wp_step|].
  wp_step. wp_book U1 P1. do 2 wp_step. destruct issued as [session|]; [|wp_step]. wp_step. wp_step. wp_step.
  apply (wp_upto _ n _ _ _ U1).
  { apply keeps_when; [apply _ | eauto with broker typeclass_instances]. }
  intros _ b2 U2 P2. assert (persist n b b2) as P by (by etrans). apply wp_install_session; [done | | |].
  - eapply flight_ok_persist; [by eapply (inv_flight _ _ (up_inv _ _ _ U)) | reflexivity | done].
  - apply (ps_flight _ _ _ P _ _ Hf).
  - unfold validIssuedSession in H. rewrite negb_false_iff, !andb_true_iff in H. destruct H as ((((_ & H) & _) & _) & _).
    rewrite (equalDigest_eq _ _ H). symmetry. by destruct (inv_flight _ _ (up_inv _ _ _ U) _ _ Hf) as (_ & _ & -> & _).
Qed.

Lemma wp_finish_session l issued failed sample b : good b0 b -> wp (finish_session l issued failed sample) (fun _ => good b0) (good b0) b.
Proof.
  intros G. unfold wp, finish_session. destruct (flightHeap b !! l) as [f|] eqn:Ef; [|done].
  pose proof (wp_try_install _ l f issued failed sample b G Ef) as W. unfold wp in W.
  destruct (try_install l f issued failed sample b) as [[u|e] b1].
  - destruct ((modify _;; _) b1) as [r b2] eqn:E2. assert (sound_step (nextEpoch b) b1 b2) as S.
    { revert E2. apply keeps_bind; [apply _ | apply keeps_modify; intros ?; apply frame_flight; solve_same | intros _; eauto with broker typeclass_instances]. }
    destruct r; eapply upto_good; by eapply upto_update.
  - eapply upto_good, (upto_update _ _ _ _ W). apply frame_flight; solve_same.
Qed.

Lemma wp_cleanupUnpublished q issued b : good b0 b -> wp (cleanupUnpublished q issued) (fun _ => good b0) (good b0) b.
Proof.
  intros G. pose proof (inv_bound _ _ (up_inv _ _ _ G)). unfold cleanupUnpublished. do 2 wp_step. destruct issued as [s|]; [|by wp_step].
  destruct (negb _).
  - wp_step. apply wp_modify, wp_ret. eapply upto_good, (upto_update _ _ _ _ G), frame_other; repeat split.
  - cbv zeta. wp_step. apply wp_modify, wp_ret. eapply upto_good, upto_new_cell; [done|].
    do 3 (split; [done|]). split; [simpl; lia|]. split; [simpl; lia | done].
Qed.

(** A closed lease still has its cell. *)
Lemma upto_lease_status b l x st : good b0 b -> leaseHeap b !! l = Some x ->
  upto b0 (nextEpoch b) (set_leaseHeap (<[l := LeS (ls_cell x) st]> (leaseHeap b)) b).
Proof.
  intros G Ex. apply upto_lease; [done | exact (inv_leases _ _ (up_inv _ _ _ G) _ _ Ex) | intros x0 Hx; by simplify_eq].
Qed.

Lemma wp_Lease_Close_begin l b : good b0 b -> wp (Lease_Close_begin l) (fun _ => good b0) (good b0) b.
Proof.
  intros G. unfold Lease_Close_begin. repeat wp_step. apply of_option_ok in H as Ex. destruct (ls_closed a); [by wp_step|].
  wp_step. apply wp_modify, wp_ret. eapply upto_good, upto_lease_status; done.
Qed.

Lemma wp_Lease_Close_end l b : good b0 b -> wp (Lease_Close_end l) (fun _ => good b0) (good b0) b.
Proof.
  intros G. unfold Lease_Close_end. do 7 wp_step. apply wp_modify. set (b1 := set_leaseHeap _ b).
  assert (upto b0 (nextEpoch b) b1) as U1 by (by apply upto_lease_status).
  eapply wp_upto; [exact U1 | | intros; to_good].
  apply keeps_bind; [apply _ | framed | intros _]. apply keeps_bind; [apply _ | | intros _; framed].
  apply keeps_modify. intros b2. by apply sound_counters.
Qed.
End Publication.

(** ** Rotation *)

(** A section of book-keeping and lease counters. *)
Ltac counted := walk; first [solve_update | by apply sound_counters].

Lemma sound_new_rotation n b l f : rotation_ok f -> sound_step n b (set_rotationHeap (<[l := f]> (rotationHeap b)) b).
Proof.
  intros Hf I. pose proof (inv_bound _ _ I).
  assert (persist n b (set_rotationHeap (<[l := f]> (rotationHeap b)) b)) as P.
  { split; try done; try (intros ? x Hx; exists x; by split); intros ? x Hx Hx'; discriminate (eq_trans (eq_sym Hx) Hx'). }
  split; [|done]. apply (inv_persist n n b _ I P); try done; [change (n <= n <= nextEpoch b); lia | apply I | apply I | | |].
  - intros k c Hc. exists c. by split.
  - intros k x Hx. exists x. by split.
  - intros k x [[_ <-]|[_ Hx]]%(lookup_insert_Some (rotationHeap b)); [done|]. by eapply inv_rotation.
Qed.

Lemma sound_reserve_lease n : keeps (sound_step n) reserve_lease.
Proof. unfold reserve_lease. counted. Qed.
#[export] Hint Resolve sound_reserve_lease : broker.

Lemma sound_start_rotation n q s : keeps (sound_step n) (start_rotation q s).
Proof.
  unfold start_rotation. walk; try solve [solve_update]. by apply sound_new_rotation.
Qed.
#[export] Hint Resolve sound_start_rotation : broker.

Lemma sound_rotate_begin n q c s : keeps (sound_step n) (rotate_begin q c s).
Proof. unfold rotate_begin. counted. Qed.

Lemma sound_cancelRotationWaiter n l : keeps (sound_step n) (cancelRotationWaiter l).
Proof. unfold cancelRotationWaiter. counted. Qed.

Lemma sound_releaseRotation n l f : keeps (sound_step n) (releaseRotationReservationsLocked l f).
Proof. unfold releaseRotationReservationsLocked. counted. Qed.
#[export] Hint Resolve sound_releaseRotation : broker.

Lemma sound_rotation_failed n l r : keeps (sound_step n) (rotation_failed l r).
Proof. unfold rotation_failed. counted. Qed.

#[export] Hint Resolve sound_rotate_begin sound_cancelRotationWaiter sound_rotation_failed : broker.

(** ** Committing a rotation *)

Section Rotation.
Context (b0 : Broker).

Lemma wp_grant_leases k n l c b : upto b0 n b -> is_Some (cellHeap b !! c) -> wp (grant_leases k l c) (fun _ => upto b0 n) (good b0) b.
Proof.
  revert b. induction k as [|k IH]; intros b U Hc; simpl; [by apply wp_ret|]. wp_step.
  eapply wp_mono; [by apply (wp_allocateLease b0 n) | | done]. intros x b1 [U1 Hc1]. cbv beta.
  wp_step. apply wp_modify. wp_step. apply wp_modify. apply IH; [|done].
  peel. apply (upto_update _ _ _ _ U1). apply frame_rotation. solve_same.
Qed.

End Rotation.

Lemma validateRotationTarget_ok s q u : validateRotationTarget s q = Ok u -> ln_generation s < rq_connectionGeneration q.
Proof. unfold validateRotationTarget. repeat case_match; try done. intros _. lia. Qed.

Ltac wp_set := apply wp_bind; apply wp_modify; cbv beta.

(** What the checks of the cutover establish. *)
Lemma commit_check_ok l f source issued now b s : commit_check l f source issued now b = Ok s ->
  lineages b !! rf_connKey f = Some s /\ ln_generation s < rq_connectionGeneration (rf_request f) /\
  (forall o, operations b !! keyForOperation (rf_request f) = Some o -> os_terminal o = false) /\
  rf_leaseReserved f <= leaseReservations b /\
  (forall session, issued = Some session -> is_binding session = rq_binding (rf_request f)).
Proof.
  unfold commit_check. intros H. run_inv H. split; [done|]. guards_in Hr6. guards_in Hr8. split; [|split; [|split; [lia|]]].
  - destruct (validateRotationTarget s (rf_request f)) eqn:E; [by apply validateRotationTarget_ok in E | done].
  - intros o Ho. rewrite Ho in Hr5. run_inv Hr5. done.
  - intros session ->. cbv iota in H3. unfold validIssuedSession in H3. guards_in H3. done.
Qed.

Lemma upd_lineage_insert k g s b : lineages b !! k = Some s -> upd_lineage k g b = set_lineages (<[k := g s]> (lineages b)) b.
Proof.
  intros Hs. unfold upd_lineage. f_equal. apply map_eq. intros i. rewrite lookup_alter, lookup_insert.
  case_decide; [subst; by rewrite Hs | done].
Qed.

(** A new cell, published under its binding. *)
Lemma upto_publish_cell b0 n b c : upto b0 n b -> cell_ok n b c -> let l := fresh (dom (cellHeap b)) in
  let b1 := set_cellHeap (<[l := c]> (cellHeap b)) b in
  upto b0 n (set_sessions (<[sc_binding c := l]> (sessions b1)) b1).
Proof.
  intros U Hc l b1. apply upto_publish; [by apply upto_new_cell|]. intros y [= <-]. exists c.
  split; [by apply (lookup_insert_eq (cellHeap b)) | done].
Qed.

Lemma wp_commitRotation b0 l source issued sample b : good b0 b ->
  wp (commitRotation l source issued sample) (fun _ => good b0) (good b0) b.
Proof.
  intros G. unfold commitRotation. wp_step. wp_book U1 P1. repeat wp_step. rename b' into b1, a0 into f.
  apply commit_check_ok in H0 as (Hl & Hg & Ho & _ & Hb). destruct (inv_rotation _ _ (up_inv _ _ _ U1) _ _ H) as [Hk Hd].
  eapply wp_reserve; [done | exact U1 | done|]. intros _ U2 P2. set (b2 := set_nextEpoch _ b1) in *. set (e := nextEpoch b1 + 1).
  pose proof (inv_bound _ _ (up_inv _ _ _ U1)) as Hn.
  cbv zeta. wp_step. wp_book U3 P3. do 5 wp_step. wp_book U4 P4. do 2 wp_step.
  assert (persist (nextEpoch b) b1 b'0) as P by (etrans; [exact P2 | by etrans]).
  assert (nextEpoch b1 + 2 <= nextEpoch b'0) as He.
  { pose proof (ps_epoch _ _ _ P3). pose proof (ps_epoch _ _ _ P4). change (nextEpoch b2) with (nextEpoch b1 + 2) in *. lia. }
  destruct (lineage_stable _ _ _ _ _ (up_inv _ _ _ U4) P Hl) as (s' & Hs' & Es & _ & Er).
  pose proof (operation_stable _ _ _ (keyForOperation (rf_request f)) (up_inv _ _ _ U4) P) as Hop.
  wp_set. rewrite (upd_lineage_insert _ _ _ _ Hs').
  assert (upto b0 e (set_lineages (<[rf_connKey f := rotated_lineage (rf_request f) e s']> (lineages b'0)) b'0)) as U5.
  { apply (upto_lineage _ _ _ _ (rotated_lineage (rf_request f) e s') U4); [simpl; lia|]. intros s0 Hs0. simplify_eq. simpl. lia. }
  set (b5 := set_lineages _ b'0) in *. wp_set. change (operations b5) with (operations b'0).
  set (o := rotated_operation _ _ _).
  assert (upto b0 (e + 1) (set_operations (<[keyForOperation (rf_request f) := o]> (operations b'0)) b5)) as U6.
  { apply (upto_operation _ _ b5 _ o U5); [change (nextEpoch b5) with (nextEpoch b'0); simpl; lia|]. intros o0 Ho0 Ht.
    change (operations b5) with (operations b'0) in Ho0. rewrite Ho0 in Hop. inversion Hop as [o1 ? [_ Et] E1|]; subst.
    symmetry in E1. apply Ho in E1. congruence. }
  set (b6 := set_operations _ b5) in *. wp_step. wp_book U7 P7. do 2 wp_step. cbv zeta. do 2 wp_set.
  set (b8 := set_sources _ _). destruct (upto_sound b0 (e + 1) b'1 b8 U7) as [U8 P8]; [apply frame_other; repeat split|].
  wp_step. wp_book U9 P9. do 2 wp_step. cbv zeta. do 2 wp_set. set (x := SC _ _ _ _ _ _ _ _ _ _ _ _ _ _).
  assert (serves (e + 1) b6 (rf_request f) e) as S6.
  { split; [lia|]. rewrite <- Hk. intros s0 Hs0 _. apply (lookup_insert_Some (lineages b'0)) in Hs0 as [[_ <-]|[? _]]; done. }
  assert (cell_ok (e + 1) b'2 x) as Hx.
  { do 3 (split; [done|]). split; [simpl; lia|]. split; [simpl; lia|]. intros _. split; [change (is_binding a2 = rf_binding f); rewrite Hd; by apply Hb|].
    eapply serves_persist; [exact S6|]. etrans; [exact P7|]. by etrans. }
  pose proof (upto_publish_cell _ _ _ _ U9 Hx) as U10. cbv zeta in U10. change (sc_binding x) with (rf_binding f) in U10.
  set (c := fresh (dom (cellHeap b'2))) in *. set (b9 := set_sessions _ _) in *. do 2 wp_set. set (b10 := upd_rotation _ _ _).
  assert (upto b0 (e + 1) b10) as U11.
  { unfold b10. apply (upto_update _ _ (set_cells ({[c]} ∪ cells b9) b9)); [by peel|]. apply frame_rotation. solve_same. }
  wp_step. eapply wp_mono; [apply (wp_grant_leases b0 _ (e + 1)); [exact U11|] | | done].
  - exists x. apply (lookup_insert_eq (cellHeap b'2)).
  - intros ? b11 U12. cbv beta in U12. eapply wp_upto; [exact U12 | framed | intros; to_good].
Qed.

(** ** Ending connections, operations and the broker *)

(** Nothing of the request's generation serves again. *)
Definition buried (q : Request) (b : Broker) : Prop :=
  exists s, lineages b !! keyForConnection q = Some s /\ rq_connectionGeneration q <= ln_revokedThrough s.

Definition terminated (q : Request) (b : Broker) : Prop :=
  exists o, operations b !! keyForOperation q = Some o /\ os_terminal o = true.

Lemma buried_persist n q b b' : buried q b -> persist n b b' -> buried q b'.
Proof.
  intros (s & Hs & Hr) P. destruct (ps_lineage _ _ _ P _ _ Hs) as (s' & Hs' & Hr' & _). exists s'. split; [done | lia].
Qed.

Lemma terminated_persist n q b b' : terminated q b -> persist n b b' -> terminated q b'.
Proof.
  intros (o & Ho & Ht) P. destruct (ps_operation _ _ _ P _ _ Ho) as (o' & Ho' & Ht' & _). exists o'. auto.
Qed.

Section Lifecycle.
Context (b0 : Broker).

(** The tombstone of a lineage, new or not. *)
Lemma upto_bury n b q e through : upto b0 n b -> n < e <= nextEpoch b -> rq_connectionGeneration q <= through ->
  let b1 := if is_some (lineages b !! keyForConnection q) then b
            else set_lineages (<[keyForConnection q := newLineageState q e]> (lineages b)) b in
  let b2 := upd_lineage (keyForConnection q) (bury e through) b1 in
  upto b0 e b2 /\ buried q b2.
Proof.
  intros U He Ht. set (k := keyForConnection q). assert (forall s, ln_epoch (bury e through s) = e /\ ln_generation (bury e through s) = ln_generation s /\
    Z.max through (ln_revokedThrough s) = ln_revokedThrough (bury e through s)) as HB.
  { intros s. unfold bury. case_match; simpl; lia. }
  set (s0 := default (newLineageState q e) (lineages b !! k)). destruct (HB s0) as (E1 & E2 & E3).
  intros b1 b2. assert (b2 = set_lineages (<[k := bury e through s0]> (lineages b)) b) as ->.
  { unfold b2, b1, s0. destruct (lineages b !! k) as [s|] eqn:Es; simpl; [by apply upd_lineage_insert|].
    rewrite (upd_lineage_insert _ _ (newLineageState q e)) by apply (lookup_insert_eq (lineages b)).
    exact (f_equal (fun m => set_lineages m b) (insert_insert_eq (lineages b) k _ _)). }
  split.
  - rewrite <- E1 at 1. apply (upto_lineage _ n); [done | lia|]. intros s Hs. unfold s0 in *. rewrite Hs in *. simpl in *. lia.
  - exists (bury e through s0). split; [apply (lookup_insert_eq (lineages b)) | lia].
Qed.

Lemma wp_revoke_lineage q now pending through b : good b0 b -> rq_connectionGeneration q <= through ->
  wp (revoke_lineage q now pending through) (fun _ b' => good b0 b' /\ buried q b') (good b0) b.
Proof.
  intros G Ht. unfold revoke_lineage. wp_step. unfold newEpochLocked.
  apply (wp_reserve b0 1 _ (nextEpoch b)); [done | done | done|]. intros _ U1 P1. set (b1 := set_nextEpoch _ b) in *. set (e := nextEpoch b + 1).
  destruct (upto_bury (nextEpoch b) b1 q e through U1) as [U2 B2]; [change (nextEpoch b1) with e; lia | done|].
  do 2 wp_step. wp_step. apply (wp_mono _ _ (fun _ b' => b' = if is_some (lineages b1 !! keyForConnection q) then b1
    else set_lineages (<[keyForConnection q := newLineageState q e]> (lineages b1)) b1) _ (good b0)).
  { by destruct (lineages b1 !! keyForConnection q). }
  2: done. intros _ ? ->. wp_set. set (b2 := upd_lineage _ _ _) in *. wp_step. wp_book U3 P3. wp_book U4 P4. split; [to_good|].
  by eapply buried_persist, P4; eapply buried_persist.
Qed.

Lemma buried_already n q s b : lineages b !! keyForConnection q = Some s -> (rq_connectionGeneration q <=? ln_revokedThrough s) = true ->
  upto b0 n b -> forall k now attempts pending,
  wp (connection_cleanup k now attempts pending) (fun _ b' => good b0 b' /\ buried q b') (good b0) b.
Proof. intros Hs Hr U k now attempts pending. apply wp_gets. split; [to_good|]. exists s. split; [done | lia]. Qed.

Lemma wp_revoke_upto n q now pending through b : upto b0 n b -> rq_connectionGeneration q <= through ->
  wp (revoke_lineage q now pending through) (fun _ b' => good b0 b' /\ buried q b') (good b0) b.
Proof. intros U. apply wp_revoke_lineage. to_good. Qed.

Lemma revoke_through_le q b : rq_connectionGeneration q <= revoke_through q b.
Proof. unfold revoke_through. repeat case_match; lia. Qed.

Lemma wp_RevokeConnection q c sample b : good b0 b ->
  wp (RevokeConnection q c sample) (fun _ b' => good b0 b' /\ buried q b') (good b0) b.
Proof.
  intros G. unfold RevokeConnection. do 4 wp_step. wp_step. wp_book U1 P1. wp_step. wp_book U2 P2. wp_step. wp_book U3 P3.
  do 2 wp_step. cbv zeta. set (k := keyForConnection q).
  destruct (pendingRotationForConnectionLocked q _) as [[l f]|], (lineages b'1 !! k) as [s|] eqn:Es.
  - destruct (negb (ln_epoch s =? rf_fromEpoch f)).
    + destruct (_ <=? _) eqn:E; [by eapply buried_already | wp_step].
    + eapply wp_revoke_upto; [exact U3 | done].
  - wp_step.
  - do 4 wp_step. destruct (_ <=? _) eqn:E; [by eapply buried_already|]. do 2 wp_step.
    eapply wp_revoke_upto; [exact U3 | apply revoke_through_le].
  - do 2 wp_step. eapply wp_revoke_upto; [exact U3 | apply revoke_through_le].
Qed.

(** The terminal flag of an operation, new or not. *)
Lemma upto_terminate n b q e : upto b0 n b -> n < e <= nextEpoch b ->
  upto b0 e (terminate (keyForOperation q) q e b) /\ terminated q (terminate (keyForOperation q) q e b).
Proof.
  intros U He. unfold terminate. cbv zeta. set (o := OS _ _ _ _). split.
  - by apply (upto_operation b0 n b _ o).
  - exists o. split; [apply (lookup_insert_eq (operations b)) | done].
Qed.

Lemma lifecycle_lineage_none q pending b : lifecycle_lineage q pending b = Ok None -> lineages b !! keyForConnection q = None.
Proof. unfold lifecycle_lineage, validateLifecycleLineageLocked. repeat case_match; try done. Qed.

(** Ending the operation at a new epoch, and what follows. *)
Lemma wp_terminate_then {A} n e q (m : locked A) b : upto b0 n b -> n < e <= nextEpoch b -> (forall k, keeps (sound_step k) m) ->
  wp (modify (terminate (keyForOperation q) q e);; m) (fun _ b' => good b0 b' /\ terminated q b') (good b0) b.
Proof.
  intros U He Hm. destruct (upto_terminate n b q e U He) as [U1 T1]. wp_set. eapply wp_upto; [exact U1 | apply Hm|].
  intros a b' U2 P2. split; [to_good | by eapply terminated_persist].
Qed.

Lemma wp_terminateOperation q c sample b : good b0 b ->
  wp (terminateOperation q c sample) (fun _ b' => good b0 b' /\ terminated q b') (good b0) b.
Proof.
  intros G. unfold terminateOperation. do 4 wp_step. wp_step. wp_book U1 P1. wp_step. wp_book U2 P2. wp_step. wp_book U3 P3.
  do 6 wp_step. cbv zeta. rename b'1 into b1. match goal with |- wp (if ?t then _ else _) _ _ _ => destruct t eqn:Et end.
  - apply wp_gets. split; [to_good|]. destruct (operations b1 !! keyForOperation q) as [o|] eqn:Eo; [by exists o | done].
  - do 5 wp_step. pose proof (inv_bound _ _ (up_inv _ _ _ U3)) as Hn.
    assert (forall k, keeps (sound_step k) (when (negb (is_some (operations b1 !! keyForOperation q))) (spend_reservation a2))) as HS.
    { intros k. apply keeps_when; [apply _ | eauto with broker typeclass_instances]. }
    eapply wp_reserve; [by destruct (is_some a4) | exact U3 | by destruct (is_some a4)|]. intros _ U4 _.
    set (b2 := set_nextEpoch _ b1) in *. destruct a4 as [s|]; simpl is_some; cbv iota; simpl negb; cbn [when].
    + wp_step. apply wp_ret. wp_step. eapply wp_upto; [exact U4 | apply HS|]. intros _ b3 U5 P5. pose proof (ps_epoch _ _ _ P5) as He.
      change (nextEpoch b2) with (nextEpoch b1 + 1) in He. apply (wp_terminate_then (nextEpoch b)); [done | lia|]. intros k. walk.
    + wp_set. apply lifecycle_lineage_none in H4 as Hnone.
      assert (nextEpoch b < nextEpoch b1 + 1 <= nextEpoch b2) as Hb by (change (nextEpoch b2) with (nextEpoch b1 + 2); lia).
      pose proof (upto_new_lineage _ _ b2 q _ U4 Hb Hnone) as U5.
      wp_step. eapply wp_upto; [exact U5 | apply HS|]. intros _ b3 U6 P6. pose proof (ps_epoch _ _ _ P6) as He.
      apply (wp_terminate_then (nextEpoch b1 + 1)); [done | | intros k; walk].
      change (nextEpoch b1 + 2 <= nextEpoch b3) in He. lia.
Qed.

(** Closing closes, whatever the clock says. *)
Lemma Broker_Close_good sample b : good b0 b -> good b0 (Broker_Close sample b).2 /\ closed (Broker_Close sample b).2 = true.
Proof.
  intros G. assert (upto b0 (nextEpoch b) (observeNowLocked sample b).2 /\ persist (nextEpoch b) b (observeNowLocked sample b).2) as [U P].
  { apply (upto_sound _ _ _ _ G). apply (keeps_result (sound_step _)). eauto with broker typeclass_instances. }
  unfold Broker_Close. destruct (observeNowLocked sample b) as [obs b1]. simpl in U, P.
  assert (forall A (m : locked A) b2, keeps (sound_step (nextEpoch b)) m -> upto b0 (nextEpoch b) b2 -> closed b2 = true ->
    good b0 (m b2).2 /\ closed (m b2).2 = true) as HK.
  { intros A m b2 Hm U2 Hc. destruct (upto_sound _ _ _ _ U2 (keeps_result _ m b2 Hm)) as [U3 P3].
    split; [to_good | by apply (ps_closed _ _ _ P3)]. }
  destruct (closed b) eqn:Ec.
  - apply HK; [walk | done | by apply (ps_closed _ _ _ P)].
  - match goal with |- context [(modify _ ≫= ?f) b1] => apply (HK _ (f tt) (set_closed true b1)) end; [walk | | done].
    apply (upto_update _ _ _ _ U), sound_close.
Qed.
End Lifecycle.

(** ** Histories *)

Lemma wp_good {A} (m : locked A) Q b0 b : wp m (fun a b' => good b0 b' /\ Q a b') (good b0) b -> good b0 (m b).2.
Proof. unfold wp. destruct (m b) as [[a|e] b']; [by intros [] | done]. Qed.

Lemma wp_good' {A} (m : locked A) b0 b : wp m (fun _ => good b0) (good b0) b -> good b0 (m b).2.
Proof. unfold wp. by destruct (m b) as [[a|e] b']. Qed.

Lemma sound_good {A} (m : locked A) b0 b : (forall n, keeps (sound_step n) m) -> good b0 b -> good b0 (m b).2.
Proof. intros Hm G. eapply upto_good, (upto_update _ _ _ _ G). apply (keeps_result (sound_step _)), Hm. Qed.

(** Every step, whoever takes it, keeps the invariant and what persists. *)
Lemma step_good e b0 b : good b0 b -> good b0 (step e b).
Proof.
  intros G. destruct e; cbn [step];
    first [ by apply sound_good; [intros; eauto 3 with broker typeclass_instances|]
          | by apply wp_good', wp_acquire_begin | by apply wp_good', wp_acquire_end | by apply wp_good', wp_finish_session
          | by apply wp_good', wp_cleanupUnpublished | by apply wp_good', wp_Lease_Close_begin | by apply wp_good', wp_Lease_Close_end | by apply wp_good', wp_commitRotation
          | by eapply wp_good, wp_RevokeConnection | by eapply wp_good, wp_terminateOperation | by apply Broker_Close_good ].
Qed.

Lemma run_good es b0 b : good b0 b -> good b0 (run es b).
Proof. revert b. induction es as [|e es IH]; intros b G; [done|]. by apply IH, step_good. Qed.
