(* ===== verification/BrokerLeases.v ===== *)
(** * The credential broker: the lease budget

    The count of active leases is the number of leases that are open, and with
    the reservations of rotations it never exceeds the maximum. *)

From S2P Require Import Prelude Bytes GoTime Calendar Digests Hierarchy Identity AuthzVocabulary Authorization.
From S2P Require Import Condition Control Operation Resource Credential CredentialProps BrokerState Broker BrokerWalk BrokerInvariant BrokerCore BrokerSections.
From Stdlib Require Import Ascii String.

(** ** Sections that leave the leases alone *)

Definition same_leases (b b' : Broker) : Prop :=
  leaseHeap b' = leaseHeap b /\ activeLeases b' = activeLeases b /\ leaseReservations b' = leaseReservations b.

#[export] Instance same_leases_preorder : PreOrder same_leases.
Proof. split; [by repeat split | unfold same_leases; intros a b c; intuition congruence]. Qed.

#[export] Instance same_leases_frame : Frame same_leases.
Proof. split; [apply _ | | by repeat split..]. intros b b' (_ & _ & _ & _ & _ & H). exact H. Qed.

(** Walking, where every update is outside the leases. *)
Ltac aside := walk; first [solve_update | by repeat split].

Lemma aside_reserveEpochs k : keeps same_leases (reserveEpochsLocked k).
Proof. unfold reserveEpochsLocked. aside. Qed.
#[export] Hint Resolve aside_reserveEpochs : broker.

Lemma aside_prepareRequest q : keeps same_leases (prepareRequestLocked q).
Proof. unfold prepareRequestLocked. aside. Qed.
Lemma aside_join q ce oe force fallback : keeps same_leases (join_session_flight q ce oe force fallback).
Proof. unfold join_session_flight, start_session_flight. aside. Qed.
Lemma aside_install l f s : keeps same_leases (install_session l f s).
Proof. unfold install_session. aside. Qed.
#[export] Hint Resolve aside_prepareRequest aside_join aside_install : broker.

Lemma aside_try_install l f i e s : keeps same_leases (try_install l f i e s).
Proof. unfold try_install. aside. Qed.
#[export] Hint Resolve aside_try_install : broker.

Lemma aside_finish_session l i e s : keeps same_leases (finish_session l i e s).
Proof.
  intros b r b' E. unfold finish_session in E. destruct (flightHeap b !! l) as [f|]; [|by simplify_eq].
  destruct (try_install l f i e s b) as [[u|x] b1] eqn:E1; apply aside_try_install in E1; (etrans; [exact E1|]).
  - revert E. apply keeps_bind; [apply _ | by apply keeps_modify | intros _; eauto with broker typeclass_instances].
  - by injection E as <- <-.
Qed.

Lemma aside_cleanupUnpublished q i : keeps same_leases (cleanupUnpublished q i).
Proof. unfold cleanupUnpublished. aside. Qed.
Lemma aside_revoke_lineage q t p g : keeps same_leases (revoke_lineage q t p g).
Proof. unfold revoke_lineage, newEpochLocked. aside. Qed.
#[export] Hint Resolve aside_finish_session aside_cleanupUnpublished aside_revoke_lineage : broker.

Lemma aside_RevokeConnection q c s : keeps same_leases (RevokeConnection q c s).
Proof. unfold RevokeConnection. aside. Qed.
Lemma aside_terminateOperation q c s : keeps same_leases (terminateOperation q c s).
Proof. unfold terminateOperation. aside. Qed.
Lemma aside_Broker_Close s : keeps same_leases (Broker_Close s).
Proof.
  intros b r b' E. unfold Broker_Close in E. destruct (observeNowLocked s b) as [o b1] eqn:E1.
  apply (fr_observeNowLocked same_leases) in E1. etrans; [exact E1|].
  destruct (closed b); revert E; refine ((_ : keeps same_leases _) b1 r b'); aside.
Qed.
#[export] Hint Resolve aside_RevokeConnection aside_terminateOperation aside_Broker_Close : broker.

(** ** The budget *)

(** The leases of a status. *)
Definition tally (st : leaseStatus) (m : gmap loc leaseState) : Z := Z.of_nat (size (filter (fun p => ls_status p.2 = st) m)).

Definition open_leases (b : Broker) : Z := tally LeaseOpen (leaseHeap b).
Definition closing_leases (b : Broker) : Z := tally LeaseClosing (leaseHeap b).

Record counts (b : Broker) : Prop := {
  ct_active : activeLeases b = open_leases b + closing_leases b;
  ct_reserved : 0 <= leaseReservations b;
  ct_budget : activeLeases b + leaseReservations b <= MaxActiveLeases;
}.

Definition count_step (b b' : Broker) : Prop := counts b -> counts b'.

#[export] Instance count_step_preorder : PreOrder count_step.
Proof. split; [intros b H; exact H | intros a b c H1 H2 H; exact (H2 (H1 H))]. Qed.

Lemma counts_same b b' : same_leases b b' -> counts b -> counts b'.
Proof. intros (H & HA & HR) [H1 H2 H3]. split; unfold open_leases, closing_leases; rewrite ?H, ?HA, ?HR; done. Qed.

Definition one (st st' : leaseStatus) : Z := if decide (st = st') then 1 else 0.

Lemma tally_insert st m l x : m !! l = None -> tally st (<[l := x]> m) = tally st m + one (ls_status x) st.
Proof.
  intros Hl. unfold tally, one. case_decide as Hx.
  - rewrite map_filter_insert_True by done. rewrite map_size_insert_None; [lia|]. rewrite map_lookup_filter_None. by left.
  - rewrite map_filter_insert_False, delete_id by done. lia.
Qed.

Lemma tally_update st m l x y : m !! l = Some x -> tally st (<[l := y]> m) = tally st m - one (ls_status x) st + one (ls_status y) st.
Proof.
  intros Hl. rewrite <- (insert_delete_id m l x Hl) at 2. rewrite <- insert_delete_eq, !tally_insert by apply lookup_delete_eq. lia.
Qed.

Lemma tally_nonneg st m : 0 <= tally st m.
Proof. unfold tally. lia. Qed.

(** A lease more. *)
Lemma wp_allocate (E : Broker -> Prop) l b :
  wp (allocateLeaseLocked l) (fun _ b' => activeLeases b' = activeLeases b + 1 /\ open_leases b' = open_leases b + 1 /\
                                          closing_leases b' = closing_leases b /\ leaseReservations b' = leaseReservations b) E b.
Proof.
  unfold allocateLeaseLocked, touchLocked. repeat (wp_step || apply wp_modify). cbv zeta. split; [done|].
  unfold open_leases, closing_leases. set (b1 := set_nextUse _ b).
  change (leaseHeap (set_activeLeases _ _)) with (<[fresh (dom (leaseHeap b)) := LeS l LeaseOpen]> (leaseHeap b)).
  rewrite !tally_insert by apply fresh_none. split; [done|]. split; [|done]. unfold one. simpl. lia.
Qed.

Lemma keeps_wp {A} (m : locked A) : (forall b, counts b -> wp m (fun _ => counts) counts b) -> keeps count_step m.
Proof. intros H b r b' E C. specialize (H b C). unfold wp in H. rewrite E in H. by destruct r. Qed.

(** A step aside, with what it leaves. *)
Ltac wp_aside :=
  match goal with
  | C : counts ?b |- wp _ _ counts ?b =>
      let S := fresh "S" in
      apply (wp_keeps counts same_leases);
      [eauto 3 with broker typeclass_instances | intros ? S; exact (counts_same _ _ S C) |
       intros ? ? S; pose proof (counts_same _ _ S C)]
  end.

Lemma counts_more b b' : counts b -> activeLeases b + leaseReservations b < MaxActiveLeases ->
  activeLeases b' = activeLeases b + 1 -> open_leases b' = open_leases b + 1 -> closing_leases b' = closing_leases b ->
  leaseReservations b' = leaseReservations b -> counts b'.
Proof. intros [H1 H2 H3] Hr E1 E2 E3 E4. split; lia. Qed.

Lemma count_newLease l t : keeps count_step (newLeaseLocked l t).
Proof.
  apply keeps_wp. intros b C. unfold newLeaseLocked. repeat wp_step. destruct (cellHeap b !! l); [|by wp_step].
  repeat wp_step. eapply wp_mono; [apply (wp_allocate counts) | | done]. intros x b' (E1 & E2 & E3 & E4).
  apply (counts_more b); try done. unfold leases_full in H. lia.
Qed.

Lemma count_aside {A} (m : locked A) : keeps same_leases m -> keeps count_step m.
Proof. intros Hm b r b' E C. eapply counts_same; [by eapply Hm | done]. Qed.

(** A lease that is closed still counts, until it is released. *)
Lemma count_Lease_Close_begin l : keeps count_step (Lease_Close_begin l).
Proof.
  apply keeps_wp. intros b C. unfold Lease_Close_begin. repeat wp_step. apply of_option_ok in H as Ex.
  destruct (ls_closed a) eqn:Ec; [by wp_step|]. wp_step. apply wp_modify, wp_ret. set (b1 := set_leaseHeap _ b).
  unfold ls_closed in Ec. guards_in Ec.
  pose proof (fun st => tally_update st (leaseHeap b) l a (LeS (ls_cell a) LeaseClosing) Ex) as T.
  destruct C as [C1 C2 C3]. split; [|done | done]. change (activeLeases b = open_leases b1 + closing_leases b1).
  unfold open_leases, closing_leases in *. change (leaseHeap b1) with (<[l := LeS (ls_cell a) LeaseClosing]> (leaseHeap b)).
  rewrite !T. unfold one. rewrite Ec. simpl. lia.
Qed.

Lemma count_Lease_Close_end l : keeps count_step (Lease_Close_end l).
Proof.
  apply keeps_wp. intros b C. unfold Lease_Close_end. do 7 wp_step. apply wp_modify. wp_step.
  apply wp_modify. wp_step. apply wp_modify. set (b1 := set_activeLeases _ _). assert (counts b1) as C1.
  { pose proof (fun st => tally_update st (leaseHeap b) l a (LeS (ls_cell a) LeaseReleased) H) as T.
    pose proof (tally_nonneg LeaseOpen (leaseHeap b1)). pose proof (tally_nonneg LeaseClosing (leaseHeap b1)).
    destruct C as [C1 C2 C3]. assert (activeLeases b1 = at_least_zero (activeLeases b)) as E1 by done.
    change (leaseHeap b1) with (<[l := LeS (ls_cell a) LeaseReleased]> (leaseHeap b)) in *.
    guards_in H0. rewrite !T in *. unfold one in *. rewrite H0 in *. simpl in *. unfold open_leases, closing_leases, at_least_zero in *.
    split; [|done|]; unfold open_leases, closing_leases;
    change (leaseHeap b1) with (<[l := LeS (ls_cell a) LeaseReleased]> (leaseHeap b)); change (leaseReservations b1) with (leaseReservations b);
    rewrite ?T, ?E1; unfold one; rewrite ?H0; simpl; case_match; lia. }
  apply (wp_keeps counts same_leases); [aside | intros ? S; by apply (counts_same _ _ S) | intros _ ? S; by apply (counts_same _ _ S)].
Qed.

(** Reservations only shrink here. *)
Lemma counts_fewer b v : counts b -> 0 <= v <= leaseReservations b -> counts (set_leaseReservations v b).
Proof.
  intros [H1 H2 H3] Hv. split; [done | |]; [change (0 <= v) | change (activeLeases b + v <= MaxActiveLeases)]; lia.
Qed.

Lemma count_fewer f : (forall x, 0 <= x -> 0 <= f x <= x) -> keeps count_step (modify (fun b => set_leaseReservations (f (leaseReservations b)) b)).
Proof. intros Hf. apply keeps_modify. intros b C. apply counts_fewer; [done|]. apply Hf, C. Qed.

Lemma at_least_zero_fewer x : 0 <= x -> 0 <= at_least_zero x <= x.
Proof. unfold at_least_zero. case_match; lia. Qed.

#[export] Hint Extern 1 (keeps count_step _) => solve [apply count_aside; eauto 3 with broker typeclass_instances] : broker.

Lemma count_of_same b b' : same_leases b b' -> count_step b b'.
Proof. intros S C. by eapply counts_same. Qed.

(** Walking, where every update leaves the leases alone or gives reservations back. *)
Ltac fewer :=
  walk; first [ apply count_of_same; by repeat split
              | let C := fresh in intros C; apply counts_fewer; [done|]; destruct C; first [by apply at_least_zero_fewer | case_match; lia] ].

Lemma count_cancelRotationWaiter l : keeps count_step (cancelRotationWaiter l).
Proof. unfold cancelRotationWaiter. fewer. Qed.

Lemma count_releaseRotation l f : keeps count_step (releaseRotationReservationsLocked l f).
Proof. unfold releaseRotationReservationsLocked. apply keeps_bind; [apply _ | eauto with broker | intros _].
  destruct (0 <? rf_leaseReserved f) eqn:E; simpl; [|apply keeps_ret; apply _].
  fewer. Qed.
#[export] Hint Resolve count_newLease count_Lease_Close_begin count_Lease_Close_end count_cancelRotationWaiter count_releaseRotation : broker.

Lemma count_rotation_failed l r : keeps count_step (rotation_failed l r).
Proof. unfold rotation_failed. fewer. Qed.

Lemma wp_reserve_lease b : counts b -> activeLeases b + leaseReservations b < MaxActiveLeases -> wp reserve_lease (fun _ => counts) counts b.
Proof.
  intros [H1 H2 H3] Hr. apply wp_modify. split; [done | |];
    [change (0 <= leaseReservations b + 1) | change (activeLeases b + (leaseReservations b + 1) <= MaxActiveLeases)]; lia.
Qed.

(** After a reservation everything is aside. *)
Lemma wp_reserve_then {A} (m : locked A) b : counts b -> activeLeases b + leaseReservations b < MaxActiveLeases -> keeps same_leases m ->
  wp (reserve_lease;; m) (fun _ => counts) counts b.
Proof.
  intros C Hr Hm. wp_step. eapply wp_mono; [by apply wp_reserve_lease | | done]. intros ? b1 C1. cbv beta in C1.
  apply (wp_keeps counts same_leases); [done | intros ? S; by apply (counts_same _ _ S) | intros _ ? S; by apply (counts_same _ _ S)].
Qed.

Definition room (b : Broker) : Prop := activeLeases b + leaseReservations b < MaxActiveLeases.

(** A step aside keeps the room for one lease. *)
Lemma wp_room {A} (m : locked A) (Q : A -> Broker -> Prop) b : counts b -> room b -> keeps same_leases m ->
  (forall a b', counts b' -> room b' -> Q a b') -> wp m Q counts b.
Proof.
  intros C Hr Hm Hq. apply (wp_keeps counts same_leases); [done | intros b' S; exact (counts_same _ _ S C)|].
  intros a b' S. apply Hq; [exact (counts_same _ _ S C)|]. destruct S as (_ & EA & ER). unfold room in *. lia.
Qed.

Lemma wp_start_rotation q s b : counts b -> room b -> wp (start_rotation q s) (fun _ => counts) counts b.
Proof.
  intros C Hr. unfold start_rotation.
  repeat (apply wp_bind; apply wp_room; [assumption | assumption | solve [aside] | clear; intros ? b C Hr; cbv zeta]).
  apply wp_reserve_then; [done | exact Hr | aside].
Qed.

Lemma count_rotate_begin q c s : keeps count_step (rotate_begin q c s).
Proof.
  apply keeps_wp. intros b C. unfold rotate_begin. do 4 wp_step. wp_step. wp_aside. wp_step. wp_aside. wp_step. wp_aside.
  do 4 wp_step. cbv zeta. repeat wp_step. unfold leases_full in *.
  destruct (rotations b'1 !! keyForConnection q) as [l|].
  - repeat wp_step. apply wp_reserve_then; [done | lia | aside].
  - apply wp_start_rotation; [done | unfold room; lia].
Qed.
#[export] Hint Resolve count_rotation_failed count_rotate_begin : broker.

Lemma count_acquire_begin q f c s : keeps count_step (acquire_begin q f c s).
Proof. unfold acquire_begin. walk. Qed.

Lemma count_acquire_end l s : keeps count_step (acquire_end l s).
Proof.
  intros b r b' E. unfold acquire_end in E. destruct (observeNowLocked s b) as [o b1] eqn:E1.
  assert (count_step b b1) as S1 by (apply count_of_same; by eapply (fr_observeNowLocked same_leases)).
  etrans; [exact S1|]. destruct (flightHeap b1 !! l) as [f|]; [|by simplify_eq].
  repeat case_match; simplify_eq; try done; first [by eapply count_newLease | by injection E as <- <-].
Qed.

(** Leases out of reservations. *)
Lemma wp_grant k l c b : counts b -> Z.of_nat k <= leaseReservations b -> wp (grant_leases k l c) (fun _ => counts) counts b.
Proof.
  revert b. induction k as [|k IH]; intros b C Hk; [by apply wp_ret|]. cbn [grant_leases]. wp_step.
  eapply wp_mono; [apply (wp_allocate counts) | | done]. intros x b1 (E1 & E2 & E3 & E4). cbv beta.
  do 2 (apply wp_bind, wp_modify; cbv beta). set (b2 := upd_rotation _ _ b1).
  apply IH; [|change (Z.of_nat k <= leaseReservations b1 - 1); lia]. destruct C as [C1 C2 C3].
  split; [change (activeLeases b1 = open_leases b1 + closing_leases b1) | change (0 <= leaseReservations b1 - 1) |
          change (activeLeases b1 + (leaseReservations b1 - 1) <= MaxActiveLeases)]; lia.
Qed.

Definition reserved (k : Z) (b : Broker) : Prop := k <= leaseReservations b.

Lemma wp_reserved {A} k (m : locked A) (Q : A -> Broker -> Prop) b : counts b -> reserved k b -> keeps same_leases m ->
  (forall a b', counts b' -> reserved k b' -> Q a b') -> wp m Q counts b.
Proof.
  intros C Hr Hm Hq. apply (wp_keeps counts same_leases); [done | intros b' S; exact (counts_same _ _ S C)|].
  intros a b' S. apply Hq; [exact (counts_same _ _ S C)|]. destruct S as (_ & EA & ER). unfold reserved in *. lia.
Qed.

Lemma count_commitRotation l source issued s : keeps count_step (commitRotation l source issued s).
Proof.
  apply keeps_wp. intros b C. unfold commitRotation. wp_step. wp_aside. repeat wp_step. rename a0 into f.
  match goal with H : commit_check _ _ _ _ _ _ = Ok _ |- _ => apply commit_check_ok in H as (_ & _ & _ & Hr & _) end.
  change (reserved (rf_leaseReserved f) b') in Hr. match goal with H : counts b' |- _ => clear - H Hr; rename H into C, b' into b end.
  repeat (apply wp_bind; apply (wp_reserved (rf_leaseReserved f)); [assumption | assumption | solve [aside] |
          clear; intros ? b C Hr; cbv zeta]).
  wp_step. eapply wp_mono; [apply wp_grant; [done|] | | done].
  - pose proof (ct_reserved _ C). unfold reserved in Hr. lia.
  - intros ? b1 C1. cbv beta in C1. apply (wp_keeps counts same_leases); [aside | intros b2 S; exact (counts_same _ _ S C1)|].
    intros ? b2 S. exact (counts_same _ _ S C1).
Qed.
#[export] Hint Resolve count_acquire_begin count_acquire_end count_commitRotation : broker.

Lemma count_of_step e b : counts b -> counts (step e b).
Proof.
  intros C. assert (forall A (m : locked A), keeps count_step m -> counts (m b).2) as H.
  { intros A m Hm. by apply (keeps_result count_step m b Hm). }
  destruct e; cbn [step]; apply H; eauto 3 with broker typeclass_instances.
Qed.

Lemma count_of_run es b : counts b -> counts (run es b).
Proof. revert b. induction es as [|e es IH]; intros b C; [done|]. by apply IH, count_of_step. Qed.
