(* ===== verification/BrokerProps.v ===== *)
(** * The credential broker: what a use is given, and what ends it

    Theorems on whole histories: any interleaving of the locked sections of
    [Broker], from a new broker on. *)

From S2P Require Import Prelude Bytes GoTime Calendar Digests Hierarchy Identity AuthzVocabulary Authorization.
From S2P Require Import Condition Control Operation Resource Credential CredentialProps BrokerState Broker BrokerWalk BrokerInvariant BrokerCore.
From S2P Require Import BrokerSections BrokerLeases.
From Stdlib Require Import Ascii String.

(** The cell a lease is on. *)
Definition lease_cell (b : Broker) (l : loc) : option sessionCell := x ← leaseHeap b !! l; cellHeap b !! ls_cell x.

(** ** A new broker *)

Definition only_time (b b' : Broker) : Prop := exists t, b' = set_timing t b.

#[export] Instance only_time_preorder : PreOrder only_time.
Proof. split; [intros []; by eexists | intros a b c [t ->] [u ->]; by exists u]. Qed.

Lemma observe_only_time s : keeps only_time (observeNowLocked s).
Proof. unfold observeNowLocked. walk; by eexists. Qed.

Definition anywhere : Broker -> Prop := fun _ => True.

Lemma wp_elim {A} (m : locked A) (Q : A -> Broker -> Prop) E0 b a b' : wp m Q E0 b -> m b = (Ok a, b') -> Q a b'.
Proof. unfold wp. intros W E. by rewrite E in W. Qed.

(** An accepted instant is not before the last one. *)
Lemma observe_now s b : wp (observeNowLocked s) (fun now b' => lastNow b <= now /\ lastNow b' = now /\ is_zero now = false) anywhere b.
Proof.
  unfold observeNowLocked. repeat wp_step. destruct (cs_failed s || is_zero (cs_observed s)) eqn:E.
  - wp_step. apply wp_when; intros _; repeat wp_step.
  - destruct (cs_sequence s <=? lastClockSample b); repeat wp_step; [done|]. apply orb_false_iff in E as [_ E].
    unfold before in *. split; [lia | done].
Qed.

Lemma New_broker_start h t b : New_broker h t = Ok b -> exists u, b = set_timing u (set_material h empty_broker).
Proof.
  unfold New_broker. intros H. assert (keeps only_time (sampleNow t ≫= observeNowLocked)) as K.
  { apply keeps_bind; [apply _ | unfold sampleNow; walk; by eexists | apply observe_only_time]. }
  destruct ((sampleNow t ≫= observeNowLocked) (set_material h empty_broker)) as [[a|e] b'] eqn:E; [|done].
  injection H as <-. by eapply K.
Qed.

(** Every state of every history keeps the invariants. *)
Lemma history_good h t b es : New_broker h t = Ok b -> good b (run es b) /\ counts (run es b).
Proof.
  intros (u & ->)%New_broker_start. split.
  - apply run_good, upto_start. by split.
  - apply count_of_run. by split.
Qed.

Lemma history_persist h t b es1 es2 : New_broker h t = Ok b -> let b1 := run es1 b in good b1 (run es2 b1).
Proof. intros H b1. apply run_good, upto_start. destruct (history_good h t b es1 H) as [G _]. apply G. Qed.

(** ** What an admitted use is given *)

(** The cell is served: its request's generation is the connection's current
    one and above its tombstone, its operation has not ended. *)
Definition current_for (b : Broker) (q : Request) : Prop :=
  exists s o, lineages b !! keyForConnection q = Some s /\ ln_generation s = rq_connectionGeneration q /\
    ln_revokedThrough s < ln_generation s /\
    operations b !! keyForOperation q = Some o /\ os_terminal o = false /\ os_binding o = rq_binding q.

Lemma cell_current n b x : cell_ok n b x -> cellCurrentLocked b x = true ->
  sc_invalid x = false /\ IssuedSession_Valid (material b) (sc_session x) = true /\
  is_binding (sc_session x) = rq_binding (sc_request x) /\ current_for b (sc_request x).
Proof.
  intros (Hk & Ho & Hb & _ & _ & Hv) Hc. unfold cellCurrentLocked in Hc. rewrite Hk, Ho in Hc.
  destruct (lineages b !! keyForConnection (sc_request x)) as [s|] eqn:Es; [|guards_in Hc; done].
  destruct (operations b !! keyForOperation (sc_request x)) as [o|] eqn:Eo; [|guards_in Hc; done].
  guards_in Hc. destruct (Hv ltac:(done)) as [Hs [_ Hg]]. split; [done|]. split; [done|]. split; [congruence|].
  exists s, o. split; [done|]. split; [by apply Hg|]. split; [lia|]. split; [done|]. split; [done|]. congruence.
Qed.

(** What an admitted use on cell [x] gives: the bytes of the session that was
    issued for the cell's request, until [until]. *)
Definition gives (b : Broker) (x : sessionCell) (value : string) (until now : time) : Prop :=
  sc_invalid x = false /\ sc_canceled x = false /\ is_binding (sc_session x) = rq_binding (sc_request x) /\
  until = is_expiresAt (sc_session x) - SessionExpirySkew /\ lastNow b <= now /\ now + MinNewUseLifetime <= until /\
  exists m st, is_material (sc_session x) = Some m /\ material b !! m = Some st /\ ms_destroyed st = false /\
               0 < slen (ms_value st) <= ms_limit st /\ value = ms_value st.

Lemma only_time_parts b b' : only_time b b' -> b_authority b' = b_authority b /\ b_serving b' = b_serving b /\
  b_leasing b' = b_leasing b /\ b_outside b' = b_outside b.
Proof. by intros [t ->]. Qed.

Lemma wp_and {A} (m : locked A) (R : Broker -> Broker -> Prop) (Q : A -> Broker -> Prop) b :
  wp m Q anywhere b -> keeps R m -> wp m (fun a b' => Q a b' /\ R b b') anywhere b.
Proof. unfold wp. intros W K. destruct (m b) as [[a|e] b'] eqn:E; [|done]. split; [done | by eapply K]. Qed.

Lemma wp_use_admit l canceled sample b : inv (nextEpoch b) b ->
  wp (use_admit l canceled sample) (fun p b' => canceled = false /\ closed b = false /\
    exists c x, leaseHeap b !! l = Some (LeS c LeaseOpen) /\ cellHeap b !! c = Some x /\ current_for b (sc_request x) /\
                gives b x p.1 p.2 (lastNow b')) anywhere b.
Proof.
  intros I. unfold use_admit. repeat wp_step. eapply wp_mono; [eapply wp_and; [apply observe_now | apply observe_only_time] | | done].
  intros now b1 ((Hle & Hlast & Hz) & [t ->]). repeat wp_step.
  match goal with H : cellHeap (set_timing t b) !! _ = Some ?y |- _ => rename y into x, H into Hx end.
  match goal with H : sc_invalid x || _ = false |- _ => apply orb_false_iff in H as [_ Hc%negb_false_iff] end.
  change (cellHeap b !! ls_cell a = Some x) in Hx. change (cellCurrentLocked b x = true) in Hc.
  destruct (CanStartUse (material (set_timing t b)) (sc_session x) now) eqn:Hu; simpl negb; cbv iota; [|repeat wp_step].
  repeat wp_step. unfold touchLocked. repeat wp_step. destruct a as [c st]. unfold ls_closed in H1. guards_in H1. simpl in *. subst.
  destruct (cell_current _ _ _ (inv_cell _ _ I _ _ Hx) Hc) as (Ci & Cv & Cb & Cc).
  split; [done|]. split; [done|]. exists c, x. split; [done|]. split; [done|]. split; [done|].
  change (gives b x (ms_value a0) (is_expiresAt (sc_session x) - SessionExpirySkew) (lastNow (set_timing t b))).
  change (material (set_timing t b)) with (material b) in *. destruct (is_material (sc_session x)) as [m|] eqn:Em; [|done].
  unfold CanStartUse, after in Hu. unfold material_usable in H5. guards_in Hu. guards_in H5.
  do 5 (split; [done|]). split; [lia|]. by exists m, a0.
Qed.

(** C2: What a use is given, after any history of the broker: the lease is
    open, its cell is current for the request it was made for (the connection's
    generation is the request's, above the tombstone; the operation is the
    request's and has not ended), and the bytes are those of the session issued
    for exactly this request's binding, not destroyed, with at least the minimal
    use lifetime left before the instant the use's context ends. *)
Theorem use_admission (h : memory) (t : time) (b0 : Broker) (es : list broker_event) (l : loc) (canceled : bool) (sample : clockSample)
    (value : string) (until : time) (b' : Broker) :
  let b := run es b0 in
  New_broker h t = Ok b0 -> use_admit l canceled sample b = (Ok (value, until), b') ->
  canceled = false /\ closed b = false /\
  exists c x, leaseHeap b !! l = Some (LeS c LeaseOpen) /\ cellHeap b !! c = Some x /\ current_for b (sc_request x) /\
              gives b x value until (lastNow b').
Proof.
  intros b H E. destruct (history_good h t b0 es H) as [G _]. exact (wp_elim _ _ _ _ _ _ (wp_use_admit _ _ _ _ (up_inv _ _ _ G)) E).
Qed.

(** Admitted uses are on current cells. *)
Lemma admitted_current h t b0 es l canceled sample p b' x : New_broker h t = Ok b0 ->
  use_admit l canceled sample (run es b0) = (Ok p, b') -> lease_cell (run es b0) l = Some x -> current_for (run es b0) (sc_request x).
Proof.
  intros H E Hx. destruct (history_good h t b0 es H) as [G _].
  destruct (wp_elim _ _ _ _ _ _ (wp_use_admit _ _ _ _ (up_inv _ _ _ G)) E) as (_ & _ & c & y & Hl & Hc & Hy & _).
  unfold lease_cell in Hx. rewrite Hl in Hx. simpl in Hx. rewrite Hc in Hx. by simplify_eq.
Qed.

Lemma run_app es1 es2 b : run (es1 ++ es2) b = run es2 (run es1 b).
Proof. apply foldl_app. Qed.

(** A use admitted later serves no less than what there was. *)
Lemma later_use h t b0 es1 es2 s l canceled sample p b' x : New_broker h t = Ok b0 ->
  use_admit l canceled sample (run es2 (run es1 b0)) = (Ok p, b') -> lease_cell (run es2 (run es1 b0)) l = Some x ->
  lineages (run es1 b0) !! keyForConnection (sc_request x) = Some s ->
  ln_generation s <= rq_connectionGeneration (sc_request x) /\ ln_revokedThrough s < rq_connectionGeneration (sc_request x).
Proof.
  intros H E Hx Hs. pose proof (history_persist h t b0 es1 es2 H) as G.
  destruct (ps_lineage _ _ _ (up_persist _ _ _ G) _ _ Hs) as (s' & Hs' & Hr & Hg & _).
  rewrite <- run_app in E, Hx, Hs'. destruct (admitted_current _ _ _ _ _ _ _ _ _ _ H E Hx) as (s2 & o & Hl & Eg & Er & _).
  simplify_eq. lia.
Qed.

(** C6: Uses never go back.  Whatever lineage a connection had at one point of a
    history, every use admitted later on this connection is for a generation no
    older than the lineage's, and above the tombstone it had: after a rotation
    the old generation is never served again. *)
Theorem uses_never_go_back (h : memory) (t : time) (b0 : Broker) (es1 es2 : list broker_event) (k : connectionKey) (s : lineageState)
    (l : loc) (canceled : bool) (sample : clockSample) (p : string * time) (b' : Broker) (x : sessionCell) :
  let b1 := run es1 b0 in
  let b2 := run es2 b1 in
  New_broker h t = Ok b0 -> lineages b1 !! k = Some s ->
  use_admit l canceled sample b2 = (Ok p, b') -> lease_cell b2 l = Some x -> keyForConnection (sc_request x) = k ->
  ln_generation s <= rq_connectionGeneration (sc_request x) /\ ln_revokedThrough s < rq_connectionGeneration (sc_request x).
Proof. intros b1 b2 H Hs E Hx <-. exact (later_use _ _ _ _ _ _ _ _ _ _ _ _ H E Hx Hs). Qed.

Lemma state_as_step {A} (m : locked A) e b r b1 : m b = (r, b1) -> step e b = (m b).2 -> b1 = step e b.
Proof. intros -> ->. done. Qed.

(** C4: Revocation is final.  Once [RevokeConnection] has returned from its
    locked section, in whatever way the broker goes on, no use is ever admitted
    on this connection for the revoked generation or an older one. *)
Theorem revocation_final (h : memory) (t : time) (b0 : Broker) (es1 es2 : list broker_event) (q : Request) (canceled : bool)
    (sample : clockSample) (c : cleanup) (b1 : Broker) (l : loc) (canceled' : bool) (sample' : clockSample) (p : string * time)
    (b' : Broker) (x : sessionCell) :
  New_broker h t = Ok b0 -> RevokeConnection q canceled sample (run es1 b0) = (Ok c, b1) ->
  use_admit l canceled' sample' (run es2 b1) = (Ok p, b') -> lease_cell (run es2 b1) l = Some x ->
  keyForConnection (sc_request x) = keyForConnection q -> rq_connectionGeneration q < rq_connectionGeneration (sc_request x).
Proof.
  intros H R E Hx Hk. destruct (history_good h t b0 es1 H) as [G _]. apply up_inv, upto_start in G.
  destruct (wp_elim _ _ _ _ _ _ (wp_RevokeConnection _ q canceled sample _ G) R) as [_ (s & Hs & Hr)].
  assert (b1 = run (es1 ++ [ERevoke q canceled sample]) b0) as -> by (rewrite run_app; by eapply state_as_step).
  rewrite <- Hk in Hs. destruct (later_use _ _ _ _ _ _ _ _ _ _ _ _ H E Hx Hs). lia.
Qed.

(** C10: The end of an operation is final.  Once [CancelOperation] or
    [CloseOperation] has returned from its locked section, no use is ever
    admitted again for this operation. *)
Theorem termination_final (h : memory) (t : time) (b0 : Broker) (es1 es2 : list broker_event) (q : Request) (canceled : bool)
    (sample : clockSample) (c : cleanup) (b1 : Broker) (l : loc) (canceled' : bool) (sample' : clockSample) (p : string * time)
    (b' : Broker) (x : sessionCell) :
  New_broker h t = Ok b0 -> terminateOperation q canceled sample (run es1 b0) = (Ok c, b1) ->
  use_admit l canceled' sample' (run es2 b1) = (Ok p, b') -> lease_cell (run es2 b1) l = Some x ->
  keyForOperation (sc_request x) <> keyForOperation q.
Proof.
  intros H R E Hx Hk. destruct (history_good h t b0 es1 H) as [G _]. apply up_inv, upto_start in G.
  destruct (wp_elim _ _ _ _ _ _ (wp_terminateOperation _ q canceled sample _ G) R) as [_ T].
  assert (b1 = run (es1 ++ [ETerminate q canceled sample]) b0) as -> by (rewrite run_app; by eapply state_as_step).
  pose proof (history_persist h t b0 (es1 ++ [ETerminate q canceled sample]) es2 H) as G2.
  destruct (terminated_persist _ _ _ _ T (up_persist _ _ _ G2)) as (o & Ho & Ht).
  rewrite <- run_app in E, Hx, Ho. destruct (admitted_current _ _ _ _ _ _ _ _ _ _ H E Hx) as (s2 & o2 & _ & _ & _ & Ho2 & Ht2 & _).
  rewrite Hk in Ho2. simplify_eq. congruence.
Qed.

(** C16: The lease budget.  At any point of any history the leases counted are
    exactly those that are open and those whose [Close] has not come to its second
    section yet, and with the leases reserved for rotations they never exceed the
    maximum. *)
Theorem lease_budget (h : memory) (t : time) (b0 : Broker) (es : list broker_event) :
  let b := run es b0 in
  New_broker h t = Ok b0 ->
  open_leases b + closing_leases b = activeLeases b /\ 0 <= leaseReservations b /\
  open_leases b + closing_leases b + leaseReservations b <= MaxActiveLeases.
Proof. intros b H. destruct (history_good h t b0 es H) as [_ [H1 H2 H3]]. unfold b. rewrite <- H1. auto. Qed.

(** ** A closed broker *)

Definition never {A} (m : locked A) (b : Broker) : Prop := result_ok (m b).1 = false.

(** What gives authority: the registered issuers, lineages and operations, the
    published sessions, cached sources, and leases. *)
Definition installed (b : Broker) :=
  (b_issuers b, lineages b, operations b, sessions b, sources b, entryHeap b, cellHeap b, leaseHeap b).

(** A call that fails and installs nothing. *)
Definition refuses {A} (m : locked A) (b : Broker) : Prop := never m b /\ installed (m b).2 = installed b.

(** A call refused at the door leaves the broker as it was. *)
Definition shut_out {A} (q : Request) (canceled : bool) (m : locked A) (b : Broker) : Prop :=
  m b = (Err (if negb (Request_Valid q) then ErrInvalid else if canceled then ErrContext else ErrClosed), b).

Definition stuck (b b' : Broker) : Prop := installed b' = installed b.

Lemma refuses_wp {A} (m : locked A) b : wp m (fun _ _ => False) (stuck b) b -> refuses m b.
Proof. unfold wp, refuses, never. destruct (m b) as [[a|e] b']; [done | by split]. Qed.

Lemma stuck_refl b : stuck b b.
Proof. done. Qed.
Lemma stuck_time b t : stuck b (set_timing t b).
Proof. done. Qed.

Lemma wp_observe_closed s b0 b (Q : time -> Broker -> Prop) : closed b = true -> stuck b0 b ->
  (forall now b', closed b' = true -> stuck b0 b' -> Q now b') -> wp (observeNowLocked s) Q (stuck b0) b.
Proof.
  intros Hc S Hq. apply (wp_keeps (stuck b0) only_time); [apply observe_only_time | by intros b' [t ->]|]. intros now b' [t ->]. by apply Hq.
Qed.

(** A section that looks at the clock and then at [closed]. *)
Ltac is_closed := match goal with H : closed _ = true |- _ => exact H end.
Ltac is_stuck := solve [assumption | exact eq_refl].
Ltac closed_out :=
  repeat (wp_step || (apply wp_observe_closed; [is_closed | is_stuck | intros ? ? ? ?]) || (progress cbv zeta)); try congruence.

Section ClosedSections.
Context (b : Broker) (Hc : closed b = true).

Lemma shut_acquire q force canceled s : shut_out q canceled (acquire_begin q force canceled s) b.
Proof.
  unfold shut_out, acquire_begin, ensure_open, reject, lift, mbind, ST_bind, fail_if, gets, throw. destruct (negb _); [done|].
  destruct canceled; [done|]. by rewrite Hc.
Qed.
Lemma shut_rotate q canceled s : shut_out q canceled (rotate_begin q canceled s) b.
Proof.
  unfold shut_out, rotate_begin, ensure_open, reject, lift, mbind, ST_bind, fail_if, gets, throw. destruct (negb _); [done|].
  destruct canceled; [done|]. by rewrite Hc.
Qed.
Lemma shut_revoke q canceled s : shut_out q canceled (RevokeConnection q canceled s) b.
Proof.
  unfold shut_out, RevokeConnection, ensure_open, reject, lift, mbind, ST_bind, fail_if, gets, throw. destruct (negb _); [done|].
  destruct canceled; [done|]. by rewrite Hc.
Qed.
Lemma shut_terminate q canceled s : shut_out q canceled (terminateOperation q canceled s) b.
Proof.
  unfold shut_out, terminateOperation, ensure_open, reject, lift, mbind, ST_bind, fail_if, gets, throw. destruct (negb _); [done|].
  destruct canceled; [done|]. by rewrite Hc.
Qed.
Lemma shut_source q epoch s : acquireSource_begin q epoch s b = (Err ErrClosed, b).
Proof. unfold acquireSource_begin, ensure_open, reject, lift, mbind, ST_bind, fail_if, gets. by rewrite Hc. Qed.

Lemma closed_register r : refuses (RegisterIssuer r) b.
Proof. apply refuses_wp. unfold RegisterIssuer. closed_out. Qed.
Lemma closed_finish_session l issued failed s : refuses (finish_session l issued failed s) b.
Proof.
  apply refuses_wp. unfold wp, finish_session. destruct (flightHeap b !! l) as [f|]; [|done].
  unfold try_install, mbind, ST_bind, get_state, flight_stale. by rewrite Hc.
Qed.
Lemma closed_finish_source l m expiresAt failed s : refuses (finishSourceFlight l m expiresAt failed s) b.
Proof.
  apply refuses_wp. assert (wp (finish_source l m expiresAt failed s) (fun _ _ => False) (stuck b) b) as W.
  { unfold finish_source. repeat wp_step. destruct failed; closed_out. }
  unfold wp, finishSourceFlight in *. by destruct (finish_source l m expiresAt failed s b) as [[u|e] b1].
Qed.
Lemma closed_source_end l s : refuses (acquireSource_end l s) b.
Proof.
  apply refuses_wp. unfold acquireSource_end. closed_out. destruct (sf_err a); closed_out.
  destruct (sf_entry a) as [e|]; simpl; [|closed_out]. destruct (entryHeap b' !! e); simpl; [|closed_out].
  destruct (lineages b' !! _); simpl; [|closed_out]. rewrite H; closed_out.
Qed.
Lemma closed_commit l source issued s : refuses (commitRotation l source issued s) b.
Proof.
  apply refuses_wp. unfold commitRotation. closed_out.
  match goal with C : commit_check _ _ _ _ _ ?b1 = Ok _, H : closed ?b1 = true |- _ => unfold commit_check in C; rewrite H in C; discriminate C end.
Qed.
Lemma closed_use_check l s : refuses (use_check l s) b.
Proof. apply refuses_wp. unfold use_check. closed_out. Qed.
Lemma closed_use_admit l canceled s : refuses (use_admit l canceled s) b.
Proof. apply refuses_wp. unfold use_admit. closed_out. Qed.
Lemma closed_use_finish l expires failed s : refuses (use_finish l expires failed s) b.
Proof. apply refuses_wp. unfold use_finish. closed_out. Qed.
End ClosedSections.

(** No session is published and no lease created. *)
Definition winds_down (b b' : Broker) : Prop := sessions b' ⊆ sessions b /\ dom (leaseHeap b') = dom (leaseHeap b).

#[export] Instance winds_down_preorder : PreOrder winds_down.
Proof. split; [by split | intros a b c [S1 D1] [S2 D2]; split; [by etrans | congruence]]. Qed.

#[export] Instance winds_down_frame : Frame winds_down.
Proof.
  split; [apply _ | | | | | | | | |]; try by intros.
  - intros b b' (_ & Hs & _ & _ & _ & Hl & _). split; [by rewrite Hs | by rewrite Hl].
  - intros b d. split; [apply delete_subseteq | done].
Qed.

Lemma winds_down_stuck b b' : stuck b b' -> winds_down b b'.
Proof. intros [= _ _ _ Hs _ _ _ Hl]. split; [by rewrite Hs | by rewrite Hl]. Qed.

Lemma winds_down_refuses {A} (m : locked A) b : refuses m b -> winds_down b (m b).2.
Proof. intros [_ S]. by apply winds_down_stuck. Qed.

Lemma winds_down_shut {A} q c (m : locked A) b : shut_out q c m b -> winds_down b (m b).2.
Proof. unfold shut_out. intros ->. reflexivity. Qed.

(** Walking, where no update publishes or leases. *)
Ltac wind := walk; first [solve_update | by split].

Lemma winds_down_status b l x st : leaseHeap b !! l = Some x ->
  winds_down b (set_leaseHeap (<[l := LeS (ls_cell x) st]> (leaseHeap b)) b).
Proof.
  intros Hx. split; [done|]. change (dom (<[l := LeS (ls_cell x) st]> (leaseHeap b)) = dom (leaseHeap b)).
  apply dom_insert_lookup_L. by eexists.
Qed.

Lemma keeps_of_wp {A} (m : locked A) : (forall b, winds_down b b -> wp m (fun _ => winds_down b) (winds_down b) b) -> keeps winds_down m.
Proof. intros W b r b' E. specialize (W b ltac:(reflexivity)). unfold wp in W. rewrite E in W. by destruct r. Qed.

Lemma winds_down_Lease_Close_begin l : keeps winds_down (Lease_Close_begin l).
Proof.
  apply keeps_of_wp. intros b Hb. unfold Lease_Close_begin. repeat wp_step. apply of_option_ok in H as Ex.
  destruct (ls_closed a); repeat wp_step; [done | by apply winds_down_status].
Qed.

Lemma winds_down_Lease_Close_end l : keeps winds_down (Lease_Close_end l).
Proof.
  apply keeps_of_wp. intros b Hb. unfold Lease_Close_end. do 7 wp_step. apply wp_modify. pose proof (winds_down_status b l a LeaseReleased H) as W.
  apply (wp_keeps _ winds_down); [wind | intros b' W'; by etrans | intros _ b' W'; by etrans].
Qed.

Lemma winds_down_cleanup q i : keeps winds_down (cleanupUnpublished q i).
Proof. unfold cleanupUnpublished. wind. Qed.
Lemma winds_down_release l f : keeps winds_down (releaseRotationReservationsLocked l f).
Proof. unfold releaseRotationReservationsLocked. wind. Qed.
#[local] Hint Resolve winds_down_Lease_Close_begin winds_down_cleanup winds_down_release : broker.
Lemma winds_down_cancelRotation l : keeps winds_down (cancelRotationWaiter l).
Proof. unfold cancelRotationWaiter. wind. Qed.
Lemma winds_down_rotation_failed l r : keeps winds_down (rotation_failed l r).
Proof. unfold rotation_failed. wind. Qed.
Lemma winds_down_Close s : keeps winds_down (Broker_Close s).
Proof.
  intros b r b' E. unfold Broker_Close in E. destruct (observeNowLocked s b) as [o b1] eqn:E1.
  apply (fr_observeNowLocked winds_down) in E1. etrans; [exact E1|].
  destruct (closed b); revert E; refine ((_ : keeps winds_down _) b1 r b'); wind.
Qed.
#[local] Hint Resolve winds_down_Lease_Close_end winds_down_cancelRotation winds_down_rotation_failed winds_down_Close : broker.

(** A waiter of a finished flight may get a lease, on a session that was published. *)
Definition fewer_sessions (b b' : Broker) : Prop := sessions b' ⊆ sessions b.

#[export] Instance fewer_sessions_preorder : PreOrder fewer_sessions.
Proof. unfold fewer_sessions. split; [by intros b | intros a b c S1 S2; by etrans]. Qed.

#[export] Instance fewer_sessions_frame : Frame fewer_sessions.
Proof.
  split; [apply _ | | | | | | | | |]; try by intros; unfold fewer_sessions.
  - intros b b' (_ & Hs & _). unfold fewer_sessions. by rewrite Hs.
  - intros b d. apply delete_subseteq.
Qed.

Lemma fewer_newLease l t : keeps fewer_sessions (newLeaseLocked l t).
Proof. unfold newLeaseLocked, allocateLeaseLocked. walk; first [solve_update | by unfold fewer_sessions]. Qed.

Lemma fewer_acquire_end l s : keeps fewer_sessions (acquire_end l s).
Proof.
  intros b r b' E. unfold acquire_end in E. destruct (observeNowLocked s b) as [o b1] eqn:E1.
  apply (fr_observeNowLocked fewer_sessions) in E1. etrans; [exact E1|]. destruct (flightHeap b1 !! l) as [f|]; [|by simplify_eq].
  repeat case_match; simplify_eq; try done; first [by eapply fewer_newLease | by injection E as <- <-].
Qed.

(** Every step of a closed broker. *)
Lemma closed_step e b : closed b = true ->
  sessions (step e b) ⊆ sessions b /\ ((forall l s, e <> EAcquired l s) -> dom (leaseHeap (step e b)) = dom (leaseHeap b)).
Proof.
  intros Hc. assert ((forall l s, e <> EAcquired l s) -> winds_down b (step e b)) as W.
  { intros He. destruct e; cbn [step];
      first [ eapply winds_down_shut; first [by apply shut_acquire | by apply shut_rotate | by apply shut_revoke | by apply shut_terminate]
            | apply winds_down_refuses; first [by apply closed_finish_session | by apply closed_commit]
            | apply (keeps_result winds_down); solve [eauto 3 with broker typeclass_instances]
            | by destruct (He _ _ eq_refl) ]. }
  destruct e; try (destruct W as [WS WD]; [done | split; [exact WS | intros _; exact WD]]).
  split; [|intros He; by destruct (He _ _ eq_refl)]. exact (keeps_result fewer_sessions _ _ (fewer_acquire_end _ _)).
Qed.

(** C23: A closed broker ends.  Once [Close] has taken the lock, whatever its
    clock said, and whatever happens after:
    - the broker stays closed, no step publishes a session again, and no step
      creates a lease, but for a waiter that comes back from a flight that was
      over before ([acquire_end]) and may still get a handle on its session;
    - no handle, such a late one included, can be used: neither check of [Use]
      passes, the callback is not called, a use admitted before does not end well;
    - [Acquire], [Refresh], [Rotate], [RevokeConnection], [CancelOperation] and
      [CloseOperation] are turned away with [ErrClosed] (unless the request is
      invalid or its context canceled) and change nothing;
    - a source is neither borrowed, started nor installed, an issued session is
      not installed, a rotation not committed and an issuer not registered: these
      sections fail and leave what gives authority as it was. *)
Theorem close_final (h : memory) (t : time) (b0 : Broker) (es1 es2 : list broker_event) (sample : clockSample) :
  let b := run es2 (Broker_Close sample (run es1 b0)).2 in
  New_broker h t = Ok b0 ->
  closed b = true /\
  (forall e, sessions (step e b) ⊆ sessions b /\
             ((forall l s, e <> EAcquired l s) -> dom (leaseHeap (step e b)) = dom (leaseHeap b))) /\
  (forall l s, refuses (use_check l s) b) /\
  (forall l canceled s, refuses (use_admit l canceled s) b) /\
  (forall l expires failed s, refuses (use_finish l expires failed s) b) /\
  (forall q canceled s,
     (forall force, shut_out q canceled (acquire_begin q force canceled s) b) /\
     shut_out q canceled (rotate_begin q canceled s) b /\
     shut_out q canceled (RevokeConnection q canceled s) b /\
     shut_out q canceled (terminateOperation q canceled s) b) /\
  (forall q epoch s, acquireSource_begin q epoch s b = (Err ErrClosed, b)) /\
  (forall l s, refuses (acquireSource_end l s) b) /\
  (forall l m expiresAt failed s, refuses (finishSourceFlight l m expiresAt failed s) b) /\
  (forall l issued failed s, refuses (finish_session l issued failed s) b) /\
  (forall l source issued s, refuses (commitRotation l source issued s) b) /\
  (forall r, refuses (RegisterIssuer r) b).
Proof.
  intros b H. assert (closed b = true) as Hc.
  { destruct (history_good h t b0 es1 H) as [G _]. destruct (Broker_Close_good _ sample _ G) as [_ Hc].
    pose proof (history_persist h t b0 (es1 ++ [EClose sample]) es2 H) as G2. cbv zeta in G2. rewrite run_app in G2.
    apply (ps_closed _ _ _ (up_persist _ _ _ G2)), Hc. }
  split; [done|]. clearbody b. clear H.
  split; [intros e; by apply closed_step|]. split; [by apply closed_use_check|]. split; [by apply closed_use_admit|].
  split; [by apply closed_use_finish|]. split.
  { intros q canceled s. split; [intros force; by apply shut_acquire|]. split; [by apply shut_rotate|].
    split; [by apply shut_revoke | by apply shut_terminate]. }
  split; [by apply shut_source|]. split; [by apply closed_source_end|]. split; [by apply closed_finish_source|].
  split; [by apply closed_finish_session|]. split; [by apply closed_commit | by apply closed_register].
Qed.

(** ** A concrete history *)

Definition bk_t : time := unix_epoch + hour.

(** The next generation of the connection's credential, under another operation. *)
Definition bk_source : SourceLookup :=
  let s := rq_source cd_q in
  let unsealed digest := SL true (sl_workspaceID s) (sl_environmentID s) (sl_providerConnectionID s) 2 (sl_provider s)
                           (sl_referenceID s) "version-2" digest in
  unsealed (deriveSourceDigest (unsealed (DV false ""))).

Definition bk_q2 : Request :=
  let unsealed binding := Rq true (rq_workspaceID cd_q) (rq_environmentID cd_q) (rq_providerConnectionID cd_q) 2 "operation-0000000002"
    (rq_targetResourceID cd_q) (rq_targetKind cd_q) (rq_targetGeneration cd_q) (rq_provider cd_q) (rq_action cd_q) (rq_recipient cd_q)
    bk_source binding in
  unsealed (deriveBindingDigest (unsealed (DV false ""))).

Definition bk_memory : memory :=
  {[1%positive := MS "token-one" MaxSessionMaterialBytes false; 2%positive := MS "token-two" MaxSessionMaterialBytes false;
    3%positive := MS "source-two" MaxSourceMaterialBytes false]}.

Definition bk_session (q : Request) (m : cell) : IssuedSession := IS (rq_binding q) bk_t (bk_t + 10 * minute) (Some m).
Definition bk_at (n : Z) : clockSample := Smp n bk_t false.

Definition bk_acquire : list broker_event :=
  [ERegister cd_recipient; EAcquire cd_q false false (bk_at 2); EFinishSession 1 (Some (bk_session cd_q 1)) None (bk_at 3);
   ESessionDone 1; EAcquired 1 (bk_at 4)].

Definition bk_rotate : list broker_event :=
  [ERotate bk_q2 false (bk_at 6); EResolved 1 (Some 3%positive) true (bk_at 7); ERotationResolved 1 (bk_t + hour);
   ECommitRotation 1 (Some 3%positive) (Some (bk_session bk_q2 2)) (bk_at 8)].

Definition bk_new : Broker := match New_broker bk_memory bk_t with Ok b => b | Err _ => empty_broker end.

Definition bk_one : Broker := run bk_acquire bk_new.
Definition bk_use (l : loc) (n : Z) (b : Broker) : result Failure (string * time) := (use_admit l false (bk_at n) b).1.

Lemma bk_new_ok : New_broker bk_memory bk_t = Ok bk_new.
Proof. vm_compute. reflexivity. Qed.

Lemma run_fst {A} (m : locked A) b a : (m b).1 = Ok a -> m b = (Ok a, (m b).2).
Proof. intros H. destruct (m b). simpl in *. by subst. Qed.

Lemma use_admission_witness :
  bk_use 1 5 bk_one = Ok ("token-one", bk_t + 10 * minute - SessionExpirySkew) /\ closed bk_one = false.
Proof.
  assert (bk_use 1 5 bk_one = Ok ("token-one", bk_t + 10 * minute - SessionExpirySkew)) as E by (vm_compute; reflexivity).
  split; [exact E|]. exact (proj1 (proj2 (use_admission _ _ _ bk_acquire 1 false (bk_at 5) _ _ _ bk_new_ok (run_fst _ _ _ E)))).
Defined.

(** The broker after the connection was revoked and rotated. *)
Definition bk_revoked : Broker := (RevokeConnection cd_q false (bk_at 5) bk_one).2.
Definition bk_two : Broker := run (ERevoke cd_q false (bk_at 5) :: bk_rotate) bk_one.
Definition bk_cell : sessionCell :=
  default (SC cd_q (bk_session cd_q 1) (keyForConnection cd_q) (keyForOperation cd_q) (rq_binding cd_q) 0 0 0 0 0 false false false None)
    (lease_cell bk_two 2).

Lemma bk_two_def : bk_two = run (ERevoke cd_q false (bk_at 5) :: bk_rotate) (run bk_acquire bk_new).
Proof. unfold bk_two, bk_one. reflexivity. Qed.
Lemma bk_two_eq : run bk_rotate bk_revoked = bk_two.
Proof. unfold bk_two, run. cbn [foldl step]. reflexivity. Qed.
Lemma bk_two_use : bk_use 2 9 bk_two = Ok ("token-two", bk_t + 10 * minute - SessionExpirySkew).
Proof. vm_compute. reflexivity. Qed.
Lemma bk_two_cell : lease_cell bk_two 2 = Some bk_cell /\ sc_request bk_cell = bk_q2.
Proof. vm_compute. split; reflexivity. Qed.

Lemma uses_never_go_back_witness :
  bk_use 1 9 bk_two = Err ErrRevoked /\ bk_use 2 9 bk_two = Ok ("token-two", bk_t + 10 * minute - SessionExpirySkew) /\
  exists s, lineages bk_one !! keyForConnection cd_q = Some s /\ ln_generation s = 1 /\
            1 <= rq_connectionGeneration (sc_request bk_cell).
Proof.
  split; [vm_compute; reflexivity|]. split; [exact bk_two_use|].
  destruct (lineages bk_one !! keyForConnection cd_q) as [s|] eqn:E; [|vm_compute in E; discriminate].
  assert (ln_generation <$> lineages bk_one !! keyForConnection cd_q = Some 1) as Eg by (vm_compute; reflexivity).
  rewrite E in Eg. injection Eg as Eg. exists s. split; [reflexivity|]. split; [exact Eg|]. rewrite <- Eg.
  pose proof (uses_never_go_back bk_memory bk_t bk_new bk_acquire (ERevoke cd_q false (bk_at 5) :: bk_rotate)) as R. cbv zeta in R.
  rewrite <- bk_two_def in R. refine (proj1 (R _ s 2%positive false (bk_at 9) _ _ bk_cell bk_new_ok E (run_fst _ _ _ bk_two_use) (proj1 bk_two_cell) _)).
  rewrite (proj2 bk_two_cell). vm_compute. reflexivity.
Defined.

Lemma revocation_final_witness :
  result_ok (RevokeConnection cd_q false (bk_at 5) bk_one).1 = true /\
  bk_use 2 9 bk_two = Ok ("token-two", bk_t + 10 * minute - SessionExpirySkew) /\ rq_connectionGeneration cd_q < rq_connectionGeneration bk_q2.
Proof.
  assert (result_ok (RevokeConnection cd_q false (bk_at 5) bk_one).1 = true) as E by (vm_compute; reflexivity).
  split; [exact E|]. split; [exact bk_two_use|]. apply result_ok_true in E as [c E]. rewrite <- (proj2 bk_two_cell).
  pose proof (revocation_final bk_memory bk_t bk_new bk_acquire bk_rotate cd_q false (bk_at 5) c bk_revoked) as R. rewrite bk_two_eq in R.
  refine (R 2%positive false (bk_at 9) _ _ bk_cell bk_new_ok (run_fst _ _ _ E) (run_fst _ _ _ bk_two_use) (proj1 bk_two_cell) _).
  rewrite (proj2 bk_two_cell). vm_compute. reflexivity.
Defined.

(** The first operation is cancelled and the connection rotated for another. *)
Definition bk_ended : Broker := (terminateOperation cd_q false (bk_at 5) bk_one).2.
Definition bk_three : Broker := run bk_rotate bk_ended.

Lemma termination_final_witness :
  result_ok (terminateOperation cd_q false (bk_at 5) bk_one).1 = true /\
  bk_use 2 9 bk_three = Ok ("token-two", bk_t + 10 * minute - SessionExpirySkew) /\
  exists x, lease_cell bk_three 2 = Some x /\ keyForOperation (sc_request x) <> keyForOperation cd_q.
Proof.
  assert (result_ok (terminateOperation cd_q false (bk_at 5) bk_one).1 = true) as E by (vm_compute; reflexivity).
  assert (bk_use 2 9 bk_three = Ok ("token-two", bk_t + 10 * minute - SessionExpirySkew)) as U by (vm_compute; reflexivity).
  split; [exact E|]. split; [exact U|]. apply result_ok_true in E as [c E].
  destruct (lease_cell bk_three 2) as [x|] eqn:Ex; [|vm_compute in Ex; discriminate]. exists x. split; [reflexivity|].
  exact (termination_final bk_memory bk_t bk_new bk_acquire bk_rotate cd_q false (bk_at 5) c bk_ended 2 false (bk_at 9) _ _ x
    bk_new_ok (run_fst _ _ _ E) (run_fst _ _ _ U) Ex).
Defined.

(** The count while the lease is being closed. *)
Lemma lease_budget_witness :
  let b := run (bk_acquire ++ [ELeaseClose 1]) bk_new in
  activeLeases b = 1 /\ open_leases b + closing_leases b = 1 /\ activeLeases (step (ELeaseClosed 1) b) = 0.
Proof.
  intros b. assert (activeLeases b = 1) as E by (vm_compute; reflexivity). split; [exact E|]. split; [|vm_compute; reflexivity].
  pose proof (lease_budget bk_memory bk_t bk_new (bk_acquire ++ [ELeaseClose 1]) bk_new_ok) as [H _]. cbv zeta in H. fold b in H.
  rewrite E in H. exact H.
Defined.

Lemma close_final_witness :
  let b := (Broker_Close (bk_at 5) bk_one).2 in
  closed b = true /\ never (use_admit 1 false (bk_at 6)) b /\ acquire_begin cd_q false false (bk_at 6) b = (Err ErrClosed, b).
Proof.
  intros b. pose proof (close_final bk_memory bk_t bk_new bk_acquire [] (bk_at 5) bk_new_ok) as (Hc & _ & _ & Hu & _ & Hq & _).
  unfold run in Hc at 1. unfold run in Hu at 1. unfold run in Hq at 1. cbn [foldl] in Hc, Hu, Hq.
  split; [exact Hc|]. split; [exact (proj1 (Hu _ _ _))|]. exact (proj1 (Hq cd_q false (bk_at 6)) false).
Defined.
