(* ===== verification/JsonMembers.v ===== *)
(** * Members of canonical JSON objects

    What the readers of canonical texts share: closed strings read back,
    pointer members, and the lemmas and tactics by which the members of a
    struct that was written are found again. *)

From S2P Require Import Prelude Bytes Closed Json JsonParse Control Operation.
From Stdlib Require Import Ascii String.

(** ** Reading *)

(** A field of a closed string type is the string it holds. *)
Definition closed_of {T} `{Closed T} (other : string -> T) (value : string) : T := default (other value) (parseClosed value).

Definition Phase_of (value : string) : Phase :=
  default (PhaseOther value) (parse_among Phase_text [PhasePending; PhaseWaiting; PhaseRunning; PhaseSucceeded; PhaseFailed; PhaseCanceled] value).

Definition pointer {A} (members : A -> list (string * json)) (key : string) (value : option A) : list (string * json) :=
  match value with Some x => [(key, JObject (members x))] | None => [] end.

(** A pointer to a string; an absent one is nil. *)
Definition get_optional (key : string) (ms : list (string * json)) : option (option string) :=
  match find_member key ms with None => Some None | Some (JString s) => Some (Some s) | Some _ => None end.

Definition unmarshal {A} (decode : list (string * json) -> option A) (data : string) : option A :=
  match parse data with Some (JObject ms) => decode ms | _ => None end.


(** ** Members of a struct by name *)

Lemma find_member_app key a b :
  find_member key (a ++ b) = match find_member key a with Some v => Some v | None => find_member key b end.
Proof. induction a as [|[k v] a IH]; simpl; [done|]. by destruct (String.eqb k key). Qed.

Lemma find_member_omitempty key k s :
  find_member key (omitempty k s) = if String.eqb k key then (if String.eqb s "" then None else Some (JString s)) else None.
Proof. unfold omitempty. destruct (String.eqb s ""); simpl; by destruct (String.eqb k key). Qed.

Lemma find_member_pointer {A} (members : A -> list (string * json)) key k v :
  find_member key (pointer members k v) = if String.eqb k key then JObject ∘ members <$> v else None.
Proof. destruct v; simpl; by destruct (String.eqb k key). Qed.

Lemma find_member_optional key k v :
  find_member key (optional_member k v) = if String.eqb k key then JString <$> v else None.
Proof. destruct v; simpl; by destruct (String.eqb k key). Qed.

Lemma omitted_optional v :
  match JString <$> v with None => Some None | Some (JString s) => Some (Some s) | Some _ => None end = Some v.
Proof. by destruct v. Qed.

Lemma option_eta {A} (o : option A) : match o with Some v => Some v | None => None end = o.
Proof. by destruct o. Qed.

Lemma omitted_string s :
  match (if String.eqb s "" then None else Some (JString s)) with
  | None => Some "" | Some (JString v) => Some v | Some _ => None end = Some s.
Proof. by destruct (String.eqb_spec s "") as [->|_]. Qed.

Lemma omitted_pointer {A} (members : A -> list (string * json)) decode v :
  (forall x, v = Some x -> decode (members x) = Some x) ->
  match JObject ∘ members <$> v with None => Some None | Some (JObject inner) => Some <$> decode inner | Some _ => None end = Some v.
Proof. intros H. destruct v as [x|]; simpl; [by rewrite (H x) | done]. Qed.

(** Reads every member of a known shape: first the lookup of any key, then each
    member by its own. *)
Ltac read_members :=
  unfold get_string, get_int, get_object, get_pointer, get_optional;
  match goal with |- context [find_member _ ?ms] =>
    let F := fresh "F" in
    eassert (forall key, find_member key ms = _) as F;
    [ intros key;
      repeat progress (rewrite ?find_member_app, ?find_member_omitempty, ?find_member_optional, ?find_member_pointer; cbn [find_member]);
      reflexivity
    | rewrite !F; clear F ]
  end;
  cbn [String.eqb Ascii.eqb Bool.eqb mbind option_bind];
  rewrite ?option_eta, ?omitted_string, ?omitted_optional; cbn [mbind option_bind].

Ltac known_shape :=
  match goal with |- context [known_members ?keys ?ms] =>
    replace (known_members keys ms) with true by
      (unfold omitempty, optional_member, pointer; repeat case_match; vm_compute; reflexivity)
  end.

Lemma get_int_inside low high v : low <= v <= high -> (if (low <=? v) && (v <=? high) then Some v else None) = Some v.
Proof. intros [H1 H2]. apply Z.leb_le in H1, H2. by rewrite H1, H2. Qed.

Lemma closed_of_spelled {T} `{Closed T} (other : string -> T) v : known v = true -> closed_of other (spelled v) = v.
Proof. unfold closed_of. intros ->%parseClosed_roundtrip. done. Qed.

Lemma Phase_of_text p : validPhase p = true -> Phase_of (Phase_text p) = p.
Proof. by destruct p. Qed.

(** ** Integers within their types *)

Lemma ints_sized_app a b : ints_sized (JObject (a ++ b)) <-> ints_sized (JObject a) /\ ints_sized (JObject b).
Proof. induction a as [|[k v] a IH]; [simpl; tauto|]. change (ints_sized (JObject (((k, v) :: a) ++ b))) with (ints_sized v /\ ints_sized (JObject (a ++ b))).
  rewrite IH. change (ints_sized (JObject ((k, v) :: a))) with (ints_sized v /\ ints_sized (JObject a)). tauto. Qed.

Lemma ints_sized_omitempty k s : ints_sized (JObject (omitempty k s)).
Proof. unfold omitempty. by destruct (String.eqb s ""). Qed.

Lemma ints_sized_pointer {A} (members : A -> list (string * json)) k v :
  (forall x, v = Some x -> ints_sized (JObject (members x))) -> ints_sized (JObject (pointer members k v)).
Proof. intros H. destruct v as [x|]; [split; [by apply H | done] | done]. Qed.

Ltac all_sized :=
  repeat match goal with
  | |- ints_sized (JObject (_ ++ _)) => apply ints_sized_app; split
  | |- ints_sized (JObject (omitempty _ _)) => apply ints_sized_omitempty
  | |- ints_sized (JObject (pointer _ _ _)) => apply ints_sized_pointer; let H := fresh "Hp" in intros ? H
  | |- ints_sized (JObject ((_, _) :: _)) => split
  | |- _ /\ _ => split
  | |- ints_sized (JInt _) => unfold ints_sized, int_sized, max_int64, max_uint64, max_uint32 in *; lia
  | |- _ => done
  end.

Lemma get_int_range low high key ms v : low <= 0 <= high -> get_int low high key ms = Some v -> low <= v <= high.
Proof.
  unfold get_int. intros H. destruct (find_member key ms) as [[| x | | ]|]; try done; [|intros [= <-]; lia].
  destruct (_ && _) eqn:E; [|done]. intros [= <-]. guards_in E. lia.
Qed.

Ltac decode_inv H := repeat (let a := fresh "v" in let G := fresh "D" in apply bind_Some in H as (a & G & H)).

Lemma get_pointer_some {A} (decode : list (string * json) -> option A) key ms v x :
  get_pointer decode key ms = Some v -> v = Some x -> exists inner, decode inner = Some x.
Proof.
  unfold get_pointer. intros E ->. destruct (find_member key ms) as [[]|]; try done.
  apply fmap_Some in E as (y & E & [= <-]). by eexists.
Qed.

