(* ===== verification/Readers.v ===== *)
(** * Reading operations and decisions (operation.go and canonical.go, UnmarshalCanonical)

    Both readers decode the members, rebuild the value, validate it, and accept
    the text only when it is the canonical text of that value. *)

From S2P Require Import Prelude Bytes Sha256 GoTime Calendar Closed Json JsonParse Condition Digests Identity.
From S2P Require Import AuthzVocabulary Authorization Receipt Control Operation OperationProps JsonMembers.
From Stdlib Require Import Ascii String.

(** ** Operations *)

Definition CostState_of (value : string) : CostState :=
  default (CostOther value) (parse_among CostState_text [CostKnown; CostUnknown] value).
Definition Confidence_of (value : string) : Confidence :=
  default (ConfidenceOther value) (parse_among Confidence_text [ConfidenceLow; ConfidenceMedium; ConfidenceHigh; ConfidenceUnknown] value).

Definition decode_cost (ms : list (string * json)) : option CostEstimate :=
  if known_members ["state"; "amount"; "currency"; "region"; "source"; "observedAt"; "confidence"; "reason"] ms then
    state ← get_string "state" ms; amount ← get_optional "amount" ms; currency ← get_string "currency" ms; region ← get_string "region" ms;
    source ← get_string "source" ms; observedAt ← get_string "observedAt" ms; confidence ← get_string "confidence" ms;
    reason ← get_string "reason" ms;
    Some (CE (CostState_of state) amount currency region source observedAt (Confidence_of confidence) reason)
  else None.

Definition decode_operation_text (ms : list (string * json)) : option Operation :=
  if known_members ["id"; "workspaceId"; "resourceId"; "environmentId"; "providerConnectionId"; "generation"; "resourceVersion"; "phase";
                    "reason"; "message"; "costEstimate"; "createdAt"; "updatedAt"] ms then
    id ← get_string "id" ms; workspace ← get_string "workspaceId" ms; resource ← get_string "resourceId" ms;
    environment ← get_optional "environmentId" ms; connection ← get_optional "providerConnectionId" ms;
    generation ← get_int (- max_int64 - 1) max_int64 "generation" ms; version ← get_string "resourceVersion" ms;
    phase ← get_string "phase" ms; reason ← get_string "reason" ms; message ← get_string "message" ms;
    cost ← get_pointer decode_cost "costEstimate" ms; createdAt ← get_string "createdAt" ms; updatedAt ← get_string "updatedAt" ms;
    Some (Op id workspace resource environment connection generation version (Phase_of phase) reason message cost createdAt updatedAt)
  else None.

Definition operation_UnmarshalCanonical (data : string) : result Operation.error Operation :=
  fail_if (String.eqb data "") Operation.ErrNonCanonical;;
  fail_if (MaxCanonicalBytes <? slen data) Operation.ErrCanonicalTooLarge;;
  result ← of_option (unmarshal decode_operation_text data) Operation.ErrNonCanonical;
  Operation.Validate result;;
  canonical ← Operation.MarshalCanonical result;
  fail_if (negb (String.eqb data canonical)) Operation.ErrNonCanonical;;
  Ok result.

(** ** Decisions *)

(** The wire struct with its strings. *)
Definition decode_decision_text (ms : list (string * json)) : option decisionWire :=
  if known_members ["contractVersion"; "policyVersion"; "inputDigest"; "effect"; "reason"] ms then
    version ← get_string "contractVersion" ms; policy ← get_string "policyVersion" ms; digest ← get_string "inputDigest" ms;
    effect ← get_string "effect" ms; reason ← get_string "reason" ms;
    Some (DW version policy digest (closed_of EffectOther effect) (closed_of ReasonOther reason))
  else None.

Definition decision_UnmarshalCanonical (data : string) : result AuthzVocabulary.error Decision :=
  fail_if (String.eqb data "") ErrNonCanonicalDecision;;
  fail_if (MaxDecisionBytes <? slen data) ErrDecisionTooLarge;;
  wire ← of_option (unmarshal decode_decision_text data) ErrNonCanonicalDecision;
  fail_if (negb (String.eqb (dw_ContractVersion wire) authorization_ContractVersion)) ErrInvalidDecision;;
  version ← of_option (ParsePolicyVersion (dw_PolicyVersion wire)) (AuthzVocabulary.ErrWrap ErrInvalidDecision ErrInvalidPolicyVersion);
  digest ← of_option (ParseInputDigest (dw_InputDigest wire)) (AuthzVocabulary.ErrWrap ErrInvalidDecision ErrInvalidInputDigest);
  let d := Dec true version digest (dw_Effect wire) (dw_Reason wire) in
  ValidateDecision d;;
  canonical ← Receipt.MarshalCanonical d;
  fail_if (negb (String.eqb data canonical)) ErrNonCanonicalDecision;;
  Ok d.

(** ** Operations read back *)

Lemma cost_valid_kinds e : ValidateCostEstimate e = Ok tt ->
  CostState_of (CostState_text (ce_State e)) = ce_State e /\ Confidence_of (Confidence_text (ce_Confidence e)) = ce_Confidence e.
Proof.
  intros V. unfold ValidateCostEstimate, in_cost in V. apply bind_ok in V as (? & _ & V). apply bind_ok in V as (? & _ & V).
  apply bind_ok in V as (? & Hc%map_err_ok & V). apply fail_if_ok in Hc. apply negb_false in Hc.
  split; [by destruct (ce_State e) | by destruct (ce_Confidence e)].
Qed.

Definition cost_members_text (e : CostEstimate) : list (string * json) :=
  match cost_json e with JObject ms => ms | _ => [] end.

Lemma decode_cost_members e : ValidateCostEstimate e = Ok tt -> decode_cost (cost_members_text e) = Some e.
Proof.
  intros (E1 & E2)%cost_valid_kinds. destruct e as [a b c d x y z w]. cbn [ce_State ce_Confidence] in *.
  unfold decode_cost, cost_members_text, cost_json.
  cbn [ce_State ce_Amount ce_Currency ce_Region ce_Source ce_ObservedAt ce_Confidence ce_Reason].
  known_shape. read_members. by rewrite E1, E2.
Qed.

Lemma decode_operation_json o ms : operation_json o = JObject ms -> Operation.Validate o = Ok tt -> op_Generation o <= max_int64 ->
  decode_operation_text ms = Some o.
Proof.
  intros Ej V Hg. destruct (Validate_facts o V) as (_ & Hp & H1 & _ & Hc & _). apply Phase_of_text in Hp.
  unfold operation_json in Ej. injection Ej as <-.
  destruct o as [a b c d e f g h i j k l m].
  cbn [op_ID op_WorkspaceID op_ResourceID op_EnvironmentID op_ProviderConnectionID op_Generation op_ResourceVersion op_Phase op_Reason op_Message
       op_CostEstimate op_CreatedAt op_UpdatedAt] in *.
  change (match k with None => [] | Some x => [("costEstimate", cost_json x)] end) with (pointer cost_members_text "costEstimate" k).
  unfold decode_operation_text. known_shape. read_members. rewrite get_int_inside by (unfold max_int64 in *; lia). cbn [mbind option_bind].
  rewrite omitted_pointer by (intros x ->; by apply decode_cost_members, Hc). cbn [mbind option_bind]. by rewrite Hp.
Qed.

Lemma operation_Marshal_ok o s : Operation.MarshalCanonical o = Ok s <-> Operation.Validate o = Ok tt /\ s = encodeCanonical o.
Proof.
  unfold Operation.MarshalCanonical. split.
  - intros H. apply bind_ok in H as ([] & Hv & H). apply bind_ok in H as (? & _ & H). injection H as <-. done.
  - intros [Hv ->]. rewrite Hv. cbn [mbind result_bind]. destruct (Validate_facts o Hv) as (_ & _ & _ & _ & _ & Hs).
    by rewrite (proj2 (Z.ltb_ge _ _) Hs).
Qed.

Lemma operation_steps data o :
  String.eqb data "" = false -> slen data <= MaxCanonicalBytes -> unmarshal decode_operation_text data = Some o ->
  Operation.Validate o = Ok tt -> Operation.MarshalCanonical o = Ok data -> operation_UnmarshalCanonical data = Ok o.
Proof.
  intros H1 H2%Z.ltb_ge H3 H4 H5. unfold operation_UnmarshalCanonical. rewrite H1, H2, H3. cbn [fail_if of_option mbind result_bind].
  rewrite H4. cbn [mbind result_bind]. rewrite H5. cbn [mbind result_bind]. by rewrite String.eqb_refl.
Qed.

Lemma operation_parse o : Operation.Validate o = Ok tt -> op_Generation o <= max_int64 ->
  unmarshal decode_operation_text (encodeCanonical o) = Some o.
Proof.
  intros V Hg. destruct (Validate_facts o V) as (_ & _ & H1 & _). unfold unmarshal, encodeCanonical.
  rewrite parse_print by (by apply operation_ints). destruct (operation_json o) as [| | |ms] eqn:E; try discriminate E.
  by apply (decode_operation_json o).
Qed.

Lemma decode_generation ms o : decode_operation_text ms = Some o -> op_Generation o <= max_int64.
Proof.
  unfold decode_operation_text. destruct (known_members _ _); [|done]. intros E. decode_inv E. injection E as <-. cbn [op_Generation].
  match goal with H : get_int _ _ _ _ = Some _ |- _ => apply get_int_range in H; [lia | unfold max_int64; lia] end.
Qed.

(** C38: the canonical text of an operation and the operation determine each
    other.  [MarshalCanonical] succeeds exactly on the valid operations, within
    4096 bytes; [UnmarshalCanonical] accepts a text exactly when it is the text
    of a valid operation whose generation is an [int64], and returns that
    operation: absent members, escaped strings and the nested cost estimate
    included. *)
Theorem operation_text_roundtrip :
  (forall o s, Operation.MarshalCanonical o = Ok s <-> Operation.Validate o = Ok tt /\ s = encodeCanonical o) /\
  (forall o s, Operation.MarshalCanonical o = Ok s -> slen s <= MaxCanonicalBytes) /\
  (forall data o, operation_UnmarshalCanonical data = Ok o <-> Operation.MarshalCanonical o = Ok data /\ op_Generation o <= max_int64).
Proof.
  split; [apply operation_Marshal_ok|]. split; [intros o s [V ->]%operation_Marshal_ok; by apply Validate_facts|]. intros data o. split.
  - unfold operation_UnmarshalCanonical. intros E. do 2 (apply bind_ok in E as (? & _ & E)). apply bind_ok in E as (r & Hr%of_option_ok & E).
    apply bind_ok in E as (? & _ & E). apply bind_ok in E as (c & M & E). apply bind_ok in E as (? & G%fail_if_ok & [= ->]).
    autorewrite with guards in G. subst c. split; [done|]. unfold unmarshal in Hr. destruct (parse data) as [[]|]; try done.
    by eapply decode_generation.
  - intros [M Hg]. pose proof M as [V E]%operation_Marshal_ok. apply operation_steps; try done; subst data.
    + unfold encodeCanonical, operation_json. rewrite print_object. reflexivity.
    + by apply Validate_facts.
    + by apply operation_parse.
Qed.

Lemma operation_text_roundtrip_witness : operation_UnmarshalCanonical (encodeCanonical o_canceled) = Ok o_canceled.
Proof.
  destruct operation_text_roundtrip as (H1 & _ & H3). apply H3. split; [|vm_compute; discriminate].
  apply H1. split; vm_compute; reflexivity.
Defined.

(** ** Decisions read back *)

Lemma decode_decision_json w ms : wire_json w = JObject ms -> Effect_known (dw_Effect w) = true -> Reason_known (dw_Reason w) = true ->
  decode_decision_text ms = Some w.
Proof.
  intros [= <-] He Hr. pose proof (closed_of_spelled EffectOther _ He) as E1. pose proof (closed_of_spelled ReasonOther _ Hr) as E2.
  destruct w as [a b c d e]. cbn [dw_ContractVersion dw_PolicyVersion dw_InputDigest dw_Effect dw_Reason spelled Effect_closed Reason_closed] in *.
  unfold decode_decision_text. known_shape. read_members. by rewrite E1, E2.
Qed.

Lemma decision_digests d : fields_valid d ->
  ParsePolicyVersion (formatDigest PolicyVersionPrefix (de_policyVersion d)) = Some (de_policyVersion d) /\
  ParseInputDigest (formatDigest InputDigestPrefix (de_inputDigest d)) = Some (de_inputDigest d).
Proof.
  intros [_ [P1 P2] [I1 I2] _ _]. unfold ParsePolicyVersion, ParseInputDigest.
  rewrite (proj2 (parseDigest_iff PolicyVersionPrefix _ (de_policyVersion d))) by done.
  by rewrite (proj2 (parseDigest_iff InputDigestPrefix _ (de_inputDigest d))) by done.
Qed.

Lemma decision_steps data d w :
  String.eqb data "" = false -> slen data <= MaxDecisionBytes -> unmarshal decode_decision_text data = Some w ->
  w = DW authorization_ContractVersion (formatDigest PolicyVersionPrefix (de_policyVersion d)) (formatDigest InputDigestPrefix (de_inputDigest d))
        (de_effect d) (de_reason d) ->
  fields_valid d -> ValidateDecision d = Ok tt -> Receipt.MarshalCanonical d = Ok data -> decision_UnmarshalCanonical data = Ok d.
Proof.
  intros H1 H2%Z.ltb_ge H3 -> F H4 H5. destruct (decision_digests d F) as [E1 E2]. unfold decision_UnmarshalCanonical.
  rewrite H1, H2, H3. cbn [fail_if of_option mbind result_bind dw_ContractVersion dw_PolicyVersion dw_InputDigest dw_Effect dw_Reason].
  rewrite String.eqb_refl, E1. cbn [negb fail_if of_option mbind result_bind]. rewrite E2. cbn [of_option mbind result_bind].
  replace (Dec _ _ _ _ _) with d; [|destruct F as [Hi _ _ _ _]; by destruct d; simpl in *; subst].
  rewrite H4. cbn [mbind result_bind]. rewrite H5. cbn [mbind result_bind]. by rewrite String.eqb_refl.
Qed.

(** The canonical text of a decision and the decision determine each other.
    The text never exceeds its limit; [UnmarshalCanonical] accepts a text
    exactly when it is the text of a valid decision, and returns it: policy
    version, input digest, effect and reason. *)
Theorem decision_text_roundtrip :
  (forall d s, Receipt.MarshalCanonical d = Ok s <-> ValidateDecision d = Ok tt /\ s = encodeDecision d) /\
  (forall d s, Receipt.MarshalCanonical d = Ok s -> slen s <= MaxDecisionBytes) /\
  (forall data d, decision_UnmarshalCanonical data = Ok d <-> Receipt.MarshalCanonical d = Ok data).
Proof.
  split; [intros d s; by rewrite MarshalCanonical_iff, ValidateDecision_iff|].
  split; [intros d s [V ->]%MarshalCanonical_iff; by apply encodeDecision_fits, validateDecisionFields_facts|]. intros data d. split.
  - unfold decision_UnmarshalCanonical. intros E. do 2 (apply bind_ok in E as (? & _ & E)). apply bind_ok in E as (w & _ & E).
    do 4 (apply bind_ok in E as (? & _ & E)). apply bind_ok in E as (c & M & E). apply bind_ok in E as (? & G%fail_if_ok & [= <-]).
    autorewrite with guards in G. by subst c.
  - intros M. pose proof M as [V Ed]%MarshalCanonical_iff. pose proof (validateDecisionFields_facts d V) as F.
    eapply decision_steps; [| | |reflexivity|done|by apply ValidateDecision_iff|done].
    + subst data. unfold encodeDecision, wire_json. rewrite print_object. reflexivity.
    + subst data. by apply encodeDecision_fits.
    + subst data. unfold unmarshal, encodeDecision. rewrite parse_print by (repeat split).
      eapply decode_decision_json; [reflexivity | apply F | apply F].
Qed.
