(* ===== verification/Queue.v ===== *)
(** * Queue request budget (reconciliation/queue.go)

    A hard monthly partition of billable queue requests.  Work reserves all the
    units it may consume before admission; the budget object is shared and its
    methods run under its mutex, so a history is a sequence of whole calls. *)

From S2P Require Import Prelude Bytes Sha256 GoTime Closed Vocabulary Digests.
From Stdlib Require Import String.

(** ** Data *)

Record QueueReservation := QRes {
  qr_initialized : bool;
  qr_work : WorkKey;
  qr_total : Z;
  qr_consumed : Z;
  qr_completed : bool;
}.

(** [maximumWork] is a Go [int]; [records] is keyed by [work.String()].  A nil
    receiver behaves as one that is not initialised. *)
Record QueueBudget := QB {
  qb_initialized : bool;
  qb_requestCap : Z;
  qb_maximumWork : Z;
  qb_used : Z;
  qb_reserved : Z;
  qb_records : gmap string QueueReservation;
}.

Definition QueueM := ST QueueBudget error.

Definition validateQueueReservation (value : QueueReservation) : bool :=
  negb (negb (qr_initialized value) || negb (validWorkKey (qr_work value)) || (qr_total value <? 1) ||
        (qr_consumed value <? 0) || (qr_total value <? qr_consumed value)).

(** ** Operations *)

Definition NewQueueBudget (requestCap maximumWork : Z) : result error QueueBudget :=
  if (requestCap <? 1) || (maximumWork <? 1) then Err ErrInvalidDelivery
  else Ok (QB true requestCap maximumWork 0 0 ∅).

Definition records_full (b : QueueBudget) : bool :=
  qb_maximumWork b <=? Z.of_nat (size (qb_records b)).

Definition QueueBudget_Reserve (work : WorkKey) (requestUnits : Z) : QueueM QueueReservation :=
  budget ← get_state;
  reject (negb (qb_initialized budget) || negb (validWorkKey work) || (requestUnits <? 1)) ErrInvalidDelivery;;
  let key := WorkKey_String work in
  match qb_records budget !! key with
  | Some current =>
      if qr_completed current then throw ErrReservationLost
      else if qr_total current =? requestUnits then mret current
      else throw ErrInvalidDelivery
  | None =>
      reject (records_full budget
              || (qb_requestCap budget - qb_used budget - qb_reserved budget <? requestUnits)) ErrCapacity;;
      let reservation := QRes true work requestUnits 0 false in
      set_state (QB (qb_initialized budget) (qb_requestCap budget) (qb_maximumWork budget) (qb_used budget)
              (qb_reserved budget + requestUnits) (<[key := reservation]> (qb_records budget)));;
      mret reservation
  end.

Definition QueueBudget_Consume (reservation : QueueReservation) (requestUnits : Z) : QueueM QueueReservation :=
  budget ← get_state;
  reject (negb (qb_initialized budget) || negb (validateQueueReservation reservation) || (requestUnits <? 1))
    ErrInvalidDelivery;;
  let key := WorkKey_String (qr_work reservation) in
  match qb_records budget !! key with
  | None => throw ErrReservationLost
  | Some current =>
      reject (qr_completed current || negb (qr_total current =? qr_total reservation)
              || (qr_total current - qr_consumed current <? requestUnits)) ErrReservationLost;;
      let current' := QRes (qr_initialized current) (qr_work current) (qr_total current)
                           (qr_consumed current + requestUnits) (qr_completed current) in
      set_state (QB (qb_initialized budget) (qb_requestCap budget) (qb_maximumWork budget)
              (qb_used budget + requestUnits) (qb_reserved budget - requestUnits)
              (<[key := current']> (qb_records budget)));;
      mret current'
  end.

Definition QueueBudget_Complete (reservation : QueueReservation) : QueueM QueueReservation :=
  budget ← get_state;
  reject (negb (qb_initialized budget) || negb (validateQueueReservation reservation)) ErrInvalidDelivery;;
  let key := WorkKey_String (qr_work reservation) in
  match qb_records budget !! key with
  | None => throw ErrInvalidDelivery
  | Some current =>
      reject (negb (qr_total current =? qr_total reservation)) ErrInvalidDelivery;;
      if qr_completed current then mret current else
      let current' := QRes (qr_initialized current) (qr_work current) (qr_total current)
                           (qr_consumed current) true in
      set_state (QB (qb_initialized budget) (qb_requestCap budget) (qb_maximumWork budget) (qb_used budget)
              (qb_reserved budget - (qr_total current - qr_consumed current))
              (<[key := current']> (qb_records budget)));;
      mret current'
  end.

(** [Usage]: consumed, still-reserved and unallocated units. *)
Definition QueueBudget_Usage (budget : QueueBudget) : Z * Z * Z :=
  if negb (qb_initialized budget) then (0, 0, 0)
  else (qb_used budget, qb_reserved budget, qb_requestCap budget - qb_used budget - qb_reserved budget).

(** ** Histories: one step per call, whatever its outcome *)

Inductive queue_call :=
| CallReserve (work : WorkKey) (units : Z)
| CallConsume (reservation : QueueReservation) (units : Z)
| CallComplete (reservation : QueueReservation).

Definition queue_step (b : QueueBudget) (c : queue_call) : QueueBudget :=
  match c with
  | CallReserve w u => (QueueBudget_Reserve w u b).2
  | CallConsume r u => (QueueBudget_Consume r u b).2
  | CallComplete r => (QueueBudget_Complete r b).2
  end.

Definition queue_history (b : QueueBudget) (cs : list queue_call) : QueueBudget := foldl queue_step b cs.

(** ** Invariant *)

(** What a record still holds of the reserved partition. *)
Definition outstanding (r : QueueReservation) : Z :=
  if qr_completed r then 0 else qr_total r - qr_consumed r.

Record queue_inv (b : QueueBudget) : Prop := {
  qi_cap : 1 <= qb_requestCap b <= max_int64;
  qi_used : qb_used b = map_sum qr_consumed (qb_records b);
  qi_reserved : qb_reserved b = map_sum outstanding (qb_records b);
  qi_bound : qb_used b + qb_reserved b <= qb_requestCap b;
  qi_records : forall k r, qb_records b !! k = Some r ->
    validateQueueReservation r = true /\ k = WorkKey_String (qr_work r);
  qi_size : Z.of_nat (size (qb_records b)) <= qb_maximumWork b;
}.

(** ** Lemmas *)

Lemma validateQueueReservation_true r :
  validateQueueReservation r = true <->
  qr_initialized r = true /\ validWorkKey (qr_work r) = true /\ 1 <= qr_total r /\
  0 <= qr_consumed r <= qr_total r.
Proof. unfold validateQueueReservation. autorewrite with guards. naive_solver lia. Qed.

#[local] Hint Rewrite validateQueueReservation_true : guards.

Lemma NewQueueBudget_inv cap n b : cap <= max_int64 -> NewQueueBudget cap n = Ok b -> queue_inv b.
Proof.
  unfold NewQueueBudget. intros Hc. destruct (_ || _) eqn:E; [done|]. intros [= <-].
  autorewrite with guards in E.
  split; simpl; rewrite ?map_sum_empty, ?map_size_empty; try lia. done.
Qed.

(** The run of a call either fails without touching the budget or is the one
    update the source makes. *)
Lemma Queue_Reserve_cases w u b r b' :
  QueueBudget_Reserve w u b = (r, b') ->
  b' = b \/
  (r = Ok (QRes true w u 0 false) /\ qb_initialized b = true /\ validWorkKey w = true /\ 1 <= u /\
   qb_records b !! WorkKey_String w = None /\
   Z.of_nat (size (qb_records b)) < qb_maximumWork b /\
   u <= qb_requestCap b - qb_used b - qb_reserved b /\
   b' = QB (qb_initialized b) (qb_requestCap b) (qb_maximumWork b) (qb_used b) (qb_reserved b + u)
           (<[WorkKey_String w := QRes true w u 0 false]> (qb_records b))).
Proof.
  unfold QueueBudget_Reserve, records_full, mbind, ST_bind, get_state, reject, lift, fail_if, set_state, mret, ST_ret, throw.
  destruct (_ || _ || _) eqn:E; [intros [= <- <-]; by left|]. autorewrite with guards in E.
  destruct (qb_records b !! _) eqn:Hl; [repeat case_match; intros [= <- <-]; by left|].
  destruct (_ || _) eqn:E2; [intros [= <- <-]; by left|]. autorewrite with guards in E2.
  intros [= <- <-]. right. naive_solver lia.
Qed.

Lemma Queue_Consume_cases q u b r b' :
  QueueBudget_Consume q u b = (r, b') ->
  b' = b \/
  exists c, qb_records b !! WorkKey_String (qr_work q) = Some c /\ qr_completed c = false /\
    1 <= u <= qr_total c - qr_consumed c /\
    r = Ok (QRes (qr_initialized c) (qr_work c) (qr_total c) (qr_consumed c + u) false) /\
    b' = QB (qb_initialized b) (qb_requestCap b) (qb_maximumWork b) (qb_used b + u) (qb_reserved b - u)
            (<[WorkKey_String (qr_work q) :=
               QRes (qr_initialized c) (qr_work c) (qr_total c) (qr_consumed c + u) false]> (qb_records b)).
Proof.
  unfold QueueBudget_Consume, mbind, ST_bind, get_state, reject, lift, fail_if, set_state, mret, ST_ret, throw.
  destruct (_ || _ || _) eqn:E; [intros [= <- <-]; by left|]. autorewrite with guards in E.
  destruct (qb_records b !! _) as [c|] eqn:Hl; [|intros [= <- <-]; by left].
  destruct (_ || _ || _) eqn:E2; [intros [= <- <-]; by left|]. autorewrite with guards in E2.
  intros [= <- <-]. right. exists c. destruct E2 as [[Hc _] Hu]. rewrite Hc. naive_solver lia.
Qed.

Lemma Queue_Complete_cases q b r b' :
  QueueBudget_Complete q b = (r, b') ->
  b' = b \/
  exists c, qb_records b !! WorkKey_String (qr_work q) = Some c /\ qr_completed c = false /\
    r = Ok (QRes (qr_initialized c) (qr_work c) (qr_total c) (qr_consumed c) true) /\
    b' = QB (qb_initialized b) (qb_requestCap b) (qb_maximumWork b) (qb_used b)
            (qb_reserved b - (qr_total c - qr_consumed c))
            (<[WorkKey_String (qr_work q) :=
               QRes (qr_initialized c) (qr_work c) (qr_total c) (qr_consumed c) true]> (qb_records b)).
Proof.
  unfold QueueBudget_Complete, mbind, ST_bind, get_state, reject, lift, fail_if, set_state, mret, ST_ret, throw.
  destruct (_ || _) eqn:E; [intros [= <- <-]; by left|].
  destruct (qb_records b !! _) as [c|] eqn:Hl; [|intros [= <- <-]; by left].
  destruct (qr_total c =? qr_total q); simpl; [|intros [= <- <-]; by left].
  destruct (qr_completed c) eqn:Hc; [intros [= <- <-]; by left|].
  intros [= <- <-]. right. exists c. done.
Qed.

(** Replacing a record keeps the map-level parts of the invariant. *)
Lemma records_update_valid b k c c' :
  queue_inv b -> qb_records b !! k = Some c -> qr_work c' = qr_work c -> validateQueueReservation c' = true ->
  (forall k' r, <[k := c']> (qb_records b) !! k' = Some r ->
     validateQueueReservation r = true /\ k' = WorkKey_String (qr_work r)) /\
  size (<[k := c']> (qb_records b)) = size (qb_records b).
Proof.
  intros Hinv Hl Hw Hv. split.
  - intros k' r. destruct (decide (k = k')) as [->|Hne].
    + rewrite lookup_insert_eq. intros [= <-]. split; [done|]. rewrite Hw. by apply (qi_records b Hinv).
    + rewrite lookup_insert_ne by done. by apply (qi_records b Hinv).
  - apply map_size_insert_Some. eauto.
Qed.

Lemma Queue_Reserve_inv w u b : queue_inv b -> queue_inv (QueueBudget_Reserve w u b).2.
Proof.
  intros Hinv. destruct (QueueBudget_Reserve w u b) as [r b'] eqn:Hrun.
  apply Queue_Reserve_cases in Hrun as [->|(_ & Hi & Hw & Hu & Hl & Hsz & Hcap & ->)]; [done|]. simpl.
  destruct Hinv as [Icap Iused Ires Ib Irec Isz].
  split; simpl; rewrite ?map_sum_insert by done; unfold outstanding in *; simpl; try lia.
  - intros k r0. destruct (decide (WorkKey_String w = k)) as [<-|Hne].
    + rewrite lookup_insert_eq. intros [= <-]. split; [|done].
      apply validateQueueReservation_true. simpl. split_and!; [done|done|lia|lia|lia].
    + rewrite lookup_insert_ne by done. apply Irec.
  - rewrite map_size_insert_None by done. lia.
Qed.

Lemma Queue_Consume_inv q u b : queue_inv b -> queue_inv (QueueBudget_Consume q u b).2.
Proof.
  intros Hinv. destruct (QueueBudget_Consume q u b) as [r b'] eqn:Hrun.
  apply Queue_Consume_cases in Hrun as [->|(c & Hl & Hc & Hu & _ & ->)]; [done|]. simpl.
  pose proof (proj1 (qi_records b Hinv _ _ Hl)) as Hv. apply validateQueueReservation_true in Hv.
  destruct (records_update_valid b _ c
    (QRes (qr_initialized c) (qr_work c) (qr_total c) (qr_consumed c + u) false) Hinv Hl) as [Hrec Hsize];
    [done | apply validateQueueReservation_true; simpl; naive_solver lia |].
  destruct Hinv as [Icap Iused Ires Ib Irec Isz].
  split; simpl; rewrite ?(map_sum_update _ _ _ _ _ Hl), ?Hsize; unfold outstanding in *; simpl;
    rewrite ?Hc; try lia; done.
Qed.

Lemma Queue_Complete_inv q b : queue_inv b -> queue_inv (QueueBudget_Complete q b).2.
Proof.
  intros Hinv. destruct (QueueBudget_Complete q b) as [r b'] eqn:Hrun.
  apply Queue_Complete_cases in Hrun as [->|(c & Hl & Hc & _ & ->)]; [done|]. simpl.
  pose proof (proj1 (qi_records b Hinv _ _ Hl)) as Hv. apply validateQueueReservation_true in Hv.
  destruct (records_update_valid b _ c
    (QRes (qr_initialized c) (qr_work c) (qr_total c) (qr_consumed c) true) Hinv Hl) as [Hrec Hsize];
    [done | apply validateQueueReservation_true; simpl; naive_solver lia |].
  destruct Hinv as [Icap Iused Ires Ib Irec Isz].
  split; simpl; rewrite ?(map_sum_update _ _ _ _ _ Hl), ?Hsize; unfold outstanding in *; simpl;
    rewrite ?Hc; try lia; done.
Qed.

#[export] Hint Resolve Queue_Reserve_inv Queue_Consume_inv Queue_Complete_inv : guards.

Lemma queue_step_inv b c : queue_inv b -> queue_inv (queue_step b c).
Proof. destruct c; simpl; auto with guards. Qed.

Lemma queue_history_inv cs : forall b, queue_inv b -> queue_inv (queue_history b cs).
Proof. induction cs as [|c cs IH]; simpl; auto using queue_step_inv. Qed.

Lemma queue_used_nonneg b : queue_inv b -> 0 <= qb_used b.
Proof.
  intros Hinv. rewrite (qi_used b Hinv). apply map_sum_nonneg. intros k r Hl.
  apply (qi_records b Hinv) in Hl as [Hv _]. apply validateQueueReservation_true in Hv. lia.
Qed.

Lemma queue_reserved_nonneg b : queue_inv b -> 0 <= qb_reserved b.
Proof.
  intros Hinv. rewrite (qi_reserved b Hinv). apply map_sum_nonneg. intros k r Hl.
  apply (qi_records b Hinv) in Hl as [Hv _]. apply validateQueueReservation_true in Hv.
  unfold outstanding. destruct (qr_completed r); lia.
Qed.

(** A completed record is never changed by any later call. *)
Lemma queue_step_completed b c k r :
  qb_records b !! k = Some r -> qr_completed r = true -> qb_records (queue_step b c) !! k = Some r.
Proof.
  intros Hl Hc. destruct c as [w u|q u|q]; simpl.
  - destruct (QueueBudget_Reserve w u b) as [x b'] eqn:Hrun.
    apply Queue_Reserve_cases in Hrun as [->|(_ & _ & _ & _ & Hn & _ & _ & ->)]; [done|]. simpl.
    rewrite lookup_insert_ne; [done|]. intros Heq. congruence.
  - destruct (QueueBudget_Consume q u b) as [x b'] eqn:Hrun.
    apply Queue_Consume_cases in Hrun as [->|(r' & Hn & Hnc & _ & _ & ->)]; [done|]. simpl.
    rewrite lookup_insert_ne; [done|]. intros Heq. congruence.
  - destruct (QueueBudget_Complete q b) as [x b'] eqn:Hrun.
    apply Queue_Complete_cases in Hrun as [->|(r' & Hn & Hnc & _ & ->)]; [done|]. simpl.
    rewrite lookup_insert_ne; [done|]. intros Heq. congruence.
Qed.

Lemma queue_history_completed cs : forall b k r,
  qb_records b !! k = Some r -> qr_completed r = true -> qb_records (queue_history b cs) !! k = Some r.
Proof. induction cs as [|c cs IH]; simpl; [done|]. intros. apply IH; [|done]. by apply queue_step_completed. Qed.

(** ** Properties *)

(** Over every history of calls on a fresh budget, whatever calls fail,
    consumed, reserved and available units are non-negative and add up to the
    cap; consumed is what the records consumed and reserved is what the
    incomplete records may still consume.  The request cap is never overspent
    and no [int64] operation on these counters can overflow. *)
Theorem queue_budget_conserved (cap n : Z) (b0 : QueueBudget) (calls : list queue_call) (u r a : Z)
  (Hcap : cap <= max_int64)
  (Hnew : NewQueueBudget cap n = Ok b0)
  (Huse : QueueBudget_Usage (queue_history b0 calls) = (u, r, a)) :
  0 <= u <= cap /\ 0 <= r <= cap /\ 0 <= a <= cap /\ u + r + a = cap /\
  u = map_sum qr_consumed (qb_records (queue_history b0 calls)) /\
  r = map_sum outstanding (qb_records (queue_history b0 calls)).
Proof.
  assert (queue_inv (queue_history b0 calls)) as Hinv
    by (apply queue_history_inv; by eapply NewQueueBudget_inv).
  assert (forall cs b, qb_initialized (queue_history b cs) = qb_initialized b /\
                       qb_requestCap (queue_history b cs) = qb_requestCap b) as Hsame.
  { induction cs as [|c cs IH]; intros b; simpl; [done|].
    destruct (IH (queue_step b c)) as [-> ->]. destruct c as [w u'|q u'|q]; simpl.
    - destruct (QueueBudget_Reserve w u' b) eqn:Hrun. apply Queue_Reserve_cases in Hrun. naive_solver.
    - destruct (QueueBudget_Consume q u' b) eqn:Hrun. apply Queue_Consume_cases in Hrun. naive_solver.
    - destruct (QueueBudget_Complete q b) eqn:Hrun. apply Queue_Complete_cases in Hrun. naive_solver. }
  destruct (Hsame calls b0) as [Hi Hc].
  unfold NewQueueBudget in Hnew. destruct (_ || _); [done|]. injection Hnew as <-. simpl in Hi, Hc.
  unfold QueueBudget_Usage in Huse. rewrite Hi in Huse. injection Huse as <- <- <-.
  pose proof (queue_used_nonneg _ Hinv). pose proof (queue_reserved_nonneg _ Hinv).
  destruct Hinv as [Icap Iused Ires Ib _ _]. rewrite Hc in *. split_and!; lia || done.
Qed.

Definition sample_key : WorkKey := WK (DV true (zero_bytes 32)) (DV true (zero_bytes 32)).

Lemma queue_budget_conserved_witness :
  exists b0, NewQueueBudget 10 2 = Ok b0 /\
  QueueBudget_Usage (queue_history b0 [CallReserve sample_key 4; CallConsume (QRes true sample_key 4 0 false) 3])
    = (3, 1, 6) /\ 3 + 1 + 6 = 10.
Proof.
  exists (QB true 10 2 0 0 ∅).
  assert (QueueBudget_Usage (queue_history (QB true 10 2 0 0 ∅)
    [CallReserve sample_key 4; CallConsume (QRes true sample_key 4 0 false) 3]) = (3, 1, 6)) as Hu
    by (vm_compute; reflexivity).
  split; [reflexivity|]. split; [exact Hu|].
  exact (proj1 (proj2 (proj2 (proj2 (queue_budget_conserved 10 2 _ _ 3 1 6 ltac:(vm_compute; discriminate)
    ltac:(reflexivity) Hu))))).
Defined.

(** A completed work item is final.  Once its record is completed, no
    history of later calls changes the record, and every attempt to charge or
    reserve that work again fails. *)
Theorem queue_completed_final (b : QueueBudget) (calls : list queue_call) (w : WorkKey) (rec : QueueReservation)
  (q : QueueReservation) (units : Z)
  (Hl : qb_records b !! WorkKey_String w = Some rec)
  (Hc : qr_completed rec = true)
  (Hq : qr_work q = w) :
  let b' := queue_history b calls in
  qb_records b' !! WorkKey_String w = Some rec /\
  (exists e, QueueBudget_Consume q units b' = (Err e, b')) /\
  (exists e, QueueBudget_Reserve w units b' = (Err e, b')).
Proof.
  simpl. pose proof (queue_history_completed calls b _ _ Hl Hc) as Hl'. split; [done|].
  set (b' := queue_history b calls) in *. clearbody b'.
  unfold QueueBudget_Consume, QueueBudget_Reserve, mbind, ST_bind, get_state, reject, lift, fail_if, throw.
  rewrite Hq, Hl', Hc. simpl.
  split; destruct (_ || _); eauto.
Qed.

Lemma queue_completed_final_witness :
  exists b rec, qb_records b !! WorkKey_String sample_key = Some rec /\ qr_completed rec = true /\
  exists e, QueueBudget_Consume rec 1 (queue_history b [CallReserve sample_key 4]) = (Err e, queue_history b [CallReserve sample_key 4]).
Proof.
  set (rec := QRes true sample_key 4 3 true).
  exists (QB true 10 2 3 0 {[WorkKey_String sample_key := rec]}), rec.
  assert ({[WorkKey_String sample_key := rec]} !! WorkKey_String sample_key = Some rec) as Hl
    by apply lookup_singleton_eq.
  split; [exact Hl|]. split; [reflexivity|].
  exact (proj1 (proj2 (queue_completed_final (QB true 10 2 3 0 {[WorkKey_String sample_key := rec]})
    [CallReserve sample_key 4] sample_key rec rec 1 Hl eq_refl eq_refl))).
Defined.
