(* ===== verification/Plan.v ===== *)
(** * Evidence, provider bindings, effects and plans
    (reconciliation/evidence.go, provider.go, effect.go, plan.go)

    A plan is the immutable identity of one reconciliation: the operation it
    serves, versioned evidence for every input dimension, the provider basis
    and the effects already completed or to be compensated.  [ValidatePlan]
    recomputes its semantic digest, so every stored plan is bound to its
    basis. *)

From S2P Require Import Prelude Bytes Sha256 GoTime Closed Identity AuthzVocabulary Vocabulary Digests.
From Stdlib Require Import Ascii String.

(** ** Evidence *)

Record Evidence := Ev {
  ev_initialized : bool;
  ev_kind : EvidenceKind;
  ev_version : string;
  ev_digest : EvidenceDigest;
}.

Definition NewEvidence (kind : EvidenceKind) (version canonical : string) : result error Evidence :=
  if negb (EvidenceKind_known kind) then Err ErrInvalidEvidence
  else if negb (validVersion version) then Err (ErrWrap ErrInvalidEvidence ErrInvalidVersion)
  else if slen canonical =? 0 then Err ErrInvalidEvidence
  else if MaxEvidenceBytes <? slen canonical then Err (ErrWrap ErrInvalidEvidence ErrEvidenceTooLarge)
  else Ok (Ev true kind version (digestFromHasher
    ["veer.reconciliation.evidence.v1"; ContractVersion; EvidenceKind_String kind; version; canonical])).

Definition ValidateEvidence (value : Evidence) : bool :=
  negb (negb (ev_initialized value) || negb (validVersion (ev_version value))
        || negb (dv_initialized (ev_digest value)))
  && EvidenceKind_known (ev_kind value).

Definition Evidence_Equal (value other : Evidence) : bool :=
  ValidateEvidence value && ValidateEvidence other &&
  bool_decide (ev_kind value = ev_kind other) && String.eqb (ev_version value) (ev_version other) &&
  equalDigest (ev_digest value) (ev_digest other).

Definition evidenceHasKind (value : Evidence) (kind : EvidenceKind) : bool :=
  ValidateEvidence value && bool_decide (ev_kind value = kind).

(** [writeEvidence]: the frames one evidence value contributes. *)
Definition writeEvidence (value : Evidence) : list string :=
  [EvidenceKind_String (ev_kind value); ev_version value; dv_digest (ev_digest value)].

(** ** Provider bindings *)

Record ProviderBinding := PB {
  pb_initialized : bool;
  pb_connectionID : ID;
  pb_connectionGeneration : Z;
  pb_connectionResourceVersion : string;
  pb_connectionEvidence : Evidence;
  pb_credentialReferenceID : ID;
  pb_credentialGeneration : Z;
  pb_credentialResourceVersion : string;
  pb_credentialEvidence : Evidence;
}.

Definition ValidateProviderBinding (value : ProviderBinding) : bool :=
  negb (negb (pb_initialized value) || negb (validID (pb_connectionID value))
        || negb (validID (pb_credentialReferenceID value))
        || (pb_connectionGeneration value <? 1) || (pb_credentialGeneration value <? 1)
        || negb (validVersion (pb_connectionResourceVersion value))
        || negb (validVersion (pb_credentialResourceVersion value)))
  && negb (negb (ValidateEvidence (pb_connectionEvidence value))
        || negb (bool_decide (ev_kind (pb_connectionEvidence value) = EvidenceProviderConnection))
        || negb (String.eqb (ev_version (pb_connectionEvidence value)) (pb_connectionResourceVersion value)))
  && negb (negb (ValidateEvidence (pb_credentialEvidence value))
        || negb (bool_decide (ev_kind (pb_credentialEvidence value) = EvidenceCredentialReference))
        || negb (String.eqb (ev_version (pb_credentialEvidence value)) (pb_credentialResourceVersion value))).

(** The input record has the same fields; [NewProviderBinding] seals it. *)
Definition NewProviderBinding (connectionID : ID) (connectionGeneration : Z) (connectionResourceVersion : string)
    (connectionEvidence : Evidence) (credentialReferenceID : ID) (credentialGeneration : Z)
    (credentialResourceVersion : string) (credentialEvidence : Evidence) : result error ProviderBinding :=
  let value := PB true connectionID connectionGeneration connectionResourceVersion connectionEvidence
                  credentialReferenceID credentialGeneration credentialResourceVersion credentialEvidence in
  if ValidateProviderBinding value then Ok value else Err ErrPlanMismatch.

Definition ProviderBinding_Equal (value other : ProviderBinding) : bool :=
  ValidateProviderBinding value && ValidateProviderBinding other &&
  String.eqb (pb_connectionID value) (pb_connectionID other) &&
  (pb_connectionGeneration value =? pb_connectionGeneration other) &&
  String.eqb (pb_connectionResourceVersion value) (pb_connectionResourceVersion other) &&
  Evidence_Equal (pb_connectionEvidence value) (pb_connectionEvidence other) &&
  String.eqb (pb_credentialReferenceID value) (pb_credentialReferenceID other) &&
  (pb_credentialGeneration value =? pb_credentialGeneration other) &&
  String.eqb (pb_credentialResourceVersion value) (pb_credentialResourceVersion other) &&
  Evidence_Equal (pb_credentialEvidence value) (pb_credentialEvidence other).

Definition writeProviderBinding (value : option ProviderBinding) : list string :=
  match value with
  | None => ["0"]
  | Some b =>
      "1" :: pb_connectionID b :: put_uint64 (pb_connectionGeneration b) :: pb_connectionResourceVersion b ::
      writeEvidence (pb_connectionEvidence b) ++
      pb_credentialReferenceID b :: put_uint64 (pb_credentialGeneration b) :: pb_credentialResourceVersion b ::
      writeEvidence (pb_credentialEvidence b)
  end.

Definition providerBindingsEqual (left right : option ProviderBinding) : bool :=
  match left, right with
  | Some l, Some r => ProviderBinding_Equal l r
  | None, None => true
  | _, _ => false
  end.

(** ** Effect keys *)

Record EffectKey := EK {
  ek_initialized : bool;
  ek_digest : digestValue;
  ek_workspaceID : ID;
  ek_resourceID : ID;
  ek_operationID : ID;
  ek_generation : Z;
}.

#[export] Instance EffectKey_eq : EqDecision EffectKey.
Proof. solve_decision. Defined.

Definition ValidateEffectKey (value : EffectKey) : bool :=
  negb (negb (ek_initialized value) || negb (dv_initialized (ek_digest value))
        || negb (validID (ek_workspaceID value)) || negb (validID (ek_resourceID value))
        || negb (validID (ek_operationID value)) || (ek_generation value <? 1)).

Definition EffectKey_String (value : EffectKey) : string := formatDigest effectKeyPrefix (ek_digest value).

Definition EffectKey_Equal (value other : EffectKey) : bool :=
  ValidateEffectKey value && ValidateEffectKey other &&
  String.eqb (ek_workspaceID value) (ek_workspaceID other) &&
  String.eqb (ek_resourceID value) (ek_resourceID other) &&
  String.eqb (ek_operationID value) (ek_operationID other) &&
  (ek_generation value =? ek_generation other) &&
  equalDigest (ek_digest value) (ek_digest other).

(** ** Plans *)

Record Plan := MkPlan {
  pl_initialized : bool;
  pl_id : ID;
  pl_revision : Z;
  pl_kind : PlanKind;
  pl_operationID : ID;
  pl_workspaceID : ID;
  pl_resourceID : ID;
  pl_environmentID : option ID;
  pl_connectionID : option ID;
  pl_generation : Z;
  pl_plannerVersion : string;
  pl_desired : Evidence;
  pl_observed : Evidence;
  pl_actorKind : Kind;
  pl_actorFingerprint : string;
  pl_policyVersion : string;
  pl_authorizationInput : string;
  pl_providerBinding : option ProviderBinding;
  pl_capability : Evidence;
  pl_quota : Evidence;
  pl_cost : Evidence;
  pl_supersedes : option PlanDigest;
  pl_completedEffects : list EffectKey;
  pl_compensates : list EffectKey;
  pl_digest : PlanDigest;
}.

Definition writeOptionalID (value : option ID) : list string :=
  match value with None => ["0"] | Some id => ["1"; id] end.

Definition effect_frames (effects : list EffectKey) : list string :=
  (fun effect => dv_digest (ek_digest effect)) <$> effects.

(** The frames hashed by [derivePlanDigest], in order. *)
Definition plan_frames (value : Plan) : list string :=
  ["veer.reconciliation.plan.v1"; ContractVersion; PlanKind_String (pl_kind value);
   pl_operationID value; pl_workspaceID value; pl_resourceID value] ++
  writeOptionalID (pl_environmentID value) ++
  writeOptionalID (pl_connectionID value) ++
  [put_uint64 (pl_generation value); pl_plannerVersion value] ++
  writeEvidence (pl_desired value) ++
  writeEvidence (pl_observed value) ++
  [Kind_String (pl_actorKind value); pl_actorFingerprint value; authorization_ContractVersion;
   pl_policyVersion value; pl_authorizationInput value] ++
  writeProviderBinding (pl_providerBinding value) ++
  writeEvidence (pl_capability value) ++
  writeEvidence (pl_quota value) ++
  writeEvidence (pl_cost value) ++
  put_uint64 (llen (pl_completedEffects value)) :: effect_frames (pl_completedEffects value) ++
  put_uint64 (llen (pl_compensates value)) :: effect_frames (pl_compensates value).

Definition derivePlanDigest (value : Plan) : PlanDigest := digestFromHasher (plan_frames value).

Definition validActorProjection (kind : Kind) (fingerprint : string) : bool :=
  match kind with
  | KindOther _ => false
  | _ => (5 <? slen fingerprint) &&
         String.eqb (String.substring 0 5 fingerprint) "prn1_" &&
         negb (String.eqb fingerprint "prn1_invalid")
  end.

(** [validCanonicalEffects]: every effect belongs to the plan's scope and the
    spellings strictly increase. *)
Fixpoint validCanonicalEffects_from (previous : option EffectKey) (values : list EffectKey) (plan : Plan) : bool :=
  match values with
  | [] => true
  | value :: rest =>
      ValidateEffectKey value && String.eqb (ek_operationID value) (pl_operationID plan) &&
      String.eqb (ek_workspaceID value) (pl_workspaceID plan) &&
      String.eqb (ek_resourceID value) (pl_resourceID plan) &&
      (ek_generation value =? pl_generation plan) &&
      match previous with
      | Some p => String.ltb (EffectKey_String p) (EffectKey_String value)
      | None => true
      end &&
      validCanonicalEffects_from (Some value) rest plan
  end.

Definition validCanonicalEffects (values : list EffectKey) (plan : Plan) : bool :=
  validCanonicalEffects_from None values plan.

Definition effectSetContainsAll (superset subset : list EffectKey) : bool :=
  let available := list_to_set (EffectKey_String <$> superset) : gset string in
  forallb (fun effect => bool_decide (EffectKey_String effect ∈ available)) subset.

Definition effectSetContains (values : list EffectKey) (candidate : EffectKey) : bool :=
  existsb (fun value => EffectKey_Equal value candidate) values.

Definition ValidatePlan (value : Plan) : bool :=
  negb (negb (pl_initialized value) || negb (validID (pl_id value)) || (pl_revision value =? 0)
        || negb (validID (pl_operationID value)) || negb (validID (pl_workspaceID value))
        || negb (validID (pl_resourceID value)) || (pl_generation value <? 1)
        || negb (validVersion (pl_plannerVersion value))
        || negb (validActorProjection (pl_actorKind value) (pl_actorFingerprint value))
        || negb (validVersion (pl_policyVersion value)) || String.eqb (pl_authorizationInput value) ""
        || negb (dv_initialized (pl_digest value)))
  && is_some (ParseInputDigest (pl_authorizationInput value))
  && is_some (ParsePolicyVersion (pl_policyVersion value))
  && PlanKind_known (pl_kind value)
  && negb (negb (evidenceHasKind (pl_desired value) EvidenceDesiredIntent)
        || negb (evidenceHasKind (pl_observed value) EvidenceObservedSnapshot)
        || negb (evidenceHasKind (pl_capability value) EvidenceCapability)
        || negb (evidenceHasKind (pl_quota value) EvidenceQuota)
        || negb (evidenceHasKind (pl_cost value) EvidenceCost))
  && Bool.eqb (is_some (pl_environmentID value)) (is_some (pl_connectionID value))
  && match pl_environmentID value, pl_connectionID value with
     | Some e, Some c => validID e && validID c
     | _, _ => true
     end
  && Bool.eqb (is_some (pl_connectionID value)) (is_some (pl_providerBinding value))
  && match pl_providerBinding value, pl_connectionID value with
     | Some b, Some c => ValidateProviderBinding b && String.eqb (pb_connectionID b) c
     | _, _ => true
     end
  && negb (negb (Bool.eqb (pl_revision value =? 1) (negb (is_some (pl_supersedes value))))
        || match pl_supersedes value with Some d => negb (dv_initialized d) | None => false end)
  && negb ((pl_revision value =? 1) && negb (llen (pl_completedEffects value) =? 0))
  && validCanonicalEffects (pl_completedEffects value) value
  && validCanonicalEffects (pl_compensates value) value
  && negb (bool_decide (pl_kind value = PlanKindForward) && negb (llen (pl_compensates value) =? 0)
        || bool_decide (pl_kind value = PlanKindCompensation) &&
           ((pl_revision value =? 1) || (llen (pl_compensates value) =? 0)
            || negb (effectSetContainsAll (pl_completedEffects value) (pl_compensates value))))
  && equalDigest (pl_digest value) (derivePlanDigest value).

Definition NewEffectKey (plan : Plan) (canonicalSemanticEffect : string) : result error EffectKey :=
  if negb (ValidatePlan plan) || (slen canonicalSemanticEffect =? 0)
     || (MaxSemanticEffectBytes <? slen canonicalSemanticEffect)
  then Err ErrInvalidDigest
  else Ok (EK true
    (digestFromHasher ["veer.reconciliation.effect.v1"; ContractVersion; pl_workspaceID plan;
                       pl_resourceID plan; put_uint64 (pl_generation plan); pl_operationID plan;
                       canonicalSemanticEffect])
    (pl_workspaceID plan) (pl_resourceID plan) (pl_operationID plan) (pl_generation plan)).

Definition NewWorkKey (plan : Plan) (canonicalWork : string) : result error WorkKey :=
  if negb (ValidatePlan plan) || (slen canonicalWork =? 0) || (MaxEvidenceBytes <? slen canonicalWork)
  then Err ErrInvalidPlan
  else Ok (WK (digestFromHasher ["veer.reconciliation.work.v1"; ContractVersion; pl_operationID plan;
                                 dv_digest (pl_digest plan); canonicalWork]) (pl_digest plan)).

Definition effectMatchesPlan (effect : EffectKey) (plan : Plan) : bool :=
  String.eqb (ek_workspaceID effect) (pl_workspaceID plan) &&
  String.eqb (ek_resourceID effect) (pl_resourceID plan) &&
  String.eqb (ek_operationID effect) (pl_operationID plan) &&
  (ek_generation effect =? pl_generation plan).

(** ** Lemmas *)

(** The [Equal] methods decide equality of valid values. *)
Lemma Evidence_Equal_true v o :
  Evidence_Equal v o = true <-> ValidateEvidence v = true /\ v = o.
Proof.
  unfold Evidence_Equal, ValidateEvidence. destruct v as [vi vk vv vd], o as [oi ok ov od]; simpl.
  autorewrite with guards. naive_solver.
Qed.

Lemma ProviderBinding_Equal_true v o :
  ProviderBinding_Equal v o = true <-> ValidateProviderBinding v = true /\ v = o.
Proof.
  unfold ProviderBinding_Equal. split.
  - autorewrite with guards. rewrite !Evidence_Equal_true.
    intros [[[[[[[[[Hv Ho] ?] ?] ?] [_ ?]] ?] ?] ?] [_ ?]]. split; [done|].
    revert Hv Ho. unfold ValidateProviderBinding. destruct v, o; simpl in *. subst.
    autorewrite with guards. intros. destruct_and!. congruence.
  - intros [Hv <-]. rewrite Hv. simpl. rewrite !String.eqb_refl, !Z.eqb_refl. simpl.
    unfold ValidateProviderBinding in Hv. autorewrite with guards in Hv. destruct_and!.
    rewrite !(proj2 (Evidence_Equal_true _ _)); done.
Qed.

Lemma providerBindingsEqual_true l r : providerBindingsEqual l r = true -> l = r.
Proof.
  destruct l, r; simpl; try done. rewrite ProviderBinding_Equal_true. naive_solver.
Qed.

Lemma EffectKey_Equal_true v o :
  EffectKey_Equal v o = true <-> ValidateEffectKey v = true /\ v = o.
Proof.
  unfold EffectKey_Equal. split.
  - autorewrite with guards. intros [[[[[[Hv Ho] ?] ?] ?] ?] (_ & _ & ?)].
    split; [done|]. revert Hv Ho. unfold ValidateEffectKey. destruct v, o; simpl in *. subst.
    autorewrite with guards. intros. destruct_and!. congruence.
  - intros [Hv <-]. rewrite Hv, !String.eqb_refl, Z.eqb_refl, equalDigest_refl. simpl.
    unfold ValidateEffectKey in Hv. autorewrite with guards in Hv. naive_solver.
Qed.

#[export] Hint Rewrite Evidence_Equal_true ProviderBinding_Equal_true EffectKey_Equal_true : guards.

Lemma EffectKey_Equal_refl v : ValidateEffectKey v = true -> EffectKey_Equal v v = true.
Proof. by rewrite EffectKey_Equal_true. Qed.

(** Within one scope the spelling of an effect determines it. *)
Lemma EffectKey_String_inj v o :
  ValidateEffectKey v = true -> ValidateEffectKey o = true ->
  EffectKey_String v = EffectKey_String o -> ek_digest v = ek_digest o.
Proof.
  unfold ValidateEffectKey. autorewrite with guards. intros. destruct_and!.
  by eapply formatDigest_inj.
Qed.

(** The frames of optional and repeated parts can be read back: equal frames
    with equal-length heads split. *)
Lemma writeOptionalID_inj a b s t :
  writeOptionalID a ++ s = writeOptionalID b ++ t -> a = b /\ s = t.
Proof. destruct a, b; simpl; naive_solver. Qed.

Lemma writeEvidence_inj a b s t :
  ValidateEvidence a = true -> ValidateEvidence b = true ->
  writeEvidence a ++ s = writeEvidence b ++ t -> a = b /\ s = t.
Proof.
  destruct a as [ai ak av [adi ad]], b as [bi bk bv [bdi bd]]. unfold ValidateEvidence. simpl.
  autorewrite with guards. intros. destruct_and!. simplify_eq/=. split; [|done].
  assert (ak = bk) as -> by (by apply (spelled_inj (T:=EvidenceKind))).
  done.
Qed.

Lemma effect_frames_inj l1 l2 s t :
  llen l1 <= max_uint64 -> llen l2 <= max_uint64 ->
  put_uint64 (llen l1) :: effect_frames l1 ++ s = put_uint64 (llen l2) :: effect_frames l2 ++ t ->
  effect_frames l1 = effect_frames l2 /\ s = t.
Proof.
  intros H1 H2 [Hlen Happ]%cons_inv. apply put_uint64_inj in Hlen; [|lia|lia].
  apply app_inj_1 in Happ; [done|]. unfold effect_frames. rewrite !length_fmap. lia.
Qed.

Lemma writeProviderBinding_inj a b s t :
  (forall x, a = Some x -> ValidateProviderBinding x = true /\ in_int64 (pb_connectionGeneration x) /\ in_int64 (pb_credentialGeneration x)) ->
  (forall x, b = Some x -> ValidateProviderBinding x = true /\ in_int64 (pb_connectionGeneration x) /\ in_int64 (pb_credentialGeneration x)) ->
  writeProviderBinding a ++ s = writeProviderBinding b ++ t -> a = b /\ s = t.
Proof.
  destruct a as [a|], b as [b|]; simpl; intros Ha Hb H; try discriminate; [|by simplify_eq].
  destruct (Ha a eq_refl) as (Va & Ga & Ka). destruct (Hb b eq_refl) as (Vb & Gb & Kb). clear Ha Hb.
  unfold ValidateProviderBinding in Va, Vb. autorewrite with guards in Va, Vb. destruct_and!.
  destruct a as [ai ac ag av ae acr acg acv ace], b as [bi bc bg bv be bcr bcg bcv bce]; simpl in *.
  apply cons_inv in H as [_ H]. apply cons_inv in H as [-> H].
  apply cons_inv in H as [Hg H]. apply cons_inv in H as [-> H].
  apply put_int64_inj in Hg as ->; [|done|done].
  apply (writeEvidence_inj ae be) in H as [-> H]; [|done|done].
  apply cons_inv in H as [-> H]. apply cons_inv in H as [Hg H]. apply cons_inv in H as [-> H].
  apply put_int64_inj in Hg as ->; [|done|done].
  apply (writeEvidence_inj ace bce) in H as [-> ->]; [|done|done]. split; [|done]. congruence.
Qed.

(** The part of a plan its digest is meant to identify: everything but the
    plan ID, the revision and the superseded digest. *)
Record plan_basis_eq (p q : Plan) : Prop := {
  pb_kind_eq : pl_kind p = pl_kind q;
  pb_operation_eq : pl_operationID p = pl_operationID q;
  pb_workspace_eq : pl_workspaceID p = pl_workspaceID q;
  pb_resource_eq : pl_resourceID p = pl_resourceID q;
  pb_environment_eq : pl_environmentID p = pl_environmentID q;
  pb_connection_eq : pl_connectionID p = pl_connectionID q;
  pb_generation_eq : pl_generation p = pl_generation q;
  pb_planner_eq : pl_plannerVersion p = pl_plannerVersion q;
  pb_desired_eq : pl_desired p = pl_desired q;
  pb_observed_eq : pl_observed p = pl_observed q;
  pb_actor_eq : pl_actorKind p = pl_actorKind q;
  pb_fingerprint_eq : pl_actorFingerprint p = pl_actorFingerprint q;
  pb_policy_eq : pl_policyVersion p = pl_policyVersion q;
  pb_input_eq : pl_authorizationInput p = pl_authorizationInput q;
  pb_binding_eq : pl_providerBinding p = pl_providerBinding q;
  pb_capability_eq : pl_capability p = pl_capability q;
  pb_quota_eq : pl_quota p = pl_quota q;
  pb_cost_eq : pl_cost p = pl_cost q;
  pb_completed_eq : pl_completedEffects p = pl_completedEffects q;
  pb_compensates_eq : pl_compensates p = pl_compensates q;
}.

(** Bounds every Go plan value meets: [int64] generations and frames whose
    length fits the eight-byte prefix. *)
Record plan_sized (p : Plan) : Prop := {
  ps_generation : in_int64 (pl_generation p);
  ps_binding : forall b, pl_providerBinding p = Some b ->
    in_int64 (pb_connectionGeneration b) /\ in_int64 (pb_credentialGeneration b);
  ps_completed : llen (pl_completedEffects p) <= max_uint64;
  ps_compensates : llen (pl_compensates p) <= max_uint64;
  ps_frames : Forall frame_sized (plan_frames p);
}.

(** What [ValidatePlan] establishes that the digest argument needs. *)
Record plan_valid_facts (p : Plan) : Prop := {
  pv_kind : PlanKind_known (pl_kind p) = true;
  pv_desired : ValidateEvidence (pl_desired p) = true;
  pv_observed : ValidateEvidence (pl_observed p) = true;
  pv_capability : ValidateEvidence (pl_capability p) = true;
  pv_quota : ValidateEvidence (pl_quota p) = true;
  pv_cost : ValidateEvidence (pl_cost p) = true;
  pv_binding : forall b, pl_providerBinding p = Some b -> ValidateProviderBinding b = true;
  pv_actor : match pl_actorKind p with KindOther _ => False | _ => True end;
  pv_completed : validCanonicalEffects (pl_completedEffects p) p = true;
  pv_compensates : validCanonicalEffects (pl_compensates p) p = true;
  pv_digest : pl_digest p = derivePlanDigest p;
  pv_generation : 1 <= pl_generation p;
  pv_revision : pl_revision p <> 0;
  pv_ids : validID (pl_workspaceID p) = true /\ validID (pl_resourceID p) = true /\
           validID (pl_operationID p) = true;
  pv_supersedes : pl_revision p = 1 <-> pl_supersedes p = None;
}.

Lemma ValidatePlan_facts p : ValidatePlan p = true -> plan_valid_facts p.
Proof.
  unfold ValidatePlan, evidenceHasKind. intros H. autorewrite with guards in H. destruct_and!.
  split; try done.
  - intros b Hb. rewrite Hb in *. destruct (pl_connectionID p); [|done].
    match goal with H : ValidateProviderBinding b && _ = true |- _ => by apply andb_true_iff in H as [? _] end.
  - match goal with H : validActorProjection _ _ = true |- _ =>
      revert H; unfold validActorProjection; by destruct (pl_actorKind p) end.
  - match goal with H : Bool.eqb _ _ = true |- pl_revision p = 1 <-> _ =>
      apply Bool.eqb_prop in H end.
    destruct (pl_supersedes p), (Z.eqb_spec (pl_revision p) 1); naive_solver.
Qed.

(** Effects canonical for one plan are determined by their digests. *)
Lemma canonical_effects_inj p q l1 l2 : forall o1 o2,
  pl_operationID p = pl_operationID q -> pl_workspaceID p = pl_workspaceID q ->
  pl_resourceID p = pl_resourceID q -> pl_generation p = pl_generation q ->
  validCanonicalEffects_from o1 l1 p = true -> validCanonicalEffects_from o2 l2 q = true ->
  effect_frames l1 = effect_frames l2 -> l1 = l2.
Proof.
  revert l2; induction l1 as [|a l1 IH]; intros [|b l2] o1 o2 Ho Hw Hr Hg H1 H2 Hf; try done.
  simpl in H1, H2, Hf. apply cons_inv in Hf as [Hd Hf].
  autorewrite with guards in H1, H2. destruct_and!.
  f_equal; [|by eapply (IH l2)].
  unfold ValidateEffectKey in *. autorewrite with guards in *. destruct_and!.
  destruct a as [ai [adi ad] aw ar ao ag], b as [bi [bdi bd] bw br bo bg]; simpl in *. congruence.
Qed.

Lemma Kind_String_inj a b :
  match a with KindOther _ => False | _ => True end -> match b with KindOther _ => False | _ => True end ->
  Kind_String a = Kind_String b -> a = b.
Proof. destruct a, b; simpl; done. Qed.

Lemma plan_frames_inj p q :
  plan_valid_facts p -> plan_valid_facts q -> plan_sized p -> plan_sized q ->
  plan_frames p = plan_frames q -> plan_basis_eq p q.
Proof.
  intros Vp Vq Sp Sq H. unfold plan_frames in H.
  apply cons_inv in H as [_ H]. apply cons_inv in H as [_ H].
  apply cons_inv in H as [Hkind H]. apply cons_inv in H as [Hop H].
  apply cons_inv in H as [Hws H]. apply cons_inv in H as [Hres H].
  apply writeOptionalID_inj in H as [Henv H]. apply writeOptionalID_inj in H as [Hconn H].
  apply cons_inv in H as [Hgen H]. apply cons_inv in H as [Hplanner H].
  apply put_int64_inj in Hgen; [|apply Sp|apply Sq].
  apply (writeEvidence_inj _ _ _ _ (pv_desired p Vp) (pv_desired q Vq)) in H as [Hdes H].
  apply (writeEvidence_inj _ _ _ _ (pv_observed p Vp) (pv_observed q Vq)) in H as [Hobs H].
  apply cons_inv in H as [Hactor H]. apply cons_inv in H as [Hfp H]. apply cons_inv in H as [_ H].
  apply cons_inv in H as [Hpol H]. apply cons_inv in H as [Hin H].
  apply writeProviderBinding_inj in H as [Hbind H];
    [|intros x Hx; split; [by apply (pv_binding p Vp)|by apply (ps_binding p Sp)]
     |intros x Hx; split; [by apply (pv_binding q Vq)|by apply (ps_binding q Sq)]].
  apply (writeEvidence_inj _ _ _ _ (pv_capability p Vp) (pv_capability q Vq)) in H as [Hcap H].
  apply (writeEvidence_inj _ _ _ _ (pv_quota p Vp) (pv_quota q Vq)) in H as [Hquota H].
  apply (writeEvidence_inj _ _ _ _ (pv_cost p Vp) (pv_cost q Vq)) in H as [Hcost H].
  apply effect_frames_inj in H as [Hcomp H]; [|apply Sp|apply Sq].
  rewrite <- (app_nil_r (effect_frames (pl_compensates p))), <- (app_nil_r (effect_frames (pl_compensates q))) in H.
  apply effect_frames_inj in H as [Hcmps _]; [|apply Sp|apply Sq].
  assert (pl_kind p = pl_kind q) as Hk
    by (apply (spelled_inj (T:=PlanKind)); [apply Vp|apply Vq|exact Hkind]).
  apply Kind_String_inj in Hactor; [|apply Vp|apply Vq].
  split; try done; eapply (canonical_effects_inj p q); try done; apply Vp || apply Vq.
Qed.
