(* ===== verification/PlanProps.v ===== *)
(** * Concrete values

    One small but complete reconciliation: a valid revision-one plan, its
    successors and effects.  The witnesses evaluate the model on them. *)

From S2P Require Import Prelude Bytes Sha256 GoTime Closed Vocabulary Digests Identity AuthzVocabulary Plan.
From Stdlib Require Import String.

Definition s_workspace : ID := "workspace-0000000001".
Definition s_resource : ID := "resource-00000000001".
Definition s_operation : ID := "operation-0000000001".
Definition s_operation2 : ID := "operation-0000000002".
Definition s_owner : ID := "worker-000000000001".
Definition s_owner2 : ID := "worker-000000000002".
Definition s_attempt : ID := "attempt-00000000001".
Definition s_plan_id : ID := "plan-00000000000001".
Definition s_plan_id2 : ID := "plan-00000000000002".

(** 2026-01-01T00:00:00Z, in nanoseconds since year one. *)
Definition s_now : time := (unix_epoch_days + 20454) * day.

Definition s_digest (n : Z) : digestValue := DV true (put_uint64 n +:+ zero_bytes 24).

Definition s_evidence (kind : EvidenceKind) (n : Z) : Evidence := Ev true kind "v1" (s_digest n).

Definition with_digest (p : Plan) : Plan :=
  MkPlan (pl_initialized p) (pl_id p) (pl_revision p) (pl_kind p) (pl_operationID p) (pl_workspaceID p)
    (pl_resourceID p) (pl_environmentID p) (pl_connectionID p) (pl_generation p) (pl_plannerVersion p)
    (pl_desired p) (pl_observed p) (pl_actorKind p) (pl_actorFingerprint p) (pl_policyVersion p)
    (pl_authorizationInput p) (pl_providerBinding p) (pl_capability p) (pl_quota p) (pl_cost p)
    (pl_supersedes p) (pl_completedEffects p) (pl_compensates p) (derivePlanDigest p).

(** A plan basis with the given lineage metadata, observation and effects. *)
Definition s_plan_of (id : ID) (revision : Z) (kind : PlanKind) (operation : ID) (generation observed : Z)
    (supersedes : option PlanDigest) (completed compensates : list EffectKey) : Plan :=
  with_digest (MkPlan true id revision kind operation s_workspace s_resource None None generation "planner.v1"
    (s_evidence EvidenceDesiredIntent 1) (s_evidence EvidenceObservedSnapshot observed)
    KindHuman "prn1_sample" (formatDigest PolicyVersionPrefix (s_digest 3))
    (formatDigest InputDigestPrefix (s_digest 4)) None
    (s_evidence EvidenceCapability 5) (s_evidence EvidenceQuota 6) (s_evidence EvidenceCost 7)
    supersedes completed compensates digest_zero).

Definition s_plan : Plan :=
  Eval vm_compute in s_plan_of s_plan_id 1 PlanKindForward s_operation 1 2 None [] [].

Definition s_plan_alias : Plan :=
  Eval vm_compute in s_plan_of s_plan_id2 1 PlanKindForward s_operation 1 2 None [] [].

(** The plan of the next generation of the same resource. *)
Definition s_plan_next : Plan :=
  Eval vm_compute in s_plan_of s_plan_id2 1 PlanKindForward s_operation2 2 2 None [] [].

Definition s_effect : EffectKey := EK true (s_digest 11) s_workspace s_resource s_operation 1.
Definition s_effect2 : EffectKey := EK true (s_digest 12) s_workspace s_resource s_operation 1.
Definition s_effect_next : EffectKey := EK true (s_digest 13) s_workspace s_resource s_operation2 2.

(** The second revision of the plan, after [s_effect] was applied. *)
Definition s_plan_rev2 : Plan :=
  Eval vm_compute in s_plan_of s_plan_id2 2 PlanKindForward s_operation 1 8
    (Some (pl_digest s_plan)) [s_effect] [].

Definition s_plan_comp : Plan :=
  Eval vm_compute in s_plan_of s_plan_id2 2 PlanKindCompensation s_operation 1 8
    (Some (pl_digest s_plan)) [s_effect] [s_effect].

Definition s_work : WorkKey := WK (s_digest 21) (pl_digest s_plan).

Example s_plan_valid : ValidatePlan s_plan = true.
Proof. vm_compute. reflexivity. Qed.
Example s_plan_alias_valid : ValidatePlan s_plan_alias = true.
Proof. vm_compute. reflexivity. Qed.
Example s_plan_next_valid : ValidatePlan s_plan_next = true.
Proof. vm_compute. reflexivity. Qed.
Example s_plan_rev2_valid : ValidatePlan s_plan_rev2 = true.
Proof. vm_compute. reflexivity. Qed.
Example s_plan_comp_valid : ValidatePlan s_plan_comp = true.
Proof. vm_compute. reflexivity. Qed.

(** * Properties of digests and plans *)

(** Every typed digest round-trips: parsing accepts exactly the strings
    that formatting an initialised 32-byte digest under the same prefix
    produces, and returns that digest.  No other spelling (padding, stray line
    breaks, non-canonical trailing bits, other prefix) is accepted. *)
Theorem parse_digest_exact (prefix s : string) (d : digestValue) :
  parseDigest prefix s = Ok d <->
  dv_initialized d = true /\ digest_wf d /\ s = formatDigest prefix d.
Proof. apply parseDigest_iff. Qed.

(** Work keys round-trip through their wire form, which keeps the plan
    digest that lease binding needs. *)
Theorem work_key_roundtrip (k : WorkKey)
  (Hv : validWorkKey k = true) (Hd : digest_wf (wk_digest k)) (Hp : digest_wf (wk_planDigest k)) :
  ParseWorkKey (WorkKey_String k) = Ok k.
Proof. by apply WorkKey_roundtrip_aux. Qed.

Lemma work_key_roundtrip_witness : ParseWorkKey (WorkKey_String s_work) = Ok s_work.
Proof. apply (work_key_roundtrip s_work); vm_compute; reflexivity. Defined.

(** The hash framing is unambiguous: what is written to a hasher
    determines the sequence of frames, so no digest of the program can be
    confused by moving bytes between fields. *)
Theorem framing_injective (fs gs : list string)
  (Hf : Forall frame_sized fs) (Hg : Forall frame_sized gs)
  (H : preimage fs = preimage gs) : fs = gs.
Proof. by apply preimage_inj. Qed.

Lemma framing_injective_witness : ["ab"; "c"] = ["ab"; "c"].
Proof.
  apply (framing_injective ["ab"; "c"] ["ab"; "c"]); [| |reflexivity];
    repeat constructor; unfold frame_sized; vm_compute; discriminate.
Defined.

(** The plan digest identifies the semantic plan.  Two valid plans with
    the same digest agree on every input the planner bound (operation,
    provider basis, evidence, actor, policy decision, completed and
    compensated effects), unless their two preimages are a SHA-256 collision.
    Only the plan ID, revision and superseded digest may differ. *)
Theorem plan_digest_binds (p q : Plan)
  (Hp : ValidatePlan p = true) (Hq : ValidatePlan q = true)
  (Sp : plan_sized p) (Sq : plan_sized q)
  (Hno_collision : sha256 (preimage (plan_frames p)) = sha256 (preimage (plan_frames q)) ->
                   preimage (plan_frames p) = preimage (plan_frames q))
  (Hd : equalDigest (pl_digest p) (pl_digest q) = true) :
  plan_basis_eq p q.
Proof.
  apply ValidatePlan_facts in Hp, Hq.
  apply equalDigest_true in Hd as (_ & _ & Hd).
  rewrite (pv_digest p Hp), (pv_digest q Hq) in Hd. unfold derivePlanDigest, digestFromHasher in Hd.
  assert (sha256 (preimage (plan_frames p)) = sha256 (preimage (plan_frames q))) as Hs by congruence.
  apply Hno_collision, preimage_inj in Hs; [|apply Sp|apply Sq].
  by apply plan_frames_inj.
Qed.

Lemma plan_digest_binds_witness : pl_id s_plan <> pl_id s_plan_alias /\ plan_basis_eq s_plan s_plan_alias.
Proof.
  split; [discriminate|].
  apply plan_digest_binds.
  - vm_compute; reflexivity.
  - vm_compute; reflexivity.
  - split; [vm_compute; split; discriminate|discriminate|vm_compute; discriminate|vm_compute; discriminate|].
    repeat constructor; unfold frame_sized; vm_compute; discriminate.
  - split; [vm_compute; split; discriminate|discriminate|vm_compute; discriminate|vm_compute; discriminate|].
    repeat constructor; unfold frame_sized; vm_compute; discriminate.
  - intros _. vm_compute. reflexivity.
  - vm_compute. reflexivity.
Defined.

(** Conversely the digest ignores lineage metadata: plans with the same
    basis have the same digest whatever their ID, revision and predecessor. *)
Theorem plan_digest_ignores_lineage (p q : Plan) (H : plan_basis_eq p q) :
  derivePlanDigest p = derivePlanDigest q.
Proof.
  destruct H. unfold derivePlanDigest, plan_frames. congruence.
Qed.

Lemma plan_digest_ignores_lineage_witness : derivePlanDigest s_plan = derivePlanDigest s_plan_alias.
Proof. apply plan_digest_ignores_lineage. split; reflexivity. Defined.
