(* ===== verification/Lease.v ===== *)
(** * Leases and fencing (reconciliation/lease.go, planning.go, model.go)

    The lease table keeps one stable row per Workspace/resource lineage with a
    monotonic fence.  Its methods run under its mutex with a database time
    sampled after the lock, so a history is a sequence of whole calls.  Fields
    a failing call already changed (the observed time of a row) stay changed. *)

From S2P Require Import Prelude Bytes Sha256 GoTime Atomics Closed Vocabulary Digests Plan.
From Stdlib Require Import String.

(** ** Bindings *)

Record LeaseBinding := LB {
  lb_initialized : bool;
  lb_workspaceID : ID;
  lb_resourceID : ID;
  lb_generation : Z;
  lb_operationID : ID;
  lb_planRevision : Z;
  lb_planDigest : PlanDigest;
}.

Definition LeaseBindingFromPlan (plan : Plan) : result error LeaseBinding :=
  if negb (ValidatePlan plan) then Err ErrInvalidLease
  else Ok (LB true (pl_workspaceID plan) (pl_resourceID plan) (pl_generation plan) (pl_operationID plan)
              (pl_revision plan) (pl_digest plan)).

Definition validateLeaseBinding (value : LeaseBinding) : bool :=
  negb (negb (lb_initialized value) || negb (validID (lb_workspaceID value))
        || negb (validID (lb_resourceID value)) || negb (validID (lb_operationID value))
        || (lb_generation value <? 1) || (lb_planRevision value =? 0)
        || negb (dv_initialized (lb_planDigest value))).

Definition LeaseBinding_Equal (value other : LeaseBinding) : bool :=
  validateLeaseBinding value && validateLeaseBinding other &&
  String.eqb (lb_workspaceID value) (lb_workspaceID other) &&
  String.eqb (lb_resourceID value) (lb_resourceID other) &&
  (lb_generation value =? lb_generation other) &&
  String.eqb (lb_operationID value) (lb_operationID other) &&
  (lb_planRevision value =? lb_planRevision other) &&
  equalDigest (lb_planDigest value) (lb_planDigest other).

Definition leaseRowKey (value : LeaseBinding) : string :=
  lb_workspaceID value +:+ ":" +:+ lb_resourceID value.

Definition leaseBindingMovesForward (current candidate : LeaseBinding) : bool :=
  if lb_generation candidate <? lb_generation current then false
  else if lb_generation candidate =? lb_generation current then
    String.eqb (lb_operationID candidate) (lb_operationID current) &&
    (lb_planRevision current <? max_uint32) &&
    (lb_planRevision candidate =? lb_planRevision current + 1)
  else negb (String.eqb (lb_operationID candidate) (lb_operationID current)) &&
       (lb_planRevision candidate =? 1).

(** ** Tokens and rows *)

Record LeaseToken := LT {
  tk_initialized : bool;
  tk_table : option loc;
  tk_binding : LeaseBinding;
  tk_ownerID : ID;
  tk_fence : Z;
  tk_acquiredAt : time;
  tk_expiresAt : time;
}.

Definition validateLeaseToken (value : LeaseToken) : bool :=
  negb (negb (tk_initialized value) || negb (is_some (tk_table value))
        || negb (validateLeaseBinding (tk_binding value)) || negb (validID (tk_ownerID value))
        || (tk_fence value <? 1) || is_zero (tk_acquiredAt value) || is_zero (tk_expiresAt value)
        || (time_sub (tk_expiresAt value) (tk_acquiredAt value) <? StoreLeaseDuration)).

Record leaseRow := Row {
  lr_binding : LeaseBinding;
  lr_ownerID : ID;
  lr_fence : Z;
  lr_acquiredAt : time;
  lr_expiresAt : time;
  lr_observedAt : time;
}.

Record LeaseTable := MkTable {
  lt_initialized : bool;
  lt_identity : option loc;
  lt_maximum : Z;
  lt_rows : gmap string leaseRow;
}.

Definition LeaseM := ST LeaseTable error.

(** A table allocates its identity marker. *)
Definition NewLeaseTable (maximum : Z) : ST heap error LeaseTable := fun h =>
  if maximum <? 1 then (Err ErrInvalidLease, h)
  else let '(l, h') := new_marker h in (Ok (MkTable true (Some l) maximum ∅), h').

Definition NextFence (previous : Z) : result error Z :=
  if (previous <? 0) || (previous =? MaxFence) then Err ErrFenceExhausted else Ok (previous + 1).

Definition tokenFromRow (row : leaseRow) (table : option loc) : LeaseToken :=
  LT true table (lr_binding row) (lr_ownerID row) (lr_fence row) (lr_acquiredAt row) (lr_expiresAt row).

Definition set_row (key : string) (row : leaseRow) (t : LeaseTable) : LeaseTable :=
  MkTable (lt_initialized t) (lt_identity t) (lt_maximum t) (<[key := row]> (lt_rows t)).

Definition write_row (key : string) (row : leaseRow) : LeaseM unit :=
  t ← get_state; set_state (set_row key row t).

Definition row_observed (now : time) (row : leaseRow) : leaseRow :=
  Row (lr_binding row) (lr_ownerID row) (lr_fence row) (lr_acquiredAt row) (lr_expiresAt row) now.

(** Records the sampled time of a row; an earlier sample is rejected.  Returns
    the row as it is after the call. *)
Definition observeNowLocked (key : string) (now : time) : LeaseM leaseRow :=
  t ← get_state;
  match lt_rows t !! key with
  | None => throw ErrLeaseLost
  | Some row =>
      reject (negb (is_zero (lr_observedAt row)) && before now (lr_observedAt row)) ErrClockRegressed;;
      if after now (lr_observedAt row)
      then write_row key (row_observed now row);; mret (row_observed now row)
      else mret row
  end.

Definition loc_eqb (a b : option loc) : bool := bool_decide (a = b).

Definition currentRowLocked (t : LeaseTable) (now : time) (token : LeaseToken) : option leaseRow :=
  if negb (loc_eqb (tk_table token) (lt_identity t)) then None else
  match lt_rows t !! leaseRowKey (tk_binding token) with
  | None => None
  | Some row =>
      if String.eqb (lr_ownerID row) "" || negb (before now (lr_expiresAt row))
         || negb (String.eqb (lr_ownerID row) (tk_ownerID token)) || negb (lr_fence row =? tk_fence token)
         || negb (LeaseBinding_Equal (lr_binding row) (tk_binding token))
      then None else Some row
  end.

(** The current row of a token, or [ErrLeaseLost]. *)
Definition require_current (now : time) (token : LeaseToken) : LeaseM leaseRow :=
  t ← get_state; lift (of_option (currentRowLocked t now token) ErrLeaseLost).

Definition invalid_lease_time : error := ErrWrap ErrInvalidLease ErrInvalidTime.

(** ** Operations *)

Definition LeaseTable_Acquire (databaseTime : time) (binding : LeaseBinding) (ownerID : ID) : LeaseM LeaseToken :=
  t ← get_state;
  reject (negb (lt_initialized t) || negb (validateLeaseBinding binding) || negb (validID ownerID)) ErrInvalidLease;;
  now ← lift (of_option (normalizeTime databaseTime) invalid_lease_time);
  let key := leaseRowKey binding in
  let finish (previousFence : Z) : LeaseM LeaseToken :=
    fence ← lift (NextFence previousFence);
    expiresAt ← lift (of_option (addNormalizedDuration now StoreLeaseDuration) invalid_lease_time);
    let row := Row binding ownerID fence now expiresAt now in
    write_row key row;;
    mret (tokenFromRow row (lt_identity t)) in
  match lt_rows t !! key with
  | Some _ =>
      row ← observeNowLocked key now;
      reject (negb (LeaseBinding_Equal (lr_binding row) binding)) ErrLeaseLost;;
      reject (negb (String.eqb (lr_ownerID row) "") && before now (lr_expiresAt row)) ErrLeaseHeld;;
      finish (lr_fence row)
  | None =>
      reject (lt_maximum t <=? Z.of_nat (size (lt_rows t))) ErrCapacity;;
      finish 0
  end.

Definition LeaseTable_Renew (databaseTime : time) (token : LeaseToken) : LeaseM LeaseToken :=
  t ← get_state;
  reject (negb (lt_initialized t) || negb (validateLeaseToken token)) ErrInvalidLease;;
  reject (negb (loc_eqb (tk_table token) (lt_identity t))) ErrLeaseLost;;
  now ← lift (of_option (normalizeTime databaseTime) invalid_lease_time);
  let key := leaseRowKey (tk_binding token) in
  observeNowLocked key now;;
  row ← require_current now token;
  expiresAt ← lift (of_option (addNormalizedDuration now StoreLeaseDuration) invalid_lease_time);
  let row' := Row (lr_binding row) (lr_ownerID row) (lr_fence row) (lr_acquiredAt row) expiresAt now in
  write_row key row';;
  mret (tokenFromRow row' (lt_identity t)).

Definition LeaseTable_Surrender (databaseTime : time) (token : LeaseToken) : LeaseM unit :=
  t ← get_state;
  reject (negb (lt_initialized t) || negb (validateLeaseToken token)) ErrInvalidLease;;
  reject (negb (loc_eqb (tk_table token) (lt_identity t))) ErrLeaseLost;;
  now ← lift (of_option (normalizeTime databaseTime) invalid_lease_time);
  let key := leaseRowKey (tk_binding token) in
  observeNowLocked key now;;
  row ← require_current now token;
  write_row key (Row (lr_binding row) "" (lr_fence row) (lr_acquiredAt row) now now).

(** ** Worker commits (model.go) *)

Record TransitionBundle := TB {
  tb_initialized : bool;
  tb_operationWrite : bool;
  tb_attemptWrite : bool;
  tb_observationWrite : bool;
  tb_providerPossiblyDispatched : bool;
  tb_providerAttemptAuditEvents : Z;
  tb_successorOutboxRecords : Z;
}.

Definition NewTransitionBundle (operationWrite attemptWrite observationWrite providerPossiblyDispatched : bool)
    (providerAttemptAuditEvents successorOutboxRecords : Z) : result error TransitionBundle :=
  if negb operationWrite && negb attemptWrite && negb observationWrite then Err ErrInvalidTransition
  else if 1 <? successorOutboxRecords then Err ErrInvalidTransition
  else if providerPossiblyDispatched && negb attemptWrite then Err ErrInvalidTransition
  else
    let wantAudit := if providerPossiblyDispatched then 1 else 0 in
    if negb (providerAttemptAuditEvents =? wantAudit) then Err ErrInvalidTransition
    else Ok (TB true operationWrite attemptWrite observationWrite providerPossiblyDispatched
                providerAttemptAuditEvents successorOutboxRecords).

Definition LeaseTable_AuthorizeCommit (databaseTime : time) (token : LeaseToken) (bundle : TransitionBundle)
    : LeaseM unit :=
  t ← get_state;
  reject (negb (lt_initialized t) || negb (validateLeaseToken token) || negb (tb_initialized bundle))
    ErrInvalidTransition;;
  reject (negb (loc_eqb (tk_table token) (lt_identity t))) ErrLeaseLost;;
  now ← lift (of_option (normalizeTime databaseTime) ErrInvalidTime);
  observeNowLocked (leaseRowKey (tk_binding token)) now;;
  require_current now token;;
  mret tt.

(** ** Dispatch permits *)

Record DispatchAuthority := DA {
  da_initialized : bool;
  da_planDigest : PlanDigest;
  da_attemptBinding : digestValue;
  da_authorizationInput : string;
  da_policyVersion : string;
  da_observedAt : time;
  da_use : option loc;
}.

Definition validateDispatchAuthority (value : DispatchAuthority) : bool :=
  negb (negb (da_initialized value) || negb (dv_initialized (da_planDigest value))
        || String.eqb (da_authorizationInput value) "" || negb (dv_initialized (da_attemptBinding value))
        || String.eqb (da_policyVersion value) "" || negb (is_some (da_use value))
        || match normalizeTime (da_observedAt value) with
           | None => true
           | Some observedAt => negb (time_equal observedAt (da_observedAt value))
           end).

Record DispatchPermit := DP {
  dp_initialized : bool;
  dp_token : LeaseToken;
  dp_attemptBinding : digestValue;
  dp_authorizedAt : time;
  dp_deadline : time;
  dp_use : option loc;
}.

Definition validateDispatchPermit (value : DispatchPermit) : bool :=
  negb (negb (dp_initialized value) || negb (validateLeaseToken (dp_token value))
        || is_zero (dp_authorizedAt value) || negb (dv_initialized (dp_attemptBinding value))
        || negb (is_some (dp_use value)) || is_zero (dp_deadline value)
        || negb (after (dp_deadline value) (dp_authorizedAt value))
        || negb (before (dp_deadline value) (tk_expiresAt (dp_token value) - DispatchSafetyMargin))).

(** Methods that also use atomic cells run over the heap and the table. *)
Definition SharedM := ST (heap * LeaseTable) error.

Definition on_table {A} (m : LeaseM A) : SharedM A := fun '(h, t) =>
  let '(r, t') := m t in (r, (h, t')).

(** [use.CompareAndSwap(false, true)] or the given error; a nil cell cannot be
    reached past validation. *)
Definition use_once (cell : option loc) (e : error) : SharedM unit := fun '(h, t) =>
  match cell with
  | None => (Err e, (h, t))
  | Some l => let '(swapped, h') := cas_bool h l false true in
              if swapped then (Ok tt, (h', t)) else (Err e, (h', t))
  end.

Definition alloc_bool : SharedM loc := fun '(h, t) =>
  let '(l, h') := new_bool h in (Ok l, (h', t)).

Definition LeaseTable_AuthorizeDispatch (databaseTime : time) (token : LeaseToken) (rpcTimeout : Z)
    (authority : DispatchAuthority) : SharedM DispatchPermit :=
  t ← on_table get_state;
  reject (negb (lt_initialized t) || negb (validateLeaseToken token)
          || negb (validateDispatchAuthority authority)
          || negb (equalDigest (da_planDigest authority) (lb_planDigest (tk_binding token)))
          || (rpcTimeout <=? 0)) ErrDispatchAuthority;;
  reject (negb (loc_eqb (tk_table token) (lt_identity t))) ErrLeaseLost;;
  now ← lift (of_option (normalizeTime databaseTime) (ErrWrap ErrDispatchAuthority ErrInvalidTime));
  on_table (observeNowLocked (leaseRowKey (tk_binding token)) now);;
  reject (negb (time_equal (da_observedAt authority) now)) ErrDispatchAuthority;;
  row ← on_table (require_current now token);
  deadline ← lift (of_option (addNormalizedDuration now rpcTimeout) ErrDispatchWindow);
  reject (negb (after deadline now) || negb (before deadline (lr_expiresAt row - DispatchSafetyMargin)))
    ErrDispatchWindow;;
  use_once (da_use authority) ErrDispatchAuthority;;
  use ← alloc_bool;
  mret (DP true (tokenFromRow row (lt_identity t)) (da_attemptBinding authority) now deadline (Some use)).

(** ** Lineage replacement *)

Record LeaseReplacementAuthority := LRA {
  ra_initialized : bool;
  ra_expected : LeaseBinding;
  ra_replacement : LeaseBinding;
  ra_replacementKind : PlanKind;
  ra_compensationSchedule : digestValue;
  ra_admissionBinding : digestValue;
  ra_transition : option loc;
  ra_use : option loc;
}.

Definition validateLeaseReplacementAuthority (value : LeaseReplacementAuthority) : bool :=
  let advances := lb_generation (ra_expected value) <? lb_generation (ra_replacement value) in
  negb (negb (ra_initialized value) || negb (validateLeaseBinding (ra_expected value))
        || negb (validateLeaseBinding (ra_replacement value)) || negb (is_some (ra_use value))
        || (negb (bool_decide (ra_replacementKind value = PlanKindForward)) &&
            negb (bool_decide (ra_replacementKind value = PlanKindCompensation)))
        || negb (Bool.eqb (bool_decide (ra_replacementKind value = PlanKindCompensation))
                          (dv_initialized (ra_compensationSchedule value)))
        || negb (String.eqb (leaseRowKey (ra_expected value)) (leaseRowKey (ra_replacement value)))
        || negb (leaseBindingMovesForward (ra_expected value) (ra_replacement value))
        || negb (Bool.eqb advances (dv_initialized (ra_admissionBinding value)))
        || negb (Bool.eqb advances (is_some (ra_transition value)))).

(** Not yet published: the paired admission's counter still reads zero. *)
Definition transition_pending (cell : option loc) (e : error) : SharedM unit := fun '(h, t) =>
  match cell with
  | Some l => if negb (load_word h l =? 0) then (Err e, (h, t)) else (Ok tt, (h, t))
  | None => (Ok tt, (h, t))
  end.

Definition publish_transition (cell : option loc) : SharedM unit := fun '(h, t) =>
  match cell with
  | Some l => (Ok tt, (store_word h l 1, t))
  | None => (Ok tt, (h, t))
  end.

Definition LeaseTable_AcquireReplacement (databaseTime : time) (authority : LeaseReplacementAuthority)
    (ownerID : ID) : SharedM LeaseToken :=
  t ← on_table get_state;
  reject (negb (lt_initialized t) || negb (validateLeaseReplacementAuthority authority)
          || negb (validID ownerID)) ErrInvalidLease;;
  now ← lift (of_option (normalizeTime databaseTime) invalid_lease_time);
  let key := leaseRowKey (ra_expected authority) in
  row ← on_table (observeNowLocked key now);
  reject (negb (LeaseBinding_Equal (lr_binding row) (ra_expected authority))) ErrLeaseLost;;
  reject (negb (String.eqb (lr_ownerID row) "") && before now (lr_expiresAt row)) ErrLeaseHeld;;
  fence ← lift (NextFence (lr_fence row));
  expiresAt ← lift (of_option (addNormalizedDuration now StoreLeaseDuration) invalid_lease_time);
  use_once (ra_use authority) ErrInvalidLease;;
  transition_pending (ra_transition authority) ErrInvalidLease;;
  let replaced := Row (ra_replacement authority) ownerID fence now expiresAt now in
  on_table (write_row key replaced);;
  publish_transition (ra_transition authority);;
  mret (tokenFromRow replaced (lt_identity t)).

(** ** Heartbeats *)

Definition StableRenewalInterval (work : WorkKey) : result error Z :=
  if negb (validWorkKey work) then Err ErrInvalidLease else
  let spanMilliseconds := (RenewalDeadline - RenewalJitterMinimum) / millisecond + 1 in
  let offset := get_uint64 (dv_digest (wk_digest work)) mod spanMilliseconds in
  Ok (RenewalJitterMinimum + offset * millisecond).

Definition VisibilityDeadline (changedAt : time) : result error time :=
  value ← of_option (normalizeTime changedAt) ErrInvalidTime;
  of_option (addNormalizedDuration value QueueVisibilityDuration) ErrInvalidTime.

Definition LeaseTable_Len (t : LeaseTable) : Z := Z.of_nat (size (lt_rows t)).
