(* ===== verification/LeaseSpec.v ===== *)
(** * The fenced-lease contract and its refinement by the lease table

    [row_step] is the abstract protocol of one lineage row: time observations,
    renewals by the live owner, surrender, and grants that raise the fence
    once the row is free or expired.  Every method of the table refines one
    [table_step] of it.  The file ends with the invariant of a table together
    with all tokens it ever issued. *)

From S2P Require Import Prelude Bytes Sha256 GoTime Atomics Closed Vocabulary Digests Plan Lease.
From Stdlib Require Import String.

(** ** The abstract protocol *)

Definition row_free (now : time) (r : leaseRow) : Prop := lr_ownerID r = "" \/ lr_expiresAt r <= now.
Definition row_live (now : time) (r : leaseRow) : Prop := lr_ownerID r <> "" /\ now < lr_expiresAt r.

Definition granted (b : LeaseBinding) (owner : ID) (fence now : Z) : leaseRow :=
  Row b owner fence now (now + StoreLeaseDuration) now.

(** The label says whether a surrender may happen in the step. *)
Inductive row_step (surrendering : bool) (now : time) (r : leaseRow) : leaseRow -> Prop :=
| rs_observe : lr_observedAt r <= now -> row_step surrendering now r (row_observed now r)
| rs_renew : lr_observedAt r <= now -> row_live now r ->
    row_step surrendering now r (Row (lr_binding r) (lr_ownerID r) (lr_fence r) (lr_acquiredAt r) (now + StoreLeaseDuration) now)
| rs_surrender : surrendering = true -> lr_observedAt r <= now -> row_live now r ->
    row_step surrendering now r (Row (lr_binding r) "" (lr_fence r) (lr_acquiredAt r) now now)
| rs_grant b owner : lr_observedAt r <= now -> row_free now r ->
    lr_fence r < MaxFence -> validID owner = true -> validateLeaseBinding b = true ->
    leaseRowKey b = leaseRowKey (lr_binding r) ->
    b = lr_binding r \/ leaseBindingMovesForward (lr_binding r) b = true ->
    row_step surrendering now r (granted b owner (lr_fence r + 1) now).

Inductive table_step (surrendering : bool) (t : LeaseTable) : LeaseTable -> Prop :=
| ts_none : table_step surrendering t t
| ts_row key now r r' : lt_rows t !! key = Some r -> normal now -> row_step surrendering now r r' ->
    table_step surrendering t (set_row key r' t)
| ts_new now b owner : lt_rows t !! leaseRowKey b = None -> normal now ->
    Z.of_nat (size (lt_rows t)) < lt_maximum t -> validID owner = true -> validateLeaseBinding b = true ->
    table_step surrendering t (set_row (leaseRowKey b) (granted b owner 1 now) t).

(** A token a call hands out is the projection of the live row it leaves. *)
Definition issues (t' : LeaseTable) (tok : LeaseToken) : Prop :=
  exists r, lt_rows t' !! leaseRowKey (tk_binding tok) = Some r /\
    tok = tokenFromRow r (lt_identity t') /\ lr_ownerID r <> "".

(** ** Helper lemmas *)

Lemma set_row_same key r t : lt_rows t !! key = Some r -> set_row key r t = t.
Proof. intros H. unfold set_row. destruct t as [i d m rows]; simpl in *. by rewrite insert_id. Qed.

Lemma set_row_set_row key r r' t : set_row key r' (set_row key r t) = set_row key r' t.
Proof. unfold set_row. simpl. by rewrite insert_insert_eq. Qed.

Lemma LeaseBinding_Equal_true v o :
  LeaseBinding_Equal v o = true <-> validateLeaseBinding v = true /\ v = o.
Proof.
  unfold LeaseBinding_Equal. split.
  - autorewrite with guards. intros [[[[[[[Hv Ho] ?] ?] ?] ?] ?] (_ & _ & ?)].
    split; [done|]. revert Hv Ho. unfold validateLeaseBinding. destruct v, o; simpl in *. subst.
    autorewrite with guards. intros. destruct_and!. congruence.
  - intros [Hv <-]. rewrite Hv, !String.eqb_refl, !Z.eqb_refl, equalDigest_refl. simpl.
    unfold validateLeaseBinding in Hv. autorewrite with guards in Hv. naive_solver.
Qed.
#[export] Hint Rewrite LeaseBinding_Equal_true : guards.

Lemma loc_eqb_true a b : loc_eqb a b = true <-> a = b.
Proof. apply bool_decide_eq_true. Qed.
#[export] Hint Rewrite loc_eqb_true : guards.

Lemma validID_nonempty o : validID o = true -> o <> "".
Proof. by destruct o. Qed.

Lemma lease_duration_ms : StoreLeaseDuration mod millisecond = 0.
Proof. vm_compute. done. Qed.

Lemma write_row_run key r t : write_row key r t = (Ok tt, set_row key r t).
Proof. done. Qed.

(** An observation succeeds exactly when the row exists and time has not
    moved back; it records the sample and nothing else. *)
Lemma observeNow_ok key now t r' t' :
  normal now -> observeNowLocked key now t = (Ok r', t') ->
  exists r, lt_rows t !! key = Some r /\ lr_observedAt r <= now /\
    r' = row_observed now r /\ t' = set_row key r' t.
Proof.
  intros Hn H. unfold observeNowLocked in H. run_inv H.
  destruct (lt_rows t !! key) as [r|] eqn:Hl; [|done]. run_inv H. run_inv Hr.
  unfold row_observed in *. autorewrite with guards in Hr.
  destruct Hn as [Hn _].
  assert (lr_observedAt r <= now) as Hle.
  { destruct (is_zero (lr_observedAt r)) eqn:E; simpl in Hr; autorewrite with guards in *; [lia|done]. }
  exists r. split; [done|]. split; [done|].
  destruct (after now (lr_observedAt r)) eqn:E.
  - unfold mbind, ST_bind in H. rewrite write_row_run in H. unfold mret, ST_ret in H. by simplify_eq.
  - apply after_false in E. assert (now = lr_observedAt r) as -> by lia.
    unfold mret, ST_ret in H. injection H as <- <-. destruct r as [b o f a e ob]; simpl in *.
    split; [done|]. by rewrite set_row_same.
Qed.

Lemma observeNow_err key now t e t' : observeNowLocked key now t = (Err e, t') -> t' = t.
Proof.
  unfold observeNowLocked, mbind, ST_bind, get_state, reject, lift, fail_if, throw.
  destruct (lt_rows t !! key); [|naive_solver].
  destruct (_ && _); [naive_solver|]. destruct (after _ _); [rewrite write_row_run|]; done.
Qed.

Lemma require_current_ok now tok t r t' :
  require_current now tok t = (Ok r, t') ->
  t' = t /\ tk_table tok = lt_identity t /\ lt_rows t !! leaseRowKey (tk_binding tok) = Some r /\
  row_live now r /\ lr_ownerID r = tk_ownerID tok /\ lr_fence r = tk_fence tok /\
  lr_binding r = tk_binding tok /\ validateLeaseBinding (lr_binding r) = true.
Proof.
  unfold require_current. intros H. run_inv H. unfold currentRowLocked in H.
  destruct (loc_eqb _ _) eqn:El; simpl in H; [|done].
  destruct (lt_rows t !! _) as [r'|] eqn:Hl; [|done].
  destruct (_ || _) eqn:E; [done|]. injection H as ->.
  autorewrite with guards in E, El. unfold row_live. naive_solver.
Qed.

Lemma require_current_err now tok t e t' : require_current now tok t = (Err e, t') -> t' = t.
Proof. unfold require_current, mbind, ST_bind, get_state, lift. by intros [= _ <-]. Qed.

Lemma NextFence_ok p f : NextFence p = Ok f <-> f = p + 1 /\ 0 <= p /\ p <> MaxFence.
Proof.
  unfold NextFence. destruct (_ || _) eqn:E; autorewrite with guards in E.
  - split; [done|]. intros (-> & ? & ?). lia.
  - split; [intros [= <-]; lia | intros (-> & _); done].
Qed.

(** ** The methods refine the protocol *)

#[global] Arguments write_row : simpl never.

Ltac unfold_run :=
  unfold mbind, ST_bind, reject, lift, fail_if, throw, get_state, mret, ST_ret, of_option in *.

Lemma observed_step s key now r t :
  normal now -> lt_rows t !! key = Some r -> lr_observedAt r <= now ->
  table_step s t (set_row key (row_observed now r) t).
Proof. intros. eapply ts_row; [done|done|by apply rs_observe]. Qed.

Lemma issues_set_row key r t :
  leaseRowKey (lr_binding r) = key -> lr_ownerID r <> "" ->
  issues (set_row key r t) (tokenFromRow r (lt_identity t)).
Proof. intros <- Ho. exists r. simpl. by rewrite lookup_insert_eq. Qed.

Lemma lease_expiry now e :
  normal now -> addNormalizedDuration now StoreLeaseDuration = Some e -> e = now + StoreLeaseDuration.
Proof. intros Hn He. by apply addNormalizedDuration_exact in He as [-> _]; [|done|apply lease_duration_ms]. Qed.

(** What a successful acquisition says about the row it found. *)
Definition acquired_from (t : LeaseTable) (now : time) (key : string) (fence : Z) : Prop :=
  match lt_rows t !! key with
  | None => fence = 1
  | Some r => row_free now r /\ lr_observedAt r <= now /\ fence = lr_fence r + 1 /\ lr_fence r < MaxFence
  end.

(** All rows the table holds sit under the key of their binding. *)
Definition keyed (t : LeaseTable) : Prop :=
  forall key r, lt_rows t !! key = Some r -> leaseRowKey (lr_binding r) = key /\ 1 <= lr_fence r <= MaxFence.

Lemma free_guard r now :
  negb (String.eqb (lr_ownerID r) "") && before now (lr_expiresAt r) = false -> row_free now r.
Proof.
  unfold row_free. destruct (String.eqb_spec (lr_ownerID r) "") as [->|]; simpl; [by left|].
  rewrite before_false. by right.
Qed.

Lemma Acquire_spec dt b o t r t' :
  keyed t -> LeaseTable_Acquire dt b o t = (r, t') ->
  table_step false t t' /\
  (forall tok, r = Ok tok -> exists now, normalizeTime dt = Some now /\ issues t' tok /\
     acquired_from t now (leaseRowKey b) (tk_fence tok) /\
     tok = tokenFromRow (granted b o (tk_fence tok) now) (lt_identity t)).
Proof.
  intros Hk. unfold LeaseTable_Acquire. unfold_run.
  destruct (negb (lt_initialized t) || _ || _) eqn:G; [intros [= <- <-]; split; [constructor|done]|].
  autorewrite with guards in G. destruct_and!.
  destruct (normalizeTime dt) as [now|] eqn:Hn; [|intros [= <- <-]; split; [constructor|done]].
  pose proof (normalizeTime_normal _ _ Hn) as Hnormal.
  destruct (lt_rows t !! leaseRowKey b) as [row0|] eqn:Hl.
  - destruct (observeNowLocked (leaseRowKey b) now t) as [[row|e] t1] eqn:Hobs;
      [|intros [= <- <-]; apply observeNow_err in Hobs as ->; split; [constructor|done]].
    apply observeNow_ok in Hobs as (r0 & Hl' & Hle & -> & ->); [|done].
    assert (row0 = r0) as -> by congruence.
    assert (forall e, (Err e, set_row (leaseRowKey b) (row_observed now r0) t) = (r, t') ->
      table_step false t t' /\ (forall tok, r = Ok tok -> exists now0, Some now = Some now0 /\ issues t' tok /\
        acquired_from t now0 (leaseRowKey b) (tk_fence tok) /\
        tok = tokenFromRow (granted b o (tk_fence tok) now0) (lt_identity t))) as Hfail.
    { intros e [= <- <-]. split; [by apply observed_step|done]. }
    destruct (negb (LeaseBinding_Equal _ _)) eqn:Hb; [apply Hfail|]. autorewrite with guards in Hb.
    destruct Hb as [Hvb Hb]. simpl in Hb, Hvb.
    destruct (negb (String.eqb _ _) && _) eqn:Hf; [apply Hfail|]. apply free_guard in Hf.
    destruct (NextFence _) as [fence|] eqn:Hnf; [|apply Hfail].
    apply NextFence_ok in Hnf as (-> & ? & ?). simpl in *.
    destruct (addNormalizedDuration _ _) as [e|] eqn:He; [|apply Hfail].
    apply lease_expiry in He as ->; [|done].
    rewrite ?write_row_run, set_row_set_row. intros [= <- <-].
    destruct (Hk _ _ Hl) as [Hkey Hfence]. unfold row_free in Hf. simpl in Hf.
    split.
    + eapply ts_row; [done|done|]. rewrite <- Hb. apply rs_grant; try done; [lia|by left].
    + intros tok [= <-]. exists now. split; [done|]. unfold acquired_from. rewrite Hl. simpl.
      split; [|split_and!; try done; lia].
      apply (issues_set_row (leaseRowKey b) (granted b o (lr_fence r0 + 1) now)); [done|].
      by apply validID_nonempty.
  - destruct (lt_maximum t <=? _) eqn:Hcap; [intros [= <- <-]; split; [constructor|done]|].
    apply Z.leb_gt in Hcap. simpl.
    destruct (addNormalizedDuration _ _) as [e|] eqn:He; [|intros [= <- <-]; split; [constructor|done]].
    apply lease_expiry in He as ->; [|done].
    rewrite ?write_row_run. intros [= <- <-]. split.
    + by apply ts_new.
    + intros tok [= <-]. exists now. split; [done|]. unfold acquired_from. rewrite Hl. simpl.
      split; [|done].
      apply (issues_set_row (leaseRowKey b) (granted b o 1 now)); [done|]. by apply validID_nonempty.
Qed.

Lemma Renew_spec dt tok t r t' :
  LeaseTable_Renew dt tok t = (r, t') ->
  table_step false t t' /\
  (forall tok', r = Ok tok' -> exists now row, normalizeTime dt = Some now /\
     lt_rows t !! leaseRowKey (tk_binding tok) = Some row /\ row_live now row /\
     lr_observedAt row <= now /\ lr_binding row = tk_binding tok /\
     lr_ownerID row = tk_ownerID tok /\ lr_fence row = tk_fence tok /\ issues t' tok' /\
     tok' = LT true (lt_identity t) (tk_binding tok) (tk_ownerID tok) (tk_fence tok) (lr_acquiredAt row)
               (now + StoreLeaseDuration)).
Proof.
  unfold LeaseTable_Renew. unfold_run.
  destruct (negb (lt_initialized t) || _) eqn:G; [intros [= <- <-]; split; [constructor|done]|].
  destruct (negb (loc_eqb _ _)) eqn:G2; [intros [= <- <-]; split; [constructor|done]|].
  destruct (normalizeTime dt) as [now|] eqn:Hn; [|intros [= <- <-]; split; [constructor|done]].
  pose proof (normalizeTime_normal _ _ Hn) as Hnormal.
  destruct (observeNowLocked _ now t) as [[row|e] t1] eqn:Hobs;
    [|intros [= <- <-]; apply observeNow_err in Hobs as ->; split; [constructor|done]].
  apply observeNow_ok in Hobs as (r0 & Hl & Hle & -> & ->); [|done].
  set (key := leaseRowKey (tk_binding tok)) in *.
  destruct (require_current _ _ _) as [[row|e] t2] eqn:Hc.
  2:{ intros [= <- <-]. apply require_current_err in Hc as ->. split; [by apply observed_step|done]. }
  apply require_current_ok in Hc as (-> & _ & Hl' & Hlive & Ho & Hf & Hb & _). simpl in Hl'.
  rewrite lookup_insert_eq in Hl'. injection Hl' as <-. simpl in *.
  destruct (addNormalizedDuration _ _) as [e|] eqn:He;
    [|intros [= <- <-]; split; [by apply observed_step|done]].
  apply lease_expiry in He as ->; [|done]. rewrite ?write_row_run, set_row_set_row.
  intros [= <- <-]. split.
  - eapply ts_row; [done|done|]. by apply rs_renew.
  - intros tok' [= <-]. exists now, r0. split_and!; try done.
    + apply issues_set_row; simpl; [by rewrite Hb|]. by destruct Hlive.
    + unfold tokenFromRow. simpl. by rewrite Hb, Ho, Hf.
Qed.

Lemma Surrender_spec dt tok t r t' :
  LeaseTable_Surrender dt tok t = (r, t') ->
  table_step (result_ok r) t t' /\
  (r = Ok tt -> exists now row, normalizeTime dt = Some now /\
     lt_rows t !! leaseRowKey (tk_binding tok) = Some row /\ row_live now row /\
     lr_ownerID row = tk_ownerID tok /\ lr_fence row = tk_fence tok /\
     t' = set_row (leaseRowKey (tk_binding tok))
            (Row (lr_binding row) "" (lr_fence row) (lr_acquiredAt row) now now) t).
Proof.
  unfold LeaseTable_Surrender. unfold_run.
  destruct (negb (lt_initialized t) || _) eqn:G; [intros [= <- <-]; split; [constructor|done]|].
  destruct (negb (loc_eqb _ _)) eqn:G2; [intros [= <- <-]; split; [constructor|done]|].
  destruct (normalizeTime dt) as [now|] eqn:Hn; [|intros [= <- <-]; split; [constructor|done]].
  pose proof (normalizeTime_normal _ _ Hn) as Hnormal.
  destruct (observeNowLocked _ now t) as [[row|e] t1] eqn:Hobs;
    [|intros [= <- <-]; apply observeNow_err in Hobs as ->; split; [constructor|done]].
  apply observeNow_ok in Hobs as (r0 & Hl & Hle & -> & ->); [|done].
  set (key := leaseRowKey (tk_binding tok)) in *.
  destruct (require_current _ _ _) as [[row|e] t2] eqn:Hc.
  2:{ intros [= <- <-]. apply require_current_err in Hc as ->. split; [by apply observed_step|done]. }
  apply require_current_ok in Hc as (-> & _ & Hl' & Hlive & Ho & Hf & Hb & _). simpl in Hl'.
  rewrite lookup_insert_eq in Hl'. injection Hl' as <-. simpl in *.
  rewrite ?write_row_run, set_row_set_row. intros [= <- <-]. split.
  - eapply ts_row; [done|done|]. by apply rs_surrender.
  - intros _. exists now, r0. done.
Qed.

(** Commits and dispatch authorisations only observe the row, and succeed only
    for its live owner. *)
Definition held_by (t : LeaseTable) (now : time) (tok : LeaseToken) (row : leaseRow) : Prop :=
  lt_rows t !! leaseRowKey (tk_binding tok) = Some row /\ row_live now row /\ lr_observedAt row <= now /\
  lr_ownerID row = tk_ownerID tok /\ lr_fence row = tk_fence tok /\ lr_binding row = tk_binding tok.

Lemma observe_current now tok t r t' :
  normal now ->
  (observeNowLocked (leaseRowKey (tk_binding tok)) now;; require_current now tok) t = (r, t') ->
  table_step false t t' /\
  (forall row', r = Ok row' -> exists row, held_by t now tok row /\ row' = row_observed now row /\
     t' = set_row (leaseRowKey (tk_binding tok)) row' t).
Proof.
  intros Hnormal. unfold_run.
  destruct (observeNowLocked _ now t) as [[row|e] t1] eqn:Hobs;
    [|intros [= <- <-]; apply observeNow_err in Hobs as ->; split; [constructor|done]].
  apply observeNow_ok in Hobs as (r0 & Hl & Hle & -> & ->); [|done].
  destruct (require_current _ _ _) as [[row|e] t2] eqn:Hc; intros [= <- <-].
  2:{ apply require_current_err in Hc as ->. split; [by apply observed_step|done]. }
  apply require_current_ok in Hc as (-> & _ & Hl' & Hlive & Ho & Hf & Hb & _). simpl in Hl'.
  rewrite lookup_insert_eq in Hl'. injection Hl' as <-. simpl in *. split; [by apply observed_step|].
  intros row' [= <-]. exists r0. done.
Qed.

Lemma Commit_spec dt tok bundle t r t' :
  LeaseTable_AuthorizeCommit dt tok bundle t = (r, t') ->
  table_step false t t' /\
  (r = Ok tt -> exists now row, normalizeTime dt = Some now /\ held_by t now tok row).
Proof.
  unfold LeaseTable_AuthorizeCommit. unfold_run.
  destruct (negb (lt_initialized t) || _ || _) eqn:G; [intros [= <- <-]; split; [constructor|done]|].
  destruct (negb (loc_eqb _ _)) eqn:G2; [intros [= <- <-]; split; [constructor|done]|].
  destruct (normalizeTime dt) as [now|] eqn:Hn; [|intros [= <- <-]; split; [constructor|done]].
  pose proof (normalizeTime_normal _ _ Hn) as Hnormal.
  intros H.
  destruct ((observeNowLocked (leaseRowKey (tk_binding tok)) now;; require_current now tok) t)
    as [r0 t0] eqn:Hoc.
  pose proof (observe_current _ _ _ _ _ Hnormal Hoc) as [Hstep Hrow].
  revert Hoc. unfold_run. destruct (observeNowLocked _ _ _) as [[row1|e1] t1].
  - destruct (require_current _ _ _) as [[row2|e2] t2]; intros [= <- <-]; injection H as <- <-; split; try done.
    intros _. destruct (Hrow _ eq_refl) as (row & Hheld & _). by exists now, row.
  - intros [= <- <-]; injection H as <- <-; split; done.
Qed.

Lemma use_once_ok cell e h t h' t' u :
  use_once cell e (h, t) = (Ok u, (h', t')) ->
  t' = t /\ exists l, cell = Some l /\ load_bool h l = false /\ load_bool h' l = true /\
    cas_bool h l false true = (true, h').
Proof.
  unfold use_once. destruct cell as [l|]; [|done].
  destruct (cas_bool h l false true) as [[] h1] eqn:E; [|done]. intros [= _ <- <-]. split; [done|].
  exists l. pose proof (cas_bool_swapped _ _ _ E). naive_solver.
Qed.

Lemma use_once_frame cell e h t r h' t' :
  use_once cell e (h, t) = (r, (h', t')) -> t' = t /\ heap_le h h'.
Proof.
  unfold use_once. destruct cell as [l|]; [|by intros [= _ <- <-]].
  destruct (cas_bool h l false true) as [b h1] eqn:E. pose proof (cas_bool_le _ _ _ _ E).
  destruct b; by intros [= _ <- <-].
Qed.

(** What a granted permit guarantees at the moment it is granted. *)
Definition permit_granted (h h' : heap) (t t' : LeaseTable) (dt : time) (tok : LeaseToken)
    (authority : DispatchAuthority) (p : DispatchPermit) : Prop :=
  exists now row l, normalizeTime dt = Some now /\ held_by t now tok row /\
    dp_token p = tokenFromRow row (lt_identity t) /\ issues t' (dp_token p) /\
    dp_attemptBinding p = da_attemptBinding authority /\ dp_authorizedAt p = now /\
    da_observedAt authority = now /\
    now < dp_deadline p /\ dp_deadline p + DispatchSafetyMargin < lr_expiresAt row /\
    da_use authority = Some l /\ load_bool h l = false /\ load_bool h' l = true /\
    equalDigest (da_planDigest authority) (lb_planDigest (tk_binding tok)) = true /\ tk_table tok = lt_identity t.

Lemma alloc_bool_run h t : alloc_bool (h, t) = (Ok (new_bool h).1, ((new_bool h).2, t)).
Proof. done. Qed.

Lemma Dispatch_spec dt tok rpc authority h t r h' t' :
  LeaseTable_AuthorizeDispatch dt tok rpc authority (h, t) = (r, (h', t')) ->
  table_step false t t' /\ (forall p, r = Ok p -> permit_granted h h' t t' dt tok authority p).
Proof.
  unfold LeaseTable_AuthorizeDispatch. unfold_run. unfold on_table at 1. simpl.
  destruct (negb (lt_initialized t) || _ || _ || _ || _) eqn:G;
    [intros [= <- <- <-]; split; [constructor|done]|]. autorewrite with guards in G. destruct_and!.
  destruct (negb (loc_eqb _ _)) eqn:G2; [intros [= <- <- <-]; split; [constructor|done]|].
  destruct (normalizeTime dt) as [now|] eqn:Hn; [|intros [= <- <- <-]; split; [constructor|done]].
  pose proof (normalizeTime_normal _ _ Hn) as Hnormal. unfold on_table.
  destruct (observeNowLocked _ now t) as [[row|e] t1] eqn:Hobs;
    [|intros [= <- <- <-]; apply observeNow_err in Hobs as ->; split; [constructor|done]].
  apply observeNow_ok in Hobs as (r0 & Hl & Hle & -> & ->); [|done].
  destruct (negb (time_equal _ _)) eqn:Hat; [intros [= <- <- <-]; split; [by apply observed_step|done]|].
  destruct (require_current _ _ _) as [[row|e] t2] eqn:Hc.
  2:{ intros [= <- <- <-]. apply require_current_err in Hc as ->. split; [by apply observed_step|done]. }
  apply require_current_ok in Hc as (-> & _ & Hl' & Hlive & Ho & Hf & Hb & _). simpl in Hl'.
  rewrite lookup_insert_eq in Hl'. injection Hl' as <-.
  destruct (addNormalizedDuration now rpc) as [deadline|] eqn:Hd;
    [|intros [= <- <- <-]; split; [by apply observed_step|done]].
  destruct (negb (after deadline now) || _) eqn:Hw;
    [intros [= <- <- <-]; split; [by apply observed_step|done]|].
  autorewrite with guards in Hw, Hat. simpl in Hw.
  destruct (use_once _ _ _) as [[[]|e] [h2 t2]] eqn:Hu.
  2:{ intros [= <- <- <-]. apply use_once_frame in Hu as [-> _]. split; [by apply observed_step|done]. }
  apply use_once_ok in Hu as (-> & l & Hcell & Hfalse & Htrue & Hcas). rewrite alloc_bool_run.
  intros [= <- <- <-]. split; [by apply observed_step|].
  intros p [= <-]. exists now, r0, l. simpl. split_and!; try done; try lia.
  - exists (row_observed now r0). simpl in *. rewrite Hb, lookup_insert_eq. by destruct Hlive.
  - rewrite <- Htrue. apply (new_bool_load h2 l).
  - by apply equalDigest_true.
  - unfold loc_eqb in G2. by guards_in G2.
Qed.

(** Replacement: like an acquisition, but of the exact successor binding, and
    at most once per authority. *)
Lemma Replace_spec dt authority o h t r h' t' :
  keyed t -> LeaseTable_AcquireReplacement dt authority o (h, t) = (r, (h', t')) ->
  table_step false t t' /\
  (forall tok, r = Ok tok -> exists now l, normalizeTime dt = Some now /\ issues t' tok /\
     acquired_from t now (leaseRowKey (ra_expected authority)) (tk_fence tok) /\
     (exists row, lt_rows t !! leaseRowKey (ra_expected authority) = Some row /\
        lr_binding row = ra_expected authority) /\
     tok = tokenFromRow (granted (ra_replacement authority) o (tk_fence tok) now) (lt_identity t) /\
     ra_use authority = Some l /\ load_bool h l = false /\ load_bool h' l = true).
Proof.
  intros Hk. unfold LeaseTable_AcquireReplacement. unfold_run. unfold on_table at 1. simpl.
  destruct (negb (lt_initialized t) || _ || _) eqn:G;
    [intros [= <- <- <-]; split; [constructor|done]|]. autorewrite with guards in G. destruct_and!.
  destruct (normalizeTime dt) as [now|] eqn:Hn; [|intros [= <- <- <-]; split; [constructor|done]].
  pose proof (normalizeTime_normal _ _ Hn) as Hnormal. unfold on_table.
  set (key := leaseRowKey (ra_expected authority)).
  destruct (observeNowLocked _ now t) as [[row|e] t1] eqn:Hobs;
    [|intros [= <- <- <-]; apply observeNow_err in Hobs as ->; split; [constructor|done]].
  apply observeNow_ok in Hobs as (r0 & Hl & Hle & -> & ->); [|done].
  destruct (negb (LeaseBinding_Equal _ _)) eqn:Hb;
    [intros [= <- <- <-]; split; [by apply observed_step|done]|].
  autorewrite with guards in Hb. destruct Hb as [Hvb Hb]. simpl in Hb, Hvb.
  destruct (negb (String.eqb _ _) && _) eqn:Hf;
    [intros [= <- <- <-]; split; [by apply observed_step|done]|].
  apply free_guard in Hf. unfold row_free in Hf. simpl in Hf.
  destruct (NextFence _) as [fence|] eqn:Hnf; [|intros [= <- <- <-]; split; [by apply observed_step|done]].
  apply NextFence_ok in Hnf as (-> & ? & ?).
  destruct (addNormalizedDuration _ _) as [e|] eqn:He;
    [|intros [= <- <- <-]; split; [by apply observed_step|done]].
  apply lease_expiry in He as ->; [|done].
  destruct (use_once _ _ _) as [[[]|e] [h2 t2]] eqn:Hu.
  2:{ intros [= <- <- <-]. apply use_once_frame in Hu as [-> _]. split; [by apply observed_step|done]. }
  apply use_once_ok in Hu as (-> & l & Hcell & Hfalse & Htrue & Hcas).
  destruct (Hk _ _ Hl) as [Hkey Hfence].
  match goal with H : validateLeaseReplacementAuthority _ = true |- _ =>
    pose proof H as Hvalid; unfold validateLeaseReplacementAuthority in H;
    autorewrite with guards in H; destruct_and! end.
  assert (forall hx, load_bool hx l = true ->
    (Ok (tokenFromRow (Row (ra_replacement authority) o (lr_fence (row_observed now r0) + 1) now
           (now + StoreLeaseDuration) now) (lt_identity t)),
     (hx, set_row key (Row (ra_replacement authority) o (lr_fence (row_observed now r0) + 1) now
           (now + StoreLeaseDuration) now) (set_row key (row_observed now r0) t))) = (r, (h', t')) ->
    table_step false t t' /\
    (forall tok, r = Ok tok -> exists now0 l0, Some now = Some now0 /\ issues t' tok /\
     acquired_from t now0 key (tk_fence tok) /\
     (exists row, lt_rows t !! key = Some row /\ lr_binding row = ra_expected authority) /\
     tok = tokenFromRow (granted (ra_replacement authority) o (tk_fence tok) now0) (lt_identity t) /\
     ra_use authority = Some l0 /\ load_bool h l0 = false /\ load_bool h' l0 = true)) as Hdone.
  { intros hx Hx. rewrite set_row_set_row. intros [= <- <- <-]. simpl in *. split.
    - eapply ts_row; [done|done|]. apply rs_grant; try done; [lia| |].
      + rewrite Hb. done.
      + right. by rewrite Hb.
    - intros tok [= <-]. exists now, l. unfold acquired_from. rewrite Hl. simpl. split_and!; try done; try lia.
      + apply (issues_set_row _ (granted (ra_replacement authority) o (lr_fence r0 + 1) now)); [done|].
        by apply validID_nonempty.
      + by exists r0. }
  unfold transition_pending, publish_transition.
  destruct (ra_transition authority) as [tr|].
  - destruct (negb (load_word h2 tr =? 0)); [intros [= <- <- <-]; split; [by apply observed_step|done]|].
    rewrite ?write_row_run. apply Hdone. done.
  - rewrite ?write_row_run. apply Hdone. done.
Qed.
