(* ===== verification/Attempt.v ===== *)
(** * Physical attempts and effect truth (reconciliation/attempt.go, planning.go)

    An attempt is an immutable snapshot of one provider call: prepared, then
    dispatched under a live lease, then resolved to Applied, NoEffect or
    Indeterminate.  An effect projection is the current truth about a logical
    effect; the retry and generation gates are functions of it. *)

From S2P Require Import Prelude Bytes Sha256 GoTime Atomics Closed Vocabulary Digests Plan Lease.
From Stdlib Require Import String.

(** ** Compensation steps (planning.go) *)

Record CompensationStep := CS {
  cs_initialized : bool;
  cs_planDigest : PlanDigest;
  cs_original : EffectKey;
  cs_inverse : EffectKey;
  cs_dependencyOrder : Z;
  cs_position : Z;
  cs_total : Z;
  cs_proofEvidence : digestValue;
  cs_schedule : digestValue;
}.

Definition validCompensationStep (value : CompensationStep) : bool :=
  cs_initialized value && dv_initialized (cs_planDigest value) &&
  ValidateEffectKey (cs_original value) && ValidateEffectKey (cs_inverse value) &&
  negb (EffectKey_Equal (cs_original value) (cs_inverse value)) && (0 <? cs_dependencyOrder value) &&
  (0 <? cs_position value) && (cs_position value <=? cs_total value) &&
  dv_initialized (cs_proofEvidence value) && dv_initialized (cs_schedule value).

Definition compensationStepsEqual (left right : CompensationStep) : bool :=
  equalDigest (cs_planDigest left) (cs_planDigest right) &&
  EffectKey_Equal (cs_original left) (cs_original right) &&
  EffectKey_Equal (cs_inverse left) (cs_inverse right) &&
  (cs_dependencyOrder left =? cs_dependencyOrder right) &&
  (cs_position left =? cs_position right) && (cs_total left =? cs_total right) &&
  equalDigest (cs_proofEvidence left) (cs_proofEvidence right) &&
  equalDigest (cs_schedule left) (cs_schedule right).

(** ** Effect projections *)

Record EffectProjection := EP {
  ep_initialized : bool;
  ep_key : EffectKey;
  ep_planDigest : PlanDigest;
  ep_sourceAttemptID : ID;
  ep_purpose : AttemptPurpose;
  ep_compensation : option CompensationStep;
  ep_cancellationTarget : option EffectKey;
  ep_state : AttemptState;
  ep_updatedAt : time;
}.

Definition effectKeysShareExactScope (left right : EffectKey) : bool :=
  ValidateEffectKey left && ValidateEffectKey right &&
  String.eqb (ek_workspaceID left) (ek_workspaceID right) &&
  String.eqb (ek_resourceID left) (ek_resourceID right) &&
  String.eqb (ek_operationID left) (ek_operationID right) &&
  (ek_generation left =? ek_generation right).

Definition validateEffectProjection (value : EffectProjection) : bool :=
  negb (negb (ep_initialized value) || negb (ValidateEffectKey (ep_key value))
        || negb (dv_initialized (ep_planDigest value)) || negb (validID (ep_sourceAttemptID value))
        || is_zero (ep_updatedAt value))
  && AttemptPurpose_known (ep_purpose value)
  && (if bool_decide (ep_purpose value = AttemptPurposeCompensation) then
        match ep_compensation value with
        | None => false
        | Some step => validCompensationStep step && equalDigest (cs_planDigest step) (ep_planDigest value)
                       && EffectKey_Equal (cs_inverse step) (ep_key value)
        end
      else negb (is_some (ep_compensation value)))
  && (if bool_decide (ep_purpose value = AttemptPurposeProviderCancel) then
        match ep_cancellationTarget value with
        | None => false
        | Some target => ValidateEffectKey target && negb (EffectKey_Equal target (ep_key value))
                         && effectKeysShareExactScope target (ep_key value)
        end
      else negb (is_some (ep_cancellationTarget value)))
  && AttemptState_known (ep_state value).

Definition optionalEffectKeysEqual (left right : option EffectKey) : bool :=
  match left, right with
  | Some l, Some r => EffectKey_Equal l r
  | None, None => true
  | _, _ => false
  end.

Definition effectProjectionIdentityEqual (left right : EffectProjection) : bool :=
  if negb (EffectKey_Equal (ep_key left) (ep_key right)) ||
     negb (equalDigest (ep_planDigest left) (ep_planDigest right)) ||
     negb (bool_decide (ep_purpose left = ep_purpose right)) ||
     negb (optionalEffectKeysEqual (ep_cancellationTarget left) (ep_cancellationTarget right))
  then false
  else match ep_compensation left, ep_compensation right with
       | Some l, Some r => compensationStepsEqual l r
       | None, None => true
       | _, _ => false
       end.

Definition effectProjectionsEqual (left right : EffectProjection) : bool :=
  effectProjectionIdentityEqual left right && bool_decide (ep_state left = ep_state right) &&
  String.eqb (ep_sourceAttemptID left) (ep_sourceAttemptID right) &&
  time_equal (ep_updatedAt left) (ep_updatedAt right).

(** ** Purposes *)

Definition attemptPurposeMatchesPlan (purpose : AttemptPurpose) (kind : PlanKind) : bool :=
  match purpose with
  | AttemptPurposeForward => bool_decide (kind = PlanKindForward)
  | AttemptPurposeCompensation => bool_decide (kind = PlanKindCompensation)
  | AttemptPurposeObservation | AttemptPurposeProviderCancel =>
      bool_decide (kind = PlanKindForward) || bool_decide (kind = PlanKindCompensation)
  | AttemptPurposeOther _ => false
  end.

Definition businessPurposeMatchesPlan (purpose : AttemptPurpose) (kind : PlanKind) : bool :=
  (bool_decide (purpose = AttemptPurposeForward) && bool_decide (kind = PlanKindForward)) ||
  (bool_decide (purpose = AttemptPurposeCompensation) && bool_decide (kind = PlanKindCompensation)).

Definition validCancellationTarget (target : EffectProjection) (planDigest : PlanDigest) (planKind : PlanKind)
    (cancellationEffect : EffectKey) : bool :=
  validateEffectProjection target && negb (EffectKey_Equal (ep_key target) cancellationEffect) &&
  equalDigest (ep_planDigest target) planDigest &&
  effectKeysShareExactScope (ep_key target) cancellationEffect &&
  businessPurposeMatchesPlan (ep_purpose target) planKind &&
  (bool_decide (ep_state target = AttemptStateDispatched)
   || bool_decide (ep_state target = AttemptStateIndeterminate)).

Definition validObservationTarget (target : EffectProjection) (planDigest : PlanDigest) (planKind : PlanKind)
    (effect : EffectKey) : bool :=
  validateEffectProjection target && bool_decide (ep_state target = AttemptStateIndeterminate) &&
  negb (bool_decide (ep_purpose target = AttemptPurposeObservation)) &&
  EffectKey_Equal (ep_key target) effect && equalDigest (ep_planDigest target) planDigest &&
  attemptPurposeMatchesPlan (ep_purpose target) planKind.

(** ** Attempts *)

Record Attempt := At {
  at_initialized : bool;
  at_id : ID;
  at_ordinal : Z;
  at_planDigest : PlanDigest;
  at_planKind : PlanKind;
  at_effect : EffectKey;
  at_purpose : AttemptPurpose;
  at_ownerID : ID;
  at_fence : Z;
  at_requestFingerprint : RequestFingerprint;
  at_compensation : option CompensationStep;
  at_observationTarget : option EffectProjection;
  at_cancellationTarget : option EffectProjection;
  at_retryValidUntil : time;
  at_observationBinding : digestValue;
  at_observationDeadline : time;
  at_admissionBinding : digestValue;
  at_state : AttemptState;
  at_preparedAt : time;
  at_dispatchedAt : time;
  at_resolvedAt : time;
}.

(** The copy of an attempt with new state and timestamps: the only fields the
    transitions change. *)
Definition attempt_moved (a : Attempt) (state : AttemptState) (dispatchedAt resolvedAt : time) : Attempt :=
  At (at_initialized a) (at_id a) (at_ordinal a) (at_planDigest a) (at_planKind a) (at_effect a) (at_purpose a)
     (at_ownerID a) (at_fence a) (at_requestFingerprint a) (at_compensation a) (at_observationTarget a)
     (at_cancellationTarget a) (at_retryValidUntil a) (at_observationBinding a) (at_observationDeadline a)
     (at_admissionBinding a) state (at_preparedAt a) dispatchedAt resolvedAt.

(** A stored instant equals its own normalisation. *)
Definition stored_normal (t : time) : bool :=
  match normalizeTime t with Some u => time_equal u t | None => false end.

Definition purpose_mutates (p : AttemptPurpose) : bool :=
  match p with
  | AttemptPurposeForward | AttemptPurposeCompensation | AttemptPurposeProviderCancel => true
  | _ => false
  end.

Definition valid_attempt_times (value : Attempt) : bool :=
  match at_state value with
  | AttemptStatePrepared => negb (negb (is_zero (at_dispatchedAt value)) || negb (is_zero (at_resolvedAt value)))
  | AttemptStateDispatched =>
      negb (before (at_dispatchedAt value) (at_preparedAt value) || is_zero (at_dispatchedAt value)
            || negb (is_zero (at_resolvedAt value)))
  | AttemptStateApplied =>
      negb (is_zero (at_dispatchedAt value) || before (at_resolvedAt value) (at_dispatchedAt value))
  | AttemptStateNoEffect | AttemptStateIndeterminate =>
      let latestRequired := if negb (is_zero (at_dispatchedAt value)) then at_dispatchedAt value
                            else at_preparedAt value in
      negb (before (at_resolvedAt value) latestRequired || is_zero (at_resolvedAt value))
  | AttemptStateOther _ => true
  end.

Definition ValidateAttempt (value : Attempt) : bool :=
  negb (negb (at_initialized value) || negb (validID (at_id value)) || (at_ordinal value =? 0)
        || negb (dv_initialized (at_planDigest value)) || negb (ValidateEffectKey (at_effect value))
        || negb (validID (at_ownerID value)) || (at_fence value <? 1)
        || negb (dv_initialized (at_requestFingerprint value))
        || negb (dv_initialized (at_admissionBinding value)) || is_zero (at_preparedAt value))
  && PlanKind_known (at_planKind value)
  && AttemptPurpose_known (at_purpose value)
  && AttemptState_known (at_state value)
  && attemptPurposeMatchesPlan (at_purpose value) (at_planKind value)
  && (if bool_decide (at_purpose value = AttemptPurposeCompensation) then
        match at_compensation value with
        | None => false
        | Some step => validCompensationStep step && equalDigest (cs_planDigest step) (at_planDigest value)
                       && EffectKey_Equal (cs_inverse step) (at_effect value)
        end
      else negb (is_some (at_compensation value)))
  && (if bool_decide (at_purpose value = AttemptPurposeProviderCancel) then
        match at_cancellationTarget value with
        | None => false
        | Some target => validCancellationTarget target (at_planDigest value) (at_planKind value) (at_effect value)
        end
      else negb (is_some (at_cancellationTarget value)))
  && (if negb (is_zero (at_retryValidUntil value)) then
        stored_normal (at_retryValidUntil value) && after (at_retryValidUntil value) (at_preparedAt value)
        && purpose_mutates (at_purpose value)
      else true)
  && (if bool_decide (at_purpose value = AttemptPurposeObservation) then
        dv_initialized (at_observationBinding value) &&
        match at_observationTarget value with
        | None => false
        | Some target =>
            stored_normal (at_observationDeadline value) &&
            before (at_preparedAt value) (at_observationDeadline value) &&
            validObservationTarget target (at_planDigest value) (at_planKind value) (at_effect value)
        end
      else negb (dv_initialized (at_observationBinding value)
                 || negb (is_zero (at_observationDeadline value))
                 || is_some (at_observationTarget value)))
  && valid_attempt_times value.

Definition Attempt_Resolved (value : Attempt) : bool :=
  match at_state value with
  | AttemptStateApplied | AttemptStateNoEffect | AttemptStateIndeterminate => true
  | _ => false
  end.

Definition Attempt_Definitive (value : Attempt) : bool :=
  match at_state value with
  | AttemptStateApplied | AttemptStateNoEffect => true
  | _ => false
  end.

Definition attemptLatestAt (value : Attempt) : time :=
  if negb (is_zero (at_resolvedAt value)) then at_resolvedAt value
  else if negb (is_zero (at_dispatchedAt value)) then at_dispatchedAt value
  else at_preparedAt value.

(** ** Dispatch binding *)

Definition writeCompensationStep (value : CompensationStep) : list string :=
  [dv_digest (cs_planDigest value); dv_digest (ek_digest (cs_original value));
   dv_digest (ek_digest (cs_inverse value)); put_uint64 (cs_dependencyOrder value);
   put_uint64 (cs_position value); put_uint64 (cs_total value);
   dv_digest (cs_proofEvidence value); dv_digest (cs_schedule value)].

Definition writeEffectProjection (value : EffectProjection) : list string :=
  [dv_digest (ek_digest (ep_key value)); dv_digest (ep_planDigest value); ep_sourceAttemptID value;
   AttemptPurpose_String (ep_purpose value); AttemptState_String (ep_state value);
   put_uint64 (unix_milli (ep_updatedAt value));
   match ep_cancellationTarget value with
   | None => "no-cancellation-target"
   | Some target => dv_digest (ek_digest target)
   end] ++
  match ep_compensation value with
  | None => ["no-compensation"]
  | Some step => writeCompensationStep step
  end.

Definition time_or (none : string) (t : time) : string :=
  if is_zero t then none else put_uint64 (unix_milli t).

Definition digest_or (none : string) (d : digestValue) : string :=
  if dv_initialized d then dv_digest d else none.

Definition projection_or (none : string) (p : option EffectProjection) : list string :=
  match p with None => [none] | Some v => writeEffectProjection v end.

(** What is hashed into the dispatch binding. *)
Definition attempt_dispatch_frames (value : Attempt) : list string :=
  ["veer.reconciliation.attempt-dispatch.v1"; ContractVersion; at_id value; put_uint64 (at_ordinal value);
   dv_digest (at_planDigest value); PlanKind_String (at_planKind value); dv_digest (ek_digest (at_effect value));
   AttemptPurpose_String (at_purpose value); at_ownerID value; put_uint64 (at_fence value);
   dv_digest (at_requestFingerprint value); dv_digest (at_admissionBinding value);
   time_or "no-retry-expiry" (at_retryValidUntil value);
   digest_or "no-observation" (at_observationBinding value);
   time_or "no-observation-deadline" (at_observationDeadline value)] ++
  projection_or "no-observation-target" (at_observationTarget value) ++
  projection_or "no-cancellation-target" (at_cancellationTarget value) ++
  [put_uint64 (unix_milli (at_preparedAt value))] ++
  match at_compensation value with
  | None => ["0"]
  | Some step => ["1"; dv_digest (cs_schedule step); dv_digest (cs_proofEvidence step);
                  put_uint64 (cs_position step); put_uint64 (cs_dependencyOrder step)]
  end.

Definition deriveAttemptDispatchBinding (value : Attempt) : digestValue :=
  digestFromHasher (attempt_dispatch_frames value).

(** ** Transitions.  On an error the caller keeps [before]. *)

Definition LeaseTable_MarkAttemptDispatched (a : Attempt) (permit : DispatchPermit) (dispatchedAt : time)
    : SharedM Attempt :=
  t ← on_table get_state;
  reject (negb (lt_initialized t) || negb (ValidateAttempt a)
          || negb (bool_decide (at_state a = AttemptStatePrepared)) || negb (validateDispatchPermit permit)
          || negb (equalDigest (dp_attemptBinding permit) (deriveAttemptDispatchBinding a))
          || negb (equalDigest (lb_planDigest (tk_binding (dp_token permit))) (at_planDigest a))
          || negb (String.eqb (tk_ownerID (dp_token permit)) (at_ownerID a))
          || negb (tk_fence (dp_token permit) =? at_fence a)) ErrInvalidTransition;;
  reject (negb (loc_eqb (tk_table (dp_token permit)) (lt_identity t))) ErrLeaseLost;;
  at' ← lift (of_option (normalizeTime dispatchedAt) ErrInvalidTransition);
  reject (before at' (at_preparedAt a) || before at' (dp_authorizedAt permit)
          || negb (before at' (dp_deadline permit))
          || (negb (is_zero (at_retryValidUntil a)) && negb (before at' (at_retryValidUntil a)))
          || (negb (is_zero (at_observationDeadline a)) && negb (before at' (at_observationDeadline a))))
    ErrInvalidTransition;;
  on_table (observeNowLocked (leaseRowKey (tk_binding (dp_token permit))) at');;
  on_table (require_current at' (dp_token permit));;
  use_once (dp_use permit) ErrInvalidTransition;;
  mret (attempt_moved a AttemptStateDispatched at' (at_resolvedAt a)).

Definition validEffectState (value : EffectState) : bool :=
  match value with
  | EffectStateApplied | EffectStateNoEffect | EffectStateIndeterminate => true
  | EffectStateOther _ => false
  end.

(** [AttemptState(outcome)] *)
Definition AttemptState_of (outcome : EffectState) : AttemptState :=
  match outcome with
  | EffectStateApplied => AttemptStateApplied
  | EffectStateNoEffect => AttemptStateNoEffect
  | EffectStateIndeterminate => AttemptStateIndeterminate
  | EffectStateOther raw => AttemptStateOther raw
  end.

Definition ResolveAttempt (a : Attempt) (outcome : EffectState) (resolvedAt : time) : result error Attempt :=
  fail_if (negb (ValidateAttempt a) || negb (bool_decide (at_state a = AttemptStateDispatched))
           || negb (validEffectState outcome)) ErrInvalidTransition;;
  at' ← of_option (normalizeTime resolvedAt) ErrInvalidTransition;
  fail_if (before at' (at_dispatchedAt a)) ErrInvalidTransition;;
  Ok (attempt_moved a (AttemptState_of outcome) (at_dispatchedAt a) at').

Definition RecoverAttempt (a : Attempt) (proof : DispatchProof) (recoveredAt : time) : result error Attempt :=
  fail_if (negb (ValidateAttempt a) || Attempt_Resolved a) ErrInvalidTransition;;
  at' ← of_option (normalizeTime recoveredAt) ErrInvalidTransition;
  fail_if (before at' (attemptLatestAt a)) ErrInvalidTransition;;
  match at_state a, proof with
  | AttemptStatePrepared, DispatchProofNeverBegan =>
      Ok (attempt_moved a AttemptStateNoEffect (at_dispatchedAt a) at')
  | AttemptStatePrepared, DispatchProofUnknown | AttemptStateDispatched, DispatchProofUnknown =>
      Ok (attempt_moved a AttemptStateIndeterminate (at_dispatchedAt a) at')
  | _, _ => Err ErrInvalidTransition
  end.

Definition validMaintenanceKind (value : MaintenanceKind) : bool :=
  match value with MaintenanceStoreLease | MaintenanceQueueVisibility => true | _ => false end.

Definition validMaintenanceOutcome (value : MaintenanceOutcome) : bool :=
  match value with MaintenanceSucceeded | MaintenanceFailed | MaintenanceUnknown => true | _ => false end.

Definition ApplyMaintenanceOutcome (a : Attempt) (kind : MaintenanceKind) (outcome : MaintenanceOutcome)
    (observedAt : time) : result error (Attempt * MaintenanceDirective) :=
  fail_if (negb (ValidateAttempt a) || negb (validMaintenanceKind kind) || negb (validMaintenanceOutcome outcome))
    ErrInvalidTransition;;
  at' ← of_option (normalizeTime observedAt) ErrInvalidTransition;
  fail_if (before at' (attemptLatestAt a)) ErrInvalidTransition;;
  if bool_decide (outcome = MaintenanceSucceeded) then Ok (a, MaintenanceContinue)
  else if Attempt_Resolved a then Ok (a, MaintenanceStopAndSurrender)
  else a' ← RecoverAttempt a DispatchProofUnknown at'; Ok (a', MaintenanceStopAndSurrender).

Definition EffectProjectionFromAttempt (attempt : Attempt) : result error EffectProjection :=
  if negb (ValidateAttempt attempt) then Err ErrInvalidAttempt
  else if bool_decide (at_purpose attempt = AttemptPurposeObservation) then Err ErrInvalidObservation
  else Ok (EP true (at_effect attempt) (at_planDigest attempt) (at_id attempt) (at_purpose attempt)
              (at_compensation attempt) (ep_key <$> at_cancellationTarget attempt) (at_state attempt)
              (attemptLatestAt attempt)).

(** ** Retry gate *)

Record RetryProof := RP {
  rp_initialized : bool;
  rp_effect : EffectKey;
  rp_fingerprint : RequestFingerprint;
  rp_adapterVersion : string;
  rp_validUntil : time;
  rp_evidence : digestValue;
}.

Definition NewRetryProof (effect : EffectKey) (fingerprint : RequestFingerprint) (adapterVersion : string)
    (validUntil : time) (canonicalEvidence : string) : result error RetryProof :=
  until ← of_option (normalizeTime validUntil) ErrRetryForbidden;
  fail_if (negb (ValidateEffectKey effect) || negb (dv_initialized fingerprint)
           || negb (validVersion adapterVersion) || (slen canonicalEvidence =? 0)
           || (MaxEvidenceBytes <? slen canonicalEvidence)) ErrRetryForbidden;;
  Ok (RP true effect fingerprint adapterVersion until (digestFromHasher
    ["veer.reconciliation.retry-proof.v1"; ContractVersion; dv_digest (ek_digest effect); dv_digest fingerprint;
     adapterVersion; put_uint64 (unix_milli until); canonicalEvidence])).

Definition validRetryProof (value : RetryProof) : bool :=
  rp_initialized value && ValidateEffectKey (rp_effect value) && dv_initialized (rp_fingerprint value) &&
  validVersion (rp_adapterVersion value) && negb (is_zero (rp_validUntil value)) &&
  dv_initialized (rp_evidence value).

Definition CheckRetry (databaseTime : time) (projection : EffectProjection) (fingerprint : RequestFingerprint)
    (proof : option RetryProof) : result error unit :=
  now ← of_option (normalizeTime databaseTime) ErrRetryForbidden;
  fail_if (negb (validateEffectProjection projection) || negb (dv_initialized fingerprint)
           || before now (ep_updatedAt projection)) ErrRetryForbidden;;
  match ep_state projection with
  | AttemptStateNoEffect => fail_if (is_some proof) ErrRetryForbidden
  | AttemptStateIndeterminate =>
      match proof with
      | None => Err ErrRetryForbidden
      | Some p => fail_if (negb (validRetryProof p) || negb (EffectKey_Equal (rp_effect p) (ep_key projection))
                           || negb (equalDigest (rp_fingerprint p) fingerprint)
                           || negb (before now (rp_validUntil p))) ErrRetryForbidden
      end
  | _ => Err ErrRetryForbidden
  end.

(** ** Generation gate *)

Record SafeSupersessionProof := SSP {
  sp_initialized : bool;
  sp_prior : EffectKey;
  sp_candidate : EffectKey;
  sp_adapterVersion : string;
  sp_evidence : digestValue;
}.

Definition NewSafeSupersessionProof (prior candidate : EffectKey) (adapterVersion canonicalEvidence : string)
    : result error SafeSupersessionProof :=
  fail_if (negb (ValidateEffectKey prior) || negb (ValidateEffectKey candidate)
           || negb (String.eqb (ek_workspaceID prior) (ek_workspaceID candidate))
           || negb (String.eqb (ek_resourceID prior) (ek_resourceID candidate))
           || (ek_generation candidate <=? ek_generation prior) || negb (validVersion adapterVersion)
           || (slen canonicalEvidence =? 0) || (MaxEvidenceBytes <? slen canonicalEvidence))
    ErrInvalidSupersessionProof;;
  Ok (SSP true prior candidate adapterVersion (digestFromHasher
    ["veer.reconciliation.supersession-proof.v1"; ContractVersion; dv_digest (ek_digest prior);
     dv_digest (ek_digest candidate); adapterVersion; canonicalEvidence])).

Definition validSupersessionProof (value : SafeSupersessionProof) : bool :=
  sp_initialized value && ValidateEffectKey (sp_prior value) && ValidateEffectKey (sp_candidate value) &&
  String.eqb (ek_workspaceID (sp_prior value)) (ek_workspaceID (sp_candidate value)) &&
  String.eqb (ek_resourceID (sp_prior value)) (ek_resourceID (sp_candidate value)) &&
  (ek_generation (sp_prior value) <? ek_generation (sp_candidate value)) &&
  validVersion (sp_adapterVersion value) && dv_initialized (sp_evidence value).

(** First loop: index the proofs by the spelling of the prior effect. *)
Fixpoint index_proofs (candidate : EffectKey) (proofs : list SafeSupersessionProof)
    (index : gmap string SafeSupersessionProof) : result error (gmap string SafeSupersessionProof) :=
  match proofs with
  | [] => Ok index
  | proof :: rest =>
      fail_if (negb (validSupersessionProof proof) || negb (EffectKey_Equal (sp_candidate proof) candidate))
        ErrGenerationBlocked;;
      let key := EffectKey_String (sp_prior proof) in
      fail_if (is_some (index !! key)) ErrGenerationBlocked;;
      index_proofs candidate rest (<[key := proof]> index)
  end.

(** Second loop: every prior effect is definitive or consumes its proof. *)
Fixpoint check_priors (candidate : EffectKey) (prior : list EffectProjection) (seen : gset string)
    (index : gmap string SafeSupersessionProof) : result error (gmap string SafeSupersessionProof) :=
  match prior with
  | [] => Ok index
  | projection :: rest =>
      fail_if (negb (validateEffectProjection projection)
               || negb (String.eqb (ek_workspaceID (ep_key projection)) (ek_workspaceID candidate))
               || negb (String.eqb (ek_resourceID (ep_key projection)) (ek_resourceID candidate))
               || (ek_generation candidate <=? ek_generation (ep_key projection))) ErrGenerationBlocked;;
      let key := EffectKey_String (ep_key projection) in
      fail_if (bool_decide (key ∈ seen)) ErrGenerationBlocked;;
      let seen' := {[key]} ∪ seen in
      if bool_decide (ep_state projection = AttemptStateApplied)
         || bool_decide (ep_state projection = AttemptStateNoEffect)
      then check_priors candidate rest seen' index
      else match index !! key with
           | None => Err ErrGenerationBlocked
           | Some proof =>
               fail_if (negb (EffectKey_Equal (sp_prior proof) (ep_key projection))) ErrGenerationBlocked;;
               check_priors candidate rest seen' (delete key index)
           end
  end.

Definition CheckGenerationDispatch (candidate : EffectKey) (prior : list EffectProjection)
    (proofs : list SafeSupersessionProof) : result error unit :=
  fail_if (negb (ValidateEffectKey candidate) || (MaxEffectsPerOperation <? llen prior)
           || (MaxEffectsPerOperation <? llen proofs)) ErrGenerationBlocked;;
  index ← index_proofs candidate proofs ∅;
  remaining ← check_priors candidate prior ∅ index;
  fail_if (negb (Z.of_nat (size remaining) =? 0)) ErrGenerationBlocked.

Definition compensationStepMatchesPlan (step : CompensationStep) (plan : Plan) (effect : EffectKey) : bool :=
  if negb (validCompensationStep step) || negb (bool_decide (pl_kind plan = PlanKindCompensation))
     || negb (equalDigest (cs_planDigest step) (pl_digest plan)) || negb (EffectKey_Equal (cs_inverse step) effect)
  then false
  else negb (existsb (fun original => EffectKey_Equal original (cs_inverse step)) (pl_compensates plan)) &&
       existsb (fun original => EffectKey_Equal original (cs_original step)) (pl_compensates plan).
