(* ===== verification/LeaseProps.v ===== *)
(** * Fencing safety of the lease table over whole histories

    A world is the shared heap, the table and every value its calls returned.
    Callers are arbitrary: a call may present any token, authority or permit
    at any sampled time.  The invariant [lease_inv] relates the table to all
    tokens issued so far; the theorems are its consequences. *)

From S2P Require Import Prelude Bytes Sha256 GoTime Atomics Closed Vocabulary Digests Plan PlanProps.
From S2P Require Import Lease LeaseSpec Attempt.
From Stdlib Require Import String.

#[global] Arguments leaseRowKey : simpl never.

(** ** Histories *)

Inductive lease_call :=
| CallAcquire (now : time) (binding : LeaseBinding) (owner : ID)
| CallReplace (now : time) (authority : LeaseReplacementAuthority) (owner : ID)
| CallRenew (now : time) (token : LeaseToken)
| CallSurrender (now : time) (token : LeaseToken)
| CallCommit (now : time) (token : LeaseToken) (bundle : TransitionBundle)
| CallDispatch (now : time) (token : LeaseToken) (rpcTimeout : Z) (authority : DispatchAuthority)
| CallMark (a : Attempt) (permit : DispatchPermit) (now : time).

Inductive lease_reply :=
| RToken (token : LeaseToken)
| RDone
| RPermit (permit : DispatchPermit)
| RAttempt (a : Attempt).

Definition reply {A} (f : A -> lease_reply) (m : SharedM A) : SharedM lease_reply :=
  a ← m; mret (f a).

Definition run_call (c : lease_call) : SharedM lease_reply :=
  match c with
  | CallAcquire now b o => reply RToken (on_table (LeaseTable_Acquire now b o))
  | CallReplace now a o => reply RToken (LeaseTable_AcquireReplacement now a o)
  | CallRenew now tok => reply RToken (on_table (LeaseTable_Renew now tok))
  | CallSurrender now tok => reply (fun _ => RDone) (on_table (LeaseTable_Surrender now tok))
  | CallCommit now tok b => reply (fun _ => RDone) (on_table (LeaseTable_AuthorizeCommit now tok b))
  | CallDispatch now tok rpc a => reply RPermit (LeaseTable_AuthorizeDispatch now tok rpc a)
  | CallMark a p now => reply RAttempt (LeaseTable_MarkAttemptDispatched a p now)
  end.

Record world := World { w_heap : heap; w_table : LeaseTable; w_issued : list lease_reply }.

Definition world_step (w : world) (c : lease_call) : world :=
  match run_call c (w_heap w, w_table w) with
  | (Ok rep, (h, t)) => World h t (rep :: w_issued w)
  | (Err _, (h, t)) => World h t (w_issued w)
  end.

Definition history (w : world) (cs : list lease_call) : world := foldl world_step w cs.

Definition reply_token (rep : lease_reply) : option LeaseToken :=
  match rep with
  | RToken tok => Some tok
  | RPermit p => Some (dp_token p)
  | RDone | RAttempt _ => None
  end.

Definition token_issued (w : world) (tok : LeaseToken) : Prop :=
  exists rep, rep ∈ w_issued w /\ reply_token rep = Some tok.

(** A world just after [NewLeaseTable]. *)
Definition fresh_world (w : world) : Prop :=
  exists maximum h, NewLeaseTable maximum h = (Ok (w_table w), w_heap w) /\ w_issued w = [].

(** ** The last method: entering provider I/O *)

Lemma Mark_spec a permit dt h t r h' t' :
  LeaseTable_MarkAttemptDispatched a permit dt (h, t) = (r, (h', t')) ->
  table_step false t t' /\
  (forall a', r = Ok a' -> exists now row l, normalizeTime dt = Some now /\ held_by t now (dp_token permit) row /\
     ValidateAttempt a = true /\ at_state a = AttemptStatePrepared /\
     a' = attempt_moved a AttemptStateDispatched now (at_resolvedAt a) /\
     at_preparedAt a <= now /\ dp_authorizedAt permit <= now < dp_deadline permit /\
     (at_retryValidUntil a <> 0 -> now < at_retryValidUntil a) /\
     (at_observationDeadline a <> 0 -> now < at_observationDeadline a) /\
     equalDigest (dp_attemptBinding permit) (deriveAttemptDispatchBinding a) = true /\
     tk_ownerID (dp_token permit) = at_ownerID a /\ tk_fence (dp_token permit) = at_fence a /\
     dp_use permit = Some l /\ load_bool h l = false /\ load_bool h' l = true /\ tk_table (dp_token permit) = lt_identity t).
Proof.
  unfold LeaseTable_MarkAttemptDispatched. unfold_run. unfold on_table at 1. simpl.
  destruct (negb (lt_initialized t) || _ || _ || _ || _ || _ || _ || _) eqn:G;
    [intros [= <- <- <-]; split; [constructor|done]|].
  destruct (negb (loc_eqb _ _)) eqn:G2; [intros [= <- <- <-]; split; [constructor|done]|].
  destruct (normalizeTime dt) as [now|] eqn:Hn; [|intros [= <- <- <-]; split; [constructor|done]].
  pose proof (normalizeTime_normal _ _ Hn) as Hnormal.
  destruct (before now (at_preparedAt a) || _ || _ || _ || _) eqn:Hw;
    [intros [= <- <- <-]; split; [constructor|done]|].
  unfold on_table.
  destruct (observeNowLocked _ now t) as [[row|e] t1] eqn:Hobs;
    [|intros [= <- <- <-]; apply observeNow_err in Hobs as ->; split; [constructor|done]].
  apply observeNow_ok in Hobs as (r0 & Hl & Hle & -> & ->); [|done].
  destruct (require_current _ _ _) as [[row|e] t2] eqn:Hc.
  2:{ intros [= <- <- <-]. apply require_current_err in Hc as ->. split; [by apply observed_step|done]. }
  apply require_current_ok in Hc as (-> & _ & Hl' & Hlive & Ho & Hf & Hb & _). simpl in Hl'.
  rewrite lookup_insert_eq in Hl'. injection Hl' as <-.
  destruct (use_once _ _ _) as [[[]|e] [h2 t2]] eqn:Hu.
  2:{ intros [= <- <- <-]. apply use_once_frame in Hu as [-> _]. split; [by apply observed_step|done]. }
  apply use_once_ok in Hu as (-> & l & Hcell & Hfalse & Htrue & Hcas).
  intros [= <- <- <-]. split; [by apply observed_step|].
  intros a' [= <-]. exists now, r0, l. autorewrite with guards in G, Hw. destruct_and!.
  simpl in *. split_and!; try done; try lia.
  - intros Hz. destruct (is_zero (at_retryValidUntil a)) eqn:E; simpl in *; autorewrite with guards in *; lia.
  - intros Hz. destruct (is_zero (at_observationDeadline a)) eqn:E; simpl in *; autorewrite with guards in *; lia.
  - by apply equalDigest_true.
  - unfold loc_eqb in G2. by guards_in G2.
Qed.

(** ** Flags only grow *)

Definition grows {A} (m : SharedM A) : Prop := forall s r s', m s = (r, s') -> heap_le s.1 s'.1.

Lemma grows_bind {A B} (m : SharedM A) (f : A -> SharedM B) :
  grows m -> (forall a, grows (f a)) -> grows (m ≫= f).
Proof.
  intros Hm Hf s r s'. unfold mbind, ST_bind. destruct (m s) as [[a|e] s1] eqn:E.
  - intros H. etrans; [exact (Hm _ _ _ E) | exact (Hf _ _ _ _ H)].
  - intros [= <- <-]. exact (Hm _ _ _ E).
Qed.

Lemma grows_lift {A} (r : result error A) : grows (lift r).
Proof. by intros s r' s' [= <- <-]. Qed.
Lemma grows_reject b e : grows (reject b e).
Proof. by intros s r' s' [= <- <-]. Qed.
Lemma grows_ret {A} (a : A) : grows (mret a).
Proof. by intros s r' s' [= <- <-]. Qed.
Lemma grows_on_table {A} (m : LeaseM A) : grows (on_table m).
Proof. intros [h t] r s'. unfold on_table. destruct (m t). by intros [= <- <-]. Qed.
Lemma grows_use_once c e : grows (use_once c e).
Proof. intros [h t] r [h' t'] H. by apply use_once_frame in H as [_ ?]. Qed.
Lemma grows_alloc_bool : grows alloc_bool.
Proof. intros [h t] r s'. rewrite alloc_bool_run. intros [= <- <-]. apply new_bool_le. Qed.
(** Publication is guarded: it only raises a counter that reads zero. *)
Lemma grows_publish {A} c e (m : LeaseM unit) (a : A) :
  grows (transition_pending c e ≫= fun _ => on_table m ≫= fun _ => publish_transition c ≫= fun _ => mret a).
Proof.
  intros [h t] r s'. unfold transition_pending, publish_transition, on_table, mbind, ST_bind, mret, ST_ret.
  destruct c as [l|]; [destruct (Z.eqb_spec (load_word h l) 0); simpl|]; destruct (m t) as [[u|e'] t'];
    intros [= <- <-]; try done. apply store_word_le. lia.
Qed.

Create HintDb heap_grows.
#[export] Hint Resolve grows_lift grows_reject grows_ret grows_on_table grows_use_once grows_alloc_bool
  : heap_grows.
#[export] Hint Extern 1 (grows (transition_pending _ _ ≫= _)) => apply grows_publish : heap_grows.
#[export] Hint Extern 2 (grows (_ ≫= _)) => apply grows_bind; [|intros] : heap_grows.

Lemma run_call_grows c : grows (run_call c).
Proof.
  destruct c; simpl; unfold reply, LeaseTable_AcquireReplacement, LeaseTable_AuthorizeDispatch,
    LeaseTable_MarkAttemptDispatched; auto 40 with heap_grows.
Qed.

(** ** Every call refines the protocol *)

Lemma reply_run {A} (f : A -> lease_reply) (m : SharedM A) s r s' :
  reply f m s = (r, s') -> exists r0, m s = (r0, s') /\
    match r0 with Ok a => r = Ok (f a) | Err e => r = Err e end.
Proof. unfold reply. unfold_run. destruct (m s) as [[a|e] s1]; intros [= <- <-]; by eexists. Qed.

Lemma on_table_run {A} (m : LeaseM A) h t r s' :
  on_table m (h, t) = (r, s') -> exists t', m t = (r, t') /\ s' = (h, t').
Proof. unfold on_table. destruct (m t). intros [= <- <-]. eauto. Qed.

(** The protocol step of a call is a surrender only if the call is a
    [Surrender] that succeeded. *)
Definition surrenders {A} (c : lease_call) (r : result error A) : bool :=
  match c with CallSurrender _ _ => result_ok r | _ => false end.

Lemma run_call_spec c h t r h' t' :
  keyed t -> run_call c (h, t) = (r, (h', t')) ->
  table_step (surrenders c r) t t' /\ (forall rep tok, r = Ok rep -> reply_token rep = Some tok -> issues t' tok).
Proof.
  intros Hk H. destruct c; simpl in H; apply reply_run in H as (r0 & H & Hr);
    try (apply on_table_run in H as (t1 & H & [= -> ->])).
  - apply Acquire_spec in H as [Hs Hi]; [|done]. split; [done|]. destruct r0; [|naive_solver].
    intros rep tok. destruct (Hi _ eq_refl) as (? & ? & ? & ?). naive_solver.
  - apply Replace_spec in H as [Hs Hi]; [|done]. split; [done|]. destruct r0; [|naive_solver].
    intros rep tok. destruct (Hi _ eq_refl) as (? & ? & ? & ? & ?). naive_solver.
  - apply Renew_spec in H as [Hs Hi]. split; [done|]. destruct r0; [|naive_solver].
    intros rep tok. destruct (Hi _ eq_refl) as (? & ? & ?). naive_solver.
  - apply Surrender_spec in H as [Hs Hi]. destruct r0; subst r; (split; [done|naive_solver]).
  - apply Commit_spec in H as [Hs Hi]. split; [done|]. destruct r0; naive_solver.
  - apply Dispatch_spec in H as [Hs Hi]. split; [done|]. destruct r0; [|naive_solver].
    intros rep tok. destruct (Hi _ eq_refl) as (? & ? & ? & ?). naive_solver.
  - apply Mark_spec in H as [Hs Hi]. split; [done|]. destruct r0; naive_solver.
Qed.

(** ** Invariant *)

(** An issued token against its row: the fence has not gone back, and while
    it is still the row's fence, the row has the token's binding and its owner
    (or nobody, once surrendered). *)
Definition token_ok (t : LeaseTable) (tok : LeaseToken) : Prop :=
  tk_table tok = lt_identity t /\ tk_ownerID tok <> "" /\
  exists r, lt_rows t !! leaseRowKey (tk_binding tok) = Some r /\ tk_fence tok <= lr_fence r /\
    (tk_fence tok = lr_fence r ->
     lr_binding r = tk_binding tok /\ (lr_ownerID r = "" \/ lr_ownerID r = tk_ownerID tok)).

Definition same_holder (a b : LeaseToken) : Prop :=
  leaseRowKey (tk_binding a) = leaseRowKey (tk_binding b) -> tk_fence a = tk_fence b ->
  tk_binding a = tk_binding b /\ tk_ownerID a = tk_ownerID b.

(** A lease never outlives its last observation by more than its duration. *)
Definition row_bounded (r : leaseRow) : Prop := lr_expiresAt r <= lr_observedAt r + StoreLeaseDuration.

Record table_inv (t : LeaseTable) : Prop := {
  ti_keyed : keyed t;
  ti_bounded : map_Forall (fun _ => row_bounded) (lt_rows t);
  ti_size : Z.of_nat (size (lt_rows t)) <= lt_maximum t;
}.

Record lease_inv (w : world) : Prop := {
  li_table : table_inv (w_table w);
  li_tokens : forall tok, token_issued w tok -> token_ok (w_table w) tok;
  li_unique : forall a b, token_issued w a -> token_issued w b -> same_holder a b;
}.

Lemma row_step_fence s now r r' : row_step s now r r' -> lr_fence r <= lr_fence r' <= lr_fence r + 1.
Proof. destruct 1; simpl; lia. Qed.

(** The relation between a row and any later state of it. *)
Definition row_advances (r r' : leaseRow) : Prop :=
  lr_fence r <= lr_fence r' /\ lr_observedAt r <= lr_observedAt r' /\
  leaseRowKey (lr_binding r') = leaseRowKey (lr_binding r) /\
  lb_generation (lr_binding r) <= lb_generation (lr_binding r') /\
  (lr_fence r = lr_fence r' -> lr_binding r' = lr_binding r /\
     (lr_ownerID r' = lr_ownerID r \/ lr_ownerID r' = "")).

#[export] Instance row_advances_preorder : PreOrder row_advances.
Proof.
  split; unfold row_advances.
  - intros r. split_and!; try lia; try done. intros _. split; [done|by left].
  - intros a b c (? & ? & ? & ? & Hab) (? & ? & ? & ? & Hbc). split_and!; try lia; try congruence.
    intros Heq. destruct Hab as [? Ho1]; [lia|]. destruct Hbc as [? Ho2]; [lia|]. split; [congruence|].
    destruct Ho1, Ho2; [left|right|right|right]; congruence.
Qed.

Lemma movesForward_generation c d :
  leaseBindingMovesForward c d = true -> lb_generation c <= lb_generation d.
Proof.
  unfold leaseBindingMovesForward. destruct (Z.ltb_spec (lb_generation d) (lb_generation c)); [done|lia].
Qed.

Lemma row_step_advances s now r r' : row_step s now r r' -> row_advances r r'.
Proof.
  unfold row_advances. destruct 1 as [| | |b owner ? ? ? ? ? Hkey Hb]; simpl; split_and!; try done; try lia;
    try (intros _; split; [done|]; by (left + right)).
  destruct Hb as [->|Hb]; [lia|]. by apply movesForward_generation.
Qed.

Lemma lease_duration_pos : 0 < StoreLeaseDuration.
Proof. vm_compute. done. Qed.

Lemma row_step_bounded s now r r' : row_bounded r -> row_step s now r r' -> row_bounded r'.
Proof. unfold row_bounded. pose proof lease_duration_pos. destruct 2; simpl; lia. Qed.

(** What one protocol step does to the row under a given key. *)
Lemma table_step_lookup s t t' key r :
  table_step s t t' -> lt_rows t !! key = Some r ->
  exists r', lt_rows t' !! key = Some r' /\ (r' = r \/ exists now, normal now /\ row_step s now r r').
Proof.
  destruct 1 as [|k now r0 r1 Hk Hn Hstep|now b o Hk Hn Hsz Ho Hb]; simpl; intros Hl.
  - eauto.
  - destruct (decide (k = key)) as [->|Hne].
    + rewrite lookup_insert_eq. assert (r0 = r) as -> by congruence. eauto 6.
    + rewrite lookup_insert_ne by done. eauto.
  - rewrite lookup_insert_ne by congruence. eauto.
Qed.

Lemma table_step_frame s t t' :
  table_step s t t' -> lt_identity t' = lt_identity t /\ lt_maximum t' = lt_maximum t /\
    lt_initialized t' = lt_initialized t.
Proof. by destruct 1. Qed.

Lemma table_step_advances s t t' key r :
  table_step s t t' -> lt_rows t !! key = Some r ->
  exists r', lt_rows t' !! key = Some r' /\ row_advances r r'.
Proof.
  intros Hs Hl. destruct (table_step_lookup _ _ _ _ _ Hs Hl) as (r' & Hl' & [->|(now & _ & Hr)]).
  - by exists r.
  - exists r'. split; [done|]. by eapply row_step_advances.
Qed.

Lemma table_step_inv s t t' : table_inv t -> table_step s t t' -> table_inv t'.
Proof.
  intros [Hk Hb Hsz] [|key now r r' Hl Hn Hstep|now b o Hl Hn Hlt Ho Hvb]; [done| |]; split; simpl.
  - intros k x. simpl. destruct (decide (key = k)) as [->|Hne].
    + rewrite lookup_insert_eq. intros [= <-]. destruct (Hk _ _ Hl) as [Hkey Hf].
      pose proof (row_step_advances _ _ _ _ Hstep) as (_ & _ & Hkey' & _ & _).
      split; [congruence|]. destruct Hstep; simpl in *; lia.
    + rewrite lookup_insert_ne by done. apply Hk.
  - apply map_Forall_insert_2; [|done]. eapply row_step_bounded; [|done]. by apply (Hb key).
  - rewrite map_size_insert_Some by eauto. done.
  - intros k x. simpl. destruct (decide (leaseRowKey b = k)) as [<-|Hne].
    + rewrite lookup_insert_eq. intros [= <-]. split; [done|]. vm_compute. split; discriminate.
    + rewrite lookup_insert_ne by done. apply Hk.
  - apply map_Forall_insert_2; [|done]. unfold row_bounded. simpl. lia.
  - rewrite map_size_insert_None by done. lia.
Qed.

Lemma token_ok_step s t t' tok : token_ok t tok -> table_step s t t' -> token_ok t' tok.
Proof.
  intros (Hid & Ho & r & Hl & Hle & Heq) Hs.
  destruct (table_step_advances _ _ _ _ _ Hs Hl) as (r' & Hl' & Hadv).
  destruct Hadv as (Hf & _ & _ & _ & Hsame). destruct (table_step_frame _ _ _ Hs) as (Hid' & _).
  split; [congruence|]. split; [done|]. exists r'. split; [done|]. split; [lia|].
  intros Hfe. destruct Heq as [Hb Hown]; [lia|]. destruct Hsame as [Hb' Hown']; [lia|].
  split; [congruence|]. destruct Hown as [E|E], Hown' as [E'|E']; rewrite ?E', ?E; auto.
Qed.

Lemma issues_ok t tok : issues t tok -> token_ok t tok.
Proof.
  intros (r & Hl & -> & Ho). split; [done|]. split; [done|]. exists r. split; [done|]. simpl.
  split; [lia|]. intros _. split; [done|by right].
Qed.

(** A token issued now and one issued before can share a fence only if they
    name the same binding and owner. *)
Lemma issues_same_holder t a b : issues t a -> token_ok t b -> same_holder a b.
Proof.
  intros (r & Hl & Ha & Ho) (_ & _ & r' & Hl' & _ & Heq) Hkey Hf.
  assert (r' = r) as -> by congruence. subst a. simpl in *.
  destruct Heq as [Hb [Hn|Hn]]; [lia|congruence|]. split; congruence.
Qed.

Lemma same_holder_sym a b : same_holder a b -> same_holder b a.
Proof. unfold same_holder. intros H Hk Hf. symmetry in Hk, Hf. destruct (H Hk Hf). done. Qed.

Lemma token_issued_cons w rep h t tok :
  token_issued (World h t (rep :: w_issued w)) tok ->
  reply_token rep = Some tok \/ token_issued w tok.
Proof. intros (rep' & Hin & Hr). simpl in Hin. set_unfold. unfold token_issued. naive_solver. Qed.

Lemma world_step_spec w c :
  table_inv (w_table w) ->
  table_step (surrenders c (run_call c (w_heap w, w_table w)).1) (w_table w) (w_table (world_step w c)) /\
  heap_le (w_heap w) (w_heap (world_step w c)) /\
  (forall tok, token_issued (world_step w c) tok ->
     token_issued w tok \/ issues (w_table (world_step w c)) tok) /\
  (exists new, w_issued (world_step w c) = new ++ w_issued w).
Proof.
  intros [Hk _ _]. unfold world_step.
  destruct (run_call c (w_heap w, w_table w)) as [[rep|e] [h t]] eqn:Hrun;
    pose proof (run_call_grows _ _ _ _ Hrun) as Hg; apply run_call_spec in Hrun as [Hs Hi]; try done; simpl in *.
  - split_and!; try done; [|by exists [rep]]. intros tok Htok.
    apply token_issued_cons in Htok as [Htok|Htok]; [right; by eapply Hi|by left].
  - split_and!; try done; [|by exists []]. intros tok Htok. by left.
Qed.

Lemma world_step_inv w c : lease_inv w -> lease_inv (world_step w c).
Proof.
  intros [Ht Htok Hu]. pose proof (world_step_spec w c Ht) as (Hs & _ & Hnew & _).
  assert (forall tok, token_issued (world_step w c) tok -> token_ok (w_table (world_step w c)) tok) as Hok.
  { intros tok H. destruct (Hnew tok H); [|by apply issues_ok]. eapply token_ok_step; eauto. }
  split; [by eapply table_step_inv|done|]. intros a b Ha Hb.
  destruct (Hnew a Ha) as [Ha'|Ha']; [|by eapply issues_same_holder, Hok].
  destruct (Hnew b Hb) as [Hb'|Hb']; [by apply Hu|].
  by eapply same_holder_sym, issues_same_holder, Hok.
Qed.

Lemma history_inv cs : forall w, lease_inv w -> lease_inv (history w cs).
Proof. induction cs as [|c cs IH]; simpl; auto using world_step_inv. Qed.

Lemma fresh_world_inv w : fresh_world w -> lease_inv w.
Proof.
  intros (maximum & h & Hnew & Hi). unfold NewLeaseTable in Hnew.
  destruct (Z.ltb_spec maximum 1); [done|]. simpl in Hnew. injection Hnew as Ht Hh.
  assert (forall tok, ~ token_issued w tok) as Hno.
  { intros tok (rep & Hin & _). rewrite Hi in Hin. set_solver. }
  split; [|naive_solver|naive_solver]. rewrite <- Ht. split; simpl.
  - intros key r. simpl. rewrite lookup_empty. done.
  - apply map_Forall_empty.
  - rewrite map_size_empty. lia.
Qed.

(** Along a history rows persist and advance, and used capabilities stay used. *)
Lemma history_advances cs : forall w key r,
  lease_inv w -> lt_rows (w_table w) !! key = Some r ->
  exists r', lt_rows (w_table (history w cs)) !! key = Some r' /\ row_advances r r'.
Proof.
  induction cs as [|c cs IH]; simpl; intros w key r Hinv Hl; [by exists r|].
  pose proof (world_step_spec w c (li_table w Hinv)) as (Hs & _).
  destruct (table_step_advances _ _ _ _ _ Hs Hl) as (r1 & Hl1 & Hadv).
  destruct (IH _ key r1 (world_step_inv _ c Hinv) Hl1) as (r2 & Hl2 & Hadv2).
  exists r2. split; [done|]. by etrans.
Qed.

Lemma history_grows cs : forall w, lease_inv w -> heap_le (w_heap w) (w_heap (history w cs)).
Proof.
  induction cs as [|c cs IH]; simpl; intros w Hinv; [done|].
  pose proof (world_step_spec w c (li_table w Hinv)) as (_ & Hg & _).
  etrans; [exact Hg|]. apply IH. by apply world_step_inv.
Qed.

(** ** Tokens that are presented *)

Definition presents (c : lease_call) : option LeaseToken :=
  match c with
  | CallAcquire _ _ _ | CallReplace _ _ _ => None
  | CallRenew _ tok | CallSurrender _ tok | CallCommit _ tok _ | CallDispatch _ tok _ _ => Some tok
  | CallMark _ p _ => Some (dp_token p)
  end.

Lemma presented_current c h t rep s' tok :
  run_call c (h, t) = (Ok rep, s') -> presents c = Some tok -> exists now row, held_by t now tok row.
Proof.
  destruct s' as [h' t']. intros H Hp.
  destruct c; simpl in H, Hp; injection Hp as <- || done; apply reply_run in H as (r0 & H & Hr);
    (destruct r0; [|done]); try (apply on_table_run in H as (t1 & H & [= -> ->])).
  - apply Renew_spec in H as [_ Hi]. destruct (Hi _ eq_refl) as (now' & row & Hx). exists now', row.
    unfold held_by. naive_solver.
  - pose proof H as H'. unfold LeaseTable_Surrender in H'. run_inv H'.
    match goal with Hn : normalizeTime _ = Some ?n |- _ => pose proof (normalizeTime_normal _ _ Hn) end.
    match goal with Ho : observeNowLocked _ _ _ = _ |- _ => apply observeNow_ok in Ho as (r0 & ? & ? & -> & ->); [|done] end.
    match goal with Hc : require_current _ _ _ = _ |- _ =>
      apply require_current_ok in Hc as (-> & _ & Hl' & Hlive & ? & ? & ? & _) end.
    simpl in Hl'. rewrite lookup_insert_eq in Hl'. injection Hl' as <-. eexists _, r0. by split_and!.
  - apply Commit_spec in H as [_ Hi]. destruct a. naive_solver.
  - apply Dispatch_spec in H as [_ Hi]. destruct (Hi _ eq_refl) as (now' & row & l & _ & Hh & _). eauto.
  - apply Mark_spec in H as [_ Hi]. destruct (Hi _ eq_refl) as (now' & row & l & _ & Hh & _). eauto.
Qed.

Lemma lower_fence_rejected c h t tok r :
  presents c = Some tok -> lt_rows t !! leaseRowKey (tk_binding tok) = Some r -> tk_fence tok < lr_fence r ->
  exists e s', run_call c (h, t) = (Err e, s').
Proof.
  intros Hp Hl Hf. destruct (run_call c (h, t)) as [[rep|e] s'] eqn:Hrun; [|eauto].
  destruct (presented_current _ _ _ _ _ _ Hrun Hp) as (now & row & Hl' & _ & _ & _ & Hfe & _).
  rewrite Hl in Hl'. injection Hl' as <-. lia.
Qed.

(** ** The window a dispatch permit protects *)

(** Up to instant [limit], fence [f] is either still held or was replaced
    only after it. *)
Definition window_kept (f limit : Z) (r : leaseRow) : Prop :=
  (lr_fence r = f /\ lr_ownerID r <> "" /\ limit < lr_expiresAt r) \/
  (f < lr_fence r /\ limit < lr_observedAt r).

Lemma window_row_step f limit now r r' :
  row_bounded r -> window_kept f limit r -> row_step false now r r' -> window_kept f limit r'.
Proof.
  unfold window_kept, row_bounded. intros Hb Hw Hs.
  destruct Hs as [|? [? ?]| |b owner ? Hfree ? Hv ? ? ?]; simpl in *; try done; [intuition lia|intuition lia|].
  right. destruct Hw as [(<- & Ho & Hlim)|[Hf Hlim]]; [|lia].
  destruct Hfree as [?|?]; [done|lia].
Qed.

Lemma window_row_later s f limit now r r' :
  f < lr_fence r -> limit < lr_observedAt r -> row_step s now r r' -> window_kept f limit r'.
Proof. unfold window_kept. intros Hf Hl Hs. right. destruct Hs; simpl; lia. Qed.

(** A call that is not a surrender of this very fence. *)
Definition not_surrender_of (key : string) (f : Z) (c : lease_call) : Prop :=
  match c with
  | CallSurrender _ tok => leaseRowKey (tk_binding tok) = key -> tk_fence tok <> f
  | _ => True
  end.

Lemma window_world_step w c key f limit r :
  lease_inv w -> lt_rows (w_table w) !! key = Some r -> window_kept f limit r -> not_surrender_of key f c ->
  exists r', lt_rows (w_table (world_step w c)) !! key = Some r' /\ window_kept f limit r'.
Proof.
  intros Hinv Hl Hw Hc. pose proof (world_step_spec w c (li_table w Hinv)) as (Hs & _).
  destruct (surrenders c (run_call c (w_heap w, w_table w)).1) eqn:Hsur.
  - destruct c as [| | |dt tok| | |]; try done. simpl in Hsur, Hc.
    assert (exists rep s', run_call (CallSurrender dt tok) (w_heap w, w_table w) = (Ok rep, s')) as (rep & s' & Hrun).
    { simpl. destruct (reply _ _ _) as [[rep|e] s'] eqn:E; [eauto|done]. }
    destruct (presented_current _ _ _ _ _ _ Hrun eq_refl) as (now & row & Hlr & _ & _ & _ & Hf & _).
    destruct (decide (leaseRowKey (tk_binding tok) = key)) as [Hk|Hk].
    + destruct (table_step_lookup _ _ _ _ _ Hs Hl) as (r' & Hl' & [->|(n & _ & Hrs)]); [eauto|].
      exists r'. split; [done|]. rewrite Hk, Hl in Hlr. injection Hlr as <-.
      destruct Hw as [(Hfe & _)|[? ?]]; [naive_solver|]. by eapply window_row_later.
    + unfold world_step. simpl in Hrun. apply reply_run in Hrun as (r0 & Hrun & Hr0).
      pose proof Hrun as Hcall. destruct r0; [|done].
      apply on_table_run in Hrun as (t1 & Hrun & ->). apply Surrender_spec in Hrun as [_ Hspec].
      destruct a. destruct (Hspec eq_refl) as (n & row' & _ & _ & _ & _ & _ & Ht).
      simpl. unfold reply. unfold_run. rewrite Hcall. simpl. subst t1. simpl.
      exists r. by rewrite lookup_insert_ne.
  - destruct (table_step_lookup _ _ _ _ _ Hs Hl) as (r' & Hl' & [->|(n & _ & Hrs)]); [eauto|].
    exists r'. split; [done|]. eapply window_row_step; [|done|done].
    by apply (ti_bounded _ (li_table w Hinv) key).
Qed.

Lemma window_history cs : forall w key f limit r,
  lease_inv w -> lt_rows (w_table w) !! key = Some r -> window_kept f limit r ->
  Forall (not_surrender_of key f) cs ->
  exists r', lt_rows (w_table (history w cs)) !! key = Some r' /\ window_kept f limit r'.
Proof.
  induction cs as [|c cs IH]; simpl; intros w key f limit r Hinv Hl Hw Hcs; [eauto|].
  inversion Hcs as [|? ? Hc Hcs']; subst.
  destruct (window_world_step w c key f limit r Hinv Hl Hw Hc) as (r1 & Hl1 & Hw1).
  apply (IH _ _ _ _ r1); auto using world_step_inv.
Qed.

(** A row found by an acquisition gives back the protected window. *)
Lemma window_acquired f limit t now key r fence :
  lt_rows t !! key = Some r -> window_kept f limit r -> acquired_from t now key fence -> limit < now.
Proof.
  unfold window_kept, acquired_from, row_free. intros -> Hw (Hfree & Hobs & _). intuition lia.
Qed.

(** ** One-use capabilities *)

Definition capability (c : lease_call) : option loc :=
  match c with
  | CallReplace _ a _ => ra_use a
  | CallDispatch _ _ _ a => da_use a
  | CallMark _ p _ => dp_use p
  | _ => None
  end.

Lemma capability_spent c h t rep s' l :
  keyed t -> run_call c (h, t) = (Ok rep, s') -> capability c = Some l ->
  load_bool h l = false /\ load_bool s'.1 l = true.
Proof.
  destruct s' as [h' t']. intros Hk H Hc.
  destruct c; simpl in H, Hc; try done; apply reply_run in H as (r0 & H & Hr); (destruct r0; [|done]).
  - apply Replace_spec in H as [_ Hi]; [|done]. destruct (Hi _ eq_refl) as (? & l' & Hx). naive_solver.
  - apply Dispatch_spec in H as [_ Hi]. destruct (Hi _ eq_refl) as (? & ? & l' & Hx). naive_solver.
  - apply Mark_spec in H as [_ Hi]. destruct (Hi _ eq_refl) as (? & ? & l' & Hx). naive_solver.
Qed.

(** ** Acquisition as a whole *)

Definition takes_over (key : string) (dt : time) (c : lease_call) : Prop :=
  match c with
  | CallAcquire dt' b _ => dt' = dt /\ leaseRowKey b = key
  | CallReplace dt' a _ => dt' = dt /\ leaseRowKey (ra_expected a) = key
  | _ => False
  end.

Lemma takes_over_from c h t rep s' key dt :
  keyed t -> takes_over key dt c -> run_call c (h, t) = (Ok rep, s') ->
  exists now fence, normalizeTime dt = Some now /\ acquired_from t now key fence.
Proof.
  destruct s' as [h' t']. intros Hk Hc H.
  destruct c; simpl in H, Hc; try done; destruct Hc as [-> <-]; apply reply_run in H as (r0 & H & Hr);
    (destruct r0; [|done]); try (apply on_table_run in H as (t1 & H & [= -> ->])).
  - apply Acquire_spec in H as [_ Hi]; [|done]. destruct (Hi _ eq_refl) as (n & ? & _ & ? & _). eauto.
  - apply Replace_spec in H as [_ Hi]; [|done]. destruct (Hi _ eq_refl) as (n & l & ? & _ & ? & _). eauto.
Qed.

(** The exact condition under which [Acquire] grants a lease. *)
Definition can_acquire (t : LeaseTable) (b : LeaseBinding) (now : time) : Prop :=
  is_Some (addNormalizedDuration now StoreLeaseDuration) /\
  match lt_rows t !! leaseRowKey b with
  | None => Z.of_nat (size (lt_rows t)) < lt_maximum t
  | Some r => lr_observedAt r <= now /\ lr_binding r = b /\ row_free now r /\ lr_fence r < MaxFence
  end.

Lemma free_guard_iff r now :
  row_free now r -> negb (String.eqb (lr_ownerID r) "") && before now (lr_expiresAt r) = false.
Proof.
  unfold row_free. intros [->|H]; [done|]. apply andb_false_iff. right. by apply before_false.
Qed.

Lemma observeNow_run key now t r :
  normal now -> lt_rows t !! key = Some r -> lr_observedAt r <= now ->
  observeNowLocked key now t = (Ok (row_observed now r), set_row key (row_observed now r) t).
Proof.
  intros Hn Hl Hle. unfold observeNowLocked. unfold_run. rewrite Hl.
  rewrite (proj2 (before_false now (lr_observedAt r)) Hle), andb_false_r.
  destruct (after now (lr_observedAt r)) eqn:E.
  - by rewrite write_row_run.
  - apply after_false in E. assert (now = lr_observedAt r) as -> by lia. unfold row_observed.
    destruct r. simpl in *. by rewrite set_row_same.
Qed.

Lemma Acquire_succeeds t dt b o now :
  keyed t -> lt_initialized t = true -> validateLeaseBinding b = true -> validID o = true ->
  normalizeTime dt = Some now -> can_acquire t b now ->
  exists tok t', LeaseTable_Acquire dt b o t = (Ok tok, t').
Proof.
  intros Hk Hi Hb Ho Hn [[e He] Hrow]. pose proof (normalizeTime_normal _ _ Hn) as Hnormal.
  unfold LeaseTable_Acquire. unfold_run. rewrite Hi, Hb, Ho, Hn, He. simpl.
  destruct (lt_rows t !! leaseRowKey b) as [r|] eqn:Hl.
  - destruct Hrow as (Hobs & Hbd & Hfree & Hf). rewrite (observeNow_run _ _ _ _ Hnormal Hl Hobs). simpl.
    assert (LeaseBinding_Equal (lr_binding r) b = true) as -> by (apply LeaseBinding_Equal_true; by subst b).
    apply free_guard_iff in Hfree. rewrite Hfree. simpl.
    assert (NextFence (lr_fence r) = Ok (lr_fence r + 1)) as ->.
    { apply NextFence_ok. destruct (Hk _ _ Hl). lia. }
    eauto.
  - rewrite (proj2 (Z.leb_gt _ _) Hrow). eauto.
Qed.

Lemma Acquire_requires t dt b o tok t' :
  keyed t -> LeaseTable_Acquire dt b o t = (Ok tok, t') ->
  lt_initialized t = true /\ validateLeaseBinding b = true /\ validID o = true /\
  exists now, normalizeTime dt = Some now /\ can_acquire t b now.
Proof.
  intros Hk H. pose proof H as Hspec. apply Acquire_spec in Hspec as [_ Hs]; [|done].
  destruct (Hs _ eq_refl) as (now & Hn & _ & Hfrom & _). unfold LeaseTable_Acquire in H. unfold_run.
  destruct (negb (lt_initialized t) || _ || _) eqn:G; [done|]. autorewrite with guards in G. destruct_and!.
  split_and!; try done. exists now. split; [done|]. rewrite Hn in H. unfold acquired_from in Hfrom.
  unfold can_acquire. destruct (lt_rows t !! leaseRowKey b) as [r|] eqn:Hl.
  - destruct Hfrom as (Hfree & Hobs & _ & Hf).
    rewrite (observeNow_run _ _ _ _ (normalizeTime_normal _ _ Hn) Hl Hobs) in H. simpl in H.
    destruct (LeaseBinding_Equal (lr_binding r) b) eqn:E; [|done]. apply LeaseBinding_Equal_true in E as [_ E].
    simpl in H. destruct (_ && _); [done|]. destruct (NextFence _); [|done].
    destruct (addNormalizedDuration _ _); [|done]. eauto 7.
  - destruct (lt_maximum t <=? _) eqn:E; [done|]. apply Z.leb_gt in E. simpl in H.
    destruct (addNormalizedDuration _ _); [|done]. eauto.
Qed.

(** ** A concrete history for the witnesses *)

Definition s_binding : LeaseBinding := LB true s_workspace s_resource 1 s_operation 1 (pl_digest s_plan).
Definition s_table : LeaseTable := MkTable true (Some 1%positive) 4 ∅.
Definition s_world : world := World (Heap ∅ ∅ {[1%positive]}) s_table [].
Definition s_token : LeaseToken :=
  LT true (Some 1%positive) s_binding s_owner 1 s_now (s_now + StoreLeaseDuration).
Definition s_authority : DispatchAuthority :=
  DA true (pl_digest s_plan) (s_digest 31) "zin1_sample" "zpol1_sample" (s_now + second) (Some 2%positive).
Definition s_acquired : list lease_call := [CallAcquire s_now s_binding s_owner].
Definition s_dispatch : lease_call := CallDispatch (s_now + second) s_token (10 * second) s_authority.
Definition s_permit : DispatchPermit :=
  DP true s_token (s_digest 31) (s_now + second) (s_now + 11 * second) (Some 3%positive).
(** The owner crashes; another worker takes over after expiry. *)
Definition s_takeover : lease_call := CallAcquire (s_now + 60 * second) s_binding s_owner2.

Example s_world_fresh : fresh_world s_world.
Proof. exists 4, empty_heap. split; vm_compute; reflexivity. Qed.

(** ** Properties *)

(** C3: fencing.  Whatever calls were made on a table since it was created, two
    tokens it issued for the same lineage and fence (including the ones inside
    dispatch permits) name the same binding and the same owner. *)
Theorem lease_fence_unique (w0 : world) (cs : list lease_call) (a b : LeaseToken)
  (Hfresh : fresh_world w0)
  (Ha : token_issued (history w0 cs) a) (Hb : token_issued (history w0 cs) b)
  (Hkey : leaseRowKey (tk_binding a) = leaseRowKey (tk_binding b)) (Hfence : tk_fence a = tk_fence b) :
  tk_binding a = tk_binding b /\ tk_ownerID a = tk_ownerID b.
Proof. by apply (li_unique _ (history_inv cs w0 (fresh_world_inv w0 Hfresh))). Qed.

Lemma lease_fence_unique_witness :
  exists a b, a <> b /\ tk_fence a = 1 /\ tk_binding a = tk_binding b /\ tk_ownerID a = tk_ownerID b.
Proof.
  pose (renewed := LT true (Some 1%positive) s_binding s_owner 1 s_now (s_now + 61 * second)).
  exists s_token, renewed. split; [vm_compute; congruence|]. split; [reflexivity|].
  apply (lease_fence_unique s_world (s_acquired ++ [CallRenew (s_now + second) s_token])).
  - exact s_world_fresh.
  - exists (RToken s_token). split; [right; left|reflexivity].
  - exists (RToken renewed). split; [|reflexivity].
    replace (w_issued _) with [RToken renewed; RToken s_token] by (vm_compute; reflexivity). left.
  - reflexivity.
  - reflexivity.
Defined.

(** Rows are stable.  Along every history a lineage row never disappears;
    its fence, its observed time and its generation never go back; at an
    unchanged fence its binding is unchanged and its owner can only be
    cleared; and the table never holds more rows than its maximum. *)
Theorem lease_rows_advance (w0 : world) (cs cs' : list lease_call) (key : string) (r : leaseRow)
  (Hfresh : fresh_world w0) (Hrow : lt_rows (w_table (history w0 cs)) !! key = Some r) :
  (exists r', lt_rows (w_table (history (history w0 cs) cs')) !! key = Some r' /\ row_advances r r') /\
  LeaseTable_Len (w_table (history (history w0 cs) cs')) <= lt_maximum (w_table (history (history w0 cs) cs')).
Proof.
  pose proof (history_inv cs w0 (fresh_world_inv w0 Hfresh)) as Hinv. split.
  - by apply history_advances.
  - apply (ti_size _ (li_table _ (history_inv cs' _ Hinv))).
Qed.

Lemma lease_rows_advance_witness :
  exists r r', lr_fence r = 1 /\ lr_fence r' = 2 /\
    lt_rows (w_table (history s_world (s_acquired ++ [s_takeover]))) !! leaseRowKey s_binding = Some r' /\
    row_advances r r'.
Proof.
  exists (granted s_binding s_owner 1 s_now), (granted s_binding s_owner2 2 (s_now + 60 * second)).
  split; [reflexivity|]. split; [reflexivity|]. split; [vm_compute; reflexivity|].
  destruct (lease_rows_advance s_world s_acquired [s_takeover] (leaseRowKey s_binding)
    (granted s_binding s_owner 1 s_now) s_world_fresh ltac:(vm_compute; reflexivity)) as [(r' & Hl & Hadv) _].
  assert (r' = granted s_binding s_owner2 2 (s_now + 60 * second)) as ->; [|exact Hadv].
  apply (inj Some). rewrite <- Hl. vm_compute. reflexivity.
Defined.

(** A superseded owner is fenced off for ever.  Once the row of a token's
    lineage carries a higher fence, every later renewal, surrender, commit,
    dispatch authorisation and dispatch mark that presents the token fails,
    whatever happened in between. *)
Theorem superseded_token_rejected (w0 : world) (cs cs' : list lease_call) (c : lease_call)
  (tok : LeaseToken) (r : leaseRow)
  (Hfresh : fresh_world w0)
  (Hrow : lt_rows (w_table (history w0 cs)) !! leaseRowKey (tk_binding tok) = Some r)
  (Hfence : tk_fence tok < lr_fence r) (Hp : presents c = Some tok) :
  let w := history (history w0 cs) cs' in
  exists e s', run_call c (w_heap w, w_table w) = (Err e, s').
Proof.
  pose proof (history_inv cs w0 (fresh_world_inv w0 Hfresh)) as Hinv.
  destruct (history_advances cs' _ _ _ Hinv Hrow) as (r' & Hl' & Hadv & _).
  eapply lower_fence_rejected; [done|done|lia].
Qed.

Lemma superseded_token_rejected_witness :
  exists e s', run_call (CallRenew (s_now + 61 * second) s_token)
    (let w := history s_world (s_acquired ++ [s_takeover]) in (w_heap w, w_table w)) = (Err e, s').
Proof.
  apply (superseded_token_rejected s_world (s_acquired ++ [s_takeover]) []
    (CallRenew (s_now + 61 * second) s_token) s_token (granted s_binding s_owner2 2 (s_now + 60 * second))).
  - exact s_world_fresh.
  - vm_compute. reflexivity.
  - vm_compute. reflexivity.
  - reflexivity.
Defined.

(** C11: a dispatch permit protects its provider call.  After a permit with
    deadline [d] was granted on a lineage, no worker acquires that lineage
    (directly or by replacement) at a sampled time up to [d] plus the safety
    margin, over every later history in which the permit's own fence is not
    surrendered, even if the owner crashed or never renews. *)
Theorem dispatch_window_exclusive (w0 : world) (cs cs' : list lease_call)
  (dt : time) (tok : LeaseToken) (rpcTimeout : Z) (authority : DispatchAuthority) (p : DispatchPermit)
  (s s' : heap * LeaseTable) (c : lease_call) (rep : lease_reply) (dt' now' : time)
  (Hfresh : fresh_world w0)
  (Hpermit : LeaseTable_AuthorizeDispatch dt tok rpcTimeout authority
     (w_heap (history w0 cs), w_table (history w0 cs)) = (Ok p, s))
  (Hkept : Forall (not_surrender_of (leaseRowKey (tk_binding tok)) (tk_fence tok)) cs')
  (Htakes : takes_over (leaseRowKey (tk_binding tok)) dt' c) (Hnow : normalizeTime dt' = Some now')
  (Hrun : let w := history (history w0 cs) (CallDispatch dt tok rpcTimeout authority :: cs') in
          run_call c (w_heap w, w_table w) = (Ok rep, s')) :
  dp_deadline p + DispatchSafetyMargin < now'.
Proof.
  pose proof (history_inv cs w0 (fresh_world_inv w0 Hfresh)) as Hinv.
  destruct s as [h1 t1]. pose proof (Dispatch_spec _ _ _ _ _ _ _ _ _ Hpermit) as [_ Hg].
  destruct (Hg p eq_refl) as (now & row & l & _ & (Hl & (Ho & _) & _ & _ & Hf & Hb) & _ & _ & _ & _ & _ & _ & Hd & _).
  set (w := history w0 cs) in *.
  assert (window_kept (tk_fence tok) (dp_deadline p + DispatchSafetyMargin) row) as Hw by (left; done).
  destruct (window_history (CallDispatch dt tok rpcTimeout authority :: cs') w _ _ _ row Hinv Hl Hw) as (r' & Hl' & Hw').
  { constructor; [exact I|done]. }
  pose proof (history_inv (CallDispatch dt tok rpcTimeout authority :: cs') w Hinv) as Hinv'.
  destruct (takes_over_from c _ _ _ _ _ _ (ti_keyed _ (li_table _ Hinv')) Htakes Hrun) as (n & fence & Hn & Hacq).
  assert (n = now') as -> by congruence.
  by eapply window_acquired.
Qed.

Lemma dispatch_window_exclusive_witness :
  dp_deadline s_permit + DispatchSafetyMargin < s_now + 60 * second.
Proof.
  eapply (dispatch_window_exclusive s_world s_acquired [] (s_now + second) s_token (10 * second) s_authority
    s_permit _ _ s_takeover _ (s_now + 60 * second) (s_now + 60 * second) s_world_fresh).
  - vm_compute. reflexivity.
  - constructor.
  - split; reflexivity.
  - vm_compute. reflexivity.
  - vm_compute. reflexivity.
Defined.

(** Capabilities are linear.  A dispatch authority, dispatch permit or
    replacement authority that was used successfully once can never be used
    successfully again, through any copy of it, any method call and after any
    later history. *)
Theorem capability_used_once (w0 : world) (cs cs' : list lease_call) (c c' : lease_call)
  (l : loc) (rep : lease_reply) (s : heap * LeaseTable)
  (Hfresh : fresh_world w0) (Hc : capability c = Some l) (Hc' : capability c' = Some l)
  (Hrun : run_call c (w_heap (history w0 cs), w_table (history w0 cs)) = (Ok rep, s)) :
  let w := history (history w0 cs) (c :: cs') in
  exists e s', run_call c' (w_heap w, w_table w) = (Err e, s').
Proof.
  pose proof (history_inv cs w0 (fresh_world_inv w0 Hfresh)) as Hinv. set (w := history w0 cs) in *.
  destruct (capability_spent _ _ _ _ _ _ (ti_keyed _ (li_table _ Hinv)) Hrun Hc) as [_ Hused].
  assert (load_bool (w_heap (world_step w c)) l = true) as Hu.
  { unfold world_step. rewrite Hrun. by destruct s. }
  pose proof (world_step_inv w c Hinv) as Hinv1. simpl.
  pose proof (proj1 (history_grows cs' _ Hinv1) l Hu) as Hlater. pose proof (history_inv cs' _ Hinv1) as Hinv2.
  destruct (run_call c' _) as [[rep'|e] s'] eqn:Hrun'; [|eauto].
  destruct (capability_spent _ _ _ _ _ _ (ti_keyed _ (li_table _ Hinv2)) Hrun' Hc') as [Hfree _].
  congruence.
Qed.

Lemma capability_used_once_witness :
  exists e s', run_call s_dispatch
    (let w := history (history s_world s_acquired) [s_dispatch] in (w_heap w, w_table w)) = (Err e, s').
Proof.
  eapply (capability_used_once s_world s_acquired [] s_dispatch s_dispatch 2%positive (RPermit s_permit) _ s_world_fresh).
  - reflexivity.
  - reflexivity.
  - vm_compute. reflexivity.
Defined.

(** C39: the table implements the fenced-lease protocol: on every reachable
    state, every call, successful or not, changes the table by one step of the
    abstract protocol (nothing, a time observation, a renewal or surrender of a
    live row, a grant on a free row, or a new row), and only a successful
    [Surrender] releases a row. *)
Theorem lease_table_refines (w0 : world) (cs : list lease_call) (c : lease_call) (Hfresh : fresh_world w0) :
  let w := history w0 cs in
  table_step (surrenders c (run_call c (w_heap w, w_table w)).1) (w_table w) (w_table (world_step w c)).
Proof.
  pose proof (history_inv cs w0 (fresh_world_inv w0 Hfresh)) as Hinv.
  by destruct (world_step_spec (history w0 cs) c (li_table _ Hinv)).
Qed.

Lemma lease_table_refines_witness :
  table_step false (w_table (history s_world s_acquired)) (w_table (history s_world (s_acquired ++ [s_takeover]))).
Proof. exact (lease_table_refines s_world s_acquired s_takeover s_world_fresh). Defined.

(** On every reachable table, [Acquire] grants a lease exactly when the
    arguments are valid, the sampled time normalises and leaves room for the
    lease, and either the lineage is new and there is capacity, or its row has
    exactly this binding, is surrendered or expired, was not observed later and
    has a fence below the maximum.  The token then has the next fence and the
    full lease duration. *)
Theorem acquire_exact (w0 : world) (cs : list lease_call) (dt : time) (b : LeaseBinding) (o : ID)
  (Hfresh : fresh_world w0) :
  let t := w_table (history w0 cs) in
  ((exists tok t', LeaseTable_Acquire dt b o t = (Ok tok, t')) <->
   lt_initialized t = true /\ validateLeaseBinding b = true /\ validID o = true /\
   exists now, normalizeTime dt = Some now /\ can_acquire t b now) /\
  (forall tok t', LeaseTable_Acquire dt b o t = (Ok tok, t') ->
     exists now, normalizeTime dt = Some now /\
       tok = tokenFromRow (granted b o (tk_fence tok) now) (lt_identity t) /\
       acquired_from t now (leaseRowKey b) (tk_fence tok)).
Proof.
  pose proof (ti_keyed _ (li_table _ (history_inv cs w0 (fresh_world_inv w0 Hfresh)))) as Hk.
  intros t. split; [split|].
  - intros (tok & t' & H). by eapply Acquire_requires.
  - intros (Hi & Hb & Ho & now & Hn & Hc). by eapply Acquire_succeeds.
  - intros tok t' H. apply Acquire_spec in H as [_ Hs]; [|done].
    destruct (Hs _ eq_refl) as (now & Hn & _ & Hf & Ht). eauto.
Qed.

Lemma acquire_exact_witness :
  exists tok t', LeaseTable_Acquire (s_now + 60 * second) s_binding s_owner2
    (w_table (history s_world s_acquired)) = (Ok tok, t').
Proof.
  apply (proj1 (acquire_exact s_world s_acquired (s_now + 60 * second) s_binding s_owner2 s_world_fresh)).
  split; [reflexivity|]. split; [vm_compute; reflexivity|]. split; [reflexivity|].
  exists (s_now + 60 * second). split; [vm_compute; reflexivity|]. split; [eexists; vm_compute; reflexivity|].
  replace (lt_rows _ !! _) with (Some (granted s_binding s_owner 1 s_now)) by (vm_compute; reflexivity).
  split; [vm_compute; discriminate|]. split; [reflexivity|]. split; [right; vm_compute; discriminate|].
  vm_compute. reflexivity.
Defined.

(** The heartbeat schedule is safe: the renewal interval of every valid
    work key is a whole number of milliseconds between the jitter minimum and
    the renewal deadline, and a worker that renews on it (or on the very
    deadline) still has both the lease and the queue message visible. *)
Theorem renewal_interval_bounds (work : WorkKey) (d : Z) (H : StableRenewalInterval work = Ok d) :
  RenewalJitterMinimum <= d <= RenewalDeadline /\ d mod millisecond = 0 /\
  2 * d < StoreLeaseDuration /\ d < QueueVisibilityDuration.
Proof.
  unfold StableRenewalInterval in H. destruct (validWorkKey work); [|done]. simpl in H.
  assert (exists k, 0 <= k < 5001 /\ d = RenewalJitterMinimum + k * millisecond) as (k & Hk & ->).
  { injection H as <-. eexists. split; [|done].
    replace ((RenewalDeadline - RenewalJitterMinimum) / millisecond + 1) with 5001 by (vm_compute; reflexivity).
    apply Z.mod_pos_bound. lia. }
  replace RenewalJitterMinimum with (15000 * millisecond) by (vm_compute; reflexivity).
  replace RenewalDeadline with (20000 * millisecond) by (vm_compute; reflexivity).
  replace StoreLeaseDuration with (60000 * millisecond) by (vm_compute; reflexivity).
  assert (20000 * millisecond < QueueVisibilityDuration) by (vm_compute; reflexivity).
  rewrite <- Z.mul_add_distr_r, Z_mod_mult. unfold millisecond in *. lia.
Qed.

Lemma renewal_interval_bounds_witness :
  exists d, StableRenewalInterval s_work = Ok d /\ RenewalJitterMinimum <= d <= RenewalDeadline.
Proof.
  eexists. split; [vm_compute; reflexivity|].
  exact (proj1 (renewal_interval_bounds s_work _ ltac:(vm_compute; reflexivity))).
Defined.
