(* ===== verification/AttemptProps.v ===== *)
(** * Properties of attempts and of the effect gates

    Attempts move only forward through their life cycle; what is not known to
    have failed is never treated as if it had; and the retry and generation
    gates admit exactly the cases with the proof they ask for. *)

From S2P Require Import Prelude Bytes Sha256 GoTime Atomics Closed Vocabulary Digests Plan PlanProps.
From S2P Require Import Lease LeaseSpec Attempt LeaseProps.
From Stdlib Require Import String.

(** ** The life cycle as a step relation: every way the code replaces a stored
    attempt by a new one *)

Inductive attempt_step (a : Attempt) : Attempt -> Prop :=
| as_mark permit dt h t a' s : LeaseTable_MarkAttemptDispatched a permit dt (h, t) = (Ok a', s) -> attempt_step a a'
| as_resolve outcome dt a' : ResolveAttempt a outcome dt = Ok a' -> attempt_step a a'
| as_recover proof dt a' : RecoverAttempt a proof dt = Ok a' -> attempt_step a a'
| as_maintain kind outcome dt a' d : ApplyMaintenanceOutcome a kind outcome dt = Ok (a', d) -> attempt_step a a'.

(** Stored attempts are valid and were prepared at a positive instant. *)
Definition attempt_ok (a : Attempt) : Prop := ValidateAttempt a = true /\ 0 < at_preparedAt a.

Lemma Resolve_cases a outcome dt a' :
  ResolveAttempt a outcome dt = Ok a' ->
  exists now, normalizeTime dt = Some now /\ ValidateAttempt a = true /\ at_state a = AttemptStateDispatched /\
    validEffectState outcome = true /\ at_dispatchedAt a <= now /\
    a' = attempt_moved a (AttemptState_of outcome) (at_dispatchedAt a) now.
Proof.
  unfold ResolveAttempt. intros H. run_inv H. autorewrite with guards in *. destruct_and!. eauto 10.
Qed.

(** Recovery is conservative: no effect only from a prepared attempt whose
    call provably never began, anything unknown is indeterminate. *)
Definition recovered_state (s : AttemptState) (proof : DispatchProof) : option AttemptState :=
  match s, proof with
  | AttemptStatePrepared, DispatchProofNeverBegan => Some AttemptStateNoEffect
  | AttemptStatePrepared, DispatchProofUnknown
  | AttemptStateDispatched, DispatchProofUnknown => Some AttemptStateIndeterminate
  | _, _ => None
  end.

Lemma Recover_iff a proof dt a' :
  RecoverAttempt a proof dt = Ok a' <->
  exists now s, normalizeTime dt = Some now /\ ValidateAttempt a = true /\
    recovered_state (at_state a) proof = Some s /\ attemptLatestAt a <= now /\
    a' = attempt_moved a s (at_dispatchedAt a) now.
Proof.
  unfold RecoverAttempt. split.
  - intros H. run_inv H. autorewrite with guards in *. destruct_and!.
    destruct (at_state a), proof; try done; simplify_eq; eexists _, _; by split_and!.
  - intros (now & s & -> & -> & Hs & Hle & ->). simpl.
    assert (Attempt_Resolved a = false) as ->.
    { unfold Attempt_Resolved. by destruct (at_state a), proof. }
    simpl. rewrite (proj2 (before_false now (attemptLatestAt a)) Hle). simpl.
    destruct (at_state a), proof; simplify_eq/=; done.
Qed.

Lemma Maintenance_cases a kind outcome dt a' d :
  ApplyMaintenanceOutcome a kind outcome dt = Ok (a', d) ->
  (outcome = MaintenanceSucceeded /\ a' = a /\ d = MaintenanceContinue) \/
  (outcome <> MaintenanceSucceeded /\ d = MaintenanceStopAndSurrender /\
   ((Attempt_Resolved a = true /\ a' = a) \/
    (Attempt_Resolved a = false /\ exists now, RecoverAttempt a DispatchProofUnknown now = Ok a'))).
Proof.
  unfold ApplyMaintenanceOutcome. intros H. run_inv H.
  case_bool_decide as Ho; [simplify_eq; by left|]. right. split; [done|].
  destruct (Attempt_Resolved a); [simplify_eq; auto|]. run_inv H. eauto 7.
Qed.

(** ** Steps *)

(** What one step may do to the state of an attempt. *)
Definition state_step (s s' : AttemptState) : Prop :=
  s' = s \/
  match s, s' with
  | AttemptStatePrepared, (AttemptStateDispatched | AttemptStateNoEffect | AttemptStateIndeterminate) => True
  | AttemptStateDispatched, (AttemptStateApplied | AttemptStateNoEffect | AttemptStateIndeterminate) => True
  | _, _ => False
  end.

Lemma attempt_moved_self a : attempt_moved a (at_state a) (at_dispatchedAt a) (at_resolvedAt a) = a.
Proof. by destruct a. Qed.

Lemma attempt_moved_moved a s d r s' d' r' :
  attempt_moved (attempt_moved a s d r) s' d' r' = attempt_moved a s' d' r'.
Proof. done. Qed.

(** Only the state and its timestamps matter to validity once the rest is. *)
Lemma ValidateAttempt_moved a s d r :
  ValidateAttempt a = true -> AttemptState_known s = true -> valid_attempt_times (attempt_moved a s d r) = true ->
  ValidateAttempt (attempt_moved a s d r) = true.
Proof.
  unfold ValidateAttempt. simpl. intros H Hs Ht. rewrite Hs, Ht.
  apply andb_prop in H as [H _]. apply andb_prop in H as [H Hobs]. apply andb_prop in H as [H Hret].
  apply andb_prop in H as [H Hcan]. apply andb_prop in H as [H Hcomp]. apply andb_prop in H as [H Hmatch].
  apply andb_prop in H as [H Hst]. rewrite H, Hmatch, Hcomp, Hcan, Hret, Hobs. done.
Qed.

Lemma attempt_times a :
  attempt_ok a ->
  (at_state a = AttemptStatePrepared -> at_dispatchedAt a = 0 /\ at_resolvedAt a = 0) /\
  (at_state a = AttemptStateDispatched -> at_preparedAt a <= at_dispatchedAt a /\ at_resolvedAt a = 0).
Proof.
  intros [Hv _]. unfold ValidateAttempt in Hv. apply andb_prop in Hv as [_ Ht].
  unfold valid_attempt_times in Ht.
  split; intros Hs; rewrite Hs in Ht; autorewrite with guards in Ht; destruct_and!; auto.
Qed.

Lemma recover_ok a proof dt a' :
  attempt_ok a -> RecoverAttempt a proof dt = Ok a' ->
  attempt_ok a' /\ state_step (at_state a) (at_state a') /\ Attempt_Resolved a = false /\
  exists s d r, a' = attempt_moved a s d r.
Proof.
  intros Hok H. apply Recover_iff in H as (now & s & Hn & Hv & Hs & Hle & ->).
  pose proof (attempt_times a Hok) as [Hprep Hdisp]. destruct Hok as [_ Hpos].
  split; [|split; [|split; [|eauto]]].
  - split; [|done]. apply ValidateAttempt_moved; [done|by destruct (at_state a), proof; simplify_eq/=|].
    unfold valid_attempt_times, attemptLatestAt in *. simpl.
    destruct (at_state a) eqn:Est, proof; simplify_eq/=;
      (destruct Hprep as [Hd Hr]; [done|]) || (destruct Hdisp as [Hd Hr]; [done|]);
      rewrite Hr in Hle; simpl in Hle; autorewrite with guards;
      try (rewrite Hd in *; simpl in *; lia);
      destruct (is_zero (at_dispatchedAt a)) eqn:E; simpl in *; autorewrite with guards in E; lia.
  - unfold state_step. simpl. right. by destruct (at_state a), proof; simplify_eq/=.
  - unfold Attempt_Resolved. by destruct (at_state a), proof.
Qed.

Lemma resolve_ok a outcome dt a' :
  attempt_ok a -> ResolveAttempt a outcome dt = Ok a' ->
  attempt_ok a' /\ state_step (at_state a) (at_state a') /\ Attempt_Resolved a = false /\
  exists s d r, a' = attempt_moved a s d r.
Proof.
  intros Hok H. apply Resolve_cases in H as (now & Hn & Hv & Hs & Ho & Hle & ->).
  pose proof (attempt_times a Hok) as [_ Hdisp]. destruct (Hdisp Hs) as [Hd _]. destruct Hok as [_ Hpos].
  split; [|split; [|split; [|eauto]]].
  - split; [|done]. apply ValidateAttempt_moved; [done|by destruct outcome|].
    unfold valid_attempt_times. simpl. destruct (is_zero (at_dispatchedAt a)) eqn:E;
      autorewrite with guards in E; [lia|]. destruct outcome; simpl; try done; autorewrite with guards; lia.
  - rewrite Hs. unfold state_step. simpl. right. by destruct outcome.
  - unfold Attempt_Resolved. by rewrite Hs.
Qed.

Lemma mark_ok a permit dt h t a' s :
  attempt_ok a -> LeaseTable_MarkAttemptDispatched a permit dt (h, t) = (Ok a', s) ->
  attempt_ok a' /\ state_step (at_state a) (at_state a') /\ Attempt_Resolved a = false /\
  exists s d r, a' = attempt_moved a s d r.
Proof.
  destruct s as [h' t']. intros Hok H. apply Mark_spec in H as [_ H].
  destruct (H _ eq_refl) as (now & row & l & _ & _ & Hv & Hs & -> & Hle & _).
  pose proof (attempt_times a Hok) as [Hprep _]. destruct (Hprep Hs) as [_ Hr]. destruct Hok as [_ Hpos].
  split; [|split; [|split; [|eauto]]].
  - split; [|done]. apply ValidateAttempt_moved; [done|done|]. unfold valid_attempt_times. simpl.
    rewrite Hr. autorewrite with guards. lia.
  - rewrite Hs. by right.
  - unfold Attempt_Resolved. by rewrite Hs.
Qed.

Lemma attempt_step_ok a a' :
  attempt_ok a -> attempt_step a a' ->
  attempt_ok a' /\ state_step (at_state a) (at_state a') /\ (Attempt_Resolved a = true -> a' = a) /\
  exists s d r, a' = attempt_moved a s d r.
Proof.
  intros Hok [permit dt h t a1 s H|outcome dt a1 H|proof dt a1 H|kind outcome dt a1 d H].
  - apply mark_ok in H as (? & ? & Hr & ?); [|done]. split_and!; [done|done|congruence|done].
  - apply resolve_ok in H as (? & ? & Hr & ?); [|done]. split_and!; [done|done|congruence|done].
  - apply recover_ok in H as (? & ? & Hr & ?); [|done]. split_and!; [done|done|congruence|done].
  - apply Maintenance_cases in H as [(_ & -> & _)|(_ & _ & [[_ ->]|(_ & now & H)])].
    + split_and!; [done|by left|done|]. eexists _, _, _. symmetry. apply attempt_moved_self.
    + split_and!; [done|by left|done|]. eexists _, _, _. symmetry. apply attempt_moved_self.
    + apply recover_ok in H as (? & ? & Hr & ?); [|done]. split_and!; [done|done|congruence|done].
Qed.

Lemma attempt_steps_ok a a' :
  rtc attempt_step a a' -> attempt_ok a ->
  attempt_ok a' /\ (Attempt_Resolved a = true -> a' = a) /\ exists s d r, a' = attempt_moved a s d r.
Proof.
  induction 1 as [a|a b c Hab _ IH]; intros Hok.
  - split_and!; [done|done|]. eexists _, _, _. symmetry. apply attempt_moved_self.
  - destruct (attempt_step_ok a b Hok Hab) as (Hok' & _ & Hres & s & d & r & Hb).
    destruct (IH Hok') as (? & Hres' & s' & d' & r' & Hc). split_and!; [done| |].
    + intros Hr. assert (b = a) as -> by auto. auto.
    + exists s', d', r'. by rewrite Hc, Hb.
Qed.

(** ** The generation gate, declaratively *)

Definition pending (e : EffectProjection) : bool :=
  negb (bool_decide (ep_state e = AttemptStateApplied) || bool_decide (ep_state e = AttemptStateNoEffect)).

Definition prior_key (e : EffectProjection) : string := EffectKey_String (ep_key e).
Definition proof_key (p : SafeSupersessionProof) : string := EffectKey_String (sp_prior p).

Definition prior_ok (candidate : EffectKey) (e : EffectProjection) : Prop :=
  validateEffectProjection e = true /\ ek_workspaceID (ep_key e) = ek_workspaceID candidate /\
  ek_resourceID (ep_key e) = ek_resourceID candidate /\ ek_generation (ep_key e) < ek_generation candidate.

Definition proof_ok (candidate : EffectKey) (p : SafeSupersessionProof) : Prop :=
  validSupersessionProof p = true /\ sp_candidate p = candidate.

Record generation_safe (candidate : EffectKey) (prior : list EffectProjection)
    (proofs : list SafeSupersessionProof) : Prop := {
  gs_candidate : ValidateEffectKey candidate = true;
  gs_priors : llen prior <= MaxEffectsPerOperation;
  gs_proofs : llen proofs <= MaxEffectsPerOperation;
  gs_proof_ok : Forall (proof_ok candidate) proofs;
  gs_proof_nodup : NoDup (map proof_key proofs);
  gs_prior_ok : Forall (prior_ok candidate) prior;
  gs_prior_nodup : NoDup (map prior_key prior);
  gs_covered : forall e, e ∈ prior -> pending e = true -> exists p, p ∈ proofs /\ sp_prior p = ep_key e;
  gs_exact : forall p, p ∈ proofs -> exists e, e ∈ prior /\ pending e = true /\ ep_key e = sp_prior p;
}.

Lemma bind_fail_if {E A} (c : bool) (e : E) (k : result E A) :
  (fail_if c e ≫= fun _ => k) = if c then Err e else k.
Proof. by destruct c. Qed.

Lemma index_shift (p : SafeSupersessionProof) ps (index : gmap string SafeSupersessionProof) :
  proof_key p ∉ map proof_key ps ->
  list_to_map (map (fun q => (proof_key q, q)) ps) ∪ <[proof_key p := p]> index =
  <[proof_key p := p]> (list_to_map (map (fun q => (proof_key q, q)) ps)) ∪ index.
Proof.
  intros Hnin. rewrite <- insert_union_r, insert_union_l; [done|]. apply not_elem_of_list_to_map_1.
  rewrite <- list_fmap_compose. done.
Qed.

Lemma index_proofs_ok candidate proofs : forall index index',
  index_proofs candidate proofs index = Ok index' <->
  Forall (proof_ok candidate) proofs /\ NoDup (map proof_key proofs) /\
  (forall p, p ∈ proofs -> index !! proof_key p = None) /\
  index' = list_to_map (map (fun p => (proof_key p, p)) proofs) ∪ index.
Proof.
  induction proofs as [|p ps IH]; intros index index'; simpl.
  - rewrite (left_id_L ∅ (∪)). split; [intros [= ->]|intros (_ & _ & _ & ->); done].
    split_and!; [constructor|constructor|set_solver|done].
  - rewrite !bind_fail_if. rewrite Forall_cons, NoDup_cons. split.
    + destruct (_ || _) eqn:G; [done|]. autorewrite with guards in G. destruct G as [Hv Hc].
      destruct (index !! _) eqn:Hl; simpl; [done|]. rewrite IH. intros (Hps & Hnd & Hfresh & ->).
      assert (proof_key p ∉ map proof_key ps) as Hnin.
      { intros Hin. apply list_elem_of_fmap in Hin as (q & Hq & Hin).
        specialize (Hfresh q Hin). rewrite <- Hq, lookup_insert_eq in Hfresh. done. }
      split_and!; [split; naive_solver|done|done|done| |].
      * intros q [->|Hq]%elem_of_cons; [done|]. specialize (Hfresh q Hq).
        apply lookup_insert_None in Hfresh. naive_solver.
      * by apply index_shift.
    + intros ((Hp & Hps) & (Hnin & Hnd) & Hfresh & ->). destruct Hp as [Hv Hc].
      assert ((negb (validSupersessionProof p) || negb (EffectKey_Equal (sp_candidate p) candidate)) = false) as ->.
      { rewrite Hv. simpl. rewrite Hc, EffectKey_Equal_refl; [done|]. subst candidate.
        unfold validSupersessionProof in Hv. autorewrite with guards in Hv. naive_solver. }
      assert (index !! EffectKey_String (sp_prior p) = None) as Hl by (apply Hfresh; left).
      rewrite Hl. simpl. apply IH. split_and!; [done|done| |].
      * intros q Hq. apply lookup_insert_None. split; [apply Hfresh; by right|].
        intros Heq. apply Hnin. apply list_elem_of_fmap. by exists q.
      * symmetry. by apply index_shift.
Qed.

(** The index left over: the proofs no pending prior consumed. *)
Definition consumed (prior : list EffectProjection) (k : string) : Prop :=
  exists e, e ∈ prior /\ pending e = true /\ prior_key e = k.

Lemma check_priors_ok candidate prior : forall seen index remaining,
  check_priors candidate prior seen index = Ok remaining ->
  Forall (prior_ok candidate) prior /\ NoDup (map prior_key prior) /\
  (forall e, e ∈ prior -> prior_key e ∉ seen) /\
  (forall e, e ∈ prior -> pending e = true -> exists p, index !! prior_key e = Some p /\ sp_prior p = ep_key e) /\
  (forall k p, remaining !! k = Some p <-> index !! k = Some p /\ ~ consumed prior k).
Proof.
  induction prior as [|e es IH]; intros seen index remaining; simpl.
  - intros [= ->]. split_and!; [constructor|constructor|set_solver|set_solver|].
    intros k p. split; [|naive_solver]. intros H. split; [done|]. intros (e & Hin & _). set_solver.
  - rewrite !bind_fail_if. destruct (_ || _ || _ || _) eqn:G; [done|].
    assert (prior_ok candidate e) as Hok by (autorewrite with guards in G; unfold prior_ok; naive_solver lia).
    clear G. case_bool_decide as Hseen; [done|]. fold (prior_key e) in *. set (k0 := prior_key e) in *.
    destruct (bool_decide _ || bool_decide _) eqn:Hdef.
    + assert (pending e = false) as Hp by (unfold pending; by rewrite Hdef).
      intros H. apply IH in H as (Hf & Hnd & Hns & Hcov & Hrem). rewrite Forall_cons, NoDup_cons.
      split_and!; try done.
      * intros Hin. apply list_elem_of_fmap in Hin as (q & Hq & Hin). specialize (Hns q Hin). set_solver.
      * intros q [->|Hq]%elem_of_cons; [done|]. specialize (Hns q Hq). set_solver.
      * intros q [->|Hq]%elem_of_cons; [congruence|]. by apply Hcov.
      * intros k p. rewrite Hrem. unfold consumed. setoid_rewrite elem_of_cons. naive_solver congruence.
    + assert (pending e = true) as Hp by (unfold pending; by rewrite Hdef).
      destruct (index !! k0) as [p0|] eqn:Hl; [|done].
      rewrite bind_fail_if. destruct (negb (EffectKey_Equal _ _)) eqn:Heq; [done|].
      autorewrite with guards in Heq. destruct Heq as [_ Heq].
      intros H. apply IH in H as (Hf & Hnd & Hns & Hcov & Hrem). rewrite Forall_cons, NoDup_cons.
      assert (k0 ∉ map prior_key es) as Hnin.
      { intros Hin. apply list_elem_of_fmap in Hin as (q & Hq & Hin). specialize (Hns q Hin). set_solver. }
      split_and!; try done.
      * intros q [->|Hq]%elem_of_cons; [done|]. specialize (Hns q Hq). set_solver.
      * intros q [->|Hq]%elem_of_cons; [by exists p0|]. intros Hpq.
        destruct (Hcov q Hq Hpq) as (p & Hlp & Hpp). apply lookup_delete_Some in Hlp. naive_solver.
      * intros k p. rewrite Hrem, lookup_delete_Some. unfold consumed. setoid_rewrite elem_of_cons.
        split; [|naive_solver]. intros [[Hne Hlk] Hno]. split; [done|]. naive_solver.
Qed.

Lemma check_priors_total candidate prior : forall seen index,
  Forall (prior_ok candidate) prior -> NoDup (map prior_key prior) ->
  (forall e, e ∈ prior -> prior_key e ∉ seen) ->
  (forall e, e ∈ prior -> pending e = true -> exists p, index !! prior_key e = Some p /\ sp_prior p = ep_key e) ->
  exists remaining, check_priors candidate prior seen index = Ok remaining.
Proof.
  induction prior as [|e es IH]; intros seen index; simpl; [eauto|].
  rewrite Forall_cons, NoDup_cons. intros [Hok Hes] [Hnin Hnd] Hns Hcov.
  rewrite !bind_fail_if. destruct Hok as (Hv & Hw & Hr & Hg).
  rewrite Hv, Hw, Hr, !String.eqb_refl, (proj2 (Z.leb_gt _ _) Hg). simpl.
  rewrite bool_decide_eq_false_2 by (apply Hns; left). fold (prior_key e). set (k0 := prior_key e) in *.
  assert (forall q, q ∈ es -> prior_key q ∉ {[k0]} ∪ seen) as Hns'.
  { intros q Hq [Hk%elem_of_singleton|Hk]%elem_of_union; [|by apply (Hns q); [right|]].
    apply Hnin. rewrite <- Hk. by apply list_elem_of_fmap_2. }
  destruct (bool_decide _ || bool_decide _) eqn:Hdef.
  - apply IH; try done. intros q Hq. apply Hcov. by right.
  - assert (pending e = true) as Hp by (unfold pending; by rewrite Hdef).
    destruct (Hcov e (list_elem_of_here _ _) Hp) as (p & Hl & Hpe). fold k0 in Hl. rewrite Hl, bind_fail_if. clear Hl.
    assert (EffectKey_Equal (sp_prior p) (ep_key e) = true) as ->.
    { rewrite Hpe. apply EffectKey_Equal_refl. unfold validateEffectProjection in Hv.
      autorewrite with guards in Hv. naive_solver. }
    simpl. apply IH; try done. intros q Hq Hpq. destruct (Hcov q (list_elem_of_further _ _ _ Hq) Hpq) as (p' & Hl & Hpp).
    exists p'. split; [|done]. rewrite lookup_delete_ne; [done|]. intros Heq. apply Hnin. fold k0.
    rewrite Heq. by apply list_elem_of_fmap_2.
Qed.

Lemma proof_index_lookup proofs k p :
  NoDup (map proof_key proofs) ->
  (list_to_map (map (fun p => (proof_key p, p)) proofs) : gmap string SafeSupersessionProof) !! k = Some p <->
  p ∈ proofs /\ proof_key p = k.
Proof.
  intros Hnd. rewrite <- elem_of_list_to_map by (by rewrite <- list_fmap_compose).
  rewrite list_elem_of_fmap. naive_solver.
Qed.

Lemma CheckGenerationDispatch_sound candidate prior proofs :
  CheckGenerationDispatch candidate prior proofs = Ok tt -> generation_safe candidate prior proofs.
Proof.
  unfold CheckGenerationDispatch. intros H. run_inv H. autorewrite with guards in *. destruct_and!.
  match goal with Hi : index_proofs _ _ _ = Ok _ |- _ => apply index_proofs_ok in Hi as (Hpok & Hpnd & _ & ->) end.
  match goal with Hc : check_priors _ _ _ _ = Ok _ |- _ =>
    apply check_priors_ok in Hc as (Hok & Hnd & _ & Hcov & Hrem) end.
  rewrite (right_id_L ∅ (∪)) in Hcov, Hrem. setoid_rewrite (proof_index_lookup _ _ _ Hpnd) in Hcov.
  setoid_rewrite (proof_index_lookup _ _ _ Hpnd) in Hrem.
  split; try done.
  - intros e He Hp. destruct (Hcov e He Hp) as (p & [Hin _] & Heq). eauto.
  - intros p Hp. assert (consumed prior (proof_key p)) as (e & He & Hpe & Hk).
    { destruct (decide (Exists (fun e => pending e = true /\ prior_key e = proof_key p) prior)) as [Hex|Hno].
      - apply Exists_exists in Hex as (e & ? & ? & ?). by exists e.
      - exfalso. assert (x1 !! proof_key p = Some p) as Hx.
        { apply Hrem. split; [done|]. intros (e & ? & ? & ?). apply Hno, Exists_exists. eauto. }
        assert (x1 = ∅) as -> by (apply map_size_empty_inv; lia). by rewrite lookup_empty in Hx. }
    exists e. split_and!; [done|done|]. destruct (Hcov e He Hpe) as (q & [Hq Hqk] & Heq).
    assert (q = p) as ->; [|done].
    assert ((list_to_map (map (fun p => (proof_key p, p)) proofs) : gmap string SafeSupersessionProof)
              !! proof_key p = Some q) as Hlq by (apply proof_index_lookup; [done|]; split; [done|congruence]).
    assert ((list_to_map (map (fun p => (proof_key p, p)) proofs) : gmap string SafeSupersessionProof)
              !! proof_key p = Some p) as Hlp by (by apply proof_index_lookup).
    congruence.
Qed.

Lemma CheckGenerationDispatch_complete candidate prior proofs :
  generation_safe candidate prior proofs -> CheckGenerationDispatch candidate prior proofs = Ok tt.
Proof.
  intros [Hc Hlp Hlq Hpok Hpnd Hok Hnd Hcov Hex]. unfold CheckGenerationDispatch.
  rewrite Hc, (proj2 (Z.ltb_ge _ _) Hlp), (proj2 (Z.ltb_ge _ _) Hlq). simpl.
  rewrite (proj2 (index_proofs_ok candidate proofs ∅ _)
    (conj Hpok (conj Hpnd (conj (fun _ _ => lookup_empty _) eq_refl)))).
  rewrite (right_id_L ∅ (∪)). simpl.
  assert (forall e, e ∈ prior -> pending e = true -> exists p,
    (list_to_map (map (fun p => (proof_key p, p)) proofs) : gmap string SafeSupersessionProof)
      !! prior_key e = Some p /\ sp_prior p = ep_key e) as Hcov'.
  { intros e He Hp. destruct (Hcov e He Hp) as (p & Hin & Heq). exists p. split; [|done].
    apply proof_index_lookup; [done|]. unfold proof_key, prior_key. by rewrite Heq. }
  destruct (check_priors_total candidate prior ∅ _ Hok Hnd ltac:(set_solver) Hcov') as [rem Hrun].
  rewrite Hrun. simpl. apply check_priors_ok in Hrun as (_ & _ & _ & _ & Hrem).
  assert (rem = ∅) as ->; [|done]. apply map_eq. intros k. rewrite lookup_empty. apply eq_None_not_Some.
  intros [p Hp]. apply Hrem in Hp as [Hp Hno]. apply proof_index_lookup in Hp as [Hin Hk]; [|done].
  destruct (Hex p Hin) as (e & He & Hpe & Heq). apply Hno. exists e. split_and!; [done|done|].
  unfold prior_key. by rewrite Heq.
Qed.

Lemma CheckRetry_iff (dt : time) (projection : EffectProjection) (fingerprint : RequestFingerprint)
  (proof : option RetryProof) :
  CheckRetry dt projection fingerprint proof = Ok tt <->
  exists now, normalizeTime dt = Some now /\ validateEffectProjection projection = true /\
    dv_initialized fingerprint = true /\ ep_updatedAt projection <= now /\
    ((ep_state projection = AttemptStateNoEffect /\ proof = None) \/
     (ep_state projection = AttemptStateIndeterminate /\ exists p, proof = Some p /\
        validRetryProof p = true /\ rp_effect p = ep_key projection /\
        equalDigest (rp_fingerprint p) fingerprint = true /\ now < rp_validUntil p)).
Proof.
  unfold CheckRetry. split.
  - intros H. run_inv H. autorewrite with guards in *. destruct_and!. eexists. split_and!; try done.
    destruct (ep_state projection); try done.
    + apply fail_if_ok in H. destruct proof; [done|by left].
    + right. split; [done|]. destruct proof as [p|]; [|done]. apply fail_if_ok in H.
      rewrite !orb_false_iff, !negb_false, EffectKey_Equal_true, before_true in H. naive_solver.
  - intros (now & -> & Hv & Hf & Hle & Hcase). simpl. rewrite Hv, Hf, (proj2 (before_false _ _) Hle). simpl.
    destruct Hcase as [[-> ->]|(-> & p & -> & Hp & He & Hq & Hlt)]; [done|].
    rewrite Hp, Hq, (proj2 (before_true _ _) Hlt), He, EffectKey_Equal_refl; [done|].
    unfold validateEffectProjection in Hv. autorewrite with guards in Hv. naive_solver.
Qed.

(** ** Values for the witnesses *)

Definition s_at (state : AttemptState) (dispatchedAt resolvedAt : time) : Attempt :=
  At true s_attempt 1 (pl_digest s_plan) PlanKindForward s_effect AttemptPurposeForward s_owner 1 (s_digest 41)
     None None None 0 digest_zero 0 (s_digest 42) state s_now dispatchedAt resolvedAt.
Definition s_prepared : Attempt := s_at AttemptStatePrepared 0 0.
Definition s_dispatched : Attempt := s_at AttemptStateDispatched (s_now + second) 0.
Definition s_projection (state : AttemptState) : EffectProjection :=
  EP true s_effect (pl_digest s_plan) s_attempt AttemptPurposeForward None None state s_now.
Definition s_retry_proof : RetryProof := RP true s_effect (s_digest 41) "adapter.v1" (s_now + hour) (s_digest 43).
Definition s_supersession : SafeSupersessionProof := SSP true s_effect s_effect_next "adapter.v1" (s_digest 44).

(** ** Properties *)

(** Attempts are immutable records with a forward life cycle.  Through any
    sequence of dispatch marks, resolutions, crash recoveries and maintenance
    outcomes a stored attempt stays valid, keeps its identity, plan, effect,
    owner, fence, request and admission (only the state and the two later
    timestamps change), and once resolved it never changes again. *)
Theorem attempt_lifecycle (a a' : Attempt) (Hok : attempt_ok a) (Hsteps : rtc attempt_step a a') :
  ValidateAttempt a' = true /\
  (exists s d r, a' = attempt_moved a s d r) /\
  (Attempt_Resolved a = true -> a' = a).
Proof. destruct (attempt_steps_ok a a' Hsteps Hok) as ([Hv _] & Hres & Hm). done. Qed.

Lemma attempt_lifecycle_witness :
  exists a', at_state a' = AttemptStateApplied /\ ValidateAttempt a' = true.
Proof.
  pose (applied := s_at AttemptStateApplied (s_now + second) (s_now + 2 * second)).
  exists applied. split; [reflexivity|]. apply (attempt_lifecycle s_dispatched applied).
  - split; vm_compute; reflexivity.
  - apply rtc_once. apply (as_resolve _ EffectStateApplied (s_now + 2 * second)). vm_compute. reflexivity.
Defined.

(** The only state changes are prepared to dispatched (with a permit of the
    live lease), prepared to no-effect or indeterminate (recovery), dispatched
    to applied, no-effect or indeterminate. *)
Theorem attempt_state_machine (a a' : Attempt) (Hok : attempt_ok a) (Hstep : attempt_step a a') :
  state_step (at_state a) (at_state a').
Proof. by destruct (attempt_step_ok a a' Hok Hstep) as (_ & Hs & _). Qed.

Lemma attempt_state_machine_witness : state_step AttemptStatePrepared AttemptStateIndeterminate.
Proof.
  apply (attempt_state_machine s_prepared (s_at AttemptStateIndeterminate 0 (s_now + second))).
  - split; vm_compute; reflexivity.
  - apply (as_recover _ DispatchProofUnknown (s_now + second)). vm_compute. reflexivity.
Defined.

(** Crash recovery is exact and conservative: it succeeds exactly on a
    valid unresolved attempt at a time not before its last transition, and
    records no-effect only for a prepared attempt whose provider call provably
    never began; a call that may have begun becomes indeterminate. *)
Theorem recovery_exact (a : Attempt) (proof : DispatchProof) (dt : time) (a' : Attempt) :
  RecoverAttempt a proof dt = Ok a' <->
  exists now s, normalizeTime dt = Some now /\ ValidateAttempt a = true /\
    recovered_state (at_state a) proof = Some s /\ attemptLatestAt a <= now /\
    a' = attempt_moved a s (at_dispatchedAt a) now.
Proof. apply Recover_iff. Qed.

(** Lease or visibility maintenance fails closed: if the maintenance call
    failed or its outcome is unknown, the worker is told to stop and surrender
    and its attempt ends resolved: unchanged if it already was, indeterminate
    otherwise, so never falsely definitive.  Only a success lets it continue. *)
Theorem maintenance_fails_closed (a : Attempt) (kind : MaintenanceKind) (outcome : MaintenanceOutcome) (dt : time)
  (a' : Attempt) (d : MaintenanceDirective)
  (H : ApplyMaintenanceOutcome a kind outcome dt = Ok (a', d)) :
  (d = MaintenanceContinue <-> outcome = MaintenanceSucceeded) /\
  (outcome = MaintenanceSucceeded -> a' = a) /\
  (outcome <> MaintenanceSucceeded ->
     d = MaintenanceStopAndSurrender /\ Attempt_Resolved a' = true /\
     (Attempt_Definitive a' = true -> a' = a)).
Proof.
  apply Maintenance_cases in H as [(-> & -> & ->)|(Ho & -> & [[Hr ->]|(Hr & now & H)])].
  - split_and!; done.
  - split_and!; [split; done|done|]. intros _. by split_and!.
  - apply Recover_iff in H as (n & s & _ & _ & Hs & _ & ->).
    assert (s = AttemptStateIndeterminate) as -> by (destruct (at_state a); naive_solver).
    split_and!; [split; done|done|]. intros _. split_and!; done.
Qed.

Lemma maintenance_fails_closed_witness :
  Attempt_Resolved (s_at AttemptStateIndeterminate (s_now + second) (s_now + 2 * second)) = true.
Proof.
  apply (maintenance_fails_closed s_dispatched MaintenanceStoreLease MaintenanceUnknown (s_now + 2 * second) _
    MaintenanceStopAndSurrender); [vm_compute; reflexivity|discriminate].
Defined.

(** The retry gate admits exactly two cases: an effect known not to have
    happened, without a proof; or an indeterminate effect with a valid proof
    for this very effect and request that has not expired.  Applied, prepared
    and dispatched effects are never retried. *)
Theorem retry_gate_exact (dt : time) (projection : EffectProjection) (fingerprint : RequestFingerprint)
  (proof : option RetryProof) :
  CheckRetry dt projection fingerprint proof = Ok tt <->
  exists now, normalizeTime dt = Some now /\ validateEffectProjection projection = true /\
    dv_initialized fingerprint = true /\ ep_updatedAt projection <= now /\
    ((ep_state projection = AttemptStateNoEffect /\ proof = None) \/
     (ep_state projection = AttemptStateIndeterminate /\ exists p, proof = Some p /\
        validRetryProof p = true /\ rp_effect p = ep_key projection /\
        equalDigest (rp_fingerprint p) fingerprint = true /\ now < rp_validUntil p)).
Proof. apply CheckRetry_iff. Qed.

(** The generation gate is exact: a new generation may dispatch exactly
    when all prior effects are valid, distinct, of the same resource and of
    lower generations, and the effects that are not definitive are precisely
    the ones named by the given supersession proofs, one proof each. *)
Theorem generation_gate_exact (candidate : EffectKey) (prior : list EffectProjection)
  (proofs : list SafeSupersessionProof) :
  CheckGenerationDispatch candidate prior proofs = Ok tt <-> generation_safe candidate prior proofs.
Proof. split; [apply CheckGenerationDispatch_sound|apply CheckGenerationDispatch_complete]. Qed.

Example generation_gate_open :
  CheckGenerationDispatch s_effect_next [s_projection AttemptStateIndeterminate] [s_supersession] = Ok tt.
Proof. vm_compute. reflexivity. Qed.

Example generation_gate_closed :
  CheckGenerationDispatch s_effect_next [s_projection AttemptStateIndeterminate] [] = Err ErrGenerationBlocked /\
  CheckGenerationDispatch s_effect_next [s_projection AttemptStateApplied] [s_supersession] = Err ErrGenerationBlocked.
Proof. vm_compute. split; reflexivity. Qed.

(** The fields a dispatch permit pins. *)
Record attempt_identity_eq (a b : Attempt) : Prop := {
  ai_id : at_id a = at_id b;
  ai_ordinal : at_ordinal a = at_ordinal b;
  ai_plan : dv_digest (at_planDigest a) = dv_digest (at_planDigest b);
  ai_kind : at_planKind a = at_planKind b;
  ai_effect : dv_digest (ek_digest (at_effect a)) = dv_digest (ek_digest (at_effect b));
  ai_purpose : at_purpose a = at_purpose b;
  ai_owner : at_ownerID a = at_ownerID b;
  ai_fence : at_fence a = at_fence b;
  ai_request : dv_digest (at_requestFingerprint a) = dv_digest (at_requestFingerprint b);
  ai_admission : dv_digest (at_admissionBinding a) = dv_digest (at_admissionBinding b);
}.

(** The widths of the machine integers and frames that are hashed. *)
Record attempt_sized (a : Attempt) : Prop := {
  az_ordinal : in_int64 (at_ordinal a);
  az_fence : in_int64 (at_fence a);
  az_frames : Forall frame_sized (attempt_dispatch_frames a);
}.

Lemma attempt_frames_inj a b :
  ValidateAttempt a = true -> ValidateAttempt b = true -> attempt_sized a -> attempt_sized b ->
  attempt_dispatch_frames a = attempt_dispatch_frames b -> attempt_identity_eq a b.
Proof.
  intros Ha Hb Sa Sb H. unfold attempt_dispatch_frames in H. simpl in H.
  unfold ValidateAttempt in Ha, Hb. autorewrite with guards in Ha, Hb. destruct_and!.
  do 2 apply cons_inv in H as [_ H].
  apply cons_inv in H as [Hid H]. apply cons_inv in H as [Hord H]. apply cons_inv in H as [Hplan H].
  apply cons_inv in H as [Hkind H]. apply cons_inv in H as [Heff H]. apply cons_inv in H as [Hpur H].
  apply cons_inv in H as [Hown H]. apply cons_inv in H as [Hfence H]. apply cons_inv in H as [Hreq H].
  apply cons_inv in H as [Hadm _].
  apply put_int64_inj in Hord; [|apply Sa|apply Sb]. apply put_int64_inj in Hfence; [|apply Sa|apply Sb].
  split; try done.
  - by apply (spelled_inj (T:=PlanKind)).
  - by apply (spelled_inj (T:=AttemptPurpose)).
Qed.

(** A dispatch permit is bound to one attempt.  If two valid attempts can
    both be marked dispatched with permits carrying the same attempt binding,
    they have the same ID, ordinal, plan, effect, purpose, owner, fence, request
    and admission, unless their two preimages are a SHA-256 collision. *)
Theorem permit_binds_attempt (a b a' b' : Attempt) (p q : DispatchPermit) (da db : time)
  (sa sb sa' sb' : heap * LeaseTable)
  (Ha : LeaseTable_MarkAttemptDispatched a p da sa = (Ok a', sa'))
  (Hb : LeaseTable_MarkAttemptDispatched b q db sb = (Ok b', sb'))
  (Hpq : dp_attemptBinding p = dp_attemptBinding q)
  (Sa : attempt_sized a) (Sb : attempt_sized b)
  (Hno_collision : sha256 (preimage (attempt_dispatch_frames a)) = sha256 (preimage (attempt_dispatch_frames b)) ->
                   preimage (attempt_dispatch_frames a) = preimage (attempt_dispatch_frames b)) :
  attempt_identity_eq a b.
Proof.
  destruct sa, sb, sa', sb'. apply Mark_spec in Ha as [_ Ha]. apply Mark_spec in Hb as [_ Hb].
  destruct (Ha _ eq_refl) as (? & ? & ? & _ & _ & Hva & _ & _ & _ & _ & _ & _ & Hda & _).
  destruct (Hb _ eq_refl) as (? & ? & ? & _ & _ & Hvb & _ & _ & _ & _ & _ & _ & Hdb & _).
  apply equalDigest_true in Hda as (_ & _ & Hda), Hdb as (_ & _ & Hdb).
  rewrite Hda, Hdb in Hpq. unfold deriveAttemptDispatchBinding, digestFromHasher in Hpq.
  apply (f_equal dv_digest) in Hpq. cbn [dv_digest] in Hpq.
  apply Hno_collision, preimage_inj in Hpq; [|apply Sa|apply Sb]. by apply attempt_frames_inj.
Qed.

Definition s_permit_for (a : Attempt) : DispatchPermit :=
  DP true s_token (deriveAttemptDispatchBinding a) (s_now + second) (s_now + 11 * second) (Some 3%positive).

Lemma permit_binds_attempt_witness : attempt_identity_eq s_prepared s_prepared.
Proof.
  assert (attempt_sized s_prepared) as Hsz.
  { split; [vm_compute; split; discriminate|vm_compute; split; discriminate|].
    repeat constructor; unfold frame_sized; vm_compute; discriminate. }
  pose (w := history s_world s_acquired).
  eapply (permit_binds_attempt s_prepared s_prepared _ _ (s_permit_for s_prepared) (s_permit_for s_prepared)
    (s_now + 2 * second) (s_now + 2 * second) (w_heap w, w_table w) (w_heap w, w_table w)).
  - vm_compute. reflexivity.
  - vm_compute. reflexivity.
  - reflexivity.
  - exact Hsz.
  - exact Hsz.
  - intros _. reflexivity.
Defined.
