(* ===== verification/Observation.v ===== *)
(** * Observation budgets, crash recovery and retention (reconciliation/model.go)

    A budget bounds, in attempts and in time, the resolution of one
    indeterminate effect.  Each budget value is one version of a linear chain:
    the shared transition flag lets exactly one successor be minted from it,
    whatever number of copies exist. *)

From S2P Require Import Prelude Bytes Sha256 GoTime Atomics Closed Vocabulary Digests Plan Lease Attempt.
From Stdlib Require Import String.

(** ** Crash recovery *)

Definition RecoveryForCrash (point : CrashPoint) : result error RecoveryAction :=
  match point with
  | CrashBeforeAPICommit => Ok RecoveryNoAcceptedWork
  | CrashAfterAPICommit => Ok RecoveryReplayDurableResult
  | CrashBeforeOutboxPublish => Ok RecoveryReclaimOutbox
  | CrashAfterOutboxPublish => Ok RecoveryRepublishAllowed
  | CrashDeliveryBeforeFence => Ok RecoveryNoProviderEffect
  | CrashAfterAttemptPreparation => Ok RecoveryRecordIndeterminate
  | CrashAfterResultCommit => Ok RecoveryDurableNoOp
  | CrashLeaseLostDuringDispatch => Ok RecoveryStopAndObserve
  | CrashPointOther _ => Err ErrInvalidTransition
  end.

(** ** Budgets and permits *)

Record ObservationBudget := OB {
  ob_initialized : bool;
  ob_effect : EffectKey;
  ob_maximum : Z;
  ob_used : Z;
  ob_deadline : time;
  ob_lastAt : time;
  ob_version : Z;
  ob_inFlight : bool;
  ob_binding : digestValue;
  ob_transition : option loc;
  ob_done : bool;
  ob_quarantined : bool;
}.

Record ObservationPermit := OP {
  op_initialized : bool;
  op_effect : EffectKey;
  op_version : Z;
  op_reservedAt : time;
  op_deadline : time;
  op_binding : digestValue;
  op_transition : option loc;
}.

(** The states of a permit's counter. *)
Definition observationReserved : Z := 0.
Definition observationAdmitted : Z := 1.
Definition observationPrepared : Z := 2.
Definition observationReleased : Z := 3.

Definition HeapM := ST heap error.

Definition heap_new_bool : HeapM loc := fun h => let '(l, h') := new_bool h in (Ok l, h').
Definition heap_new_word : HeapM loc := fun h => let '(l, h') := new_word h in (Ok l, h').

Definition heap_use_once (cell : option loc) (e : error) : HeapM unit := fun h =>
  match cell with
  | None => (Err e, h)
  | Some l => let '(swapped, h') := cas_bool h l false true in
              if swapped then (Ok tt, h') else (Err e, h')
  end.

Definition validateObservationBudget (value : ObservationBudget) : bool :=
  negb (negb (ob_initialized value) || negb (ValidateEffectKey (ob_effect value)) || (ob_maximum value =? 0)
        || (MaxObservationAttempts <? ob_maximum value) || (ob_maximum value <? ob_used value)
        || is_zero (ob_deadline value) || (ob_version value =? 0) || negb (is_some (ob_transition value))
        || (ob_quarantined value && negb (ob_done value))
        || negb (Bool.eqb (ob_inFlight value) (dv_initialized (ob_binding value)))
        || (ob_done value && ob_inFlight value)
        || ((0 <? ob_used value) && is_zero (ob_lastAt value))).

Definition validateObservationPermit (value : ObservationPermit) : bool :=
  negb (negb (op_initialized value) || negb (ValidateEffectKey (op_effect value)) || (op_version value <? 2)
        || is_zero (op_reservedAt value) || negb (stored_normal (op_deadline value))
        || negb (before (op_reservedAt value) (op_deadline value)) || negb (dv_initialized (op_binding value))
        || negb (is_some (op_transition value))).

Definition deriveObservationBinding (effect : EffectKey) (version used : Z) (reservedAt deadline : time)
    : digestValue :=
  digestFromHasher ["veer.reconciliation.observation-admission.v1"; ContractVersion;
    dv_digest (ek_digest effect); put_uint64 version; put_uint64 used;
    put_uint64 (unix_milli reservedAt); put_uint64 (unix_milli deadline)].

Definition NewObservationBudget (effect : EffectKey) (maximum : Z) (deadline : time) : HeapM ObservationBudget :=
  until ← lift (of_option (normalizeTime deadline) ErrInvalidObservation);
  reject (negb (ValidateEffectKey effect) || (maximum =? 0) || (MaxObservationAttempts <? maximum))
    ErrInvalidObservation;;
  cell ← heap_new_bool;
  mret (OB true effect maximum 0 until zero_time 1 false digest_zero (Some cell) false false).

(** The successor of a budget: next version, fresh transition flag. *)
Definition ob_next (b : ObservationBudget) (used : Z) (lastAt : time) (inFlight : bool) (binding : digestValue)
    (cell : loc) (done quarantined : bool) : ObservationBudget :=
  OB (ob_initialized b) (ob_effect b) (ob_maximum b) used (ob_deadline b) lastAt (ob_version b + 1)
     inFlight binding (Some cell) done quarantined.

Definition ReserveObservation (b : ObservationBudget) (reservedAt : time)
    : HeapM (ObservationBudget * ObservationPermit) :=
  reject (negb (validateObservationBudget b)) ErrInvalidObservation;;
  at' ← lift (of_option (normalizeTime reservedAt) ErrInvalidObservation);
  reject (negb (is_zero (ob_lastAt b)) && before at' (ob_lastAt b)) ErrInvalidObservation;;
  reject (ob_done b || ob_inFlight b || (ob_maximum b <=? ob_used b) || negb (before at' (ob_deadline b))
          || (ob_version b =? max_uint64)) ErrObservationExhausted;;
  heap_use_once (ob_transition b) ErrInvalidObservation;;
  let used := ob_used b + 1 in
  let binding := deriveObservationBinding (ob_effect b) (ob_version b + 1) used at' (ob_deadline b) in
  cell ← heap_new_bool;
  word ← heap_new_word;
  mret (ob_next b used at' true binding cell (ob_done b) (ob_quarantined b),
        OP true (ob_effect b) (ob_version b + 1) at' (ob_deadline b) binding (Some word)).

(** The compare-and-swap loop of [ReleaseObservation]: one iteration suffices
    when no other step intervenes. *)
Definition release_permit (cell : option loc) : HeapM unit := fun h =>
  match cell with
  | None => (Err ErrInvalidObservation, h)
  | Some l =>
      let state := load_word h l in
      if negb (state =? observationReserved) && negb (state =? observationAdmitted)
      then (Err ErrInvalidObservation, h)
      else (Ok tt, (cas_word h l state observationReleased).2)
  end.

Definition ReleaseObservation (b : ObservationBudget) (permit : ObservationPermit) (releasedAt : time)
    : HeapM ObservationBudget :=
  reject (negb (validateObservationBudget b) || negb (ob_inFlight b) || negb (validateObservationPermit permit)
          || negb (EffectKey_Equal (op_effect permit) (ob_effect b)) || negb (op_version permit =? ob_version b)
          || negb (time_equal (op_reservedAt permit) (ob_lastAt b))
          || negb (time_equal (op_deadline permit) (ob_deadline b))
          || negb (equalDigest (op_binding permit) (ob_binding b)) || (ob_version b =? max_uint64))
    ErrInvalidObservation;;
  at' ← lift (of_option (normalizeTime releasedAt) ErrInvalidObservation);
  reject (before at' (ob_lastAt b)) ErrInvalidObservation;;
  release_permit (op_transition permit);;
  heap_use_once (ob_transition b) ErrInvalidObservation;;
  cell ← heap_new_bool;
  mret (ob_next b (ob_used b) at' false digest_zero cell (ob_done b) (ob_quarantined b)).

Definition projection_moved (p : EffectProjection) (state : AttemptState) (source : ID) (updatedAt : time)
    : EffectProjection :=
  EP (ep_initialized p) (ep_key p) (ep_planDigest p) source (ep_purpose p) (ep_compensation p)
     (ep_cancellationTarget p) state updatedAt.

Definition observation_target_moved (current : EffectProjection) (a : Attempt) : bool :=
  match at_observationTarget a with
  | None => true
  | Some target => negb (effectProjectionIdentityEqual current target)
                   || before (ep_updatedAt current) (ep_updatedAt target)
  end.

Definition exact_observation_target (current : EffectProjection) (a : Attempt) : bool :=
  match at_observationTarget a with Some target => effectProjectionsEqual current target | None => false end.

Definition CompleteObservation (b : ObservationBudget) (current : EffectProjection) (a : Attempt)
    : HeapM (ObservationBudget * EffectProjection * ObservationDecision) :=
  reject (negb (validateObservationBudget b) || negb (ob_inFlight b) || negb (validateEffectProjection current)
          || negb (ValidateAttempt a) || negb (bool_decide (at_purpose a = AttemptPurposeObservation))
          || negb (EffectKey_Equal (at_effect a) (ob_effect b))
          || negb (dv_initialized (at_observationBinding a))
          || negb (time_equal (at_observationDeadline a) (ob_deadline b))
          || observation_target_moved current a
          || negb (equalDigest (at_observationBinding a) (ob_binding b)) || negb (Attempt_Resolved a)
          || before (at_resolvedAt a) (ob_lastAt b) || (ob_version b =? max_uint64)) ErrInvalidObservation;;
  heap_use_once (ob_transition b) ErrInvalidObservation;;
  let completionAt := if after (ep_updatedAt current) (at_resolvedAt a) then ep_updatedAt current
                      else at_resolvedAt a in
  cell ← heap_new_bool;
  let next := ob_next b (ob_used b) completionAt false digest_zero cell in
  if exact_observation_target current a && Attempt_Definitive a && negb (is_zero (at_dispatchedAt a)) then
    mret (next true (ob_quarantined b),
          projection_moved current (at_state a) (at_id a) (at_resolvedAt a), ObservationResolved)
  else if bool_decide (ep_state current = AttemptStateApplied)
          || bool_decide (ep_state current = AttemptStateNoEffect) then
    mret (next true (ob_quarantined b), current, ObservationResolved)
  else if (ob_maximum b <=? ob_used b) || negb (before completionAt (ob_deadline b)) then
    mret (next true true, current, ObservationQuarantine)
  else mret (next (ob_done b) (ob_quarantined b), current, ObservationContinue).

Definition ExpireObservationBudget (b : ObservationBudget) (observedAt : time)
    : HeapM (ObservationBudget * ObservationDecision) :=
  reject (negb (validateObservationBudget b)) ErrInvalidObservation;;
  if ob_done b then mret (b, ObservationAlreadyDone) else
  at' ← lift (of_option (normalizeTime observedAt) ErrInvalidObservation);
  reject (ob_inFlight b || before at' (ob_lastAt b) || before at' (ob_deadline b)
          || (ob_version b =? max_uint64)) ErrInvalidObservation;;
  heap_use_once (ob_transition b) ErrInvalidObservation;;
  cell ← heap_new_bool;
  mret (ob_next b (ob_used b) at' (ob_inFlight b) (ob_binding b) cell true true, ObservationQuarantine).

(** ** Retention *)

Record EffectRetentionInput := ERI {
  er_Projection : EffectProjection;
  er_DeletedAt : option time;
  er_EvaluatedAt : time;
  er_OperationReferences : bool;
  er_OutboxReferences : bool;
  er_DeliveryReferences : bool;
  er_RedriveAuthority : bool;
}.

Definition EvaluateEffectRetention (input : EffectRetentionInput) : result error RetentionDisposition :=
  let projection := er_Projection input in
  fail_if (negb (validateEffectProjection projection)) ErrInvalidRetention;;
  now ← of_option (normalizeTime (er_EvaluatedAt input)) ErrInvalidRetention;
  fail_if (before now (ep_updatedAt projection)) ErrInvalidRetention;;
  match er_DeletedAt input with
  | None => Ok RetentionKeep
  | Some deleted =>
      deletedAt ← of_option (normalizeTime deleted) ErrInvalidRetention;
      fail_if (after deletedAt now) ErrInvalidRetention;;
      if bool_decide (ep_state projection = AttemptStatePrepared)
         || bool_decide (ep_state projection = AttemptStateDispatched)
         || bool_decide (ep_state projection = AttemptStateIndeterminate)
         || er_OperationReferences input || er_OutboxReferences input || er_DeliveryReferences input
         || er_RedriveAuthority input
         || (time_sub now deletedAt <? MinimumEffectTombstoneRetention)
      then Ok RetentionKeep
      else Ok RetentionEligible
  end.

(** ** Public state after cancellation *)

(** [canPrepareAfterCancellation] *)
Definition canPrepareAfterCancellation (purpose : AttemptPurpose) : result error unit :=
  match purpose with
  | AttemptPurposeObservation | AttemptPurposeProviderCancel => Ok tt
  | AttemptPurposeForward | AttemptPurposeCompensation => Err ErrInvalidTransition
  | AttemptPurposeOther _ => Err ErrInvalidAttempt
  end.
