(* ===== verification/ObservationProps.v ===== *)
(** * Properties of observation budgets and retention

    Every successful transition of a budget consumes its flag, so budget
    values form one linear chain; the chain is bounded by the budget's maximum
    and only an exact, definitive observation moves an effect's truth. *)

From S2P Require Import Prelude Bytes Sha256 GoTime Atomics Closed Vocabulary Digests Plan PlanProps.
From S2P Require Import Lease LeaseSpec Attempt LeaseProps AttemptProps Observation.
From Stdlib Require Import String.

(** ** Calls on budgets *)

Inductive budget_call :=
| CallReserveObs (b : ObservationBudget) (dt : time)
| CallReleaseObs (b : ObservationBudget) (permit : ObservationPermit) (dt : time)
| CallCompleteObs (b : ObservationBudget) (current : EffectProjection) (a : Attempt)
| CallExpireObs (b : ObservationBudget) (dt : time).

Definition call_budget (c : budget_call) : ObservationBudget :=
  match c with
  | CallReserveObs b _ | CallReleaseObs b _ _ | CallCompleteObs b _ _ | CallExpireObs b _ => b
  end.

(** The budget a call returns. *)
Definition run_budget (c : budget_call) : HeapM ObservationBudget :=
  match c with
  | CallReserveObs b dt => '(b', _) ← ReserveObservation b dt; mret b'
  | CallReleaseObs b p dt => ReleaseObservation b p dt
  | CallCompleteObs b cur a => '(b', _, _) ← CompleteObservation b cur a; mret b'
  | CallExpireObs b dt => '(b', _) ← ExpireObservationBudget b dt; mret b'
  end.

Definition budget_history (h : heap) (cs : list budget_call) : heap :=
  foldl (fun h c => (run_budget c h).2) h cs.

(** ** Heap effects *)

Definition heap_grows {A} (m : HeapM A) : Prop := forall h r h', m h = (r, h') -> heap_le h h'.

Lemma heap_grows_bind {A B} (m : HeapM A) (f : A -> HeapM B) :
  heap_grows m -> (forall a, heap_grows (f a)) -> heap_grows (m ≫= f).
Proof.
  intros Hm Hf h r h'. unfold mbind, ST_bind. destruct (m h) as [[a|e] h1] eqn:E.
  - intros H. etrans; [exact (Hm _ _ _ E) | exact (Hf _ _ _ _ H)].
  - intros [= <- <-]. exact (Hm _ _ _ E).
Qed.

Lemma heap_grows_lift {A} (r : result error A) : heap_grows (lift r).
Proof. by intros s r' s' [= <- <-]. Qed.
Lemma heap_grows_reject b e : heap_grows (reject b e).
Proof. by intros s r' s' [= <- <-]. Qed.
Lemma heap_grows_ret {A} (a : A) : heap_grows (mret a).
Proof. by intros s r' s' [= <- <-]. Qed.
Lemma heap_grows_new_bool : heap_grows heap_new_bool.
Proof. intros h r h' [= <- <-]. apply new_bool_le. Qed.
Lemma heap_grows_new_word : heap_grows heap_new_word.
Proof. intros h r h' [= <- <-]. apply new_word_le. Qed.
Lemma heap_grows_use_once c e : heap_grows (heap_use_once c e).
Proof.
  intros h r h'. unfold heap_use_once. destruct c as [l|]; [|by intros [= <- <-]].
  destruct (cas_bool h l false true) as [b h1] eqn:E. pose proof (cas_bool_le _ _ _ _ E).
  destruct b; by intros [= <- <-].
Qed.
Lemma heap_grows_release c : heap_grows (release_permit c).
Proof.
  intros h r h'. unfold release_permit. destruct c as [l|]; [|by intros [= <- <-]].
  destruct (_ && _) eqn:E; intros [= <- <-]; [done|]. apply cas_word_le.
  apply andb_false_iff in E. autorewrite with guards in E. unfold observationReserved, observationAdmitted in E. lia.
Qed.

#[export] Hint Resolve heap_grows_lift heap_grows_reject heap_grows_ret heap_grows_new_bool heap_grows_new_word
  heap_grows_use_once heap_grows_release : heap_grows.
#[export] Hint Extern 2 (heap_grows (_ ≫= _)) => apply heap_grows_bind; [|intros] : heap_grows.
#[export] Hint Extern 2 (heap_grows (let '_ := ?x in _)) => destruct x : heap_grows.
#[export] Hint Extern 2 (heap_grows (match ?x with _ => _ end)) => destruct x : heap_grows.

Lemma run_budget_grows c : heap_grows (run_budget c).
Proof.
  destruct c; simpl; unfold ReserveObservation, ReleaseObservation, CompleteObservation,
    ExpireObservationBudget; cbv zeta; auto 40 with heap_grows.
Qed.

Lemma budget_history_grows cs : forall h, heap_le h (budget_history h cs).
Proof.
  induction cs as [|c cs IH]; simpl; intros h; [done|]. etrans; [|apply IH].
  destruct (run_budget c h) as [r h'] eqn:E. simpl. by eapply run_budget_grows.
Qed.

Lemma heap_use_once_ok cell e h u h' :
  heap_use_once cell e h = (Ok u, h') ->
  exists l, cell = Some l /\ load_bool h l = false /\ load_bool h' l = true.
Proof.
  unfold heap_use_once. destruct cell as [l|]; [|done].
  destruct (cas_bool h l false true) as [[] h1] eqn:E; [|done]. intros [= _ <-].
  exists l. split; [done|]. by apply cas_bool_swapped.
Qed.

Lemma release_permit_bools c h u h' : release_permit c h = (Ok u, h') -> forall l, load_bool h' l = load_bool h l.
Proof.
  unfold release_permit. repeat case_match; intros [= _ <-] l0. unfold cas_word. by case_match.
Qed.

(** ** One link of the chain *)

(** Stored budgets: valid, with counters in their ranges. *)
Record budget_ok (b : ObservationBudget) : Prop := {
  bo_valid : validateObservationBudget b = true;
  bo_used : 0 <= ob_used b;
  bo_version : 0 <= ob_version b <= max_uint64;
  bo_lastAt : 0 <= ob_lastAt b;
}.

(** Each reservation opens one flight, each flight closes once, and the budget
    closes once: the measure every transition raises. *)
Definition budget_measure (b : ObservationBudget) : Z :=
  2 * ob_used b - Z.b2z (ob_inFlight b) + Z.b2z (ob_done b).

Record budget_next (b b' : ObservationBudget) : Prop := {
  bn_live : ob_done b = false;
  bn_effect : ob_effect b' = ob_effect b;
  bn_maximum : ob_maximum b' = ob_maximum b;
  bn_deadline : ob_deadline b' = ob_deadline b;
  bn_version : ob_version b' = ob_version b + 1 /\ ob_version b' <= max_uint64;
  bn_used : ob_used b' = ob_used b \/
            (ob_used b' = ob_used b + 1 /\ ob_inFlight b = false /\ ob_inFlight b' = true /\
             ob_used b < ob_maximum b /\ ob_lastAt b' < ob_deadline b);
  bn_flight : ob_used b' = ob_used b -> ob_inFlight b' = false;
  bn_lastAt : ob_lastAt b <= ob_lastAt b';
  bn_progress : budget_measure b + 1 <= budget_measure b';
  bn_done : ob_quarantined b' = true -> ob_quarantined b = false /\ ob_done b' = true /\ ob_inFlight b' = false;
}.

(** Reservation instants after the first millisecond of year one. *)
Definition call_time_ok (c : budget_call) : Prop :=
  match c with CallReserveObs _ dt => millisecond <= dt | _ => True end.

Lemma validBudget_facts b :
  validateObservationBudget b = true ->
  ValidateEffectKey (ob_effect b) = true /\ ob_maximum b <> 0 /\ ob_maximum b <= MaxObservationAttempts /\
  ob_used b <= ob_maximum b /\ ob_deadline b <> 0 /\ ob_version b <> 0 /\ is_some (ob_transition b) = true /\
  (ob_quarantined b = true -> ob_done b = true) /\ ob_inFlight b = dv_initialized (ob_binding b) /\
  (ob_done b = true -> ob_inFlight b = false) /\ (0 < ob_used b -> ob_lastAt b <> 0) /\ ob_initialized b = true.
Proof.
  unfold validateObservationBudget. intros H.
  destruct (ob_quarantined b), (ob_done b), (ob_inFlight b), (dv_initialized (ob_binding b));
    simpl in H; rewrite ?orb_true_r in H; try done;
    autorewrite with guards in H; rewrite ?andb_false_iff in H;
    autorewrite with guards in H; naive_solver lia.
Qed.

Lemma validBudget_intro b :
  ValidateEffectKey (ob_effect b) = true -> ob_maximum b <> 0 -> ob_maximum b <= MaxObservationAttempts ->
  ob_used b <= ob_maximum b -> ob_deadline b <> 0 -> ob_version b <> 0 -> is_some (ob_transition b) = true ->
  (ob_quarantined b = true -> ob_done b = true) -> ob_inFlight b = dv_initialized (ob_binding b) ->
  (ob_done b = true -> ob_inFlight b = false) -> (0 < ob_used b -> ob_lastAt b <> 0) -> ob_initialized b = true ->
  validateObservationBudget b = true.
Proof.
  unfold validateObservationBudget. intros He Hm HM Hu Hd Hv Ht Hq Hf Hdone Hl Hi.
  rewrite He, Ht, Hi, <- Hf, Bool.eqb_reflx. apply negb_true. rewrite !orb_false_iff.
  split_and!; try done; autorewrite with guards; try done.
  - destruct (ob_quarantined b); [simpl; rewrite Hq by done; done|done].
  - destruct (ob_done b); [simpl; rewrite Hdone by done; done|done].
  - apply andb_false_iff. autorewrite with guards. destruct (Z.le_gt_cases (ob_used b) 0); [by left|right]. auto.
Qed.

(** The successor of a valid budget is valid. *)
Lemma ob_next_ok b used lastAt inFlight binding cell done quarantined :
  budget_ok b -> ob_version b <> max_uint64 ->
  ob_used b <= used <= ob_maximum b -> ob_lastAt b <= lastAt -> (0 < used -> lastAt <> 0) ->
  inFlight = dv_initialized binding -> (done = true -> inFlight = false) -> (quarantined = true -> done = true) ->
  budget_ok (ob_next b used lastAt inFlight binding cell done quarantined).
Proof.
  intros [Hv Hu Hver Hl] Hmax Hused Hlast Hz Hf Hdone Hq.
  apply validBudget_facts in Hv as (? & ? & ? & ? & ? & ? & ? & ? & ? & ? & ? & ?).
  split; simpl; try lia. apply validBudget_intro; simpl; try done; lia.
Qed.

Ltac solve_progress :=
  repeat match goal with
  | H : ob_inFlight ?b = true |- context [ob_inFlight ?b] => rewrite H
  | H : ob_inFlight ?b = false |- context [ob_inFlight ?b] => rewrite H
  | H : ob_done ?b = false |- context [ob_done ?b] => rewrite H
  end; simpl;
  repeat match goal with |- context [Z.b2z ?x] => destruct x; simpl end; lia.

Lemma normalizeTime_pos t u : millisecond <= t -> normalizeTime t = Some u -> 0 < u.
Proof. intros Ht H. apply normalizeTime_le in H. lia. Qed.

Lemma deriveObservationBinding_init e v u r d : dv_initialized (deriveObservationBinding e v u r d) = true.
Proof. done. Qed.

(** ** What the transitions return *)

Lemma Reserve_obs_ok b dt b' p h h' :
  budget_ok b -> millisecond <= dt -> ReserveObservation b dt h = (Ok (b', p), h') ->
  budget_ok b' /\ budget_next b b' /\ (exists l, ob_transition b = Some l /\ load_bool h l = false /\ load_bool h' l = true).
Proof.
  intros Hok Hdt H. pose proof (validBudget_facts b (bo_valid b Hok)) as Hfacts.
  unfold ReserveObservation in H. run_inv H.
  match goal with Hn : normalizeTime _ = Some ?n |- _ =>
    pose proof (normalizeTime_pos _ _ Hdt Hn) end.
  match goal with Hu : heap_use_once _ _ _ = _ |- _ => apply heap_use_once_ok in Hu as (l & Hl & Hfree & Hused) end.
  match goal with Hb : heap_new_bool ?x = _ |- _ => injection Hb as _ <- end.
  match goal with Hw : heap_new_word ?x = _ |- _ => injection Hw as _ <- end.
  match goal with Hg : _ && before _ (ob_lastAt b) = false |- _ =>
    apply andb_false_iff in Hg; autorewrite with guards in Hg end.
  match goal with Hg : _ || _ || _ || _ || _ = false |- _ => autorewrite with guards in Hg end.
  destruct_and!. destruct Hok as [? ? ? ?].
  split_and!.
  - apply ob_next_ok; try done; try lia. congruence.
  - split; simpl; try done; try lia; try (right; by split_and!); try (unfold budget_measure; simpl; solve_progress).
    intros E. match goal with Hq : ob_quarantined b = true -> _ |- _ => specialize (Hq E) end. congruence.
  - exists l. split_and!; [done|done|]. rewrite <- Hused. apply (new_bool_load _ l).
Qed.

Lemma Release_obs_ok b permit dt b' h h' :
  budget_ok b -> ReleaseObservation b permit dt h = (Ok b', h') ->
  budget_ok b' /\ budget_next b b' /\ (exists l, ob_transition b = Some l /\ load_bool h l = false /\ load_bool h' l = true).
Proof.
  intros Hok H. pose proof (validBudget_facts b (bo_valid b Hok)) as Hfacts.
  unfold ReleaseObservation in H. run_inv H.
  match goal with Hp : release_permit _ _ = _ |- _ => pose proof (release_permit_bools _ _ _ _ Hp) as Hsame end.
  match goal with Hu : heap_use_once _ _ _ = _ |- _ => apply heap_use_once_ok in Hu as (l & Hl & Hfree & Hused) end.
  match goal with Hb : heap_new_bool ?x = _ |- _ => injection Hb as _ <- end.
  autorewrite with guards in *. destruct_and!. destruct Hok as [? ? ? ?].
  assert (ob_done b = false) as Hnd.
  { match goal with Hd : ob_done b = true -> _ |- _ => destruct (ob_done b); [specialize (Hd eq_refl)|done] end.
    congruence. }
  split_and!.
  - apply ob_next_ok; try done; lia.
  - split; simpl; try done; try lia; try (by left); try (unfold budget_measure; simpl; rewrite ?Hnd; simpl; solve_progress).
    intros E. match goal with Hq : ob_quarantined b = true -> _ |- _ => specialize (Hq E) end. congruence.
  - exists l. split_and!; [done|by rewrite <- Hsame|]. rewrite <- Hused. apply (new_bool_load _ l).
Qed.

Lemma Expire_obs_ok b dt b' d h h' :
  budget_ok b -> ob_done b = false -> ExpireObservationBudget b dt h = (Ok (b', d), h') ->
  budget_ok b' /\ budget_next b b' /\ ob_quarantined b' = true /\ d = ObservationQuarantine /\
  (exists l, ob_transition b = Some l /\ load_bool h l = false /\ load_bool h' l = true).
Proof.
  intros Hok Hnd H. pose proof (validBudget_facts b (bo_valid b Hok)) as Hfacts.
  unfold ExpireObservationBudget in H. rewrite Hnd in H. run_inv H.
  match goal with Hu : heap_use_once _ _ _ = _ |- _ => apply heap_use_once_ok in Hu as (l & Hl & Hfree & Hused) end.
  match goal with Hb : heap_new_bool ?x = _ |- _ => injection Hb as _ <- end.
  autorewrite with guards in *. destruct_and!. destruct Hok as [? ? ? ?].
  split_and!; try done.
  - apply ob_next_ok; try done; lia.
  - split; simpl; try done; try lia; try (by left); try (unfold budget_measure; simpl; rewrite ?Hnd; simpl; solve_progress).
    intros _. split_and!; try done. destruct (ob_quarantined b); [|done].
    match goal with Hq : true = true -> _ |- _ => specialize (Hq eq_refl) end. congruence.
  - exists l. split_and!; [done|done|]. rewrite <- Hused. apply (new_bool_load _ l).
Qed.

(** The instant an observation completes: the later of the attempt's
    resolution and the projection's last update. *)
Definition completion_at (current : EffectProjection) (a : Attempt) : time :=
  if after (ep_updatedAt current) (at_resolvedAt a) then ep_updatedAt current else at_resolvedAt a.

(** What completing an observation decides. *)
Inductive observation_verdict (b : ObservationBudget) (current : EffectProjection) (a : Attempt) :
    EffectProjection -> ObservationDecision -> bool -> bool -> Prop :=
| ov_observed target : at_observationTarget a = Some target -> effectProjectionsEqual current target = true ->
    Attempt_Definitive a = true -> at_dispatchedAt a <> 0 ->
    observation_verdict b current a (projection_moved current (at_state a) (at_id a) (at_resolvedAt a))
      ObservationResolved true (ob_quarantined b)
| ov_already : pending current = false -> observation_verdict b current a current ObservationResolved true (ob_quarantined b)
| ov_exhausted : pending current = true ->
    ob_maximum b <= ob_used b \/ ob_deadline b <= completion_at current a ->
    observation_verdict b current a current ObservationQuarantine true true
| ov_continue : pending current = true -> ob_used b < ob_maximum b -> completion_at current a < ob_deadline b ->
    observation_verdict b current a current ObservationContinue (ob_done b) (ob_quarantined b).

Lemma Complete_obs_cases b current a b' p' d h h' :
  CompleteObservation b current a h = (Ok (b', p', d), h') ->
  validateObservationBudget b = true /\ ob_inFlight b = true /\ ValidateAttempt a = true /\
  at_purpose a = AttemptPurposeObservation /\ Attempt_Resolved a = true /\ ob_version b <> max_uint64 /\
  ob_lastAt b <= at_resolvedAt a /\
  (exists l, ob_transition b = Some l /\ load_bool h l = false /\ load_bool h' l = true) /\
  exists cell done quarantined, observation_verdict b current a p' d done quarantined /\
    b' = ob_next b (ob_used b) (completion_at current a) false digest_zero cell done quarantined.
Proof.
  unfold CompleteObservation. intros H. apply st_bind_ok in H as (u & h1 & Hg & H). apply reject_ok in Hg as [Hg ->].
  rewrite !orb_false_iff, !negb_false in Hg. destruct_and!.
  apply st_bind_ok in H as (u1 & h1 & Hu & H). apply heap_use_once_ok in Hu as (l & Hl & Hfree & Hused).
  apply st_bind_ok in H as (cell & h2 & Hb & H). unfold heap_new_bool in Hb. simpl in Hb. injection Hb as <- <-.
  autorewrite with guards in *. fold (completion_at current a) in H.
  assert (forall h3, h3 = (new_bool h1).2 -> exists l, ob_transition b = Some l /\ load_bool h l = false /\ load_bool h3 l = true) as Hcell.
  { intros h3 ->. exists l. split_and!; [done|done|]. rewrite <- Hused. apply (new_bool_load h1 l). }
  split_and!; try done.
  - destruct (_ && _ && _); [by injection H as _ _ _ <-; apply Hcell|].
    destruct (_ || _); [by injection H as _ _ _ <-; apply Hcell|].
    destruct (_ || _); by injection H as _ _ _ <-; apply Hcell.
  - destruct (exact_observation_target current a && _ && _) eqn:Hex.
    + injection H as <- <- <- _. unfold exact_observation_target in Hex.
      destruct (at_observationTarget a) as [target|] eqn:Ht; [|done]. autorewrite with guards in Hex. destruct_and!.
      eexists _, _, _. split; [|done]. by eapply ov_observed.
    + destruct (bool_decide _ || bool_decide _) eqn:Hdef.
      { injection H as <- <- <- _. eexists _, _, _. split; [|done]. apply ov_already. unfold pending. by rewrite Hdef. }
      assert (pending current = true) as Hp by (unfold pending; by rewrite Hdef).
      destruct ((_ <=? _) || _) eqn:Hlim; injection H as <- <- <- _; eexists _, _, _; (split; [|done]).
      * apply ov_exhausted; [done|]. by autorewrite with guards in Hlim.
      * autorewrite with guards in Hlim. destruct_and!. by apply ov_continue.
Qed.

Lemma completion_at_ge current a : at_resolvedAt a <= completion_at current a.
Proof. unfold completion_at. destruct (after _ _) eqn:E; autorewrite with guards in E; lia. Qed.

Lemma Complete_obs_ok b current a b' p' d h h' :
  budget_ok b -> CompleteObservation b current a h = (Ok (b', p', d), h') ->
  budget_ok b' /\ budget_next b b' /\ (exists l, ob_transition b = Some l /\ load_bool h l = false /\ load_bool h' l = true).
Proof.
  intros Hok H. apply Complete_obs_cases in H as (Hv & Hfl & _ & _ & _ & Hver & Hlast & Hcell & cell & dn & qn & Hverdict & ->).
  pose proof (completion_at_ge current a). pose proof (validBudget_facts b Hv) as Hfacts. destruct_and!.
  assert (ob_done b = false) as Hnd.
  { match goal with Hd : ob_done b = true -> _ |- _ => destruct (ob_done b); [specialize (Hd eq_refl)|done] end.
    congruence. }
  assert (ob_quarantined b = false) as Hnq.
  { match goal with Hd : ob_quarantined b = true -> _ |- _ => destruct (ob_quarantined b); [specialize (Hd eq_refl)|done] end.
    congruence. }
  assert (qn = true -> dn = true) as Hqd by (destruct Hverdict; congruence).
  pose proof Hok as [? ? ? ?]. split_and!; [|split; simpl; try done; try lia; try (by left); try (unfold budget_measure; simpl; solve_progress); intros; split_and!; auto|done].
  apply ob_next_ok; try done; lia.
Qed.

(** A call that succeeds on a budget that is not done returns its one
    successor and spends the budget's flag. *)
Lemma run_budget_ok c b' h h' :
  budget_ok (call_budget c) -> call_time_ok c -> ob_done (call_budget c) = false ->
  run_budget c h = (Ok b', h') ->
  budget_ok b' /\ budget_next (call_budget c) b' /\
  (exists l, ob_transition (call_budget c) = Some l /\ load_bool h l = false /\ load_bool h' l = true).
Proof.
  intros Hok Ht Hnd H. destruct c as [b dt|b p dt|b cur a|b dt]; simpl in *.
  - run_inv H. destruct x. run_inv H. by eapply Reserve_obs_ok.
  - by eapply Release_obs_ok.
  - run_inv H. destruct x as [[? ?] ?]. run_inv H. by eapply Complete_obs_ok.
  - run_inv H. destruct x. run_inv H.
    match goal with He : ExpireObservationBudget _ _ _ = _ |- _ => apply Expire_obs_ok in He as (? & ? & _ & _ & ?) end; done.
Qed.

(** Nothing but the report of an expiry succeeds on a budget that is done. *)
Lemma run_budget_done c b' h h' :
  ob_done (call_budget c) = true -> run_budget c h = (Ok b', h') -> b' = call_budget c /\ h' = h.
Proof.
  destruct c as [b dt|b p dt|b cur a|b dt]; simpl; intros Hd H.
  - run_inv H. destruct x. run_inv H. unfold ReserveObservation in *. run_inv Hr. simpl in *.
    match goal with Hg : ob_done b || _ || _ || _ || _ = false |- _ => rewrite Hd in Hg end. done.
  - exfalso. unfold ReleaseObservation in H. apply st_bind_ok in H as (u & h1 & Hg & _).
    apply reject_ok in Hg as [Hg _]. rewrite !orb_false_iff, !negb_false in Hg. destruct_and!.
    match goal with Hv : validateObservationBudget b = true |- _ => apply validBudget_facts in Hv end.
    destruct_and!. match goal with Hx : ob_done b = true -> _ |- _ => specialize (Hx Hd) end. congruence.
  - exfalso. run_inv H. destruct x as [[? ?] ?]. apply Complete_obs_cases in Hr as (Hv & Hfl & _).
    apply validBudget_facts in Hv. destruct_and!.
    match goal with Hx : ob_done b = true -> _ |- _ => specialize (Hx Hd) end. congruence.
  - run_inv H. destruct x. run_inv H. unfold ExpireObservationBudget in Hr. rewrite Hd in Hr. run_inv Hr. done.
Qed.

(** ** Chains of budgets *)

Definition budget_step (b b' : ObservationBudget) : Prop :=
  exists c h h', call_budget c = b /\ call_time_ok c /\ ob_done b = false /\ run_budget c h = (Ok b', h').

Lemma NewObservationBudget_ok effect maximum deadline h b h' :
  0 <= maximum -> millisecond <= deadline -> NewObservationBudget effect maximum deadline h = (Ok b, h') ->
  budget_ok b /\ ob_effect b = effect /\ ob_maximum b = maximum /\ ob_version b = 1 /\ budget_measure b = 0.
Proof.
  intros Hm Hdl H. unfold NewObservationBudget in H. run_inv H.
  match goal with Hn : normalizeTime _ = Some ?n |- _ => pose proof (normalizeTime_pos _ _ Hdl Hn) end.
  match goal with Hg : _ || _ || _ = false |- _ => autorewrite with guards in Hg end. destruct_and!.
  split_and!; try done. split; simpl; unfold max_uint64, zero_time; try lia.
  apply validBudget_intro; simpl; try done; lia.
Qed.

Lemma budget_steps_ok n b b' :
  nsteps budget_step n b b' -> budget_ok b ->
  budget_ok b' /\ ob_effect b' = ob_effect b /\ ob_maximum b' = ob_maximum b /\ ob_deadline b' = ob_deadline b /\
  ob_used b <= ob_used b' /\ ob_lastAt b <= ob_lastAt b' /\ ob_version b' = ob_version b + Z.of_nat n /\
  budget_measure b + Z.of_nat n <= budget_measure b'.
Proof.
  induction 1 as [b|n b b1 b2 Hstep _ IH]; intros Hok; [by split_and!; try done; lia|].
  destruct Hstep as (c & h & h' & <- & Ht & Hnd & Hrun).
  destruct (run_budget_ok c b1 h h' Hok Ht Hnd Hrun) as (Hok1 & Hnext & _).
  destruct (IH Hok1) as (? & ? & ? & ? & ? & ? & ? & ?). destruct Hnext as [? ? ? ? [? ?] Hu ? ? ? ?].
  assert (ob_used (call_budget c) <= ob_used b1) by (destruct Hu as [?|(? & _)]; lia).
  split_and!; try done; try congruence; lia.
Qed.

(** ** Values for the witnesses *)

Definition s_budget : ObservationBudget :=
  OB true s_effect 2 0 (s_now + hour) 0 1 false digest_zero (Some 1%positive) false false.
Definition s_heap : heap := Heap {[1%positive := false]} ∅ ∅.

Example s_budget_new : NewObservationBudget s_effect 2 (s_now + hour) empty_heap = (Ok s_budget, s_heap).
Proof. vm_compute. reflexivity. Qed.

Example s_budget_ok : budget_ok s_budget.
Proof.
  apply (NewObservationBudget_ok s_effect 2 (s_now + hour) empty_heap s_budget s_heap);
    [lia|vm_compute; discriminate|apply s_budget_new].
Qed.

(** ** Properties *)

(** An observation budget is linear.  Once any transition of a budget value
    succeeded (reservation, release, completion or expiry), every transition
    of any copy of that value fails, after any other budget calls. *)
Theorem observation_budget_linear (c c' : budget_call) (cs : list budget_call) (h h1 : heap) (b1 : ObservationBudget)
  (Hsame : call_budget c' = call_budget c) (Hok : budget_ok (call_budget c))
  (Ht : call_time_ok c) (Ht' : call_time_ok c') (Hlive : ob_done (call_budget c) = false)
  (Hrun : run_budget c h = (Ok b1, h1)) :
  exists e h', run_budget c' (budget_history h1 cs) = (Err e, h').
Proof.
  destruct (run_budget_ok _ _ _ _ Hok Ht Hlive Hrun) as (_ & _ & l & Hl & _ & Hspent).
  destruct (run_budget c' (budget_history h1 cs)) as [[b2|e] h2] eqn:Hrun'; [|eauto].
  rewrite <- Hsame in Hok, Hlive, Hl.
  destruct (run_budget_ok _ _ _ _ Hok Ht' Hlive Hrun') as (_ & _ & l' & Hl' & Hfree & _).
  assert (l' = l) as -> by congruence. by rewrite (proj1 (budget_history_grows cs h1) l Hspent) in Hfree.
Qed.

Lemma observation_budget_linear_witness :
  exists e h', run_budget (CallReserveObs s_budget (s_now + second))
    (run_budget (CallReserveObs s_budget s_now) s_heap).2 = (Err e, h').
Proof.
  eapply (observation_budget_linear (CallReserveObs s_budget s_now) (CallReserveObs s_budget (s_now + second)) []
    s_heap _ _ eq_refl s_budget_ok).
  - vm_compute. discriminate.
  - vm_compute. discriminate.
  - reflexivity.
  - vm_compute. reflexivity.
Defined.

(** Observation terminates.  A chain of transitions from a new budget keeps
    every budget valid, keeps effect, maximum and deadline, never uses more
    than the maximum, and has at most two transitions per allowed observation
    plus one; a budget that is done has no further transition. *)
Theorem observation_bounded (effect : EffectKey) (maximum : Z) (deadline : time) (h h' : heap)
  (b0 b : ObservationBudget) (n : nat)
  (Hmax : 0 <= maximum) (Hdl : millisecond <= deadline)
  (Hnew : NewObservationBudget effect maximum deadline h = (Ok b0, h')) (Hchain : nsteps budget_step n b0 b) :
  validateObservationBudget b = true /\ ob_effect b = effect /\ ob_maximum b = maximum /\
  0 <= ob_used b <= maximum /\ maximum <= MaxObservationAttempts /\ ob_version b = 1 + Z.of_nat n /\
  Z.of_nat n <= 2 * maximum + 1.
Proof.
  destruct (NewObservationBudget_ok _ _ _ _ _ _ Hmax Hdl Hnew) as (Hok0 & <- & <- & Hv & Hm).
  destruct (budget_steps_ok n b0 b Hchain Hok0) as (Hok & He & HM & _ & _ & _ & Hver & Hmeas).
  pose proof (validBudget_facts b (bo_valid b Hok)) as Hfacts. destruct_and!. destruct Hok as [Hvalid Hu _ _].
  unfold budget_measure in *. split_and!; try done; try lia.
  destruct (ob_inFlight b), (ob_done b); simpl in Hmeas; lia.
Qed.

Lemma observation_bounded_witness :
  exists b, ob_used b = 1 /\ validateObservationBudget b = true.
Proof.
  destruct (run_budget (CallReserveObs s_budget s_now) s_heap) as [[b|e] h] eqn:E; [|vm_compute in E; discriminate].
  exists b. split; [vm_compute in E; by injection E as <- _|].
  apply (observation_bounded s_effect 2 (s_now + hour) empty_heap s_heap s_budget b 1).
  - lia.
  - vm_compute. discriminate.
  - exact s_budget_new.
  - apply nsteps_once. exists (CallReserveObs s_budget s_now), s_heap, h.
    split; [reflexivity|]. split; [vm_compute; discriminate|]. split; [reflexivity|exact E].
Defined.

(** An observation never overwrites known truth.  Completing one either
    leaves the effect's projection as it is, or replaces an indeterminate
    projection, still exactly the one the attempt was admitted against, by the
    definitive outcome the dispatched attempt observed; an exhausted budget is
    quarantined, and the budget goes on only within its limits. *)
Theorem observation_truth (b : ObservationBudget) (current : EffectProjection) (a : Attempt)
  (b' : ObservationBudget) (p' : EffectProjection) (d : ObservationDecision) (h h' : heap)
  (H : CompleteObservation b current a h = (Ok (b', p', d), h')) :
  (p' = current \/
   (ep_state current = AttemptStateIndeterminate /\ Attempt_Definitive a = true /\ at_dispatchedAt a <> 0 /\
    p' = projection_moved current (at_state a) (at_id a) (at_resolvedAt a) /\ d = ObservationResolved)) /\
  (d = ObservationQuarantine -> ob_quarantined b' = true /\ ob_done b' = true /\ pending current = true /\
     (ob_maximum b <= ob_used b \/ ob_deadline b <= completion_at current a)) /\
  (d = ObservationContinue -> pending current = true /\ ob_used b < ob_maximum b /\
     completion_at current a < ob_deadline b) /\
  ob_inFlight b' = false.
Proof.
  apply Complete_obs_cases in H as (_ & _ & Hva & Hpur & _ & _ & _ & _ & cell & dn & qn & Hverdict & ->).
  split_and!; try done; destruct Hverdict as [target Ht Heq Hdef Hd| | |]; try done; try (by left); try (by split_and!).
  right. split_and!; try done.
  unfold effectProjectionsEqual in Heq. unfold ValidateAttempt in Hva. rewrite Hpur, Ht in Hva.
  rewrite !andb_true_iff in Hva. simpl in Hva. unfold validObservationTarget in Hva.
  rewrite !andb_true_iff, !bool_decide_eq_true in Hva. destruct_and!.
  autorewrite with guards in Heq. destruct_and!. congruence.
Qed.

Definition s_flight : ObservationBudget :=
  OB true s_effect 2 1 (s_now + hour) s_now 2 true (s_digest 51) (Some 4%positive) false false.
Definition s_observation (state : AttemptState) : Attempt :=
  At true s_attempt 2 (pl_digest s_plan) PlanKindForward s_effect AttemptPurposeObservation s_owner 1 (s_digest 41)
     None (Some (s_projection AttemptStateIndeterminate)) None 0 (s_digest 51) (s_now + hour) (s_digest 42)
     state s_now (s_now + second) (s_now + 2 * second).

Lemma observation_truth_witness :
  exists b' p' d h', CompleteObservation s_flight (s_projection AttemptStateIndeterminate)
      (s_observation AttemptStateApplied) s_heap = (Ok (b', p', d), h') /\
    ep_state p' = AttemptStateApplied /\ ob_inFlight b' = false.
Proof.
  do 4 eexists. split; [vm_compute; reflexivity|]. split; [reflexivity|].
  refine (proj2 (proj2 (proj2 (observation_truth s_flight (s_projection AttemptStateIndeterminate)
    (s_observation AttemptStateApplied) _ _ _ s_heap _ _)))).
  vm_compute. reflexivity.
Defined.

Lemma pending_false e :
  pending e = false <-> ep_state e = AttemptStateApplied \/ ep_state e = AttemptStateNoEffect.
Proof. unfold pending. rewrite negb_false, orb_true_iff, !bool_decide_eq_true. done. Qed.

Lemma projection_settled e :
  validateEffectProjection e = true ->
  ep_state e <> AttemptStatePrepared /\ ep_state e <> AttemptStateDispatched /\ ep_state e <> AttemptStateIndeterminate ->
  pending e = false.
Proof.
  intros Hv (? & ? & ?). apply pending_false. unfold validateEffectProjection in Hv.
  apply andb_prop in Hv as [_ Hk]. destruct (ep_state e); try done; auto.
Qed.

(** An effect tombstone may be deleted exactly when its resource was deleted
    at least ninety days before a valid evaluation instant, its truth is
    definitive, and no operation, outbox, delivery or redrive still refers to
    it; every other valid input keeps it, and invalid inputs are errors. *)
Theorem retention_exact (input : EffectRetentionInput) :
  EvaluateEffectRetention input = Ok RetentionEligible <->
  exists now deleted deletedAt, normalizeTime (er_EvaluatedAt input) = Some now /\
    er_DeletedAt input = Some deleted /\ normalizeTime deleted = Some deletedAt /\
    validateEffectProjection (er_Projection input) = true /\ ep_updatedAt (er_Projection input) <= now /\
    pending (er_Projection input) = false /\ MinimumEffectTombstoneRetention <= now - deletedAt /\
    er_OperationReferences input = false /\ er_OutboxReferences input = false /\
    er_DeliveryReferences input = false /\ er_RedriveAuthority input = false.
Proof.
  unfold EvaluateEffectRetention. set (p := er_Projection input). split.
  - intros H. run_inv H. autorewrite with guards in *.
    destruct (er_DeletedAt input) as [deleted|]; [|done]. run_inv H.
    destruct (_ || _) eqn:G; [done|]. rewrite time_sub_ltb in G by (vm_compute; split; congruence).
    rewrite !orb_false_iff, !bool_decide_eq_false, Z.ltb_ge in G. destruct_and!.
    eexists _, _, _. split_and!; try done. apply projection_settled; [done|by split_and!].
  - intros (now & deleted & deletedAt & -> & -> & Hd & -> & Hle & Hp & Hage & -> & -> & -> & ->). simpl.
    rewrite (proj2 (before_false _ _) Hle). simpl. rewrite Hd. simpl.
    assert (0 < MinimumEffectTombstoneRetention) by (vm_compute; reflexivity).
    rewrite (proj2 (after_false deletedAt now)) by lia. simpl.
    rewrite time_sub_ltb by (vm_compute; split; congruence). rewrite (proj2 (Z.ltb_ge _ _) Hage).
    apply pending_false in Hp. by destruct Hp as [-> | ->].
Qed.

Example retention_open :
  EvaluateEffectRetention (ERI (s_projection AttemptStateApplied) (Some s_now)
    (s_now + MinimumEffectTombstoneRetention) false false false false) = Ok RetentionEligible.
Proof. vm_compute. reflexivity. Qed.
