(* ===== verification/Admission.v ===== *)
(** * Attempt admission (reconciliation/admission.go, attempt.go)

    Every physical attempt passes one gate that checks cancellation, retry,
    prior generations, compensation and the observation budget, and mints a
    one-use capability bound to all of them.  [NewPreparedAttempt] consumes
    the capability. *)

From S2P Require Import Prelude Bytes Sha256 GoTime Atomics Closed Vocabulary Digests Plan Lease Attempt Observation.
From Stdlib Require Import String.

Record AttemptAdmissionInput := AAI {
  ai_DatabaseTime : time;
  ai_Plan : Plan;
  ai_Effect : EffectKey;
  ai_Purpose : AttemptPurpose;
  ai_RequestFingerprint : RequestFingerprint;
  ai_CancellationRequested : bool;
  ai_CurrentEffect : option EffectProjection;
  ai_CancellationTarget : option EffectProjection;
  ai_RetryProof : option RetryProof;
  ai_PriorGenerationEffects : list EffectProjection;
  ai_SafeSupersessionProofs : list SafeSupersessionProof;
  ai_Observation : option ObservationPermit;
  ai_Compensation : option CompensationStep;
}.

Record AttemptAdmission := AA {
  aa_initialized : bool;
  aa_planDigest : PlanDigest;
  aa_planKind : PlanKind;
  aa_effect : EffectKey;
  aa_purpose : AttemptPurpose;
  aa_requestFingerprint : RequestFingerprint;
  aa_compensation : option CompensationStep;
  aa_observationTarget : option EffectProjection;
  aa_cancellationTarget : option EffectProjection;
  aa_retryValidUntil : time;
  aa_observationBinding : digestValue;
  aa_observationDeadline : time;
  aa_observationTransition : option loc;
  aa_authorizedAt : time;
  aa_binding : digestValue;
  aa_replacementTransition : option loc;
  aa_use : option loc;
}.

(** ** Bindings *)

Definition checkRetryAdmission (now : time) (effect : EffectKey) (projection : option EffectProjection)
    (fingerprint : RequestFingerprint) (proof : option RetryProof) : result error (digestValue * time) :=
  let head := ["veer.reconciliation.retry-admission.v1"; ContractVersion; dv_digest (ek_digest effect);
               dv_digest fingerprint; put_uint64 (unix_milli now)] in
  match projection with
  | None =>
      fail_if (is_some proof) ErrRetryForbidden;;
      Ok (digestFromHasher (head ++ ["initial"]), zero_time)
  | Some p =>
      fail_if (negb (validateEffectProjection p) || negb (EffectKey_Equal (ep_key p) effect)
               || before now (ep_updatedAt p)) ErrRetryForbidden;;
      CheckRetry now p fingerprint proof;;
      match proof with
      | None => Ok (digestFromHasher (head ++ writeEffectProjection p ++ ["no-proof"]), zero_time)
      | Some q => Ok (digestFromHasher (head ++ writeEffectProjection p ++ [dv_digest (rp_evidence q)]),
                      rp_validUntil q)
      end
  end.

Definition deriveGenerationAdmissionBinding (candidate : EffectKey) (prior : list EffectProjection)
    (proofs : list SafeSupersessionProof) : digestValue := digestFromHasher (
  ["veer.reconciliation.generation-admission.v1"; ContractVersion; dv_digest (ek_digest candidate);
   put_uint64 (llen prior)] ++
  List.concat (writeEffectProjection <$> prior) ++
  [put_uint64 (llen proofs)] ++
  ((fun proof => dv_digest (sp_evidence proof)) <$> proofs)).

Definition no_generation_gate (purpose : AttemptPurpose) : digestValue :=
  deriveDigest "veer.reconciliation.no-generation-gate.v1" [AttemptPurpose_String purpose].

Definition is_empty {A} (l : list A) : bool := match l with [] => true | _ => false end.

Definition mutationAdmissionBindings (now : time) (input : AttemptAdmissionInput)
    : result error (digestValue * time * digestValue) :=
  let purpose := ai_Purpose input in
  let retry := checkRetryAdmission now (ai_Effect input) (ai_CurrentEffect input)
                 (ai_RequestFingerprint input) (ai_RetryProof input) in
  if bool_decide (purpose = AttemptPurposeProviderCancel) then
    fail_if (negb (is_empty (ai_PriorGenerationEffects input))
             || negb (is_empty (ai_SafeSupersessionProofs input))) ErrInvalidAttempt;;
    '(retryBinding, retryValidUntil) ← retry;
    Ok (retryBinding, retryValidUntil, no_generation_gate purpose)
  else if negb (bool_decide (purpose = AttemptPurposeForward))
          && negb (bool_decide (purpose = AttemptPurposeCompensation)) then
    fail_if (is_some (ai_RetryProof input) || negb (is_empty (ai_PriorGenerationEffects input))
             || negb (is_empty (ai_SafeSupersessionProofs input))) ErrInvalidAttempt;;
    Ok (deriveDigest "veer.reconciliation.nonmutation-admission.v1" [AttemptPurpose_String purpose],
        zero_time, no_generation_gate purpose)
  else
    '(retryBinding, retryValidUntil) ← retry;
    CheckGenerationDispatch (ai_Effect input) (ai_PriorGenerationEffects input) (ai_SafeSupersessionProofs input);;
    Ok (retryBinding, retryValidUntil,
        deriveGenerationAdmissionBinding (ai_Effect input) (ai_PriorGenerationEffects input)
          (ai_SafeSupersessionProofs input)).

Definition deriveAttemptAdmissionBinding (plan : Plan) (effect : EffectKey) (purpose : AttemptPurpose)
    (fingerprint : RequestFingerprint) (cancellationRequested : bool) (retryBinding generationBinding
    observationBinding : digestValue) (observationDeadline : time) (observationTarget : option EffectProjection)
    (compensation : option CompensationStep) (cancellationTarget : option EffectProjection)
    (authorizedAt : time) : digestValue := digestFromHasher (
  ["veer.reconciliation.attempt-admission.v1"; ContractVersion; dv_digest (pl_digest plan);
   dv_digest (ek_digest effect); AttemptPurpose_String purpose; dv_digest fingerprint;
   (if cancellationRequested then "cancel-requested" else "not-canceled");
   dv_digest retryBinding; dv_digest generationBinding;
   digest_or "no-observation" observationBinding;
   time_or "no-observation-deadline" observationDeadline] ++
  projection_or "no-observation-target" observationTarget ++
  match compensation with
  | None => ["no-compensation"]
  | Some step => [dv_digest (cs_schedule step); dv_digest (cs_proofEvidence step); put_uint64 (cs_position step)]
  end ++
  projection_or "no-cancellation-target" cancellationTarget ++
  [put_uint64 (unix_milli authorizedAt)]).

(** ** The gate *)

(** What the purpose-specific switch contributes: observation binding,
    deadline, transition and target, and the cancellation target. *)
Definition admission_targets : Type :=
  digestValue * time * option loc * option EffectProjection * option EffectProjection.

Definition admission_switch (now : time) (input : AttemptAdmissionInput) : result error admission_targets :=
  let plan := ai_Plan input in
  match ai_Purpose input with
  | AttemptPurposeObservation =>
      match ai_Observation input, ai_CurrentEffect input with
      | Some permit, Some current =>
          fail_if (negb (validateObservationPermit permit)
                   || negb (EffectKey_Equal (op_effect permit) (ai_Effect input))
                   || negb (time_equal (op_reservedAt permit) now)
                   || negb (validObservationTarget current (pl_digest plan) (pl_kind plan) (ai_Effect input))
                   || before now (ep_updatedAt current) || is_some (ai_CancellationTarget input))
            ErrInvalidObservation;;
          Ok (op_binding permit, op_deadline permit, op_transition permit, Some current, None)
      | _, _ => Err ErrInvalidObservation
      end
  | AttemptPurposeProviderCancel =>
      match ai_CancellationTarget input with
      | None => Err ErrInvalidAttempt
      | Some target =>
          fail_if (negb (ai_CancellationRequested input) || is_some (ai_Observation input)
                   || negb (validCancellationTarget target (pl_digest plan) (pl_kind plan) (ai_Effect input))
                   || before now (ep_updatedAt target)) ErrInvalidAttempt;;
          match ai_CurrentEffect input with
          | Some current =>
              match ep_cancellationTarget current with
              | Some prior => fail_if (negb (EffectKey_Equal prior (ep_key target))) ErrRetryForbidden
              | None => Err ErrRetryForbidden
              end
          | None => Ok tt
          end;;
          Ok (digest_zero, zero_time, None, None, Some target)
      end
  | _ =>
      fail_if (is_some (ai_Observation input) || is_some (ai_CancellationTarget input)) ErrInvalidAttempt;;
      Ok (digest_zero, zero_time, None, None, None)
  end.

(** [transition.CompareAndSwap(old, new)] on a counter, or the error. *)
Definition advance_word (cell : option loc) (old new : Z) (e : error) : HeapM unit := fun h =>
  match cell with
  | None => (Err e, h)
  | Some l => let '(swapped, h') := cas_word h l old new in
              if swapped then (Ok tt, h') else (Err e, h')
  end.

Definition NewAttemptAdmission (input : AttemptAdmissionInput) : HeapM AttemptAdmission :=
  let plan := ai_Plan input in
  let effect := ai_Effect input in
  let purpose := ai_Purpose input in
  now ← lift (of_option (normalizeTime (ai_DatabaseTime input)) ErrInvalidAttempt);
  reject (negb (ValidatePlan plan) || negb (ValidateEffectKey effect) || negb (effectMatchesPlan effect plan)
          || negb (dv_initialized (ai_RequestFingerprint input))) ErrInvalidAttempt;;
  reject (negb (AttemptPurpose_known purpose)) ErrInvalidAttempt;;
  reject (negb (attemptPurposeMatchesPlan purpose (pl_kind plan))) ErrInvalidAttempt;;
  reject (effectSetContains (pl_completedEffects plan) effect) ErrRetryForbidden;;
  lift (if ai_CancellationRequested input then canPrepareAfterCancellation purpose else Ok tt);;
  compensation ← lift (if bool_decide (purpose = AttemptPurposeCompensation) then
      match ai_Compensation input with
      | Some step => if compensationStepMatchesPlan step plan effect then Ok (Some step) else Err ErrInvalidAttempt
      | None => Err ErrInvalidAttempt
      end
    else if is_some (ai_Compensation input) then Err ErrInvalidAttempt else Ok None);
  '(retryBinding, retryValidUntil, generationBinding) ← lift (mutationAdmissionBindings now input);
  '(observationBinding, observationDeadline, observationTransition, observationTarget, cancellationTarget)
    ← lift (admission_switch now input);
  let binding := deriveAttemptAdmissionBinding plan effect purpose (ai_RequestFingerprint input)
    (ai_CancellationRequested input) retryBinding generationBinding observationBinding observationDeadline
    observationTarget compensation cancellationTarget now in
  (if bool_decide (purpose = AttemptPurposeObservation)
   then advance_word observationTransition observationReserved observationAdmitted ErrInvalidObservation
   else mret tt);;
  use ← heap_new_bool;
  mret (AA true (pl_digest plan) (pl_kind plan) effect purpose (ai_RequestFingerprint input) compensation
           observationTarget cancellationTarget retryValidUntil observationBinding observationDeadline
           observationTransition now binding None (Some use)).

Definition validateAttemptAdmission (value : AttemptAdmission) : bool :=
  negb (negb (aa_initialized value) || negb (dv_initialized (aa_planDigest value))
        || negb (ValidateEffectKey (aa_effect value)) || negb (dv_initialized (aa_requestFingerprint value))
        || is_zero (aa_authorizedAt value) || negb (dv_initialized (aa_binding value))
        || negb (is_some (aa_use value))
        || (is_some (aa_replacementTransition value) && is_some (aa_observationTransition value)))
  && PlanKind_known (aa_planKind value)
  && AttemptPurpose_known (aa_purpose value)
  && attemptPurposeMatchesPlan (aa_purpose value) (aa_planKind value)
  && negb (is_some (aa_replacementTransition value)
           && negb (bool_decide (aa_purpose value = AttemptPurposeForward))
           && negb (bool_decide (aa_purpose value = AttemptPurposeCompensation)))
  && (if bool_decide (aa_purpose value = AttemptPurposeCompensation) then
        match aa_compensation value with
        | None => false
        | Some step => validCompensationStep step && equalDigest (cs_planDigest step) (aa_planDigest value)
                       && EffectKey_Equal (cs_inverse step) (aa_effect value)
        end
      else negb (is_some (aa_compensation value)))
  && (if bool_decide (aa_purpose value = AttemptPurposeProviderCancel) then
        match aa_cancellationTarget value with
        | None => false
        | Some target => validCancellationTarget target (aa_planDigest value) (aa_planKind value) (aa_effect value)
        end
      else negb (is_some (aa_cancellationTarget value)))
  && (if negb (is_zero (aa_retryValidUntil value)) then
        stored_normal (aa_retryValidUntil value) && after (aa_retryValidUntil value) (aa_authorizedAt value)
        && purpose_mutates (aa_purpose value)
      else true)
  && (if bool_decide (aa_purpose value = AttemptPurposeObservation) then
        dv_initialized (aa_observationBinding value) && is_some (aa_observationTransition value) &&
        stored_normal (aa_observationDeadline value) &&
        before (aa_authorizedAt value) (aa_observationDeadline value) &&
        match aa_observationTarget value with
        | None => false
        | Some target => validObservationTarget target (aa_planDigest value) (aa_planKind value) (aa_effect value)
        end
      else negb (dv_initialized (aa_observationBinding value)
                 || negb (is_zero (aa_observationDeadline value))
                 || is_some (aa_observationTransition value)
                 || is_some (aa_observationTarget value))).

(** ** Preparation *)

Record AttemptInput := AInput {
  an_ID : ID;
  an_Ordinal : Z;
  an_Admission : AttemptAdmission;
  an_OwnerID : ID;
  an_Fence : Z;
}.

(** Consumes the one-use state of the capability: the published replacement,
    the admitted observation, or the plain flag. *)
Definition consume_admission (a : AttemptAdmission) : HeapM unit :=
  match aa_replacementTransition a, aa_observationTransition a with
  | Some l, _ => advance_word (Some l) 1 2 ErrInvalidAttempt
  | None, Some l => advance_word (Some l) observationAdmitted observationPrepared ErrInvalidAttempt
  | None, None => heap_use_once (aa_use a) ErrInvalidAttempt
  end.

Definition NewPreparedAttempt (input : AttemptInput) : HeapM Attempt :=
  let admission := an_Admission input in
  reject (negb (validID (an_ID input)) || (an_Ordinal input =? 0) || negb (validateAttemptAdmission admission)
          || negb (validID (an_OwnerID input)) || (an_Fence input <? 1)) ErrInvalidAttempt;;
  consume_admission admission;;
  mret (At true (an_ID input) (an_Ordinal input) (aa_planDigest admission) (aa_planKind admission)
           (aa_effect admission) (aa_purpose admission) (an_OwnerID input) (an_Fence input)
           (aa_requestFingerprint admission) (aa_compensation admission) (aa_observationTarget admission)
           (aa_cancellationTarget admission) (aa_retryValidUntil admission) (aa_observationBinding admission)
           (aa_observationDeadline admission) (aa_binding admission) AttemptStatePrepared
           (aa_authorizedAt admission) zero_time zero_time).
