(* ===== verification/Planning.v ===== *)
(** * Replanning, compensation and lineage replacement (reconciliation/planning.go) *)

From S2P Require Import Prelude Bytes Sha256 GoTime Atomics Closed Vocabulary Digests Plan Lease Attempt.
From S2P Require Import Observation Admission.
From Stdlib Require Import String.

(** ** Compensation proofs and schedules *)

Record CompensationProof := CP {
  cp_initialized : bool;
  cp_original : EffectProjection;
  cp_inverse : EffectKey;
  cp_dependencyOrder : Z;
  cp_adapterVersion : string;
  cp_evidence : digestValue;
}.

Definition NewCompensationProof (original : EffectProjection) (inverse : EffectKey) (dependencyOrder : Z)
    (adapterVersion canonicalEvidence : string) : result error CompensationProof :=
  fail_if (negb (validateEffectProjection original) || negb (bool_decide (ep_state original = AttemptStateApplied))
           || negb (ValidateEffectKey inverse) || EffectKey_Equal (ep_key original) inverse
           || (dependencyOrder =? 0) || negb (validVersion adapterVersion)
           || (slen canonicalEvidence =? 0) || (MaxEvidenceBytes <? slen canonicalEvidence)
           || negb (String.eqb (ek_workspaceID (ep_key original)) (ek_workspaceID inverse))
           || negb (String.eqb (ek_resourceID (ep_key original)) (ek_resourceID inverse))
           || negb (String.eqb (ek_operationID (ep_key original)) (ek_operationID inverse))
           || negb (ek_generation (ep_key original) =? ek_generation inverse)) ErrInvalidPlan;;
  Ok (CP true original inverse dependencyOrder adapterVersion (digestFromHasher
    ["veer.reconciliation.compensation-proof.v1"; ContractVersion; dv_digest (ek_digest (ep_key original));
     dv_digest (ek_digest inverse); put_uint64 dependencyOrder; adapterVersion; canonicalEvidence])).

Definition validCompensationProof (value : CompensationProof) : bool :=
  cp_initialized value && validateEffectProjection (cp_original value) &&
  bool_decide (ep_state (cp_original value) = AttemptStateApplied) && ValidateEffectKey (cp_inverse value) &&
  (0 <? cp_dependencyOrder value) && validVersion (cp_adapterVersion value) && dv_initialized (cp_evidence value).

(** The loop over the proofs; [want] maps the spellings of the effects still to
    be compensated, [previous] is the dependency order of the last proof. *)
Fixpoint check_inverses (plan : Plan) (originals : gset string) (proofs : list CompensationProof)
    (previous : option Z) (want : gmap string EffectKey) (seenInverse : gset string)
    : result error (gmap string EffectKey) :=
  match proofs with
  | [] => Ok want
  | proof :: rest =>
      fail_if (negb (validCompensationProof proof) || negb (effectMatchesPlan (cp_inverse proof) plan)
               || match previous with Some order => order <=? cp_dependencyOrder proof | None => false end)
        ErrInvalidPlan;;
      let inverse := EffectKey_String (cp_inverse proof) in
      let original := EffectKey_String (ep_key (cp_original proof)) in
      fail_if (bool_decide (inverse ∈ originals)) ErrInvalidPlan;;
      fail_if (match want !! original with
               | Some effect => negb (EffectKey_Equal effect (ep_key (cp_original proof)))
               | None => true
               end) ErrInvalidPlan;;
      fail_if (bool_decide (inverse ∈ seenInverse)) ErrInvalidPlan;;
      check_inverses plan originals rest (Some (cp_dependencyOrder proof)) (delete original want)
        ({[inverse]} ∪ seenInverse)
  end.

Definition effects_by_name (effects : list EffectKey) (m : gmap string EffectKey) : gmap string EffectKey :=
  foldl (fun acc effect => <[EffectKey_String effect := effect]> acc) m effects.

Definition ValidateCompensationPlan (plan : Plan) (proofs : list CompensationProof) : result error unit :=
  fail_if (negb (ValidatePlan plan) || negb (bool_decide (pl_kind plan = PlanKindCompensation))
           || (MaxEffectsPerOperation <? llen proofs) || negb (llen proofs =? llen (pl_compensates plan)))
    ErrInvalidPlan;;
  let want := effects_by_name (pl_compensates plan) ∅ in
  remaining ← check_inverses plan (dom want) proofs None want ∅;
  fail_if (negb (Z.of_nat (size remaining) =? 0)) ErrInvalidPlan.

Definition deriveCompensationSchedule (plan : Plan) (proofs : list CompensationProof) : digestValue :=
  digestFromHasher (["veer.reconciliation.compensation-schedule.v1"; ContractVersion; dv_digest (pl_digest plan)]
    ++ ((fun proof => dv_digest (cp_evidence proof)) <$> proofs)).

(** One completed inverse matches the schedule at its position. *)
Definition completed_step_ok (plan : Plan) (total : Z) (schedule : digestValue) (position : Z)
    (proof : CompensationProof) (projection : EffectProjection) : bool :=
  validateEffectProjection projection && bool_decide (ep_state projection = AttemptStateApplied) &&
  bool_decide (ep_purpose projection = AttemptPurposeCompensation) &&
  equalDigest (ep_planDigest projection) (pl_digest plan) &&
  match ep_compensation projection with
  | None => false
  | Some step =>
      EffectKey_Equal (ep_key projection) (cp_inverse proof) &&
      EffectKey_Equal (cs_original step) (ep_key (cp_original proof)) &&
      EffectKey_Equal (cs_inverse step) (cp_inverse proof) &&
      (cs_dependencyOrder step =? cp_dependencyOrder proof) && (cs_position step =? position) &&
      (cs_total step =? total) && equalDigest (cs_proofEvidence step) (cp_evidence proof) &&
      equalDigest (cs_schedule step) schedule
  end.

(** Walks the completed projections along the proofs and returns the first
    proof past them. *)
Fixpoint next_proof (plan : Plan) (total : Z) (schedule : digestValue) (position : Z)
    (proofs : list CompensationProof) (completed : list EffectProjection) : option CompensationProof :=
  match completed, proofs with
  | [], proof :: _ => Some proof
  | projection :: completed', proof :: proofs' =>
      if completed_step_ok plan total schedule position proof projection
      then next_proof plan total schedule (position + 1) proofs' completed'
      else None
  | _, [] => None
  end.

Definition NextCompensationStep (plan : Plan) (proofs : list CompensationProof) (completed : list EffectProjection)
    : result error CompensationStep :=
  fail_if (negb (result_ok (ValidateCompensationPlan plan proofs)) || (llen proofs <=? llen completed))
    ErrInvalidPlan;;
  let total := llen proofs in
  let schedule := deriveCompensationSchedule plan proofs in
  proof ← of_option (next_proof plan total schedule 1 proofs completed) ErrInvalidPlan;
  Ok (CS true (pl_digest plan) (ep_key (cp_original proof)) (cp_inverse proof) (cp_dependencyOrder proof)
         (llen completed + 1) total (cp_evidence proof) schedule).

(** ** Lineage replacement authorities *)

Definition newLeaseReplacementAuthority (current candidate : Plan) (compensationSchedule admissionBinding : digestValue)
    (transition : option loc) : HeapM LeaseReplacementAuthority :=
  expected ← lift (map_err (fun _ => ErrInvalidLease) (LeaseBindingFromPlan current));
  replacement ← lift (map_err (fun _ => ErrInvalidLease) (LeaseBindingFromPlan candidate));
  reject (LeaseBinding_Equal expected replacement
          || negb (String.eqb (leaseRowKey expected) (leaseRowKey replacement))
          || negb (leaseBindingMovesForward expected replacement)
          || negb (Bool.eqb (bool_decide (pl_kind candidate = PlanKindCompensation))
                            (dv_initialized compensationSchedule))) ErrInvalidLease;;
  use ← heap_new_bool;
  mret (LRA true expected replacement (pl_kind candidate) compensationSchedule admissionBinding transition (Some use)).

(** ** Selecting a plan *)

Definition logicalEffectIdentityFromAttempt (attempt : Attempt) : result error EffectProjection :=
  if negb (ValidateAttempt attempt) then Err ErrInvalidAttempt
  else if bool_decide (at_purpose attempt = AttemptPurposeObservation) then
    of_option (at_observationTarget attempt) ErrInvalidObservation
  else EffectProjectionFromAttempt attempt.

(** The state of the loop over the prior attempts. *)
Record attempt_scan := Scan {
  sc_attempts : gset string;
  sc_ordinals : gset Z;
  sc_effects : gmap string EffectProjection;
  sc_floors : gmap string time;
}.

Definition attempt_floor (attempt : Attempt) : time :=
  if bool_decide (at_purpose attempt = AttemptPurposeObservation) then
    match at_observationTarget attempt with Some target => ep_updatedAt target | None => zero_time end
  else attemptLatestAt attempt.

Definition scan_attempt (current : Plan) (s : attempt_scan) (attempt : Attempt) : result error attempt_scan :=
  fail_if (negb (ValidateAttempt attempt)) ErrInvalidAttempt;;
  fail_if (negb (equalDigest (at_planDigest attempt) (pl_digest current))) ErrPlanMismatch;;
  fail_if (negb (Attempt_Resolved attempt)) ErrAttemptNotDefinitive;;
  fail_if (bool_decide (at_id attempt ∈ sc_attempts s)) ErrInvalidAttempt;;
  fail_if (bool_decide (at_ordinal attempt ∈ sc_ordinals s)) ErrInvalidAttempt;;
  identity ← logicalEffectIdentityFromAttempt attempt;
  let effectKey := EffectKey_String (at_effect attempt) in
  fail_if (match sc_effects s !! effectKey with
           | Some prior => negb (effectProjectionIdentityEqual prior identity)
           | None => false
           end) ErrInvalidAttempt;;
  let floor := attempt_floor attempt in
  let raise := match sc_floors s !! effectKey with Some prior => after floor prior | None => true end in
  Ok (Scan ({[at_id attempt]} ∪ sc_attempts s) ({[at_ordinal attempt]} ∪ sc_ordinals s)
        (<[effectKey := identity]> (sc_effects s))
        (if raise then <[effectKey := floor]> (sc_floors s) else sc_floors s)).

Fixpoint scan_attempts (current : Plan) (s : attempt_scan) (attempts : list Attempt) : result error attempt_scan :=
  match attempts with
  | [] => Ok s
  | attempt :: rest => s' ← scan_attempt current s attempt; scan_attempts current s' rest
  end.

(** The loop over the current effects: the seen spellings and the effects the
    candidate must record as completed. *)
Fixpoint scan_effects (current : Plan) (s : attempt_scan) (effects : list EffectProjection)
    (seen : gset string) (want : gmap string EffectKey) : result error (gset string * gmap string EffectKey) :=
  match effects with
  | [] => Ok (seen, want)
  | projection :: rest =>
      fail_if (negb (validateEffectProjection projection)) ErrInvalidAttempt;;
      fail_if (negb (equalDigest (ep_planDigest projection) (pl_digest current))) ErrPlanMismatch;;
      let key := EffectKey_String (ep_key projection) in
      fail_if (bool_decide (key ∈ seen)) ErrInvalidAttempt;;
      fail_if (match sc_effects s !! key with
               | Some identity => negb (effectProjectionIdentityEqual projection identity)
               | None => true
               end) ErrInvalidAttempt;;
      fail_if (before (ep_updatedAt projection) (default zero_time (sc_floors s !! key))) ErrAttemptNotDefinitive;;
      fail_if (negb (bool_decide (ep_state projection = AttemptStateApplied))
               && negb (bool_decide (ep_state projection = AttemptStateNoEffect))) ErrAttemptNotDefinitive;;
      scan_effects current s rest ({[key]} ∪ seen)
        (if bool_decide (ep_state projection = AttemptStateApplied) then <[key := ep_key projection]> want else want)
  end.

Definition completed_recorded (want : gmap string EffectKey) (completed : list EffectKey) : bool :=
  forallb (fun effect => match want !! EffectKey_String effect with
                         | Some w => EffectKey_Equal w effect
                         | None => false
                         end) completed.

Definition SelectPlan (current candidate : Plan) (priorAttempts : list Attempt)
    (currentEffects : list EffectProjection) (freshObservation : bool) (compensationProofs : list CompensationProof)
    : HeapM (Plan * PlanSelection * option LeaseReplacementAuthority) :=
  reject (negb (ValidatePlan current) || negb (ValidatePlan candidate)
          || negb (String.eqb (pl_operationID current) (pl_operationID candidate))
          || negb (String.eqb (pl_workspaceID current) (pl_workspaceID candidate))
          || negb (String.eqb (pl_resourceID current) (pl_resourceID candidate))
          || negb (pl_generation current =? pl_generation candidate)) ErrPlanMismatch;;
  if equalDigest (pl_digest current) (pl_digest candidate) then mret (current, PlanSelectionReuse, None) else
  reject ((negb (bool_decide (pl_kind current = pl_kind candidate)) &&
           (negb (bool_decide (pl_kind current = PlanKindForward))
            || negb (bool_decide (pl_kind candidate = PlanKindCompensation))))
          || negb (pl_revision candidate =? (pl_revision current + 1) mod 4294967296)
          || match pl_supersedes candidate with
             | Some d => negb (equalDigest d (pl_digest current))
             | None => true
             end
          || negb freshObservation || Evidence_Equal (pl_observed candidate) (pl_observed current)) ErrReplanBlocked;;
  compensationSchedule ← lift (
    if bool_decide (pl_kind candidate = PlanKindCompensation) then
      if result_ok (ValidateCompensationPlan candidate compensationProofs)
      then Ok (deriveCompensationSchedule candidate compensationProofs) else Err ErrInvalidPlan
    else if is_empty compensationProofs then Ok digest_zero else Err ErrInvalidPlan);
  reject (MaxEffectsPerOperation <? llen currentEffects) ErrInvalidAttempt;;
  s ← lift (scan_attempts current (Scan ∅ ∅ ∅ ∅) priorAttempts);
  '(seenEffects, wantCompleted) ← lift (scan_effects current s currentEffects ∅
      (effects_by_name (pl_completedEffects current) ∅));
  reject (negb (Z.of_nat (size seenEffects) =? Z.of_nat (size (sc_effects s)))) ErrAttemptNotDefinitive;;
  reject (negb (Z.of_nat (size wantCompleted) =? llen (pl_completedEffects candidate))) ErrCompletedEffectMissing;;
  reject (negb (completed_recorded wantCompleted (pl_completedEffects candidate))) ErrCompletedEffectMissing;;
  authority ← newLeaseReplacementAuthority current candidate compensationSchedule digest_zero None;
  mret (candidate, PlanSelectionSupersede, Some authority).

Definition with_replacement (a : AttemptAdmission) (transition : loc) : AttemptAdmission :=
  AA (aa_initialized a) (aa_planDigest a) (aa_planKind a) (aa_effect a) (aa_purpose a) (aa_requestFingerprint a)
     (aa_compensation a) (aa_observationTarget a) (aa_cancellationTarget a) (aa_retryValidUntil a)
     (aa_observationBinding a) (aa_observationDeadline a) (aa_observationTransition a) (aa_authorizedAt a)
     (aa_binding a) (Some transition) (aa_use a).

Definition AuthorizeGenerationReplacement (current candidate : Plan) (input : AttemptAdmissionInput)
    : HeapM (LeaseReplacementAuthority * AttemptAdmission) :=
  reject (negb (ValidatePlan current) || negb (ValidatePlan candidate)
          || negb (String.eqb (pl_workspaceID current) (pl_workspaceID candidate))
          || negb (String.eqb (pl_resourceID current) (pl_resourceID candidate))
          || (pl_generation current =? max_int64) || negb (pl_generation candidate =? pl_generation current + 1)
          || String.eqb (pl_operationID candidate) (pl_operationID current) || negb (pl_revision candidate =? 1)
          || is_some (pl_supersedes candidate) || negb (ValidatePlan (ai_Plan input))
          || negb (equalDigest (pl_digest (ai_Plan input)) (pl_digest candidate))
          || (negb (bool_decide (ai_Purpose input = AttemptPurposeForward)) &&
              negb (bool_decide (ai_Purpose input = AttemptPurposeCompensation)))) ErrInvalidLease;;
  admission ← NewAttemptAdmission input;
  transition ← heap_new_word;
  let admission' := with_replacement admission transition in
  authority ← newLeaseReplacementAuthority current candidate digest_zero (aa_binding admission') (Some transition);
  mret (authority, admission').
