(* ===== verification/AdmissionProps.v ===== *)
(** * Properties of attempt admission

    What the gate has checked when it mints an admission, that the minted
    value and the attempt prepared from it are valid, and that an admission is
    used at most once over every history of calls that share the heap. *)

From S2P Require Import Prelude Bytes Sha256 GoTime Atomics Closed Vocabulary Digests Plan PlanProps.
From S2P Require Import Lease LeaseSpec Attempt LeaseProps AttemptProps Observation ObservationProps.
From S2P Require Import Admission Planning.
From Stdlib Require Import String.

(** ** What the gate checks *)

Definition mutating (p : AttemptPurpose) : Prop :=
  p = AttemptPurposeForward \/ p = AttemptPurposeCompensation.

(** The effect to be mutated was never tried, or may be retried. *)
Definition retry_cleared (now : time) (input : AttemptAdmissionInput) : Prop :=
  match ai_CurrentEffect input with
  | None => ai_RetryProof input = None
  | Some p => validateEffectProjection p = true /\ ep_key p = ai_Effect input /\ ep_updatedAt p <= now /\
              CheckRetry now p (ai_RequestFingerprint input) (ai_RetryProof input) = Ok tt
  end.

(** What came before: a forward or compensating mutation passes the retry gate
    and the generation gate, a provider cancellation the retry gate, and nothing
    is handed in that the purpose does not look at. *)
Definition history_cleared (now : time) (input : AttemptAdmissionInput) : Prop :=
  let no_generations := ai_PriorGenerationEffects input = [] /\ ai_SafeSupersessionProofs input = [] in
  match ai_Purpose input with
  | AttemptPurposeForward | AttemptPurposeCompensation =>
      retry_cleared now input /\
      CheckGenerationDispatch (ai_Effect input) (ai_PriorGenerationEffects input) (ai_SafeSupersessionProofs input) = Ok tt
  | AttemptPurposeProviderCancel => retry_cleared now input /\ no_generations
  | _ => ai_RetryProof input = None /\ no_generations
  end.

(** A compensation follows its schedule, nothing else has one. *)
Definition compensation_cleared (input : AttemptAdmissionInput) : Prop :=
  if decide (ai_Purpose input = AttemptPurposeCompensation) then
    exists step, ai_Compensation input = Some step /\ compensationStepMatchesPlan step (ai_Plan input) (ai_Effect input) = true
  else ai_Compensation input = None.

(** What the attempt is about, besides its effect.  No target is dated after the
    admission; an observation has its own permit, reserved at this instant; a
    provider cancellation was requested, and goes on with the target it had. *)
Definition target_cleared (now : time) (input : AttemptAdmissionInput) : Prop :=
  let digest := pl_digest (ai_Plan input) in
  let kind := pl_kind (ai_Plan input) in
  match ai_Purpose input with
  | AttemptPurposeObservation =>
      ai_CancellationTarget input = None /\
      exists permit current, ai_Observation input = Some permit /\ ai_CurrentEffect input = Some current /\
        validateObservationPermit permit = true /\ op_effect permit = ai_Effect input /\ op_reservedAt permit = now /\
        validObservationTarget current digest kind (ai_Effect input) = true /\ ep_updatedAt current <= now
  | AttemptPurposeProviderCancel =>
      ai_CancellationRequested input = true /\ ai_Observation input = None /\
      exists target, ai_CancellationTarget input = Some target /\
        validCancellationTarget target digest kind (ai_Effect input) = true /\ ep_updatedAt target <= now /\
        forall current, ai_CurrentEffect input = Some current -> ep_cancellationTarget current = Some (ep_key target)
  | _ => ai_Observation input = None /\ ai_CancellationTarget input = None
  end.

Record gates_passed (now : time) (input : AttemptAdmissionInput) : Prop := {
  gp_plan : ValidatePlan (ai_Plan input) = true;
  gp_effect : ValidateEffectKey (ai_Effect input) = true;
  gp_scope : effectMatchesPlan (ai_Effect input) (ai_Plan input) = true;
  gp_request : dv_initialized (ai_RequestFingerprint input) = true;
  gp_known : AttemptPurpose_known (ai_Purpose input) = true;
  gp_purpose : attemptPurposeMatchesPlan (ai_Purpose input) (pl_kind (ai_Plan input)) = true;
  gp_fresh : effectSetContains (pl_completedEffects (ai_Plan input)) (ai_Effect input) = false;
  gp_cancelled : ai_CancellationRequested input = true -> ~ mutating (ai_Purpose input);
  gp_compensation : compensation_cleared input;
  gp_history : history_cleared now input;
  gp_target : target_cleared now input;
}.

(** The permit of an observation has not been used. *)
Definition permit_reserved (input : AttemptAdmissionInput) (h : heap) : Prop :=
  ai_Purpose input = AttemptPurposeObservation ->
  forall permit l, ai_Observation input = Some permit -> op_transition permit = Some l -> load_word h l = observationReserved.

(** ** The parts of the gate *)

(** Until when a retry stands: the expiry of the proof that allowed it. *)
Definition retry_expiry (input : AttemptAdmissionInput) : time :=
  match ai_CurrentEffect input, ai_RetryProof input with Some _, Some q => rp_validUntil q | _, _ => zero_time end.

Section Parts.
Context (now : time) (input : AttemptAdmissionInput) (He : ValidateEffectKey (ai_Effect input) = true).

Lemma checkRetryAdmission_iff u :
  (exists d, checkRetryAdmission now (ai_Effect input) (ai_CurrentEffect input) (ai_RequestFingerprint input)
     (ai_RetryProof input) = Ok (d, u)) <-> retry_cleared now input /\ u = retry_expiry input.
Proof.
  unfold checkRetryAdmission, retry_cleared, retry_expiry. cbv zeta. destruct (ai_CurrentEffect input) as [p|].
  - split.
    + intros [d H]. run_inv H. autorewrite with guards in *. destruct_and!. destruct x0.
      split; [by split_and!|]. by destruct (ai_RetryProof input); simplify_eq.
    + intros [(Hv & Hk & Hle & Hc) ->]. rewrite Hv, Hk, (EffectKey_Equal_refl _ He), (proj2 (before_false _ _) Hle), Hc. simpl.
      destruct (ai_RetryProof input); by eexists.
  - split.
    + intros [d H]. run_inv H. by destruct (ai_RetryProof input).
    + intros [-> ->]. by eexists.
Qed.

(** The retry expiry, of a mutation. *)
Definition mutation_expiry : time := if purpose_mutates (ai_Purpose input) then retry_expiry input else zero_time.

Lemma is_empty_true {A} (l : list A) : is_empty l = true <-> l = [].
Proof. by destruct l. Qed.

Lemma mutationAdmissionBindings_iff u : AttemptPurpose_known (ai_Purpose input) = true ->
  (exists d g, mutationAdmissionBindings now input = Ok (d, u, g)) <-> history_cleared now input /\ u = mutation_expiry.
Proof.
  intros Hk. pose proof (checkRetryAdmission_iff u) as R. unfold mutationAdmissionBindings, history_cleared, mutation_expiry. cbv zeta.
  destruct (ai_Purpose input) eqn:Hp; try done; simpl.
  - split.
    + intros (d & g & H). run_inv H. destruct x as [d' u']. run_inv H. destruct x, R as [R _]. destruct R as [? ->]; [by eexists | done].
    + intros [[H1 H2] Hu]. destruct R as [_ [d R]]; [done|]. rewrite R. simpl. rewrite H2. by do 2 eexists.
  - split.
    + intros (d & g & H). run_inv H. rewrite !orb_false_iff, !negb_false, !is_empty_true in *. destruct_and!.
      by destruct (ai_RetryProof input).
    + intros [(-> & -> & ->) ->]. by do 2 eexists.
  - split.
    + intros (d & g & H). run_inv H. rewrite orb_false_iff, !negb_false, !is_empty_true in *. destruct_and!.
      destruct x0 as [d' u']. run_inv H. destruct R as [R _]. destruct R as [? ->]; [by eexists | done].
    + intros [(H1 & -> & ->) Hu]. destruct R as [_ [d R]]; [done|]. rewrite R. by do 2 eexists.
  - split.
    + intros (d & g & H). run_inv H. destruct x as [d' u']. run_inv H. destruct x, R as [R _]. destruct R as [? ->]; [by eexists | done].
    + intros [[H1 H2] Hu]. destruct R as [_ [d R]]; [done|]. rewrite R. simpl. rewrite H2. by do 2 eexists.
Qed.

(** What the switch hands on. *)
Definition targets_of : admission_targets :=
  match ai_Purpose input with
  | AttemptPurposeObservation =>
      match ai_Observation input with
      | Some permit => (op_binding permit, op_deadline permit, op_transition permit, ai_CurrentEffect input, None)
      | None => (digest_zero, zero_time, None, None, None)
      end
  | AttemptPurposeProviderCancel => (digest_zero, zero_time, None, None, ai_CancellationTarget input)
  | _ => (digest_zero, zero_time, None, None, None)
  end.

Lemma is_some_false {A} (o : option A) : is_some o = false <-> o = None.
Proof. by destruct o. Qed.

Lemma cancellation_target_key target digest kind effect :
  validCancellationTarget target digest kind effect = true -> ValidateEffectKey (ep_key target) = true.
Proof.
  unfold validCancellationTarget, validateEffectProjection. autorewrite with guards. intros. by destruct_and!.
Qed.

Lemma admission_switch_iff t : AttemptPurpose_known (ai_Purpose input) = true ->
  admission_switch now input = Ok t <-> target_cleared now input /\ t = targets_of.
Proof.
  intros Hk. unfold admission_switch, target_cleared, targets_of. cbv zeta. destruct (ai_Purpose input) eqn:Hp; try done.
  - split.
    + intros H. run_inv H. rewrite orb_false_iff, !is_some_false in *. naive_solver.
    + intros [[-> ->] ->]. done.
  - split.
    + destruct (ai_Observation input) as [permit|]; [|done]. destruct (ai_CurrentEffect input) as [current|]; [|done].
      intros H. run_inv H. rewrite !orb_false_iff, is_some_false in *. autorewrite with guards in *. destruct_and!.
      split; [|done]. split; [done|]. exists permit, current. by split_and!.
    + intros [(-> & permit & current & -> & -> & Hv & Hk' & <- & Ht & Hle) ->].
      rewrite Hv, Hk', (EffectKey_Equal_refl _ He), Ht, (proj2 (before_false _ _) Hle), (proj2 (time_equal_true _ _) eq_refl). done.
  - split.
    + destruct (ai_CancellationTarget input) as [target|]; [|done]. intros H. run_inv H.
      rewrite !orb_false_iff, is_some_false in *. autorewrite with guards in *. destruct_and!. split; [|done].
      split; [done|]. split; [done|]. exists target. split_and!; try done. intros current Hc. rewrite Hc in *.
      destruct (ep_cancellationTarget current); [|done]. run_inv Hr0. autorewrite with guards in *. destruct_and!. congruence.
    + intros [(-> & -> & target & -> & Hv & Hle & Hc) ->]. rewrite Hv, (proj2 (before_false _ _) Hle). simpl.
      destruct (ai_CurrentEffect input) as [current|]; [|done]. rewrite (Hc current eq_refl).
      by rewrite (EffectKey_Equal_refl _ (cancellation_target_key _ _ _ _ Hv)).
  - split.
    + intros H. run_inv H. rewrite orb_false_iff, !is_some_false in *. naive_solver.
    + intros [[-> ->] ->]. done.
Qed.

Lemma compensation_gate c :
  (if bool_decide (ai_Purpose input = AttemptPurposeCompensation) then
     match ai_Compensation input with
     | Some step => if compensationStepMatchesPlan step (ai_Plan input) (ai_Effect input) then Ok (Some step) else Err ErrInvalidAttempt
     | None => Err ErrInvalidAttempt
     end
   else if is_some (ai_Compensation input) then Err ErrInvalidAttempt else Ok None) = Ok c <->
  compensation_cleared input /\ c = ai_Compensation input.
Proof.
  unfold compensation_cleared. destruct (decide (ai_Purpose input = AttemptPurposeCompensation)) as [E|E];
    [rewrite bool_decide_eq_true_2 by done | rewrite bool_decide_eq_false_2 by done].
  - destruct (ai_Compensation input) as [step|]; [|naive_solver].
    destruct (compensationStepMatchesPlan _ _ _) eqn:M; split.
    + intros [= <-]. split; [by exists step | done].
    + by intros [_ ->].
    + done.
    + intros [(x & [= <-] & Hx) _]. congruence.
  - destruct (ai_Compensation input); naive_solver.
Qed.

Lemma cancellation_gate : AttemptPurpose_known (ai_Purpose input) = true ->
  (if ai_CancellationRequested input then canPrepareAfterCancellation (ai_Purpose input) else Ok tt) = Ok tt <->
  (ai_CancellationRequested input = true -> ~ mutating (ai_Purpose input)).
Proof.
  unfold mutating. destruct (ai_CancellationRequested input); [|done]. intros Hk. destruct (ai_Purpose input); simpl; naive_solver.
Qed.
End Parts.

(** ** The gate *)

(** The permit of an observation is admitted. *)
Definition spend_permit (input : AttemptAdmissionInput) (h : heap) : heap :=
  match ai_Purpose input, ai_Observation input ≫= op_transition with
  | AttemptPurposeObservation, Some l => store_word h l observationAdmitted
  | _, _ => h
  end.

Lemma advance_permit now input h h1 : target_cleared now input ->
  (if bool_decide (ai_Purpose input = AttemptPurposeObservation)
   then advance_word (targets_of input).1.1.2 observationReserved observationAdmitted ErrInvalidObservation
   else mret tt) h = (Ok tt, h1) <-> permit_reserved input h /\ h1 = spend_permit input h.
Proof.
  unfold target_cleared, permit_reserved, spend_permit, targets_of. cbv zeta. intros T. case_bool_decide as E.
  - rewrite E in *. destruct T as (_ & permit & current & -> & _ & Hv & _). simpl. unfold validateObservationPermit in Hv.
    autorewrite with guards in Hv. destruct_and!. destruct (op_transition permit) as [l|] eqn:El; [|done]. simpl. unfold cas_word.
    destruct (Z.eqb_spec (load_word h l) observationReserved) as [Hl|Hl]; split.
    + intros [= <-]. split; [|done]. intros _ p l' [= <-] Hl'. by simplify_eq.
    + by intros [_ ->].
    + done.
    + intros [Hr _]. by destruct (Hl (Hr eq_refl permit l eq_refl El)).
  - split; [intros [= <-]; split; [done|by destruct (ai_Purpose input)] | intros [_ ->]; by destruct (ai_Purpose input)].
Qed.

(** The admission that is minted. *)
Definition admitted (now : time) (input : AttemptAdmissionInput) (rb gb : digestValue) (use : loc) : AttemptAdmission :=
  let plan := ai_Plan input in
  let '(ob, od, ot, tgt, ct) := targets_of input in
  AA true (pl_digest plan) (pl_kind plan) (ai_Effect input) (ai_Purpose input) (ai_RequestFingerprint input) (ai_Compensation input)
     tgt ct (mutation_expiry input) ob od ot now
     (deriveAttemptAdmissionBinding plan (ai_Effect input) (ai_Purpose input) (ai_RequestFingerprint input)
        (ai_CancellationRequested input) rb gb ob od tgt (ai_Compensation input) ct now) None (Some use).

Lemma NewAttemptAdmission_iff input h a h' :
  NewAttemptAdmission input h = (Ok a, h') <->
  exists now rb gb, normalizeTime (ai_DatabaseTime input) = Some now /\ gates_passed now input /\ permit_reserved input h /\
    mutationAdmissionBindings now input = Ok (rb, mutation_expiry input, gb) /\
    a = admitted now input rb gb (new_bool (spend_permit input h)).1 /\ h' = (new_bool (spend_permit input h)).2.
Proof.
  unfold NewAttemptAdmission. cbv zeta. split.
  - intros H. apply st_bind_ok in H as (now & h1 & Hn & H). apply lift_ok in Hn as [Hn ->]. apply of_option_ok in Hn.
    apply st_bind_ok in H as ([] & h1 & Hg1 & H). apply reject_ok in Hg1 as [Hg1 ->].
    apply st_bind_ok in H as ([] & h1 & Hg2 & H). apply reject_ok in Hg2 as [Hg2 ->].
    apply st_bind_ok in H as ([] & h1 & Hg3 & H). apply reject_ok in Hg3 as [Hg3 ->].
    apply st_bind_ok in H as ([] & h1 & Hg4 & H). apply reject_ok in Hg4 as [Hg4 ->].
    autorewrite with guards in Hg1, Hg2, Hg3. destruct_and!.
    apply st_bind_ok in H as ([] & h1 & Hcan & H). apply lift_ok in Hcan as [Hcan ->]. rewrite (cancellation_gate input ltac:(done)) in Hcan.
    apply st_bind_ok in H as (comp & h1 & Hcomp & H). apply lift_ok in Hcomp as [Hcomp ->].
    apply compensation_gate in Hcomp as [Hcomp ->].
    apply st_bind_ok in H as ([[rb ru] gb] & h1 & Hmut & H). apply lift_ok in Hmut as [Hmut ->].
    destruct (proj1 (mutationAdmissionBindings_iff now input ltac:(done) ru ltac:(done)) ltac:(eauto)) as [Hhist ->].
    apply st_bind_ok in H as (t & h1 & Hsw & H). apply lift_ok in Hsw as [Hsw ->].
    apply (admission_switch_iff now input ltac:(done)) in Hsw as [Htgt ->]; [|done]. revert H.
    pose proof (fun h1 => advance_permit now input h h1 Htgt) as Adv. destruct (targets_of input) as [[[[ob od] ot] tgt] ct] eqn:Et. intros H.
    apply st_bind_ok in H as ([] & h1 & Hadv & H). apply Adv in Hadv as [Hres ->].
    apply st_bind_ok in H as (use & h2 & Huse & H). unfold heap_new_bool in Huse.
    destruct (new_bool (spend_permit input h)) as [l h3] eqn:Eb. injection Huse as <- <-. injection H as <- <-.
    exists now, rb, gb. split_and!; try done. unfold admitted. by rewrite Et.
  - intros (now & rb & gb & Hn & Hg & Hres & Hmut & -> & ->). destruct Hg.
    apply st_bind_ok. exists now, h. split; [by rewrite Hn|].
    apply st_bind_ok. exists tt, h. split; [apply reject_ok; by rewrite gp_plan0, gp_effect0, gp_scope0, gp_request0|].
    apply st_bind_ok. exists tt, h. split; [apply reject_ok; by rewrite gp_known0|].
    apply st_bind_ok. exists tt, h. split; [apply reject_ok; by rewrite gp_purpose0|].
    apply st_bind_ok. exists tt, h. split; [by apply reject_ok|].
    apply st_bind_ok. exists tt, h. split; [apply lift_ok; split; [by apply (cancellation_gate input)|done]|].
    apply st_bind_ok. exists (ai_Compensation input), h. split; [apply lift_ok; split; [|done]; by apply compensation_gate|].
    apply st_bind_ok. eexists _, h. split; [apply lift_ok; split; [exact Hmut | done]|].
    apply st_bind_ok. exists (targets_of input), h. split; [apply lift_ok; split; [|done]; by apply admission_switch_iff|].
    pose proof (fun h1 => advance_permit now input h h1 gp_target0) as Adv.
    unfold admitted. destruct (targets_of input) as [[[[ob od] ot] tgt] ct].
    apply st_bind_ok. exists tt, (spend_permit input h). split; [by apply Adv|].
    apply st_bind_ok. unfold heap_new_bool. destruct (new_bool (spend_permit input h)) as [l h3]. by eexists _, _.
Qed.

Lemma spend_permit_bools input h : h_bools (spend_permit input h) = h_bools h.
Proof. unfold spend_permit. by repeat case_match. Qed.

Lemma observation_permit_cell permit : validateObservationPermit permit = true -> exists l, op_transition permit = Some l.
Proof.
  unfold validateObservationPermit. autorewrite with guards. intros. destruct_and!. destruct (op_transition permit) as [l|]; [by exists l | done].
Qed.

(** A refusal leaves every cell as it was. *)
Definition fails_clean {A} (m : HeapM A) : Prop := forall h e h', m h = (Err e, h') -> h' = h.

Lemma clean_lift {A B} (r : result error A) (f : A -> HeapM B) : (forall a, fails_clean (f a)) -> fails_clean (lift r ≫= f).
Proof. intros Hf h e h' H. apply st_bind_err in H as [H|(a & h1 & H1 & H)]; [by injection H|]. injection H1 as _ <-. by eapply Hf. Qed.

Lemma clean_last {A B} (m : HeapM A) (f : A -> HeapM B) : fails_clean m -> (forall a h e h', f a h <> (Err e, h')) -> fails_clean (m ≫= f).
Proof. intros Hm Hf h e h' H. apply st_bind_err in H as [H|(a & h1 & _ & H)]; [by eapply Hm | by apply Hf in H]. Qed.

Lemma NewAttemptAdmission_clean input : fails_clean (NewAttemptAdmission input).
Proof.
  unfold NewAttemptAdmission, reject. cbv zeta. do 7 (apply clean_lift; intros ?).
  apply clean_lift. intros [[rb ru] gb]. apply clean_lift. intros [[[[ob od] ot] tgt] ct]. apply clean_last.
  - case_bool_decide; [|by intros h e h' [=]]. intros h e h'. unfold advance_word, cas_word. repeat case_match; naive_solver.
  - intros [] h e h' H. apply st_bind_err in H as [H|(l & h1 & _ & H)]; [|done]. unfold heap_new_bool in H. by destruct (new_bool h).
Qed.

(** Facts of a matching compensation step that validity needs. *)
Lemma compensationStep_facts step plan effect :
  compensationStepMatchesPlan step plan effect = true ->
  validCompensationStep step = true /\ equalDigest (cs_planDigest step) (pl_digest plan) = true /\
  EffectKey_Equal (cs_inverse step) effect = true.
Proof.
  unfold compensationStepMatchesPlan. destruct (_ || _ || _ || _) eqn:G; [done|].
  rewrite !orb_false_iff, !negb_false in G. naive_solver.
Qed.

Lemma stored_normal_id t : normal t -> t <> 0 -> stored_normal t = true.
Proof. intros Hn Hz. unfold stored_normal. rewrite normalizeTime_id by done. by apply time_equal_true. Qed.

(** Retry proofs are minted with a normalised expiry. *)
Definition retry_proof_stored (input : AttemptAdmissionInput) : Prop :=
  forall q, ai_RetryProof input = Some q -> stored_normal (rp_validUntil q) = true.

(** A retry that was cleared stands beyond the admission. *)
Lemma retry_expiry_after now input : normal now -> retry_cleared now input ->
  retry_expiry input = 0 \/ exists q, ai_RetryProof input = Some q /\ retry_expiry input = rp_validUntil q /\ now < rp_validUntil q.
Proof.
  intros Hn. unfold retry_cleared, retry_expiry. destruct (ai_CurrentEffect input) as [p|]; [|by left].
  destruct (ai_RetryProof input) as [q|]; [|by left]. intros (_ & _ & _ & Hc). right. exists q. split; [done|]. split; [done|].
  apply CheckRetry_iff in Hc as (n & Hn' & _ & _ & _ & Hc). rewrite normalizeTime_id in Hn' by (done || by intros ->).
  injection Hn' as <-. destruct Hc as [[_ ?]|(_ & q' & [= <-] & _ & _ & _ & Hlt)]; done.
Qed.

(** The retry part of validity. *)
Lemma mutation_expiry_valid now input : normal now -> retry_proof_stored input -> history_cleared now input ->
  (if negb (is_zero (mutation_expiry input)) then stored_normal (mutation_expiry input) && after (mutation_expiry input) now
     && purpose_mutates (ai_Purpose input) else true) = true.
Proof.
  intros Hn Hst Hh. unfold mutation_expiry. destruct (purpose_mutates (ai_Purpose input)) eqn:Hm; [|done].
  assert (retry_cleared now input) as Hr by (revert Hh Hm; unfold history_cleared; destruct (ai_Purpose input); naive_solver).
  destruct (retry_expiry_after _ _ Hn Hr) as [->|(q & Hq & -> & Hlt)]; [done|]. destruct (is_zero _); [done|]. simpl.
  by rewrite (Hst q Hq), (proj2 (after_true _ _) Hlt).
Qed.

Lemma admission_valid now input rb gb use :
  0 < now -> normal now -> retry_proof_stored input -> gates_passed now input ->
  validateAttemptAdmission (admitted now input rb gb use) = true.
Proof.
  intros Hpos Hn Hstored Hg. pose proof (mutation_expiry_valid _ _ Hn Hstored (gp_history _ _ Hg)) as Hret.
  pose proof (ValidatePlan_facts _ (gp_plan _ _ Hg)) as Hpf. pose proof (gp_target _ _ Hg) as Ht.
  assert (dv_initialized (pl_digest (ai_Plan input)) = true) as Hpd by (rewrite (pv_digest _ Hpf); done).
  pose proof (gp_compensation _ _ Hg) as Hc. unfold compensation_cleared in Hc. pose proof (gp_known _ _ Hg) as Hk.
  unfold admitted, target_cleared in *. cbv zeta in *.
  destruct (targets_of input) as [[[[ob od] ot] tgt] ct] eqn:Et. unfold targets_of in Et. unfold validateAttemptAdmission.
  cbn [aa_initialized aa_planDigest aa_planKind aa_effect aa_purpose aa_requestFingerprint aa_compensation aa_observationTarget
       aa_cancellationTarget aa_retryValidUntil aa_observationBinding aa_observationDeadline aa_observationTransition aa_authorizedAt
       aa_binding aa_replacementTransition aa_use].
  rewrite Hpd, (gp_effect _ _ Hg), (gp_request _ _ Hg), (gp_purpose _ _ Hg), (pv_kind _ Hpf), Hk, Hret, (proj2 (is_zero_false now)) by lia.
  destruct (ai_Purpose input) eqn:Hp; try done; simpl in *.
  - rewrite Hc. by simplify_eq.
  - rewrite Hc. destruct Ht as (_ & permit & current & Ho & Hcur & Hv & _ & Hr & Ht & _). rewrite Ho, Hcur in Et. simplify_eq.
    unfold validateObservationPermit in Hv. rewrite negb_true, !orb_false_iff, !negb_false in Hv. destruct_and!.
    rewrite Ht. repeat match goal with H : ?x = true |- context [?x] => rewrite H end. done.
  - rewrite Hc. destruct Ht as (_ & _ & target & Hct & Hv & _). rewrite Hct in Et. simplify_eq. by rewrite Hv.
  - destruct Hc as (step & Hst & Hm). rewrite Hst. simplify_eq. by apply compensationStep_facts in Hm as (-> & -> & ->).
Qed.

(** ** Preparation *)

Lemma NewPreparedAttempt_ok input h a h' :
  NewPreparedAttempt input h = (Ok a, h') ->
  validateAttemptAdmission (an_Admission input) = true /\ validID (an_ID input) = true /\ an_Ordinal input <> 0 /\
  validID (an_OwnerID input) = true /\ 1 <= an_Fence input /\ consume_admission (an_Admission input) h = (Ok tt, h') /\
  let adm := an_Admission input in
  a = At true (an_ID input) (an_Ordinal input) (aa_planDigest adm) (aa_planKind adm) (aa_effect adm) (aa_purpose adm)
         (an_OwnerID input) (an_Fence input) (aa_requestFingerprint adm) (aa_compensation adm) (aa_observationTarget adm)
         (aa_cancellationTarget adm) (aa_retryValidUntil adm) (aa_observationBinding adm) (aa_observationDeadline adm)
         (aa_binding adm) AttemptStatePrepared (aa_authorizedAt adm) 0 0.
Proof.
  unfold NewPreparedAttempt. cbv zeta. intros H.
  apply st_bind_ok in H as ([] & h1 & Hg & H). apply reject_ok in Hg as [Hg ->].
  apply st_bind_ok in H as ([] & h1 & Hc & H). unfold mret, ST_ret in H. injection H as <- <-.
  rewrite !orb_false_iff, !negb_false, Z.eqb_neq, Z.ltb_ge in Hg. destruct_and!. by split_and!.
Qed.

Lemma prepared_valid input h a h' :
  NewPreparedAttempt input h = (Ok a, h') -> ValidateAttempt a = true /\ at_state a = AttemptStatePrepared.
Proof.
  intros H. apply NewPreparedAttempt_ok in H as (Hv & Hid & Hord & Hown & Hf & _ & ->). split; [|done].
  unfold validateAttemptAdmission in Hv. rewrite !andb_true_iff in Hv.
  destruct Hv as [[[[[[[[Hb Hpk] Hpp] Hpm] _] Hcomp] Hcan] Hret] Hobs].
  rewrite negb_true, !orb_false_iff, !negb_false in Hb. destruct_and!.
  unfold ValidateAttempt, valid_attempt_times. simpl. rewrite Hid, Hown, Hpk, Hpp, Hpm, Hcomp, Hcan, Hret.
  rewrite (proj2 (Z.eqb_neq _ _) Hord), (proj2 (Z.ltb_ge _ _) Hf).
  repeat match goal with H : ?x = true |- context [?x] => rewrite H | H : ?x = false |- context [?x] => rewrite H end.
  simpl. rewrite andb_true_r. case_bool_decide.
  - rewrite !andb_true_iff in Hobs. destruct_and!. destruct (aa_observationTarget _); [|done].
    repeat match goal with H : ?x = true |- context [?x] => rewrite H end. done.
  - rewrite negb_true, !orb_false_iff in Hobs. destruct_and!.
    repeat match goal with H : ?x = false |- context [?x] => rewrite H end. done.
Qed.

(** ** Histories of everything that shares the heap *)

Inductive sys_call :=
| SysLease (c : lease_call)
| SysBudget (c : budget_call)
| SysAdmit (input : AttemptAdmissionInput)
| SysPrepare (input : AttemptInput)
| SysSelect (current candidate : Plan) (attempts : list Attempt) (effects : list EffectProjection)
    (freshObservation : bool) (proofs : list CompensationProof)
| SysReplace (current candidate : Plan) (input : AttemptAdmissionInput).

Definition on_heap {A} (m : HeapM A) (s : heap * LeaseTable) : heap * LeaseTable := ((m s.1).2, s.2).

Definition sys_step (s : heap * LeaseTable) (c : sys_call) : heap * LeaseTable :=
  match c with
  | SysLease c => (run_call c s).2
  | SysBudget c => on_heap (run_budget c) s
  | SysAdmit i => on_heap (NewAttemptAdmission i) s
  | SysPrepare i => on_heap (NewPreparedAttempt i) s
  | SysSelect cur cand ats effs f ps => on_heap (SelectPlan cur cand ats effs f ps) s
  | SysReplace cur cand i => on_heap (AuthorizeGenerationReplacement cur cand i) s
  end.

Definition sys_history (s : heap * LeaseTable) (cs : list sys_call) : heap * LeaseTable := foldl sys_step s cs.

Lemma heap_grows_advance c old new e : old < 2 -> heap_grows (advance_word c old new e).
Proof.
  intros Ho h r h'. unfold advance_word. destruct c as [l|]; [|by intros [= <- <-]].
  pose proof (cas_word_le h l old new Ho) as Hle. destruct (cas_word h l old new) as [[] h1]; by intros [= <- <-].
Qed.

#[export] Hint Extern 1 (heap_grows (advance_word _ _ _ _)) => apply heap_grows_advance; vm_compute; reflexivity : heap_grows.
#[export] Hint Extern 2 (heap_grows (if ?x then _ else _)) => destruct x : heap_grows.

Ltac heap_grows_solve :=
  cbv zeta;
  repeat match goal with
  | |- heap_grows (_ ≫= _) => apply heap_grows_bind; [|intros ?]
  | |- heap_grows (match ?x with _ => _ end) => destruct x
  | |- heap_grows _ => solve [auto 3 with heap_grows]
  end.

Lemma admission_grows input : heap_grows (NewAttemptAdmission input).
Proof. unfold NewAttemptAdmission. heap_grows_solve. Qed.

Lemma consume_grows a : heap_grows (consume_admission a).
Proof. unfold consume_admission. heap_grows_solve. Qed.

Lemma authority_grows cur cand sch bind tr : heap_grows (newLeaseReplacementAuthority cur cand sch bind tr).
Proof. unfold newLeaseReplacementAuthority. heap_grows_solve. Qed.

#[export] Hint Resolve admission_grows consume_grows authority_grows : heap_grows.

Lemma prepare_grows input : heap_grows (NewPreparedAttempt input).
Proof. unfold NewPreparedAttempt. heap_grows_solve. Qed.

Lemma select_grows cur cand ats effs f ps : heap_grows (SelectPlan cur cand ats effs f ps).
Proof. unfold SelectPlan. heap_grows_solve. Qed.

Lemma replace_grows cur cand input : heap_grows (AuthorizeGenerationReplacement cur cand input).
Proof. unfold AuthorizeGenerationReplacement. heap_grows_solve. Qed.

Lemma on_heap_le {A} (m : HeapM A) s : heap_grows m -> heap_le s.1 (on_heap m s).1.
Proof. intros Hm. unfold on_heap. destruct (m s.1) as [r h'] eqn:E. simpl. by eapply Hm. Qed.

Lemma sys_step_le s c : heap_le s.1 (sys_step s c).1.
Proof.
  destruct c as [c|c|i|i|cur cand ats effs f ps|cur cand i]; cbn [sys_step].
  - destruct (run_call c s) as [r s'] eqn:E. exact (run_call_grows _ _ _ _ E).
  - apply on_heap_le, run_budget_grows.
  - apply on_heap_le, admission_grows.
  - apply on_heap_le, prepare_grows.
  - apply on_heap_le, select_grows.
  - apply on_heap_le, replace_grows.
Qed.

Lemma sys_history_le cs : forall s, heap_le s.1 (sys_history s cs).1.
Proof. induction cs as [|c cs IH]; simpl; intros s; [done|]. etrans; [apply sys_step_le|apply IH]. Qed.

(** ** One use per admission *)

(** The shared state of an admission after it was consumed. *)
Definition admission_spent (a : AttemptAdmission) (h : heap) : Prop :=
  match aa_replacementTransition a, aa_observationTransition a with
  | Some l, _ | None, Some l => 2 <= load_word h l
  | None, None => match aa_use a with Some l => load_bool h l = true | None => False end
  end.

Lemma admission_spent_le a h h' : admission_spent a h -> heap_le h h' -> admission_spent a h'.
Proof. unfold admission_spent. intros H [Hb Hw]. repeat case_match; auto. Qed.

Lemma advance_word_ok l old new e h u h' :
  advance_word (Some l) old new e h = (Ok u, h') -> load_word h l = old /\ load_word h' l = new.
Proof.
  unfold advance_word. destruct (cas_word h l old new) as [[] h1] eqn:E; [|done].
  intros [= _ <-]. by apply cas_word_swapped.
Qed.

Lemma consume_spends a h h' :
  consume_admission a h = (Ok tt, h') -> admission_spent a h' /\ ~ admission_spent a h.
Proof.
  unfold consume_admission, admission_spent. intros H.
  destruct (aa_replacementTransition a) as [l|]; [|destruct (aa_observationTransition a) as [l|]].
  - apply advance_word_ok in H as [-> ->]. lia.
  - apply advance_word_ok in H as [-> ->]. unfold observationAdmitted, observationPrepared. lia.
  - apply heap_use_once_ok in H as (l & -> & Hf & ->). by rewrite Hf.
Qed.

(** ** Values for the witnesses *)

Definition s_input : AttemptAdmissionInput :=
  AAI s_now s_plan s_effect AttemptPurposeForward (s_digest 41) false None None None [] [] None None.
Definition s_admission : AttemptAdmission :=
  Eval vm_compute in
  match (NewAttemptAdmission s_input empty_heap).1 with
  | Ok a => a
  | Err _ => AA false digest_zero (PlanKindOther "") s_effect (AttemptPurposeOther "") digest_zero None None None 0
                digest_zero 0 None 0 digest_zero None None
  end.
Definition s_admission_heap : heap := Heap {[1%positive := false]} ∅ ∅.
Definition s_attempt_input (id : ID) (ordinal : Z) : AttemptInput := AInput id ordinal s_admission s_owner 1.

Example s_admission_minted : NewAttemptAdmission s_input empty_heap = (Ok s_admission, s_admission_heap).
Proof. vm_compute. reflexivity. Qed.

(** ** Properties *)

(** C27: admission is an exact gate.  An attempt is admitted if and only if
    - the plan, the effect and the request fingerprint are valid and belong
      together, the purpose is a known one of the plan's kind, and the plan does
      not record the effect as completed;
    - no cancellation was requested, or the purpose is neither forward nor
      compensation;
    - the retry gate lets a mutation pass, the generation gate a forward or
      compensating one, and nothing is handed in that the purpose does not look
      at;
    - a compensation follows the plan's schedule, and nothing else has a step;
    - an observation has its own permit, reserved at this very instant and not
      used yet, and an indeterminate target that is not dated later; a provider
      cancellation was requested, has a live target that is not dated later, and
      is the one its effect was already aimed at, if there was one; nothing else
      has a permit or a target.
    The admission then records the plan, effect, purpose, request and instant it
    was decided on, is bound to them all, and has a one-use flag of its own, not
    set; the permit is spent, so that it admits nothing again.  A refusal changes
    no cell. *)
Theorem admission_gates (input : AttemptAdmissionInput) (h : heap) :
  ((exists a h', NewAttemptAdmission input h = (Ok a, h')) <->
   exists now, normalizeTime (ai_DatabaseTime input) = Some now /\ gates_passed now input /\ permit_reserved input h) /\
  (forall a h', NewAttemptAdmission input h = (Ok a, h') ->
   exists now rb gb use, normalizeTime (ai_DatabaseTime input) = Some now /\
     mutationAdmissionBindings now input = Ok (rb, mutation_expiry input, gb) /\ a = admitted now input rb gb use /\
     h_bools h !! use = None /\ h_bools h' = <[use := false]> (h_bools h) /\ h_words h' = h_words (spend_permit input h) /\
     (ai_Purpose input = AttemptPurposeObservation -> forall a2 h2, NewAttemptAdmission input h' <> (Ok a2, h2))) /\
  (forall e h', NewAttemptAdmission input h = (Err e, h') -> h' = h).
Proof.
  split; [|split].
  - split.
    + intros (a & h' & (now & rb & gb & Hn & Hg & Hp & _)%NewAttemptAdmission_iff). by exists now.
    + intros (now & Hn & Hg & Hp).
      destruct (proj2 (mutationAdmissionBindings_iff now input (gp_effect _ _ Hg) (mutation_expiry input) (gp_known _ _ Hg)))
        as (rb & gb & Hm); [split; [apply Hg | done]|].
      do 2 eexists. apply NewAttemptAdmission_iff. exists now, rb, gb. by split_and!.
  - intros a h' (now & rb & gb & Hn & Hg & Hp & Hm & -> & ->)%NewAttemptAdmission_iff.
    exists now, rb, gb, (new_bool (spend_permit input h)).1. split_and!; try done.
    + rewrite <- (spend_permit_bools input h). apply fresh_loc_bools.
    + by rewrite <- (spend_permit_bools input h).
    + intros Hpu a2 h2 (now2 & _ & _ & _ & _ & Hp2 & _)%NewAttemptAdmission_iff. pose proof (gp_target _ _ Hg) as Ht.
      unfold target_cleared in Ht. rewrite Hpu in Ht. destruct Ht as (_ & permit & current & Ho & _ & Hv & _).
      destruct (observation_permit_cell _ Hv) as [l Hl]. specialize (Hp2 Hpu permit l Ho Hl).
      unfold spend_permit in Hp2. rewrite Hpu, Ho in Hp2. simpl in Hp2. rewrite Hl in Hp2. unfold load_word in Hp2. simpl in Hp2.
      by rewrite lookup_insert_eq in Hp2.
  - apply NewAttemptAdmission_clean.
Qed.

Lemma admission_gates_witness :
  exists now, normalizeTime s_now = Some now /\ gates_passed now s_input.
Proof.
  destruct (proj1 (proj1 (admission_gates s_input empty_heap)) (ex_intro _ s_admission (ex_intro _ s_admission_heap s_admission_minted)))
    as (now & Hn & Hg & _).
  exists now. split; [exact Hn|exact Hg].
Defined.

(** From admission to preparation nothing is lost: an admitted attempt's
    capability is valid, and whatever is prepared from it is a valid attempt in
    the prepared state, for exactly the admitted plan, effect, purpose, request
    and admission binding, with the given identity, owner and fence. *)
Theorem prepared_from_admission (input : AttemptAdmissionInput) (adm : AttemptAdmission) (h h1 h2 h3 : heap)
  (id owner : ID) (ordinal fence : Z) (a : Attempt)
  (Htime : millisecond <= ai_DatabaseTime input) (Hproof : retry_proof_stored input)
  (Hadmit : NewAttemptAdmission input h = (Ok adm, h1))
  (Hprepare : NewPreparedAttempt (AInput id ordinal adm owner fence) h2 = (Ok a, h3)) :
  validateAttemptAdmission adm = true /\ attempt_ok a /\ at_state a = AttemptStatePrepared /\
  at_id a = id /\ at_ordinal a = ordinal /\ at_ownerID a = owner /\ at_fence a = fence /\
  at_planDigest a = pl_digest (ai_Plan input) /\ at_planKind a = pl_kind (ai_Plan input) /\
  at_effect a = ai_Effect input /\ at_purpose a = ai_Purpose input /\
  at_requestFingerprint a = ai_RequestFingerprint input /\ at_admissionBinding a = aa_binding adm /\
  normalizeTime (ai_DatabaseTime input) = Some (at_preparedAt a).
Proof.
  apply NewAttemptAdmission_iff in Hadmit as (now & rb & gb & Hn & Hg & _ & _ & -> & _).
  pose proof (normalizeTime_pos _ _ Htime Hn) as Hpos.
  pose proof (admission_valid now input rb gb (new_bool (spend_permit input h)).1 Hpos (normalizeTime_normal _ _ Hn) Hproof Hg) as Hvalid.
  pose proof (prepared_valid _ _ _ _ Hprepare) as [Hva Hst].
  apply NewPreparedAttempt_ok in Hprepare as (_ & _ & _ & _ & _ & _ & ->). revert Hvalid Hva Hst. unfold admitted.
  destruct (targets_of input) as [[[[ob od] ot] tgt] ct]. intros. simpl in *.
  split_and!; try done; congruence.
Qed.

Lemma prepared_from_admission_witness : validateAttemptAdmission s_admission = true.
Proof.
  destruct (NewPreparedAttempt (AInput s_attempt 1 s_admission s_owner 1) s_admission_heap) as [[a|e] h3] eqn:E;
    [|vm_compute in E; discriminate].
  assert (millisecond <= ai_DatabaseTime s_input) as Htime by (vm_compute; discriminate).
  assert (retry_proof_stored s_input) as Hproof by (intros q Hq; discriminate Hq).
  destruct (prepared_from_admission s_input s_admission empty_heap s_admission_heap s_admission_heap h3
    s_attempt s_owner 1 1 a Htime Hproof s_admission_minted E) as [Hv _].
  exact Hv.
Defined.

(** An admission is consumed at most once.  After an attempt was prepared
    from it, no further attempt is prepared from any copy of the admission,
    after any sequence of lease, observation, admission, preparation and
    planning calls, including the publication of replacements and releases of
    observation permits that share its state. *)
Theorem admission_used_once (input input' : AttemptInput) (s : heap * LeaseTable) (h1 : heap) (a : Attempt)
  (t1 : LeaseTable) (cs : list sys_call)
  (Hsame : an_Admission input' = an_Admission input)
  (Hfirst : NewPreparedAttempt input s.1 = (Ok a, h1)) :
  exists e h2, NewPreparedAttempt input' (sys_history (h1, t1) cs).1 = (Err e, h2).
Proof.
  apply NewPreparedAttempt_ok in Hfirst as (_ & _ & _ & _ & _ & Hc & _). apply consume_spends in Hc as [Hspent _].
  pose proof (admission_spent_le _ _ _ Hspent (sys_history_le cs (h1, t1))) as Hlater.
  destruct (NewPreparedAttempt input' _) as [[a'|e] h2] eqn:Hagain; [|eauto].
  apply NewPreparedAttempt_ok in Hagain as (_ & _ & _ & _ & _ & Hc' & _). rewrite Hsame in Hc'.
  apply consume_spends in Hc' as [_ Hfresh]. done.
Qed.

Lemma admission_used_once_witness :
  exists a h1, NewPreparedAttempt (s_attempt_input s_attempt 1) s_admission_heap = (Ok a, h1) /\
    exists e h2, NewPreparedAttempt (s_attempt_input s_attempt 2)
      (sys_history (h1, s_table) [SysAdmit s_input]).1 = (Err e, h2).
Proof.
  destruct (NewPreparedAttempt (s_attempt_input s_attempt 1) s_admission_heap) as [[a|e] h1] eqn:E;
    [|vm_compute in E; discriminate].
  exists a, h1. split; [reflexivity|].
  exact (admission_used_once (s_attempt_input s_attempt 1) (s_attempt_input s_attempt 2) (s_admission_heap, s_table)
    h1 a s_table [SysAdmit s_input] eq_refl E).
Defined.
