(* ===== verification/PlanningProps.v ===== *)
(** * Properties of replanning and compensation

    A plan may be superseded only over settled truth, and the superseding plan
    carries all of it; compensation covers exactly the applied effects, in
    strictly decreasing dependency order, one step at a time. *)

From S2P Require Import Prelude StringOrder Bytes Sha256 GoTime Atomics Closed Vocabulary Digests Plan PlanProps.
From S2P Require Import Lease LeaseSpec Attempt LeaseProps AttemptProps Observation ObservationProps.
From S2P Require Import Admission Planning.
From Stdlib Require Import String OrdersEx Sorted.

(** ** Canonical effect sets *)

(** The scope all effects of a canonical set share. *)
Definition in_scope (plan : Plan) (e : EffectKey) : Prop :=
  ValidateEffectKey e = true /\ ek_operationID e = pl_operationID plan /\ ek_workspaceID e = pl_workspaceID plan /\
  ek_resourceID e = pl_resourceID plan /\ ek_generation e = pl_generation plan.

Lemma canonical_from_facts l plan : forall previous,
  validCanonicalEffects_from previous l plan = true ->
  Forall (in_scope plan) l /\ NoDup (map EffectKey_String l) /\
  (forall p e, previous = Some p -> e ∈ l -> String.ltb (EffectKey_String p) (EffectKey_String e) = true).
Proof.
  induction l as [|x l IH]; intros previous H; simpl in *.
  - split_and!; [constructor|constructor|set_solver].
  - rewrite !andb_true_iff in H. destruct H as [[Hx Hp] H]. destruct (IH _ H) as (Hf & Hnd & Hlt).
    autorewrite with guards in Hx. destruct_and!. rewrite Forall_cons, NoDup_cons. split_and!; try done.
    + intros Hin. apply list_elem_of_fmap in Hin as (y & Hy & Hin).
      specialize (Hlt x y eq_refl Hin). by rewrite <- Hy, string_ltb_irrefl in Hlt.
    + intros p e -> [->|He]%elem_of_cons; [done|]. eapply string_ltb_trans; [exact Hp|]. by apply Hlt.
Qed.

Lemma canonical_facts l plan :
  validCanonicalEffects l plan = true -> Forall (in_scope plan) l /\ NoDup (map EffectKey_String l).
Proof. intros H. apply canonical_from_facts in H. naive_solver. Qed.

(** In one scope the spelling identifies the effect. *)
Lemma in_scope_inj p q a b :
  pl_operationID p = pl_operationID q -> pl_workspaceID p = pl_workspaceID q ->
  pl_resourceID p = pl_resourceID q -> pl_generation p = pl_generation q ->
  in_scope p a -> in_scope q b -> EffectKey_String a = EffectKey_String b -> a = b.
Proof.
  intros Ho Hw Hr Hg (Va & ? & ? & ? & ?) (Vb & ? & ? & ? & ?) Hs.
  pose proof (EffectKey_String_inj a b Va Vb Hs). apply EffectKey_Equal_true.
  apply EffectKey_Equal_true. split; [done|]. unfold ValidateEffectKey in *. autorewrite with guards in *. destruct_and!.
  destruct a, b; simpl in *. congruence.
Qed.


Lemma effects_by_name_some l : forall m k e,
  effects_by_name l m !! k = Some e -> (e ∈ l /\ EffectKey_String e = k) \/ m !! k = Some e.
Proof.
  unfold effects_by_name. induction l as [|x l IH]; simpl; intros m k e H; [by right|].
  apply IH in H as [[Hin Hk]|H]; [left; split; [by right|done]|].
  apply lookup_insert_Some in H as [[<- <-]|[_ H]]; [left; split; [left|done]|by right].
Qed.

Lemma effects_by_name_dom l : forall m,
  dom (effects_by_name l m) = list_to_set (map EffectKey_String l) ∪ dom m.
Proof.
  unfold effects_by_name. induction l as [|x l IH]; simpl; intros m; [set_solver|].
  rewrite IH, dom_insert_L. set_solver.
Qed.

(** ** Compensation plans *)

Definition original_of (p : CompensationProof) : EffectKey := ep_key (cp_original p).
Definition original_name (p : CompensationProof) : string := EffectKey_String (original_of p).
Definition inverse_name (p : CompensationProof) : string := EffectKey_String (cp_inverse p).

(** Strictly decreasing dependency order. *)
Definition later_dependency (p q : CompensationProof) : Prop := cp_dependencyOrder q < cp_dependencyOrder p.

Lemma check_inverses_ok plan originals proofs : forall previous want seen remaining,
  check_inverses plan originals proofs previous want seen = Ok remaining ->
  Forall (fun p => validCompensationProof p = true /\ effectMatchesPlan (cp_inverse p) plan = true /\
                   inverse_name p ∉ originals) proofs /\
  NoDup (map inverse_name proofs) /\ NoDup (map original_name proofs) /\
  (forall p, p ∈ proofs -> want !! original_name p = Some (original_of p) /\ inverse_name p ∉ seen) /\
  StronglySorted later_dependency proofs /\
  (forall order p, previous = Some order -> p ∈ proofs -> cp_dependencyOrder p < order).
Proof.
  induction proofs as [|p ps IH]; intros previous want seen remaining; simpl.
  - intros _. split_and!; try constructor; set_solver.
  - rewrite !bind_fail_if. fold (inverse_name p). fold (original_of p). fold (original_name p).
    destruct (_ || _ || _) eqn:G; [done|]. rewrite !orb_false_iff, !negb_false in G. destruct G as [[Hv Hm] Hprev].
    case_bool_decide as Hor; [done|].
    destruct (want !! original_name p) as [w|] eqn:Hw; [|done].
    destruct (negb (EffectKey_Equal w _)) eqn:Heq; [done|]. rewrite negb_false, EffectKey_Equal_true in Heq.
    destruct Heq as [_ ->]. case_bool_decide as Hseen; [done|]. intros H.
    apply IH in H as (Hf & Hni & Hno & Hwant & Hsort & Hord). rewrite Forall_cons, !NoDup_cons.
    assert (forall q, q ∈ ps -> original_name q <> original_name p /\ inverse_name q <> inverse_name p) as Hdist.
    { intros q Hq. destruct (Hwant q Hq) as [Hl Hs]. apply lookup_delete_Some in Hl. set_solver. }
    split_and!; try done.
    + intros Hin. apply list_elem_of_fmap in Hin as (q & Hq & Hin). by destruct (Hdist q Hin).
    + intros Hin. apply list_elem_of_fmap in Hin as (q & Hq & Hin). by destruct (Hdist q Hin).
    + intros q [->|Hq]%elem_of_cons; [done|]. destruct (Hwant q Hq) as [Hl Hs].
      apply lookup_delete_Some in Hl. split; [naive_solver|set_solver].
    + constructor; [done|]. apply Forall_forall. intros q Hq. exact (Hord _ q eq_refl Hq).
    + intros order q -> [->|Hq]%elem_of_cons.
      * by apply Z.leb_gt.
      * apply Z.leb_gt in Hprev. specialize (Hord _ q eq_refl Hq). lia.
Qed.

Record compensation_ordered (plan : Plan) (proofs : list CompensationProof) : Prop := {
  cm_plan : ValidatePlan plan = true /\ pl_kind plan = PlanKindCompensation;
  cm_proofs : Forall (fun p => validCompensationProof p = true /\
                ep_state (cp_original p) = AttemptStateApplied /\ effectMatchesPlan (cp_inverse p) plan = true) proofs;
  cm_covers : map original_of proofs ≡ₚ pl_compensates plan;
  cm_order : StronglySorted later_dependency proofs;
  cm_inverses : NoDup (map inverse_name proofs);
  cm_disjoint : forall p q, p ∈ proofs -> q ∈ proofs -> inverse_name p <> original_name q;
}.

Lemma ValidateCompensationPlan_sound plan proofs :
  ValidateCompensationPlan plan proofs = Ok tt -> compensation_ordered plan proofs.
Proof.
  unfold ValidateCompensationPlan. cbv zeta. intros H. apply bind_ok in H as ([] & Hg & H). apply fail_if_ok in Hg.
  apply bind_ok in H as (rem & Hc & _). rewrite !orb_false_iff, !negb_false, bool_decide_eq_true, Z.eqb_eq in Hg.
  destruct_and!. apply check_inverses_ok in Hc as (Hf & Hni & Hno & Hwant & Hsort & _).
  assert (forall p, p ∈ proofs -> original_of p ∈ pl_compensates plan) as Hin.
  { intros p Hp. destruct (Hwant p Hp) as [Hl _]. apply effects_by_name_some in Hl as [[? _]|Hl]; [done|].
    by rewrite lookup_empty in Hl. }
  assert (NoDup (map original_of proofs)) as Hnd.
  { apply (NoDup_fmap_1 EffectKey_String). rewrite <- list_fmap_compose. exact Hno. }
  split; try done.
  - apply Forall_forall. intros p Hp. rewrite Forall_forall in Hf. destruct (Hf p Hp) as (Hv & Hm & _).
    split_and!; try done. unfold validCompensationProof in Hv. rewrite !andb_true_iff, bool_decide_eq_true in Hv.
    by destruct_and!.
  - apply submseteq_length_Permutation.
    + apply NoDup_submseteq; [done|]. intros e He. apply list_elem_of_fmap in He as (p & -> & Hp). by apply Hin.
    + rewrite length_map. lia.
  - intros p q Hp Hq Heq. rewrite Forall_forall in Hf. destruct (Hf p Hp) as (_ & _ & Hn). apply Hn.
    rewrite Heq. destruct (Hwant q Hq) as [Hl _]. apply elem_of_dom. by exists (original_of q).
Qed.

(** ** The next step *)

Lemma next_proof_ok plan total schedule : forall proofs completed position p,
  next_proof plan total schedule position proofs completed = Some p <->
  proofs !! List.length completed = Some p /\
  forall i q e, proofs !! i = Some q -> completed !! i = Some e ->
    completed_step_ok plan total schedule (position + Z.of_nat i) q e = true.
Proof.
  intros proofs completed. revert proofs. induction completed as [|e es IH]; intros [|q qs] position p; simpl.
  - naive_solver.
  - split; [intros [= ->]; split; [done|naive_solver]|naive_solver].
  - naive_solver.
  - destruct (completed_step_ok plan total schedule position q e) eqn:Hok.
    + rewrite IH. split; intros [Hp Hall]; (split; [done|]).
      * intros [|i] q' e' Hq He; simpl in *; simplify_eq.
        -- by rewrite Z.add_0_r.
        -- replace (position + Z.of_nat (S i)) with (position + 1 + Z.of_nat i) by lia. by apply Hall.
      * intros i q' e' Hq He. replace (position + 1 + Z.of_nat i) with (position + Z.of_nat (S i)) by lia.
        by apply (Hall (S i)).
    + split; [done|]. intros [_ Hall]. specialize (Hall 0%nat q e eq_refl eq_refl). simpl in Hall.
      rewrite Z.add_0_r in Hall. congruence.
Qed.

(** The completed effects follow the schedule from its start. *)
Definition schedule_followed (plan : Plan) (proofs : list CompensationProof) (completed : list EffectProjection) : Prop :=
  forall i q e, proofs !! i = Some q -> completed !! i = Some e ->
    completed_step_ok plan (llen proofs) (deriveCompensationSchedule plan proofs) (1 + Z.of_nat i) q e = true.

Lemma StronglySorted_lookup {A} (R : A -> A -> Prop) l i j x y :
  StronglySorted R l -> (i < j)%nat -> l !! i = Some x -> l !! j = Some y -> R x y.
Proof.
  intros Hs. revert i j. induction Hs as [|a l Hs IH Hall]; intros [|i] [|j] Hij Hi Hj; simpl in *; try lia; try done.
  - simplify_eq. rewrite Forall_forall in Hall. apply Hall. by eapply list_elem_of_lookup_2.
  - apply (IH i j); [lia|done|done].
Qed.

(** ** The scans of [SelectPlan] *)

Definition attempt_name (a : Attempt) : string := EffectKey_String (at_effect a).

Lemma scan_attempt_ok current s a s' :
  scan_attempt current s a = Ok s' ->
  ValidateAttempt a = true /\ equalDigest (at_planDigest a) (pl_digest current) = true /\ Attempt_Resolved a = true /\
  dom (sc_effects s') = {[attempt_name a]} ∪ dom (sc_effects s).
Proof.
  unfold scan_attempt. cbv zeta. intros H. run_inv H.
  repeat match goal with Hx : negb _ = false |- _ => apply negb_false in Hx end.
  split_and!; try done. simpl. by rewrite dom_insert_L.
Qed.

Lemma scan_attempts_ok current ats : forall s s',
  scan_attempts current s ats = Ok s' ->
  Forall (fun a => ValidateAttempt a = true /\ equalDigest (at_planDigest a) (pl_digest current) = true /\
                   Attempt_Resolved a = true) ats /\
  dom (sc_effects s') = list_to_set (map attempt_name ats) ∪ dom (sc_effects s).
Proof.
  induction ats as [|a ats IH]; simpl; intros s s' H.
  - simplify_eq. split; [constructor|set_solver].
  - apply bind_ok in H as (s1 & H1 & H). apply scan_attempt_ok in H1 as (? & ? & ? & Hd).
    apply IH in H as [Hf Hd']. split; [by constructor|]. rewrite Hd', Hd. set_solver.
Qed.

Definition applied (e : EffectProjection) : Prop := ep_state e = AttemptStateApplied.

Lemma scan_effects_ok current s effs : forall seen want seen' want',
  scan_effects current s effs seen want = Ok (seen', want') ->
  Forall (fun e => validateEffectProjection e = true /\ pending e = false /\ prior_key e ∉ seen /\
                   prior_key e ∈ dom (sc_effects s)) effs /\
  seen' = list_to_set (map prior_key effs) ∪ seen /\
  (forall e, e ∈ effs -> applied e -> want' !! prior_key e = Some (ep_key e)) /\
  (forall k, (forall e, e ∈ effs -> applied e -> prior_key e <> k) -> want' !! k = want !! k).
Proof.
  induction effs as [|e es IH]; simpl; intros seen want seen' want' H.
  - simplify_eq. split_and!; [constructor|set_solver|set_solver|done].
  - rewrite !bind_fail_if in H. fold (prior_key e) in H.
    destruct (negb (validateEffectProjection e)) eqn:Hv; [done|].
    destruct (negb (equalDigest _ _)); [done|]. case_bool_decide as Hseen; [done|].
    destruct (sc_effects s !! prior_key e) as [identity|] eqn:Hid; [|done].
    destruct (negb (effectProjectionIdentityEqual _ _)); [done|]. destruct (before _ _); [done|].
    destruct (negb _ && negb _) eqn:Hst; [done|].
    apply IH in H as (Hf & -> & Happ & Hkeep).
    assert (pending e = false) as Hp.
    { unfold pending. destruct (bool_decide (ep_state e = AttemptStateApplied)); [done|].
      destruct (bool_decide (ep_state e = AttemptStateNoEffect)); done. }
    assert (forall x, x ∈ es -> prior_key x <> prior_key e) as Hdist.
    { intros x Hx. rewrite Forall_forall in Hf. destruct (Hf x Hx) as (_ & _ & Hn & _). set_solver. }
    split_and!.
    + rewrite Forall_cons. apply negb_false in Hv. split; [split_and!; try done; apply elem_of_dom; by exists identity|].
      eapply Forall_impl; [exact Hf|]. simpl. intros x (? & ? & ? & ?). split_and!; try done. set_solver.
    + set_solver.
    + intros x [->|Hx]%elem_of_cons Ha; [|by apply Happ].
      rewrite Hkeep by (intros y Hy _; by apply Hdist). rewrite bool_decide_eq_true_2 by done. apply lookup_insert_eq.
    + intros k Hk. rewrite Hkeep by (intros x Hx; apply Hk; by right).
      case_bool_decide as Ha; [|done]. rewrite lookup_insert_ne; [done|]. apply Hk; [left|done].
Qed.

(** ** Safe supersession *)

Record supersedes_safely (current candidate : Plan) (ats : list Attempt) (effs : list EffectProjection) : Prop := {
  ss_revision : pl_revision candidate = (pl_revision current + 1) mod 4294967296;
  ss_lineage : pl_supersedes candidate = Some (pl_digest current);
  ss_observed : Evidence_Equal (pl_observed candidate) (pl_observed current) = false;
  ss_resolved : Forall (fun a => Attempt_Resolved a = true) ats;
  ss_settled : Forall (fun e => pending e = false) effs;
  ss_attempted : forall a, a ∈ ats -> exists e, e ∈ effs /\ prior_key e = attempt_name a;
  ss_keeps : forall k, k ∈ pl_completedEffects current -> k ∈ pl_completedEffects candidate;
  ss_records : forall e, e ∈ effs -> applied e -> ep_key e ∈ pl_completedEffects candidate;
  ss_only : forall k, k ∈ pl_completedEffects candidate ->
    k ∈ pl_completedEffects current \/ exists e, e ∈ effs /\ applied e /\ ep_key e = k;
}.

Lemma completed_recorded_ok want completed :
  completed_recorded want completed = true ->
  forall k, k ∈ completed -> want !! EffectKey_String k = Some k.
Proof.
  unfold completed_recorded. rewrite forallb_forall. intros H k Hk. apply list_elem_of_In in Hk.
  specialize (H k Hk). destruct (want !! EffectKey_String k) as [w|]; [|done].
  apply EffectKey_Equal_true in H as [_ ->]. done.
Qed.

(** A duplicate-free list of keys as long as a map that contains them covers it. *)
Lemma names_cover (want : gmap string EffectKey) (completed : list EffectKey) :
  NoDup (map EffectKey_String completed) -> Z.of_nat (size want) = llen completed ->
  (forall k, k ∈ completed -> want !! EffectKey_String k = Some k) ->
  forall name k, want !! name = Some k -> k ∈ completed /\ EffectKey_String k = name.
Proof.
  intros Hnd Hsz Hin name k Hk.
  assert (list_to_set (map EffectKey_String completed) = dom want) as Hdom.
  { apply set_subseteq_size_eq.
    - intros x Hx. apply elem_of_list_to_set, list_elem_of_fmap in Hx as (e & -> & He).
      apply elem_of_dom. exists e. by apply Hin.
    - rewrite size_list_to_set, length_map, size_dom by done. lia. }
  assert (name ∈ dom want) as Hn by (apply elem_of_dom; eauto).
  rewrite <- Hdom in Hn. apply elem_of_list_to_set, list_elem_of_fmap in Hn as (e & -> & He).
  rewrite (Hin e He) in Hk. injection Hk as <-. done.
Qed.

Lemma supersede_records current candidate effs s seen want :
  ValidatePlan current = true -> ValidatePlan candidate = true ->
  pl_operationID current = pl_operationID candidate -> pl_workspaceID current = pl_workspaceID candidate ->
  pl_resourceID current = pl_resourceID candidate -> pl_generation current = pl_generation candidate ->
  scan_effects current s effs ∅ (effects_by_name (pl_completedEffects current) ∅) = Ok (seen, want) ->
  Z.of_nat (size want) = llen (pl_completedEffects candidate) ->
  completed_recorded want (pl_completedEffects candidate) = true ->
  (forall k, k ∈ pl_completedEffects current -> k ∈ pl_completedEffects candidate) /\
  (forall e, e ∈ effs -> applied e -> ep_key e ∈ pl_completedEffects candidate) /\
  (forall k, k ∈ pl_completedEffects candidate ->
     k ∈ pl_completedEffects current \/ exists e, e ∈ effs /\ applied e /\ ep_key e = k).
Proof.
  intros Hcur Hcand Ho Hw Hr Hg Hscan Hsize Hrec.
  destruct (canonical_facts _ _ (pv_completed _ (ValidatePlan_facts _ Hcur))) as [Hcs _].
  destruct (canonical_facts _ _ (pv_completed _ (ValidatePlan_facts _ Hcand))) as [Hds Hnd].
  rewrite Forall_forall in Hcs, Hds.
  pose proof (completed_recorded_ok _ _ Hrec) as Hin. pose proof (names_cover _ _ Hnd Hsize Hin) as Hcover.
  apply scan_effects_ok in Hscan as (_ & _ & Happ & Hkeep).
  assert (forall k, k ∈ pl_completedEffects current -> exists x, want !! EffectKey_String k = Some x) as Hdom.
  { intros k Hk. destruct (decide (Exists (fun e => applied e /\ prior_key e = EffectKey_String k) effs)) as [Hex|Hno].
    - apply Exists_exists in Hex as (e & He & Ha & <-). exists (ep_key e). by apply Happ.
    - rewrite Hkeep by (intros e He Ha Heq; apply Hno, Exists_exists; eauto).
      apply elem_of_dom. rewrite effects_by_name_dom. apply elem_of_union_l, elem_of_list_to_set.
      by apply list_elem_of_fmap_2. }
  split_and!.
  - intros k Hk. destruct (Hdom k Hk) as [x Hx]. destruct (Hcover _ _ Hx) as [Hxin Hname].
    assert (x = k) as <-; [|done].
    eapply (in_scope_inj candidate current); [done..|by apply Hds|by apply Hcs|done].
  - intros e He Ha. by destruct (Hcover _ _ (Happ e He Ha)).
  - intros k Hk. specialize (Hin k Hk).
    destruct (decide (Exists (fun e => applied e /\ prior_key e = EffectKey_String k) effs)) as [Hex|Hno].
    + right. apply Exists_exists in Hex as (e & He & Ha & Heq). exists e. split_and!; try done.
      specialize (Happ e He Ha). rewrite Heq in Happ. congruence.
    + left. rewrite Hkeep in Hin by (intros e He Ha Heq; apply Hno, Exists_exists; eauto).
      apply effects_by_name_some in Hin as [[? _]|Hin]; [done|]. by rewrite lookup_empty in Hin.
Qed.

(** Every attempted effect has a settled projection. *)
Lemma supersede_attempted current (ats : list Attempt) effs s seen want want0 :
  scan_attempts current (Scan ∅ ∅ ∅ ∅) ats = Ok s -> scan_effects current s effs ∅ want0 = Ok (seen, want) ->
  Z.of_nat (size seen) = Z.of_nat (size (sc_effects s)) ->
  forall a, a ∈ ats -> exists e, e ∈ effs /\ prior_key e = attempt_name a.
Proof.
  intros Ha He Hsz a Hin. apply scan_attempts_ok in Ha as [_ Hd]. apply scan_effects_ok in He as (Hf & Hseen & _ & _).
  rewrite Forall_forall in Hf.
  assert (seen = dom (sc_effects s)) as Heq.
  { apply set_subseteq_size_eq.
    - intros k Hk. rewrite Hseen in Hk. apply elem_of_union in Hk as [Hk|Hk]; [|set_solver].
      apply elem_of_list_to_set, list_elem_of_fmap in Hk as (e & -> & Hein). by destruct (Hf e Hein) as (_ & _ & _ & ?).
    - rewrite size_dom. lia. }
  assert (attempt_name a ∈ seen) as Hn.
  { rewrite Heq, Hd. apply elem_of_union_l, elem_of_list_to_set. by apply list_elem_of_fmap_2. }
  rewrite Hseen in Hn. apply elem_of_union in Hn as [Hn|Hn]; [|set_solver].
  apply elem_of_list_to_set, list_elem_of_fmap in Hn as (e & Hname & Hein). by exists e.
Qed.

Lemma newLeaseReplacementAuthority_ok cur cand sch bind tr h a h' :
  newLeaseReplacementAuthority cur cand sch bind tr h = (Ok a, h') ->
  LeaseBindingFromPlan cur = Ok (ra_expected a) /\ LeaseBindingFromPlan cand = Ok (ra_replacement a) /\
  leaseBindingMovesForward (ra_expected a) (ra_replacement a) = true /\
  ra_compensationSchedule a = sch /\ ra_admissionBinding a = bind /\ ra_transition a = tr /\ is_some (ra_use a) = true.
Proof.
  unfold newLeaseReplacementAuthority. intros H. run_inv H. autorewrite with guards in *. destruct_and!. by split_and!.
Qed.

Definition compensation_schedule_of (cand : Plan) (ps : list CompensationProof) : result error digestValue :=
  if bool_decide (pl_kind cand = PlanKindCompensation) then
    if result_ok (ValidateCompensationPlan cand ps)
    then Ok (deriveCompensationSchedule cand ps) else Err ErrInvalidPlan
  else if is_empty ps then Ok digest_zero else Err ErrInvalidPlan.

Lemma compensation_schedule_ok cand ps d :
  compensation_schedule_of cand ps = Ok d ->
  pl_kind cand = PlanKindCompensation -> ValidateCompensationPlan cand ps = Ok tt.
Proof.
  unfold compensation_schedule_of. intros H Hk. rewrite bool_decide_eq_true_2 in H by done.
  destruct (ValidateCompensationPlan cand ps) as [[]|]; done.
Qed.

Lemma SelectPlan_supersedes cur cand ats effs f ps h sel authority h' :
  SelectPlan cur cand ats effs f ps h = (Ok (sel, PlanSelectionSupersede, authority), h') ->
  sel = cand /\ f = true /\ ValidatePlan cur = true /\ ValidatePlan cand = true /\
  supersedes_safely cur cand ats effs /\
  (pl_kind cand = PlanKindCompensation -> ValidateCompensationPlan cand ps = Ok tt) /\
  exists a, authority = Some a /\ LeaseBindingFromPlan cur = Ok (ra_expected a) /\
    LeaseBindingFromPlan cand = Ok (ra_replacement a) /\ leaseBindingMovesForward (ra_expected a) (ra_replacement a) = true.
Proof.
  unfold SelectPlan. fold (compensation_schedule_of cand ps). intros H.
  apply st_bind_ok in H as ([] & h1 & Hg1 & H). apply reject_ok in Hg1 as [Hg1 ->].
  rewrite !orb_false_iff, !negb_false, !String.eqb_eq, Z.eqb_eq in Hg1. destruct_and!.
  destruct (equalDigest (pl_digest cur) (pl_digest cand)); [done|].
  apply st_bind_ok in H as ([] & h1 & Hg2 & H). apply reject_ok in Hg2 as [Hg2 ->].
  rewrite !orb_false_iff, !negb_false, Z.eqb_eq in Hg2. destruct Hg2 as [[[[_ Hrev] Hsup] Hfresh] Hobs].
  apply st_bind_ok in H as (sch & h1 & Hsch & H). apply lift_ok in Hsch as [Hsch ->].
  apply st_bind_ok in H as ([] & h1 & Hg3 & H). apply reject_ok in Hg3 as [_ ->].
  apply st_bind_ok in H as (s & h1 & Hats & H). apply lift_ok in Hats as [Hats ->].
  apply st_bind_ok in H as ([seen want] & h1 & Heffs & H). apply lift_ok in Heffs as [Heffs ->].
  apply st_bind_ok in H as ([] & h1 & Hg4 & H). apply reject_ok in Hg4 as [Hg4 ->]. rewrite negb_false, Z.eqb_eq in Hg4.
  apply st_bind_ok in H as ([] & h1 & Hg5 & H). apply reject_ok in Hg5 as [Hg5 ->]. rewrite negb_false, Z.eqb_eq in Hg5.
  apply st_bind_ok in H as ([] & h1 & Hg6 & H). apply reject_ok in Hg6 as [Hg6 ->]. rewrite negb_false in Hg6.
  apply st_bind_ok in H as (a & h1 & Hauth & H). unfold mret, ST_ret in H. injection H as <- <- <-.
  apply newLeaseReplacementAuthority_ok in Hauth as (Hexp & Hrep & Hfwd & _).
  destruct (supersede_records cur cand effs s seen want) as (Hkeeps & Hrecords & Honly); try done.
  split_and!; try done; [| |by exists a].
  - split; try done.
    + destruct (pl_supersedes cand) as [d|]; [|done]. rewrite negb_false, equalDigest_true in Hsup.
      by destruct Hsup as (_ & _ & ->).
    + apply scan_attempts_ok in Hats as [Hf _]. eapply Forall_impl; [exact Hf|]. naive_solver.
    + apply scan_effects_ok in Heffs as (Hf & _). eapply Forall_impl; [exact Hf|]. naive_solver.
    + by eapply supersede_attempted.
  - intros Hk. by eapply compensation_schedule_ok.
Qed.

(** ** Values for the witnesses *)

Definition s_applied_attempt : Attempt := s_at AttemptStateApplied (s_now + second) (s_now + 2 * second).
Definition s_applied_effect : EffectProjection :=
  EP true s_effect (pl_digest s_plan) s_attempt AttemptPurposeForward None None AttemptStateApplied (s_now + 2 * second).
Definition s_comp_proof : CompensationProof := CP true s_applied_effect s_effect2 1 "adapter.v1" (s_digest 61).

Example s_comp_plan_ok : ValidateCompensationPlan s_plan_comp [s_comp_proof] = Ok tt.
Proof. vm_compute. reflexivity. Qed.

Definition selection {A B C} (r : A * B * C) : B := r.1.2.

(** ** Properties *)

(** C30: a plan is superseded only over settled truth, and nothing applied is
    lost.  When [SelectPlan] supersedes, the observation is fresh, the candidate
    is the next revision naming the current plan, every prior attempt is
    resolved, every attempted effect has a definitive current projection, and
    the candidate records as completed exactly the effects the current plan
    completed plus the ones applied since; a compensation candidate has a valid
    schedule; the authority it returns replaces exactly the current binding. *)
Theorem supersession_safe (cur cand : Plan) (ats : list Attempt) (effs : list EffectProjection) (fresh : bool)
  (ps : list CompensationProof) (h h' : heap) (sel : Plan) (authority : option LeaseReplacementAuthority)
  (H : SelectPlan cur cand ats effs fresh ps h = (Ok (sel, PlanSelectionSupersede, authority), h')) :
  sel = cand /\ fresh = true /\ supersedes_safely cur cand ats effs /\
  (pl_kind cand = PlanKindCompensation -> ValidateCompensationPlan cand ps = Ok tt) /\
  exists a, authority = Some a /\ LeaseBindingFromPlan cur = Ok (ra_expected a) /\
    LeaseBindingFromPlan cand = Ok (ra_replacement a).
Proof.
  apply SelectPlan_supersedes in H as (-> & -> & _ & _ & Hs & Hk & a & -> & He & Hr & _).
  split_and!; try done. by exists a.
Qed.

Lemma supersession_safe_witness :
  supersedes_safely s_plan s_plan_rev2 [s_applied_attempt] [s_applied_effect].
Proof.
  destruct (SelectPlan s_plan s_plan_rev2 [s_applied_attempt] [s_applied_effect] true [] empty_heap)
    as [[[[sel kind] authority]|e] h'] eqn:E; [|vm_compute in E; discriminate].
  assert (kind = PlanSelectionSupersede) as Hk.
  { assert (selection <$> (SelectPlan s_plan s_plan_rev2 [s_applied_attempt] [s_applied_effect] true [] empty_heap).1
            = Ok PlanSelectionSupersede) as Hc by (vm_compute; reflexivity).
    rewrite E in Hc. injection Hc as Hc. exact Hc. }
  subst kind. destruct (supersession_safe _ _ _ _ _ _ _ _ _ _ E) as (_ & _ & Hs & _). exact Hs.
Defined.

(** A valid compensation plan undoes every applied effect exactly once.  The
    originals of its proofs are a permutation of the effects the plan
    compensates, all applied; the inverses are distinct effects of the plan and
    none of them is an original; and dependency orders strictly decrease, so
    dependents are undone before what they depend on. *)
Theorem compensation_plan_ordered (plan : Plan) (proofs : list CompensationProof)
  (H : ValidateCompensationPlan plan proofs = Ok tt) : compensation_ordered plan proofs.
Proof. by apply ValidateCompensationPlan_sound. Qed.

Lemma compensation_plan_ordered_witness : compensation_ordered s_plan_comp [s_comp_proof].
Proof. apply compensation_plan_ordered. vm_compute. reflexivity. Defined.

(** Compensation advances one step at a time and never stalls.
    [NextCompensationStep] returns a step exactly when the plan is valid, the
    completed effects match the schedule from its start and are fewer than the
    proofs; the step is the schedule's entry at the next position, and its
    dependency order is below that of every completed step. *)
Theorem compensation_step_exact (plan : Plan) (proofs : list CompensationProof) (completed : list EffectProjection)
  (step : CompensationStep) :
  NextCompensationStep plan proofs completed = Ok step <->
  ValidateCompensationPlan plan proofs = Ok tt /\ schedule_followed plan proofs completed /\
  exists p, proofs !! List.length completed = Some p /\
    step = CS true (pl_digest plan) (original_of p) (cp_inverse p) (cp_dependencyOrder p) (llen completed + 1)
             (llen proofs) (cp_evidence p) (deriveCompensationSchedule plan proofs) /\
    forall q, q ∈ take (List.length completed) proofs -> cp_dependencyOrder p < cp_dependencyOrder q.
Proof.
  unfold NextCompensationStep. cbv zeta. split.
  - intros H. apply bind_ok in H as ([] & Hg & H). apply fail_if_ok in Hg.
    rewrite orb_false_iff, negb_false, result_ok_true in Hg. destruct Hg as [[[] Hv] _].
    apply bind_ok in H as (p & Hp & H). apply of_option_ok, next_proof_ok in Hp as [Hp Hall]. injection H as <-.
    split_and!; try done. exists p. split_and!; try done. intros q Hq.
    apply list_elem_of_lookup in Hq as (i & Hi). apply lookup_take_Some in Hi as [Hi Hlt].
    exact (StronglySorted_lookup later_dependency _ _ _ _ _ (cm_order _ _ (ValidateCompensationPlan_sound _ _ Hv)) Hlt Hi Hp).
  - intros (Hv & Hall & p & Hp & -> & _). rewrite Hv. simpl.
    pose proof (lookup_lt_Some _ _ _ Hp) as Hlt. rewrite (proj2 (Z.leb_gt _ _)) by lia. simpl.
    by rewrite (proj2 (next_proof_ok _ _ _ _ _ _ _) (conj Hp Hall)).
Qed.

Example compensation_first_step :
  result_ok (NextCompensationStep s_plan_comp [s_comp_proof] []) = true.
Proof. vm_compute. reflexivity. Qed.
