(* ===== verification/Delivery.v ===== *)
(** * Duplicate-delivery ledger (reconciliation/model.go)

    At-least-once deliveries of one work item are classified by the fence of
    the token that carries them; completion is accepted only from the exact
    recorded owner and fence. *)

From S2P Require Import Prelude Bytes Sha256 GoTime Atomics Closed Vocabulary Digests Plan PlanProps Lease LeaseSpec Attempt LeaseProps.
From Stdlib Require Import String.

Record deliveryRecord := DR {
  dr_binding : LeaseBinding;
  dr_ownerID : ID;
  dr_fence : Z;
  dr_completed : bool;
}.

Record DeliveryLedger := DL {
  dl_initialized : bool;
  dl_maximum : Z;
  dl_records : gmap string deliveryRecord;
}.

Definition DeliveryM := ST DeliveryLedger error.

Definition NewDeliveryLedger (maximum : Z) : result error DeliveryLedger :=
  if maximum <? 1 then Err ErrInvalidDelivery else Ok (DL true maximum ∅).

Definition write_delivery (key : string) (r : deliveryRecord) : DeliveryM unit :=
  l ← get_state; set_state (DL (dl_initialized l) (dl_maximum l) (<[key := r]> (dl_records l))).

Definition DeliveryLedger_Begin (work : WorkKey) (deliveryID : ID) (token : LeaseToken)
    : DeliveryM DeliveryDisposition :=
  ledger ← get_state;
  reject (negb (dl_initialized ledger) || negb (validWorkKey work) || negb (validID deliveryID)
          || negb (validateLeaseToken token)
          || negb (equalDigest (wk_planDigest work) (lb_planDigest (tk_binding token)))) ErrInvalidDelivery;;
  let key := WorkKey_String work in
  match dl_records ledger !! key with
  | Some current =>
      if dr_completed current then mret DeliveryDuplicateCompleted else
      reject (negb (LeaseBinding_Equal (dr_binding current) (tk_binding token))) ErrInvalidDelivery;;
      if dr_fence current <? tk_fence token
      then write_delivery key (DR (dr_binding current) (tk_ownerID token) (tk_fence token) (dr_completed current));;
           mret DeliveryAccepted
      else mret DeliveryDuplicateActive
  | None =>
      reject (dl_maximum ledger <=? Z.of_nat (size (dl_records ledger))) ErrCapacity;;
      write_delivery key (DR (tk_binding token) (tk_ownerID token) (tk_fence token) false);;
      mret DeliveryAccepted
  end.

Definition DeliveryLedger_Complete (work : WorkKey) (token : LeaseToken) : DeliveryM unit :=
  ledger ← get_state;
  reject (negb (dl_initialized ledger) || negb (validWorkKey work) || negb (validateLeaseToken token)
          || negb (equalDigest (wk_planDigest work) (lb_planDigest (tk_binding token)))) ErrInvalidDelivery;;
  let key := WorkKey_String work in
  match dl_records ledger !! key with
  | None => throw ErrInvalidDelivery
  | Some current =>
      reject (negb (LeaseBinding_Equal (dr_binding current) (tk_binding token))
              || negb (String.eqb (dr_ownerID current) (tk_ownerID token))
              || negb (dr_fence current =? tk_fence token)) ErrReservationLost;;
      write_delivery key (DR (dr_binding current) (dr_ownerID current) (dr_fence current) true)
  end.

(** * Properties of the duplicate-delivery ledger *)

(** ** Histories *)

Inductive delivery_call :=
| CallBegin (work : WorkKey) (deliveryID : ID) (token : LeaseToken)
| CallDeliveryComplete (work : WorkKey) (token : LeaseToken).

Definition delivery_step (l : DeliveryLedger) (c : delivery_call) : DeliveryLedger :=
  match c with
  | CallBegin work id tok => (DeliveryLedger_Begin work id tok l).2
  | CallDeliveryComplete work tok => (DeliveryLedger_Complete work tok l).2
  end.

Definition delivery_history (l : DeliveryLedger) (cs : list delivery_call) : DeliveryLedger :=
  foldl delivery_step l cs.

(** ** Contract: what a call does to the ledger *)

Definition put_delivery (key : string) (r : deliveryRecord) (l : DeliveryLedger) : DeliveryLedger :=
  DL (dl_initialized l) (dl_maximum l) (<[key := r]> (dl_records l)).

(** [Begin] accepts a first delivery within capacity, or a strictly higher
    fence of an unfinished one. *)
Inductive begins (l : DeliveryLedger) (key : string) (tok : LeaseToken) :
    DeliveryDisposition -> DeliveryLedger -> Prop :=
| bg_first : dl_records l !! key = None -> Z.of_nat (size (dl_records l)) < dl_maximum l ->
    begins l key tok DeliveryAccepted
      (put_delivery key (DR (tk_binding tok) (tk_ownerID tok) (tk_fence tok) false) l)
| bg_takeover r : dl_records l !! key = Some r -> dr_completed r = false -> dr_binding r = tk_binding tok ->
    dr_fence r < tk_fence tok ->
    begins l key tok DeliveryAccepted
      (put_delivery key (DR (dr_binding r) (tk_ownerID tok) (tk_fence tok) false) l)
| bg_active r : dl_records l !! key = Some r -> dr_completed r = false -> dr_binding r = tk_binding tok ->
    tk_fence tok <= dr_fence r -> begins l key tok DeliveryDuplicateActive l
| bg_completed r : dl_records l !! key = Some r -> dr_completed r = true ->
    begins l key tok DeliveryDuplicateCompleted l.

Lemma Begin_cases work id tok l r l' :
  DeliveryLedger_Begin work id tok l = (r, l') ->
  (exists e, r = Err e /\ l' = l) \/ (exists d, r = Ok d /\ begins l (WorkKey_String work) tok d l').
Proof.
  unfold DeliveryLedger_Begin. unfold_run.
  destruct (_ || _ || _ || _ || _); [intros [= <- <-]; eauto|].
  destruct (dl_records l !! WorkKey_String work) as [cur|] eqn:Hl.
  - destruct (dr_completed cur) eqn:Hc; [intros [= <- <-]; right; eexists; split; [done|]; by eapply bg_completed|].
    destruct (negb (LeaseBinding_Equal _ _)) eqn:Hb; [intros [= <- <-]; eauto|].
    autorewrite with guards in Hb. destruct Hb as [_ Hb].
    destruct (Z.ltb_spec (dr_fence cur) (tk_fence tok)); intros [= <- <-]; right; eexists; (split; [done|]).
    + by eapply bg_takeover.
    + by eapply bg_active.
  - destruct (Z.leb_spec (dl_maximum l) (Z.of_nat (size (dl_records l)))); [intros [= <- <-]; eauto|].
    intros [= <- <-]. right. eexists. split; [done|]. by apply bg_first.
Qed.

Lemma Complete_delivery_cases work tok l r l' :
  DeliveryLedger_Complete work tok l = (r, l') ->
  (exists e, r = Err e /\ l' = l) \/
  (r = Ok tt /\ exists cur, dl_records l !! WorkKey_String work = Some cur /\
     dr_binding cur = tk_binding tok /\ dr_ownerID cur = tk_ownerID tok /\ dr_fence cur = tk_fence tok /\
     l' = put_delivery (WorkKey_String work) (DR (dr_binding cur) (dr_ownerID cur) (dr_fence cur) true) l).
Proof.
  unfold DeliveryLedger_Complete. unfold_run.
  destruct (_ || _ || _ || _); [intros [= <- <-]; eauto|].
  destruct (dl_records l !! WorkKey_String work) as [cur|] eqn:Hl; [|intros [= <- <-]; eauto].
  destruct (_ || _ || _) eqn:G; [intros [= <- <-]; eauto|].
  autorewrite with guards in G. destruct_and!. intros [= <- <-]. right. split; [done|]. exists cur. done.
Qed.

(** ** How a record may change *)

Definition delivery_advances (r r' : deliveryRecord) : Prop :=
  dr_binding r' = dr_binding r /\ dr_fence r <= dr_fence r' /\
  (dr_completed r = true -> dr_completed r' = true /\ dr_fence r' = dr_fence r /\ dr_ownerID r' = dr_ownerID r) /\
  (dr_fence r' = dr_fence r -> dr_ownerID r' = dr_ownerID r).

#[export] Instance delivery_advances_preorder : PreOrder delivery_advances.
Proof.
  split; unfold delivery_advances.
  - intros r. split_and!; try done; lia.
  - intros a b c (Hab & ? & Hcab & Hoab) (Hbc & ? & Hcbc & Hobc). split_and!; try lia; [congruence| |].
    + intros Hc. destruct (Hcab Hc) as (Hb & ? & ?). destruct (Hcbc Hb) as (? & ? & ?). split_and!; congruence.
    + intros Hf. rewrite Hobc by lia. apply Hoab. lia.
Qed.

Lemma delivery_step_advances l c key r :
  dl_records l !! key = Some r ->
  exists r', dl_records (delivery_step l c) !! key = Some r' /\ delivery_advances r r'.
Proof.
  intros Hl. assert (delivery_advances r r) as Hrefl by reflexivity. destruct c as [work id tok|work tok]; simpl.
  - destruct (DeliveryLedger_Begin work id tok l) as [x l'] eqn:Hrun.
    apply Begin_cases in Hrun as [(e & _ & ->)|(d & _ & Hb)]; [eauto|].
    destruct Hb as [Hn _|cur Hc Hnc Hb Hf| |]; simpl; [| |eauto|eauto].
    + rewrite lookup_insert_ne by congruence. eauto.
    + destruct (decide (WorkKey_String work = key)) as [<-|Hne]; [|rewrite lookup_insert_ne by done; eauto].
      rewrite lookup_insert_eq. assert (cur = r) as -> by congruence. eexists. split; [done|].
      unfold delivery_advances. simpl. split_and!; try done; try lia. congruence.
  - destruct (DeliveryLedger_Complete work tok l) as [x l'] eqn:Hrun.
    apply Complete_delivery_cases in Hrun as [(e & _ & ->)|(_ & cur & Hc & _ & _ & _ & ->)]; [eauto|]. simpl.
    destruct (decide (WorkKey_String work = key)) as [<-|Hne]; [|rewrite lookup_insert_ne by done; eauto].
    rewrite lookup_insert_eq. assert (cur = r) as -> by congruence. eexists. split; [done|].
    unfold delivery_advances. simpl. split_and!; done.
Qed.

Lemma delivery_history_advances cs : forall l key r,
  dl_records l !! key = Some r ->
  exists r', dl_records (delivery_history l cs) !! key = Some r' /\ delivery_advances r r'.
Proof.
  induction cs as [|c cs IH]; simpl; intros l key r Hl; [by exists r|].
  destruct (delivery_step_advances l c key r Hl) as (r1 & Hl1 & H1).
  destruct (IH _ key r1 Hl1) as (r2 & Hl2 & H2). exists r2. split; [done|]. by etrans.
Qed.

Lemma delivery_step_size l c :
  Z.of_nat (size (dl_records l)) <= dl_maximum l ->
  Z.of_nat (size (dl_records (delivery_step l c))) <= dl_maximum (delivery_step l c).
Proof.
  intros Hsz. destruct c as [work id tok|work tok]; simpl.
  - destruct (DeliveryLedger_Begin work id tok l) as [x l'] eqn:Hrun.
    apply Begin_cases in Hrun as [(e & _ & ->)|(d & _ & Hb)]; [done|].
    destruct Hb as [Hn Hlt|cur Hc _ _ _| |]; simpl; [| |done|done].
    + rewrite map_size_insert_None by done. lia.
    + rewrite map_size_insert_Some by eauto. done.
  - destruct (DeliveryLedger_Complete work tok l) as [x l'] eqn:Hrun.
    apply Complete_delivery_cases in Hrun as [(e & _ & ->)|(_ & cur & Hc & _ & _ & _ & ->)]; [done|]. simpl.
    rewrite map_size_insert_Some by eauto. done.
Qed.

Lemma delivery_history_size cs : forall l,
  Z.of_nat (size (dl_records l)) <= dl_maximum l ->
  Z.of_nat (size (dl_records (delivery_history l cs))) <= dl_maximum (delivery_history l cs).
Proof. induction cs as [|c cs IH]; simpl; intros l H; [done|]. apply IH. by apply delivery_step_size. Qed.

(** ** Values for the witnesses *)

Definition s_ledger : DeliveryLedger := DL true 4 ∅.
Definition s_token_of (fence : Z) (owner : ID) : LeaseToken :=
  LT true (Some 1%positive) s_binding owner fence s_now (s_now + StoreLeaseDuration).

(** ** Properties *)

(** A delivery is worked on at most once per fence.  After [Begin] accepted
    a delivery of some work with a token, and any other calls on the ledger,
    [Begin] accepts that work again only with a strictly higher fence. *)
Theorem delivery_accepted_once (l : DeliveryLedger) (work : WorkKey) (id id' : ID) (tok tok' : LeaseToken)
  (cs : list delivery_call) (l1 l2 : DeliveryLedger)
  (Hfirst : DeliveryLedger_Begin work id tok l = (Ok DeliveryAccepted, l1))
  (Hagain : DeliveryLedger_Begin work id' tok' (delivery_history l1 cs) = (Ok DeliveryAccepted, l2)) :
  tk_fence tok < tk_fence tok'.
Proof.
  assert (exists r, dl_records l1 !! WorkKey_String work = Some r /\ dr_fence r = tk_fence tok) as (r & Hl & Hf).
  { apply Begin_cases in Hfirst as [(e & ? & _)|(d & [= <-] & Hb)]; [done|].
    inversion Hb; subst; simpl; rewrite lookup_insert_eq; eauto. }
  destruct (delivery_history_advances cs l1 _ r Hl) as (r' & Hl' & _ & Hle & _).
  apply Begin_cases in Hagain as [(e & ? & _)|(d & [= <-] & Hb)]; [done|].
  inversion Hb as [Hn|r0 Hr0 _ _ Hlt| |]; subst; [congruence|].
  assert (r0 = r') as -> by congruence. lia.
Qed.

Lemma delivery_accepted_once_witness : tk_fence (s_token_of 1 s_owner) < tk_fence (s_token_of 2 s_owner2).
Proof.
  eapply (delivery_accepted_once s_ledger s_work s_attempt s_attempt (s_token_of 1 s_owner) (s_token_of 2 s_owner2) []);
    vm_compute; reflexivity.
Defined.

(** Completion is final and only the recorded owner's.  [Complete] succeeds
    only for the exact binding, owner and fence the ledger recorded; from then
    on, whatever calls follow, the record stays completed by that owner and
    every delivery of the work that the ledger accepts as well formed is a
    completed duplicate. *)
Theorem delivery_completion_final (l : DeliveryLedger) (work : WorkKey) (tok : LeaseToken) (l1 : DeliveryLedger)
  (cs : list delivery_call) (Hdone : DeliveryLedger_Complete work tok l = (Ok tt, l1)) :
  (exists r, dl_records l !! WorkKey_String work = Some r /\ dr_binding r = tk_binding tok /\
     dr_ownerID r = tk_ownerID tok /\ dr_fence r = tk_fence tok) /\
  (exists r, dl_records (delivery_history l1 cs) !! WorkKey_String work = Some r /\ dr_completed r = true /\
     dr_ownerID r = tk_ownerID tok /\ dr_fence r = tk_fence tok) /\
  (forall id tok' d l2, DeliveryLedger_Begin work id tok' (delivery_history l1 cs) = (Ok d, l2) ->
     d = DeliveryDuplicateCompleted /\ l2 = delivery_history l1 cs).
Proof.
  apply Complete_delivery_cases in Hdone as [(e & ? & _)|(_ & cur & Hc & Hb & Ho & Hf & ->)]; [done|].
  set (l1 := put_delivery _ _ _). assert (dl_records l1 !! WorkKey_String work =
    Some (DR (dr_binding cur) (dr_ownerID cur) (dr_fence cur) true)) as Hl1 by apply lookup_insert_eq.
  destruct (delivery_history_advances cs l1 _ _ Hl1) as (r & Hl & _ & _ & Hfin & _).
  destruct (Hfin eq_refl) as (Hcr & Hfr & Hor). simpl in *. split_and!.
  - by exists cur.
  - exists r. split_and!; congruence.
  - intros id tok' d l2 H. apply Begin_cases in H as [(e & ? & _)|(d' & [= <-] & Hbg)]; [done|].
    inversion Hbg; subst; try congruence. done.
Qed.

Lemma delivery_completion_final_witness :
  exists r, dl_records (delivery_history
      (put_delivery (WorkKey_String s_work) (DR s_binding s_owner 1 true) s_ledger)
      [CallBegin s_work s_attempt (s_token_of 2 s_owner2)]) !! WorkKey_String s_work = Some r /\
    dr_completed r = true /\ dr_ownerID r = s_owner /\ dr_fence r = 1.
Proof.
  apply (delivery_completion_final (put_delivery (WorkKey_String s_work) (DR s_binding s_owner 1 false) s_ledger)
    s_work (s_token_of 1 s_owner) (put_delivery (WorkKey_String s_work) (DR s_binding s_owner 1 true) s_ledger)
    [CallBegin s_work s_attempt (s_token_of 2 s_owner2)]).
  vm_compute. reflexivity.
Defined.
