(* ===== verification/Idempotency.v ===== *)
(** * Idempotent reservations (reconciliation/idempotency.go)

    A ledger of scoped idempotency keys with a fixed 24-hour window.  A call of
    [Reserve] registers itself (with the database time it sampled), then runs
    its critical section, then unregisters; the three parts are separate
    atomic steps, so histories interleave the parts of concurrent calls
    arbitrarily.  A call object, which the code identifies by its pointer, is
    identified by its sequence number, which [beginIdempotencyCall] never
    hands out twice. *)

From S2P Require Import Prelude Bytes Sha256 GoTime Closed Vocabulary Digests Plan.
From Stdlib Require Import Ascii String.

(** ** Data *)

Record IdempotencyScope := IS { is_initialized : bool; is_digest : digestValue }.

Definition IdempotencyScope_Equal (value other : IdempotencyScope) : bool :=
  is_initialized value && is_initialized other && equalDigest (is_digest value) (is_digest other).

Record Reservation := Res {
  rv_initialized : bool;
  rv_scope : IdempotencyScope;
  rv_keyDigest : digestValue;
  rv_fingerprint : RequestFingerprint;
  rv_epoch : Z;
  rv_committedAt : time;
  rv_expiresAt : time;
  rv_completed : bool;
  rv_result : ResultDigest;
}.

(** A registered call: its sequence number and the time it observed. *)
Record idempotencyCall := Call { ic_sequence : Z; ic_observedAt : time }.

(** [active] maps a key to its registered calls by sequence number. *)
Record IdempotencyLedger := IL {
  il_initialized : bool;
  il_maximum : Z;
  il_activeLimit : Z;
  il_nextCall : Z;
  il_lastCall : Z;
  il_highWater : time;
  il_keyState : gmap string Z;
  il_records : gmap string Reservation;
  il_active : gmap string (gmap Z idempotencyCall);
  il_activeCount : Z;
}.

Definition LedgerM := ST IdempotencyLedger error.

(** [math.MaxInt] on a 64-bit platform is [max_int64]. *)
Definition NewIdempotencyLedger (maximum : Z) : result error IdempotencyLedger :=
  if maximum <? 1 then Err ErrInvalidIdempotency
  else Ok (IL true maximum (if maximum <? max_int64 then maximum + 1 else maximum) 0 0 zero_time ∅ ∅ ∅ 0).

(** ** Validation *)

(** [^[A-Za-z0-9][A-Za-z0-9._~:+/-]{15,127}$], anchored to the whole string. *)
Definition key_char (c : ascii) : bool := is_alnum c || one_of "._~:+/-" c.

Definition validIdempotencyKey (value : string) : bool :=
  (MinIdempotencyKeyBytes <=? slen value) && (slen value <=? MaxIdempotencyKeyBytes) &&
  string_forall (fun c => negb (line_break c)) value && matches_pattern is_alnum key_char 15 127 value.

Definition validMutationMethod (value : string) : bool :=
  String.eqb value "POST" || String.eqb value "PUT" || String.eqb value "PATCH" || String.eqb value "DELETE".

Definition validateReservation (value : Reservation) : bool :=
  negb (negb (rv_initialized value) || negb (is_initialized (rv_scope value)) || negb (dv_initialized (rv_keyDigest value))
        || negb (dv_initialized (rv_fingerprint value)) || (rv_epoch value =? 0) || is_zero (rv_committedAt value)
        || is_zero (rv_expiresAt value)
        || negb (time_sub (rv_expiresAt value) (rv_committedAt value) =? HTTPIdempotencyWindow)
        || negb (Bool.eqb (rv_completed value) (dv_initialized (rv_result value)))).

Definition newReservation (scope : IdempotencyScope) (keyDigest : digestValue) (fingerprint : RequestFingerprint)
    (epoch : Z) (now : time) : result error Reservation :=
  expiresAt ← of_option (addNormalizedDuration now HTTPIdempotencyWindow) ErrInvalidTime;
  Ok (Res true scope keyDigest fingerprint epoch now expiresAt false digest_zero).

Definition reservation_key (scope : IdempotencyScope) (keyDigest : digestValue) : string :=
  formatDigest "" (is_digest scope) +:+ ":" +:+ formatDigest "" keyDigest.

(** ** Registration of calls *)

Definition nextIdempotencyCall : LedgerM Z :=
  l ← get_state;
  reject (il_nextCall l =? max_uint64) ErrCapacity;;
  set_state (IL (il_initialized l) (il_maximum l) (il_activeLimit l) (il_nextCall l + 1) (il_lastCall l)
               (il_highWater l) (il_keyState l) (il_records l) (il_active l) (il_activeCount l));;
  mret (il_nextCall l + 1).

Definition with_active (l : IdempotencyLedger) (active : gmap string (gmap Z idempotencyCall)) (count : Z)
    : IdempotencyLedger :=
  IL (il_initialized l) (il_maximum l) (il_activeLimit l) (il_nextCall l) (il_lastCall l) (il_highWater l)
     (il_keyState l) (il_records l) active count.

Definition active_of (l : IdempotencyLedger) (mapKey : string) : gmap Z idempotencyCall :=
  default ∅ (il_active l !! mapKey).

Definition beginIdempotencyCall (mapKey : string) (now : time) : LedgerM idempotencyCall :=
  l ← get_state;
  reject (il_activeLimit l <=? il_activeCount l) ErrCapacity;;
  sequence ← nextIdempotencyCall;
  let call := Call sequence now in
  l ← get_state;
  set_state (with_active l (<[mapKey := <[sequence := call]> (active_of l mapKey)]> (il_active l))
               (il_activeCount l + 1));;
  mret call.

Definition finishIdempotencyCall (mapKey : string) (call : idempotencyCall) : LedgerM unit :=
  l ← get_state;
  let registered := active_of l mapKey in
  let exists_ := is_some (registered !! ic_sequence call) in
  let registered' := delete (ic_sequence call) registered in
  set_state (with_active l
    (if Z.of_nat (size registered') =? 0 then delete mapKey (il_active l) else <[mapKey := registered']> (il_active l))
    (if exists_ then il_activeCount l - 1 else il_activeCount l)).

Definition hasEarlierLiveCall (l : IdempotencyLedger) (mapKey : string) (current : idempotencyCall) (expiresAt : time)
    : bool :=
  existsb (fun '(sequence, call) => negb (sequence =? ic_sequence current) && before (ic_observedAt call) expiresAt)
    (map_to_list (active_of l mapKey)).

(** ** The critical section *)

Definition with_time (l : IdempotencyLedger) (lastCall : Z) (highWater : time) : IdempotencyLedger :=
  IL (il_initialized l) (il_maximum l) (il_activeLimit l) (il_nextCall l) lastCall highWater
     (il_keyState l) (il_records l) (il_active l) (il_activeCount l).

Definition raise_water (l : IdempotencyLedger) (call : idempotencyCall) : time :=
  if after (ic_observedAt call) (il_highWater l) then ic_observedAt call else il_highWater l.

(** A call that no later one overtook may not observe an earlier time; an
    overtaken call is let through. *)
Definition observeIdempotencyTimeLocked (call : idempotencyCall) : LedgerM unit :=
  l ← get_state;
  if ic_sequence call <=? il_lastCall l then set_state (with_time l (il_lastCall l) (raise_water l call))
  else
    set_state (with_time l (ic_sequence call) (il_highWater l));;
    reject (negb (is_zero (il_highWater l)) && before (ic_observedAt call) (il_highWater l))
      (ErrWrap ErrInvalidIdempotency ErrClockRegressed);;
    set_state (with_time l (ic_sequence call) (raise_water l call)).

Definition with_records (l : IdempotencyLedger) (keyState : gmap string Z) (records : gmap string Reservation)
    : IdempotencyLedger :=
  IL (il_initialized l) (il_maximum l) (il_activeLimit l) (il_nextCall l) (il_lastCall l) (il_highWater l)
     keyState records (il_active l) (il_activeCount l).

Definition reclaimable (l : IdempotencyLedger) (now : time) (current : idempotencyCall) (key : string)
    (reservation : Reservation) : bool :=
  rv_completed reservation && negb (before now (rv_expiresAt reservation)) &&
  negb (hasEarlierLiveCall l key current (rv_expiresAt reservation)).

(** The keys the loop deletes; deleting one does not affect the others. *)
Definition reclaimed_keys (l : IdempotencyLedger) (now : time) (current : idempotencyCall) : gset string :=
  dom (filter (fun '(k, r) => reclaimable l now current k r = true) (il_records l)).

Definition reclaimExpiredCompletedLocked (now : time) (current : idempotencyCall) : LedgerM unit :=
  l ← get_state;
  let gone := reclaimed_keys l now current in
  set_state (with_records l (filter (fun '(k, _) => k ∉ gone) (il_keyState l))
                            (filter (fun '(k, _) => k ∉ gone) (il_records l))).

Definition put_record (mapKey : string) (r : Reservation) : LedgerM unit :=
  l ← get_state;
  set_state (with_records l (<[mapKey := rv_epoch r]> (il_keyState l)) (<[mapKey := r]> (il_records l))).

Definition records_len (l : IdempotencyLedger) : Z := Z.of_nat (size (il_records l)).

(** The error path of the code also returns the outstanding reservation; the
    result keeps only the error. *)
Definition reserveRegistered (call : idempotencyCall) (scope : IdempotencyScope) (keyDigest : digestValue)
    (mapKey : string) (fingerprint : RequestFingerprint) : LedgerM (Reservation * IdempotencyDisposition) :=
  observeIdempotencyTimeLocked call;;
  let now := ic_observedAt call in
  l ← get_state;
  match il_records l !! mapKey with
  | Some current =>
      if negb (rv_completed current) then
        reject (negb (equalDigest (rv_fingerprint current) fingerprint)) ErrIdempotencyConflict;;
        throw ErrReservationOutstanding
      else if before now (rv_expiresAt current) then
        reject (negb (equalDigest (rv_fingerprint current) fingerprint)) ErrIdempotencyConflict;;
        mret (current, IdempotencyReplay)
      else
        let epoch := default 0 (il_keyState l !! mapKey) in
        reject (hasEarlierLiveCall l mapKey call (rv_expiresAt current)) ErrReservationOutstanding;;
        reject (epoch =? max_uint64) ErrCapacity;;
        created ← lift (map_err (ErrWrap ErrInvalidIdempotency) (newReservation scope keyDigest fingerprint (epoch + 1) now));
        put_record mapKey created;;
        mret (created, IdempotencyReserved)
  | None =>
      (if il_maximum l <=? records_len l then
         reclaimExpiredCompletedLocked now call;;
         l' ← get_state;
         reject (il_maximum l' <=? records_len l') ErrCapacity
       else mret tt);;
      epoch ← match il_keyState l !! mapKey with
              | Some epoch => reject (epoch =? max_uint64) ErrCapacity;; mret (epoch + 1)
              | None => mret 1
              end;
      created ← lift (map_err (ErrWrap ErrInvalidIdempotency) (newReservation scope keyDigest fingerprint epoch now));
      put_record mapKey created;;
      mret (created, IdempotencyReserved)
  end.

(** ** The exported calls *)

(** The part of [Reserve] before the critical section: its arguments checked
    and the call registered. *)
Record registeredCall := RC {
  rc_call : idempotencyCall;
  rc_scope : IdempotencyScope;
  rc_keyDigest : digestValue;
  rc_mapKey : string;
  rc_fingerprint : RequestFingerprint;
}.

Definition Reserve_begin (databaseTime : time) (scope : IdempotencyScope) (key : string)
    (fingerprint : RequestFingerprint) : LedgerM registeredCall :=
  l ← get_state;
  reject (negb (il_initialized l) || negb (is_initialized scope) || negb (dv_initialized (is_digest scope))
          || negb (validIdempotencyKey key) || negb (dv_initialized fingerprint)) ErrInvalidIdempotency;;
  now ← lift (of_option (normalizeTime databaseTime) (ErrWrap ErrInvalidIdempotency ErrInvalidTime));
  let keyDigest := deriveDigest "veer.reconciliation.idempotency-key.v1" [key] in
  let mapKey := reservation_key scope keyDigest in
  call ← beginIdempotencyCall mapKey now;
  mret (RC call scope keyDigest mapKey fingerprint).

Definition Reserve_run (r : registeredCall) : LedgerM (Reservation * IdempotencyDisposition) :=
  reserveRegistered (rc_call r) (rc_scope r) (rc_keyDigest r) (rc_mapKey r) (rc_fingerprint r).

(** The deferred unregistration runs whatever the critical section returned. *)
Definition Reserve_finally (r : registeredCall) : LedgerM (Reservation * IdempotencyDisposition) := fun l =>
  let '(outcome, l') := Reserve_run r l in
  (outcome, (finishIdempotencyCall (rc_mapKey r) (rc_call r) l').2).

(** [Reserve] without interleaving. *)
Definition IdempotencyLedger_Reserve (databaseTime : time) (scope : IdempotencyScope) (key : string)
    (fingerprint : RequestFingerprint) : LedgerM (Reservation * IdempotencyDisposition) :=
  r ← Reserve_begin databaseTime scope key fingerprint;
  Reserve_finally r.

Definition IdempotencyLedger_Complete (reservation : Reservation) (result : ResultDigest) : LedgerM Reservation :=
  l ← get_state;
  reject (negb (il_initialized l) || negb (validateReservation reservation) || negb (dv_initialized result))
    ErrInvalidIdempotency;;
  let mapKey := reservation_key (rv_scope reservation) (rv_keyDigest reservation) in
  match il_records l !! mapKey with
  | None => throw ErrReservationLost
  | Some current =>
      reject (negb (rv_epoch current =? rv_epoch reservation)
              || negb (equalDigest (rv_fingerprint current) (rv_fingerprint reservation))
              || negb (IdempotencyScope_Equal (rv_scope current) (rv_scope reservation))
              || negb (time_equal (rv_committedAt current) (rv_committedAt reservation))
              || negb (time_equal (rv_expiresAt current) (rv_expiresAt reservation))) ErrReservationLost;;
      if rv_completed current then
        if equalDigest (rv_result current) result then mret current else throw ErrReservationLost
      else
        let current' := Res (rv_initialized current) (rv_scope current) (rv_keyDigest current) (rv_fingerprint current)
                          (rv_epoch current) (rv_committedAt current) (rv_expiresAt current) true result in
        set_state (with_records l (il_keyState l) (<[mapKey := current']> (il_records l)));;
        mret current'
  end.

Definition IdempotencyLedger_Len (l : IdempotencyLedger) : Z := records_len l.
