(* ===== verification/IdempotencyProps.v ===== *)
(** * Properties of the idempotency ledger

    Histories interleave the three parts of concurrent [Reserve] calls with
    completions.  The base invariant holds on every history.  That two
    executions of one key never share a window holds when every call samples a
    time not below the ledger's high-water mark as it registers, and the file
    ends with a history that shows the assumption is needed. *)

From S2P Require Import Prelude Bytes Sha256 GoTime Closed Vocabulary Digests Plan PlanProps LeaseSpec Idempotency.
From Stdlib Require Import String.

#[global] Arguments finishIdempotencyCall : simpl never.
#[global] Arguments IdempotencyLedger_Complete : simpl never.
#[global] Arguments Reserve_begin : simpl never.
#[global] Arguments Reserve_run : simpl never.

(** ** Histories *)

Inductive idem_event :=
| EvBegin (databaseTime : time) (scope : IdempotencyScope) (key : string) (fingerprint : RequestFingerprint)
| EvRun (pending : nat)
| EvFinish (pending : nat)
| EvComplete (reservation : Reservation) (result : ResultDigest).

(** The ledger, the calls that are registered, and all reservations granted so
    far with their keys, newest first. *)
Record idem_world := IW {
  iw_ledger : IdempotencyLedger;
  iw_pending : list registeredCall;
  iw_granted : list (string * Reservation);
}.

Definition idem_step (w : idem_world) (e : idem_event) : idem_world :=
  match e with
  | EvBegin dt scope key fp =>
      match Reserve_begin dt scope key fp (iw_ledger w) with
      | (Ok r, l) => IW l (iw_pending w ++ [r]) (iw_granted w)
      | (Err _, l) => IW l (iw_pending w) (iw_granted w)
      end
  | EvRun i =>
      match iw_pending w !! i with
      | None => w
      | Some r =>
          match Reserve_run r (iw_ledger w) with
          | (Ok (v, IdempotencyReserved), l) => IW l (iw_pending w) ((rc_mapKey r, v) :: iw_granted w)
          | (_, l) => IW l (iw_pending w) (iw_granted w)
          end
      end
  | EvFinish i =>
      match iw_pending w !! i with
      | None => w
      | Some r => IW (finishIdempotencyCall (rc_mapKey r) (rc_call r) (iw_ledger w)).2
                     (delete i (iw_pending w)) (iw_granted w)
      end
  | EvComplete v d => IW (IdempotencyLedger_Complete v d (iw_ledger w)).2 (iw_pending w) (iw_granted w)
  end.

Definition idem_history (w : idem_world) (es : list idem_event) : idem_world := foldl idem_step w es.

Definition idem_fresh (w : idem_world) : Prop :=
  (exists maximum, NewIdempotencyLedger maximum = Ok (iw_ledger w)) /\ iw_pending w = [] /\ iw_granted w = [].

(** ** The parts of a call as updates *)

Lemma begin_ok mapKey now l call l' :
  beginIdempotencyCall mapKey now l = (Ok call, l') ->
  il_activeCount l < il_activeLimit l /\ call = Call (il_nextCall l + 1) now /\ il_nextCall l <> max_uint64 /\
  l' = IL (il_initialized l) (il_maximum l) (il_activeLimit l) (il_nextCall l + 1) (il_lastCall l) (il_highWater l)
         (il_keyState l) (il_records l)
         (<[mapKey := <[il_nextCall l + 1 := call]> (active_of l mapKey)]> (il_active l)) (il_activeCount l + 1).
Proof.
  unfold beginIdempotencyCall, nextIdempotencyCall. unfold_run. unfold set_state. intros H.
  destruct (Z.leb_spec (il_activeLimit l) (il_activeCount l)); [done|].
  destruct (Z.eqb_spec (il_nextCall l) max_uint64); [done|]. injection H as <- <-. done.
Qed.

Lemma begin_err mapKey now l e l' : beginIdempotencyCall mapKey now l = (Err e, l') -> l' = l.
Proof.
  unfold beginIdempotencyCall, nextIdempotencyCall. unfold_run. unfold set_state.
  destruct (_ <=? _); [naive_solver|]. destruct (_ =? _); naive_solver.
Qed.

(** A registered call is well formed. *)
Definition registered_ok (r : registeredCall) : Prop :=
  is_initialized (rc_scope r) = true /\ dv_initialized (rc_keyDigest r) = true /\
  dv_initialized (rc_fingerprint r) = true /\ rc_mapKey r = reservation_key (rc_scope r) (rc_keyDigest r) /\
  normal (ic_observedAt (rc_call r)).

Lemma Reserve_begin_ok dt scope key fp l r l' :
  Reserve_begin dt scope key fp l = (Ok r, l') ->
  normalizeTime dt = Some (ic_observedAt (rc_call r)) /\ registered_ok r /\
  beginIdempotencyCall (rc_mapKey r) (ic_observedAt (rc_call r)) l = (Ok (rc_call r), l').
Proof.
  unfold Reserve_begin. intros H. apply st_bind_ok in H as (l0 & l1 & Hs & H). injection Hs as <- <-.
  apply st_bind_ok in H as ([] & l1 & Hg & H). apply reject_ok in Hg as [Hg ->].
  apply st_bind_ok in H as (now & l1 & Hn & H). apply lift_ok in Hn as [Hn ->]. apply of_option_ok in Hn.
  apply st_bind_ok in H as (call & l1 & Hb & H). unfold mret, ST_ret in H. injection H as <- <-. simpl.
  pose proof (begin_ok _ _ _ _ _ Hb) as (_ & -> & _). simpl in *.
  rewrite !orb_false_iff, !negb_false in Hg. destruct_and!. split; [done|]. split; [|done].
  unfold registered_ok. simpl. split_and!; try done. by eapply normalizeTime_normal.
Qed.

Lemma Reserve_begin_err dt scope key fp l e l' : Reserve_begin dt scope key fp l = (Err e, l') -> l' = l.
Proof.
  unfold Reserve_begin. intros H. apply st_bind_err in H as [H|(l0 & l1 & Hs & H)]; [done|]. injection Hs as <- <-.
  apply st_bind_err in H as [H|([] & l1 & Hg & H)]; [by injection H|]. apply reject_ok in Hg as [_ ->].
  apply st_bind_err in H as [H|(now & l1 & Hn & H)]; [by injection H|]. apply lift_ok in Hn as [_ ->].
  apply st_bind_err in H as [H|(call & l1 & Hb & H)]; [by eapply begin_err|done].
Qed.

(** ** Base invariant *)

Definition calls_len (calls : gmap Z idempotencyCall) : Z := Z.of_nat (size calls).

Record ledger_ok (l : IdempotencyLedger) : Prop := {
  lo_state : forall k, il_keyState l !! k = rv_epoch <$> il_records l !! k;
  lo_records : forall k r, il_records l !! k = Some r ->
    k = reservation_key (rv_scope r) (rv_keyDigest r) /\ rv_initialized r = true /\
    is_initialized (rv_scope r) = true /\ dv_initialized (rv_keyDigest r) = true /\
    dv_initialized (rv_fingerprint r) = true /\ 1 <= rv_epoch r <= max_uint64 /\
    rv_expiresAt r = rv_committedAt r + HTTPIdempotencyWindow /\
    rv_completed r = dv_initialized (rv_result r);
  lo_size : records_len l <= il_maximum l;
  lo_calls : forall k s c, active_of l k !! s = Some c -> ic_sequence c = s /\ s <= il_nextCall l;
  lo_unique : forall k k' s c c', active_of l k !! s = Some c -> active_of l k' !! s = Some c' -> k = k';
  lo_count : il_activeCount l = map_sum calls_len (il_active l) /\ il_activeCount l <= il_activeLimit l;
}.

Lemma window_ms : HTTPIdempotencyWindow mod millisecond = 0.
Proof. vm_compute. done. Qed.

Lemma newReservation_ok scope kd fp epoch now r :
  normal now -> newReservation scope kd fp epoch now = Ok r ->
  r = Res true scope kd fp epoch now (now + HTTPIdempotencyWindow) false digest_zero.
Proof.
  intros Hn H. unfold newReservation in H. apply bind_ok in H as (e & He & H). apply of_option_ok in He.
  apply addNormalizedDuration_exact in He as [-> _]; [|done|apply window_ms]. congruence.
Qed.

(** Time observation only touches the time fields. *)
Lemma observe_time_ok call l u l' :
  observeIdempotencyTimeLocked call l = (Ok u, l') ->
  exists lc hw, l' = with_time l lc hw /\ il_highWater l <= hw /\ ic_observedAt call <= hw.
Proof.
  unfold observeIdempotencyTimeLocked, raise_water. unfold_run. unfold set_state.
  assert (forall b, b = after (ic_observedAt call) (il_highWater l) ->
    il_highWater l <= (if b then ic_observedAt call else il_highWater l) /\
    ic_observedAt call <= (if b then ic_observedAt call else il_highWater l)) as Hw.
  { intros b ->. destruct (after _ _) eqn:E; autorewrite with guards in E; lia. }
  specialize (Hw _ eq_refl).
  destruct (_ <=? _).
  - intros [= _ <-]. eexists _, _. split; [done|]. exact Hw.
  - destruct (_ && _); [done|]. intros [= _ <-]. eexists _, _. split; [done|]. exact Hw.
Qed.

Lemma observe_time_err call l e l' :
  observeIdempotencyTimeLocked call l = (Err e, l') -> exists lc, l' = with_time l lc (il_highWater l).
Proof.
  unfold observeIdempotencyTimeLocked. unfold_run. unfold set_state.
  destruct (_ <=? _); [done|]. destruct (_ && _); intros [= <- <-]. by eexists.
Qed.

(** ** What the critical section may do *)

Lemma no_earlier_call l k call e :
  hasEarlierLiveCall l k call e = false <->
  forall s c, active_of l k !! s = Some c -> s <> ic_sequence call -> e <= ic_observedAt c.
Proof.
  unfold hasEarlierLiveCall. rewrite <- not_true_iff_false, existsb_exists. split.
  - intros Hno s c Hc Hs. destruct (Z.le_gt_cases e (ic_observedAt c)) as [|Hlt]; [done|]. exfalso. apply Hno.
    exists (s, c). split; [by apply list_elem_of_In, elem_of_map_to_list|].
    apply andb_true_iff. rewrite negb_true, Z.eqb_neq, before_true. done.
  - intros Hall ([s c] & Hin & Hb). apply list_elem_of_In, elem_of_map_to_list in Hin.
    rewrite andb_true_iff, negb_true, Z.eqb_neq, before_true in Hb. destruct Hb as [Hs Hlt].
    specialize (Hall s c Hin Hs). lia.
Qed.

(** Reclamation deletes some reclaimable rows with their epochs. *)
Record sweep (call : idempotencyCall) (l l' : IdempotencyLedger) : Prop := {
  sw_frame : l' = with_records l (il_keyState l') (il_records l');
  sw_row : forall k,
    (il_records l' !! k = il_records l !! k /\ il_keyState l' !! k = il_keyState l !! k) \/
    (il_records l' !! k = None /\ il_keyState l' !! k = None /\
     exists r, il_records l !! k = Some r /\ reclaimable l (ic_observedAt call) call k r = true);
}.

Lemma sweep_refl call l : sweep call l l.
Proof. split; [by destruct l|]. intros k. by left. Qed.

Lemma reclaim_sweeps call l :
  sweep call l (reclaimExpiredCompletedLocked (ic_observedAt call) call l).2.
Proof.
  unfold reclaimExpiredCompletedLocked. unfold_run. unfold set_state. simpl.
  split; simpl; [done|]. intros k. rewrite !map_lookup_filter. simpl.
  destruct (decide (k ∈ reclaimed_keys l (ic_observedAt call) call)) as [Hin|Hout].
  - right. unfold reclaimed_keys in Hin. apply elem_of_dom in Hin as [r Hr].
    apply map_lookup_filter_Some in Hr as [Hl Hr].
    assert (forall A (o : option A), (o ≫= fun v => guard (k ∉ reclaimed_keys l (ic_observedAt call) call);; Some v) = None) as Hno.
    { intros A [x|]; [|done]. simpl. case_guard; [|done]. exfalso.
      match goal with Hn : k ∉ _ |- _ => apply Hn end.
      unfold reclaimed_keys. apply elem_of_dom. exists r. by apply map_lookup_filter_Some. }
    split_and!; [apply Hno|apply Hno|]. by exists r.
  - left. assert (forall A (o : option A), (o ≫= fun v => guard (k ∉ reclaimed_keys l (ic_observedAt call) call);; Some v) = o) as Hid.
    { intros A [x|]; [|done]. simpl. by case_guard. }
    split; apply Hid.
Qed.

Definition put (k : string) (r : Reservation) (l : IdempotencyLedger) : IdempotencyLedger :=
  with_records l (<[k := rv_epoch r]> (il_keyState l)) (<[k := r]> (il_records l)).

Definition granted_reservation (r : registeredCall) (epoch : Z) : Reservation :=
  Res true (rc_scope r) (rc_keyDigest r) (rc_fingerprint r) epoch (ic_observedAt (rc_call r))
      (ic_observedAt (rc_call r) + HTTPIdempotencyWindow) false digest_zero.

(** The outcomes of the critical section from the ledger after its time
    observation. *)
Inductive run_outcome (r : registeredCall) (l : IdempotencyLedger) :
    result error (Reservation * IdempotencyDisposition) -> IdempotencyLedger -> Prop :=
| ro_rejected e l' : sweep (rc_call r) l l' -> run_outcome r l (Err e) l'
| ro_replay cur : il_records l !! rc_mapKey r = Some cur -> rv_completed cur = true ->
    ic_observedAt (rc_call r) < rv_expiresAt cur ->
    equalDigest (rv_fingerprint cur) (rc_fingerprint r) = true ->
    run_outcome r l (Ok (cur, IdempotencyReplay)) l
| ro_replaced cur : il_records l !! rc_mapKey r = Some cur -> rv_completed cur = true ->
    rv_expiresAt cur <= ic_observedAt (rc_call r) -> rv_epoch cur < max_uint64 ->
    run_outcome r l (Ok (granted_reservation r (rv_epoch cur + 1), IdempotencyReserved))
      (put (rc_mapKey r) (granted_reservation r (rv_epoch cur + 1)) l)
| ro_created l' : il_records l !! rc_mapKey r = None -> sweep (rc_call r) l l' ->
    records_len l' < il_maximum l ->
    run_outcome r l (Ok (granted_reservation r 1, IdempotencyReserved)) (put (rc_mapKey r) (granted_reservation r 1) l').

Lemma granted_ok r epoch v :
  registered_ok r ->
  map_err (ErrWrap ErrInvalidIdempotency)
    (newReservation (rc_scope r) (rc_keyDigest r) (rc_fingerprint r) epoch (ic_observedAt (rc_call r))) = Ok v ->
  v = granted_reservation r epoch.
Proof. intros (_ & _ & _ & _ & Hn) H. apply map_err_ok in H. by apply newReservation_ok in H. Qed.

Lemma sweep_none call l l' k : sweep call l l' -> il_records l !! k = None ->
  il_keyState l !! k = None -> il_records l' !! k = None /\ il_keyState l' !! k = None.
Proof. intros [_ Hrow] Hr Hk. destruct (Hrow k) as [[-> ->]|(-> & -> & _)]; done. Qed.

Lemma Reserve_run_cases r l res l' :
  ledger_ok l -> registered_ok r -> Reserve_run r l = (res, l') ->
  exists lc hw, il_highWater l <= hw /\
    ((exists e, res = Err e /\ l' = with_time l lc hw) \/
     (ic_observedAt (rc_call r) <= hw /\ run_outcome r (with_time l lc hw) res l')).
Proof.
  intros Hl Hr H. unfold Reserve_run, reserveRegistered in H. cbv zeta in H.
  destruct (observeIdempotencyTimeLocked (rc_call r) l) as [[[]|e] l1] eqn:Hobs.
  2:{ unfold mbind, ST_bind in H. rewrite Hobs in H. injection H as <- <-.
      apply observe_time_err in Hobs as (lc & ->). exists lc, (il_highWater l). split; [lia|left; eauto]. }
  apply observe_time_ok in Hobs as Hcopy. destruct Hcopy as (lc & hw & -> & Hhw & Hnow).
  exists lc, hw. split; [done|]. right. split; [done|].
  unfold mbind at 1, ST_bind at 1 in H. rewrite Hobs in H. clear Hobs.
  set (l1 := with_time l lc hw) in *.
  assert (forall k, il_keyState l1 !! k = rv_epoch <$> il_records l1 !! k) as Hstate by apply (lo_state l Hl).
  unfold mbind at 1, ST_bind at 1, get_state at 1 in H.
  destruct (il_records l1 !! rc_mapKey r) as [cur|] eqn:Hcur.
  - destruct (rv_completed cur) eqn:Hc; cbn [negb] in H.
    2:{ unfold_run. destruct (negb _); injection H as <- <-; apply ro_rejected, sweep_refl. }
    destruct (before _ (rv_expiresAt cur)) eqn:Hb.
    + unfold_run. destruct (negb _) eqn:Hfp; injection H as <- <-; [apply ro_rejected, sweep_refl|].
      apply before_true in Hb. apply negb_false in Hfp. by apply ro_replay.
    + apply before_false in Hb. unfold_run. rewrite Hstate, Hcur in H. simpl in H.
      destruct (hasEarlierLiveCall _ _ _ _) eqn:Hlive; [injection H as <- <-; apply ro_rejected, sweep_refl|].
      destruct (Z.eqb_spec (rv_epoch cur) max_uint64) as [|Hmax]; [injection H as <- <-; apply ro_rejected, sweep_refl|].
      destruct (map_err _ _) as [v|e] eqn:Hv; [|injection H as <- <-; apply ro_rejected, sweep_refl].
      apply granted_ok in Hv as ->; [|done]. injection H as <- <-. apply ro_replaced; try done.
      destruct (lo_records l Hl _ _ Hcur) as (_ & _ & _ & _ & _ & Hep & _). lia.
  - assert (il_keyState l1 !! rc_mapKey r = None) as Hkn by (by rewrite Hstate, Hcur).
    assert (exists l2, sweep (rc_call r) l1 l2 /\
      ((exists e, (res, l') = (Err e, l2)) \/
       (records_len l2 < il_maximum l1 /\
        exists x, map_err (ErrWrap ErrInvalidIdempotency) (newReservation (rc_scope r) (rc_keyDigest r) (rc_fingerprint r) 1 (ic_observedAt (rc_call r))) = x /\
          (res, l') = match x with Ok v => (Ok (v, IdempotencyReserved), put (rc_mapKey r) v l2) | Err e => (Err e, l2) end)))
      as (l2 & Hsw & Hrest).
    { rewrite Hkn in H. unfold_run. destruct (Z.leb_spec (il_maximum l1) (records_len l1)) as [Hfull|Hroom].
      - pose proof (reclaim_sweeps (rc_call r) l1) as Hsw.
        unfold reclaimExpiredCompletedLocked in Hsw, H. unfold_run. unfold set_state in Hsw, H. simpl in Hsw.
        eexists. split; [exact Hsw|]. simpl in H.
        match type of H with context [if ?b then _ else _] => destruct b eqn:Hb end; [left; eexists; by rewrite <- H|].
        apply Z.leb_gt in Hb. right. split; [exact Hb|]. eexists. split; [done|]. rewrite <- H.
        by destruct (map_err _ _).
      - exists l1. split; [apply sweep_refl|]. right. split; [done|]. eexists. split; [done|]. rewrite <- H.
        by destruct (map_err _ _). }
    destruct Hrest as [(e & Heq)|(Hroom & x & Hx & Heq)].
    + injection Heq as -> ->. by apply ro_rejected.
    + destruct x as [v|e]; injection Heq as -> ->; [|by apply ro_rejected].
      apply granted_ok in Hx as ->; [|done]. by apply ro_created.
Qed.

(** ** Preservation of the base invariant *)

Lemma with_time_ok l lc hw : ledger_ok l -> ledger_ok (with_time l lc hw).
Proof. intros [? ? ? ? ? ?]. by split. Qed.

Lemma sweep_size call l l' : sweep call l l' -> records_len l' <= records_len l.
Proof.
  intros [_ Hrow]. unfold records_len. apply Nat2Z.inj_le. rewrite <- !size_dom. apply subseteq_size.
  intros k Hk. apply elem_of_dom in Hk as [r Hr]. apply elem_of_dom.
  destruct (Hrow k) as [[Heq _]|(Hn & _)]; [rewrite <- Heq; eauto|congruence].
Qed.

Lemma sweep_ok call l l' : ledger_ok l -> sweep call l l' -> ledger_ok l'.
Proof.
  intros [Hs Hr Hz Hc Hu Hn] Hsw. pose proof (sweep_size _ _ _ Hsw) as Hsize. destruct Hsw as [Hf Hrow].
  split.
  - intros k. destruct (Hrow k) as [[-> ->]|(-> & -> & _)]; [apply Hs|done].
  - intros k r Hk. destruct (Hrow k) as [[Heq _]|(Hno & _)]; [|congruence]. apply Hr. congruence.
  - rewrite Hf. simpl. unfold records_len in *. simpl in *. lia.
  - rewrite Hf. exact Hc.
  - rewrite Hf. exact Hu.
  - rewrite Hf. exact Hn.
Qed.

Lemma put_ok k v l :
  ledger_ok l -> k = reservation_key (rv_scope v) (rv_keyDigest v) -> rv_initialized v = true ->
  is_initialized (rv_scope v) = true -> dv_initialized (rv_keyDigest v) = true ->
  dv_initialized (rv_fingerprint v) = true -> 1 <= rv_epoch v <= max_uint64 ->
  rv_expiresAt v = rv_committedAt v + HTTPIdempotencyWindow -> rv_completed v = dv_initialized (rv_result v) ->
  is_Some (il_records l !! k) \/ records_len l < il_maximum l -> ledger_ok (put k v l).
Proof.
  intros [Hs Hr Hz Hc Hu Hn] ? ? ? ? ? ? ? ? Hroom. split; try done; simpl.
  - intros k'. destruct (decide (k = k')) as [<-|Hne]; [by rewrite !lookup_insert_eq|].
    rewrite !lookup_insert_ne by done. apply Hs.
  - intros k' r. destruct (decide (k = k')) as [<-|Hne].
    + rewrite lookup_insert_eq. intros [= <-]. destruct_and!. by split_and!.
    + rewrite lookup_insert_ne by done. apply Hr.
  - unfold records_len in *. simpl. destruct (il_records l !! k) as [x|] eqn:Hk.
    + rewrite map_size_insert_Some by eauto. done.
    + rewrite map_size_insert_None by done. destruct Hroom as [[? ?]|?]; [done|lia].
Qed.

Lemma granted_put_ok r epoch l :
  registered_ok r -> ledger_ok l -> 1 <= epoch <= max_uint64 ->
  is_Some (il_records l !! rc_mapKey r) \/ records_len l < il_maximum l ->
  ledger_ok (put (rc_mapKey r) (granted_reservation r epoch) l).
Proof. intros (? & ? & ? & ? & _) Hl He Hroom. by apply put_ok. Qed.

Lemma run_outcome_ok r l res l' : registered_ok r -> ledger_ok l -> run_outcome r l res l' -> ledger_ok l'.
Proof.
  intros Hr Hl [e l2 Hsw|cur|cur Hcur Hc He Hmax|l2 Hno Hsw Hroom]; [by eapply sweep_ok|done| |].
  - apply granted_put_ok; [done|done| |left; by exists cur]. destruct (lo_records l Hl _ _ Hcur) as (_ & _ & _ & _ & _ & ? & _). lia.
  - pose proof (sweep_ok _ _ _ Hl Hsw). apply granted_put_ok; [done|done|unfold max_uint64; lia|].
    right. destruct Hsw as [Hf _]. rewrite Hf in *. exact Hroom.
Qed.

Lemma active_of_insert l k calls k' n :
  active_of (with_active l (<[k := calls]> (il_active l)) n) k' = if decide (k = k') then calls else active_of l k'.
Proof.
  unfold active_of. simpl. destruct (decide (k = k')) as [->|Hne]; [by rewrite lookup_insert_eq|].
  by rewrite lookup_insert_ne.
Qed.

Lemma calls_sum_insert l k calls :
  map_sum calls_len (<[k := calls]> (il_active l)) = map_sum calls_len (il_active l) - calls_len (active_of l k) + calls_len calls.
Proof.
  unfold active_of. destruct (il_active l !! k) as [c|] eqn:Hk; simpl.
  - by rewrite (map_sum_update _ _ _ _ _ Hk).
  - rewrite map_sum_insert by done. unfold calls_len at 4. rewrite map_size_empty. lia.
Qed.

Lemma calls_sum_delete l k :
  map_sum calls_len (delete k (il_active l)) = map_sum calls_len (il_active l) - calls_len (active_of l k).
Proof.
  unfold active_of. destruct (il_active l !! k) as [c|] eqn:Hk; simpl.
  - rewrite (map_sum_lookup _ _ _ _ Hk). lia.
  - rewrite delete_id by done. unfold calls_len at 3. rewrite map_size_empty. lia.
Qed.

Lemma fresh_call l k : ledger_ok l -> active_of l k !! (il_nextCall l + 1) = None.
Proof.
  intros Hl. apply eq_None_not_Some. intros [c Hc]. apply (lo_calls l Hl) in Hc as [_ Hle]. lia.
Qed.

Lemma begin_ledger_ok mapKey now l call l' :
  ledger_ok l -> beginIdempotencyCall mapKey now l = (Ok call, l') ->
  ledger_ok l' /\ (forall k, active_of l' k =
    if decide (mapKey = k) then <[ic_sequence call := call]> (active_of l mapKey) else active_of l k) /\
  ic_sequence call = il_nextCall l + 1 /\ ic_observedAt call = now.
Proof.
  intros Hl H. apply begin_ok in H as (Hcount & -> & _ & ->).
  assert (forall k, active_of (IL (il_initialized l) (il_maximum l) (il_activeLimit l) (il_nextCall l + 1) (il_lastCall l)
      (il_highWater l) (il_keyState l) (il_records l)
      (<[mapKey := <[il_nextCall l + 1 := Call (il_nextCall l + 1) now]> (active_of l mapKey)]> (il_active l))
      (il_activeCount l + 1)) k =
    if decide (mapKey = k) then <[il_nextCall l + 1 := Call (il_nextCall l + 1) now]> (active_of l mapKey)
    else active_of l k) as Hact by (intros k; exact (active_of_insert l _ _ k 0)).
  split; [|done]. pose proof (fresh_call l) as Hfresh. destruct Hl as [Hs Hr Hz Hc Hu [Hn Hlim]] eqn:Hleq.
  assert (forall k s c, (if decide (mapKey = k) then <[il_nextCall l + 1 := Call (il_nextCall l + 1) now]> (active_of l mapKey)
    else active_of l k) !! s = Some c ->
    (s = il_nextCall l + 1 /\ k = mapKey /\ ic_sequence c = s) \/ (s <> il_nextCall l + 1 /\ active_of l k !! s = Some c)) as Hcase.
  { intros k s c. destruct (decide (mapKey = k)) as [<-|Hne].
    - intros [[<- <-]|[? ?]]%lookup_insert_Some; [by left|by right].
    - intros H. right. split; [|done]. intros ->. by rewrite Hfresh in H. }
  split; simpl; try done.
  - intros k s c H. rewrite Hact in H. apply Hcase in H as [(-> & _ & ?)|[_ H]]; [split; [done|lia]|].
    apply Hc in H as [? ?]. split; [done|lia].
  - intros k k' s c c' H H'. rewrite Hact in H, H'. apply Hcase in H as [(E1 & K1 & _)|[E1 H]];
      apply Hcase in H' as [(E2 & K2 & _)|[E2 H']]; try congruence. by eapply Hu.
  - split; [|lia]. rewrite calls_sum_insert, Hn. unfold calls_len.
    rewrite map_size_insert_None by (by apply Hfresh). lia.
Qed.

Lemma finish_ledger_ok mapKey call l l' u :
  ledger_ok l -> finishIdempotencyCall mapKey call l = (u, l') ->
  ledger_ok l' /\ (forall k, active_of l' k =
    if decide (mapKey = k) then delete (ic_sequence call) (active_of l mapKey) else active_of l k) /\
  il_records l' = il_records l /\ il_highWater l' = il_highWater l /\ il_nextCall l' = il_nextCall l.
Proof.
  intros Hl H. unfold finishIdempotencyCall in H. unfold_run. unfold set_state in H. simpl in H. injection H as _ <-.
  set (rest := delete (ic_sequence call) (active_of l mapKey)).
  set (active' := if Z.of_nat (size rest) =? 0 then delete mapKey (il_active l) else <[mapKey := rest]> (il_active l)).
  set (n := if is_some _ then _ else _).
  assert (forall k, active_of (with_active l active' n) k = if decide (mapKey = k) then rest else active_of l k) as Hact.
  { intros k. unfold active'. destruct (Z.eqb_spec (Z.of_nat (size rest)) 0) as [Hz|Hz]; [|apply active_of_insert].
    unfold active_of at 1. simpl. destruct (decide (mapKey = k)) as [<-|Hne].
    - rewrite lookup_delete_eq. simpl. symmetry. apply map_size_empty_inv. lia.
    - by rewrite lookup_delete_ne. }
  assert (forall k s c, active_of (with_active l active' n) k !! s = Some c -> active_of l k !! s = Some c) as Hsub.
  { intros k s c. rewrite Hact. destruct (decide (mapKey = k)) as [<-|]; [|done]. by intros [_ ?]%lookup_delete_Some. }
  split_and!; try done. destruct Hl as [Hs Hr Hz Hc Hu [Hn Hlim]]. split; simpl; try done.
  - intros k s c H. by apply Hsub, Hc in H.
  - intros k k' s c c' H H'. apply Hsub in H, H'. by eapply Hu.
  - assert (calls_len rest = calls_len (active_of l mapKey) - (if is_some (active_of l mapKey !! ic_sequence call) then 1 else 0)) as Hrest.
    { unfold calls_len, rest. destruct (active_of l mapKey !! ic_sequence call) as [c|] eqn:E; simpl.
      - rewrite <- (insert_delete_id (active_of l mapKey) _ _ E) at 2.
        rewrite map_size_insert_None by apply lookup_delete_eq. lia.
      - rewrite delete_id by done. lia. }
    assert (map_sum calls_len active' = map_sum calls_len (il_active l) - calls_len (active_of l mapKey) + calls_len rest) as Hsum.
    { unfold active'. destruct (Z.eqb_spec (Z.of_nat (size rest)) 0) as [Hz0|Hz0]; [|apply calls_sum_insert].
      assert (calls_len rest = 0) by exact Hz0. rewrite calls_sum_delete. lia. }
    unfold n. rewrite Hsum, Hrest, Hn. destruct (is_some _); lia.
Qed.

(** [Complete] either changes nothing or completes the exact record. *)
Definition completed_with (r : Reservation) (d : ResultDigest) : Reservation :=
  Res (rv_initialized r) (rv_scope r) (rv_keyDigest r) (rv_fingerprint r) (rv_epoch r) (rv_committedAt r)
      (rv_expiresAt r) true d.

Lemma Complete_reservation_cases v d l res l' :
  IdempotencyLedger_Complete v d l = (res, l') ->
  l' = l \/
  exists cur, il_records l !! reservation_key (rv_scope v) (rv_keyDigest v) = Some cur /\ rv_completed cur = false /\
    rv_epoch cur = rv_epoch v /\ rv_fingerprint cur = rv_fingerprint v /\ rv_committedAt cur = rv_committedAt v /\
    dv_initialized d = true /\ res = Ok (completed_with cur d) /\
    l' = with_records l (il_keyState l)
           (<[reservation_key (rv_scope v) (rv_keyDigest v) := completed_with cur d]> (il_records l)).
Proof.
  unfold IdempotencyLedger_Complete. unfold_run. unfold set_state. simpl.
  destruct (_ || _ || _) eqn:G; [intros [= <- <-]; by left|]. rewrite !orb_false_iff, !negb_false in G.
  destruct (il_records l !! _) as [cur|]; [|intros [= <- <-]; by left].
  destruct (_ || _ || _ || _ || _) eqn:G2; [intros [= <- <-]; by left|].
  rewrite !orb_false_iff, !negb_false, Z.eqb_eq, equalDigest_true, !time_equal_true in G2.
  destruct (rv_completed cur) eqn:Hc; [destruct (equalDigest _ _); intros [= <- <-]; by left|].
  intros [= <- <-]. right. exists cur. destruct_and!. by split_and!.
Qed.

Lemma Complete_ledger_ok v d l res l' :
  ledger_ok l -> IdempotencyLedger_Complete v d l = (res, l') -> ledger_ok l'.
Proof.
  intros Hl H. apply Complete_reservation_cases in H as [->|(cur & Hk & Hc & _ & _ & _ & Hd & _ & ->)]; [done|].
  set (k := reservation_key _ _) in *.
  assert (with_records l (il_keyState l) (<[k := completed_with cur d]> (il_records l)) = put k (completed_with cur d) l) as ->.
  { unfold put. f_equal. symmetry. apply insert_id. rewrite (lo_state l Hl), Hk. done. }
  destruct (lo_records l Hl _ _ Hk) as (? & ? & ? & ? & ? & ? & ? & ?).
  apply put_ok; try done. left. by exists cur.
Qed.

(** ** Worlds *)

Record idem_inv (w : idem_world) : Prop := {
  ii_ledger : ledger_ok (iw_ledger w);
  ii_pending : forall r, r ∈ iw_pending w ->
    registered_ok r /\ active_of (iw_ledger w) (rc_mapKey r) !! ic_sequence (rc_call r) = Some (rc_call r);
  ii_distinct : NoDup (map (fun r => ic_sequence (rc_call r)) (iw_pending w));
}.

Lemma run_outcome_active r l res l' : run_outcome r l res l' -> il_active l' = il_active l.
Proof. intros [e l2 [-> _]| |cur|l2 _ [Hf _] _]; try done. simpl. by rewrite Hf. Qed.

Lemma Reserve_run_frame r l res l' :
  ledger_ok l -> registered_ok r -> Reserve_run r l = (res, l') -> ledger_ok l' /\ il_active l' = il_active l.
Proof.
  intros Hl Hr H. destruct (Reserve_run_cases _ _ _ _ Hl Hr H) as (lc & hw & _ & [(e & _ & ->)|[_ Ho]]).
  - split; [by apply with_time_ok|done].
  - split; [|by apply run_outcome_active in Ho]. eapply run_outcome_ok; [done| |exact Ho]. by apply with_time_ok.
Qed.

Lemma active_of_same l l' k : il_active l' = il_active l -> active_of l' k = active_of l k.
Proof. unfold active_of. by intros ->. Qed.

Lemma pending_delete_distinct (ps : list registeredCall) i r x :
  NoDup (map (fun r => ic_sequence (rc_call r)) ps) -> ps !! i = Some r -> x ∈ delete i ps ->
  x ∈ ps /\ ic_sequence (rc_call x) <> ic_sequence (rc_call r).
Proof.
  intros Hnd Hi Hx. pose proof (delete_Permutation ps i r Hi) as Hp. split; [rewrite Hp; by right|].
  rewrite Hp in Hnd. simpl in Hnd. apply NoDup_cons in Hnd as [Hno _]. intros Heq. apply Hno.
  apply list_elem_of_fmap. exists x. done.
Qed.

Lemma idem_step_inv w e : idem_inv w -> idem_inv (idem_step w e).
Proof.
  intros [Hl Hp Hd]. destruct e as [dt scope key fp|i|i|v d]; cbn [idem_step].
  - destruct (Reserve_begin dt scope key fp (iw_ledger w)) as [[r|e] l'] eqn:H.
    2:{ apply Reserve_begin_err in H as ->. by split. }
    apply Reserve_begin_ok in H as (_ & Hr & Hb).
    pose proof (begin_ledger_ok _ _ _ _ _ Hl Hb) as (Hl' & Hact & Hseq & _).
    assert (forall x, x ∈ iw_pending w -> ic_sequence (rc_call x) < ic_sequence (rc_call r)) as Hlt.
    { intros x Hx. destruct (Hp x Hx) as [_ Hx']. apply (lo_calls _ Hl) in Hx' as [_ ?]. lia. }
    split; simpl; [done| |].
    + intros x [Hx| ->%list_elem_of_singleton]%elem_of_app; [|split; [done|]].
      * destruct (Hp x Hx) as [? Hx']. split; [done|]. rewrite Hact. specialize (Hlt x Hx).
        destruct (decide _) as [Heq|]; [|done]. rewrite lookup_insert_ne by lia. by rewrite Heq.
      * rewrite Hact, decide_True by done. apply lookup_insert_eq.
    + rewrite map_app. apply NoDup_app. split_and!; [done| |apply NoDup_singleton].
      intros s Hs Hs'. apply list_elem_of_fmap in Hs as (x & -> & Hx). simpl in Hs'. apply list_elem_of_singleton in Hs'.
      specialize (Hlt x Hx). lia.
  - destruct (iw_pending w !! i) as [r|] eqn:Hi; [|by split].
    destruct (Hp r (list_elem_of_lookup_2 _ _ _ Hi)) as [Hr _].
    destruct (Reserve_run r (iw_ledger w)) as [res l'] eqn:H.
    destruct (Reserve_run_frame _ _ _ _ Hl Hr H) as [Hl' Hact].
    assert (forall g, idem_inv (IW l' (iw_pending w) g)) as Hdone.
    { intros g. split; simpl; try done. intros x Hx. rewrite (active_of_same _ _ _ Hact). by apply Hp. }
    repeat case_match; apply Hdone.
  - destruct (iw_pending w !! i) as [r|] eqn:Hi; [|by split].
    destruct (finishIdempotencyCall (rc_mapKey r) (rc_call r) (iw_ledger w)) as [u l'] eqn:H. simpl.
    destruct (finish_ledger_ok _ _ _ _ _ Hl H) as (Hl' & Hact & _).
    split; simpl; [done| |].
    + intros x Hx. destruct (pending_delete_distinct _ _ _ _ Hd Hi Hx) as [Hxin Hne]. destruct (Hp x Hxin) as [? Hx'].
      split; [done|]. rewrite Hact. destruct (decide _) as [Heq|]; [|done].
      rewrite lookup_delete_ne by done. by rewrite Heq.
    + pose proof (delete_Permutation _ _ _ Hi) as Hperm. rewrite Hperm in Hd. by apply NoDup_cons in Hd as [_ Hd].
  - destruct (IdempotencyLedger_Complete v d (iw_ledger w)) as [res l'] eqn:H. simpl.
    pose proof (Complete_ledger_ok _ _ _ _ _ Hl H) as Hl'.
    assert (il_active l' = il_active (iw_ledger w)) as Hact.
    { apply Complete_reservation_cases in H as [->|(? & _ & _ & _ & _ & _ & _ & _ & ->)]; done. }
    split; simpl; try done. intros x Hx. rewrite (active_of_same _ _ _ Hact). by apply Hp.
Qed.

Lemma idem_history_inv es : forall w, idem_inv w -> idem_inv (idem_history w es).
Proof. induction es as [|e es IH]; simpl; auto using idem_step_inv. Qed.

Lemma idem_fresh_inv w : idem_fresh w -> idem_inv w.
Proof.
  intros ((maximum & Hnew) & Hp & _). unfold NewIdempotencyLedger in Hnew.
  destruct (Z.ltb_spec maximum 1); [done|]. injection Hnew as Hl.
  split; rewrite ?Hp; [|set_solver|constructor]. rewrite <- Hl.
  split; simpl; try done; try (intros k; intros; by rewrite !lookup_empty in * ).
  - unfold records_len. simpl. rewrite map_size_empty. lia.
  - rewrite map_sum_empty. destruct (_ <? _); lia.
Qed.

(** ** Windows *)

(** No execution of key [k] can start before instant [e]: the row that guards
    it is still there, or it was reclaimed when the ledger and every registered
    call of the key had reached [e]. *)
Definition guarded_until (l : IdempotencyLedger) (k : string) (e : time) : Prop :=
  (exists cur, il_records l !! k = Some cur /\ e <= rv_expiresAt cur) \/
  (il_records l !! k = None /\ e <= il_highWater l /\
   forall s c, active_of l k !! s = Some c -> e <= ic_observedAt c).

(** Every call samples, as it registers, a time not below the high-water mark. *)
Definition sample_ok (w : idem_world) (ev : idem_event) : Prop :=
  match ev with
  | EvBegin dt _ _ _ => forall now, normalizeTime dt = Some now -> il_highWater (iw_ledger w) <= now
  | _ => True
  end.

Fixpoint well_sampled (w : idem_world) (es : list idem_event) : Prop :=
  match es with
  | [] => True
  | ev :: es => sample_ok w ev /\ well_sampled (idem_step w ev) es
  end.

(** What a critical section of a registered call preserves. *)
Lemma guarded_sweep r l l' k e :
  ledger_ok l -> active_of l (rc_mapKey r) !! ic_sequence (rc_call r) = Some (rc_call r) ->
  ic_observedAt (rc_call r) <= il_highWater l -> sweep (rc_call r) l l' ->
  guarded_until l k e -> guarded_until l' k e.
Proof.
  intros Hl Hreg Hnow [Hf Hrow] Hg. unfold guarded_until.
  assert (active_of l' k = active_of l k) as -> by (rewrite Hf; done).
  assert (il_highWater l' = il_highWater l) as -> by (rewrite Hf; done).
  destruct (Hrow k) as [[-> _]|(Hno & _ & r0 & Hr0 & Hrec)]; [exact Hg|].
  right. destruct Hg as [(cur & Hcur & He)|(Hn & _)]; [|congruence]. assert (r0 = cur) as -> by congruence.
  unfold reclaimable in Hrec. rewrite !andb_true_iff, !negb_true, before_false, no_earlier_call in Hrec.
  destruct Hrec as [[_ Hexp] Hlive]. split_and!; [done|lia|]. intros s c Hc.
  destruct (decide (s = ic_sequence (rc_call r))) as [->|Hne]; [|specialize (Hlive s c Hc Hne); lia].
  assert (k = rc_mapKey r) as -> by (by eapply (lo_unique l Hl)).
  assert (c = rc_call r) as -> by congruence. lia.
Qed.

Lemma window_pos : 0 <= HTTPIdempotencyWindow.
Proof. vm_compute. discriminate. Qed.

Lemma guarded_put l k k' v e :
  (k = k' -> e <= rv_expiresAt v) -> guarded_until l k e -> guarded_until (put k' v l) k e.
Proof.
  intros Hv Hg. unfold guarded_until. simpl. destruct (decide (k' = k)) as [->|Hne].
  - left. exists v. rewrite lookup_insert_eq. auto.
  - rewrite lookup_insert_ne by done. exact Hg.
Qed.

(** An execution granted now starts at or after every guard of its key. *)
Lemma grant_after_guards r l v l' k e :
  ledger_ok l -> active_of l (rc_mapKey r) !! ic_sequence (rc_call r) = Some (rc_call r) ->
  ic_observedAt (rc_call r) <= il_highWater l -> run_outcome r l (Ok (v, IdempotencyReserved)) l' ->
  guarded_until l k e -> guarded_until l' k e /\ (k = rc_mapKey r -> e <= rv_committedAt v).
Proof.
  intros Hl Hreg Hnow Hout Hg. pose proof window_pos as Hw.
  inversion Hout as [| |cur Hcur Hc He Hmax|l2 Hno Hsw Hroom]; subst.
  - assert (k = rc_mapKey r -> e <= ic_observedAt (rc_call r)) as Hle.
    { intros ->. destruct Hg as [(cur' & Hcur' & ?)|(Hn & _)]; [|congruence].
      assert (cur' = cur) as -> by congruence. lia. }
    split; [|exact Hle]. apply guarded_put; [|done]. simpl. intros Hk. specialize (Hle Hk). lia.
  - assert (k = rc_mapKey r -> e <= ic_observedAt (rc_call r)) as Hle.
    { intros ->. destruct Hg as [(cur' & Hcur' & _)|(_ & _ & Hall)]; [congruence|]. by eapply Hall. }
    split; [|exact Hle]. apply guarded_put; [simpl; intros Hk; specialize (Hle Hk); lia|].
    by eapply guarded_sweep.
Qed.

Record window_inv (w : idem_world) : Prop := {
  wi_base : idem_inv w;
  wi_guard : forall k r, (k, r) ∈ iw_granted w -> guarded_until (iw_ledger w) k (rv_expiresAt r);
  wi_order : ForallOrdPairs (fun newer older => newer.1 = older.1 ->
    rv_expiresAt older.2 <= rv_committedAt newer.2) (iw_granted w);
  wi_granted : forall k r, (k, r) ∈ iw_granted w ->
    k = reservation_key (rv_scope r) (rv_keyDigest r) /\ rv_expiresAt r = rv_committedAt r + HTTPIdempotencyWindow;
}.

Lemma guarded_with_time l lc hw k e :
  il_highWater l <= hw -> guarded_until l k e -> guarded_until (with_time l lc hw) k e.
Proof. intros Hle [Hg|(Hn & He & Hall)]; [by left|right]. split_and!; [done|simpl; lia|done]. Qed.

Lemma run_window r w res l' :
  window_inv w -> r ∈ iw_pending w -> Reserve_run r (iw_ledger w) = (res, l') ->
  (forall k x, (k, x) ∈ iw_granted w -> guarded_until l' k (rv_expiresAt x)) /\
  (forall v, res = Ok (v, IdempotencyReserved) ->
     (rc_mapKey r = reservation_key (rv_scope v) (rv_keyDigest v) /\
      rv_expiresAt v = rv_committedAt v + HTTPIdempotencyWindow) /\
     il_records l' !! rc_mapKey r = Some v /\
     forall k x, (k, x) ∈ iw_granted w -> k = rc_mapKey r -> rv_expiresAt x <= rv_committedAt v).
Proof.
  intros [[Hl Hp _] Hg _ _] Hr H. destruct (Hp r Hr) as [Hrok Hreg].
  assert (rc_mapKey r = reservation_key (rc_scope r) (rc_keyDigest r)) as Hkey by apply Hrok.
  destruct (Reserve_run_cases _ _ _ _ Hl Hrok H) as (lc & hw & Hhw & [(e & -> & ->)|[Hnow Hout]]).
  { split; [|done]. intros k x Hx. by apply guarded_with_time, Hg. }
  pose proof (with_time_ok _ lc hw Hl) as Hl1. set (l1 := with_time (iw_ledger w) lc hw) in *.
  assert (forall k x, (k, x) ∈ iw_granted w -> guarded_until l1 k (rv_expiresAt x)) as Hg1.
  { intros k x Hx. by apply guarded_with_time, Hg. }
  assert (active_of l1 (rc_mapKey r) !! ic_sequence (rc_call r) = Some (rc_call r)) as Hreg1 by exact Hreg.
  split.
  - intros k x Hx. destruct Hout as [e' l2 Hsw|cur|cur ? ? ? ?|l2 ? ? ?]; [by eapply guarded_sweep, Hg1|by apply Hg1| |];
      (eapply grant_after_guards; [exact Hl1|exact Hreg1|exact Hnow| |by apply Hg1]); by constructor.
  - intros v ->. inversion Hout; subst; (split; [done|]; split; [apply lookup_insert_eq|]); intros k x Hx Hk;
      refine (proj2 (grant_after_guards r l1 _ _ k _ Hl1 Hreg1 Hnow Hout (Hg1 k x Hx)) Hk).
Qed.

Lemma guarded_same_records l l' k e :
  il_records l' = il_records l -> il_highWater l' = il_highWater l ->
  (forall s c, active_of l' k !! s = Some c -> active_of l k !! s = Some c \/ il_highWater l <= ic_observedAt c) ->
  guarded_until l k e -> guarded_until l' k e.
Proof.
  intros Hr Hh Ha [(cur & Hc & He)|(Hn & He & Hall)]; unfold guarded_until; rewrite Hr, Hh; [left; eauto|right].
  split_and!; [done|done|]. intros s c Hc. destruct (Ha s c Hc) as [?|?]; [by eapply Hall|lia].
Qed.

Lemma guarded_complete v d l res l' k e :
  IdempotencyLedger_Complete v d l = (res, l') -> guarded_until l k e -> guarded_until l' k e.
Proof.
  intros H Hg. apply Complete_reservation_cases in H as [->|(cur & Hk & _ & _ & _ & _ & _ & _ & ->)]; [done|].
  set (k' := reservation_key _ _) in *. unfold guarded_until. simpl.
  destruct (decide (k' = k)) as [<-|Hne]; [|by rewrite lookup_insert_ne].
  destruct Hg as [(cur' & Hcur' & He)|(Hn & _)]; [|congruence]. assert (cur' = cur) as -> by congruence.
  left. exists (completed_with cur d). by rewrite lookup_insert_eq.
Qed.

Lemma idem_step_window w e : window_inv w -> sample_ok w e -> window_inv (idem_step w e).
Proof.
  intros Hw Hs. pose proof (idem_step_inv w e (wi_base w Hw)) as Hbase. pose proof Hw as [[Hl Hp Hd] Hg Ho Hgr].
  destruct e as [dt scope key fp|i|i|v d]; cbn [idem_step] in *.
  - destruct (Reserve_begin dt scope key fp (iw_ledger w)) as [[r|e] l'] eqn:H.
    2:{ apply Reserve_begin_err in H as ->. by split. }
    apply Reserve_begin_ok in H as (Hn & _ & Hb).
    pose proof (begin_ledger_ok _ _ _ _ _ Hl Hb) as (_ & Hact & Hseq & _). apply begin_ok in Hb as (_ & Hcall & _ & Hl').
    split; simpl; try done. intros k x Hx. apply (guarded_same_records (iw_ledger w)); [by rewrite Hl'|by rewrite Hl'| |by apply Hg].
    intros s c Hc. rewrite Hact in Hc. destruct (decide _) as [Heq|]; [|by left].
    apply lookup_insert_Some in Hc as [[_ <-]|[_ Hc]]; [right; by apply Hs|left; by rewrite <- Heq].
  - destruct (iw_pending w !! i) as [r|] eqn:Hi; [|by split].
    destruct (Reserve_run r (iw_ledger w)) as [res l'] eqn:H.
    destruct (run_window r w res l' Hw (list_elem_of_lookup_2 _ _ _ Hi) H) as [Hkeep Hgrant].
    destruct res as [[v []]|e]; try (by split).
    destruct (Hgrant v eq_refl) as (Hexp & Hrec & Hafter). split; simpl; [done| | |].
    + intros k x [[= -> ->]|Hx]%elem_of_cons; [|by apply Hkeep]. left. exists v. split; [done|lia].
    + constructor; [|done]. apply Forall_forall. intros [k x] Hx Heq. simpl in *. subst k. by apply (Hafter (rc_mapKey r) x).
    + intros k x [[= -> ->]|Hx]%elem_of_cons; [done|by apply Hgr].
  - destruct (iw_pending w !! i) as [r|] eqn:Hi; [|by split].
    destruct (finishIdempotencyCall (rc_mapKey r) (rc_call r) (iw_ledger w)) as [u l'] eqn:H. cbn [snd] in *.
    destruct (finish_ledger_ok _ _ _ _ _ Hl H) as (_ & Hact & Hr & Hh & _).
    split; simpl; try done. intros k x Hx. apply (guarded_same_records (iw_ledger w)); [done|done| |by apply Hg].
    intros s c Hc. left. rewrite Hact in Hc. destruct (decide _) as [Heq|]; [|done].
    apply lookup_delete_Some in Hc as [_ Hc]. by rewrite <- Heq.
  - destruct (IdempotencyLedger_Complete v d (iw_ledger w)) as [res l'] eqn:H. cbn [snd] in *.
    split; simpl; try done. intros k x Hx. by eapply guarded_complete, Hg.
Qed.

Lemma idem_history_window es : forall w, window_inv w -> well_sampled w es -> window_inv (idem_history w es).
Proof. induction es as [|e es IH]; simpl; intros w Hw Hs; [done|]. destruct Hs. apply IH; [by apply idem_step_window|done]. Qed.

Lemma idem_fresh_window w : idem_fresh w -> window_inv w.
Proof.
  intros Hf. pose proof (idem_fresh_inv w Hf) as Hb. destruct Hf as (_ & _ & Hg).
  split; [done| | |]; rewrite Hg; [set_solver|constructor|set_solver].
Qed.

Lemma ordered_pairs {A} (R : A -> A -> Prop) l i j x y :
  ForallOrdPairs R l -> (i < j)%nat -> l !! i = Some x -> l !! j = Some y -> R x y.
Proof.
  intros Hs. revert i j. induction Hs as [|a l Hall Hs IH]; intros [|i] [|j] Hij Hi Hj; simpl in *; try lia; try done.
  - simplify_eq. rewrite Forall_forall in Hall. apply Hall. by eapply list_elem_of_lookup_2.
  - apply (IH i j); [lia|done|done].
Qed.

(** ** Records along a step *)

(** A retained reservation is either unchanged, completed in place, or was
    completed and dropped by a call that observed its expiry. *)
Definition record_step (w : idem_world) (r : Reservation) (e : idem_event) (after : option Reservation) : Prop :=
  after = Some r \/
  (rv_completed r = false /\ exists d, after = Some (completed_with r d)) \/
  (rv_completed r = true /\ exists i c, e = EvRun i /\ iw_pending w !! i = Some c /\
     rv_expiresAt r <= ic_observedAt (rc_call c)).

Lemma sweep_record call l l' k r :
  sweep call l l' -> il_records l !! k = Some r ->
  il_records l' !! k = Some r \/ (rv_completed r = true /\ rv_expiresAt r <= ic_observedAt call).
Proof.
  intros [_ Hrow] Hk. destruct (Hrow k) as [[Heq _]|(_ & _ & r0 & Hr0 & Hrec)]; [left; congruence|right].
  assert (r0 = r) as -> by congruence. unfold reclaimable in Hrec.
  rewrite !andb_true_iff, !negb_true, before_false in Hrec. by destruct Hrec as [[? ?] _].
Qed.

Lemma idem_step_record w e k r :
  idem_inv w -> il_records (iw_ledger w) !! k = Some r ->
  record_step w r e (il_records (iw_ledger (idem_step w e)) !! k).
Proof.
  intros [Hl Hp _] Hk. unfold record_step. destruct e as [dt scope key fp|i|i|v d]; cbn [idem_step].
  - left. destruct (Reserve_begin dt scope key fp (iw_ledger w)) as [[c|e] l'] eqn:H; simpl.
    + apply Reserve_begin_ok in H as (_ & _ & Hb). apply begin_ok in Hb as (_ & _ & _ & ->). done.
    + by apply Reserve_begin_err in H as ->.
  - destruct (iw_pending w !! i) as [c|] eqn:Hi; [|by left].
    destruct (Hp c (list_elem_of_lookup_2 _ _ _ Hi)) as [Hc _].
    destruct (Reserve_run c (iw_ledger w)) as [res l'] eqn:H.
    assert (il_records l' !! k = Some r \/ (rv_completed r = true /\ rv_expiresAt r <= ic_observedAt (rc_call c))) as Hcase.
    { destruct (Reserve_run_cases _ _ _ _ Hl Hc H) as (lc & hw & _ & [(e & _ & ->)|[_ Hout]]); [by left|].
      destruct Hout as [e l2 Hsw|cur|cur Hcur Hdone Hexp _|l2 Hno Hsw _]; [by eapply sweep_record|by left| |]; simpl in *.
      - destruct (decide (rc_mapKey c = k)) as [<-|Hne]; [|left; by rewrite lookup_insert_ne].
        right. assert (cur = r) as -> by congruence. done.
      - destruct (decide (rc_mapKey c = k)) as [<-|Hne]; [congruence|].
        rewrite lookup_insert_ne by done. by eapply sweep_record. }
    assert (forall g, il_records (iw_ledger (IW l' (iw_pending w) g)) !! k = Some r \/
      (rv_completed r = false /\ exists d, il_records (iw_ledger (IW l' (iw_pending w) g)) !! k = Some (completed_with r d)) \/
      (rv_completed r = true /\ exists j c', EvRun i = EvRun j /\ iw_pending w !! j = Some c' /\
         rv_expiresAt r <= ic_observedAt (rc_call c'))) as Hdone.
    { intros g. simpl. destruct Hcase as [?|[? ?]]; [by left|]. right; right. split; [done|]. exists i, c. done. }
    repeat case_match; apply Hdone.
  - left. destruct (iw_pending w !! i) as [c|]; [|done].
    destruct (finishIdempotencyCall (rc_mapKey c) (rc_call c) (iw_ledger w)) as [u l'] eqn:H. cbn [snd].
    destruct (finish_ledger_ok _ _ _ _ _ Hl H) as (_ & _ & Hr & _). simpl. by rewrite Hr.
  - destruct (IdempotencyLedger_Complete v d (iw_ledger w)) as [res l'] eqn:H. cbn [snd]. simpl.
    apply Complete_reservation_cases in H as [->|(cur & Hcur & Hnc & _ & _ & _ & _ & _ & ->)]; [by left|]. simpl.
    destruct (decide (reservation_key (rv_scope v) (rv_keyDigest v) = k)) as [<-|Hne]; [|left; by rewrite lookup_insert_ne].
    right; left. assert (cur = r) as -> by congruence. split; [done|]. exists d. by rewrite lookup_insert_eq.
Qed.

(** ** Stale completions *)

Lemma Complete_matches v d l r l' :
  IdempotencyLedger_Complete v d l = (Ok r, l') ->
  exists cur, il_records l !! reservation_key (rv_scope v) (rv_keyDigest v) = Some cur /\
    rv_expiresAt cur = rv_expiresAt v.
Proof.
  unfold IdempotencyLedger_Complete. unfold_run. unfold set_state. simpl.
  destruct (_ || _ || _); [done|]. destruct (il_records l !! _) as [cur|]; [|done].
  destruct (_ || _ || _ || _ || _) eqn:G; [done|]. rewrite !orb_false_iff, !negb_false, !time_equal_true in G.
  intros _. exists cur. destruct_and!. done.
Qed.

(** ** Values for the witnesses *)

Definition s_scope : IdempotencyScope := IS true (s_digest 71).
Definition s_key (c : string) : string := "idempotency-key-" +:+ c.
Definition s_idem_world (maximum : Z) : idem_world := IW (IL true maximum (maximum + 1) 0 0 0 ∅ ∅ ∅ 0) [] [].
Definition s_reservation (key : string) (epoch : Z) (at' : time) : Reservation :=
  Res true s_scope (deriveDigest "veer.reconciliation.idempotency-key.v1" [key]) (s_digest 41) epoch at'
      (at' + HTTPIdempotencyWindow) false digest_zero.
Definition s_map_key (key : string) : string :=
  reservation_key s_scope (deriveDigest "veer.reconciliation.idempotency-key.v1" [key]).
Definition s_result : ResultDigest := s_digest 72.
(** One whole call of [Reserve], and a completed reservation. *)
Definition s_reserve (at' : time) (key : string) : list idem_event :=
  [EvBegin at' s_scope key (s_digest 41); EvRun 0; EvFinish 0].
Definition s_executed (at' : time) (key : string) : list idem_event :=
  s_reserve at' key ++ [EvComplete (s_reservation key 1 at') s_result].
Definition s_expiry : time := s_now + HTTPIdempotencyWindow.

Example s_idem_fresh maximum : 1 <= maximum < max_int64 -> idem_fresh (s_idem_world maximum).
Proof.
  intros Hm. split; [|done]. exists maximum. unfold NewIdempotencyLedger.
  rewrite (proj2 (Z.ltb_ge maximum 1)) by lia. by rewrite (proj2 (Z.ltb_lt maximum max_int64)) by lia.
Qed.

Definition s_two_windows : list idem_event := s_executed s_now (s_key "a") ++ s_reserve s_expiry (s_key "a").

(** ** Properties *)

(** The ledger is bounded and consistent on every interleaving: it never
    holds more rows than its maximum, the registry counts exactly the calls it
    holds and stays within its limit, the epoch kept for a key is that of its
    row (so a key without a row has no epoch), and every row carries the fixed
    24-hour window from its commit. *)
Theorem idempotency_ledger_consistent (w : idem_world) (es : list idem_event) (Hfresh : idem_fresh w) :
  let l := iw_ledger (idem_history w es) in
  IdempotencyLedger_Len l <= il_maximum l /\
  il_activeCount l = map_sum calls_len (il_active l) /\ il_activeCount l <= il_activeLimit l /\
  (forall k, il_keyState l !! k = rv_epoch <$> il_records l !! k) /\
  (forall k r, il_records l !! k = Some r ->
     k = reservation_key (rv_scope r) (rv_keyDigest r) /\
     rv_expiresAt r = rv_committedAt r + HTTPIdempotencyWindow /\ 1 <= rv_epoch r <= max_uint64 /\
     rv_completed r = dv_initialized (rv_result r)).
Proof.
  destruct (ii_ledger _ (idem_history_inv es w (idem_fresh_inv w Hfresh))) as [Hs Hr Hz _ _ [Hc Hlim]].
  split_and!; try done. intros k r Hk. destruct (Hr k r Hk) as (? & _ & _ & _ & _ & ? & ? & ?). done.
Qed.

Lemma idempotency_ledger_consistent_witness :
  IdempotencyLedger_Len (iw_ledger (idem_history (s_idem_world 1) s_two_windows)) <= 1.
Proof.
  exact (proj1 (idempotency_ledger_consistent (s_idem_world 1) s_two_windows
    (s_idem_fresh 1 (conj (Z.le_refl 1) (eq_refl : 1 < max_int64))))).
Defined.

(** C17: at most one execution per key and window.  On every interleaving in
    which calls sample a time not below the ledger's high-water mark as they
    register, two reservations granted for the same scoped key have disjoint
    24-hour windows: the later one commits at or after the earlier one's expiry,
    although rows are reclaimed and epochs forgotten in between. *)
Theorem idempotency_windows_disjoint (w : idem_world) (es : list idem_event) (i j : nat) (k : string)
  (newer older : Reservation)
  (Hfresh : idem_fresh w) (Hsampled : well_sampled w es) (Hij : (i < j)%nat)
  (Hi : iw_granted (idem_history w es) !! i = Some (k, newer))
  (Hj : iw_granted (idem_history w es) !! j = Some (k, older)) :
  rv_expiresAt older = rv_committedAt older + HTTPIdempotencyWindow /\ rv_expiresAt older <= rv_committedAt newer.
Proof.
  pose proof (idem_history_window es w (idem_fresh_window w Hfresh) Hsampled) as Hw. split.
  - by apply (wi_granted _ Hw k), (list_elem_of_lookup_2 _ j).
  - exact (ordered_pairs _ _ _ _ _ _ (wi_order _ Hw) Hij Hi Hj eq_refl).
Qed.

Lemma idempotency_windows_disjoint_witness :
  rv_expiresAt (s_reservation (s_key "a") 1 s_now) <= rv_committedAt (s_reservation (s_key "a") 2 s_expiry).
Proof.
  refine (proj2 (idempotency_windows_disjoint (s_idem_world 1) s_two_windows 0 1 (s_map_key (s_key "a"))
    (s_reservation (s_key "a") 2 s_expiry) (s_reservation (s_key "a") 1 s_now)
    (s_idem_fresh 1 (conj (Z.le_refl 1) (eq_refl : 1 < max_int64))) _ (le_n 1) _ _)).
  - split; [|split; [exact I|split; [exact I|split; [exact I|split; [|split; [exact I|split; [exact I|exact I]]]]]]];
      intros now Hn; vm_compute in Hn; injection Hn as <-; vm_compute; discriminate.
  - vm_compute. reflexivity.
  - vm_compute. reflexivity.
Defined.

(** Reservations are not recycled early.  In every reachable state, each
    step of any call leaves a retained reservation as it is, completes it in
    place (with epoch, fingerprint and expiry unchanged), or drops it; and it
    drops only a completed reservation, by a call that observed its expiry. *)
Theorem reservation_not_recycled (w : idem_world) (es : list idem_event) (e : idem_event) (k : string)
  (r : Reservation)
  (Hfresh : idem_fresh w) (Hr : il_records (iw_ledger (idem_history w es)) !! k = Some r) :
  record_step (idem_history w es) r e (il_records (iw_ledger (idem_step (idem_history w es) e)) !! k).
Proof. apply idem_step_record; [|done]. apply idem_history_inv. by apply idem_fresh_inv. Qed.

Lemma reservation_not_recycled_witness :
  record_step (idem_history (s_idem_world 1) (s_reserve s_now (s_key "a")))
    (s_reservation (s_key "a") 1 s_now) (EvComplete (s_reservation (s_key "a") 1 s_now) s_result)
    (il_records (iw_ledger (idem_history (s_idem_world 1) (s_executed s_now (s_key "a")))) !! s_map_key (s_key "a")).
Proof.
  apply (reservation_not_recycled (s_idem_world 1) (s_reserve s_now (s_key "a"))
    (EvComplete (s_reservation (s_key "a") 1 s_now) s_result) (s_map_key (s_key "a")) (s_reservation (s_key "a") 1 s_now)
    (s_idem_fresh 1 (conj (Z.le_refl 1) (eq_refl : 1 < max_int64)))).
  vm_compute. reflexivity.
Defined.

(** A late completion cannot touch a newer execution.  On every interleaving
    with well-sampled calls, completing a reservation fails once a newer
    reservation of its key was granted, even though a reclaimed key starts over
    at epoch one. *)
Theorem stale_completion_rejected (w : idem_world) (es : list idem_event) (i j : nat) (k : string)
  (newer older : Reservation) (v : Reservation) (d : ResultDigest)
  (Hfresh : idem_fresh w) (Hsampled : well_sampled w es) (Hij : (i < j)%nat)
  (Hi : iw_granted (idem_history w es) !! i = Some (k, newer))
  (Hj : iw_granted (idem_history w es) !! j = Some (k, older))
  (Hv : rv_scope v = rv_scope older /\ rv_keyDigest v = rv_keyDigest older /\ rv_expiresAt v = rv_expiresAt older) :
  exists e l', IdempotencyLedger_Complete v d (iw_ledger (idem_history w es)) = (Err e, l').
Proof.
  pose proof (idem_history_window es w (idem_fresh_window w Hfresh) Hsampled) as Hw.
  set (w' := idem_history w es) in *.
  destruct (IdempotencyLedger_Complete v d (iw_ledger w')) as [[r|e] l'] eqn:H; [|eauto]. exfalso.
  apply Complete_matches in H as (cur & Hcur & Hexp). destruct Hv as (Hs & Hk & Hve). rewrite Hs, Hk in Hcur.
  destruct (wi_granted _ Hw k older (list_elem_of_lookup_2 _ _ _ Hj)) as [Hkey _].
  destruct (wi_granted _ Hw k newer (list_elem_of_lookup_2 _ _ _ Hi)) as [_ Hnew].
  pose proof (ordered_pairs _ _ _ _ _ _ (wi_order _ Hw) Hij Hi Hj eq_refl) as Hafter. simpl in Hafter.
  rewrite <- Hkey in Hcur.
  assert (0 < HTTPIdempotencyWindow) by (vm_compute; reflexivity).
  destruct (wi_guard _ Hw k newer (list_elem_of_lookup_2 _ _ _ Hi)) as [(cur' & Hcur' & Hle)|(Hn & _)]; [|congruence].
  assert (cur' = cur) as -> by congruence. lia.
Qed.

Lemma stale_completion_rejected_witness :
  exists e l', IdempotencyLedger_Complete (s_reservation (s_key "a") 1 s_now) s_result
    (iw_ledger (idem_history (s_idem_world 1) s_two_windows)) = (Err e, l').
Proof.
  refine (stale_completion_rejected (s_idem_world 1) s_two_windows 0 1 (s_map_key (s_key "a"))
    (s_reservation (s_key "a") 2 s_expiry) (s_reservation (s_key "a") 1 s_now) (s_reservation (s_key "a") 1 s_now) s_result
    (s_idem_fresh 1 (conj (Z.le_refl 1) (eq_refl : 1 < max_int64))) _ (le_n 1) _ _ _).
  - split; [|split; [exact I|split; [exact I|split; [exact I|split; [|split; [exact I|split; [exact I|exact I]]]]]]];
      intros now Hn; vm_compute in Hn; injection Hn as <-; vm_compute; discriminate.
  - vm_compute. reflexivity.
  - vm_compute. reflexivity.
  - split; [reflexivity|]. split; reflexivity.
Defined.

(** ** The sampling assumption is needed

    Two completed keys expire and a call on a third reclaims both, raising the
    high-water mark to their expiry.  Then a fresh call on the first key
    registers with a sample one millisecond below the mark, a later call
    overtakes it, and the first one is let through: the same key and request
    are granted twice within 24 hours.  Without the overtaking call it fails. *)
Definition s_reclaimed : list idem_event :=
  s_executed s_now (s_key "a") ++ s_executed s_now (s_key "b") ++ s_reserve s_expiry (s_key "c").
Definition s_late : idem_event := EvBegin (s_expiry - millisecond) s_scope (s_key "a") (s_digest 41).

(** C40: a registration below the high-water mark is not always refused.  In a
    concrete history a fresh call on an expired key samples a time below the
    mark; it fails if it runs next, but is granted a second time within the
    24-hour window of the first reservation if a later call overtakes it. *)
Theorem overtaken_sample_granted :
  let w := idem_history (s_idem_world 2) s_reclaimed in
  il_highWater (iw_ledger w) = s_expiry /\
  iw_granted (idem_history w [s_late; EvRun 0]) = iw_granted w /\
  exists newer older, newer.1 = older.1 /\
    iw_granted (idem_history w [s_late; EvBegin s_expiry s_scope (s_key "c") (s_digest 41); EvRun 1; EvRun 0])
      = newer :: iw_granted w /\
    older ∈ iw_granted w /\ rv_committedAt newer.2 < rv_expiresAt older.2.
Proof.
  split; [vm_compute; reflexivity|]. split; [vm_compute; reflexivity|].
  exists (s_map_key (s_key "a"), s_reservation (s_key "a") 1 (s_expiry - millisecond)),
         (s_map_key (s_key "a"), s_reservation (s_key "a") 1 s_now).
  split; [reflexivity|]. split; [vm_compute; reflexivity|]. split; [|vm_compute; reflexivity].
  replace (iw_granted _) with [(s_map_key (s_key "c"), s_reservation (s_key "c") 1 s_expiry);
    (s_map_key (s_key "b"), s_reservation (s_key "b") 1 s_now);
    (s_map_key (s_key "a"), s_reservation (s_key "a") 1 s_now)] by (vm_compute; reflexivity).
  right; right; left.
Qed.
