(* ===== verification/Launch.v ===== *)
(** * From an operation to a plan and a dispatch authority
    (reconciliation/plan.go, lease.go, model.go, idempotency.go)

    The functions of the reconciliation package that read an operation, a
    principal and a decision: [NewPlan] fixes the basis of a plan,
    [NewDispatchAuthority] rechecks it at dispatch time, and
    [CancellationPublicState] and [IndeterminatePublicState] map internal state
    to the public phase of the operation.  [NewIdempotencyScope] reduces a
    principal, a method and a target to the scope of one mutation. *)

From stdpp Require Import sorting.
From S2P Require Import Prelude StringOrder Bytes GoTime Atomics Closed Identity AuthzVocabulary Authorization Receipt.
From S2P Require Import Operation.
From S2P Require Import Vocabulary Digests Plan Lease Attempt Observation Idempotency.
From Stdlib Require Import String.

Section Launch.
Context `{RequestURIs}.

(** ** Plans *)

Record PlanInput := PlI {
  pn_ID : ID;
  pn_Revision : Z;
  pn_Kind : PlanKind;
  pn_Operation : Operation;
  pn_PlannerVersion : string;
  pn_DesiredIntent : Evidence;
  pn_ObservedSnapshot : Evidence;
  pn_Actor : Principal;
  pn_Authorization : Decision;
  pn_ProviderBinding : option ProviderBinding;
  pn_Capability : Evidence;
  pn_Quota : Evidence;
  pn_Cost : Evidence;
  pn_Supersedes : option PlanDigest;
  pn_CompletedEffects : list EffectKey;
  pn_Compensates : list EffectKey;
}.

Definition terminalOperation (phase : Phase) : bool :=
  match phase with PhaseSucceeded | PhaseFailed | PhaseCanceled => true | _ => false end.

Definition validatePlanProviderBinding (op : Operation) (binding : option ProviderBinding) : result Vocabulary.error unit :=
  match op_ProviderConnectionID op, binding with
  | None, None => Ok tt
  | None, Some _ => Err ErrPlanMismatch
  | Some _, None => Err ErrPlanMismatch
  | Some connection, Some b =>
      fail_if (negb (ValidateProviderBinding b) || negb (String.eqb (pb_connectionID b) connection)) ErrPlanMismatch
  end.

(** An effect of the operation and its generation. *)
Definition effect_of_operation (op : Operation) (value : EffectKey) : bool :=
  negb (negb (ValidateEffectKey value) || negb (String.eqb (ek_operationID value) (op_ID op))
        || negb (String.eqb (ek_workspaceID value) (op_WorkspaceID op))
        || negb (String.eqb (ek_resourceID value) (op_ResourceID op))
        || negb (ek_generation value =? op_Generation op)).

Fixpoint repeated_effect (previous : option EffectKey) (values : list EffectKey) : bool :=
  match values with
  | [] => false
  | value :: rest =>
      match previous with Some p => EffectKey_Equal p value | None => false end || repeated_effect (Some value) rest
  end.

(** [sort.Slice] by spelling: effects of one operation with the same spelling
    are equal and refused, so that its order of equal elements never shows. *)
Definition canonicalEffectSet (values : list EffectKey) (op : Operation) : result Vocabulary.error (list EffectKey) :=
  fail_if (MaxEffectsPerOperation <? llen values) ErrInvalidPlan;;
  fail_if (negb (forallb (effect_of_operation op) values)) ErrInvalidPlan;;
  let result := merge_sort (by_key EffectKey_String) values in
  fail_if (repeated_effect None result) ErrInvalidPlan;;
  Ok result.

(** The plan built from an input and its canonical effect sets, without its digest. *)
Definition plan_basis (input : PlanInput) (completed compensates : list EffectKey) : Plan :=
  let op := pn_Operation input in
  MkPlan true (pn_ID input) (pn_Revision input) (pn_Kind input) (op_ID op) (op_WorkspaceID op) (op_ResourceID op)
    (op_EnvironmentID op) (op_ProviderConnectionID op) (op_Generation op) (pn_PlannerVersion input)
    (pn_DesiredIntent input) (pn_ObservedSnapshot input) (pr_kind (pn_Actor input))
    (Fingerprint_String (li_fingerprint (pr_logicalIdentity (pn_Actor input))))
    (formatDigest PolicyVersionPrefix (de_policyVersion (pn_Authorization input)))
    (formatDigest InputDigestPrefix (de_inputDigest (pn_Authorization input)))
    (pn_ProviderBinding input) (pn_Capability input) (pn_Quota input) (pn_Cost input) (pn_Supersedes input)
    completed compensates digest_zero.

(** [value.digest = derivePlanDigest(value)] *)
Definition seal_plan (p : Plan) : Plan :=
  MkPlan (pl_initialized p) (pl_id p) (pl_revision p) (pl_kind p) (pl_operationID p) (pl_workspaceID p)
    (pl_resourceID p) (pl_environmentID p) (pl_connectionID p) (pl_generation p) (pl_plannerVersion p)
    (pl_desired p) (pl_observed p) (pl_actorKind p) (pl_actorFingerprint p) (pl_policyVersion p)
    (pl_authorizationInput p) (pl_providerBinding p) (pl_capability p) (pl_quota p) (pl_cost p)
    (pl_supersedes p) (pl_completedEffects p) (pl_compensates p) (derivePlanDigest p).

(** The kind's rule for the compensated effects. *)
Definition kind_allows (kind : PlanKind) (revision : Z) (completed compensates : list EffectKey) : bool :=
  match kind with
  | PlanKindForward => llen compensates =? 0
  | PlanKindCompensation =>
      negb ((revision =? 1) || (llen compensates =? 0) || negb (effectSetContainsAll completed compensates))
  | PlanKindOther _ => true
  end.

Definition NewPlan (input : PlanInput) : result Vocabulary.error Plan :=
  let op := pn_Operation input in
  fail_if (negb (validID (pn_ID input)) || (pn_Revision input =? 0) || negb (validVersion (pn_PlannerVersion input))
           || negb (result_ok (Operation.Validate op)) || terminalOperation (op_Phase op)) ErrInvalidPlan;;
  fail_if (negb (PlanKind_known (pn_Kind input))) ErrInvalidPlan;;
  fail_if (negb (result_ok (ValidatePrincipal (pn_Actor input))) || negb (result_ok (ValidateDecision (pn_Authorization input)))
           || negb (Decision_Allowed (pn_Authorization input))) ErrInvalidPlan;;
  fail_if (negb (evidenceHasKind (pn_DesiredIntent input) EvidenceDesiredIntent)
           || negb (evidenceHasKind (pn_ObservedSnapshot input) EvidenceObservedSnapshot)
           || negb (evidenceHasKind (pn_Capability input) EvidenceCapability)
           || negb (evidenceHasKind (pn_Quota input) EvidenceQuota)
           || negb (evidenceHasKind (pn_Cost input) EvidenceCost)) ErrInvalidPlan;;
  validatePlanProviderBinding op (pn_ProviderBinding input);;
  completed ← canonicalEffectSet (pn_CompletedEffects input) op;
  fail_if ((pn_Revision input =? 1) && negb (llen completed =? 0)) ErrInvalidPlan;;
  compensates ← canonicalEffectSet (pn_Compensates input) op;
  fail_if (negb (kind_allows (pn_Kind input) (pn_Revision input) completed compensates)) ErrInvalidPlan;;
  fail_if (negb (Bool.eqb (pn_Revision input =? 1) (negb (is_some (pn_Supersedes input))))) ErrInvalidPlan;;
  fail_if (match pn_Supersedes input with Some d => negb (dv_initialized d) | None => false end) ErrInvalidPlan;;
  let value := seal_plan (plan_basis input completed compensates) in
  if ValidatePlan value then Ok value else Err ErrInvalidPlan.

(** ** Dispatch authorities *)

Definition operationPhaseAllowsPurpose (phase : Phase) (purpose : AttemptPurpose) : bool :=
  match purpose with
  | AttemptPurposeForward | AttemptPurposeCompensation => bool_decide (phase = PhaseRunning)
  | AttemptPurposeObservation | AttemptPurposeProviderCancel =>
      bool_decide (phase = PhaseRunning) || bool_decide (phase = PhaseWaiting)
  | AttemptPurposeOther _ => false
  end.

Definition optionalIDsEqual (left right : option ID) : bool := bool_decide (left = right).

(** The attempt may be dispatched for the plan at [now]. *)
Definition attempt_ready (now : time) (plan : Plan) (attempt : Attempt) : bool :=
  negb (negb (ValidatePlan plan) || negb (ValidateAttempt attempt) || negb (bool_decide (at_state attempt = AttemptStatePrepared))
        || before now (at_preparedAt attempt)
        || (negb (is_zero (at_retryValidUntil attempt)) && negb (before now (at_retryValidUntil attempt)))
        || (negb (is_zero (at_observationDeadline attempt)) && negb (before now (at_observationDeadline attempt)))
        || negb (equalDigest (at_planDigest attempt) (pl_digest plan)) || negb (bool_decide (at_planKind attempt = pl_kind plan))
        || negb (effectMatchesPlan (at_effect attempt) plan)).

(** The current operation is the plan's and its phase allows the attempt. *)
Definition operation_current (current : Operation) (plan : Plan) (purpose : AttemptPurpose) : bool :=
  negb (negb (result_ok (Operation.Validate current)) || negb (operationPhaseAllowsPurpose (op_Phase current) purpose)
        || negb (String.eqb (op_ID current) (pl_operationID plan)) || negb (String.eqb (op_WorkspaceID current) (pl_workspaceID plan))
        || negb (String.eqb (op_ResourceID current) (pl_resourceID plan)) || negb (op_Generation current =? pl_generation plan)
        || negb (optionalIDsEqual (op_EnvironmentID current) (pl_environmentID plan))
        || negb (optionalIDsEqual (op_ProviderConnectionID current) (pl_connectionID plan))).

(** The decision allows, and is the one the plan recorded. *)
Definition decision_current (decision : Decision) (plan : Plan) : bool :=
  negb (negb (result_ok (ValidateDecision decision)) || negb (Decision_Allowed decision)
        || negb (String.eqb (formatDigest PolicyVersionPrefix (de_policyVersion decision)) (pl_policyVersion plan))
        || negb (String.eqb (formatDigest InputDigestPrefix (de_inputDigest decision)) (pl_authorizationInput plan))).

Definition evidence_current (providerBinding : option ProviderBinding) (capability quota cost : Evidence) (plan : Plan) : bool :=
  negb (negb (providerBindingsEqual providerBinding (pl_providerBinding plan)) || negb (Evidence_Equal capability (pl_capability plan))
        || negb (Evidence_Equal quota (pl_quota plan)) || negb (Evidence_Equal cost (pl_cost plan))).

Definition NewDispatchAuthority (databaseTime : time) (plan : Plan) (attempt : Attempt) (current : Operation)
    (decision : Decision) (providerBinding : option ProviderBinding) (capability quota cost : Evidence) : HeapM DispatchAuthority :=
  now ← lift (of_option (normalizeTime databaseTime) (ErrWrap ErrDispatchAuthority ErrInvalidTime));
  reject (negb (attempt_ready now plan attempt) || negb (operation_current current plan (at_purpose attempt))
          || negb (decision_current decision plan) || negb (evidence_current providerBinding capability quota cost plan))
    ErrDispatchAuthority;;
  use ← heap_new_bool;
  mret (DA true (pl_digest plan) (deriveAttemptDispatchBinding attempt)
           (formatDigest InputDigestPrefix (de_inputDigest decision))
           (formatDigest PolicyVersionPrefix (de_policyVersion decision)) now (Some use)).

(** ** Public state *)

(** What the loop over the attempts has seen. *)
Record attempts_seen := Seen {
  hasUnresolved : bool;
  hasIndeterminate : bool;
  seen_ids : gset string;
  seen_ordinals : gset Z;
}.

Definition attempt_of_operation (current : Operation) (attempt : Attempt) : bool :=
  negb (negb (ValidateAttempt attempt) || negb (String.eqb (ek_operationID (at_effect attempt)) (op_ID current))
        || negb (String.eqb (ek_workspaceID (at_effect attempt)) (op_WorkspaceID current))
        || negb (String.eqb (ek_resourceID (at_effect attempt)) (op_ResourceID current))
        || negb (ek_generation (at_effect attempt) =? op_Generation current)).

Fixpoint see_attempts (current : Operation) (attempts : list Attempt) (seen : attempts_seen) : result Vocabulary.error attempts_seen :=
  match attempts with
  | [] => Ok seen
  | attempt :: rest =>
      fail_if (negb (attempt_of_operation current attempt)) ErrInvalidAttempt;;
      fail_if (bool_decide (at_id attempt ∈ seen_ids seen)) ErrInvalidAttempt;;
      fail_if (bool_decide (at_ordinal attempt ∈ seen_ordinals seen)) ErrInvalidAttempt;;
      let unresolved := match at_state attempt with AttemptStatePrepared | AttemptStateDispatched => true | _ => hasUnresolved seen end in
      let indeterminate := match at_state attempt with AttemptStateIndeterminate => true | _ => hasIndeterminate seen end in
      see_attempts current rest
        (Seen unresolved indeterminate ({[at_id attempt]} ∪ seen_ids seen) ({[at_ordinal attempt]} ∪ seen_ordinals seen))
  end.

Definition CancellationPublicState (current : Operation) (ownerActive : bool) (attempts : list Attempt)
    (cleanupDurable quarantineDurable : bool) : result Vocabulary.error (Phase * WorkReason) :=
  fail_if (negb (result_ok (Operation.Validate current))) ErrInvalidAttempt;;
  if terminalOperation (op_Phase current) then Ok (op_Phase current, WorkReasonNone) else
  seen ← see_attempts current attempts (Seen false false ∅ ∅);
  if negb cleanupDurable || hasUnresolved seen || (hasIndeterminate seen && negb quarantineDurable)
  then Ok (if ownerActive then PhaseRunning else PhaseWaiting, WorkReasonCancelPending)
  else Ok (PhaseCanceled, WorkReasonNone).

Definition IndeterminatePublicState : Phase * WorkReason := (PhaseWaiting, WorkReasonProviderOutcomeIndeterminate).
(** ** Idempotency scopes *)

(** The frames hashed for the scope of one mutation. *)
Definition scope_frames (principal : Principal) (method canonicalTarget : string) : list string :=
  ["veer.reconciliation.idempotency-scope.v1"; ContractVersion; Kind_String (pr_kind principal);
   li_issuer (pr_logicalIdentity principal); li_subject (pr_logicalIdentity principal); method; canonicalTarget].

Definition NewIdempotencyScope (principal : Principal) (method canonicalTarget : string) : result Vocabulary.error IdempotencyScope :=
  if negb (result_ok (ValidatePrincipal principal)) || negb (validMutationMethod method)
     || (slen canonicalTarget =? 0) || (MaxEvidenceBytes <? slen canonicalTarget)
  then Err ErrInvalidIdempotency
  else Ok (IS true (digestFromHasher (scope_frames principal method canonicalTarget))).
End Launch.
