(* ===== verification/LaunchProps.v ===== *)
(** * Properties of plans, dispatch authorities and public states

    [NewPlan] accepts exactly the admissible bases, whatever the order of the
    effects, and what it builds is a valid plan; a dispatch authority rechecks
    everything the plan was built on; the public phases are moves of the
    operation's own state machine. *)

From stdpp Require Import sorting.
From S2P Require Import Prelude StringOrder Bytes Sha256 GoTime Atomics Closed Identity AuthzVocabulary Authorization Receipt AuthorizationProps.
From S2P Require Import Operation OperationProps.
From S2P Require Import Vocabulary Digests Plan PlanProps Lease LeaseSpec Attempt LeaseProps AttemptProps Observation Idempotency Launch.
From Stdlib Require Import String.

(** ** Spellings of digests are versions *)

Lemma utf8_version s : string_forall version_char s = true -> utf8_valid s = true.
Proof.
  unfold utf8_valid. intros Hs.
  assert (is_some (utf8_runes s) = true) as Hr; [|by destruct (utf8_runes s)].
  revert Hs. induction s as [|c s IH]; [done|]. intros Hs. cbn [string_forall] in Hs. apply andb_true_iff in Hs as [Hc Hs].
  assert (between 0 127 c = true) as Ha by (revert Hc; destruct c as [[] [] [] [] [] [] [] []]; vm_compute; done).
  cbn [utf8_runes]. specialize (IH Hs). unfold between in Ha. apply andb_true_iff in Ha as [_ Ha]. apply Z.leb_le in Ha.
  assert (byte_val c <? 128 = true) as -> by (apply Z.ltb_lt; lia). by destruct (utf8_runes s).
Qed.

Lemma validVersion_digest prefix d : slen prefix = 5 -> matches_pattern is_alnum version_char 0 127 prefix = true ->
  dv_initialized d = true -> digest_wf d -> validVersion (formatDigest prefix d) = true.
Proof.
  intros Hl Hp Hi Hw. pose proof (formatDigest_length prefix d Hi Hw) as L. rewrite Hl in L.
  assert (string_forall version_char (b64_encode (dv_digest d)) = true) as Hb
    by (apply b64_encode_forall; intros [[] [] [] [] [] []]; reflexivity).
  unfold validVersion. rewrite L. unfold formatDigest in *. rewrite Hi in *.
  destruct prefix as [|c p]; [done|]. cbn [matches_pattern] in Hp. apply andb_true_iff in Hp as [Hp _].
  apply andb_true_iff in Hp as [Hp _]. apply andb_true_iff in Hp as [Hc Hp].
  change (String c p +:+ b64_encode (dv_digest d)) with (String c (p +:+ b64_encode (dv_digest d))) in *.
  assert (string_forall version_char (p +:+ b64_encode (dv_digest d)) = true) as Hs by (by rewrite string_forall_app, Hp, Hb).
  assert (slen (p +:+ b64_encode (dv_digest d)) = 47) as Ls.
  { unfold slen in *. cbn [String.length] in L. lia. }
  rewrite utf8_version; [|cbn [string_forall]; unfold version_char at 1; by rewrite Hc, Hs]. cbn [matches_pattern].
  by rewrite Hc, Hs, Ls.
Qed.

Lemma fingerprint_projection kind d : validKind kind = true -> dv_initialized d = true -> digest_wf d ->
  validActorProjection kind (Fingerprint_String d) = true.
Proof.
  intros Hk Hi Hw. pose proof (formatDigest_length fingerprintPrefix d Hi Hw) as L. unfold Fingerprint_String.
  unfold validActorProjection. rewrite L. unfold formatDigest in *. rewrite Hi in *.
  assert (String.eqb (fingerprintPrefix +:+ b64_encode (dv_digest d)) "prn1_invalid" = false) as ->.
  { apply String.eqb_neq. intros E. rewrite E in L. vm_compute in L. discriminate L. }
  assert (String.substring 0 5 (fingerprintPrefix +:+ b64_encode (dv_digest d)) = "prn1_") as ->
    by (simpl; by destruct (b64_encode _)).
  by destruct kind.
Qed.

Section Launching.
Context `{RequestURIs}.

Lemma principal_facts p : ValidatePrincipal p = Ok tt ->
  validKind (pr_kind p) = true /\ dv_initialized (li_fingerprint (pr_logicalIdentity p)) = true /\
  digest_wf (li_fingerprint (pr_logicalIdentity p)).
Proof.
  intros Hv. unfold ValidatePrincipal, in_principal in Hv. apply map_err_ok in Hv.
  apply bind_ok in Hv as (? & Hk%fail_if_ok & Hv). apply bind_ok in Hv as ([] & Hl & _).
  unfold ValidateLogicalIdentity in Hl. apply bind_ok in Hl as (? & _ & Hl). apply bind_ok in Hl as (? & _ & Hl).
  apply fail_if_ok, negb_false, equalDigest_true in Hl as (_ & _ & ->). apply negb_false in Hk.
  split; [done|]. split; [done|]. exact (sha256_length _).
Qed.

(** ** Effect sets *)

Lemma effect_of_operation_ok op v : effect_of_operation op v = true <->
  ValidateEffectKey v = true /\ ek_operationID v = op_ID op /\ ek_workspaceID v = op_WorkspaceID op /\
  ek_resourceID v = op_ResourceID op /\ ek_generation v = op_Generation op.
Proof. unfold effect_of_operation. autorewrite with guards. tauto. Qed.

(** Effects of one operation are spelled by one name each. *)
Lemma effect_spelling op v w : effect_of_operation op v = true -> effect_of_operation op w = true ->
  EffectKey_String v = EffectKey_String w -> v = w.
Proof.
  rewrite !effect_of_operation_ok. intros (Vv & ? & ? & ? & ?) (Vw & ? & ? & ? & ?) E.
  apply EffectKey_String_inj in E; [|done..]. unfold ValidateEffectKey in *. autorewrite with guards in *.
  destruct v, w. simpl in *. destruct_and!. congruence.
Qed.

Lemma distinct_spellings op l : Forall (fun v => effect_of_operation op v = true) l -> NoDup l -> NoDup (EffectKey_String <$> l).
Proof.
  induction 1 as [|v l Hv Hl IH]; simpl; [constructor|]. rewrite !NoDup_cons. intros [Hn Hd]. split; [|auto].
  intros (w & E & Hw)%list_elem_of_fmap. rewrite Forall_forall in Hl. apply (effect_spelling op) in E; [by subst | done | by apply Hl].
Qed.

Lemma repeated_none l : forall p, NoDup (match p with Some v => v :: l | None => l end) -> repeated_effect p l = false.
Proof.
  induction l as [|w l IH]; intros p Hd; [done|]. cbn [repeated_effect]. apply orb_false_iff. split.
  - destruct p as [v|]; [|done]. apply NoDup_cons in Hd as [Hn _].
    destruct (EffectKey_Equal v w) eqn:E; [|done]. apply EffectKey_Equal_true in E as [_ ->]. exfalso. apply Hn. by left.
  - apply (IH (Some w)). destruct p; [by apply NoDup_cons in Hd as [_ Hd] | done].
Qed.

Lemma sorted_increasing op l : Forall (fun v => effect_of_operation op v = true) l -> StronglySorted (by_key EffectKey_String) l ->
  forall p, repeated_effect p l = false -> StronglySorted string_lt (EffectKey_String <$> l).
Proof.
  intros Hf Hs. induction Hs as [|v l Hs IH Hv]; intros p Hr; [constructor|]. apply Forall_cons in Hf as [Hfv Hf].
  cbn [repeated_effect] in Hr. apply orb_false_iff in Hr as [_ Hr]. specialize (IH Hf _ Hr). rewrite fmap_cons. constructor; [done|].
  destruct l as [|w l]; [constructor|]. cbn [repeated_effect] in Hr. apply orb_false_iff in Hr as [Hvw _].
  apply Forall_cons in Hf as [Hfw Hf]. apply Forall_cons in Hv as [Hvw' _].
  assert (string_lt (EffectKey_String v) (EffectKey_String w)) as Hlt.
  { apply string_le_lt; [exact Hvw'|]. intros E. apply (effect_spelling op) in E as ->; [|done..].
    rewrite EffectKey_Equal_refl in Hvw; [done|]. by apply effect_of_operation_ok in Hfw as [? _]. }
  rewrite fmap_cons in *. apply StronglySorted_inv in IH as [_ IH]. constructor; [done|].
  eapply Forall_impl; [exact IH|]. intros x Hx. simpl in Hx. by eapply string_ltb_trans.
Qed.

(** A valid effect of the operation and its generation. *)
Definition effect_belongs (op : Operation) (v : EffectKey) : Prop :=
  ValidateEffectKey v = true /\ ek_operationID v = op_ID op /\ ek_workspaceID v = op_WorkspaceID op /\
  ek_resourceID v = op_ResourceID op /\ ek_generation v = op_Generation op.

Lemma belong_all op l : Forall (effect_belongs op) l <-> Forall (fun v => effect_of_operation op v = true) l.
Proof. rewrite !Forall_forall. by setoid_rewrite effect_of_operation_ok. Qed.

(** The canonical effect sets: at most the limit, of the operation, distinct. *)
Definition effect_set (op : Operation) (values : list EffectKey) : Prop :=
  llen values <= MaxEffectsPerOperation /\ Forall (effect_belongs op) values /\ NoDup values.

Lemma canonicalEffectSet_ok values op r : canonicalEffectSet values op = Ok r <->
  effect_set op values /\ r = merge_sort (by_key EffectKey_String) values.
Proof.
  unfold canonicalEffectSet, effect_set. rewrite belong_all. pose proof (merge_sort_Permutation (by_key EffectKey_String) values) as Hp.
  assert (StronglySorted (by_key EffectKey_String) (merge_sort (by_key EffectKey_String) values)) as Hs.
  { apply StronglySorted_merge_sort; unfold by_key; [intros x y z ??; by transitivity (EffectKey_String y) | intros x y; apply total, _]. }
  assert (forallb (effect_of_operation op) values = true <-> Forall (fun v => effect_of_operation op v = true) values) as Hall
    by (rewrite forallb_forall, Forall_forall; by setoid_rewrite list_elem_of_In).
  split.
  - intros E. apply bind_ok in E as (? & Hl%fail_if_ok & E). apply bind_ok in E as (? & Hf%fail_if_ok & E).
    apply bind_ok in E as (? & Hr%fail_if_ok & E). injection E as <-. autorewrite with guards in *. apply Hall in Hf.
    split; [|done]. split; [done|]. split; [done|]. rewrite <- Hp.
    apply (NoDup_fmap_1 EffectKey_String), sorted_lt_nodup, (sorted_increasing op _) with (p := None); [by rewrite Hp | done..].
  - intros ((Hl & Hf & Hd) & ->). apply Z.ltb_ge in Hl. rewrite Hl, (proj2 Hall Hf). simpl.
    rewrite (repeated_none _ None); [done|]. by rewrite Hp.
Qed.

Lemma canonical_effects op plan l :
  pl_operationID plan = op_ID op -> pl_workspaceID plan = op_WorkspaceID op -> pl_resourceID plan = op_ResourceID op ->
  pl_generation plan = op_Generation op -> effect_set op l ->
  validCanonicalEffects (merge_sort (by_key EffectKey_String) l) plan = true.
Proof.
  intros Eo Ew Er Eg (_ & Hf%belong_all & Hd). pose proof (merge_sort_Permutation (by_key EffectKey_String) l) as Hp.
  pose proof (sort_by_increasing EffectKey_String l (distinct_spellings op l Hf Hd)) as Hi. rewrite <- Hp in Hf.
  unfold validCanonicalEffects. revert Hi Hf. generalize (merge_sort (by_key EffectKey_String) l) as k. intros k. clear -Eo Ew Er Eg.
  assert (forall p, increasing_from p (EffectKey_String <$> k) = true -> Forall (fun v => effect_of_operation op v = true) k ->
    forall q, EffectKey_String <$> q = p -> validCanonicalEffects_from q k plan = true) as H; [|by intros; eapply H].
  induction k as [|v k IH]; intros p Hi Hf q Hq; [done|]. rewrite fmap_cons in Hi. cbn [increasing_from] in Hi.
  apply Forall_cons in Hf as [Hv Hf]. apply effect_of_operation_ok in Hv as (Vv & E1 & E2 & E3 & E4).
  cbn [validCanonicalEffects_from]. rewrite Eo, Ew, Er, Eg, Vv, E1, E2, E3, E4, !String.eqb_refl, Z.eqb_refl. simpl.
  apply andb_true_iff in Hi as [Hpv Hi]. rewrite (IH _ Hi Hf (Some v) eq_refl), andb_true_r. by destruct q; subst p.
Qed.
Lemma canonicalEffectSet_perm op l k : l ≡ₚ k -> canonicalEffectSet l op = canonicalEffectSet k op.
Proof.
  intros Hp. assert (forall l e, canonicalEffectSet l op = Err e -> e = ErrInvalidPlan) as Herr.
  { intros l' e. unfold canonicalEffectSet, fail_if. repeat case_match; simpl; congruence. }
  assert (forall l k r, l ≡ₚ k -> canonicalEffectSet l op = Ok r -> canonicalEffectSet k op = Ok r) as Hok.
  { clear. intros l k r Hp. rewrite !canonicalEffectSet_ok. intros ((Hl & Hf & Hd) & ->).
    assert (effect_set op k) as Hk by (split; [by rewrite <- Hp|]; split; by rewrite <- Hp).
    split; [done|]. destruct Hk as (_ & Hfk%belong_all & Hdk). apply belong_all in Hf.
    apply (sorted_key_unique EffectKey_String); [by apply sort_by_increasing, (distinct_spellings op)..|].
    by rewrite !merge_sort_Permutation. }
  destruct (canonicalEffectSet l op) as [r|e] eqn:El; [symmetry; by eapply Hok|].
  destruct (canonicalEffectSet k op) as [r|e'] eqn:Ek.
  - symmetry in Hp. apply (Hok _ _ _ Hp) in Ek. congruence.
  - by rewrite (Herr _ _ El), (Herr _ _ Ek).
Qed.

(** ** The basis of a plan *)

Definition binding_matches (op : Operation) (binding : option ProviderBinding) : Prop :=
  match op_ProviderConnectionID op, binding with
  | None, None => True
  | Some c, Some b => ValidateProviderBinding b = true /\ pb_connectionID b = c
  | _, _ => False
  end.

(** What a plan may be made of. *)
Record plan_admissible (input : PlanInput) : Prop := {
  pa_id : validID (pn_ID input) = true;
  pa_revision : pn_Revision input <> 0;
  pa_planner : validVersion (pn_PlannerVersion input) = true;
  pa_operation : Operation.Validate (pn_Operation input) = Ok tt;
  pa_phase : terminal (op_Phase (pn_Operation input)) = false;
  pa_kind : PlanKind_known (pn_Kind input) = true;
  pa_actor : ValidatePrincipal (pn_Actor input) = Ok tt;
  pa_decision : ValidateDecision (pn_Authorization input) = Ok tt;
  pa_allowed : Decision_Allowed (pn_Authorization input) = true;
  pa_desired : evidenceHasKind (pn_DesiredIntent input) EvidenceDesiredIntent = true;
  pa_observed : evidenceHasKind (pn_ObservedSnapshot input) EvidenceObservedSnapshot = true;
  pa_capability : evidenceHasKind (pn_Capability input) EvidenceCapability = true;
  pa_quota : evidenceHasKind (pn_Quota input) EvidenceQuota = true;
  pa_cost : evidenceHasKind (pn_Cost input) EvidenceCost = true;
  pa_binding : binding_matches (pn_Operation input) (pn_ProviderBinding input);
  pa_completed : effect_set (pn_Operation input) (pn_CompletedEffects input);
  pa_compensates : effect_set (pn_Operation input) (pn_Compensates input);
  pa_first : pn_Revision input = 1 <-> pn_Supersedes input = None;
  pa_supersedes : forall d, pn_Supersedes input = Some d -> dv_initialized d = true;
  pa_first_completed : pn_Revision input = 1 -> pn_CompletedEffects input = [];
  pa_forward : pn_Kind input = PlanKindForward -> pn_Compensates input = [];
  pa_compensation : pn_Kind input = PlanKindCompensation ->
    pn_Revision input <> 1 /\ pn_Compensates input <> [] /\ pn_Compensates input ⊆ pn_CompletedEffects input;
}.

(** The plan of an admissible basis. *)
Definition built (input : PlanInput) : Plan :=
  seal_plan (plan_basis input (merge_sort (by_key EffectKey_String) (pn_CompletedEffects input))
                              (merge_sort (by_key EffectKey_String) (pn_Compensates input))).

Lemma validatePlanProviderBinding_ok op b : validatePlanProviderBinding op b = Ok tt <-> binding_matches op b.
Proof.
  unfold validatePlanProviderBinding, binding_matches. destruct (op_ProviderConnectionID op), b; simpl; try done.
  rewrite fail_if_ok. autorewrite with guards. done.
Qed.

Lemma containsAll_ok op c s : Forall (fun v => effect_of_operation op v = true) c -> Forall (fun v => effect_of_operation op v = true) s ->
  effectSetContainsAll c s = true <-> s ⊆ c.
Proof.
  rewrite !Forall_forall. intros Hc Hs. unfold effectSetContainsAll. rewrite forallb_forall. split.
  - intros Hall v Hv. specialize (Hall v). rewrite <- list_elem_of_In, bool_decide_eq_true, elem_of_list_to_set in Hall.
    apply Hall in Hv as Hin. apply list_elem_of_fmap in Hin as (w & E & Hw).
    apply (effect_spelling op) in E; [by subst | by apply Hs | by apply Hc].
  - intros Hall v. rewrite <- list_elem_of_In, bool_decide_eq_true, elem_of_list_to_set. intros Hv. by apply list_elem_of_fmap_2, Hall.
Qed.

Lemma sorted_empty (l : list EffectKey) : (llen (merge_sort (by_key EffectKey_String) l) =? 0) = true <-> l = [].
Proof. rewrite Z.eqb_eq, merge_sort_Permutation. destruct l; simpl; split; try done; lia. Qed.

Lemma kind_allows_ok input : PlanKind_known (pn_Kind input) = true ->
  effect_set (pn_Operation input) (pn_CompletedEffects input) -> effect_set (pn_Operation input) (pn_Compensates input) ->
  kind_allows (pn_Kind input) (pn_Revision input) (merge_sort (by_key EffectKey_String) (pn_CompletedEffects input))
    (merge_sort (by_key EffectKey_String) (pn_Compensates input)) = true <->
  (pn_Kind input = PlanKindForward -> pn_Compensates input = []) /\
  (pn_Kind input = PlanKindCompensation ->
     pn_Revision input <> 1 /\ pn_Compensates input <> [] /\ pn_Compensates input ⊆ pn_CompletedEffects input).
Proof.
  intros Hk (_ & Hc%belong_all & _) (_ & Hs%belong_all & _). pose proof (merge_sort_Permutation (by_key EffectKey_String) (pn_CompletedEffects input)) as Pc.
  pose proof (merge_sort_Permutation (by_key EffectKey_String) (pn_Compensates input)) as Ps.
  assert (effectSetContainsAll (merge_sort (by_key EffectKey_String) (pn_CompletedEffects input))
    (merge_sort (by_key EffectKey_String) (pn_Compensates input)) = true <-> pn_Compensates input ⊆ pn_CompletedEffects input) as Hall.
  { rewrite (containsAll_ok (pn_Operation input)) by (by rewrite ?Pc, ?Ps). unfold subseteq, list_subseteq. by setoid_rewrite Pc; setoid_rewrite Ps. }
  destruct (pn_Kind input); [| |done]; unfold kind_allows.
  - rewrite sorted_empty. naive_solver.
  - rewrite negb_true, !orb_false_iff, negb_false, Hall, Z.eqb_neq, <- not_true_iff_false, sorted_empty. naive_solver.
Qed.
(** The kind's rule, as [ValidatePlan] writes it. *)
Lemma kind_rule kind revision completed compensates :
  negb (bool_decide (kind = PlanKindForward) && negb (llen compensates =? 0)
        || bool_decide (kind = PlanKindCompensation) &&
           ((revision =? 1) || (llen compensates =? 0) || negb (effectSetContainsAll completed compensates)))
  = kind_allows kind revision completed compensates.
Proof. destruct kind; simpl; by rewrite ?orb_false_r, ?negb_involutive. Qed.

Lemma formatDigest_nonempty d : String.eqb (formatDigest InputDigestPrefix d) "" = false.
Proof. unfold formatDigest. by destruct (dv_initialized d). Qed.

Lemma first_supersedes input : (pn_Revision input = 1 <-> pn_Supersedes input = None) ->
  Bool.eqb (pn_Revision input =? 1) (negb (is_some (pn_Supersedes input))) = true.
Proof. destruct (pn_Supersedes input), (Z.eqb_spec (pn_Revision input) 1); naive_solver. Qed.

Lemma known_supersedes input : (forall d, pn_Supersedes input = Some d -> dv_initialized d = true) ->
  match pn_Supersedes input with Some d => negb (dv_initialized d) | None => false end = false.
Proof. intros Hs. destruct (pn_Supersedes input); [by rewrite Hs | done]. Qed.

Lemma first_completed input : (pn_Revision input = 1 -> pn_CompletedEffects input = []) ->
  (pn_Revision input =? 1) && negb (llen (merge_sort (by_key EffectKey_String) (pn_CompletedEffects input)) =? 0) = false.
Proof. destruct (Z.eqb_spec (pn_Revision input) 1) as [E|E]; [by intros -> | done]. Qed.

(** What is built from an admissible basis is valid. *)
Lemma built_valid input : plan_admissible input -> ValidatePlan (built input) = true.
Proof.
  intros [Hid Hrev Hplanner Hop Hphase Hkind Hactor Hdec Hallow Hdes Hobs Hcap Hquota Hcost Hbind Hcomp Hcps Hfirst Hsup Hfc Hfwd Hcp].
  apply operation_valid in Hop as [Oid Ows Ores Obind Ogen]. apply principal_facts in Hactor as (Ka & Fi & Fw).
  apply ValidateDecision_iff, validateDecisionFields_facts in Hdec as [_ [Pi Pw] [Ii Iw] _ _].
  pose proof (canonical_effects (pn_Operation input) (built input) _ eq_refl eq_refl eq_refl eq_refl Hcomp) as Cc.
  pose proof (canonical_effects (pn_Operation input) (built input) _ eq_refl eq_refl eq_refl eq_refl Hcps) as Cs.
  pose proof (proj2 (kind_allows_ok input Hkind Hcomp Hcps) (conj Hfwd Hcp)) as Hallows.
  assert (equalDigest (pl_digest (built input)) (derivePlanDigest (built input)) = true) as Hdig
    by (apply equalDigest_refl).
  change (merge_sort _ (pn_CompletedEffects input)) with (pl_completedEffects (built input)) in Cc.
  change (merge_sort _ (pn_Compensates input)) with (pl_compensates (built input)) in Cs.
  unfold ValidatePlan. rewrite Hdig, Cc, Cs, kind_rule. unfold built, seal_plan, plan_basis. cbn [pl_initialized pl_id pl_revision pl_kind pl_operationID
    pl_workspaceID pl_resourceID pl_environmentID pl_connectionID pl_generation pl_plannerVersion pl_desired pl_observed
    pl_actorKind pl_actorFingerprint pl_policyVersion pl_authorizationInput pl_providerBinding pl_capability pl_quota pl_cost
    pl_supersedes pl_completedEffects pl_compensates pl_digest].
  unfold ParsePolicyVersion, ParseInputDigest. rewrite (proj2 (parsed_iff PolicyVersionPrefix _)), (proj2 (parsed_iff InputDigestPrefix _)) by done.
  rewrite Hid, Oid, Ows, Ores, Hplanner, Hkind, Hdes, Hobs, Hcap, Hquota, Hcost, Hallows, (fingerprint_projection _ _ Ka Fi Fw).
  rewrite (validVersion_digest PolicyVersionPrefix _ eq_refl eq_refl Pi Pw).
  assert (forall p, dv_initialized (derivePlanDigest p) = true) as Hinit by reflexivity.
  apply Z.eqb_neq in Hrev as ->. apply Z.ltb_ge in Ogen as ->. rewrite Hinit, formatDigest_nonempty, (first_supersedes _ Hfirst), (known_supersedes _ Hsup), (first_completed _ Hfc). clear -Obind Hbind. unfold binding_matches, validateBinding in *.
  destruct (op_EnvironmentID _) as [e|], (op_ProviderConnectionID _) as [c|], (pn_ProviderBinding input) as [b|]; try done.
  apply fail_if_ok, orb_false_iff in Obind as [He%negb_false Hc%negb_false]. destruct Hbind as [Hb ->].
  rewrite He, Hc, Hb, String.eqb_refl. done.
Qed.
Lemma result_unit_ok {E} (r : result E unit) : result_ok r = true <-> r = Ok tt.
Proof. destruct r as [[]|]; naive_solver. Qed.

Lemma NewPlan_ok input p : NewPlan input = Ok p <-> plan_admissible input /\ p = built input.
Proof.
  split.
  - intros E. unfold NewPlan in E.
    do 4 (let G := fresh "G" in apply bind_ok in E as (? & G%fail_if_ok & E)). apply bind_ok in E as ([] & Hb%validatePlanProviderBinding_ok & E).
    apply bind_ok in E as (c & [Hc ->]%canonicalEffectSet_ok & E). apply bind_ok in E as (? & Hfc%fail_if_ok & E).
    apply bind_ok in E as (s & [Hs ->]%canonicalEffectSet_ok & E). apply bind_ok in E as (? & Hk%fail_if_ok & E).
    apply bind_ok in E as (? & Hf%fail_if_ok & E). apply bind_ok in E as (? & Hd%fail_if_ok & E).
    destruct (ValidatePlan _); [|done]. injection E as <-. split; [|done].
    autorewrite with guards in *. rewrite !result_unit_ok in *. destruct_and!.
    apply kind_allows_ok in Hk as [Hk1 Hk2]; [|done..]. split; try done.
    + apply Bool.eqb_prop in Hf. destruct (pn_Supersedes input), (Z.eqb_spec (pn_Revision input) 1); naive_solver.
    + intros d Ed. rewrite Ed in Hd. by apply negb_false in Hd.
    + intros E1. rewrite (proj2 (Z.eqb_eq _ _) E1) in Hfc. apply sorted_empty. by apply negb_false in Hfc.
  - intros [Ha ->]. pose proof (built_valid input Ha) as Hv. destruct Ha.
    unfold NewPlan. rewrite pa_id0, pa_planner0, pa_operation0, pa_kind0, pa_actor0, pa_decision0, pa_allowed0, pa_desired0,
      pa_observed0, pa_capability0, pa_quota0, pa_cost0.
    change (terminalOperation (op_Phase (pn_Operation input))) with (terminal (op_Phase (pn_Operation input))).
    rewrite pa_phase0, (proj2 (Z.eqb_neq _ _) pa_revision0). cbn [negb result_ok orb fail_if mbind result_bind].
    rewrite (proj2 (validatePlanProviderBinding_ok _ _) pa_binding0), (proj2 (canonicalEffectSet_ok _ _ _) (conj pa_completed0 eq_refl)),
      (proj2 (canonicalEffectSet_ok _ _ _) (conj pa_compensates0 eq_refl)). cbn [mbind result_bind].
    rewrite (proj2 (kind_allows_ok input pa_kind0 pa_completed0 pa_compensates0) (conj pa_forward0 pa_compensation0)).
    fold (built input). rewrite Hv, (first_completed input pa_first_completed0), (first_supersedes input pa_first0),
      (known_supersedes input pa_supersedes0). done.
Qed.
(** The input with its effects listed otherwise. *)
Definition with_effects (input : PlanInput) (completed compensates : list EffectKey) : PlanInput :=
  PlI (pn_ID input) (pn_Revision input) (pn_Kind input) (pn_Operation input) (pn_PlannerVersion input) (pn_DesiredIntent input)
    (pn_ObservedSnapshot input) (pn_Actor input) (pn_Authorization input) (pn_ProviderBinding input) (pn_Capability input)
    (pn_Quota input) (pn_Cost input) (pn_Supersedes input) completed compensates.

(** C21: plans are made exactly from admissible bases.  [NewPlan] succeeds
    exactly when the operation is valid and not terminal, the actor valid, the
    decision valid and allowing, every evidence of its kind, the provider
    binding the operation's connection, the effects distinct effects of the
    operation, and revision, predecessor and kind agree; the plan records that
    basis with its effects sorted, its own final check never fails, and the
    order in which effects are listed does not matter. *)
Theorem plan_exact :
  (forall input p, NewPlan input = Ok p <-> plan_admissible input /\ p = built input) /\
  (forall input p, NewPlan input = Ok p -> ValidatePlan p = true) /\
  (forall input c s, pn_CompletedEffects input ≡ₚ c -> pn_Compensates input ≡ₚ s -> NewPlan (with_effects input c s) = NewPlan input).
Proof.
  split; [apply NewPlan_ok|]. split; [intros input p [Ha ->]%NewPlan_ok; by apply built_valid|].
  intros input c s Hc Hs. unfold NewPlan. cbn [with_effects pn_ID pn_Revision pn_Kind pn_Operation pn_PlannerVersion pn_DesiredIntent
    pn_ObservedSnapshot pn_Actor pn_Authorization pn_ProviderBinding pn_Capability pn_Quota pn_Cost pn_Supersedes pn_CompletedEffects pn_Compensates].
  by rewrite (canonicalEffectSet_perm _ _ _ Hc), (canonicalEffectSet_perm _ _ _ Hs).
Qed.
End Launching.

(** ** Dispatch *)

Lemma authority_ok dt plan attempt current decision pb cap quota cost h au h' :
  NewDispatchAuthority dt plan attempt current decision pb cap quota cost h = (Ok au, h') ->
  exists now use, normalizeTime dt = Some now /\ attempt_ready now plan attempt = true /\
    operation_current current plan (at_purpose attempt) = true /\ decision_current decision plan = true /\
    evidence_current pb cap quota cost plan = true /\
    au = DA true (pl_digest plan) (deriveAttemptDispatchBinding attempt)
           (formatDigest InputDigestPrefix (de_inputDigest decision))
           (formatDigest PolicyVersionPrefix (de_policyVersion decision)) now (Some use).
Proof.
  unfold NewDispatchAuthority. intros E. apply st_bind_ok in E as (now & s1 & [Hn ->]%lift_ok & E). apply of_option_ok in Hn.
  apply st_bind_ok in E as (? & s2 & [Hg ->]%reject_ok & E). apply st_bind_ok in E as (use & s3 & _ & E).
  injection E as <- <-. exists now, use. rewrite !orb_false_iff, !negb_false in Hg. naive_solver.
Qed.

(** Everything that must hold at the instant a dispatch is authorized. *)
Record dispatch_checked (now : time) (plan : Plan) (attempt : Attempt) (current : Operation) (decision : Decision)
    (pb : option ProviderBinding) (capability quota cost : Evidence) : Prop := {
  dc_plan : ValidatePlan plan = true;
  dc_attempt : ValidateAttempt attempt = true /\ at_state attempt = AttemptStatePrepared /\ at_preparedAt attempt <= now;
  dc_retry : at_retryValidUntil attempt <> 0 -> now < at_retryValidUntil attempt;
  dc_observation : at_observationDeadline attempt <> 0 -> now < at_observationDeadline attempt;
  dc_of_plan : at_planDigest attempt = pl_digest plan /\ at_planKind attempt = pl_kind plan /\ effectMatchesPlan (at_effect attempt) plan = true;
  dc_operation : Operation.Validate current = Ok tt /\ op_ID current = pl_operationID plan /\ op_WorkspaceID current = pl_workspaceID plan /\
    op_ResourceID current = pl_resourceID plan /\ op_Generation current = pl_generation plan /\
    op_EnvironmentID current = pl_environmentID plan /\ op_ProviderConnectionID current = pl_connectionID plan;
  dc_phase : op_Phase current = PhaseRunning \/
    op_Phase current = PhaseWaiting /\ (at_purpose attempt = AttemptPurposeObservation \/ at_purpose attempt = AttemptPurposeProviderCancel);
  dc_decision : ValidateDecision decision = Ok tt /\ Decision_Allowed decision = true;
  dc_recorded : formatDigest PolicyVersionPrefix (de_policyVersion decision) = pl_policyVersion plan /\
    formatDigest InputDigestPrefix (de_inputDigest decision) = pl_authorizationInput plan;
  dc_evidence : pb = pl_providerBinding plan /\ capability = pl_capability plan /\ quota = pl_quota plan /\ cost = pl_cost plan;
}.

Lemma phase_allows phase purpose : operationPhaseAllowsPurpose phase purpose = true ->
  phase = PhaseRunning \/ phase = PhaseWaiting /\ (purpose = AttemptPurposeObservation \/ purpose = AttemptPurposeProviderCancel).
Proof. unfold operationPhaseAllowsPurpose. destruct purpose; rewrite ?orb_true_iff, ?bool_decide_eq_true; naive_solver. Qed.

Lemma checks_ok now plan attempt current decision pb cap quota cost :
  attempt_ready now plan attempt = true -> operation_current current plan (at_purpose attempt) = true ->
  decision_current decision plan = true -> evidence_current pb cap quota cost plan = true ->
  dispatch_checked now plan attempt current decision pb cap quota cost.
Proof.
  unfold attempt_ready, operation_current, decision_current, evidence_current, optionalIDsEqual.
  rewrite !negb_true, !orb_false_iff, !negb_false, !andb_false_iff, !negb_false, !bool_decide_eq_true, !String.eqb_eq, !Z.eqb_eq,
    !Evidence_Equal_true, !result_unit_ok, !before_true, before_false.
  intros ((((((((A1 & A2) & A3) & A4) & A5) & A6) & A7) & A8) & A9) (((((((B1 & B2) & B3) & B4) & B5) & B6) & B7) & B8)
    (((C1 & C2) & C3) & C4) (((D1 & D2) & D3) & D4). apply equalDigest_true in A7 as (_ & _ & A7). split; try tauto.
  - intros Hz. destruct A5 as [A5|A5]; [|done]. unfold is_zero in A5. by apply Z.eqb_eq in A5.
  - intros Hz. destruct A6 as [A6|A6]; [|done]. unfold is_zero in A6. by apply Z.eqb_eq in A6.
  - by apply phase_allows.
  - split; [|tauto]. unfold providerBindingsEqual in D1. destruct pb as [b|], (pl_providerBinding plan) as [q|]; try done.
    apply ProviderBinding_Equal_true in D1 as [_ ->]. done.
Qed.

(** The lease of a token is current: the table's row for it is live and names its
    owner, fence and binding, and the token is the table's. *)
Definition lease_current (t : LeaseTable) (now : time) (token : LeaseToken) (row : leaseRow) : Prop :=
  tk_table token = lt_identity t /\ held_by t now token row.

(** C5: nothing is dispatched on stale checks.  If an authority was made for an
    attempt, a permit granted on it, and an attempt marked dispatched with the
    permit, then at the very instant the permit was granted the plan was valid
    and the attempt prepared for it and in time, the operation was the plan's
    and in a phase that allows the purpose, the decision allowed and was the one
    the plan recorded, and the provider binding and evidence were unchanged; the
    presented token was the table's and held the current, live lease row of the
    plan, the permit carries exactly that row, and the authority was unused and is
    used up; the dispatched attempt is the one checked (unless two preimages
    collide) and its owner and fence are the permit's; the dispatch lies before the
    permit's deadline, which keeps the safety margin to the end of that row, with
    the lease rechecked in the table then and the permit used up. *)
Theorem dispatch_chain (t0 t1 t2 : time) (plan : Plan) (attempt : Attempt) (current : Operation) (decision : Decision)
  (pb : option ProviderBinding) (capability quota cost : Evidence) (h h' : heap) (au : DispatchAuthority)
  (token : LeaseToken) (rpc : Z) (s s' w w' : heap * LeaseTable) (permit : DispatchPermit) (a d : Attempt)
  (Hauth : NewDispatchAuthority t0 plan attempt current decision pb capability quota cost h = (Ok au, h'))
  (Hpermit : LeaseTable_AuthorizeDispatch t1 token rpc au s = (Ok permit, s'))
  (Hmark : LeaseTable_MarkAttemptDispatched a permit t2 w = (Ok d, w'))
  (Sa : attempt_sized a) (Sb : attempt_sized attempt)
  (Hno_collision : sha256 (preimage (attempt_dispatch_frames a)) = sha256 (preimage (attempt_dispatch_frames attempt)) ->
                   preimage (attempt_dispatch_frames a) = preimage (attempt_dispatch_frames attempt)) :
  exists now at' row row' use use', normalizeTime t0 = Some now /\ normalizeTime t1 = Some now /\ normalizeTime t2 = Some at' /\
    dispatch_checked now plan attempt current decision pb capability quota cost /\
    lb_planDigest (tk_binding token) = pl_digest plan /\
    lease_current s.2 now token row /\ dp_token permit = tokenFromRow row (lt_identity s.2) /\
    da_use au = Some use /\ load_bool s.1 use = false /\ load_bool s'.1 use = true /\
    attempt_identity_eq a attempt /\ tk_ownerID (dp_token permit) = at_ownerID a /\ tk_fence (dp_token permit) = at_fence a /\
    d = attempt_moved a AttemptStateDispatched at' (at_resolvedAt a) /\ now <= at' < dp_deadline permit /\
    dp_deadline permit + DispatchSafetyMargin < tk_expiresAt (dp_token permit) /\
    lease_current w.2 at' (dp_token permit) row' /\
    dp_use permit = Some use' /\ load_bool w.1 use' = false /\ load_bool w'.1 use' = true.
Proof.
  apply authority_ok in Hauth as (now & use & Hn0 & Hready & Hop & Hdec & Hev & ->).
  pose proof (checks_ok _ _ _ _ _ _ _ _ _ Hready Hop Hdec Hev) as Hchecked. destruct s as [hs ts], s' as [hs' ts'], w as [hw tw], w' as [hw' tw'].
  apply Dispatch_spec in Hpermit as [_ Hp].
  destruct (Hp _ eq_refl) as (now' & row & l & Hn1 & Hheld & Htok & _ & Hbind & Hat & Hobs & _ & Hmargin & Huse & Hfresh & Hused & Hplan & Htable).
  cbn [da_observedAt da_attemptBinding da_planDigest] in *. rewrite <- Hobs in Hn1, Hat, Hheld.
  apply Mark_spec in Hmark as [_ Hm].
  destruct (Hm _ eq_refl) as (at' & row' & l' & Hn2 & Hheld' & Hva & _ & Hd & _ & Hwin & _ & _ & Hab & Ho & Hf & Hu & Hfr & Hus & Htable').
  destruct (dc_attempt _ _ _ _ _ _ _ _ _ Hchecked) as [Hvb _]. apply equalDigest_true in Hplan as (_ & _ & Hplan), Hab as (_ & _ & Hab).
  exists now, at', row, row', l, l'. rewrite Hat in Hwin.
  assert (tk_expiresAt (dp_token permit) = lr_expiresAt row) as -> by (by rewrite Htok).
  repeat (split; [done|]). split; [|done]. rewrite Hbind in Hab. symmetry in Hab.
  unfold deriveAttemptDispatchBinding, digestFromHasher in Hab. apply (f_equal dv_digest) in Hab. cbn [dv_digest] in Hab.
  apply Hno_collision, preimage_inj in Hab; [|apply Sa|apply Sb]. by apply attempt_frames_inj.
Qed.

(** The operation of the sample plan, running, and the decision it records. *)
Definition l_operation (phase : Phase) : Operation :=
  Op s_operation s_workspace s_resource None None 1 "v1" phase "" "" None "2025-12-31T23:59:00.000Z" "2026-01-01T00:00:00.000Z".
Definition l_decision : Decision := Dec true (s_digest 3) (s_digest 4) EffectAllow ReasonRoleGranted.

Definition l_authority : DispatchAuthority :=
  DA true (pl_digest s_plan) (deriveAttemptDispatchBinding s_prepared) (pl_authorizationInput s_plan) (pl_policyVersion s_plan)
    (s_now + second) (Some 2%positive).

Definition l_heap : heap := w_heap (history s_world s_acquired).
Definition l_table : LeaseTable := w_table (history s_world s_acquired).

Definition l_permit : DispatchPermit :=
  DP true s_token (deriveAttemptDispatchBinding s_prepared) (s_now + second) (s_now + 11 * second) (Some 3%positive).

Definition l_minted := NewDispatchAuthority (s_now + second) s_plan s_prepared (l_operation PhaseRunning) l_decision None
  (s_evidence EvidenceCapability 5) (s_evidence EvidenceQuota 6) (s_evidence EvidenceCost 7) l_heap.
Definition l_granted := LeaseTable_AuthorizeDispatch (s_now + second) s_token (10 * second) l_authority (l_minted.2, l_table).
Definition l_marked := LeaseTable_MarkAttemptDispatched s_prepared l_permit (s_now + 2 * second) l_granted.2.
Definition l_dispatched : Attempt := attempt_moved s_prepared AttemptStateDispatched (s_now + 2 * second) 0.

Lemma dispatch_chain_witness :
  lb_planDigest (tk_binding s_token) = pl_digest s_plan /\ attempt_identity_eq s_prepared s_prepared.
Proof.
  assert (attempt_sized s_prepared) as Hsz.
  { split; [vm_compute; split; discriminate|vm_compute; split; discriminate|].
    repeat constructor; unfold frame_sized; vm_compute; discriminate. }
  assert (l_minted = (Ok l_authority, l_minted.2)) as H1 by (vm_compute; reflexivity).
  assert (l_granted = (Ok l_permit, l_granted.2)) as H2 by (vm_compute; reflexivity).
  assert (l_marked = (Ok l_dispatched, l_marked.2)) as H3 by (vm_compute; reflexivity).
  destruct (dispatch_chain (s_now + second) (s_now + second) (s_now + 2 * second) s_plan s_prepared (l_operation PhaseRunning)
    l_decision None (s_evidence EvidenceCapability 5) (s_evidence EvidenceQuota 6) (s_evidence EvidenceCost 7) l_heap l_minted.2
    l_authority s_token (10 * second) _ _ _ _ l_permit s_prepared l_dispatched H1 H2 H3 Hsz Hsz (fun _ => eq_refl))
    as (now & at' & row & row' & use & use' & _ & _ & _ & _ & Hp & _ & _ & _ & _ & _ & Ha & _).
  exact (conj Hp Ha).
Defined.

(** ** Cancellation *)

Definition unresolved (a : Attempt) : bool :=
  match at_state a with AttemptStatePrepared | AttemptStateDispatched => true | _ => false end.
Definition indeterminate (a : Attempt) : bool :=
  match at_state a with AttemptStateIndeterminate => true | _ => false end.

(** The attempts are valid attempts of the operation, each listed once. *)
Definition attempt_belongs (current : Operation) (a : Attempt) : Prop :=
  ValidateAttempt a = true /\ ek_operationID (at_effect a) = op_ID current /\ ek_workspaceID (at_effect a) = op_WorkspaceID current /\
  ek_resourceID (at_effect a) = op_ResourceID current /\ ek_generation (at_effect a) = op_Generation current.

Lemma attempt_of_operation_ok current a : attempt_of_operation current a = true <-> attempt_belongs current a.
Proof. unfold attempt_of_operation, attempt_belongs. autorewrite with guards. tauto. Qed.

Definition attempts_consistent (current : Operation) (attempts : list Attempt) : Prop :=
  Forall (attempt_belongs current) attempts /\ NoDup (at_id <$> attempts) /\ NoDup (at_ordinal <$> attempts).

(** Nothing about the external world is still open. *)
Definition settled (attempts : list Attempt) (cleanupDurable quarantineDurable : bool) : bool :=
  cleanupDurable && negb (existsb unresolved attempts) && (negb (existsb indeterminate attempts) || quarantineDurable).

Lemma see_attempts_flags current ats : forall seen out, see_attempts current ats seen = Ok out ->
  hasUnresolved out = hasUnresolved seen || existsb unresolved ats /\
  hasIndeterminate out = hasIndeterminate seen || existsb indeterminate ats.
Proof.
  induction ats as [|a ats IH]; intros seen out E; [injection E as <-; by rewrite !orb_false_r|]. cbn [see_attempts] in E.
  do 3 apply bind_ok in E as (? & _ & E). apply IH in E as [-> ->]. cbn [hasUnresolved hasIndeterminate existsb].
  unfold unresolved, indeterminate. by destruct (at_state a), (hasUnresolved seen), (hasIndeterminate seen).
Qed.

Lemma see_attempts_ok current ats : forall seen, result_ok (see_attempts current ats seen) = true <->
  attempts_consistent current ats /\ (forall a, a ∈ ats -> at_id a ∉ seen_ids seen /\ at_ordinal a ∉ seen_ordinals seen).
Proof.
  unfold attempts_consistent. induction ats as [|a ats IH]; intros seen.
  - simpl. split; [intros _|done]. split; [split; [by apply Forall_nil_2 | split; apply NoDup_nil_2] | intros b Hb; by apply elem_of_nil in Hb].
  - cbn [see_attempts]. rewrite !fmap_cons, Forall_cons, !NoDup_cons. split.
    + intros E. apply result_ok_true in E as (out & E).
      apply bind_ok in E as (? & Ha%fail_if_ok & E). apply bind_ok in E as (? & Hi%fail_if_ok & E). apply bind_ok in E as (? & Ho%fail_if_ok & E).
      apply negb_false, attempt_of_operation_ok in Ha. apply bool_decide_eq_false in Hi, Ho.
      assert (result_ok (see_attempts current ats _) = true) as Hok by (apply result_ok_true; by exists out).
      apply IH in Hok as ((Hf & Hd & Hd') & Hfresh). cbn [seen_ids seen_ordinals] in Hfresh.
      split; [split; [done|]; split; split; try done|].
      * intros (b & Eb & Hb)%list_elem_of_fmap. destruct (Hfresh b Hb) as [Hn _]. apply Hn. rewrite <- Eb. set_solver.
      * intros (b & Eb & Hb)%list_elem_of_fmap. destruct (Hfresh b Hb) as [_ Hn]. apply Hn. rewrite <- Eb. set_solver.
      * intros b [->|Hb]%elem_of_cons; [done|]. destruct (Hfresh b Hb). set_solver.
    + intros (((Ha%attempt_of_operation_ok & Hf) & (Hia & Hd) & (Hoa & Hd')) & Hfresh). destruct (Hfresh a) as [Hi Ho]; [by left|].
      rewrite Ha, (bool_decide_eq_false_2 _ Hi), (bool_decide_eq_false_2 _ Ho). cbn [negb fail_if mbind result_bind].
      apply IH. split; [done|]. intros b Hb. cbn [seen_ids seen_ordinals]. destruct (Hfresh b) as [Hib Hob]; [by right|].
      assert (at_id b <> at_id a) by (intros E; apply Hia; rewrite <- E; by apply list_elem_of_fmap_2).
      assert (at_ordinal b <> at_ordinal a) by (intros E; apply Hoa; rewrite <- E; by apply list_elem_of_fmap_2).
      set_solver.
Qed.

Lemma Cancellation_ok current owner ats cleanup quarantine : Operation.Validate current = Ok tt -> terminal (op_Phase current) = false ->
  forall out, CancellationPublicState current owner ats cleanup quarantine = Ok out <->
  attempts_consistent current ats /\
  out = (if settled ats cleanup quarantine then (PhaseCanceled, WorkReasonNone)
         else (if owner then PhaseRunning else PhaseWaiting, WorkReasonCancelPending)).
Proof.
  intros Hv Ht out. unfold CancellationPublicState. rewrite Hv. cbn [result_ok negb fail_if mbind result_bind].
  change (terminalOperation (op_Phase current)) with (terminal (op_Phase current)). rewrite Ht.
  pose proof (see_attempts_ok current ats (Seen false false ∅ ∅)) as Hok.
  pose proof (see_attempts_flags current ats (Seen false false ∅ ∅)) as Hflags. cbn [seen_ids seen_ordinals hasUnresolved hasIndeterminate] in *.
  destruct (see_attempts current ats _) as [seen|e]; cbn [mbind result_bind result_ok] in *.
  - destruct (Hflags seen eq_refl) as [-> ->]. destruct (proj1 Hok eq_refl) as [Hc _]. unfold settled.
    assert (forall x y : Phase * WorkReason, Ok (E := Vocabulary.error) x = Ok y <-> y = x) as Hinj by naive_solver.
    destruct cleanup, (existsb unresolved ats), (existsb indeterminate ats), quarantine; cbn [negb andb orb]; rewrite Hinj; naive_solver.
  - split; [done|]. intros [Hc _]. exfalso. assert (false = true) by (apply Hok; split; [done|]; set_solver). done.
Qed.

(** C32: cancellation reports exactly what is known.  A terminal operation is
    reported as it is.  Otherwise a state is reported exactly when every attempt
    is a valid attempt of this operation and generation, with distinct IDs and
    ordinals; it is Canceled exactly when cleanup is durable, no attempt is
    prepared or dispatched, and an indeterminate one is quarantined, and is
    otherwise a pending cancellation.  Every phase reported, here and for an
    indeterminate outcome, is the current one or a move of the operation's own
    state machine. *)
Theorem cancellation_exact (current : Operation) (owner : bool) (attempts : list Attempt) (cleanup quarantine : bool)
  (Hv : Operation.Validate current = Ok tt) :
  (terminal (op_Phase current) = true ->
     CancellationPublicState current owner attempts cleanup quarantine = Ok (op_Phase current, WorkReasonNone)) /\
  (terminal (op_Phase current) = false -> forall out,
     CancellationPublicState current owner attempts cleanup quarantine = Ok out <->
     attempts_consistent current attempts /\
     out = (if settled attempts cleanup quarantine then (PhaseCanceled, WorkReasonNone)
            else (if owner then PhaseRunning else PhaseWaiting, WorkReasonCancelPending))) /\
  (forall phase reason, CancellationPublicState current owner attempts cleanup quarantine = Ok (phase, reason) ->
     phase = op_Phase current \/ allowedTransition (op_Phase current) phase = true) /\
  (terminal (op_Phase current) = false ->
     fst IndeterminatePublicState = op_Phase current \/ allowedTransition (op_Phase current) (fst IndeterminatePublicState) = true).
Proof.
  assert (validPhase (op_Phase current) = true) as Hp by (by apply Validate_facts).
  assert (terminal (op_Phase current) = true ->
     CancellationPublicState current owner attempts cleanup quarantine = Ok (op_Phase current, WorkReasonNone)) as Hterm.
  { intros Ht. unfold CancellationPublicState. rewrite Hv. cbn [result_ok negb fail_if mbind result_bind].
    change (terminalOperation (op_Phase current)) with (terminal (op_Phase current)). by rewrite Ht. }
  split; [exact Hterm|]. split; [by apply Cancellation_ok|]. split.
  - intros phase reason E. destruct (terminal (op_Phase current)) eqn:Ht.
    + rewrite (Hterm eq_refl) in E. injection E as <- <-. by left.
    + apply Cancellation_ok in E as [_ E]; [|done..].
      destruct (settled _ _ _), owner; injection E as -> ->; destruct (op_Phase current); try done; auto.
  - intros Ht. destruct (op_Phase current); try done; auto.
Qed.

Definition l_crashed : Attempt := attempt_moved s_prepared AttemptStateIndeterminate 0 (s_now + second).

Lemma cancellation_exact_witness :
  CancellationPublicState (l_operation PhaseRunning) false [l_crashed] true true = Ok (PhaseCanceled, WorkReasonNone) /\
  CancellationPublicState (l_operation PhaseRunning) false [l_crashed] true false = Ok (PhaseWaiting, WorkReasonCancelPending).
Proof.
  assert (Operation.Validate (l_operation PhaseRunning) = Ok tt) as Hv by (vm_compute; reflexivity).
  assert (attempts_consistent (l_operation PhaseRunning) [l_crashed]) as Hc.
  { split; [|split; apply NoDup_singleton]. apply Forall_singleton, attempt_of_operation_ok. vm_compute. reflexivity. }
  split.
  - exact (proj2 (proj1 (proj2 (cancellation_exact _ false [l_crashed] true true Hv)) eq_refl _) (conj Hc eq_refl)).
  - exact (proj2 (proj1 (proj2 (cancellation_exact _ false [l_crashed] true false Hv)) eq_refl _) (conj Hc eq_refl)).
Defined.

(** A second plan of a running operation, after two effects were applied. *)
Definition l_input (completed : list EffectKey) : PlanInput :=
  PlI s_plan_id2 2 PlanKindForward (l_operation PhaseRunning) "planner.v1" (s_evidence EvidenceDesiredIntent 1)
    (s_evidence EvidenceObservedSnapshot 2) s_principal l_decision None (s_evidence EvidenceCapability 5)
    (s_evidence EvidenceQuota 6) (s_evidence EvidenceCost 7) (Some (s_digest 9)) completed [].

Definition l_plan : Plan := Eval vm_compute in built (l_input [s_effect; s_effect2]).

Lemma plan_exact_witness :
  NewPlan (H := s_uris) (l_input [s_effect; s_effect2]) = Ok l_plan /\ ValidatePlan l_plan = true /\
  NewPlan (H := s_uris) (l_input [s_effect2; s_effect]) = Ok l_plan.
Proof.
  destruct (plan_exact (H := s_uris)) as (_ & H2 & H3).
  assert (NewPlan (H := s_uris) (l_input [s_effect; s_effect2]) = Ok l_plan) as Hn by (vm_compute; reflexivity).
  split; [exact Hn|]. split; [exact (H2 _ _ Hn)|].
  rewrite <- Hn. exact (H3 (l_input [s_effect; s_effect2]) [s_effect2; s_effect] [] (perm_swap _ _ []) (Permutation_refl [])).
Defined.

(** ** Idempotency scopes *)

Section Scopes.
Context `{RequestURIs}.

Lemma principal_sizes p : ValidatePrincipal p = Ok tt ->
  frame_sized (Kind_String (pr_kind p)) /\ frame_sized (li_issuer (pr_logicalIdentity p)) /\ frame_sized (li_subject (pr_logicalIdentity p)) /\
  NewLogicalIdentity (li_issuer (pr_logicalIdentity p)) (li_subject (pr_logicalIdentity p)) = Ok (pr_logicalIdentity p).
Proof.
  intros Hv. destruct (principal_facts p Hv) as (Hk & _ & _). unfold ValidatePrincipal, in_principal in Hv. apply map_err_ok in Hv.
  apply bind_ok in Hv as (? & _ & Hv). apply bind_ok in Hv as ([] & Hl & _). apply logical_valid in Hl as Hnew.
  unfold ValidateLogicalIdentity in Hl. apply bind_ok in Hl as (? & Hi%fail_if_ok & Hl). apply bind_ok in Hl as (? & Hs%fail_if_ok & _).
  apply negb_false in Hi, Hs. unfold validateIssuer, validateClaim, MaxIssuerBytes in Hi. unfold validateSubject, MaxSubjectBytes in Hs.
  autorewrite with guards in Hi, Hs. unfold frame_sized, max_uint64. split; [by destruct (pr_kind p)|]. destruct_and!. split; [lia|]. split; [lia|done].
Qed.

(** A scope stands for one caller, method and target.  A scope is made
    exactly for a valid principal, a mutating method and a bounded non-empty
    target; it does not depend on the principal's audiences, groups or workload;
    and equal scopes have the same kind of principal, the same logical identity,
    method and target, unless their preimages are a SHA-256 collision. *)
Theorem idempotency_scope_binds :
  (forall p m t s, NewIdempotencyScope p m t = Ok s <->
     ValidatePrincipal p = Ok tt /\ validMutationMethod m = true /\ 1 <= slen t <= MaxEvidenceBytes /\
     s = IS true (digestFromHasher (scope_frames p m t))) /\
  (forall p q m t s, ValidatePrincipal q = Ok tt -> pr_kind p = pr_kind q -> pr_logicalIdentity p = pr_logicalIdentity q ->
     NewIdempotencyScope p m t = Ok s -> NewIdempotencyScope q m t = Ok s) /\
  (forall p q m n t u s r, NewIdempotencyScope p m t = Ok s -> NewIdempotencyScope q n u = Ok r -> IdempotencyScope_Equal s r = true ->
     (sha256 (preimage (scope_frames p m t)) = sha256 (preimage (scope_frames q n u)) ->
      preimage (scope_frames p m t) = preimage (scope_frames q n u)) ->
     pr_kind p = pr_kind q /\ pr_logicalIdentity p = pr_logicalIdentity q /\ m = n /\ t = u).
Proof.
  assert (forall p m t s, NewIdempotencyScope p m t = Ok s <->
     ValidatePrincipal p = Ok tt /\ validMutationMethod m = true /\ 1 <= slen t <= MaxEvidenceBytes /\
     s = IS true (digestFromHasher (scope_frames p m t))) as Hok.
  { intros p m t s. unfold NewIdempotencyScope. rewrite <- result_unit_ok. pose proof (slen_nonneg t).
    destruct (result_ok (ValidatePrincipal p)), (validMutationMethod m), (Z.eqb_spec (slen t) 0), (Z.ltb_spec MaxEvidenceBytes (slen t));
      cbn [negb orb]; split; intros E; try done; try (by injection E as <-; repeat split; lia); destruct E as (? & ? & ? & ->); try done; lia. }
  split; [exact Hok|]. split.
  - intros p q m t s Hq Hk Hl (Hp & Hm & Ht & ->)%Hok. apply Hok. split; [done|]. split; [done|]. split; [done|].
    unfold scope_frames. by rewrite Hk, Hl.
  - intros p q m n t u s r (Hp & Hm & Ht & ->)%Hok (Hq & Hn & Hu & ->)%Hok E Hno.
    unfold IdempotencyScope_Equal in E. rewrite !andb_true_iff in E. destruct E as [_ E]. cbn [is_digest] in E.
    apply equalDigest_true in E as (_ & _ & E). apply (f_equal dv_digest) in E. unfold digestFromHasher in E. cbn [dv_digest] in E.
    destruct (principal_facts p Hp) as (Kp & _ & _). destruct (principal_facts q Hq) as (Kq & _ & _).
    destruct (principal_sizes p Hp) as (P1 & P2 & P3 & Lp). destruct (principal_sizes q Hq) as (Q1 & Q2 & Q3 & Lq).
    assert (forall v, validMutationMethod v = true -> frame_sized v) as Hms.
    { intros v Hv. unfold validMutationMethod in Hv. rewrite !orb_true_iff, !String.eqb_eq in Hv. destruct Hv as [[[->| ->]| ->]| ->]; vm_compute; discriminate. }
    assert (forall v, 1 <= slen v <= MaxEvidenceBytes -> frame_sized v) as Hts
      by (intros v Hv; unfold frame_sized, MaxEvidenceBytes, max_uint64 in *; lia).
    apply Hno, preimage_inj in E.
    + unfold scope_frames in E. injection E as Ek Ei Es -> ->. apply Kind_String_inj in Ek; [|by destruct (pr_kind p)|by destruct (pr_kind q)].
      rewrite Ei, Es in Lp. rewrite Lp in Lq. by injection Lq as ->.
    + unfold scope_frames. repeat apply Forall_cons_2; auto; try apply Forall_nil_2; vm_compute; discriminate.
    + unfold scope_frames. repeat apply Forall_cons_2; auto; try apply Forall_nil_2; vm_compute; discriminate.
Qed.
End Scopes.

Definition l_scope : IdempotencyScope := IS true (digestFromHasher (scope_frames s_principal "POST" "/v1/workspaces")).

Lemma idempotency_scope_binds_witness :
  NewIdempotencyScope (H := s_uris) s_principal "POST" "/v1/workspaces" = Ok l_scope /\
  NewIdempotencyScope (H := s_uris) (Pr KindHuman s_logical ["veer"] [] None) "POST" "/v1/workspaces" = Ok l_scope.
Proof.
  destruct (idempotency_scope_binds (H := s_uris)) as (_ & H2 & _).
  assert (NewIdempotencyScope (H := s_uris) s_principal "POST" "/v1/workspaces" = Ok l_scope) as Hs by (vm_compute; reflexivity).
  split; [exact Hs|]. refine (H2 s_principal _ _ _ l_scope _ eq_refl eq_refl Hs). vm_compute. reflexivity.
Defined.
