(* ===== verification/Administration.v ===== *)
(** * Privileged elevation (administration/*.go, authentication/*.go)

    A configured human administrator obtains a one-use grant for one action on
    one sealed target, after a strong-authentication proof.  The ledger owns
    every grant; copies of a grant are handles to its record.

    [Issue] verifies outside the lock, samples the clock, and then commits
    under the lock; [Issue_request], [Issue_proof], [sampleIssuanceClock] and
    [Issue_commit] are those parts, so that calls interleave between them.
    [StateAt], [Consume] and [Revoke] hold the lock throughout. *)

From S2P Require Import Prelude Bytes GoTime Calendar Closed Condition Digests Hierarchy Identity AuthzVocabulary Authorization.
From S2P Require Import Control Operation.
From Stdlib Require Import Ascii String.

(** [context.Canceled] and [context.DeadlineExceeded]. *)
Inductive contextError := Canceled | DeadlineExceeded.

(** [authentication.StrongAuthenticationError]: a [uint8] with two classes. *)
Inductive StrongAuthenticationError :=
| ErrStrongAuthenticationInvalid
| ErrStrongAuthenticationUnavailable
| ErrStrongAuthenticationOther (raw : Z).

#[export] Instance StrongAuthenticationError_eq : EqDecision StrongAuthenticationError.
Proof. solve_decision. Defined.

Inductive error :=
| ErrInvalidAdministrator
| ErrAdministratorNotHuman
| ErrAdministratorNotRegistered
| ErrDuplicateAdministratorID
| ErrDuplicateAdministrator
| ErrTooManyAdministrators
| ErrInvalidAction
| ErrInvalidTarget
| ErrActionTargetMismatch
| ErrInvalidElevationRequest
| ErrInvalidGrantID
| ErrInvalidReason
| ErrInvalidCaseReference
| ErrInvalidElevationDuration
| ErrIdentityMismatch
| ErrStrongAuthProofReplayed
| ErrInvalidLedger
| ErrElevationLedgerFull
| ErrDuplicateGrantID
| ErrGrantNotFound
| ErrGrantMismatch
| ErrGrantConsumed
| ErrGrantRevoked
| ErrGrantExpired
| ErrGrantScopeMismatch
| ErrInvalidClock
| ErrClockRegressed
| ErrSerializationForbidden
| ErrStrong (failure : StrongAuthenticationError)
| ErrContext (failure : contextError)
| ErrWrap (outer inner : error).

Definition ErrStrongInvalid : error := ErrStrong ErrStrongAuthenticationInvalid.
Definition ErrStrongUnavailable : error := ErrStrong ErrStrongAuthenticationUnavailable.

(** An error a verifier returns, as [errors.Is] sees it: the strong
    authentication errors of its chain. *)
Definition ClassifyStrongAuthenticationError (chain : list StrongAuthenticationError) : option StrongAuthenticationError :=
  if bool_decide (ErrStrongAuthenticationInvalid ∈ chain) then Some ErrStrongAuthenticationInvalid
  else if bool_decide (ErrStrongAuthenticationUnavailable ∈ chain) then Some ErrStrongAuthenticationUnavailable
  else None.

(** ** Bearer credentials *)

Definition MaxBearerTokenBytes : Z := 8192.

Definition validBearerByte (c : ascii) : bool := is_lower c || is_upper c || is_digit c || one_of "-._~+/" c.

(** The loop of [validBearerToken]: after the first [=] only [=] follows. *)
Fixpoint bearer_bytes (first padding : bool) (token : string) : bool :=
  match token with
  | EmptyString => true
  | String c rest =>
      if Ascii.eqb c "="%char then negb first && bearer_bytes false true rest
      else negb (padding || negb (validBearerByte c)) && bearer_bytes false padding rest
  end.

Definition validBearerToken (token : string) : bool :=
  negb (String.eqb token "" || (MaxBearerTokenBytes <? slen token)) && bearer_bytes true false token.

(** ** Vocabulary *)

Definition MaxAdministrators : Z := 64.
Definition MaxTrackedElevations : Z := 1000.
Definition MaxReasonRunes : Z := 256.
Definition MaxCaseReferenceRunes : Z := 128.
Definition MaxStrongAuthProofAge : Z := 5 * minute.
Definition MaxElevationDuration : Z := 15 * minute.
Definition timestampResolution : Z := millisecond.

Definition eligibleActions : list Action := [ActionAuditExport; ActionOperationQuarantine; ActionWorkRedrive].

Definition validAction (action : Action) : bool := existsb (fun candidate => bool_decide (action = candidate)) eligibleActions.

Inductive TargetKind :=
| TargetKindPlatformAudit
| TargetKindWorkspaceAudit
| TargetKindOperation
| TargetKindOther (raw : string).

#[export] Instance TargetKind_eq : EqDecision TargetKind.
Proof. solve_decision. Defined.

Definition validTargetKind (kind : TargetKind) : bool := match kind with TargetKindOther _ => false | _ => true end.

Inductive GrantState := GrantStateActive | GrantStateConsumed | GrantStateRevoked | GrantStateExpired.

#[export] Instance GrantState_eq : EqDecision GrantState.
Proof. solve_decision. Defined.

(** [normalizeContractTime] is [normalizeTime] with the error [ErrInvalidClock];
    instants carry no location, every one the package stores is in UTC. *)
Definition normalizeContractTime (value : time) : result error time := of_option (normalizeTime value) ErrInvalidClock.

Definition canonicalContractTime (value : time) : bool :=
  match normalizeContractTime value with
  | Ok normalized => (value mod timestampResolution =? 0) && time_equal value normalized
  | Err _ => false
  end.

Definition validBoundedText (value : string) (minimum maximum : Z) : bool :=
  negb ((maximum * UTFMax <? slen value) || negb (utf8_valid value) || negb (trimmed value)) &&
  negb ((llen (runes value) <? minimum) || (maximum <? llen (runes value))) &&
  forallb (fun r => negb (IsControl r)) (runes value).

(** ** Targets *)

Record Target := ATg {
  at_initialized : bool;
  at_kind : TargetKind;
  at_objectID : option ID;
  at_workspaceID : option ID;
  at_resourceID : option ID;
  at_environmentID : option ID;
  at_providerConnectionID : option ID;
}.

#[export] Instance Target_eq : EqDecision Target.
Proof. solve_decision. Defined.

Definition valid_optional (id : option ID) : bool := match id with Some value => validID value | None => true end.

(** [ValidateTarget]; its error is [ErrInvalidTarget]. *)
Definition ValidateTarget (target : Target) : bool :=
  at_initialized target && validTargetKind (at_kind target) &&
  forallb valid_optional [at_objectID target; at_workspaceID target; at_resourceID target; at_environmentID target;
                          at_providerConnectionID target] &&
  match at_kind target with
  | TargetKindPlatformAudit =>
      negb (is_some (at_objectID target) || is_some (at_workspaceID target) || is_some (at_resourceID target)
            || is_some (at_environmentID target) || is_some (at_providerConnectionID target))
  | TargetKindWorkspaceAudit =>
      match at_objectID target, at_workspaceID target, at_resourceID target with
      | Some object, Some workspace, Some resource =>
          negb (is_some (at_environmentID target) || is_some (at_providerConnectionID target)
                || negb (String.eqb object workspace) || negb (String.eqb resource workspace))
      | _, _, _ => false
      end
  | TargetKindOperation =>
      is_some (at_objectID target) && is_some (at_workspaceID target) && is_some (at_resourceID target) &&
      Bool.eqb (is_some (at_environmentID target)) (is_some (at_providerConnectionID target))
  | TargetKindOther _ => false
  end.

Definition newTarget (kind : TargetKind) (objectID workspaceID resourceID environmentID providerConnectionID : option ID)
    : result error Target :=
  let target := ATg true kind objectID workspaceID resourceID environmentID providerConnectionID in
  if ValidateTarget target then Ok target else Err ErrInvalidTarget.

Definition ResolvePlatformAuditExportTarget : Target := ATg true TargetKindPlatformAudit None None None None None.

Definition sealing {E A} (r : result E A) : result error A := map_err (fun _ => ErrInvalidTarget) r.

Definition ResolveWorkspaceAuditExportTarget (snapshot : Snapshot) : result error Target :=
  let workspaceID := s_workspaceID snapshot in
  workspace ← sealing (Snapshot_Lookup snapshot workspaceID);
  fail_if (negb (bool_decide (r_kind workspace = KindWorkspace)) || negb (String.eqb (r_id workspace) workspaceID)
           || negb (String.eqb (r_workspaceID workspace) workspaceID)) ErrInvalidTarget;;
  newTarget TargetKindWorkspaceAudit (Some workspaceID) (Some workspaceID) (Some workspaceID) None None.

(** The provider connection an operation names, with its environment. *)
Definition bound_connection (snapshot : Snapshot) (value : Operation) : result error (option ID) :=
  match op_ProviderConnectionID value with
  | None => Ok None
  | Some connection =>
      provider ← sealing (Snapshot_Lookup snapshot connection);
      fail_if (negb (bool_decide (r_kind provider = KindProviderConnection))
               || negb (String.eqb (r_workspaceID provider) (op_WorkspaceID value))
               || negb (is_some (op_EnvironmentID value))) ErrInvalidTarget;;
      fail_if (negb (is_some (r_parent provider)) || negb (bool_decide (r_parent provider = op_EnvironmentID value)))
        ErrInvalidTarget;;
      Ok (Some connection)
  end.

Definition ResolveOperationTarget (snapshot : Snapshot) (value : Operation) : result error Target :=
  sealing (Operation.Validate value);;
  fail_if (negb (String.eqb (s_workspaceID snapshot) (op_WorkspaceID value))) ErrInvalidTarget;;
  retained ← sealing (Snapshot_Lookup snapshot (op_ResourceID value));
  fail_if (negb (String.eqb (r_workspaceID retained) (op_WorkspaceID value))) ErrInvalidTarget;;
  resolved ← sealing (ResolveResourceTarget snapshot (op_ResourceID value));
  fail_if (negb (String.eqb (tg_workspaceID resolved) (op_WorkspaceID value))) ErrInvalidTarget;;
  fail_if (is_some (op_EnvironmentID value)
           && (negb (is_some (tg_environmentID resolved))
               || negb (bool_decide (tg_environmentID resolved = op_EnvironmentID value)))) ErrInvalidTarget;;
  providerID ← bound_connection snapshot value;
  newTarget TargetKindOperation (Some (op_ID value)) (Some (op_WorkspaceID value)) (Some (op_ResourceID value))
    (op_EnvironmentID value) providerID.

Definition validActionTarget (action : Action) (target : Target) : bool :=
  validAction action && ValidateTarget target &&
  match action with
  | ActionAuditExport =>
      bool_decide (at_kind target = TargetKindPlatformAudit) || bool_decide (at_kind target = TargetKindWorkspaceAudit)
  | ActionOperationQuarantine | ActionWorkRedrive => bool_decide (at_kind target = TargetKindOperation)
  | _ => false
  end.

Definition equalTarget (left right : Target) : bool :=
  ValidateTarget left && ValidateTarget right && bool_decide (at_kind left = at_kind right) &&
  bool_decide (at_objectID left = at_objectID right) && bool_decide (at_workspaceID left = at_workspaceID right) &&
  bool_decide (at_resourceID left = at_resourceID right) && bool_decide (at_environmentID left = at_environmentID right) &&
  bool_decide (at_providerConnectionID left = at_providerConnectionID right).

(** ** Grants and receipts *)

Record Grant := AGr {
  gr_initialized : bool;
  gr_id : ID;
  gr_administratorID : ID;
  gr_proofID : ID;
  gr_action : Action;
  gr_target : Target;
  gr_reason : string;
  gr_caseReference : string;
  gr_issuedAt : time;
  gr_expiresAt : time;
}.

Definition valid_case (reference : string) : bool :=
  String.eqb reference "" || validBoundedText reference 1 MaxCaseReferenceRunes.

Definition validGrant (grant : Grant) : bool :=
  gr_initialized grant && validID (gr_id grant) && validID (gr_administratorID grant) && validID (gr_proofID grant) &&
  validActionTarget (gr_action grant) (gr_target grant) && validBoundedText (gr_reason grant) 1 MaxReasonRunes &&
  valid_case (gr_caseReference grant) && canonicalContractTime (gr_issuedAt grant) &&
  canonicalContractTime (gr_expiresAt grant) && after (gr_expiresAt grant) (gr_issuedAt grant) &&
  let duration := time_sub (gr_expiresAt grant) (gr_issuedAt grant) in
  (duration <=? MaxElevationDuration) && (duration mod timestampResolution =? 0).

Definition equalGrant (left right : Grant) : bool :=
  validGrant left && validGrant right && String.eqb (gr_id left) (gr_id right) &&
  String.eqb (gr_administratorID left) (gr_administratorID right) && String.eqb (gr_proofID left) (gr_proofID right) &&
  bool_decide (gr_action left = gr_action right) && equalTarget (gr_target left) (gr_target right) &&
  String.eqb (gr_reason left) (gr_reason right) && String.eqb (gr_caseReference left) (gr_caseReference right) &&
  time_equal (gr_issuedAt left) (gr_issuedAt right) && time_equal (gr_expiresAt left) (gr_expiresAt right).

Record ConsumptionReceipt := CRc { cr_initialized : bool; cr_grant : Grant; cr_consumedAt : time }.
Record RevocationReceipt := RRc { rr_initialized : bool; rr_grant : Grant; rr_revokedAt : time }.

Definition validConsumptionReceipt (receipt : ConsumptionReceipt) : bool :=
  cr_initialized receipt && validGrant (cr_grant receipt) && canonicalContractTime (cr_consumedAt receipt) &&
  negb (before (cr_consumedAt receipt) (gr_issuedAt (cr_grant receipt))) &&
  before (cr_consumedAt receipt) (gr_expiresAt (cr_grant receipt)).

Definition validRevocationReceipt (receipt : RevocationReceipt) : bool :=
  rr_initialized receipt && validGrant (rr_grant receipt) && canonicalContractTime (rr_revokedAt receipt) &&
  negb (before (rr_revokedAt receipt) (gr_issuedAt (rr_grant receipt))) &&
  before (rr_revokedAt receipt) (gr_expiresAt (rr_grant receipt)).

Section Identities.
Context `{RequestURIs}.

(** ** Administrators *)

Record Administrator := Adm {
  ad_initialized : bool;
  ad_id : ID;
  ad_kind : Identity.Kind;
  ad_logicalIdentity : LogicalIdentity;
}.

Definition NewAdministrator (id : ID) (principal : Principal) : result error Administrator :=
  fail_if (negb (validID id)) ErrInvalidAdministrator;;
  fail_if (negb (result_ok (ValidatePrincipal principal))) ErrInvalidAdministrator;;
  fail_if (negb (bool_decide (pr_kind principal = KindHuman))) (ErrWrap ErrInvalidAdministrator ErrAdministratorNotHuman);;
  Ok (Adm true id (pr_kind principal) (pr_logicalIdentity principal)).

Definition ValidateAdministrator (administrator : Administrator) : result error unit :=
  fail_if (negb (ad_initialized administrator)) ErrInvalidAdministrator;;
  fail_if (negb (validID (ad_id administrator))) ErrInvalidAdministrator;;
  fail_if (negb (bool_decide (ad_kind administrator = KindHuman))) (ErrWrap ErrInvalidAdministrator ErrAdministratorNotHuman);;
  fail_if (negb (result_ok (ValidateLogicalIdentity (ad_logicalIdentity administrator)))) ErrInvalidAdministrator.

Definition MatchesPrincipal (administrator : Administrator) (principal : Principal) : bool :=
  result_ok (ValidateAdministrator administrator) && result_ok (ValidatePrincipal principal) &&
  bool_decide (pr_kind principal = ad_kind administrator) &&
  EqualLogicalIdentity (ad_logicalIdentity administrator) (pr_logicalIdentity principal).

Definition equalAdministrator (left right : Administrator) : bool :=
  result_ok (ValidateAdministrator left) && result_ok (ValidateAdministrator right) &&
  String.eqb (ad_id left) (ad_id right) && bool_decide (ad_kind left = ad_kind right) &&
  EqualLogicalIdentity (ad_logicalIdentity left) (ad_logicalIdentity right).

Definition administratorKey (value : Administrator) : memberIdentityKey :=
  (ad_kind value, li_issuer (ad_logicalIdentity value), li_subject (ad_logicalIdentity value)).

(** ** Requests *)

Record ElevationRequest := ERq {
  er_initialized : bool;
  er_grantID : ID;
  er_administrator : Administrator;
  er_principal : Principal;
  er_action : Action;
  er_target : Target;
  er_reason : string;
  er_caseReference : string;
  er_requestedAt : time;
  er_duration : Z;
}.

Definition in_request {A} (r : result error A) : result error A := map_err (ErrWrap ErrInvalidElevationRequest) r.

Definition ValidateElevationRequest (request : ElevationRequest) : result error unit :=
  fail_if (negb (er_initialized request)) ErrInvalidElevationRequest;;
  in_request (
    fail_if (negb (validID (er_grantID request))) ErrInvalidGrantID;;
    fail_if (negb (result_ok (ValidateAdministrator (er_administrator request)))) ErrInvalidAdministrator;;
    fail_if (negb (result_ok (ValidatePrincipal (er_principal request)))
             || negb (MatchesPrincipal (er_administrator request) (er_principal request))) ErrIdentityMismatch;;
    fail_if (negb (validAction (er_action request))) ErrInvalidAction;;
    fail_if (negb (ValidateTarget (er_target request))) ErrInvalidTarget;;
    fail_if (negb (validActionTarget (er_action request) (er_target request))) ErrActionTargetMismatch;;
    fail_if (negb (validBoundedText (er_reason request) 1 MaxReasonRunes)) ErrInvalidReason;;
    fail_if (negb (valid_case (er_caseReference request))) ErrInvalidCaseReference;;
    fail_if (negb (canonicalContractTime (er_requestedAt request))) ErrInvalidClock;;
    fail_if ((er_duration request <=? 0) || (MaxElevationDuration <? er_duration request)
             || negb (er_duration request mod timestampResolution =? 0)) ErrInvalidElevationDuration).

Definition NewElevationRequest (grantID : ID) (administrator : Administrator) (principal : Principal) (action : Action)
    (target : Target) (reason caseReference : string) (requestedAt : time) (duration : Z) : result error ElevationRequest :=
  normalized ← in_request (normalizeContractTime requestedAt);
  let request := ERq true grantID administrator principal action target reason caseReference normalized duration in
  ValidateElevationRequest request;;
  Ok request.

(** ** The ledger *)

Record grantRecord := GRec { rec_grant : Grant; rec_state : GrantState; rec_terminalAt : time }.

(** [ls_present] is false for a [Ledger] without state. *)
Record ledgerState := LS {
  ls_present : bool;
  ls_clockSamples : Z;
  ls_lastClockSample : Z;
  ls_administrators : gmap string Administrator;
  ls_proofs : gset string;
  ls_grants : gmap string grantRecord;
  ls_highWater : time;
}.

Definition ElevationM := ST ledgerState error.

(** The two indexes [NewLedger] builds; the one by identity is only for
    refusing duplicates. *)
Fixpoint index_administrators (administrators : list Administrator) (byID : gmap string Administrator)
    (byIdentity : gmap memberIdentityKey ID) : result error (gmap string Administrator) :=
  match administrators with
  | [] => Ok byID
  | administrator :: rest =>
      fail_if (negb (result_ok (ValidateAdministrator administrator))) (ErrWrap ErrInvalidLedger ErrInvalidAdministrator);;
      fail_if (is_some (byID !! ad_id administrator)) (ErrWrap ErrInvalidLedger ErrDuplicateAdministratorID);;
      let key := administratorKey administrator in
      fail_if (is_some (byIdentity !! key)) (ErrWrap ErrInvalidLedger ErrDuplicateAdministrator);;
      index_administrators rest (<[ad_id administrator := administrator]> byID) (<[key := ad_id administrator]> byIdentity)
  end.

(** The verifier and the clock are interfaces; the code keeps them and refuses
    nil ones. *)
Definition NewLedger (administrators : list Administrator) (verifier_nil clock_nil : bool) : result error ledgerState :=
  fail_if (verifier_nil || clock_nil) ErrInvalidLedger;;
  fail_if (MaxAdministrators <? llen administrators) (ErrWrap ErrInvalidLedger ErrTooManyAdministrators);;
  byID ← index_administrators administrators ∅ ∅;
  Ok (LS true 0 0 byID ∅ ∅ zero_time).

Definition with_clock (l : ledgerState) (lastClockSample : Z) (highWater : time) : ledgerState :=
  LS (ls_present l) (ls_clockSamples l) lastClockSample (ls_administrators l) (ls_proofs l) (ls_grants l) highWater.

Definition with_grants (l : ledgerState) (proofs : gset string) (grants : gmap string grantRecord) : ledgerState :=
  LS (ls_present l) (ls_clockSamples l) (ls_lastClockSample l) (ls_administrators l) proofs grants (ls_highWater l).

Definition raised (highWater value : time) : time :=
  if is_zero highWater || after value highWater then value else highWater.

Definition observeClock (value : time) : ElevationM unit :=
  l ← get_state;
  reject (negb (is_zero (ls_highWater l)) && before value (ls_highWater l)) ErrClockRegressed;;
  set_state (with_clock l (ls_lastClockSample l) (raised (ls_highWater l) value)).

(** A sample carries the time the clock returned, or an error. *)
Record issuanceClockSample := ICS { cs_sequence : Z; cs_observed : option time }.

(** The sequence is taken by one compare-and-swap; the clock is read after it. *)
Definition sampleIssuanceClock (observed : time) : ledgerState -> issuanceClockSample * ledgerState := fun l =>
  if negb (ls_present l) || (ls_clockSamples l =? max_uint64) then (ICS 0 None, l)
  else (ICS (ls_clockSamples l + 1) (Some observed),
        LS (ls_present l) (ls_clockSamples l + 1) (ls_lastClockSample l) (ls_administrators l) (ls_proofs l) (ls_grants l)
           (ls_highWater l)).

Definition observeIssuanceClockLocked (sample : issuanceClockSample) : ElevationM time :=
  reject (cs_sequence sample =? 0) ErrStrongUnavailable;;
  l ← get_state;
  match cs_observed sample ≫= normalizeTime with
  | None =>
      set_state (with_clock l (Z.max (ls_lastClockSample l) (cs_sequence sample)) (ls_highWater l));;
      throw ErrStrongUnavailable
  | Some normalized =>
      if cs_sequence sample <=? ls_lastClockSample l then
        set_state (with_clock l (ls_lastClockSample l) (raised (ls_highWater l) normalized));;
        mret (raised (ls_highWater l) normalized)
      else
        set_state (with_clock l (cs_sequence sample) (ls_highWater l));;
        reject (negb (is_zero (ls_highWater l)) && before normalized (ls_highWater l)) ErrClockRegressed;;
        set_state (with_clock l (cs_sequence sample) (raised (ls_highWater l) normalized));;
        mret normalized
  end.

(** ** Issuance *)

(** What [ctx.Err()] returned at each of its four calls in [Issue]. *)
Record issueContext := ICtx {
  cx_nil : bool;
  cx_entry : option contextError;
  cx_verified : option contextError;
  cx_locked : option contextError;
  cx_final : option contextError;
}.

Definition context_ok (failure : option contextError) : result error unit :=
  match failure with Some e => Err (ErrContext e) | None => Ok tt end.

(** Before the verifier is called. *)
Definition Issue_request (ctx : issueContext) (token : string) (request : ElevationRequest) : result error unit :=
  fail_if (cx_nil ctx) ErrStrongUnavailable;;
  context_ok (cx_entry ctx);;
  fail_if (negb (validBearerToken token) || negb (result_ok (ValidateElevationRequest request))) ErrStrongInvalid.

(** What is kept of the verifier's answer. *)
Definition Issue_proof (ctx : issueContext) (verdict : result (list StrongAuthenticationError) (ID * time))
    : result error (ID * time) :=
  context_ok (cx_verified ctx);;
  match verdict with
  | Err chain =>
      Err (match ClassifyStrongAuthenticationError chain with Some failure => ErrStrong failure | None => ErrStrongUnavailable end)
  | Ok (proofID, authenticatedAt) =>
      fail_if (negb (validID proofID)) ErrStrongUnavailable;;
      normalizedAuthenticated ← of_option (normalizeTime authenticatedAt) ErrStrongUnavailable;
      Ok (proofID, normalizedAuthenticated)
  end.

Definition fresh_proof (request : ElevationRequest) (normalized authenticated : time) : bool :=
  negb (before normalized (er_requestedAt request) || before normalized authenticated
        || (MaxStrongAuthProofAge <? time_sub normalized authenticated)).

Definition issued_grant (request : ElevationRequest) (configured : Administrator) (proofID : ID) (now expiresAt : time) : Grant :=
  AGr true (er_grantID request) (ad_id configured) proofID (er_action request) (er_target request) (er_reason request)
      (er_caseReference request) now expiresAt.

(** The part under the lock.  The observation of the clock is recorded even
    when the context was cancelled. *)
Definition Issue_commit (ctx : issueContext) (request : ElevationRequest) (proof : ID * time) (sample : issuanceClockSample)
    : ElevationM Grant := fun l =>
  let '(observation, l1) := observeIssuanceClockLocked sample l in
  let proofID := proof.1 in
  (lift (context_ok (cx_locked ctx));;
   normalized ← lift observation;
   reject (negb (fresh_proof request normalized proof.2)) ErrStrongInvalid;;
   l ← get_state;
   configured ← lift (of_option (ls_administrators l !! ad_id (er_administrator request)) ErrAdministratorNotRegistered);
   reject (negb (equalAdministrator configured (er_administrator request))
           || negb (MatchesPrincipal configured (er_principal request))) ErrIdentityMismatch;;
   reject (bool_decide (proofID ∈ ls_proofs l)) ErrStrongAuthProofReplayed;;
   reject (is_some (ls_grants l !! er_grantID request)) ErrDuplicateGrantID;;
   reject (MaxTrackedElevations <=? Z.of_nat (size (ls_grants l))) ErrElevationLedgerFull;;
   expiresAt ← lift (map_err (fun _ => ErrInvalidElevationDuration) (normalizeContractTime (normalized + er_duration request)));
   let grant := issued_grant request configured proofID normalized expiresAt in
   reject (negb (validGrant grant)) ErrInvalidElevationRequest;;
   lift (context_ok (cx_final ctx));;
   set_state (with_grants l ({[proofID]} ∪ ls_proofs l)
                (<[gr_id grant := GRec grant GrantStateActive zero_time]> (ls_grants l)));;
   mret grant) l1.

(** [Issue] without interleaving, given what the verifier and the clock
    answered. *)
Definition Ledger_Issue (ctx : issueContext) (token : string) (request : ElevationRequest)
    (verdict : result (list StrongAuthenticationError) (ID * time)) (clock : time) : ElevationM Grant :=
  l ← get_state;
  reject (negb (ls_present l)) ErrInvalidLedger;;
  lift (Issue_request ctx token request);;
  proof ← lift (Issue_proof ctx verdict);
  let '(sample, l') := sampleIssuanceClock clock l in
  set_state l';;
  Issue_commit ctx request proof sample.

(** ** Use and revocation *)

Definition lookupGrant (grant : Grant) (l : ledgerState) : result error grantRecord :=
  record ← of_option (ls_grants l !! gr_id grant) ErrGrantNotFound;
  fail_if (negb (equalGrant (rec_grant record) grant)) ErrGrantMismatch;;
  Ok record.

Definition expireAt (record : grantRecord) (now : time) : grantRecord :=
  if bool_decide (rec_state record = GrantStateActive) && negb (before now (gr_expiresAt (rec_grant record)))
  then GRec (rec_grant record) GrantStateExpired (gr_expiresAt (rec_grant record)) else record.

Definition terminalGrantError (state : GrantState) : result error unit :=
  match state with
  | GrantStateActive => Ok tt
  | GrantStateConsumed => Err ErrGrantConsumed
  | GrantStateRevoked => Err ErrGrantRevoked
  | GrantStateExpired => Err ErrGrantExpired
  end.

Definition put_grant (record : grantRecord) : ElevationM unit :=
  l ← get_state;
  set_state (with_grants l (ls_proofs l) (<[gr_id (rec_grant record) := record]> (ls_grants l))).

(** The common beginning of [StateAt], [Consume] and [Revoke]: the clock is
    observed and an overdue record expires, whatever follows. *)
Definition resolve_record (now : time) (grant : Grant) : ElevationM (time * grantRecord) :=
  l ← get_state;
  reject (negb (ls_present l)) ErrInvalidLedger;;
  reject (negb (validGrant grant)) ErrGrantMismatch;;
  normalized ← lift (normalizeContractTime now);
  observeClock normalized;;
  l ← get_state;
  record ← lift (lookupGrant grant l);
  put_grant (expireAt record normalized);;
  mret (normalized, expireAt record normalized).

Definition Ledger_StateAt (now : time) (grant : Grant) : ElevationM GrantState :=
  '(_, record) ← resolve_record now grant;
  mret (rec_state record).

Definition Ledger_Consume (now : time) (grant : Grant) (expectedAction : Action) (expectedTarget : Target)
    : ElevationM ConsumptionReceipt :=
  '(normalized, record) ← resolve_record now grant;
  lift (terminalGrantError (rec_state record));;
  reject (negb (bool_decide (gr_action (rec_grant record) = expectedAction))
          || negb (equalTarget (gr_target (rec_grant record)) expectedTarget)) ErrGrantScopeMismatch;;
  let receipt := CRc true (rec_grant record) normalized in
  reject (negb (validConsumptionReceipt receipt)) ErrGrantMismatch;;
  put_grant (GRec (rec_grant record) GrantStateConsumed normalized);;
  mret receipt.

Definition Ledger_Revoke (now : time) (grant : Grant) : ElevationM RevocationReceipt :=
  '(normalized, record) ← resolve_record now grant;
  lift (terminalGrantError (rec_state record));;
  let receipt := RRc true (rec_grant record) normalized in
  reject (negb (validRevocationReceipt receipt)) ErrGrantMismatch;;
  put_grant (GRec (rec_grant record) GrantStateRevoked normalized);;
  mret receipt.
End Identities.
