(* ===== verification/AdministrationProps.v ===== *)
(** * Properties of privileged elevation

    The ledger implements a log of what it issued, consumed and revoked: every
    answer of [StateAt], [Consume] and [Revoke] is a function of that log and
    of the time, over all interleavings of issuing calls. *)

From S2P Require Import Prelude Bytes GoTime Calendar Closed Condition Digests Hierarchy HierarchyProps Identity.
From S2P Require Import AuthzVocabulary Authorization TargetProps Control Operation Administration.
From Stdlib Require Import String.

(** ** Times, targets and grants compared *)

Lemma canonical_time t : canonicalContractTime t = true <-> normal t /\ t <> 0.
Proof.
  unfold canonicalContractTime, normalizeContractTime. split.
  - destruct (normalizeTime t) as [u|] eqn:E; simpl; [|done]. autorewrite with guards. intros [_ ->].
    split; [by eapply normalizeTime_normal|]. intros ->. by vm_compute in E.
  - intros [Hn Hz]. rewrite normalizeTime_id by done. simpl. autorewrite with guards. split; [apply Hn | done].
Qed.

Lemma equalTarget_ok s t : equalTarget s t = true <-> ValidateTarget s = true /\ s = t.
Proof.
  unfold equalTarget. rewrite !andb_true_iff, !bool_decide_eq_true. split; [|by intros [? <-]].
  intros (((((((Hs & Ht) & ?) & ?) & ?) & ?) & ?) & ?). split; [done|].
  assert (at_initialized s = true) by (unfold ValidateTarget in Hs; destruct (at_initialized s); done).
  assert (at_initialized t = true) by (unfold ValidateTarget in Ht; destruct (at_initialized t); done).
  destruct s, t. simpl in *. congruence.
Qed.

Lemma action_target a t : validActionTarget a t = true -> validAction a = true /\ ValidateTarget t = true.
Proof. unfold validActionTarget. rewrite !andb_true_iff. tauto. Qed.

(** What a valid grant is. *)
Record grant_facts (g : Grant) : Prop := {
  gf_init : gr_initialized g = true;
  gf_ids : validID (gr_id g) = true /\ validID (gr_administratorID g) = true /\ validID (gr_proofID g) = true;
  gf_scope : validActionTarget (gr_action g) (gr_target g) = true;
  gf_texts : validBoundedText (gr_reason g) 1 MaxReasonRunes = true /\ valid_case (gr_caseReference g) = true;
  gf_times : normal (gr_issuedAt g) /\ normal (gr_expiresAt g);
  gf_order : 0 < gr_issuedAt g < gr_expiresAt g;
  gf_life : gr_expiresAt g - gr_issuedAt g <= MaxElevationDuration;
}.

Lemma time_sub_small t u : -9223372036854775808 <= t - u <= max_int64 -> time_sub t u = t - u.
Proof. unfold time_sub. lia. Qed.

Lemma time_sub_leb t u d : -9223372036854775808 <= d < max_int64 -> (time_sub t u <=? d) = (t - u <=? d).
Proof. unfold time_sub, max_int64. intros Hd. apply eq_bool_prop_intro. rewrite !Is_true_true, !Z.leb_le. lia. Qed.

Lemma validGrant_ok g : validGrant g = true <-> grant_facts g.
Proof.
  unfold validGrant. cbv zeta. rewrite !andb_true_iff, !canonical_time, after_true, time_sub_leb, Z.leb_le
    by (vm_compute; split; discriminate || done). rewrite Z.eqb_eq. split.
  - intros ((((((((([? ?] & ?) & ?) & ?) & ?) & ?) & [Ni ?]) & [Ne ?]) & ?) & Hl & _). constructor; try done.
    split; [destruct Ni; lia | done].
  - intros [? [? []] ? [] [Ni Ne] [] ?]. repeat split; try done; try apply Ni; try apply Ne; try lia.
    rewrite time_sub_small by (unfold MaxElevationDuration, minute, second, millisecond, max_int64 in *; lia).
    destruct Ni as [_ Mi], Ne as [_ Me]. unfold timestampResolution.
    rewrite Zminus_mod, Mi, Me. done.
Qed.

Lemma equalGrant_ok g h : equalGrant g h = true <-> validGrant g = true /\ g = h.
Proof.
  unfold equalGrant. rewrite !andb_true_iff, !String.eqb_eq, bool_decide_eq_true, equalTarget_ok, !time_equal_true. split.
  - intros ((((((((((Hg & Hh) & ?) & ?) & ?) & ?) & [_ ?]) & ?) & ?) & ?) & ?). split; [done|].
    apply validGrant_ok in Hg, Hh. pose proof (gf_init _ Hg). pose proof (gf_init _ Hh). destruct g, h. simpl in *. congruence.
  - intros [Hg <-]. pose proof Hg as Hf%validGrant_ok. destruct (action_target _ _ (gf_scope _ Hf)). tauto.
Qed.

(** ** Administrators and requests *)

#[export] Instance Grant_eq : EqDecision Grant.
Proof. solve_decision. Defined.

Section Elevation.
Context `{RequestURIs}.

Lemma administrator_ok a : ValidateAdministrator a = Ok tt <->
  ad_initialized a = true /\ validID (ad_id a) = true /\ ad_kind a = KindHuman /\
  ValidateLogicalIdentity (ad_logicalIdentity a) = Ok tt.
Proof.
  unfold ValidateAdministrator. split.
  - intros E. run_inv E. autorewrite with guards in *. by apply result_ok_true in E as [[] ?].
  - intros (-> & -> & -> & ->). done.
Qed.

Lemma equalAdministrator_ok a b : equalAdministrator a b = true <-> ValidateAdministrator a = Ok tt /\ a = b.
Proof.
  unfold equalAdministrator. rewrite !andb_true_iff, !result_ok_true, String.eqb_eq, bool_decide_eq_true, EqualLogicalIdentity_ok. split.
  - intros (((([[] Ha] & [[] Hb]) & ?) & ?) & _ & ?). split; [done|]. apply administrator_ok in Ha as (? & _), Hb as (? & _).
    destruct a, b. simpl in *. congruence.
  - intros [Ha <-]. pose proof Ha as (_ & _ & _ & ?)%administrator_ok. eauto 10.
Qed.

(** What a valid request is. *)
Record request_facts (q : ElevationRequest) : Prop := {
  qf_id : validID (er_grantID q) = true;
  qf_admin : ValidateAdministrator (er_administrator q) = Ok tt;
  qf_match : MatchesPrincipal (er_administrator q) (er_principal q) = true;
  qf_scope : validActionTarget (er_action q) (er_target q) = true;
  qf_texts : validBoundedText (er_reason q) 1 MaxReasonRunes = true /\ valid_case (er_caseReference q) = true;
  qf_time : normal (er_requestedAt q) /\ er_requestedAt q <> 0;
  qf_duration : 0 < er_duration q <= MaxElevationDuration /\ er_duration q mod millisecond = 0;
}.

Lemma request_valid q : ValidateElevationRequest q = Ok tt -> request_facts q.
Proof.
  unfold ValidateElevationRequest, in_request. intros E. run_inv E.
  repeat match goal with G : _ = false |- _ => progress autorewrite with guards in G end. destruct_and!.
  match goal with G : result_ok (ValidateAdministrator _) = true |- _ => apply result_ok_true in G as [[] ?] end.
  match goal with G : canonicalContractTime _ = true |- _ => apply canonical_time in G end.
  constructor; try done.
Qed.

(** ** Histories

    A call of [Issue] is two steps: it takes a clock sample, and later commits
    with it under the lock.  Samples taken and not yet committed are pending;
    a commit names the one it uses. *)

Inductive admin_event :=
| AeSample (observed : time)
| AeIssue (pending : nat) (ctx : issueContext) (token : string) (request : ElevationRequest)
    (verdict : result (list StrongAuthenticationError) (ID * time))
| AeStateAt (now : time) (grant : Grant)
| AeConsume (now : time) (grant : Grant) (action : Action) (target : Target)
| AeRevoke (now : time) (grant : Grant).

Inductive admin_output :=
| OSampled
| OIssued (grant : Grant)
| OState (state : GrantState)
| OConsumed (receipt : ConsumptionReceipt)
| ORevoked (receipt : RevocationReceipt)
| ORefused (failure : Administration.error)
| ONone.

Record world := Wd { w_ledger : ledgerState; w_pending : list issuanceClockSample }.

Definition answer {A} (output : A -> admin_output) (r : result Administration.error A) : admin_output :=
  match r with Ok a => output a | Err e => ORefused e end.

(** The part of [Issue] after its sample was taken. *)
Definition Issue_after (ctx : issueContext) (token : string) (request : ElevationRequest)
    (verdict : result (list StrongAuthenticationError) (ID * time)) (sample : issuanceClockSample) : ElevationM Grant :=
  lift (Issue_request ctx token request);;
  proof ← lift (Issue_proof ctx verdict);
  Issue_commit ctx request proof sample.

Definition admin_step (e : admin_event) (w : world) : admin_output * world :=
  let l := w_ledger w in
  match e with
  | AeSample observed => let '(sample, l') := sampleIssuanceClock observed l in (OSampled, Wd l' (sample :: w_pending w))
  | AeIssue n ctx token request verdict =>
      match w_pending w !! n with
      | None => (ONone, w)
      | Some sample =>
          let '(r, l') := Issue_after ctx token request verdict sample l in
          (answer OIssued r, Wd l' (delete n (w_pending w)))
      end
  | AeStateAt now g => let '(r, l') := Ledger_StateAt now g l in (answer OState r, Wd l' (w_pending w))
  | AeConsume now g a t => let '(r, l') := Ledger_Consume now g a t l in (answer OConsumed r, Wd l' (w_pending w))
  | AeRevoke now g => let '(r, l') := Ledger_Revoke now g l in (answer ORevoked r, Wd l' (w_pending w))
  end.

(** The log of the answers, the latest first. *)
Inductive history (l0 : ledgerState) : list admin_output -> world -> Prop :=
| history_start : history l0 [] (Wd l0 [])
| history_next log w e o w' : history l0 log w -> admin_step e w = (o, w') -> history l0 (o :: log) w'.

(** ** The log as the truth *)

Definition issued (log : list admin_output) : list Grant := omap (fun o => match o with OIssued g => Some g | _ => None end) log.

(** How a grant was spent: its use or its revocation. *)
Definition spending (o : admin_output) : option (Grant * GrantState * time) :=
  match o with
  | OConsumed r => Some (cr_grant r, GrantStateConsumed, cr_consumedAt r)
  | ORevoked r => Some (rr_grant r, GrantStateRevoked, rr_revokedAt r)
  | _ => None
  end.

Definition spent (log : list admin_output) : list (Grant * GrantState * time) := omap spending log.
Definition spent_ids (log : list admin_output) : list ID := (fun x => gr_id x.1.1) <$> spent log.

Definition spent_as (log : list admin_output) (g : Grant) : option (GrantState * time) :=
  head (omap (fun x => if bool_decide (gr_id x.1.1 = gr_id g) then Some (x.1.2, x.2) else None) (spent log)).

(** The record of an issued grant at a time. *)
Definition log_record (log : list admin_output) (g : Grant) (now : time) : grantRecord :=
  match spent_as log g with
  | Some (state, at_) => GRec g state at_
  | None => expireAt (GRec g GrantStateActive zero_time) now
  end.

(** What [StateAt], [Consume] and [Revoke] resolve a handle to, from the log. *)
Definition log_resolve (log : list admin_output) (mark now : time) (g : Grant) : result Administration.error (time * grantRecord) :=
  fail_if (negb (validGrant g)) ErrGrantMismatch;;
  normalized ← normalizeContractTime now;
  fail_if (before normalized mark) ErrClockRegressed;;
  if bool_decide (g ∈ issued log) then Ok (normalized, log_record log g normalized)
  else if bool_decide (gr_id g ∈ gr_id <$> issued log) then Err ErrGrantMismatch
  else Err ErrGrantNotFound.

Lemma spent_as_none log g : spent_as log g = None <-> gr_id g ∉ spent_ids log.
Proof.
  unfold spent_as, spent_ids. induction (spent log) as [|x l IH]; simpl; [split; [set_solver | done]|].
  rewrite not_elem_of_cons. case_bool_decide as E; simpl; [split; [done | intros [? _]; congruence]|].
  rewrite IH. split; [intros ?; split; [congruence | done] | tauto].
Qed.

Lemma spent_as_some log g st t : spent_as log g = Some (st, t) -> exists h, (h, st, t) ∈ spent log /\ gr_id h = gr_id g.
Proof.
  unfold spent_as. induction (spent log) as [|[[h s] u] l IH]; simpl; [done|]. case_bool_decide as E; simpl.
  - intros [= -> ->]. exists h. split; [constructor | done].
  - intros G. destruct (IH G) as (h' & ? & ?). exists h'. split; [by right | done].
Qed.

Lemma spending_final log g st t : (g, st, t) ∈ spent log -> st = GrantStateConsumed \/ st = GrantStateRevoked.
Proof. unfold spent. rewrite list_elem_of_omap. intros (o & _ & E). destruct o; naive_solver. Qed.

Lemma expireAt_idem r t u : t <= u -> expireAt (expireAt r t) u = expireAt r u.
Proof.
  intros Htu. unfold expireAt. destruct (rec_state r) eqn:Es; simpl; rewrite ?Es; try done.
  destruct (before t _) eqn:E; simpl; rewrite ?Es; simpl; [done|]. autorewrite with guards in E.
  destruct (before u _) eqn:E'; [autorewrite with guards in E'; lia | done].
Qed.

Lemma log_record_later log g t u : t <= u -> expireAt (log_record log g t) u = log_record log g u.
Proof.
  intros Htu. unfold log_record. destruct (spent_as log g) as [[st at_]|] eqn:E; [|by apply expireAt_idem].
  apply spent_as_some in E as (h & Hin & _). by apply spending_final in Hin as [-> | ->].
Qed.

Lemma log_record_grant log g t : rec_grant (log_record log g t) = g.
Proof. unfold log_record, expireAt. destruct (spent_as log g) as [[]|]; [done|]. by case_match. Qed.

Lemma log_record_active log g t : rec_state (log_record log g t) = GrantStateActive ->
  spent_as log g = None /\ t < gr_expiresAt g.
Proof.
  unfold log_record. destruct (spent_as log g) as [[st at_]|] eqn:E; simpl.
  - apply spent_as_some in E as (h & Hin & _). apply spending_final in Hin as [-> | ->]; done.
  - unfold expireAt. simpl. destruct (before t (gr_expiresAt g)) eqn:B; [|done]. autorewrite with guards in B. done.
Qed.

(** ** The ledger implements the log *)

Record log_rel (admins : gmap string Administrator) (log : list admin_output) (l : ledgerState) : Prop := {
  lg_present : ls_present l = true;
  lg_admins : ls_administrators l = admins;
  lg_mark : normal (ls_highWater l);
  lg_dom : forall id, is_Some (ls_grants l !! id) <-> id ∈ gr_id <$> issued log;
  lg_issued : forall g, g ∈ issued log -> validGrant g = true /\ gr_issuedAt g <= ls_highWater l /\
    exists r, ls_grants l !! gr_id g = Some r /\ rec_grant r = g /\
      expireAt r (ls_highWater l) = log_record log g (ls_highWater l);
  lg_proofs : ls_proofs l = list_to_set (gr_proofID <$> issued log);
  lg_ids : NoDup (gr_id <$> issued log);
  lg_proof_ids : NoDup (gr_proofID <$> issued log);
  lg_spent : NoDup (spent_ids log);
  lg_spending : forall g st t, (g, st, t) ∈ spent log -> g ∈ issued log /\ gr_issuedAt g <= t < gr_expiresAt g;
  lg_holder : forall g, g ∈ issued log -> is_Some (admins !! gr_administratorID g);
  lg_size : size (ls_grants l) = List.length (issued log) /\ llen (issued log) <= MaxTrackedElevations;
}.

(** Distinct keys determine the elements of a list. *)
Lemma NoDup_fmap_elem {A B} (f : A -> B) (l : list A) x y : NoDup (f <$> l) -> x ∈ l -> y ∈ l -> f x = f y -> x = y.
Proof.
  intros Hn [i Hi]%list_elem_of_lookup [j Hj]%list_elem_of_lookup E.
  assert ((f <$> l) !! i = Some (f x)) as Ei by (by rewrite list_lookup_fmap, Hi).
  assert ((f <$> l) !! j = Some (f x)) as Ej by (by rewrite list_lookup_fmap, Hj, E).
  pose proof (NoDup_lookup _ _ _ _ Hn Ei Ej). congruence.
Qed.

Section Rel.
Context (admins : gmap string Administrator).
Notation rel := (log_rel admins).

Lemma rel_ext log log' l : issued log' = issued log -> spent log' = spent log -> rel log l -> rel log' l.
Proof.
  intros Hi Hs [? ? ? ? Hg ? ? ? ? ? ?]. unfold log_record, spent_as, spent_ids in *. constructor; rewrite ?Hi, ?Hs; try done.
  - intros g. unfold log_record, spent_as. rewrite Hs. apply Hg.
  - unfold spent_ids. by rewrite Hs.
Qed.

Lemma rel_output log o l : issued (o :: log) = issued log -> spending o = None -> rel log l -> rel (o :: log) l.
Proof. intros Hi Hs. apply rel_ext; [done|]. unfold spent. simpl. by rewrite Hs. Qed.

Lemma rel_clock log l n v : rel log l -> normal v -> ls_highWater l <= v -> rel log (with_clock l n v).
Proof.
  intros [] Hn Hv. constructor; simpl; try done. intros g Hg. destruct (lg_issued0 g Hg) as (? & ? & r & ? & ? & E).
  split; [done|]. split; [lia|]. exists r. split; [done|]. split; [done|].
  by rewrite <- (expireAt_idem r _ v Hv), E, log_record_later.
Qed.

(** A handle that was issued, with its record. *)
Lemma rel_lookup log l g r : rel log l -> ls_grants l !! gr_id g = Some r ->
  equalGrant (rec_grant r) g = true <-> g ∈ issued log.
Proof.
  intros R Hr. assert (is_Some (ls_grants l !! gr_id g)) as (h & Hh & Hin)%(lg_dom _ _ _ R)%list_elem_of_fmap by by eexists.
  destruct (lg_issued _ _ _ R h Hin) as (Hv & _ & r' & Hr' & Hg & _). rewrite Hh in Hr. rewrite Hr in Hr'. injection Hr' as <-.
  rewrite Hg, equalGrant_ok. split; [by intros [_ <-]|]. intros Hin'. split; [done|].
  by apply (NoDup_fmap_elem gr_id (issued log)); [apply R|..].
Qed.

Lemma lookupGrant_run log l g : rel log l ->
  (lookupGrant g l = Err ErrGrantNotFound /\ gr_id g ∉ gr_id <$> issued log) \/
  (lookupGrant g l = Err ErrGrantMismatch /\ gr_id g ∈ gr_id <$> issued log /\ g ∉ issued log) \/
  exists r, lookupGrant g l = Ok r /\ g ∈ issued log /\ rec_grant r = g /\ ls_grants l !! gr_id g = Some r /\
    expireAt r (ls_highWater l) = log_record log g (ls_highWater l).
Proof.
  intros R. unfold lookupGrant, mbind, result_bind. destruct (ls_grants l !! gr_id g) as [r|] eqn:E; cbn [of_option].
  - right. pose proof (rel_lookup _ _ _ _ R E) as Hl.
    assert (gr_id g ∈ gr_id <$> issued log) by (apply (lg_dom _ _ _ R); by eexists).
    destruct (equalGrant (rec_grant r) g) eqn:G; cbn [negb fail_if].
    + right. exists r. assert (g ∈ issued log) as Hin by by apply Hl. split; [done|]. split; [done|].
      destruct (lg_issued _ _ _ R g Hin) as (_ & _ & r' & Hr' & ? & ?). rewrite E in Hr'. injection Hr' as <-. done.
    + left. split; [done|]. split; [done|]. intros Hin%Hl. congruence.
  - left. split; [done|]. intros Hin%(lg_dom _ _ _ R). rewrite E in Hin. by destruct Hin.
Qed.

(** Writing a record of an issued grant that agrees with the new log. *)
Lemma rel_put log log' l g r : rel log l -> issued log' = issued log -> g ∈ issued log -> rec_grant r = g ->
  (forall h, gr_id h <> gr_id g -> spent_as log' h = spent_as log h) ->
  expireAt r (ls_highWater l) = log_record log' g (ls_highWater l) ->
  NoDup (spent_ids log') ->
  (forall h st t, (h, st, t) ∈ spent log' -> h ∈ issued log' /\ gr_issuedAt h <= t < gr_expiresAt h) ->
  rel log' (with_grants l (ls_proofs l) (<[gr_id g := r]> (ls_grants l))).
Proof.
  intros R Hi Hg Hrg Hs He Hn Hp. destruct R. constructor; rewrite ?Hi; simpl; try done.
  - intros id. rewrite <- lg_dom0. destruct (decide (id = gr_id g)) as [->|Hne]; [|by rewrite lookup_insert_ne].
    rewrite lookup_insert_eq. destruct (lg_issued0 g Hg) as (_ & _ & r' & -> & _). split; by eexists.
  - intros h Hh. destruct (lg_issued0 h Hh) as (Hv & Hm & r' & Hr' & Hg' & E). split; [done|]. split; [done|].
    destruct (decide (gr_id h = gr_id g)) as [Eq|Hne].
    + assert (h = g) as -> by by apply (NoDup_fmap_elem gr_id (issued log)).
      exists r. by rewrite lookup_insert_eq.
    + exists r'. rewrite lookup_insert_ne by congruence. split; [done|]. split; [done|]. rewrite E. unfold log_record. by rewrite Hs.
  - rewrite Hi in Hp. done.
  - destruct (lg_issued0 g Hg) as (_ & _ & r' & Hr' & _). rewrite map_size_insert_Some; [done | by eexists].
Qed.

Lemma rel_expire log l g r : rel log l -> g ∈ issued log -> rec_grant r = g ->
  expireAt r (ls_highWater l) = log_record log g (ls_highWater l) ->
  rel log (with_grants l (ls_proofs l) (<[gr_id g := r]> (ls_grants l))).
Proof. intros R Hg Hr He. apply (rel_put log log l g r); try done; apply R. Qed.

Lemma raised_max m v : 0 <= m -> 0 <= v -> raised m v = Z.max m v.
Proof.
  unfold raised. intros. destruct (is_zero m) eqn:E; autorewrite with guards in E; simpl; [lia|].
  destruct (after v m) eqn:G; autorewrite with guards in G; lia.
Qed.

Lemma observeClock_run v l : 0 <= ls_highWater l -> 0 <= v -> observeClock v l =
  if before v (ls_highWater l) then (Err ErrClockRegressed, l)
  else (Ok tt, with_clock l (ls_lastClockSample l) v).
Proof.
  intros Hm Hv. unfold observeClock, mbind, ST_bind, get_state, reject, lift, fail_if, set_state.
  rewrite raised_max by done. destruct (before v (ls_highWater l)) eqn:E; autorewrite with guards in E.
  - assert (is_zero (ls_highWater l) = false) as -> by (autorewrite with guards; lia). done.
  - rewrite andb_false_r. by replace (Z.max (ls_highWater l) v) with v by lia.
Qed.

Lemma normalized_nonneg t v : normalizeTime t = Some v -> 0 <= v.
Proof. intros E%normalizeTime_normal. apply E. Qed.

(** The state after a handle was resolved, and the answer of the log. *)
Lemma resolve_run log l now g : rel log l ->
  exists l', resolve_record now g l = (log_resolve log (ls_highWater l) now g, l') /\ rel log l' /\
    ls_highWater l <= ls_highWater l' /\ ls_clockSamples l' = ls_clockSamples l /\ ls_lastClockSample l' = ls_lastClockSample l /\
    forall v r, log_resolve log (ls_highWater l) now g = Ok (v, r) ->
      ls_highWater l' = v /\ normal v /\ g ∈ issued log /\ r = log_record log g v.
Proof.
  intros R. unfold resolve_record, log_resolve.
  unfold mbind at 1, ST_bind at 1, get_state at 1. unfold reject at 1 2, lift at 1 2. rewrite (lg_present _ _ _ R).
  unfold mbind, ST_bind, result_bind, normalizeContractTime, lift, fail_if. simpl.
  destruct (validGrant g); simpl; [|by exists l]. destruct (normalizeTime now) as [v|] eqn:Hn; simpl; [|by exists l].
  rewrite observeClock_run by (apply R || by eapply normalized_nonneg).
  destruct (before v (ls_highWater l)) eqn:Hb; [by exists l|]. autorewrite with guards in Hb. simpl.
  set (l1 := with_clock l (ls_lastClockSample l) v). assert (rel log l1) as R1 by (apply rel_clock; [done | by eapply normalizeTime_normal | done]).
  destruct (lookupGrant_run log l1 g R1) as [(-> & Hg)|[(-> & Hid & Hg)|(r & -> & Hg & Hrg & Hl & He)]].
  - exists l1. rewrite !bool_decide_eq_false_2; [done..| |]; [done|]. intros Hin. apply Hg. by apply list_elem_of_fmap_2.
  - exists l1. by rewrite bool_decide_eq_false_2, bool_decide_eq_true_2.
  - rewrite bool_decide_eq_true_2 by done. change (ls_highWater l1) with v in He. simpl.
    assert (rec_grant (expireAt r v) = g) as Hrg' by (rewrite He; apply log_record_grant).
    eexists. split; [unfold put_grant, mbind, ST_bind, get_state, set_state, mret, ST_ret; simpl; rewrite He; reflexivity|].
    rewrite log_record_grant. split; [|split; [done|split; [done|split; [done|]]]].
    + apply (rel_expire log l1 g); [done | done | apply log_record_grant | apply log_record_later; simpl; lia].
    + intros ? ? [= <- <-]. split; [done|]. split; [by eapply normalizeTime_normal|]. done.
Qed.

(** Spending the grant just resolved. *)
Lemma rel_spend log l g o st : rel log l -> g ∈ issued log ->
  rec_state (log_record log g (ls_highWater l)) = GrantStateActive ->
  spending o = Some (g, st, ls_highWater l) -> issued (o :: log) = issued log ->
  rel (o :: log) (with_grants l (ls_proofs l) (<[gr_id g := GRec g st (ls_highWater l)]> (ls_grants l))).
Proof.
  intros R Hg Ha Ho Hi. apply log_record_active in Ha as [Hs Hlt].
  assert (spent (o :: log) = (g, st, ls_highWater l) :: spent log) as Hsp by (unfold spent; simpl; by rewrite Ho).
  assert (st = GrantStateConsumed \/ st = GrantStateRevoked) as Hst by (destruct o; naive_solver).
  apply (rel_put log); try done.
  - intros h Hh. unfold spent_as. rewrite Hsp. simpl. by rewrite bool_decide_eq_false_2 by congruence.
  - unfold log_record, spent_as. rewrite Hsp. simpl. rewrite bool_decide_eq_true_2 by done. simpl.
    by destruct Hst as [-> | ->].
  - unfold spent_ids. rewrite Hsp. simpl. apply NoDup_cons. split; [by apply spent_as_none | apply R].
  - intros h s t. rewrite Hsp, Hi, elem_of_cons. intros [[= -> -> ->]|Hin]; [|by apply (lg_spending _ _ _ R) in Hin].
    split; [done|]. destruct (lg_issued _ _ _ R g Hg) as (_ & ? & _). lia.
Qed.

(** Recording a new grant. *)
Lemma rel_issue log l g : rel log l -> validGrant g = true -> gr_issuedAt g = ls_highWater l ->
  gr_proofID g ∉ gr_proofID <$> issued log -> gr_id g ∉ gr_id <$> issued log -> llen (issued log) < MaxTrackedElevations ->
  is_Some (admins !! gr_administratorID g) ->
  rel (OIssued g :: log) (with_grants l ({[gr_proofID g]} ∪ ls_proofs l)
    (<[gr_id g := GRec g GrantStateActive zero_time]> (ls_grants l))).
Proof.
  intros R Hv Hi Hp Hg Hc Ha. assert (issued (OIssued g :: log) = g :: issued log) as Hlog by done.
  assert (spent (OIssued g :: log) = spent log) as Hsp by done.
  assert (ls_grants l !! gr_id g = None) as Hnone.
  { destruct (ls_grants l !! gr_id g) eqn:E; [|done]. destruct Hg. apply (lg_dom _ _ _ R). by eexists. }
  destruct R. constructor; rewrite ?Hlog, ?Hsp; simpl; try done.
  - intros id. destruct (decide (id = gr_id g)) as [->|Hne].
    + rewrite lookup_insert_eq. split; [intros _; constructor | by eexists].
    + rewrite lookup_insert_ne, lg_dom0, elem_of_cons by done. naive_solver.
  - intros h [->|Hh]%elem_of_cons.
    + split; [done|]. split; [lia|]. eexists. rewrite lookup_insert_eq. split; [done|]. split; [done|].
      unfold log_record. destruct (spent_as (OIssued g :: log) g) as [[st t]|] eqn:E; [|done].
      apply spent_as_some in E as (h & Hin & Eh). apply lg_spending0 in Hin as [Hin _].
      destruct Hg. rewrite <- Eh. by apply list_elem_of_fmap_2.
    + destruct (lg_issued0 h Hh) as (? & ? & r & Hr & ? & ?). split; [done|]. split; [done|]. exists r.
      rewrite lookup_insert_ne by congruence. done.
  - by rewrite lg_proofs0.
  - by apply NoDup_cons.
  - by apply NoDup_cons.
  - intros h st t Hin. destruct (lg_spending0 h st t Hin). split; [by right | done].
  - intros h [->|Hh]%elem_of_cons; [done | by apply lg_holder0].
  - rewrite map_size_insert_None by done. lia.
Qed.

(** ** Every answer is the answer of the log *)

Definition log_state (log : list admin_output) (mark now : time) (g : Grant) : result Administration.error GrantState :=
  '(_, r) ← log_resolve log mark now g; Ok (rec_state r).

Definition log_consume (log : list admin_output) (mark now : time) (g : Grant) (action : Action) (target : Target)
    : result Administration.error ConsumptionReceipt :=
  '(v, r) ← log_resolve log mark now g;
  terminalGrantError (rec_state r);;
  fail_if (negb (bool_decide (gr_action g = action /\ gr_target g = target))) ErrGrantScopeMismatch;;
  Ok (CRc true g v).

Definition log_revoke (log : list admin_output) (mark now : time) (g : Grant) : result Administration.error RevocationReceipt :=
  '(v, r) ← log_resolve log mark now g;
  terminalGrantError (rec_state r);;
  Ok (RRc true g v).

(** A step keeps the log, moves the mark forward and leaves the samples alone. *)
Definition keeps (log : list admin_output) (o : admin_output) (l l' : ledgerState) : Prop :=
  rel (o :: log) l' /\ ls_highWater l <= ls_highWater l' /\ ls_clockSamples l' = ls_clockSamples l /\
  ls_lastClockSample l' = ls_lastClockSample l.

Lemma refused_keeps log l l' e : rel log l' -> ls_highWater l <= ls_highWater l' -> ls_clockSamples l' = ls_clockSamples l ->
  ls_lastClockSample l' = ls_lastClockSample l -> keeps log (ORefused e) l l'.
Proof. intros R ? ? ?. split; [by apply rel_output | done]. Qed.

Lemma state_run log l now g : rel log l ->
  exists l', Ledger_StateAt now g l = (log_state log (ls_highWater l) now g, l') /\
    keeps log (answer OState (log_state log (ls_highWater l) now g)) l l'.
Proof.
  intros R. destruct (resolve_run log l now g R) as (l' & E & R' & Hm & Hc & Hl & _). exists l'.
  unfold Ledger_StateAt, log_state, mbind, ST_bind, result_bind. rewrite E.
  destruct (log_resolve _ _ _ _) as [[v r]|e]; (split; [done|]); [|by apply refused_keeps].
  split; [by apply rel_output | done].
Qed.

(** The check of a receipt never fails: the mark is past the issue of every
    grant of the log. *)
Lemma live_times log l g v : rel log l -> g ∈ issued log -> normal v -> ls_highWater l = v ->
  rec_state (log_record log g v) = GrantStateActive ->
  validGrant g = true /\ canonicalContractTime v = true /\ before v (gr_issuedAt g) = false /\ before v (gr_expiresAt g) = true.
Proof.
  intros R Hg Hn Hm Ha. destruct (lg_issued _ _ _ R g Hg) as (Hv & Hi & _). apply log_record_active in Ha as [_ Hlt].
  pose proof (gf_order g (proj1 (validGrant_ok g) Hv)) as Ho. split; [done|].
  split; [apply canonical_time; split; [done | lia]|]. autorewrite with guards. lia.
Qed.

Lemma consume_run log l now g a t : rel log l ->
  exists l', Ledger_Consume now g a t l = (log_consume log (ls_highWater l) now g a t, l') /\
    keeps log (answer OConsumed (log_consume log (ls_highWater l) now g a t)) l l'.
Proof.
  intros R. destruct (resolve_run log l now g R) as (l1 & E & R1 & Hm & Hc & Hl & Hok).
  unfold Ledger_Consume, log_consume, mbind, ST_bind, result_bind, lift, reject, fail_if. rewrite E.
  destruct (log_resolve _ _ _ _) as [[v r]|e]; [|exists l1; split; [done | by apply refused_keeps]].
  destruct (Hok v r eq_refl) as (Hv & Hn & Hg & ->). rewrite log_record_grant.
  destruct (rec_state (log_record log g v)) eqn:Es; cbn [terminalGrantError]; try (exists l1; split; [done | by apply refused_keeps]).
  destruct (live_times log l1 g v R1 Hg Hn Hv Es) as (Hvg & Hcv & Hbi & Hbe).
  assert (ValidateTarget (gr_target g) = true) as Ht by (apply validGrant_ok in Hvg; by destruct (action_target _ _ (gf_scope _ Hvg))).
  assert (negb (bool_decide (gr_action g = a)) || negb (equalTarget (gr_target g) t) =
          negb (bool_decide (gr_action g = a /\ gr_target g = t))) as ->.
  { rewrite <- negb_andb. f_equal. apply eq_bool_prop_intro. rewrite !Is_true_true, andb_true_iff, !bool_decide_eq_true, equalTarget_ok. tauto. }
  case_bool_decide as Hs; cbn [negb]; [|exists l1; split; [done | by apply refused_keeps]].
  assert (validConsumptionReceipt (CRc true g v) = true) as ->
    by (unfold validConsumptionReceipt; cbn [cr_initialized cr_grant cr_consumedAt]; by rewrite Hvg, Hcv, Hbi, Hbe).
  eexists. split; [reflexivity|]. rewrite <- Hv. split; [|done]. by apply rel_spend; [..|rewrite Hv| |].
Qed.

Lemma revoke_run log l now g : rel log l ->
  exists l', Ledger_Revoke now g l = (log_revoke log (ls_highWater l) now g, l') /\
    keeps log (answer ORevoked (log_revoke log (ls_highWater l) now g)) l l'.
Proof.
  intros R. destruct (resolve_run log l now g R) as (l1 & E & R1 & Hm & Hc & Hl & Hok).
  unfold Ledger_Revoke, log_revoke, mbind, ST_bind, result_bind, lift, reject, fail_if. rewrite E.
  destruct (log_resolve _ _ _ _) as [[v r]|e]; [|exists l1; split; [done | by apply refused_keeps]].
  destruct (Hok v r eq_refl) as (Hv & Hn & Hg & ->). rewrite log_record_grant.
  destruct (rec_state (log_record log g v)) eqn:Es; cbn [terminalGrantError]; try (exists l1; split; [done | by apply refused_keeps]).
  destruct (live_times log l1 g v R1 Hg Hn Hv Es) as (Hvg & Hcv & Hbi & Hbe).
  assert (validRevocationReceipt (RRc true g v) = true) as ->
    by (unfold validRevocationReceipt; cbn [rr_initialized rr_grant rr_revokedAt]; by rewrite Hvg, Hcv, Hbi, Hbe).
  eexists. split; [reflexivity|]. rewrite <- Hv. split; [|done]. by apply rel_spend; [..|rewrite Hv| |].
Qed.

(** ** Issuance *)

(** The issuance clock never goes back: a time it returns is the new mark. *)
Lemma observe_run sample l r l1 : normal (ls_highWater l) -> observeIssuanceClockLocked sample l = (r, l1) ->
  (exists n m, l1 = with_clock l n m /\ normal m /\ ls_highWater l <= m /\
     ls_lastClockSample l <= n <= Z.max (ls_lastClockSample l) (cs_sequence sample)) /\
  (forall now, r = Ok now -> now = ls_highWater l1).
Proof.
  intros Hm. unfold observeIssuanceClockLocked, mbind, ST_bind, get_state, reject, lift, fail_if, set_state, throw, mret, ST_ret.
  assert (with_clock l (ls_lastClockSample l) (ls_highWater l) = l) as Hid by by destruct l.
  destruct (cs_sequence sample =? 0) eqn:E0.
  { intros [= <- <-]. split; [|done]. exists (ls_lastClockSample l), (ls_highWater l). rewrite Hid. split; [done|]. split; [done|]. lia. }
  destruct (option_bind _ _ normalizeTime (cs_observed sample)) as [v|] eqn:Ev.
  2: { intros [= <- <-]. split; [|done]. eexists _, _. split; [done|]. split; [done|]. lia. }
  assert (normal v) as Hv by (destruct (cs_observed sample); [by eapply normalizeTime_normal | done]).
  rewrite raised_max by (apply Hm || apply Hv).
  assert (normal (Z.max (ls_highWater l) v)) as Hmax by (destruct (Z.max_spec (ls_highWater l) v) as [[_ ->]|[_ ->]]; done).
  destruct (cs_sequence sample <=? ls_lastClockSample l) eqn:Es; autorewrite with guards in Es.
  - intros [= <- <-]. split; [|by intros ? [= <-]]. eexists _, _. split; [done|]. split; [done|]. lia.
  - destruct (before v (ls_highWater l)) eqn:Eb; autorewrite with guards in Eb.
    + destruct (is_zero (ls_highWater l)) eqn:Ez; autorewrite with guards in Ez; simpl.
      { destruct Hv. lia. }
      intros [= <- <-]. split; [|done]. eexists _, _. split; [done|]. split; [done|]. lia.
    + rewrite andb_false_r. intros [= <- <-]. split.
      * eexists _, _. split; [done|]. split; [done|]. lia.
      * intros ? [= <-]. simpl. lia.
Qed.

(** A sample no later one overtook is taken as it is, or refused. *)
Lemma observe_fresh l n clock v : normal (ls_highWater l) -> ls_lastClockSample l < n -> 0 < n ->
  normalizeTime clock = Some v -> observeIssuanceClockLocked (ICS n (Some clock)) l =
    if before v (ls_highWater l) then (Err ErrClockRegressed, with_clock l n (ls_highWater l))
    else (Ok v, with_clock l n v).
Proof.
  intros Hm Hl Hn Hv. unfold observeIssuanceClockLocked, mbind, ST_bind, get_state, reject, lift, fail_if, set_state, mret, ST_ret.
  simpl. assert (n =? 0 = false) as -> by (apply Z.eqb_neq; lia). rewrite Hv.
  assert (n <=? ls_lastClockSample l = false) as -> by (apply Z.leb_gt; lia).
  rewrite raised_max by (apply Hm || by eapply normalized_nonneg).
  pose proof (normalized_nonneg _ _ Hv). destruct (before v (ls_highWater l)) eqn:Eb; autorewrite with guards in Eb.
  - assert (is_zero (ls_highWater l) = false) as -> by (autorewrite with guards; lia). done.
  - rewrite andb_false_r. by replace (Z.max (ls_highWater l) v) with v by lia.
Qed.

Definition gates_passed (log : list admin_output) (ctx : issueContext) (q : ElevationRequest) (proof : ID * time) (now : time) : Prop :=
  cx_locked ctx = None /\ cx_final ctx = None /\
  er_requestedAt q <= now /\ proof.2 <= now <= proof.2 + MaxStrongAuthProofAge /\
  admins !! ad_id (er_administrator q) = Some (er_administrator q) /\
  proof.1 ∉ gr_proofID <$> issued log /\ er_grantID q ∉ gr_id <$> issued log /\ llen (issued log) < MaxTrackedElevations /\
  now + er_duration q < year_10000.

Definition granted (q : ElevationRequest) (proof : ID * time) (now : time) : Grant :=
  issued_grant q (er_administrator q) proof.1 now (now + er_duration q).

Lemma fresh_proof_ok q now t : fresh_proof q now t = true <-> er_requestedAt q <= now /\ t <= now <= t + MaxStrongAuthProofAge.
Proof.
  unfold fresh_proof. rewrite (Z.ltb_antisym (time_sub now t) MaxStrongAuthProofAge), time_sub_leb by (vm_compute; split; discriminate || done).
  autorewrite with guards. lia.
Qed.

Lemma granted_expiry q now e : request_facts q -> normal now -> er_requestedAt q <= now ->
  normalizeTime (now + er_duration q) = Some e <-> e = now + er_duration q /\ now + er_duration q < year_10000.
Proof.
  intros F Hn Hr. destruct (qf_time _ F) as [[[Hr0 _] _] Hrz]. destruct (qf_duration _ F) as [[Hd _] Hdm].
  split.
  - intros E. pose proof (normalizeTime_normal _ _ E) as [[_ Hlt] _].
    assert (addNormalizedDuration now (er_duration q) = Some e) as Ea.
    { unfold addNormalizedDuration. assert (er_duration q <? 0 = false) as -> by (apply Z.ltb_ge; lia). done. }
    apply addNormalizedDuration_exact in Ea as [-> _]; done.
  - intros [-> Hlt]. apply normalizeTime_id; [|lia]. split; [destruct Hn; lia|].
    destruct Hn as [_ Hnm]. by rewrite Zplus_mod, Hnm, Hdm.
Qed.

Lemma granted_valid q proof now : request_facts q -> validID proof.1 = true -> normal now -> er_requestedAt q <= now ->
  now + er_duration q < year_10000 -> validGrant (granted q proof now) = true.
Proof.
  intros F Hp Hn Hr Hlt. apply validGrant_ok. pose proof (proj2 (granted_expiry q now _ F Hn Hr) (conj eq_refl Hlt)) as He%normalizeTime_normal.
  destruct (qf_time _ F) as [[[? _] _] ?]. destruct (qf_duration _ F) as [[? ?] _].
  pose proof (qf_admin _ F) as (_ & ? & _)%administrator_ok.
  constructor; simpl; try done; try lia; [split; [apply F | done] | apply F | apply F].
Qed.

(** [Issue] under the lock grants exactly when every gate is passed. *)
Lemma commit_exact log l ctx q proof sample g l' : rel log l -> request_facts q -> validID proof.1 = true ->
  Issue_commit ctx q proof sample l = (Ok g, l') <->
  exists now l1, observeIssuanceClockLocked sample l = (Ok now, l1) /\ gates_passed log ctx q proof now /\
    g = granted q proof now /\
    l' = with_grants l1 ({[proof.1]} ∪ ls_proofs l1) (<[er_grantID q := GRec g GrantStateActive zero_time]> (ls_grants l1)).
Proof.
  intros R F Hp. unfold Issue_commit. destruct (observeIssuanceClockLocked sample l) as [obs l1] eqn:Eo.
  destruct (observe_run sample l obs l1 (lg_mark _ _ _ R) Eo) as [(n & m & El1 & Hm & Hge & _) Hnow].
  assert (rel log l1) as R1 by (subst l1; by apply rel_clock).
  assert (forall id, is_some (ls_grants l1 !! id) = false <-> id ∉ gr_id <$> issued log) as Hdom.
  { intros id. rewrite <- (lg_dom _ _ _ R1), <- eq_None_not_Some. by destruct (ls_grants l1 !! id). }
  assert (proof.1 ∈ ls_proofs l1 <-> proof.1 ∈ gr_proofID <$> issued log) as Hpr
    by (rewrite (lg_proofs _ _ _ R1); apply elem_of_list_to_set).
  destruct (lg_size _ _ _ R1) as [Hsz _]. pose proof (lg_admins _ _ _ R1) as Had. split.
  - intros E. destruct obs as [now|e].
    2: { exfalso. unfold lift, mbind, ST_bind in E. by destruct (context_ok _). }
    run_inv E. rename x0 into now.
    repeat match goal with G : context_ok _ = Ok _ |- _ => unfold context_ok in G; case_match; [discriminate G|]; clear G end.
    rename Hr0 into Hfresh, Hr1 into Hadm, Hr2 into Hmatch, Hr3 into Hproof, Hr4 into Hgrant, Hr5 into Hroom, Hr6 into Hexp.
    assert (normal now) as Hn by (rewrite (Hnow now eq_refl); apply R1).
    apply negb_false, fresh_proof_ok in Hfresh as [Hreq Hage].
    apply orb_false_iff in Hmatch as [Heq _]. apply negb_false, equalAdministrator_ok in Heq as [_ ->].
    apply Hdom in Hgrant. apply bool_decide_eq_false in Hproof. rewrite Hpr in Hproof. apply Z.leb_gt in Hroom.
    unfold normalizeContractTime in Hexp. apply of_option_ok in Hexp. apply granted_expiry in Hexp as [-> Hlt]; [|done..].
    eexists now, _. split; [done|]. rewrite Had in Hadm. rewrite Hsz in Hroom. done.
  - intros (now & l2 & [= -> ->] & (Hc1 & Hc2 & Hreq & Hage & Hadm & Hproof & Hgrant & Hroom & Hlt) & -> & ->).
    assert (now = m) as -> by (rewrite (Hnow now eq_refl); by subst l2).
    pose proof (granted_valid q proof m F Hp Hm Hreq Hlt) as Hv.
    unfold mbind, ST_bind. cbn beta iota delta [lift reject get_state set_state mret ST_ret context_ok].
    rewrite Hc1, Hc2. cbn beta iota.
    rewrite (proj2 (fresh_proof_ok q m proof.2)) by done. cbn [negb fail_if]. rewrite Had, Hadm. cbn [of_option].
    rewrite (proj2 (equalAdministrator_ok _ _)), (qf_match _ F) by (split; [apply F | done]).
    cbn [negb orb fail_if]. rewrite bool_decide_eq_false_2 by (by rewrite Hpr). rewrite (proj2 (Hdom _) Hgrant), Hsz.
    assert (MaxTrackedElevations <=? llen (issued log) = false) as -> by (apply Z.leb_gt; lia).
    unfold normalizeContractTime. rewrite (proj2 (granted_expiry q m _ F Hm Hreq) (conj eq_refl Hlt)). cbn [of_option map_err].
    unfold granted in Hv. rewrite Hv. done.
Qed.

(** A refused commit changes nothing but the clock. *)
Lemma commit_refused ctx q proof sample l e l' : Issue_commit ctx q proof sample l = (Err e, l') ->
  l' = (observeIssuanceClockLocked sample l).2.
Proof.
  unfold Issue_commit. destruct (observeIssuanceClockLocked sample l) as [obs l1]. simpl.
  unfold mbind, ST_bind, reject, lift, get_state, set_state, mret, ST_ret. intros E.
  repeat (case_match; simplify_eq); done.
Qed.

(** The samples handed out number the calls. *)
Definition samples_ok (l : ledgerState) (pending : list issuanceClockSample) : Prop :=
  0 <= ls_lastClockSample l <= ls_clockSamples l /\ Forall (fun s => 0 <= cs_sequence s <= ls_clockSamples l) pending.

Lemma issue_proof_valid ctx verdict proof : Issue_proof ctx verdict = Ok proof -> validID proof.1 = true /\ normal proof.2.
Proof.
  unfold Issue_proof. intros E. run_inv E. destruct verdict as [[id t]|chain]; [|done]. run_inv E.
  autorewrite with guards in *. split; [done | by eapply normalizeTime_normal].
Qed.

Lemma issue_request_valid ctx token q u : Issue_request ctx token q = Ok u -> request_facts q.
Proof.
  unfold Issue_request. intros E. run_inv E. autorewrite with guards in *. apply request_valid.
  destruct_and!. match goal with G : result_ok (ValidateElevationRequest _) = true |- _ => by apply result_ok_true in G as [[] ?] end.
Qed.

Lemma commit_rel log l ctx q proof sample r l' : rel log l -> request_facts q -> validID proof.1 = true ->
  Issue_commit ctx q proof sample l = (r, l') ->
  rel (answer OIssued r :: log) l' /\ ls_highWater l <= ls_highWater l' /\ ls_clockSamples l' = ls_clockSamples l /\
  ls_lastClockSample l <= ls_lastClockSample l' <= Z.max (ls_lastClockSample l) (cs_sequence sample).
Proof.
  intros R F Hp E. destruct (observeIssuanceClockLocked sample l) as [obs l1] eqn:Eo.
  destruct (observe_run sample l obs l1 (lg_mark _ _ _ R) Eo) as [(n & m & -> & Hm & Hge & Hn) Hnow].
  assert (rel log (with_clock l n m)) as R1 by by apply rel_clock. destruct r as [g|e].
  - apply (commit_exact log l ctx q proof sample g l' R F Hp) in E as (now & l2 & Eo' & Hgates & -> & ->).
    rewrite Eo in Eo'. injection Eo' as -> <-. pose proof (Hnow now eq_refl) as ->.
    destruct Hgates as (_ & _ & Hreq & _ & Hadm & Hpf & Hid & Hroom & Hlt). split; [|done]. simpl answer.
    apply (rel_issue log (with_clock l n m) (granted q proof m)); simpl; try done.
    by apply granted_valid.
  - apply commit_refused in E as ->. rewrite Eo. split; [by apply rel_output | done].
Qed.

Lemma sample_rel log l t : rel log l -> rel log (sampleIssuanceClock t l).2.
Proof. intros []. unfold sampleIssuanceClock. case_match; by constructor. Qed.

Lemma step_rel log w e o w' : rel log (w_ledger w) -> samples_ok (w_ledger w) (w_pending w) -> admin_step e w = (o, w') ->
  rel (o :: log) (w_ledger w') /\ samples_ok (w_ledger w') (w_pending w') /\ ls_highWater (w_ledger w) <= ls_highWater (w_ledger w').
Proof.
  destruct w as [l p]. simpl. intros R S E. destruct e as [t|n ctx token q verdict|now g|now g a t|now g]; simpl in E.
  - pose proof (sample_rel log l t R) as R'. unfold sampleIssuanceClock in *. destruct S as [S1 S2].
    destruct (negb (ls_present l) || (ls_clockSamples l =? max_uint64)) eqn:G; injection E as <- <-; simpl in *.
    + split; [by apply rel_output|]. split; [|done]. split; [done|]. constructor; [simpl; lia | done].
    + split; [by apply rel_output|]. split; [|done]. split; [simpl; lia|]. simpl. constructor; [simpl; lia|].
      eapply Forall_impl; [exact S2|]. simpl. lia.
  - destruct (p !! n) as [sample|] eqn:Hs; [|injection E as <- <-; split; [by apply rel_output | done]].
    destruct S as [S1 S2]. pose proof (Forall_lookup_1 _ _ _ _ S2 Hs) as Hseq. simpl in Hseq.
    assert (Forall (fun s => 0 <= cs_sequence s <= ls_clockSamples l) (delete n p)) as S3
      by by apply Forall_delete.
    destruct (Issue_after ctx token q verdict sample l) as [r l'] eqn:Ei. injection E as <- <-. simpl.
    unfold Issue_after, mbind, ST_bind, lift in Ei.
    destruct (Issue_request ctx token q) as [u|e] eqn:Eq; [|injection Ei as <- <-; split; [by apply rel_output | done]].
    destruct (Issue_proof ctx verdict) as [proof|e] eqn:Ep; [|injection Ei as <- <-; split; [by apply rel_output | done]].
    apply (commit_rel log) in Ei as (R' & Hm & Hc & Hl); [|done|by eapply issue_request_valid|by apply issue_proof_valid in Ep as []].
    split; [done|]. split; [|done]. split; rewrite Hc; [lia | done].
  - destruct (state_run log l now g R) as (l' & E' & R' & Hm & Hc & Hl). rewrite E' in E. injection E as <- <-. simpl.
    split; [done|]. split; [|done]. unfold samples_ok. by rewrite Hc, Hl.
  - destruct (consume_run log l now g a t R) as (l' & E' & R' & Hm & Hc & Hl). rewrite E' in E. injection E as <- <-. simpl.
    split; [done|]. split; [|done]. unfold samples_ok. by rewrite Hc, Hl.
  - destruct (revoke_run log l now g R) as (l' & E' & R' & Hm & Hc & Hl). rewrite E' in E. injection E as <- <-. simpl.
    split; [done|]. split; [|done]. unfold samples_ok. by rewrite Hc, Hl.
Qed.
End Rel.

(** ** The configured administrators *)

Lemma index_administrators_ok l : forall m k m', index_administrators l m k = Ok m' ->
  forall id a, m' !! id = Some a <-> m !! id = Some a \/ (a ∈ l /\ ad_id a = id /\ ValidateAdministrator a = Ok tt).
Proof.
  induction l as [|b l IH]; intros m k m' E; cbn [index_administrators] in E.
  { injection E as <-. intros id a. split; [by left | intros [?|(Hin & _)]; [done | by apply elem_of_nil in Hin]]. }
  run_inv E. autorewrite with guards in *. apply result_ok_true in Hr as [[] Hv].
  assert (m !! ad_id b = None) as Hb by (by destruct (m !! ad_id b)).
  intros id a. rewrite (IH _ _ _ E), elem_of_cons. destruct (decide (id = ad_id b)) as [->|Hne].
  - rewrite lookup_insert_eq, Hb. split.
    + intros [[= <-]|?]; right; tauto.
    + intros [?|([->|?] & ? & ?)]; [done | by left | right; tauto].
  - rewrite lookup_insert_ne by done. split; [tauto|]. intros [?|([->|?] & ? & ?)]; [tauto | congruence | tauto].
Qed.

Lemma NewLedger_ok administrators l : NewLedger administrators false false = Ok l ->
  l = LS true 0 0 (ls_administrators l) ∅ ∅ zero_time /\
  forall id a, ls_administrators l !! id = Some a <-> a ∈ administrators /\ ad_id a = id /\ ValidateAdministrator a = Ok tt.
Proof.
  unfold NewLedger. intros E. run_inv E. simpl. split; [done|]. intros id a.
  rewrite (index_administrators_ok _ _ _ _ Hr1), lookup_empty. naive_solver.
Qed.

Lemma history_rel administrators l0 log w : NewLedger administrators false false = Ok l0 -> history l0 log w ->
  log_rel (ls_administrators l0) log (w_ledger w) /\ samples_ok (w_ledger w) (w_pending w).
Proof.
  intros E0 Hh. apply NewLedger_ok in E0 as [E0 _]. induction Hh as [|log w e o w' Hh [R S] E].
  - split; [|rewrite E0; split; [done | constructor]]. rewrite E0 at 2. constructor; simpl; try done; try (by constructor).
    + intros id. rewrite lookup_empty. split; [by intros [] | intros Hin; by apply elem_of_nil in Hin].
    + intros g Hin. by apply elem_of_nil in Hin.
    + intros g st t Hin. by apply elem_of_nil in Hin.
    + intros g Hin. by apply elem_of_nil in Hin.
  - by destruct (step_rel _ log w e o w' R S E) as (? & ? & _).
Qed.

Lemma history_suffix l0 post : forall pre w, history l0 (post ++ pre) w -> exists w', history l0 pre w'.
Proof.
  induction post as [|o post IH]; intros pre w Hh; [by exists w|]. inversion Hh; subst. by eapply IH.
Qed.

(** C7: elevation is one-use.  In every history of interleaved calls no grant
    ID and no authentication proof is issued twice, at most 1000 grants are
    ever issued, and no grant is spent twice, by use or by revocation or by one
    of each.  Whatever is spent was issued before, and is spent within its
    lifetime, which is at most fifteen minutes; its holder is one of the
    configured administrators, a human, and its action is eligible on its
    target. *)
Theorem elevation_used_once (administrators : list Administrator) (l0 : ledgerState) (log : list admin_output) (w : world)
  (Hnew : NewLedger administrators false false = Ok l0) (Hh : history l0 log w) :
  NoDup (gr_id <$> issued log) /\ NoDup (gr_proofID <$> issued log) /\ llen (issued log) <= MaxTrackedElevations /\
  NoDup (spent_ids log) /\
  (forall post o pre g st t, log = post ++ o :: pre -> spending o = Some (g, st, t) ->
     g ∈ issued pre /\ gr_issuedAt g <= t < gr_expiresAt g) /\
  (forall g, g ∈ issued log -> gr_issuedAt g < gr_expiresAt g <= gr_issuedAt g + MaxElevationDuration /\
     validActionTarget (gr_action g) (gr_target g) = true /\
     exists a, a ∈ administrators /\ ad_id a = gr_administratorID g /\ ad_kind a = KindHuman).
Proof.
  destruct (history_rel _ _ _ _ Hnew Hh) as [R _]. destruct (NewLedger_ok _ _ Hnew) as [_ Hadm].
  split; [apply R|]. split; [apply R|]. split; [apply R|]. split; [apply R|]. split.
  - intros post o pre g st t -> Ho. destruct (history_suffix _ _ _ _ Hh) as [w' Hh'].
    destruct (history_rel _ _ _ _ Hnew Hh') as [R' _].
    destruct (lg_spending _ _ _ R' g st t) as [Hg Ht]; [unfold spent; simpl; rewrite Ho; constructor|].
    split; [|done]. by destruct o.
  - intros g Hg. destruct (lg_issued _ _ _ R g Hg) as (Hv & _). apply validGrant_ok in Hv.
    pose proof (gf_life _ Hv). pose proof (gf_order _ Hv). split; [lia|]. split; [apply Hv|].
    destruct (lg_holder _ _ _ R g Hg) as [a (Hin & Hid & Ha)%Hadm]. exists a. by apply administrator_ok in Ha as (_ & _ & ? & _).
Qed.

(** C22: the ledger implements its log.  After any history the answers of
    [StateAt], [Consume] and [Revoke] are those computed from the log of what
    was issued and spent, the latest time observed and the time of the call:
    a handle must be the very grant that was issued, time may not go back, a
    spent grant stays as it was spent, an unspent one is active before its
    expiry and expired from then on, and only its exact action and target
    consume it.  The check of the receipt never fails. *)
Theorem ledger_answers_from_log (administrators : list Administrator) (l0 : ledgerState) (log : list admin_output) (w : world)
  (Hnew : NewLedger administrators false false = Ok l0) (Hh : history l0 log w) (now : time) (g : Grant) :
  let l := w_ledger w in let mark := ls_highWater l in
  (Ledger_StateAt now g l).1 = log_state log mark now g /\
  (forall a t, (Ledger_Consume now g a t l).1 = log_consume log mark now g a t) /\
  (Ledger_Revoke now g l).1 = log_revoke log mark now g.
Proof.
  destruct (history_rel _ _ _ _ Hnew Hh) as [R _]. cbv zeta. split; [|split].
  - by destruct (state_run _ log _ now g R) as (l' & -> & _).
  - intros a t. by destruct (consume_run _ log _ now g a t R) as (l' & -> & _).
  - by destruct (revoke_run _ log _ now g R) as (l' & -> & _).
Qed.

(** C35: issuance is exact.  For a valid request and a verified proof the part
    of [Issue] under the lock succeeds exactly when the clock observation is
    accepted, the context is alive, the request and the proof are not in the
    future, the proof is at most five minutes old, the administrator is one of
    the configured ones, neither the proof nor the grant ID was ever used,
    fewer than 1000 grants were issued, and the expiry is representable.  The
    grant is the request's, from the time observed for the requested duration;
    that time is the new high-water mark. *)
Theorem issue_exact (administrators : list Administrator) (l0 : ledgerState) (log : list admin_output) (w : world)
  (Hnew : NewLedger administrators false false = Ok l0) (Hh : history l0 log w)
  (ctx : issueContext) (q : ElevationRequest) (proof : ID * time) (sample : issuanceClockSample)
  (Hq : ValidateElevationRequest q = Ok tt) (Hp : validID proof.1 = true) (g : Grant) :
  (exists l', Issue_commit ctx q proof sample (w_ledger w) = (Ok g, l')) <->
  exists now l1, observeIssuanceClockLocked sample (w_ledger w) = (Ok now, l1) /\
    ls_highWater (w_ledger w) <= now /\ now = ls_highWater l1 /\
    cx_locked ctx = None /\ cx_final ctx = None /\ er_requestedAt q <= now /\
    proof.2 <= now <= proof.2 + MaxStrongAuthProofAge /\ er_administrator q ∈ administrators /\
    proof.1 ∉ gr_proofID <$> issued log /\ er_grantID q ∉ gr_id <$> issued log /\
    llen (issued log) < MaxTrackedElevations /\ now + er_duration q < year_10000 /\
    g = granted q proof now.
Proof.
  destruct (history_rel _ _ _ _ Hnew Hh) as [R _]. destruct (NewLedger_ok _ _ Hnew) as [_ Hadm].
  pose proof (request_valid q Hq) as F. pose proof (qf_admin _ F) as Ha.
  assert (ls_administrators l0 !! ad_id (er_administrator q) = Some (er_administrator q) <-> er_administrator q ∈ administrators)
    as Hreg by (rewrite Hadm; tauto).
  setoid_rewrite (commit_exact _ log _ ctx q proof sample g _ R F Hp). unfold gates_passed. setoid_rewrite Hreg. split.
  - intros (l' & now & l1 & Eo & Hg & -> & _). exists now, l1.
    destruct (observe_run _ _ _ _ (lg_mark _ _ _ R) Eo) as [(n & m & -> & _ & Hge & _) Hnow].
    pose proof (Hnow now eq_refl) as ->. naive_solver.
  - intros (now & l1 & Eo & Hg). eexists _, now, l1. split; [done|]. naive_solver.
Qed.

(** A fresh rollback of the clock fails closed.  A call of [Issue] that no
    other call overlaps is the sampling step followed by the commit step; when
    its clock reading lies before the high-water mark it is refused, with
    grants, proofs and mark unchanged; and when it succeeds the grant starts
    at its own clock reading. *)
Theorem sequential_issue_fresh (administrators : list Administrator) (l0 : ledgerState) (log : list admin_output) (w : world)
  (Hnew : NewLedger administrators false false = Ok l0) (Hh : history l0 log w)
  (ctx : issueContext) (token : string) (q : ElevationRequest)
  (verdict : result (list StrongAuthenticationError) (ID * time)) (clock : time)
  (Hroom : ls_clockSamples (w_ledger w) <> max_uint64) :
  let '(r, l') := Ledger_Issue ctx token q verdict clock (w_ledger w) in
  (Issue_request ctx token q = Ok tt -> result_ok (Issue_proof ctx verdict) = true ->
     admin_step (AeIssue 0 ctx token q verdict) (admin_step (AeSample clock) w).2 = (answer OIssued r, Wd l' (w_pending w))) /\
  (forall v, normalizeTime clock = Some v -> v < ls_highWater (w_ledger w) ->
     Issue_request ctx token q = Ok tt -> result_ok (Issue_proof ctx verdict) = true -> cx_locked ctx = None ->
     r = Err ErrClockRegressed /\ ls_grants l' = ls_grants (w_ledger w) /\ ls_proofs l' = ls_proofs (w_ledger w) /\
     ls_highWater l' = ls_highWater (w_ledger w)) /\
  (forall g, r = Ok g -> normalizeTime clock = Some (gr_issuedAt g)).
Proof.
  destruct (history_rel _ _ _ _ Hnew Hh) as [R [S _]]. destruct w as [l p]. simpl in *.
  destruct (Ledger_Issue ctx token q verdict clock l) as [r l'] eqn:E.
  assert (sampleIssuanceClock clock l = (ICS (ls_clockSamples l + 1) (Some clock),
    LS (ls_present l) (ls_clockSamples l + 1) (ls_lastClockSample l) (ls_administrators l) (ls_proofs l) (ls_grants l)
       (ls_highWater l))) as Es.
  { unfold sampleIssuanceClock. rewrite (lg_present _ _ _ R). by rewrite (proj2 (Z.eqb_neq _ _) Hroom). }
  unfold Ledger_Issue, mbind, ST_bind, reject, lift, get_state, set_state, fail_if in E. rewrite (lg_present _ _ _ R), Es in *.
  cbn [negb] in E. unfold Issue_after, mbind, ST_bind, lift in *.
  destruct (Issue_request ctx token q) as [[]|e] eqn:Eq; [|injection E as <- <-; done].
  destruct (Issue_proof ctx verdict) as [proof|e] eqn:Ep; [|injection E as <- <-; done].
  set (l1 := LS _ _ _ _ _ _ _) in *. set (sample := ICS _ _) in *. simpl. split; [intros _ _; by rewrite E|].
  assert (forall v, normalizeTime clock = Some v -> observeIssuanceClockLocked sample l1 =
    if before v (ls_highWater l) then (Err ErrClockRegressed, with_clock l1 (ls_clockSamples l + 1) (ls_highWater l))
    else (Ok v, with_clock l1 (ls_clockSamples l + 1) v)) as Hobs
    by (intros v Hv; apply (observe_fresh l1); [apply R | simpl; lia | simpl; lia | done]).
  split.
  - intros v Hv Hlt _ _ Hctx. unfold Issue_commit in E. rewrite (Hobs v Hv) in E.
    rewrite (proj2 (before_true _ _) Hlt) in E. unfold mbind, ST_bind, lift, context_ok in E. rewrite Hctx in E.
    injection E as <- <-. done.
  - intros g ->. assert (log_rel (ls_administrators l0) log l1) as R1.
    { pose proof (sample_rel _ log l clock R) as R'. by rewrite Es in R'. }
    destruct (issue_proof_valid _ _ _ Ep) as [Hid _]. pose proof (issue_request_valid _ _ _ _ Eq) as F.
    destruct (proj1 (commit_exact _ log l1 ctx q proof sample g l' R1 F Hid) E) as (now & l2 & Eo & _ & -> & _). simpl.
    destruct (normalizeTime clock) as [v|] eqn:Hv.
    + rewrite (Hobs v eq_refl) in Eo. case_match; [done|]. by injection Eo as <- <-.
    + unfold observeIssuanceClockLocked, mbind, ST_bind, get_state, reject, lift, fail_if, set_state, throw in Eo. simpl in Eo.
      rewrite Hv in Eo. by destruct (ls_clockSamples l + 1 =? 0).
Qed.

(** Histories run forward. *)
Fixpoint admin_run (events : list admin_event) (log : list admin_output) (w : world) : list admin_output * world :=
  match events with
  | [] => (log, w)
  | e :: rest => let '(o, w') := admin_step e w in admin_run rest (o :: log) w'
  end.

Lemma admin_run_history l0 events : forall log w, history l0 log w ->
  history l0 (admin_run events log w).1 (admin_run events log w).2.
Proof.
  induction events as [|e events IH]; intros log w Hh; [done|]. simpl. destruct (admin_step e w) as [o w'] eqn:E.
  apply IH. by eapply history_next.
Qed.
End Elevation.

(** ** A ledger at work *)

Definition ae_now : time := (unix_epoch_days + 20454) * day.
Definition ae_administrator : Administrator := Adm true "administrator-000001" KindHuman s_logical.
Definition ae_target : Target :=
  ATg true TargetKindOperation (Some "operation-0000000001") (Some "workspace-0000000001") (Some "resource-00000000001") None None.
Definition ae_request : ElevationRequest :=
  ERq true "grant-0000000000001" ae_administrator s_principal ActionOperationQuarantine ae_target "stuck effect" "" ae_now (10 * minute).
Definition ae_context : issueContext := ICtx false None None None None.
Definition ae_verdict : result (list StrongAuthenticationError) (ID * time) := Ok ("proof-0000000000001", ae_now - minute).
Definition ae_proof : ID * time := ("proof-0000000000001", ae_now - minute).
Definition ae_grant : Grant := granted ae_request ae_proof (ae_now + second).
Definition ae_ledger : ledgerState := LS true 0 0 {["administrator-000001" := ae_administrator]} ∅ ∅ zero_time.

(** The grant is issued, used, and then refused to a second use, to a
    revocation and to a replay of the proof. *)
Definition ae_events : list admin_event :=
  [AeSample (ae_now + second); AeIssue 0 ae_context "token" ae_request ae_verdict;
   AeConsume (ae_now + minute) ae_grant ActionOperationQuarantine ae_target;
   AeConsume (ae_now + minute) ae_grant ActionOperationQuarantine ae_target; AeRevoke (ae_now + minute) ae_grant;
   AeSample (ae_now + 2 * minute); AeIssue 0 ae_context "token" ae_request ae_verdict].

Definition ae_log : list admin_output :=
  [ORefused ErrStrongAuthProofReplayed; OSampled; ORefused ErrGrantConsumed; ORefused ErrGrantConsumed;
   OConsumed (CRc true ae_grant (ae_now + minute)); OIssued ae_grant; OSampled].

Definition ae_final : world := (admin_run (H := s_uris) ae_events [] (Wd ae_ledger [])).2.

Lemma ae_new : NewLedger (H := s_uris) [ae_administrator] false false = Ok ae_ledger.
Proof. vm_compute. reflexivity. Qed.

Lemma ae_history : history (H := s_uris) ae_ledger ae_log ae_final.
Proof.
  assert ((admin_run (H := s_uris) ae_events [] (Wd ae_ledger [])).1 = ae_log) as E by (vm_compute; reflexivity).
  rewrite <- E. unfold ae_final. apply admin_run_history. apply history_start.
Qed.

Lemma elevation_used_once_witness :
  issued ae_log = [ae_grant] /\ NoDup (spent_ids ae_log) /\ ae_grant ∈ issued [OIssued ae_grant; OSampled] /\
  exists a, a ∈ [ae_administrator] /\ ad_id a = gr_administratorID ae_grant.
Proof.
  destruct (elevation_used_once (H := s_uris) [ae_administrator] ae_ledger ae_log ae_final ae_new ae_history)
    as (_ & _ & _ & Hs & Hp & Hg).
  split; [reflexivity|]. split; [exact Hs|]. split.
  - apply (Hp [ORefused ErrStrongAuthProofReplayed; OSampled; ORefused ErrGrantConsumed; ORefused ErrGrantConsumed]
             (OConsumed (CRc true ae_grant (ae_now + minute))) [OIssued ae_grant; OSampled] ae_grant GrantStateConsumed
             (ae_now + minute)); reflexivity.
  - destruct (Hg ae_grant) as (_ & _ & a & Ha & Hid & _); [left|]. exists a. split; assumption.
Defined.

(** After its expiry the used grant is still reported as consumed. *)
Lemma ledger_answers_from_log_witness :
  (Ledger_StateAt (ae_now + hour) ae_grant (w_ledger ae_final)).1 = Ok GrantStateConsumed /\
  (Ledger_Revoke (ae_now + hour) ae_grant (w_ledger ae_final)).1 = Err ErrGrantConsumed.
Proof.
  destruct (ledger_answers_from_log (H := s_uris) [ae_administrator] ae_ledger ae_log ae_final ae_new ae_history
              (ae_now + hour) ae_grant) as (Hs & _ & Hr).
  split; [rewrite Hs | rewrite Hr]; vm_compute; reflexivity.
Defined.

Definition ae_request2 : ElevationRequest :=
  ERq true "grant-0000000000002" ae_administrator s_principal ActionWorkRedrive ae_target "retry" "case-1" ae_now (15 * minute).
Definition ae_proof2 : ID * time := ("proof-0000000000002", ae_now).
Definition ae_sample2 : issuanceClockSample := ICS 3 (Some (ae_now + 3 * minute)).

Lemma issue_exact_witness :
  exists now l1, observeIssuanceClockLocked ae_sample2 (w_ledger ae_final) = (Ok now, l1) /\
    er_administrator ae_request2 ∈ [ae_administrator] /\ now <= ae_proof2.2 + MaxStrongAuthProofAge.
Proof.
  assert (ValidateElevationRequest (H := s_uris) ae_request2 = Ok tt) as Hq by (vm_compute; reflexivity).
  assert (validID ae_proof2.1 = true) as Hp by (vm_compute; reflexivity).
  assert ((Issue_commit (H := s_uris) ae_context ae_request2 ae_proof2 ae_sample2 (w_ledger ae_final)).1 =
          Ok (granted ae_request2 ae_proof2 (ae_now + 3 * minute))) as Hc by (vm_compute; reflexivity).
  destruct (proj1 (issue_exact (H := s_uris) [ae_administrator] ae_ledger ae_log ae_final ae_new ae_history ae_context ae_request2
                     ae_proof2 ae_sample2 Hq Hp (granted ae_request2 ae_proof2 (ae_now + 3 * minute))))
    as (now & l1 & Ho & _ & _ & _ & _ & _ & Ha & Hr & _).
  - exists (Issue_commit (H := s_uris) ae_context ae_request2 ae_proof2 ae_sample2 (w_ledger ae_final)).2.
    rewrite <- Hc. apply surjective_pairing.
  - exists now, l1. split; [exact Ho|]. split; [exact Hr | apply Ha].
Defined.

Lemma sequential_issue_fresh_witness :
  (Ledger_Issue (H := s_uris) ae_context "token" ae_request2 (Ok ae_proof2) ae_now (w_ledger ae_final)).1 = Err ErrClockRegressed.
Proof.
  assert (ls_clockSamples (w_ledger ae_final) <> max_uint64) as Hc by (vm_compute; discriminate).
  pose proof (sequential_issue_fresh (H := s_uris) [ae_administrator] ae_ledger ae_log ae_final ae_new ae_history ae_context "token"
                ae_request2 (Ok ae_proof2) ae_now Hc) as Hs.
  destruct (Ledger_Issue (H := s_uris) ae_context "token" ae_request2 (Ok ae_proof2) ae_now (w_ledger ae_final)) as [r l'].
  destruct Hs as (_ & Hs & _). apply (Hs ae_now); vm_compute; reflexivity.
Defined.
