(* ===== verification/AdministrationTargets.v ===== *)
(** * Privileged targets and authorization targets

    [administration.ResolveOperationTarget] and
    [authorization.ResolveOperationTarget] are written independently, with
    different lookups in different orders; on the snapshot of a workspace they
    accept the same operations. *)

From S2P Require Import Prelude Bytes GoTime Closed Digests Hierarchy HierarchyProps Identity AuthzVocabulary Authorization TargetProps.
From S2P Require Import Control Operation OperationProps PlanProps Administration.
From Stdlib Require Import String.

Section Agree.
Context (ws : ID) (records : list Record) (Ht : tree ws records).
Let s := snapshot_of ws records.
Let index := index_of records.

(** The binding of an operation holds in the tree: its resource is there, and
    the connection it names is a child of the environment it names, the one
    the resource lives in. *)
Definition binding_holds (o : Operation) : Prop :=
  op_WorkspaceID o = ws /\ exists r, index !! op_ResourceID o = Some r /\
  match op_EnvironmentID o, op_ProviderConnectionID o with
  | Some e, Some c => environment_above index (op_ResourceID o) e /\
      exists cr, index !! c = Some cr /\ r_kind cr = KindProviderConnection /\ r_parent cr = Some e
  | None, None => True
  | _, _ => False
  end.

(** The environment of a connection is its parent. *)
Lemma connection_environment c cr e : index !! c = Some cr -> r_kind cr = KindProviderConnection ->
  resolveRecordEnvironment s cr = Ok (Some e) <-> r_parent cr = Some e.
Proof.
  intros Hc Hk. destruct (tree_parent ws records Ht c cr Hc) as (p & parent & Hp & Hl & Hpk & _ & Hid & _); [by rewrite Hk|].
  destruct (tree_record ws records Ht c cr Hc) as (_ & _ & _ & _ & Hw & _).
  unfold resolveRecordEnvironment. rewrite Hk, Hp, Hw. rewrite Hk in Hpk.
  unfold s. rewrite (owned_parent_ok ws records Ht p KindEnvironment parent Hl Hpk). simpl. rewrite Hid. naive_solver.
Qed.

Lemma snapshot_lookup_ok id r : Snapshot_Lookup s id = Ok r <-> index !! id = Some r.
Proof. unfold s, index. rewrite <- (lookup_target_ok ws records Ht). unfold lookup_target. by rewrite map_err_ok. Qed.

Lemma sealed_resource id t : ResolveResourceTarget s id = Ok t ->
  exists r, index !! id = Some r /\ tg_workspaceID t = ws /\ forall e, tg_environmentID t = Some e <-> environment_above index id e.
Proof.
  unfold ResolveResourceTarget. intros E. run_inv E. apply (lookup_target_ok ws records Ht) in Hr. exists x.
  destruct (tree_record ws records Ht _ _ Hr) as (Hin & Hid & _).
  destruct (targetFromRecord_ok ws records Ht _ _ _ _ _ Hin E) as ((_ & _ & _ & _ & _ & Hw & He) & _). by rewrite Hid in He.
Qed.

(** A target for an operation on a record always validates. *)
Lemma operation_record_target op id r c e : validID op = true -> index !! id = Some r ->
  match c with Some c => validID c = true /\ environment_above index id e | None => True end ->
  exists t, targetFromRecord s ObjectKindOperation op r c = Ok t.
Proof.
  intros Hop Hr Hc. destruct (resolve_environment ws records Ht id r Hr) as (o & Ho & He & Hw).
  destruct (tree_record ws records Ht id r Hr) as (_ & Hid & Hvid & Hkn & Hws & Hp).
  unfold targetFromRecord, s. rewrite Ho. cbn [mbind result_bind]. unfold Authorization.newTarget.
  assert (Authorization.ValidateTarget (Tg true ObjectKindOperation op (r_kind r) (r_id r) (r_workspaceID r) o c) = true) as ->; [|by eexists].
  unfold Authorization.ValidateTarget. cbn -[validID wantsEnvironment Kind_known].
  rewrite Hkn, Hop, Hid, Hvid, Hws, (tr_workspace _ _ Ht), <- Hw, Bool.eqb_reflx.
  assert (bool_decide (r_kind r = KindWorkspace) && negb (String.eqb id ws) = false) as ->.
  { unfold placed, is_workspace in Hp. case_bool_decide; [|done]. destruct Hp as [Hp _]. rewrite <- Hid, Hp. by rewrite String.eqb_refl. }
  assert (match o with Some e0 => validID e0 | None => true end = true) as ->.
  { destruct o as [e0|]; [|done]. apply (environment_valid ws records Ht id). by apply He. }
  destruct c as [c|]; [|done]. destruct Hc as [-> Ha]. apply He in Ha as ->. done.
Qed.

Lemma administration_binding o t : Operation.Validate o = Ok tt ->
  Administration.ResolveOperationTarget s o = Ok t <->
  binding_holds o /\ t = ATg true TargetKindOperation (Some (op_ID o)) (Some (op_WorkspaceID o)) (Some (op_ResourceID o))
                           (op_EnvironmentID o) (op_ProviderConnectionID o).
Proof.
  intros Hv. pose proof (operation_valid o Hv) as [Oid Ows Ores Obind _]. split.
  - unfold Administration.ResolveOperationTarget, sealing. intros E. run_inv E. autorewrite with guards in *.
    match goal with G : ResolveResourceTarget s _ = Ok _ |- _ => apply sealed_resource in G as (r & Hr' & Hw & He) end.
    change (s_workspaceID s) with ws in *. unfold newTarget in E. case_match; [|done]. injection E as <-.
    unfold bound_connection in *. unfold binding_holds, validateBinding in *.
    destruct (op_EnvironmentID o) as [e|], (op_ProviderConnectionID o) as [c|]; try done.
    + match goal with G : _ = Ok ?p |- context [ATg _ _ _ _ _ _ ?p] => rename G into Hp end.
      apply bind_ok in Hp as (cr & Hcr & Hp). unfold sealing in Hcr. apply map_err_ok, snapshot_lookup_ok in Hcr.
      apply bind_ok in Hp as (? & G1%fail_if_ok & Hp). apply bind_ok in Hp as (? & G2%fail_if_ok & Hp). injection Hp as <-.
      autorewrite with guards in *. destruct_and!. split; [|done]. split; [congruence|]. exists r. split; [done|].
      split; [|by exists cr]. apply He.
      match goal with G : is_some (Some e) && _ = false |- _ => apply orb_false_iff in G as [_ G] end.
      by match goal with G : negb (bool_decide (_ = Some e)) = false |- _ => apply negb_false, bool_decide_eq_true in G end.
    + match goal with G : Ok None = Ok _ |- _ => injection G as <- end. split; [|done]. split; [congruence|]. by exists r.
  - intros [(Hw & r & Hr & Hb) ->]. unfold Administration.ResolveOperationTarget, bound_connection, sealing, mbind, result_bind.
    rewrite Hv. cbn [map_err].
    change (s_workspaceID s) with ws. rewrite <- Hw, String.eqb_refl. cbn [negb fail_if].
    rewrite (proj2 (snapshot_lookup_ok _ _) Hr). destruct (tree_record ws records Ht _ _ Hr) as (Hin & Hid & _ & _ & Hrw & _).
    cbn [sealing map_err]. rewrite Hrw, <- Hw, String.eqb_refl. cbn [negb fail_if].
    destruct (resource_target ws records Ht r Hin) as [t Et]. rewrite Hid in Et. fold s in Et. rewrite Et. cbn [sealing map_err].
    destruct (sealed_resource _ _ Et) as (_ & _ & Htw & He). rewrite Htw, <- Hw, String.eqb_refl. cbn [negb fail_if].
    unfold bound_connection, newTarget, validateBinding in *.
    destruct (op_EnvironmentID o) as [e|], (op_ProviderConnectionID o) as [c|]; try done.
    + destruct Hb as (Ha & cr & Hc & Hk & Hpar). apply He in Ha. rewrite Ha. cbn [is_some negb]. rewrite bool_decide_eq_true_2 by done.
      cbn [negb orb andb fail_if]. rewrite (proj2 (snapshot_lookup_ok _ _) Hc). cbn [sealing map_err mbind result_bind].
      destruct (tree_record ws records Ht _ _ Hc) as (_ & _ & _ & _ & Hcw & _).
      rewrite Hk, Hcw, Hpar, <- Hw, String.eqb_refl, !bool_decide_eq_true_2 by done. cbn [is_some negb orb fail_if].
      apply fail_if_ok in Obind. autorewrite with guards in Obind. destruct Obind as [Ve Vc].
      unfold ValidateTarget. cbn -[validID]. by rewrite Oid, Ows, Ores, Ve, Vc.
    + cbn [is_some andb fail_if]. unfold ValidateTarget. cbn -[validID]. by rewrite Oid, Ows, Ores.
Qed.

Lemma authorization_binding o : Operation.Validate o = Ok tt ->
  (exists t, Authorization.ResolveOperationTarget s (op_ID o) (op_ResourceID o) (op_WorkspaceID o) (op_EnvironmentID o)
               (op_ProviderConnectionID o) = Ok t) <-> binding_holds o.
Proof.
  intros Hv. pose proof (operation_valid o Hv) as [Oid Ows Ores Obind _]. unfold binding_holds. split.
  - intros [t E]. apply (operation_target ws records Ht) in E as (Hw & r & Hin & Hid & (_ & _ & _ & _ & _ & _ & He) & Htc & Hc).
    split; [done|]. exists r. assert (index !! op_ResourceID o = Some r) as Hr by (apply index_of_lookup; [apply Ht | done]).
    split; [done|]. unfold validateBinding in Obind.
    destruct (op_EnvironmentID o) as [e|], (op_ProviderConnectionID o) as [c|]; try done.
    destruct (Hc c eq_refl) as (e' & cr & [= <-] & Hte & Hcr & Hk & Ha). rewrite Hid in He. split; [by apply He|].
    exists cr. split; [done|]. split; [done|].
    destruct (resolve_environment ws records Ht c cr Hcr) as (o' & Ho & He' & _). apply He' in Ha as ->.
    by apply (connection_environment c cr e Hcr Hk).
  - intros (Hw & r & Hr & Hb). destruct (tree_record ws records Ht _ _ Hr) as (_ & _ & _ & _ & Hrw & _).
    unfold Authorization.ResolveOperationTarget, lookup_target, mbind, result_bind.
    rewrite Oid, Ows, Ores, (proj2 (snapshot_lookup_ok _ _) Hr). cbn [andb negb fail_if mbind result_bind map_err].
    change (s_workspaceID s) with ws. rewrite Hrw, <- Hw, String.eqb_refl. cbn [negb orb fail_if]. unfold validateBinding in Obind.
    destruct (op_EnvironmentID o) as [e|], (op_ProviderConnectionID o) as [c|]; try done.
    + destruct Hb as (Ha & cr & Hc & Hk & Hpar). apply fail_if_ok in Obind. autorewrite with guards in Obind. destruct Obind as [Ve Vc].
      destruct (operation_record_target (op_ID o) _ r (Some c) e Oid Hr (conj Vc Ha)) as [t Et]. rewrite Et.
      destruct (tree_record ws records Ht _ _ Hr) as (Hin & Hid & _).
      destruct (targetFromRecord_ok ws records Ht _ _ _ _ _ Hin Et) as ((_ & _ & _ & _ & _ & _ & He) & _). rewrite Hid in He.
      apply He in Ha. rewrite Ha. cbn [is_some Bool.eqb negb fail_if]. rewrite bool_decide_eq_true_2 by done. cbn [negb fail_if].
      rewrite (proj2 (snapshot_lookup_ok _ _) Hc). cbn [map_err].
      destruct (tree_record ws records Ht _ _ Hc) as (_ & _ & _ & _ & Hcw & _).
      rewrite Hk, Hcw, <- Hw, String.eqb_refl, bool_decide_eq_true_2 by done. cbn [negb orb fail_if].
      rewrite (proj2 (connection_environment c cr e Hc Hk) Hpar). cbn [is_some negb orb]. rewrite bool_decide_eq_true_2 by done. by exists t.
    + destruct (operation_record_target (op_ID o) _ r None "" Oid Hr I) as [t Et]. rewrite Et. by exists t.
Qed.
End Agree.

(** A privileged target and an authorization target agree.  For a valid
    operation and the snapshot of a workspace the two independent resolvers
    accept the same operations - those whose resource is in the workspace and
    whose connection, if any, is a child of the environment the resource lives
    in - and the privileged target names exactly the operation's binding. *)
Theorem operation_targets_agree (ws : ID) (records : list Record) (s : Snapshot) (o : Operation)
  (Hs : NewSnapshot ws records = Ok s) (Ho : Operation.Validate o = Ok tt) :
  (result_ok (Administration.ResolveOperationTarget s o) = true <->
   result_ok (Authorization.ResolveOperationTarget s (op_ID o) (op_ResourceID o) (op_WorkspaceID o) (op_EnvironmentID o)
                (op_ProviderConnectionID o)) = true) /\
  (result_ok (Administration.ResolveOperationTarget s o) = true <-> binding_holds ws records o) /\
  (forall t, Administration.ResolveOperationTarget s o = Ok t ->
     t = ATg true TargetKindOperation (Some (op_ID o)) (Some (op_WorkspaceID o)) (Some (op_ResourceID o))
           (op_EnvironmentID o) (op_ProviderConnectionID o)).
Proof.
  apply NewSnapshot_ok in Hs as [Ht ->].
  assert (result_ok (Administration.ResolveOperationTarget (snapshot_of ws records) o) = true <-> binding_holds ws records o) as Ha.
  { rewrite result_ok_true. setoid_rewrite (administration_binding ws records Ht o _ Ho). naive_solver. }
  split; [|split; [done|]].
  - by rewrite Ha, result_ok_true, (authorization_binding ws records Ht o Ho).
  - intros t E. by apply (administration_binding ws records Ht o t Ho) in E as [_ ->].
Qed.

(** An operation on the application with the connection of its environment;
    with the other environment both resolvers refuse it. *)
Definition at_operation (environment : ID) : Operation :=
  Op "operation-0000000001" h_ws h_app (Some environment) (Some h_connection) 3 "v1" PhasePending "Accepted" ""
     None (op_CreatedAt o_pending) (op_CreatedAt o_pending).

Lemma operation_targets_agree_witness :
  result_ok (Administration.ResolveOperationTarget (snapshot_of h_ws h_records) (at_operation h_env)) = true /\
  binding_holds h_ws h_records (at_operation h_env) /\
  ~ binding_holds h_ws h_records (at_operation h_env2).
Proof.
  assert (Operation.Validate (at_operation h_env) = Ok tt) as H1 by (vm_compute; reflexivity).
  assert (Operation.Validate (at_operation h_env2) = Ok tt) as H2 by (vm_compute; reflexivity).
  assert (result_ok (Administration.ResolveOperationTarget (snapshot_of h_ws h_records) (at_operation h_env)) = true) as E1
    by (vm_compute; reflexivity).
  assert (result_ok (Administration.ResolveOperationTarget (snapshot_of h_ws h_records) (at_operation h_env2)) = false) as E2
    by (vm_compute; reflexivity).
  split; [exact E1|]. split.
  - apply (operation_targets_agree h_ws h_records _ (at_operation h_env) h_snapshot_ok H1), E1.
  - intros Hb. apply (operation_targets_agree h_ws h_records _ (at_operation h_env2) h_snapshot_ok H2) in Hb.
    rewrite E2 in Hb. discriminate Hb.
Defined.
