(* ===== verification/AuditVocabulary.v ===== *)
(** * The vocabulary of the audit contract (audit/vocabulary.go, errors.go)

    Closed string types with their parsers, the limits, and the errors. *)

From S2P Require Import Prelude GoTime Closed.
From Stdlib Require Import String.

Inductive error :=
| ErrInvalidEvent
| ErrInvalidStream
| ErrInvalidActor
| ErrInvalidReference
| ErrInvalidClockState
| ErrInvalidEventKind
| ErrInvalidSource
| ErrInvalidOutcome
| ErrInvalidAuthentication
| ErrWorkspaceMismatch
| ErrCanonicalTooLarge
| ErrNonCanonical
| ErrSerializationForbidden
| ErrInvalidDigest
| ErrInvalidCheckpoint
| ErrInvalidRecord
| ErrInvalidSegment
| ErrInvalidSequence
| ErrIntegrity
| ErrExpectedHead
| ErrSegmentTooLarge
| ErrInvalidExport
| ErrBodyDigestMismatch
| ErrSignatureRequired
| ErrSignatureVerification
| ErrInvalidRetention
| ErrClockRegressed
| ErrInvalidHold
| ErrTooManyHolds
| ErrWrap (outer inner : error).

Definition audit_ContractVersion : string := "veer.audit.v1alpha1".
Definition MaxCanonicalEventBytes : Z := 16384.
Definition MaxSegmentEvents : Z := 1000.
Definition MaxCanonicalSegmentBytes : Z := 16640512.
Definition MaxCanonicalManifestBytes : Z := 4096.
Definition MaxSignatureBytes : Z := 512.
Definition MaxKeyIDBytes : Z := 128.
Definition MaxHolds : Z := 32.
Definition OnlineRetention : Z := 90 * 24 * hour.
Definition ArchiveRetention : Z := 365 * 24 * hour.
Definition ChainDigestPrefix : string := "ach1_".
Definition ExportBodyDigestPrefix : string := "aeb1_".

(** The two kinds of history. *)
Inductive StreamKind :=
| StreamKindWorkspace
| StreamKindPlatform
| StreamKindOther (raw : string).

#[export] Instance StreamKind_eq : EqDecision StreamKind.
Proof. solve_decision. Defined.

Definition StreamKind_String (v : StreamKind) : string :=
  match v with
  | StreamKindWorkspace => "Workspace"
  | StreamKindPlatform => "Platform"
  | StreamKindOther raw => raw
  end.

Definition streamKinds : list StreamKind :=
  [StreamKindWorkspace; StreamKindPlatform].

Definition StreamKind_known (v : StreamKind) : bool := match v with StreamKindOther _ => false | _ => true end.

#[export] Instance StreamKind_closed : Closed StreamKind.
Proof.
  refine {| candidates := streamKinds; spelled := StreamKind_String; known := StreamKind_known |}.
  - solve_closed_known.
  - solve_closed_nodup.
Defined.

Definition ParseStreamKind (value : string) : result error StreamKind := of_option (parseClosed value) ErrInvalidStream.

(** Classes of pseudonymous attribution. *)
Inductive ActorKind :=
| ActorKindAnonymous
| ActorKindHuman
| ActorKindWorkload
| ActorKindAdministrator
| ActorKindOther (raw : string).

#[export] Instance ActorKind_eq : EqDecision ActorKind.
Proof. solve_decision. Defined.

Definition ActorKind_String (v : ActorKind) : string :=
  match v with
  | ActorKindAnonymous => "Anonymous"
  | ActorKindHuman => "Human"
  | ActorKindWorkload => "Workload"
  | ActorKindAdministrator => "Administrator"
  | ActorKindOther raw => raw
  end.

Definition actorKinds : list ActorKind :=
  [ActorKindAnonymous; ActorKindHuman; ActorKindWorkload; ActorKindAdministrator].

Definition ActorKind_known (v : ActorKind) : bool := match v with ActorKindOther _ => false | _ => true end.

#[export] Instance ActorKind_closed : Closed ActorKind.
Proof.
  refine {| candidates := actorKinds; spelled := ActorKind_String; known := ActorKind_known |}.
  - solve_closed_known.
  - solve_closed_nodup.
Defined.

Definition ParseActorKind (value : string) : result error ActorKind := of_option (parseClosed value) ErrInvalidActor.

(** How the actor authenticated. *)
Inductive AuthenticationMethod :=
| AuthenticationMethodNone
| AuthenticationMethodOIDC
| AuthenticationMethodWorkloadOIDC
| AuthenticationMethodStrongOIDC
| AuthenticationMethodInternal
| AuthenticationMethodOther (raw : string).

#[export] Instance AuthenticationMethod_eq : EqDecision AuthenticationMethod.
Proof. solve_decision. Defined.

Definition AuthenticationMethod_String (v : AuthenticationMethod) : string :=
  match v with
  | AuthenticationMethodNone => "None"
  | AuthenticationMethodOIDC => "OIDC"
  | AuthenticationMethodWorkloadOIDC => "WorkloadOIDC"
  | AuthenticationMethodStrongOIDC => "StrongOIDC"
  | AuthenticationMethodInternal => "Internal"
  | AuthenticationMethodOther raw => raw
  end.

Definition authenticationMethods : list AuthenticationMethod :=
  [AuthenticationMethodNone; AuthenticationMethodOIDC; AuthenticationMethodWorkloadOIDC; AuthenticationMethodStrongOIDC; AuthenticationMethodInternal].

Definition AuthenticationMethod_known (v : AuthenticationMethod) : bool := match v with AuthenticationMethodOther _ => false | _ => true end.

#[export] Instance AuthenticationMethod_closed : Closed AuthenticationMethod.
Proof.
  refine {| candidates := authenticationMethods; spelled := AuthenticationMethod_String; known := AuthenticationMethod_known |}.
  - solve_closed_known.
  - solve_closed_nodup.
Defined.

Definition ParseAuthenticationMethod (value : string) : result error AuthenticationMethod := of_option (parseClosed value) ErrInvalidAuthentication.

(** The semantic family of an event. *)
Inductive EventKind :=
| EventKindRequest
| EventKindAuthorization
| EventKindOperation
| EventKindProviderAttempt
| EventKindElevation
| EventKindExport
| EventKindRetention
| EventKindIntegrity
| EventKindOther (raw : string).

#[export] Instance EventKind_eq : EqDecision EventKind.
Proof. solve_decision. Defined.

Definition EventKind_String (v : EventKind) : string :=
  match v with
  | EventKindRequest => "Request"
  | EventKindAuthorization => "Authorization"
  | EventKindOperation => "Operation"
  | EventKindProviderAttempt => "ProviderAttempt"
  | EventKindElevation => "Elevation"
  | EventKindExport => "Export"
  | EventKindRetention => "Retention"
  | EventKindIntegrity => "Integrity"
  | EventKindOther raw => raw
  end.

Definition eventKinds : list EventKind :=
  [EventKindRequest; EventKindAuthorization; EventKindOperation; EventKindProviderAttempt; EventKindElevation; EventKindExport; EventKindRetention; EventKindIntegrity].

Definition EventKind_known (v : EventKind) : bool := match v with EventKindOther _ => false | _ => true end.

#[export] Instance EventKind_closed : Closed EventKind.
Proof.
  refine {| candidates := eventKinds; spelled := EventKind_String; known := EventKind_known |}.
  - solve_closed_known.
  - solve_closed_nodup.
Defined.

Definition ParseEventKind (value : string) : result error EventKind := of_option (parseClosed value) ErrInvalidEventKind.

(** The component class that observed the event. *)
Inductive Source :=
| SourceAPI
| SourceWorker
| SourceController
| SourceProviderAdapter
| SourceAdministration
| SourceSystem
| SourceOther (raw : string).

#[export] Instance Source_eq : EqDecision Source.
Proof. solve_decision. Defined.

Definition Source_String (v : Source) : string :=
  match v with
  | SourceAPI => "API"
  | SourceWorker => "Worker"
  | SourceController => "Controller"
  | SourceProviderAdapter => "ProviderAdapter"
  | SourceAdministration => "Administration"
  | SourceSystem => "System"
  | SourceOther raw => raw
  end.

Definition sources : list Source :=
  [SourceAPI; SourceWorker; SourceController; SourceProviderAdapter; SourceAdministration; SourceSystem].

Definition Source_known (v : Source) : bool := match v with SourceOther _ => false | _ => true end.

#[export] Instance Source_closed : Closed Source.
Proof.
  refine {| candidates := sources; spelled := Source_String; known := Source_known |}.
  - solve_closed_known.
  - solve_closed_nodup.
Defined.

Definition ParseSource (value : string) : result error Source := of_option (parseClosed value) ErrInvalidSource.

(** Results. *)
Inductive Outcome :=
| OutcomeAccepted
| OutcomeSucceeded
| OutcomeDenied
| OutcomeFailed
| OutcomeCanceled
| OutcomeIndeterminate
| OutcomeOther (raw : string).

#[export] Instance Outcome_eq : EqDecision Outcome.
Proof. solve_decision. Defined.

Definition Outcome_String (v : Outcome) : string :=
  match v with
  | OutcomeAccepted => "Accepted"
  | OutcomeSucceeded => "Succeeded"
  | OutcomeDenied => "Denied"
  | OutcomeFailed => "Failed"
  | OutcomeCanceled => "Canceled"
  | OutcomeIndeterminate => "Indeterminate"
  | OutcomeOther raw => raw
  end.

Definition outcomes : list Outcome :=
  [OutcomeAccepted; OutcomeSucceeded; OutcomeDenied; OutcomeFailed; OutcomeCanceled; OutcomeIndeterminate].

Definition Outcome_known (v : Outcome) : bool := match v with OutcomeOther _ => false | _ => true end.

#[export] Instance Outcome_closed : Closed Outcome.
Proof.
  refine {| candidates := outcomes; spelled := Outcome_String; known := Outcome_known |}.
  - solve_closed_known.
  - solve_closed_nodup.
Defined.

Definition ParseOutcome (value : string) : result error Outcome := of_option (parseClosed value) ErrInvalidOutcome.

(** Quality of the wall clock. *)
Inductive ClockState :=
| ClockStateSynchronized
| ClockStateUncertain
| ClockStateRegressed
| ClockStateOther (raw : string).

#[export] Instance ClockState_eq : EqDecision ClockState.
Proof. solve_decision. Defined.

Definition ClockState_String (v : ClockState) : string :=
  match v with
  | ClockStateSynchronized => "Synchronized"
  | ClockStateUncertain => "Uncertain"
  | ClockStateRegressed => "Regressed"
  | ClockStateOther raw => raw
  end.

Definition clockStates : list ClockState :=
  [ClockStateSynchronized; ClockStateUncertain; ClockStateRegressed].

Definition ClockState_known (v : ClockState) : bool := match v with ClockStateOther _ => false | _ => true end.

#[export] Instance ClockState_closed : Closed ClockState.
Proof.
  refine {| candidates := clockStates; spelled := ClockState_String; known := ClockState_known |}.
  - solve_closed_known.
  - solve_closed_nodup.
Defined.

Definition ParseClockState (value : string) : result error ClockState := of_option (parseClosed value) ErrInvalidClockState.

(** Life cycle of a privileged grant. *)
Inductive ElevationState :=
| ElevationStateIssued
| ElevationStateConsumed
| ElevationStateRevoked
| ElevationStateExpired
| ElevationStateOther (raw : string).

#[export] Instance ElevationState_eq : EqDecision ElevationState.
Proof. solve_decision. Defined.

Definition ElevationState_String (v : ElevationState) : string :=
  match v with
  | ElevationStateIssued => "Issued"
  | ElevationStateConsumed => "Consumed"
  | ElevationStateRevoked => "Revoked"
  | ElevationStateExpired => "Expired"
  | ElevationStateOther raw => raw
  end.

Definition elevationStates : list ElevationState :=
  [ElevationStateIssued; ElevationStateConsumed; ElevationStateRevoked; ElevationStateExpired].

Definition ElevationState_known (v : ElevationState) : bool := match v with ElevationStateOther _ => false | _ => true end.

#[export] Instance ElevationState_closed : Closed ElevationState.
Proof.
  refine {| candidates := elevationStates; spelled := ElevationState_String; known := ElevationState_known |}.
  - solve_closed_known.
  - solve_closed_nodup.
Defined.

Definition ParseElevationState (value : string) : result error ElevationState := of_option (parseClosed value) ErrInvalidReference.

(** The contract of the external verifier. *)
Inductive SignatureAlgorithm :=
| SignatureAlgorithmEd25519
| SignatureAlgorithmOther (raw : string).

#[export] Instance SignatureAlgorithm_eq : EqDecision SignatureAlgorithm.
Proof. solve_decision. Defined.

Definition SignatureAlgorithm_String (v : SignatureAlgorithm) : string :=
  match v with
  | SignatureAlgorithmEd25519 => "Ed25519"
  | SignatureAlgorithmOther raw => raw
  end.

Definition signatureAlgorithms : list SignatureAlgorithm :=
  [SignatureAlgorithmEd25519].

Definition SignatureAlgorithm_known (v : SignatureAlgorithm) : bool := match v with SignatureAlgorithmOther _ => false | _ => true end.

#[export] Instance SignatureAlgorithm_closed : Closed SignatureAlgorithm.
Proof.
  refine {| candidates := signatureAlgorithms; spelled := SignatureAlgorithm_String; known := SignatureAlgorithm_known |}.
  - solve_closed_known.
  - solve_closed_nodup.
Defined.

Definition ParseSignatureAlgorithm (value : string) : result error SignatureAlgorithm := of_option (parseClosed value) ErrInvalidExport.

(** Reasons an expired event must remain. *)
Inductive HoldKind :=
| HoldKindLegal
| HoldKindIncident
| HoldKindSecurity
| HoldKindOther (raw : string).

#[export] Instance HoldKind_eq : EqDecision HoldKind.
Proof. solve_decision. Defined.

Definition HoldKind_String (v : HoldKind) : string :=
  match v with
  | HoldKindLegal => "Legal"
  | HoldKindIncident => "Incident"
  | HoldKindSecurity => "Security"
  | HoldKindOther raw => raw
  end.

Definition holdKinds : list HoldKind :=
  [HoldKindLegal; HoldKindIncident; HoldKindSecurity].

Definition HoldKind_known (v : HoldKind) : bool := match v with HoldKindOther _ => false | _ => true end.

#[export] Instance HoldKind_closed : Closed HoldKind.
Proof.
  refine {| candidates := holdKinds; spelled := HoldKind_String; known := HoldKind_known |}.
  - solve_closed_known.
  - solve_closed_nodup.
Defined.

Definition ParseHoldKind (value : string) : result error HoldKind := of_option (parseClosed value) ErrInvalidHold.

(** Where an event belongs by its age. *)
Inductive RetentionDisposition :=
| RetentionDispositionOnline
| RetentionDispositionArchive
| RetentionDispositionHeld
| RetentionDispositionExpire
| RetentionDispositionOther (raw : string).

#[export] Instance RetentionDisposition_eq : EqDecision RetentionDisposition.
Proof. solve_decision. Defined.

Definition RetentionDisposition_String (v : RetentionDisposition) : string :=
  match v with
  | RetentionDispositionOnline => "Online"
  | RetentionDispositionArchive => "Archive"
  | RetentionDispositionHeld => "Held"
  | RetentionDispositionExpire => "Expire"
  | RetentionDispositionOther raw => raw
  end.

Definition retentionDispositions : list RetentionDisposition :=
  [RetentionDispositionOnline; RetentionDispositionArchive; RetentionDispositionHeld; RetentionDispositionExpire].

Definition RetentionDisposition_known (v : RetentionDisposition) : bool := match v with RetentionDispositionOther _ => false | _ => true end.

#[export] Instance RetentionDisposition_closed : Closed RetentionDisposition.
Proof.
  refine {| candidates := retentionDispositions; spelled := RetentionDisposition_String; known := RetentionDisposition_known |}.
  - solve_closed_known.
  - solve_closed_nodup.
Defined.

Definition ParseRetentionDisposition (value : string) : result error RetentionDisposition := of_option (parseClosed value) ErrInvalidRetention.
