(* ===== verification/AuditEvent.v ===== *)
(** * Audit events (audit/references.go, event.go, administration_projection.go)

    An event is an immutable fact in one stream: bounded references to a
    request, a target, a decision, an operation, a provider attempt or a
    privileged grant, with an attribution that carries no identity claim.  Its
    canonical JSON text is what the chain hashes. *)

From S2P Require Import Prelude Bytes Sha256 GoTime Calendar Closed Json JsonParse Condition Digests Hierarchy Identity.
From S2P Require Import AuthzVocabulary Authorization Receipt Control Operation JsonMembers Administration AuditVocabulary.
From Stdlib Require Import Ascii String.

Notation error := AuditVocabulary.error.
Notation invalid_event := (ErrWrap ErrInvalidEvent).

(** ** Timestamps: the years 1 to 9999 *)

Definition year_unsupported (t : time) : bool := (Year t <? 1) || (9999 <? Year t).

Definition audit_parseTimestamp (value : string) : option time :=
  t ← parseTimestamp value; if year_unsupported t then None else Some t.

Definition audit_normalizeTimestamp (value : time) : option string :=
  if is_zero value then None else
  let value := truncate_ms value in
  if year_unsupported value then None else Some (format_timestamp value).

(** ** Streams and actors *)

Record Stream := Str { st_initialized : bool; st_kind : StreamKind; st_workspaceID : ID }.

Definition NewWorkspaceStream (workspaceID : ID) : result error Stream :=
  if validID workspaceID then Ok (Str true StreamKindWorkspace workspaceID) else Err ErrInvalidStream.

Definition NewPlatformStream : Stream := Str true StreamKindPlatform "".

(** [ValidateStream]; its error is [ErrInvalidStream]. *)
Definition ValidateStream (stream : Stream) : bool :=
  st_initialized stream && StreamKind_known (st_kind stream) &&
  match st_kind stream with
  | StreamKindWorkspace => validID (st_workspaceID stream)
  | StreamKindPlatform => String.eqb (st_workspaceID stream) ""
  | StreamKindOther _ => false
  end.

Definition Stream_WorkspaceID (stream : Stream) : option ID :=
  if negb (ValidateStream stream) || negb (bool_decide (st_kind stream = StreamKindWorkspace)) then None
  else Some (st_workspaceID stream).

Definition Stream_Equal (stream other : Stream) : bool :=
  ValidateStream stream && ValidateStream other && bool_decide (st_kind stream = st_kind other) &&
  String.eqb (st_workspaceID stream) (st_workspaceID other).

Record ActorRef := Actor { ac_initialized : bool; ac_kind : ActorKind; ac_pseudonym : string }.

Definition validPrincipalFingerprint (value : string) : bool := result_ok (parseDigest fingerprintPrefix value).

(** [ValidateActorRef]; its error is [ErrInvalidActor]. *)
Definition ValidateActorRef (actor : ActorRef) : bool :=
  ac_initialized actor && ActorKind_known (ac_kind actor) &&
  match ac_kind actor with
  | ActorKindAnonymous => String.eqb (ac_pseudonym actor) ""
  | ActorKindHuman | ActorKindWorkload => validPrincipalFingerprint (ac_pseudonym actor)
  | ActorKindAdministrator => validID (ac_pseudonym actor)
  | ActorKindOther _ => false
  end.

Definition AnonymousActor : ActorRef := Actor true ActorKindAnonymous "".

Definition AdministratorActor (administratorID : ID) : result error ActorRef :=
  if validID administratorID then Ok (Actor true ActorKindAdministrator administratorID) else Err ErrInvalidActor.

Definition ActorFromPrincipal `{RequestURIs} (principal : Principal) : result error ActorRef :=
  fail_if (negb (result_ok (ValidatePrincipal principal))) ErrInvalidActor;;
  let kind := match pr_kind principal with KindWorkload => ActorKindWorkload | _ => ActorKindHuman end in
  let actor := Actor true kind (Fingerprint_String (li_fingerprint (pr_logicalIdentity principal))) in
  if ValidateActorRef actor then Ok actor else Err ErrInvalidActor.

(** ** References *)

Record RequestRef := ReqR { rq_initialized : bool; rq_id : ID }.

Definition validateRequestRef (r : RequestRef) : bool := rq_initialized r && validID (rq_id r).

Definition NewRequestRef (id : ID) : result error RequestRef :=
  if validID id then Ok (ReqR true id) else Err ErrInvalidReference.

Record TargetRef := TgtR {
  tr_initialized : bool;
  tr_objectKind : ObjectKind;
  tr_objectID : ID;
  tr_resourceKind : string;
  tr_resourceID : ID;
  tr_workspaceID : ID;
  tr_environmentID : option ID;
  tr_providerConnectionID : option ID;
}.

Definition validResourceKind (value : string) : bool :=
  existsb (String.eqb value) ["Workspace"; "Policy"; "Environment"; "Application"; "Component"; "ProviderConnection"].

Definition wants_environment (resourceKind : string) : bool :=
  String.eqb resourceKind "Environment" || String.eqb resourceKind "Application" || String.eqb resourceKind "Component"
  || String.eqb resourceKind "ProviderConnection".

(** [validateTargetRef]; its error is [ErrInvalidReference]. *)
Definition validateTargetRef (r : TargetRef) : bool :=
  tr_initialized r && ObjectKind_known (tr_objectKind r) && validResourceKind (tr_resourceKind r) &&
  forallb validID [tr_objectID r; tr_resourceID r; tr_workspaceID r] &&
  forallb valid_optional [tr_environmentID r; tr_providerConnectionID r] &&
  negb (is_some (tr_providerConnectionID r) && negb (is_some (tr_environmentID r))) &&
  negb (String.eqb (tr_resourceKind r) "Workspace" && negb (String.eqb (tr_resourceID r) (tr_workspaceID r))) &&
  Bool.eqb (wants_environment (tr_resourceKind r)) (is_some (tr_environmentID r)) &&
  match tr_objectKind r with
  | ObjectKindResource => String.eqb (tr_objectID r) (tr_resourceID r) && negb (is_some (tr_providerConnectionID r))
  | ObjectKindMembership =>
      String.eqb (tr_resourceKind r) "Workspace" && String.eqb (tr_resourceID r) (tr_workspaceID r) &&
      negb (is_some (tr_providerConnectionID r))
  | ObjectKindAudit =>
      String.eqb (tr_resourceKind r) "Workspace" && String.eqb (tr_resourceID r) (tr_workspaceID r) &&
      negb (is_some (tr_environmentID r)) && negb (is_some (tr_providerConnectionID r))
  | ObjectKindOperation | ObjectKindPlan => true
  | ObjectKindOther _ => false
  end.

Definition TargetRefFromAuthorization (t : Authorization.Target) : result error TargetRef :=
  fail_if (negb (Authorization.ValidateTarget t)) ErrInvalidReference;;
  let r := TgtR true (tg_objectKind t) (tg_objectID t) (Hierarchy.Kind_String (tg_resourceKind t)) (tg_resourceID t)
             (tg_workspaceID t) (tg_environmentID t) (tg_providerConnectionID t) in
  if validateTargetRef r then Ok r else Err ErrInvalidReference.

Record DecisionRef := DecR {
  dr_initialized : bool;
  dr_policyVersion : string;
  dr_inputDigest : string;
  dr_effect : Effect;
  dr_reason : Reason;
}.

Definition validateDecisionRef (r : DecisionRef) : bool :=
  dr_initialized r && is_some (ParsePolicyVersion (dr_policyVersion r)) && is_some (ParseInputDigest (dr_inputDigest r)) &&
  Effect_known (dr_effect r) && Reason_known (dr_reason r) &&
  Bool.eqb (bool_decide (dr_effect r = EffectAllow)) (bool_decide (dr_reason r = ReasonRoleGranted)).

Definition DecisionRefFromAuthorization (d : Decision) : result error DecisionRef :=
  fail_if (negb (result_ok (ValidateDecision d))) ErrInvalidReference;;
  let r := DecR true (formatDigest PolicyVersionPrefix (de_policyVersion d)) (formatDigest InputDigestPrefix (de_inputDigest d))
             (de_effect d) (de_reason d) in
  if validateDecisionRef r then Ok r else Err ErrInvalidReference.

Record OperationRef := OpR {
  or_initialized : bool;
  or_id : ID;
  or_workspaceID : ID;
  or_resourceID : ID;
  or_environmentID : option ID;
  or_providerConnectionID : option ID;
  or_generation : Z;
  or_resourceVersion : string;
  or_phase : Phase;
  or_reason : string;
  or_updatedAt : string;
}.

(** [opaqueVersionPattern] and [operationReasonPattern] are the patterns of
    [Control] and [Condition]. *)
Definition validateOperationRef (r : OperationRef) : bool :=
  or_initialized r && forallb validID [or_id r; or_workspaceID r; or_resourceID r] &&
  Bool.eqb (is_some (or_environmentID r)) (is_some (or_providerConnectionID r)) &&
  forallb valid_optional [or_environmentID r; or_providerConnectionID r] &&
  negb ((or_generation r <? 1) || negb (versionPattern (or_resourceVersion r)) || negb (validPhase (or_phase r))
        || (negb (String.eqb (or_reason r) "") && negb (reasonPattern (or_reason r)))) &&
  is_some (audit_parseTimestamp (or_updatedAt r)).

Definition OperationRefFromOperation (o : Operation) : result error OperationRef :=
  fail_if (negb (result_ok (Operation.Validate o))) ErrInvalidReference;;
  let r := OpR true (op_ID o) (op_WorkspaceID o) (op_ResourceID o) (op_EnvironmentID o) (op_ProviderConnectionID o)
             (op_Generation o) (op_ResourceVersion o) (op_Phase o) (op_Reason o) (op_UpdatedAt o) in
  if validateOperationRef r then Ok r else Err ErrInvalidReference.

Record AttemptRef := AttR { ar_initialized : bool; ar_id : ID; ar_ordinal : Z }.

Definition validateAttemptRef (r : AttemptRef) : bool :=
  negb (negb (ar_initialized r) || (ar_ordinal r =? 0)) && validID (ar_id r).

Definition NewAttemptRef (id : ID) (ordinal : Z) : result error AttemptRef :=
  if validID id && negb (ordinal =? 0) then Ok (AttR true id ordinal) else Err ErrInvalidReference.

Record ElevationRef := ElvR {
  el_initialized : bool;
  el_grantID : ID;
  el_administratorID : ID;
  el_action : Action;
  el_targetKind : string;
  el_workspaceID : option ID;
  el_objectID : option ID;
  el_resourceID : option ID;
  el_environmentID : option ID;
  el_providerConnectionID : option ID;
  el_reason : string;
  el_caseReference : string;
  el_issuedAt : string;
  el_expiresAt : string;
  el_state : ElevationState;
  el_recordedAt : string;
}.

(** [administration.TargetKind(value)] and its text. *)
Definition TargetKind_of (value : string) : TargetKind :=
  if String.eqb value "PlatformAudit" then TargetKindPlatformAudit
  else if String.eqb value "WorkspaceAudit" then TargetKindWorkspaceAudit
  else if String.eqb value "Operation" then TargetKindOperation
  else TargetKindOther value.

Definition TargetKind_String (kind : TargetKind) : string :=
  match kind with
  | TargetKindPlatformAudit => "PlatformAudit"
  | TargetKindWorkspaceAudit => "WorkspaceAudit"
  | TargetKindOperation => "Operation"
  | TargetKindOther _ => "Invalid"
  end.

Definition validElevationText : string -> Z -> Z -> bool := validBoundedText.

Definition validElevationPeriod (issuedAt expiresAt : time) : bool :=
  after expiresAt issuedAt && (time_sub expiresAt issuedAt <=? MaxElevationDuration) &&
  (time_sub expiresAt issuedAt mod millisecond =? 0).

Definition validElevationTargetShape (r : ElevationRef) : bool :=
  match TargetKind_of (el_targetKind r) with
  | TargetKindPlatformAudit =>
      negb (is_some (el_objectID r)) && negb (is_some (el_workspaceID r)) && negb (is_some (el_resourceID r)) &&
      negb (is_some (el_environmentID r)) && negb (is_some (el_providerConnectionID r))
  | TargetKindWorkspaceAudit =>
      match el_objectID r, el_workspaceID r, el_resourceID r with
      | Some object, Some workspace, Some resource =>
          negb (is_some (el_environmentID r)) && negb (is_some (el_providerConnectionID r)) &&
          String.eqb object workspace && String.eqb resource workspace
      | _, _, _ => false
      end
  | TargetKindOperation =>
      is_some (el_objectID r) && is_some (el_workspaceID r) && is_some (el_resourceID r) &&
      Bool.eqb (negb (is_some (el_environmentID r))) (negb (is_some (el_providerConnectionID r)))
  | TargetKindOther _ => false
  end.

Definition validElevationActionReference (r : ElevationRef) : bool :=
  match el_action r with
  | ActionAuditExport =>
      String.eqb (el_targetKind r) (TargetKind_String TargetKindPlatformAudit)
      || String.eqb (el_targetKind r) (TargetKind_String TargetKindWorkspaceAudit)
  | ActionOperationQuarantine | ActionWorkRedrive => String.eqb (el_targetKind r) (TargetKind_String TargetKindOperation)
  | _ => false
  end.

Definition validateElevationRef (r : ElevationRef) : bool :=
  el_initialized r && forallb validID [el_grantID r; el_administratorID r] && Action_known (el_action r) &&
  validElevationTargetShape r && validElevationActionReference r &&
  forallb valid_optional [el_workspaceID r; el_objectID r; el_resourceID r; el_environmentID r; el_providerConnectionID r] &&
  ElevationState_known (el_state r) &&
  match audit_parseTimestamp (el_issuedAt r), audit_parseTimestamp (el_expiresAt r), audit_parseTimestamp (el_recordedAt r) with
  | Some issuedAt, Some expiresAt, Some recordedAt =>
      validElevationPeriod issuedAt expiresAt && validElevationText (el_reason r) 1 MaxReasonRunes &&
      (String.eqb (el_caseReference r) "" || validElevationText (el_caseReference r) 1 MaxCaseReferenceRunes) &&
      match el_state r with
      | ElevationStateIssued => time_equal recordedAt issuedAt
      | ElevationStateConsumed | ElevationStateRevoked =>
          negb (before recordedAt issuedAt || negb (before recordedAt expiresAt))
      | ElevationStateExpired => time_equal recordedAt expiresAt
      | ElevationStateOther _ => true
      end
  | _, _, _ => false
  end.

(** ** Projections of the elevation ledger *)

Definition validElevationAction (action : Action) (kind : TargetKind) : bool :=
  existsb (fun candidate => bool_decide (action = candidate)) eligibleActions &&
  match action with
  | ActionAuditExport => bool_decide (kind = TargetKindPlatformAudit) || bool_decide (kind = TargetKindWorkspaceAudit)
  | ActionOperationQuarantine | ActionWorkRedrive => bool_decide (kind = TargetKindOperation)
  | _ => false
  end.

Definition newElevationRef (g : Administration.Grant) (state : ElevationState) (recordedAt : time) : result error ElevationRef :=
  let target := gr_target g in
  fail_if (negb (Administration.ValidateTarget target) || negb (validElevationAction (gr_action g) (at_kind target))
           || negb (validElevationText (gr_reason g) 1 MaxReasonRunes)
           || (negb (String.eqb (gr_caseReference g) "") && negb (validElevationText (gr_caseReference g) 1 MaxCaseReferenceRunes)))
    ErrInvalidReference;;
  issued ← of_option (audit_normalizeTimestamp (gr_issuedAt g)) ErrInvalidReference;
  expires ← of_option (audit_normalizeTimestamp (gr_expiresAt g)) ErrInvalidReference;
  recorded ← of_option (audit_normalizeTimestamp recordedAt) ErrInvalidReference;
  let r := ElvR true (gr_id g) (gr_administratorID g) (gr_action g) (TargetKind_String (at_kind target))
             (at_workspaceID target) (at_objectID target) (at_resourceID target) (at_environmentID target)
             (at_providerConnectionID target) (gr_reason g) (gr_caseReference g) issued expires state recorded in
  if validateElevationRef r then Ok r else Err ErrInvalidReference.

Definition ElevationRefFromGrant (g : Administration.Grant) (state : ElevationState) : result error ElevationRef :=
  match state with
  | ElevationStateIssued => newElevationRef g state (gr_issuedAt g)
  | ElevationStateExpired => newElevationRef g state (gr_expiresAt g)
  | _ => Err ErrInvalidReference
  end.

Definition ElevationRefFromConsumption (receipt : ConsumptionReceipt) : result error ElevationRef :=
  newElevationRef (cr_grant receipt) ElevationStateConsumed (cr_consumedAt receipt).

Definition ElevationRefFromRevocation (receipt : RevocationReceipt) : result error ElevationRef :=
  newElevationRef (rr_grant receipt) ElevationStateRevoked (rr_revokedAt receipt).

(** ** Events *)

Record Event := Evt {
  ev_initialized : bool;
  ev_id : ID;
  ev_stream : Stream;
  ev_sequence : Z;
  ev_recordedAt : string;
  ev_clockState : ClockState;
  ev_kind : EventKind;
  ev_source : Source;
  ev_actor : ActorRef;
  ev_authenticationMethod : AuthenticationMethod;
  ev_action : Action;
  ev_request : option RequestRef;
  ev_target : option TargetRef;
  ev_decision : option DecisionRef;
  ev_operation : option OperationRef;
  ev_attempt : option AttemptRef;
  ev_elevation : option ElevationRef;
  ev_outcome : Outcome;
}.

Record EventInput := EvI {
  ei_ID : ID;
  ei_Stream : Stream;
  ei_Sequence : Z;
  ei_RecordedAt : time;
  ei_ClockState : ClockState;
  ei_Kind : EventKind;
  ei_Source : Source;
  ei_Actor : ActorRef;
  ei_AuthenticationMethod : AuthenticationMethod;
  ei_Action : Action;
  ei_Request : option RequestRef;
  ei_Target : option TargetRef;
  ei_Decision : option DecisionRef;
  ei_Operation : option OperationRef;
  ei_Attempt : option AttemptRef;
  ei_Elevation : option ElevationRef;
  ei_Outcome : Outcome;
}.

(** [validateActorAuthentication]; its error is [ErrInvalidAuthentication]. *)
Definition validateActorAuthentication (actor : ActorRef) (method : AuthenticationMethod) : bool :=
  AuthenticationMethod_known method &&
  match ac_kind actor, method with
  | ActorKindAnonymous, AuthenticationMethodNone
  | ActorKindHuman, (AuthenticationMethodOIDC | AuthenticationMethodStrongOIDC)
  | ActorKindWorkload, (AuthenticationMethodWorkloadOIDC | AuthenticationMethodInternal)
  | ActorKindAdministrator, AuthenticationMethodStrongOIDC => true
  | _, _ => false
  end.

Definition is_id (left : option ID) (right : ID) : bool := bool_decide (left = Some right).

Definition elevationMatchesOperation (e : ElevationRef) (o : OperationRef) : bool :=
  String.eqb (el_targetKind e) (TargetKind_String TargetKindOperation) && is_id (el_objectID e) (or_id o) &&
  is_id (el_workspaceID e) (or_workspaceID o) && is_id (el_resourceID e) (or_resourceID o) &&
  bool_decide (el_environmentID e = or_environmentID o) && bool_decide (el_providerConnectionID e = or_providerConnectionID o).

Definition elevation_in_target (e : ElevationRef) (t : TargetRef) (kind : ObjectKind) : bool :=
  bool_decide (tr_objectKind t = kind) && is_id (el_objectID e) (tr_objectID t) && is_id (el_workspaceID e) (tr_workspaceID t) &&
  is_id (el_resourceID e) (tr_resourceID t) && bool_decide (el_environmentID e = tr_environmentID t) &&
  bool_decide (el_providerConnectionID e = tr_providerConnectionID t).

Definition elevationMatchesTarget (e : ElevationRef) (t : TargetRef) : bool :=
  match TargetKind_of (el_targetKind e) with
  | TargetKindWorkspaceAudit => elevation_in_target e t ObjectKindAudit
  | TargetKindOperation => elevation_in_target e t ObjectKindOperation
  | _ => false
  end.

(** The references an event of a kind must carry. *)
Definition kind_references (e : Event) : bool :=
  match ev_kind e with
  | EventKindRequest => is_some (ev_request e)
  | EventKindAuthorization => is_some (ev_decision e)
  | EventKindOperation => is_some (ev_operation e)
  | EventKindProviderAttempt =>
      is_some (ev_operation e) && is_some (ev_attempt e) && bool_decide (ev_source e = SourceProviderAdapter)
  | EventKindElevation =>
      is_some (ev_elevation e) && bool_decide (ev_source e = SourceAdministration) &&
      bool_decide (ac_kind (ev_actor e) = ActorKindAdministrator) &&
      bool_decide (ev_authenticationMethod e = AuthenticationMethodStrongOIDC)
  | _ => true
  end.

Definition elevation_consistent (e : Event) (v : ElevationRef) : bool :=
  bool_decide (ev_kind e = EventKindElevation) && bool_decide (el_action v = ev_action e) &&
  String.eqb (el_administratorID v) (ac_pseudonym (ev_actor e)) && String.eqb (el_recordedAt v) (ev_recordedAt e) &&
  match ev_operation e with Some o => elevationMatchesOperation v o | None => true end &&
  match ev_target e with Some t => elevationMatchesTarget v t | None => true end.

(** The operation and the target of one event, and the error when they differ. *)
Definition operation_in_target (o : OperationRef) (t : TargetRef) : result error unit :=
  fail_if (negb (String.eqb (or_workspaceID o) (tr_workspaceID t)) || negb (String.eqb (or_resourceID o) (tr_resourceID t))
           || (is_some (or_environmentID o)
               && (negb (bool_decide (or_environmentID o = tr_environmentID t))
                   || negb (bool_decide (or_providerConnectionID o = tr_providerConnectionID t)))))
    (invalid_event ErrWorkspaceMismatch);;
  fail_if (bool_decide (tr_objectKind t = ObjectKindOperation) && negb (String.eqb (tr_objectID t) (or_id o))) ErrInvalidEvent.

Definition validateEventRelationships (e : Event) : result error unit :=
  fail_if (negb (kind_references e)) ErrInvalidEvent;;
  fail_if (is_some (ev_attempt e) && negb (bool_decide (ev_kind e = EventKindProviderAttempt))) ErrInvalidEvent;;
  match ev_elevation e with Some v => fail_if (negb (elevation_consistent e v)) ErrInvalidEvent | None => Ok tt end;;
  match ev_operation e, ev_target e with Some o, Some t => operation_in_target o t | _, _ => Ok tt end;;
  let workspace := Stream_WorkspaceID (ev_stream e) in
  match ev_target e with
  | Some t => fail_if (negb (is_id workspace (tr_workspaceID t))) (invalid_event ErrWorkspaceMismatch)
  | None => Ok tt
  end;;
  match ev_operation e with
  | Some o => fail_if (negb (is_id workspace (or_workspaceID o))) (invalid_event ErrWorkspaceMismatch)
  | None => Ok tt
  end;;
  match ev_elevation e with
  | Some v => fail_if (negb (bool_decide (el_workspaceID v = workspace))) (invalid_event ErrWorkspaceMismatch)
  | None => Ok tt
  end.

Definition checked_reference {A} (validate : A -> bool) (r : option A) : result error unit :=
  match r with Some x => fail_if (negb (validate x)) (invalid_event ErrInvalidReference) | None => Ok tt end.

Definition validateEventFields (e : Event) : result error unit :=
  fail_if (negb (ev_initialized e)) ErrInvalidEvent;;
  fail_if (negb (validID (ev_id e)) || (ev_sequence e =? 0)) (invalid_event ErrInvalidReference);;
  fail_if (negb (ValidateStream (ev_stream e))) (invalid_event ErrInvalidStream);;
  fail_if (negb (is_some (audit_parseTimestamp (ev_recordedAt e)))) (invalid_event ErrInvalidClockState);;
  fail_if (negb (ClockState_known (ev_clockState e))) (invalid_event ErrInvalidClockState);;
  fail_if (negb (EventKind_known (ev_kind e))) (invalid_event ErrInvalidEventKind);;
  fail_if (negb (Source_known (ev_source e))) (invalid_event ErrInvalidSource);;
  fail_if (negb (ValidateActorRef (ev_actor e))) (invalid_event ErrInvalidActor);;
  fail_if (negb (validateActorAuthentication (ev_actor e) (ev_authenticationMethod e))) (invalid_event ErrInvalidAuthentication);;
  fail_if (negb (Action_known (ev_action e))) ErrInvalidEvent;;
  fail_if (negb (Outcome_known (ev_outcome e))) (invalid_event ErrInvalidOutcome);;
  checked_reference validateRequestRef (ev_request e);;
  checked_reference validateTargetRef (ev_target e);;
  checked_reference validateDecisionRef (ev_decision e);;
  checked_reference validateOperationRef (ev_operation e);;
  checked_reference validateAttemptRef (ev_attempt e);;
  checked_reference validateElevationRef (ev_elevation e);;
  validateEventRelationships e.

(** ** The wire form

    A field of a closed string type is the string it holds. *)

Record streamWire := StW { sw_Kind : string; sw_WorkspaceID : string }.
Record actorWire := AcW { aw_Kind : string; aw_Pseudonym : string }.
Record requestRefWire := RqW { rw_ID : string }.
Record targetRefWire := TgW {
  tw_ObjectKind : string;
  tw_ObjectID : string;
  tw_ResourceKind : string;
  tw_ResourceID : string;
  tw_WorkspaceID : string;
  tw_EnvironmentID : string;
  tw_ProviderConnectionID : string;
}.
Record decisionRefWire := DcW { cw_PolicyVersion : string; cw_InputDigest : string; cw_Effect : string; cw_Reason : string }.
Record operationRefWire := OpW {
  ow_ID : string;
  ow_WorkspaceID : string;
  ow_ResourceID : string;
  ow_EnvironmentID : string;
  ow_ProviderConnectionID : string;
  ow_Generation : Z;
  ow_ResourceVersion : string;
  ow_Phase : string;
  ow_Reason : string;
  ow_UpdatedAt : string;
}.
Record attemptRefWire := AtW { pw_ID : string; pw_Ordinal : Z }.
Record elevationRefWire := ElW {
  lw_GrantID : string;
  lw_AdministratorID : string;
  lw_Action : string;
  lw_TargetKind : string;
  lw_WorkspaceID : string;
  lw_ObjectID : string;
  lw_ResourceID : string;
  lw_EnvironmentID : string;
  lw_ProviderConnectionID : string;
  lw_Reason : string;
  lw_CaseReference : string;
  lw_IssuedAt : string;
  lw_ExpiresAt : string;
  lw_State : string;
  lw_RecordedAt : string;
}.
Record eventWire := EvW {
  ew_ContractVersion : string;
  ew_ID : string;
  ew_Stream : streamWire;
  ew_Sequence : Z;
  ew_RecordedAt : string;
  ew_ClockState : string;
  ew_Kind : string;
  ew_Source : string;
  ew_Actor : actorWire;
  ew_AuthenticationMethod : string;
  ew_Action : string;
  ew_Request : option requestRefWire;
  ew_Target : option targetRefWire;
  ew_Decision : option decisionRefWire;
  ew_Operation : option operationRefWire;
  ew_Attempt : option attemptRefWire;
  ew_Elevation : option elevationRefWire;
  ew_Outcome : string;
}.

Definition id_text (id : option ID) : string := default "" id.

Definition streamToWire (s : Stream) : streamWire :=
  StW (StreamKind_String (st_kind s)) (if bool_decide (st_kind s = StreamKindWorkspace) then st_workspaceID s else "").

Definition actorToWire (a : ActorRef) : actorWire := AcW (ActorKind_String (ac_kind a)) (ac_pseudonym a).

Definition targetToWire (r : TargetRef) : targetRefWire :=
  TgW (ObjectKind_String (tr_objectKind r)) (tr_objectID r) (tr_resourceKind r) (tr_resourceID r) (tr_workspaceID r)
      (id_text (tr_environmentID r)) (id_text (tr_providerConnectionID r)).

Definition decisionToWire (r : DecisionRef) : decisionRefWire :=
  DcW (dr_policyVersion r) (dr_inputDigest r) (Effect_String (dr_effect r)) (Reason_String (dr_reason r)).

Definition operationToWire (r : OperationRef) : operationRefWire :=
  OpW (or_id r) (or_workspaceID r) (or_resourceID r) (id_text (or_environmentID r)) (id_text (or_providerConnectionID r))
      (or_generation r) (or_resourceVersion r) (Phase_text (or_phase r)) (or_reason r) (or_updatedAt r).

Definition elevationToWire (r : ElevationRef) : elevationRefWire :=
  ElW (el_grantID r) (el_administratorID r) (Action_String (el_action r)) (el_targetKind r) (id_text (el_workspaceID r))
      (id_text (el_objectID r)) (id_text (el_resourceID r)) (id_text (el_environmentID r)) (id_text (el_providerConnectionID r))
      (el_reason r) (el_caseReference r) (el_issuedAt r) (el_expiresAt r) (ElevationState_String (el_state r)) (el_recordedAt r).

Definition eventToWire (e : Event) : eventWire :=
  EvW audit_ContractVersion (ev_id e) (streamToWire (ev_stream e)) (ev_sequence e) (ev_recordedAt e)
      (ClockState_String (ev_clockState e)) (EventKind_String (ev_kind e)) (Source_String (ev_source e)) (actorToWire (ev_actor e))
      (AuthenticationMethod_String (ev_authenticationMethod e)) (Action_String (ev_action e))
      ((fun r => RqW (rq_id r)) <$> ev_request e) (targetToWire <$> ev_target e) (decisionToWire <$> ev_decision e)
      (operationToWire <$> ev_operation e) ((fun r => AtW (ar_id r) (ar_ordinal r)) <$> ev_attempt e)
      (elevationToWire <$> ev_elevation e) (Outcome_String (ev_outcome e)).

(** *** Members, by the tags of the structs *)

Definition stream_members (w : streamWire) : list (string * json) :=
  [("kind", JString (sw_Kind w))] ++ omitempty "workspaceId" (sw_WorkspaceID w).
Definition actor_members (w : actorWire) : list (string * json) :=
  [("kind", JString (aw_Kind w))] ++ omitempty "pseudonym" (aw_Pseudonym w).
Definition request_members (w : requestRefWire) : list (string * json) := [("id", JString (rw_ID w))].
Definition target_members (w : targetRefWire) : list (string * json) :=
  [("objectKind", JString (tw_ObjectKind w)); ("objectId", JString (tw_ObjectID w)); ("resourceKind", JString (tw_ResourceKind w));
   ("resourceId", JString (tw_ResourceID w)); ("workspaceId", JString (tw_WorkspaceID w))] ++
  omitempty "environmentId" (tw_EnvironmentID w) ++ omitempty "providerConnectionId" (tw_ProviderConnectionID w).
Definition decision_members (w : decisionRefWire) : list (string * json) :=
  [("policyVersion", JString (cw_PolicyVersion w)); ("inputDigest", JString (cw_InputDigest w)); ("effect", JString (cw_Effect w));
   ("reason", JString (cw_Reason w))].
Definition operation_ref_members (w : operationRefWire) : list (string * json) :=
  [("id", JString (ow_ID w)); ("workspaceId", JString (ow_WorkspaceID w)); ("resourceId", JString (ow_ResourceID w))] ++
  omitempty "environmentId" (ow_EnvironmentID w) ++ omitempty "providerConnectionId" (ow_ProviderConnectionID w) ++
  [("generation", JInt (ow_Generation w)); ("resourceVersion", JString (ow_ResourceVersion w)); ("phase", JString (ow_Phase w))] ++
  omitempty "reason" (ow_Reason w) ++ [("updatedAt", JString (ow_UpdatedAt w))].
Definition attempt_members (w : attemptRefWire) : list (string * json) :=
  [("id", JString (pw_ID w)); ("ordinal", JInt (pw_Ordinal w))].
Definition elevation_members (w : elevationRefWire) : list (string * json) :=
  [("grantId", JString (lw_GrantID w)); ("administratorId", JString (lw_AdministratorID w)); ("action", JString (lw_Action w));
   ("targetKind", JString (lw_TargetKind w))] ++
  omitempty "workspaceId" (lw_WorkspaceID w) ++ omitempty "objectId" (lw_ObjectID w) ++ omitempty "resourceId" (lw_ResourceID w) ++
  omitempty "environmentId" (lw_EnvironmentID w) ++ omitempty "providerConnectionId" (lw_ProviderConnectionID w) ++
  [("reason", JString (lw_Reason w))] ++ omitempty "caseReference" (lw_CaseReference w) ++
  [("issuedAt", JString (lw_IssuedAt w)); ("expiresAt", JString (lw_ExpiresAt w)); ("state", JString (lw_State w));
   ("recordedAt", JString (lw_RecordedAt w))].

Definition event_members (w : eventWire) : list (string * json) :=
  [("contractVersion", JString (ew_ContractVersion w)); ("id", JString (ew_ID w)); ("stream", JObject (stream_members (ew_Stream w)));
   ("sequence", JInt (ew_Sequence w)); ("recordedAt", JString (ew_RecordedAt w)); ("clockState", JString (ew_ClockState w));
   ("kind", JString (ew_Kind w)); ("source", JString (ew_Source w)); ("actor", JObject (actor_members (ew_Actor w)));
   ("authenticationMethod", JString (ew_AuthenticationMethod w)); ("action", JString (ew_Action w))] ++
  pointer request_members "request" (ew_Request w) ++ pointer target_members "target" (ew_Target w) ++
  pointer decision_members "decision" (ew_Decision w) ++ pointer operation_ref_members "operation" (ew_Operation w) ++
  pointer attempt_members "attempt" (ew_Attempt w) ++ pointer elevation_members "elevation" (ew_Elevation w) ++
  [("outcome", JString (ew_Outcome w))].

(** Every string of an event that is encoded is valid, so that it does not
    fail. *)
Definition encodeEvent (e : Event) : string := print (JObject (event_members (eventToWire e))).

Definition ValidateEvent (e : Event) : result error unit :=
  validateEventFields e;;
  fail_if (MaxCanonicalEventBytes <? slen (encodeEvent e)) (invalid_event ErrCanonicalTooLarge).

Definition MarshalCanonicalEvent (e : Event) : result error string :=
  validateEventFields e;;
  fail_if (MaxCanonicalEventBytes <? slen (encodeEvent e)) ErrCanonicalTooLarge;;
  Ok (encodeEvent e).

Definition NewEvent (i : EventInput) : result error Event :=
  recordedAt ← of_option (audit_normalizeTimestamp (ei_RecordedAt i)) (invalid_event ErrInvalidClockState);
  let e := Evt true (ei_ID i) (ei_Stream i) (ei_Sequence i) recordedAt (ei_ClockState i) (ei_Kind i) (ei_Source i) (ei_Actor i)
             (ei_AuthenticationMethod i) (ei_Action i) (ei_Request i) (ei_Target i) (ei_Decision i) (ei_Operation i) (ei_Attempt i)
             (ei_Elevation i) (ei_Outcome i) in
  ValidateEvent e;;
  Ok e.

(** *** Reading *)

Definition decode_stream (ms : list (string * json)) : option streamWire :=
  if known_members ["kind"; "workspaceId"] ms then
    kind ← get_string "kind" ms; workspace ← get_string "workspaceId" ms; Some (StW kind workspace)
  else None.
Definition decode_actor (ms : list (string * json)) : option actorWire :=
  if known_members ["kind"; "pseudonym"] ms then
    kind ← get_string "kind" ms; pseudonym ← get_string "pseudonym" ms; Some (AcW kind pseudonym)
  else None.
Definition decode_request (ms : list (string * json)) : option requestRefWire :=
  if known_members ["id"] ms then RqW <$> get_string "id" ms else None.
Definition decode_target (ms : list (string * json)) : option targetRefWire :=
  if known_members ["objectKind"; "objectId"; "resourceKind"; "resourceId"; "workspaceId"; "environmentId"; "providerConnectionId"] ms then
    a ← get_string "objectKind" ms; b ← get_string "objectId" ms; c ← get_string "resourceKind" ms; d ← get_string "resourceId" ms;
    e ← get_string "workspaceId" ms; f ← get_string "environmentId" ms; g ← get_string "providerConnectionId" ms;
    Some (TgW a b c d e f g)
  else None.
Definition decode_decision (ms : list (string * json)) : option decisionRefWire :=
  if known_members ["policyVersion"; "inputDigest"; "effect"; "reason"] ms then
    a ← get_string "policyVersion" ms; b ← get_string "inputDigest" ms; c ← get_string "effect" ms; d ← get_string "reason" ms;
    Some (DcW a b c d)
  else None.
Definition decode_operation (ms : list (string * json)) : option operationRefWire :=
  if known_members ["id"; "workspaceId"; "resourceId"; "environmentId"; "providerConnectionId"; "generation"; "resourceVersion";
                    "phase"; "reason"; "updatedAt"] ms then
    a ← get_string "id" ms; b ← get_string "workspaceId" ms; c ← get_string "resourceId" ms; d ← get_string "environmentId" ms;
    e ← get_string "providerConnectionId" ms; f ← get_int (- max_int64 - 1) max_int64 "generation" ms;
    g ← get_string "resourceVersion" ms; h ← get_string "phase" ms; i ← get_string "reason" ms; j ← get_string "updatedAt" ms;
    Some (OpW a b c d e f g h i j)
  else None.
Definition decode_attempt (ms : list (string * json)) : option attemptRefWire :=
  if known_members ["id"; "ordinal"] ms then
    a ← get_string "id" ms; b ← get_int 0 max_uint32 "ordinal" ms; Some (AtW a b)
  else None.
Definition decode_elevation (ms : list (string * json)) : option elevationRefWire :=
  if known_members ["grantId"; "administratorId"; "action"; "targetKind"; "workspaceId"; "objectId"; "resourceId"; "environmentId";
                    "providerConnectionId"; "reason"; "caseReference"; "issuedAt"; "expiresAt"; "state"; "recordedAt"] ms then
    a ← get_string "grantId" ms; b ← get_string "administratorId" ms; c ← get_string "action" ms; d ← get_string "targetKind" ms;
    e ← get_string "workspaceId" ms; f ← get_string "objectId" ms; g ← get_string "resourceId" ms; h ← get_string "environmentId" ms;
    i ← get_string "providerConnectionId" ms; j ← get_string "reason" ms; k ← get_string "caseReference" ms;
    l ← get_string "issuedAt" ms; m ← get_string "expiresAt" ms; n ← get_string "state" ms; o ← get_string "recordedAt" ms;
    Some (ElW a b c d e f g h i j k l m n o)
  else None.
Definition decode_event (ms : list (string * json)) : option eventWire :=
  if known_members ["contractVersion"; "id"; "stream"; "sequence"; "recordedAt"; "clockState"; "kind"; "source"; "actor";
                    "authenticationMethod"; "action"; "request"; "target"; "decision"; "operation"; "attempt"; "elevation"; "outcome"] ms then
    version ← get_string "contractVersion" ms; id ← get_string "id" ms;
    stream ← get_object "stream" ms ≫= decode_stream; sequence ← get_int 0 max_uint64 "sequence" ms;
    recordedAt ← get_string "recordedAt" ms; clockState ← get_string "clockState" ms; kind ← get_string "kind" ms;
    source ← get_string "source" ms; actor ← get_object "actor" ms ≫= decode_actor;
    method ← get_string "authenticationMethod" ms; action ← get_string "action" ms;
    request ← get_pointer decode_request "request" ms; target ← get_pointer decode_target "target" ms;
    decision ← get_pointer decode_decision "decision" ms; operation ← get_pointer decode_operation "operation" ms;
    attempt ← get_pointer decode_attempt "attempt" ms; elevation ← get_pointer decode_elevation "elevation" ms;
    outcome ← get_string "outcome" ms;
    Some (EvW version id stream sequence recordedAt clockState kind source actor method action request target decision operation
            attempt elevation outcome)
  else None.

Definition parseReferenceID (value : string) : result error ID := if validID value then Ok value else Err ErrInvalidReference.

Definition optional_id (value : string) : result error (option ID) :=
  if String.eqb value "" then Ok None else Some <$> parseReferenceID value.

Definition streamFromWire (w : streamWire) : result error Stream :=
  match closed_of StreamKindOther (sw_Kind w) with
  | StreamKindWorkspace =>
      id ← map_err (fun _ => ErrInvalidStream) (parseReferenceID (sw_WorkspaceID w)); NewWorkspaceStream id
  | StreamKindPlatform => if negb (String.eqb (sw_WorkspaceID w) "") then Err ErrInvalidStream else Ok NewPlatformStream
  | StreamKindOther _ => Err ErrInvalidStream
  end.

Definition targetFromWire (w : targetRefWire) : result error TargetRef :=
  objectID ← parseReferenceID (tw_ObjectID w);
  resourceID ← parseReferenceID (tw_ResourceID w);
  workspaceID ← parseReferenceID (tw_WorkspaceID w);
  environmentID ← optional_id (tw_EnvironmentID w);
  connectionID ← optional_id (tw_ProviderConnectionID w);
  let r := TgtR true (closed_of ObjectKindOther (tw_ObjectKind w)) objectID (tw_ResourceKind w) resourceID workspaceID
             environmentID connectionID in
  if validateTargetRef r then Ok r else Err ErrInvalidReference.

Definition decisionFromWire (w : decisionRefWire) : DecisionRef :=
  DecR true (cw_PolicyVersion w) (cw_InputDigest w) (closed_of EffectOther (cw_Effect w)) (closed_of ReasonOther (cw_Reason w)).

Definition operationFromWire (w : operationRefWire) : result error OperationRef :=
  id ← parseReferenceID (ow_ID w);
  workspaceID ← parseReferenceID (ow_WorkspaceID w);
  resourceID ← parseReferenceID (ow_ResourceID w);
  environmentID ← optional_id (ow_EnvironmentID w);
  connectionID ← optional_id (ow_ProviderConnectionID w);
  let r := OpR true id workspaceID resourceID environmentID connectionID (ow_Generation w) (ow_ResourceVersion w)
             (Phase_of (ow_Phase w)) (ow_Reason w) (ow_UpdatedAt w) in
  if validateOperationRef r then Ok r else Err ErrInvalidReference.

Definition elevationFromWire (w : elevationRefWire) : result error ElevationRef :=
  grantID ← parseReferenceID (lw_GrantID w);
  administratorID ← parseReferenceID (lw_AdministratorID w);
  workspaceID ← optional_id (lw_WorkspaceID w);
  objectID ← optional_id (lw_ObjectID w);
  resourceID ← optional_id (lw_ResourceID w);
  environmentID ← optional_id (lw_EnvironmentID w);
  connectionID ← optional_id (lw_ProviderConnectionID w);
  let r := ElvR true grantID administratorID (closed_of ActionOther (lw_Action w)) (lw_TargetKind w) workspaceID objectID resourceID
             environmentID connectionID (lw_Reason w) (lw_CaseReference w) (lw_IssuedAt w) (lw_ExpiresAt w)
             (closed_of ElevationStateOther (lw_State w)) (lw_RecordedAt w) in
  if validateElevationRef r then Ok r else Err ErrInvalidReference.

Definition pointerFromWire {A B} (from : A -> result error B) (value : option A) : result error (option B) :=
  match value with Some w => Some <$> from w | None => Ok None end.

Definition eventFromWire (w : eventWire) : result error Event :=
  fail_if (negb (String.eqb (ew_ContractVersion w) audit_ContractVersion)) ErrInvalidEvent;;
  id ← parseReferenceID (ew_ID w);
  stream ← streamFromWire (ew_Stream w);
  request ← pointerFromWire (fun r => ReqR true <$> parseReferenceID (rw_ID r)) (ew_Request w);
  target ← pointerFromWire targetFromWire (ew_Target w);
  operation ← pointerFromWire operationFromWire (ew_Operation w);
  attempt ← pointerFromWire (fun a => id ← parseReferenceID (pw_ID a); Ok (AttR true id (pw_Ordinal a))) (ew_Attempt w);
  elevation ← pointerFromWire elevationFromWire (ew_Elevation w);
  let e := Evt true id stream (ew_Sequence w) (ew_RecordedAt w) (closed_of ClockStateOther (ew_ClockState w))
             (closed_of EventKindOther (ew_Kind w)) (closed_of SourceOther (ew_Source w))
             (Actor true (closed_of ActorKindOther (aw_Kind (ew_Actor w))) (aw_Pseudonym (ew_Actor w)))
             (closed_of AuthenticationMethodOther (ew_AuthenticationMethod w)) (closed_of ActionOther (ew_Action w))
             request target (decisionFromWire <$> ew_Decision w) operation attempt elevation (closed_of OutcomeOther (ew_Outcome w)) in
  ValidateEvent e;;
  Ok e.

Definition UnmarshalCanonicalEvent (data : string) : result error Event :=
  fail_if (String.eqb data "") ErrNonCanonical;;
  fail_if (MaxCanonicalEventBytes <? slen data) ErrCanonicalTooLarge;;
  wire ← of_option (unmarshal decode_event data) ErrNonCanonical;
  event ← eventFromWire wire;
  canonical ← MarshalCanonicalEvent event;
  fail_if (negb (String.eqb data canonical)) ErrNonCanonical;;
  Ok event.
