(* ===== verification/AuditChain.v ===== *)
(** * The audit hash chain (audit/chain.go, digest.go)

    A stream's events form a chain: each record carries the digest of its
    predecessor and its own, derived from that digest and the canonical text of
    the event.  A checkpoint is the head of a chain; a segment is a bounded run
    of records, with a canonical text of its own. *)

From S2P Require Import Prelude Bytes Sha256 GoTime Calendar Closed Digests Hierarchy Identity Json JsonParse AuthzVocabulary.
From S2P Require Import Authorization Receipt Condition Control Operation JsonMembers Administration AuditVocabulary AuditEvent.
From Stdlib Require Import Ascii String.

(** ** Digests

    [ChainDigest] and [ExportBodyDigest] are 32 bytes with an initialised mark,
    apart by the prefix of their text. *)

Definition ChainDigest := digestValue.
Definition ExportBodyDigest := digestValue.

Definition ChainDigest_String (digest : ChainDigest) : string := formatDigest ChainDigestPrefix digest.
Definition ExportBodyDigest_String (digest : ExportBodyDigest) : string := formatDigest ExportBodyDigestPrefix digest.

Definition audit_parseDigest (value prefix : string) : result error digestValue :=
  map_err (fun _ => AuditVocabulary.ErrInvalidDigest) (parseDigest prefix value).

Definition ParseChainDigest (value : string) : result error ChainDigest := audit_parseDigest value ChainDigestPrefix.
Definition ParseExportBodyDigest (value : string) : result error ExportBodyDigest := audit_parseDigest value ExportBodyDigestPrefix.

Definition ChainDigest_MarshalText (digest : ChainDigest) : result error string :=
  if dv_initialized digest then Ok (ChainDigest_String digest) else Err AuditVocabulary.ErrInvalidDigest.
Definition ExportBodyDigest_MarshalText (digest : ExportBodyDigest) : result error string :=
  if dv_initialized digest then Ok (ExportBodyDigest_String digest) else Err AuditVocabulary.ErrInvalidDigest.

Definition chainGenesisDomain : string := "veer.audit.chain.genesis.v1".
Definition chainRecordDomain : string := "veer.audit.chain.record.v1".
Definition segmentPrefix : string :=
  "{" +:+ quote "contractVersion" +:+ ":" +:+ quote audit_ContractVersion +:+ "," +:+ quote "records" +:+ ":[".
Definition recordFramingBytes : Z := 256.

Definition stream_frames (s : Stream) : list string := [StreamKind_String (st_kind s); st_workspaceID s].

Definition deriveGenesisDigest (stream : Stream) : ChainDigest :=
  digestFromHasher ([chainGenesisDomain; audit_ContractVersion] ++ stream_frames stream).

Definition record_frames (previous : ChainDigest) (event : Event) (canonical : string) : list string :=
  [chainRecordDomain; audit_ContractVersion] ++ stream_frames (ev_stream event) ++
  [put_uint64 (ev_sequence event); dv_digest previous; canonical].

Definition deriveRecordDigest (previous : ChainDigest) (event : Event) (canonical : string) : ChainDigest :=
  digestFromHasher (record_frames previous event canonical).

(** ** Checkpoints *)

Record Checkpoint := Chk { ck_initialized : bool; ck_stream : Stream; ck_sequence : Z; ck_digest : ChainDigest }.

Definition ValidateCheckpoint (c : Checkpoint) : result error unit :=
  fail_if (negb (ck_initialized c) || negb (ValidateStream (ck_stream c)) || negb (dv_initialized (ck_digest c))) ErrInvalidCheckpoint;;
  let genesis := equalDigest (ck_digest c) (deriveGenesisDigest (ck_stream c)) in
  fail_if (negb (Bool.eqb (ck_sequence c =? 0) genesis)) ErrInvalidCheckpoint.

Definition GenesisCheckpoint (stream : Stream) : result error Checkpoint :=
  fail_if (negb (ValidateStream stream)) (ErrWrap ErrInvalidCheckpoint ErrInvalidStream);;
  Ok (Chk true stream 0 (deriveGenesisDigest stream)).

Definition NewCheckpoint (stream : Stream) (sequence : Z) (digest : ChainDigest) : result error Checkpoint :=
  let c := Chk true stream sequence digest in ValidateCheckpoint c;; Ok c.

Definition Checkpoint_Equal (c other : Checkpoint) : bool :=
  result_ok (ValidateCheckpoint c) && result_ok (ValidateCheckpoint other) && Stream_Equal (ck_stream c) (ck_stream other) &&
  (ck_sequence c =? ck_sequence other) && equalDigest (ck_digest c) (ck_digest other).

(** ** Records *)

Record AuditRecord := Rec { rc_event : Event; rc_previousDigest : ChainDigest; rc_digest : ChainDigest }.

(** What [Append], [NewSegment] and [VerifySegment] return next to the value: the
    new head, or the checkpoint they were given when they fail. *)
Definition keeping {A} (previous : Checkpoint) (r : result error (A * Checkpoint)) : result error A * Checkpoint :=
  match r with Ok (a, next) => (Ok a, next) | Err e => (Err e, previous) end.

Definition append_record (previous : Checkpoint) (event : Event) : result error (AuditRecord * Checkpoint) :=
  ValidateCheckpoint previous;;
  ValidateEvent event;;
  fail_if ((ck_sequence previous =? max_uint64) || negb (ev_sequence event =? ck_sequence previous + 1)) ErrInvalidSequence;;
  fail_if (negb (Stream_Equal (ev_stream event) (ck_stream previous))) (ErrWrap ErrInvalidRecord ErrInvalidStream);;
  canonical ← MarshalCanonicalEvent event;
  let digest := deriveRecordDigest (ck_digest previous) event canonical in
  Ok (Rec event (ck_digest previous) digest, Chk true (ck_stream previous) (ev_sequence event) digest).

Definition Append (previous : Checkpoint) (event : Event) : result error AuditRecord * Checkpoint :=
  keeping previous (append_record previous event).

(** ** Segments *)

Definition Segment := list AuditRecord.

Definition MaxInt : Z := max_int64.

Definition checkedAdd (left right : Z) : option Z :=
  if (right <? 0) || (MaxInt - right <? left) then None else Some (left + right).

Fixpoint preflight_events (stream : Stream) (sequence estimated : Z) (events : list Event) : result error unit :=
  match events with
  | [] => Ok tt
  | event :: rest =>
      ValidateEvent event;;
      fail_if ((sequence =? max_uint64) || negb (ev_sequence event =? sequence + 1) || negb (Stream_Equal (ev_stream event) stream))
        ErrInvalidSequence;;
      canonical ← MarshalCanonicalEvent event;
      addition ← of_option (checkedAdd (slen canonical) recordFramingBytes) ErrSegmentTooLarge;
      estimated ← of_option (checkedAdd estimated addition) ErrSegmentTooLarge;
      fail_if (MaxCanonicalSegmentBytes <? estimated) ErrSegmentTooLarge;;
      preflight_events stream (ev_sequence event) estimated rest
  end.

Definition preflightEvents (previous : Checkpoint) (events : list Event) : result error unit :=
  preflight_events (ck_stream previous) (ck_sequence previous) (slen segmentPrefix + 2) events.

Fixpoint append_events (head : Checkpoint) (events : list Event) : result error (Segment * Checkpoint) :=
  match events with
  | [] => Ok ([], head)
  | event :: rest =>
      match Append head event with
      | (Err e, _) => Err e
      | (Ok record, next) => '(records, head) ← append_events next rest; Ok (record :: records, head)
      end
  end.

Definition NewSegment (previous : Checkpoint) (events : list Event) : result error Segment * Checkpoint :=
  keeping previous (
    ValidateCheckpoint previous;;
    fail_if (MaxSegmentEvents <? llen events) ErrSegmentTooLarge;;
    preflightEvents previous events;;
    append_events previous events).

Definition Segment_Range (segment : Segment) : option (Z * Z) :=
  match head segment, last segment with
  | Some first, Some final => Some (ev_sequence (rc_event first), ev_sequence (rc_event final))
  | _, _ => None
  end.

Definition validateRecord (record : AuditRecord) : result error unit :=
  fail_if (negb (result_ok (ValidateEvent (rc_event record))) || negb (dv_initialized (rc_previousDigest record))
           || negb (dv_initialized (rc_digest record))) ErrInvalidRecord;;
  canonical ← map_err (fun _ => ErrInvalidRecord) (MarshalCanonicalEvent (rc_event record));
  let want := deriveRecordDigest (rc_previousDigest record) (rc_event record) canonical in
  fail_if (negb (equalDigest (rc_digest record) want)) (ErrWrap ErrInvalidRecord ErrIntegrity).

(** [record.event.sequence-1] on [uint64]. *)
Definition uint64_pred (x : Z) : Z := (x - 1) mod 2 ^ 64.

Fixpoint validate_records (previous : option AuditRecord) (records : Segment) : result error unit :=
  match records with
  | [] => Ok tt
  | record :: rest =>
      validateRecord record;;
      match previous with
      | None =>
          fail_if (negb (result_ok (NewCheckpoint (ev_stream (rc_event record)) (uint64_pred (ev_sequence (rc_event record)))
                                      (rc_previousDigest record)))) ErrInvalidSegment
      | Some p =>
          fail_if ((ev_sequence (rc_event p) =? max_uint64)
                   || negb (ev_sequence (rc_event record) =? ev_sequence (rc_event p) + 1)
                   || negb (Stream_Equal (ev_stream (rc_event record)) (ev_stream (rc_event p)))
                   || negb (equalDigest (rc_previousDigest record) (rc_digest p))) ErrInvalidSegment
      end;;
      validate_records (Some record) rest
  end.

Definition validateSegmentStructure (segment : Segment) : result error unit :=
  fail_if (MaxSegmentEvents <? llen segment) ErrSegmentTooLarge;;
  validate_records None segment.

Fixpoint verify_records (head : Checkpoint) (records : Segment) : result error Checkpoint :=
  match records with
  | [] => Ok head
  | record :: rest =>
      fail_if ((ck_sequence head =? max_uint64) || negb (ev_sequence (rc_event record) =? ck_sequence head + 1))
        (ErrWrap ErrIntegrity ErrInvalidSequence);;
      fail_if (negb (Stream_Equal (ev_stream (rc_event record)) (ck_stream head))
               || negb (equalDigest (rc_previousDigest record) (ck_digest head))) ErrIntegrity;;
      canonical ← map_err (fun _ => ErrIntegrity) (MarshalCanonicalEvent (rc_event record));
      let want := deriveRecordDigest (ck_digest head) (rc_event record) canonical in
      fail_if (negb (equalDigest (rc_digest record) want)) ErrIntegrity;;
      verify_records (Chk true (ck_stream head) (ev_sequence (rc_event record)) (rc_digest record)) rest
  end.

Definition verify_segment (previous : Checkpoint) (segment : Segment) (expected : option Checkpoint) : result error Checkpoint :=
  ValidateCheckpoint previous;;
  fail_if (MaxSegmentEvents <? llen segment) ErrSegmentTooLarge;;
  validateSegmentStructure segment;;
  head ← verify_records previous segment;
  match expected with
  | Some e => fail_if (negb (result_ok (ValidateCheckpoint e)) || negb (Checkpoint_Equal head e)) ErrExpectedHead
  | None => Ok tt
  end;;
  Ok head.

(** The head that is returned, with the error when the segment does not verify. *)
Definition VerifySegment (previous : Checkpoint) (segment : Segment) (expected : option Checkpoint) : result error unit * Checkpoint :=
  keeping previous (head ← verify_segment previous segment expected; Ok (tt, head)).

(** ** The text of a segment *)

Record recordWire := RcW { cw_Event : eventWire; cw_PreviousDigest : string; cw_Digest : string }.
Record segmentWire := SgW { gw_ContractVersion : string; gw_Records : list recordWire }.

Definition recordToWire (r : AuditRecord) : recordWire :=
  RcW (eventToWire (rc_event r)) (ChainDigest_String (rc_previousDigest r)) (ChainDigest_String (rc_digest r)).

Definition record_members (w : recordWire) : list (string * json) :=
  [("event", JObject (event_members (cw_Event w))); ("previousDigest", JString (cw_PreviousDigest w)); ("digest", JString (cw_Digest w))].

Definition segment_members (w : segmentWire) : list (string * json) :=
  [("contractVersion", JString (gw_ContractVersion w)); ("records", JArray ((fun r => JObject (record_members r)) <$> gw_Records w))].

Definition encodeSegment (segment : Segment) : string :=
  print (JObject (segment_members (SgW audit_ContractVersion (recordToWire <$> segment)))).

Definition MarshalCanonicalSegment (segment : Segment) : result error string :=
  fail_if (MaxSegmentEvents <? llen segment) ErrSegmentTooLarge;;
  validateSegmentStructure segment;;
  let data := encodeSegment segment in
  fail_if (MaxCanonicalSegmentBytes <? slen data) ErrSegmentTooLarge;;
  Ok data.

(** The inner loop of [preflightSegmentCount]: from the opening brace of a record
    past its closing one. *)
Fixpoint scan_record (depth : Z) (inString escaped : bool) (s : string) : option string :=
  match s with
  | EmptyString => None
  | String current rest =>
      if inString then
        if escaped then scan_record depth true false rest
        else if Ascii.eqb current backslash then scan_record depth true true rest
        else if Ascii.eqb current quote_mark then scan_record depth false false rest
        else scan_record depth true false rest
      else if Ascii.eqb current quote_mark then scan_record depth true false rest
      else if one_of "{[" current then scan_record (depth + 1) false false rest
      else if one_of "}]" current then
        if depth - 1 =? 0 then Some rest
        else if depth - 1 <? 0 then None
        else scan_record (depth - 1) false false rest
      else scan_record depth false false rest
  end.

(** The outer loop.  It returns within [MaxSegmentEvents + 1] rounds. *)
Fixpoint count_records (fuel : nat) (count : Z) (s : string) : result error Z :=
  match fuel, s with
  | O, _ => Err ErrSegmentTooLarge
  | S fuel', String c _ =>
      fail_if (negb (Ascii.eqb c "{")) ErrNonCanonical;;
      fail_if (MaxSegmentEvents <? count + 1) ErrSegmentTooLarge;;
      rest ← of_option (scan_record 0 false false s) ErrNonCanonical;
      match rest with
      | String d rest' =>
          if Ascii.eqb d "," then count_records fuel' (count + 1) rest'
          else if Ascii.eqb d "]" then if String.eqb rest' "}" then Ok (count + 1) else Err ErrNonCanonical
          else Err ErrNonCanonical
      | EmptyString => Err ErrNonCanonical
      end
  | S _, EmptyString => Err ErrNonCanonical
  end.

Definition preflightSegmentCount (data : string) : result error Z :=
  rest ← of_option (strip_prefix segmentPrefix data) ErrNonCanonical;
  if String.eqb rest "]}" then Ok 0 else count_records (Z.to_nat (MaxSegmentEvents + 1)) 0 rest.

Definition decode_record (ms : list (string * json)) : option recordWire :=
  if known_members ["event"; "previousDigest"; "digest"] ms then
    event ← get_object "event" ms ≫= decode_event; previous ← get_string "previousDigest" ms; digest ← get_string "digest" ms;
    Some (RcW event previous digest)
  else None.

Fixpoint decode_all {A} (decode : list (string * json) -> option A) (l : list json) : option (list A) :=
  match l with
  | [] => Some []
  | JObject ms :: rest => x ← decode ms; xs ← decode_all decode rest; Some (x :: xs)
  | _ :: _ => None
  end.

Definition decode_segment (ms : list (string * json)) : option segmentWire :=
  if known_members ["contractVersion"; "records"] ms then
    version ← get_string "contractVersion" ms; records ← get_array "records" ms ≫= decode_all decode_record;
    Some (SgW version records)
  else None.

Definition recordFromWire (w : recordWire) : result error AuditRecord :=
  event ← eventFromWire (cw_Event w);
  previousDigest ← ParseChainDigest (cw_PreviousDigest w);
  digest ← ParseChainDigest (cw_Digest w);
  Ok (Rec event previousDigest digest).

Fixpoint recordsFromWire (ws : list recordWire) : result error Segment :=
  match ws with
  | [] => Ok []
  | w :: rest => record ← recordFromWire w; records ← recordsFromWire rest; Ok (record :: records)
  end.

Definition UnmarshalCanonicalSegment (data : string) : result error Segment :=
  fail_if (String.eqb data "") ErrNonCanonical;;
  fail_if (MaxCanonicalSegmentBytes <? slen data) ErrSegmentTooLarge;;
  count ← preflightSegmentCount data;
  fail_if (MaxSegmentEvents <? count) ErrSegmentTooLarge;;
  wire ← of_option (unmarshal decode_segment data) ErrNonCanonical;
  fail_if (negb (String.eqb (gw_ContractVersion wire) audit_ContractVersion) || negb (llen (gw_Records wire) =? count)) ErrNonCanonical;;
  segment ← recordsFromWire (gw_Records wire);
  validateSegmentStructure segment;;
  canonical ← MarshalCanonicalSegment segment;
  fail_if (negb (String.eqb data canonical)) ErrNonCanonical;;
  Ok segment.

(** * Sample audit streams

    Concrete events, a chain of two of them and its text, on which the
    properties of the audit contract are instantiated. *)

Definition audit_stream : Stream := Str true StreamKindWorkspace "workspace_00000001".

Definition audit_target : TargetRef :=
  TgtR true ObjectKindResource "environment_000001" "Environment" "environment_000001" "workspace_00000001" (Some "environment_000001") None.

(** A denied request on an environment, with the decision that denied it. *)
Definition audit_event (sequence : Z) : Event :=
  Evt true "event_000000000001" audit_stream sequence "2026-01-02T03:04:05.000Z" ClockStateSynchronized EventKindRequest SourceAPI
      AnonymousActor AuthenticationMethodNone ActionResourceGet (Some (ReqR true "request_0000000001")) (Some audit_target) None None
      None None OutcomeDenied.

Definition audit_genesis : Checkpoint := Chk true audit_stream 0 (deriveGenesisDigest audit_stream).

Definition audit_built : result error Segment * Checkpoint := NewSegment audit_genesis [audit_event 1; audit_event 2].
Definition audit_segment : Segment := match audit_built with (Ok seg, _) => seg | _ => [] end.
Definition audit_head : Checkpoint := snd audit_built.
