(* ===== verification/AuditElevationProps.v ===== *)
(** * Privileged elevation in the audit stream

    Whatever the elevation ledger issued or spent can be recorded: its
    projection to the audit contract never fails. *)

From S2P Require Import Prelude Bytes GoTime Calendar Closed Condition Digests Hierarchy HierarchyProps Identity.
From S2P Require Import AuthzVocabulary Authorization TargetProps Control Operation Administration AdministrationProps AuditVocabulary AuditEvent.
From Stdlib Require Import String.

Lemma normal_year t : normal t -> 1 <= Year t <= 9999.
Proof.
  intros [[H0 H1] _]. unfold Year, civil. destruct (month_of _ _ _) as [m d]. cbn [fst].
  pose proof (year_of_days_spec (t / day)) as [L U]. assert (0 <= t / day) by (apply Z.div_pos; [lia | by vm_compute]).
  assert (t / day < year_10000_days) by (apply Z.div_lt_upper_bound; [by vm_compute | unfold year_10000 in H1; lia]).
  split.
  - destruct (Z.le_gt_cases 1 (year_of_days (t / day))) as [|Hy]; [done|]. exfalso.
    pose proof (days_before_mono (year_of_days (t / day) + 1) 1 ltac:(lia)) as M. change (days_before_year 1) with 0 in M. lia.
  - destruct (Z.le_gt_cases (year_of_days (t / day)) 9999) as [|Hy]; [done|]. exfalso.
    pose proof (days_before_mono 10000 (year_of_days (t / day)) ltac:(lia)) as M.
    assert (days_before_year 10000 = year_10000_days) by (by vm_compute). lia.
Qed.

Lemma truncate_normal t : normal t -> truncate_ms t = t.
Proof. intros [_ E]. unfold truncate_ms. lia. Qed.

Lemma audit_time t : normal t -> t <> 0 -> audit_normalizeTimestamp t = Some (format_timestamp t) /\ audit_parseTimestamp (format_timestamp t) = Some t.
Proof.
  intros N Hz. pose proof (normal_year t N) as Hy. assert (year_unsupported t = false) as Hs.
  { unfold year_unsupported. apply orb_false_iff. rewrite !Z.ltb_ge. lia. }
  unfold audit_normalizeTimestamp, audit_parseTimestamp, is_zero. rewrite (proj2 (Z.eqb_neq _ _) Hz), truncate_normal, Hs by done.
  split; [done|]. rewrite (proj2 (parseTimestamp_ok _ t)) by (split; [split; [lia|apply N]|done]). cbn [mbind option_bind]. by rewrite Hs.
Qed.

(** When a grant in a state is recorded. *)
Definition recorded_in (state : ElevationState) (g : Administration.Grant) (t : time) : Prop :=
  match state with
  | ElevationStateIssued => t = gr_issuedAt g
  | ElevationStateConsumed | ElevationStateRevoked => gr_issuedAt g <= t < gr_expiresAt g
  | ElevationStateExpired => t = gr_expiresAt g
  | ElevationStateOther _ => False
  end.

Definition elevation_of (g : Administration.Grant) (state : ElevationState) (t : time) : ElevationRef :=
  let target := gr_target g in
  ElvR true (gr_id g) (gr_administratorID g) (gr_action g) (TargetKind_String (at_kind target)) (at_workspaceID target) (at_objectID target)
    (at_resourceID target) (at_environmentID target) (at_providerConnectionID target) (gr_reason g) (gr_caseReference g)
    (format_timestamp (gr_issuedAt g)) (format_timestamp (gr_expiresAt g)) state (format_timestamp t).

Lemma elevation_shape g state t : validActionTarget (gr_action g) (gr_target g) = true ->
  validElevationTargetShape (elevation_of g state t) = true /\ validElevationActionReference (elevation_of g state t) = true /\
  Action_known (gr_action g) = true /\ validElevationAction (gr_action g) (at_kind (gr_target g)) = true /\
  forallb valid_optional [at_workspaceID (gr_target g); at_objectID (gr_target g); at_resourceID (gr_target g);
    at_environmentID (gr_target g); at_providerConnectionID (gr_target g)] = true.
Proof.
  unfold validActionTarget, ValidateTarget, validElevationTargetShape, validElevationActionReference, validElevationAction, elevation_of.
  cbn [el_targetKind el_objectID el_workspaceID el_resourceID el_environmentID el_providerConnectionID el_action forallb].
  destruct (gr_target g) as [i k o w r e p]. cbn [at_initialized at_kind at_objectID at_workspaceID at_resourceID at_environmentID at_providerConnectionID].
  intros [[Ha Ht]%andb_true_iff Hk]%andb_true_iff. apply andb_true_iff in Ht as [[_ Ho]%andb_true_iff Hs].
  rewrite !andb_true_iff in Ho. destruct Ho as (H1 & H2 & H3 & H4 & H5 & _).
  split; [|split; [|split; [|split; [|by rewrite H1, H2, H3, H4, H5]]]].
  - destruct k; cbn in Hs |- *; [by destruct o, w, r, e, p| |by destruct o, w, r, e, p|done].
    destruct o, w, r; try done. cbn in Hs. by destruct e, p, (String.eqb _ _), (String.eqb _ _).
  - destruct (gr_action g); try done; by destruct k.
  - by destruct (gr_action g).
  - unfold validAction in Ha. destruct (gr_action g); try done; by destruct k.
Qed.

Lemma newElevationRef_ok g state t : validGrant g = true -> ElevationState_known state = true -> normal t -> t <> 0 -> recorded_in state g t ->
  newElevationRef g state t = Ok (elevation_of g state t).
Proof.
  intros [_ [I1 [I2 _]] Sc [T1 T2] [N1 N2] O Lf]%validGrant_ok Hst N Hz R.
  destruct (elevation_shape g state t Sc) as (S1 & S2 & S3 & S4 & S5). pose proof (action_target _ _ Sc) as [_ Vt].
  destruct (audit_time _ N1 ltac:(lia)) as [A1 B1]. destruct (audit_time _ N2 ltac:(lia)) as [A2 B2]. destruct (audit_time _ N Hz) as [A3 B3].
  unfold newElevationRef. rewrite Vt, S4. unfold validElevationText. rewrite T1. unfold valid_case in T2.
  assert (negb (String.eqb (gr_caseReference g) "") && negb (validBoundedText (gr_caseReference g) 1 MaxCaseReferenceRunes) = false) as Hcase
    by (apply orb_true_iff in T2 as [->| ->]; [done | apply andb_false_r]).
  rewrite Hcase. cbn [negb orb fail_if mbind result_bind]. rewrite A1, A2, A3. cbn [of_option mbind result_bind]. fold (elevation_of g state t).
  assert (validateElevationRef (elevation_of g state t) = true) as ->; [|done].
  unfold validateElevationRef. rewrite S1, S2. unfold elevation_of.
  cbn [el_initialized el_grantID el_administratorID el_action el_workspaceID el_objectID el_resourceID el_environmentID el_providerConnectionID
       el_reason el_caseReference el_issuedAt el_expiresAt el_state el_recordedAt].
  rewrite S5, S3, B1, B2, B3, Hst. cbn [forallb]. rewrite I1, I2. cbn [andb]. unfold validElevationText. rewrite T1, T2.
  assert (validElevationPeriod (gr_issuedAt g) (gr_expiresAt g) = true) as ->.
  { unfold validElevationPeriod. rewrite !andb_true_iff, after_true, time_sub_leb, Z.leb_le, Z.eqb_eq by (vm_compute; split; discriminate || done).
    split; [lia|]. rewrite time_sub_small by (unfold MaxElevationDuration, minute, second, millisecond, max_int64 in *; lia).
    by rewrite Zminus_mod, (proj2 N1), (proj2 N2). }
  cbn [andb]. destruct state; cbn [recorded_in] in R; try done; unfold time_equal, before; [by apply Z.eqb_eq | | |by apply Z.eqb_eq];
    rewrite (proj2 (Z.ltb_ge _ _)), (proj2 (Z.ltb_lt _ _)) by lia; done.
Qed.

Section Ledger.
Context `{RequestURIs}.

(** What a step answers is valid. *)
Lemma step_output_valid e w o w' : admin_step e w = (o, w') ->
  match o with
  | OConsumed receipt => validConsumptionReceipt receipt = true
  | ORevoked receipt => validRevocationReceipt receipt = true
  | _ => True
  end.
Proof.
  destruct e as [observed|n ctx token request verdict|now g|now g a t|now g]; unfold admin_step.
  - destruct (sampleIssuanceClock _ _). by intros [= <- _].
  - destruct (w_pending w !! n); [|by intros [= <- _]]. destruct (Issue_after _ _ _ _ _ _) as [[]]; by intros [= <- _].
  - destruct (Ledger_StateAt _ _ _) as [[]]; by intros [= <- _].
  - destruct (Ledger_Consume now g a t (w_ledger w)) as [[r|] l] eqn:E; intros [= <- _]; cbn [answer]; [|done].
    unfold Ledger_Consume in E. apply st_bind_ok in E as ([n rec] & s & _ & E). do 2 (apply st_bind_ok in E as (? & ? & _ & E)).
    apply st_bind_ok in E as (? & ? & [G _]%reject_ok & E). apply st_bind_ok in E as (? & ? & _ & E). unfold mret, ST_ret in E.
    injection E as <- _. by apply negb_false.
  - destruct (Ledger_Revoke now g (w_ledger w)) as [[r|] l] eqn:E; intros [= <- _]; cbn [answer]; [|done].
    unfold Ledger_Revoke in E. apply st_bind_ok in E as ([n rec] & s & _ & E). apply st_bind_ok in E as (? & ? & _ & E).
    apply st_bind_ok in E as (? & ? & [G _]%reject_ok & E). apply st_bind_ok in E as (? & ? & _ & E). unfold mret, ST_ret in E.
    injection E as <- _. by apply negb_false.
Qed.

Lemma log_output_valid l0 log w : history l0 log w -> Forall (fun o => match o with
  | OConsumed receipt => validConsumptionReceipt receipt = true
  | ORevoked receipt => validRevocationReceipt receipt = true
  | _ => True end) log.
Proof. induction 1 as [|log w e o w' Hh IH E]; [constructor|]. constructor; [by eapply step_output_valid | done]. Qed.

(** C24: privileged activity is auditable.  Whatever answers an elevation ledger
    gave, in any interleaving of its calls: every grant it issued, every use
    and every revocation it accepted projects to an elevation reference of the
    audit contract, and so does the expiry of every grant.  The reference names
    that grant, its administrator, action, target and period, and the instant
    it was issued, used, revoked or expired, exactly. *)
Theorem ledger_activity_auditable (administrators : list Administrator) (l0 : ledgerState) (log : list admin_output) (w : world)
  (Hnew : NewLedger administrators false false = Ok l0) (Hh : history l0 log w) (o : admin_output) (Ho : o ∈ log) :
  match o with
  | OIssued g =>
      ElevationRefFromGrant g ElevationStateIssued = Ok (elevation_of g ElevationStateIssued (gr_issuedAt g)) /\
      ElevationRefFromGrant g ElevationStateExpired = Ok (elevation_of g ElevationStateExpired (gr_expiresAt g))
  | OConsumed receipt =>
      ElevationRefFromConsumption receipt = Ok (elevation_of (cr_grant receipt) ElevationStateConsumed (cr_consumedAt receipt))
  | ORevoked receipt =>
      ElevationRefFromRevocation receipt = Ok (elevation_of (rr_grant receipt) ElevationStateRevoked (rr_revokedAt receipt))
  | _ => True
  end.
Proof.
  destruct (history_rel _ _ _ _ Hnew Hh) as [R _]. pose proof (log_output_valid _ _ _ Hh) as V. rewrite Forall_forall in V. specialize (V o Ho).
  destruct o as [|g| |receipt|receipt| |]; try done.
  - assert (g ∈ issued log) as Hg by (unfold issued; apply list_elem_of_omap; by exists (OIssued g)).
    destruct (lg_issued _ _ _ R g Hg) as (Hv & _). pose proof Hv as F%validGrant_ok. destruct (gf_times _ F), (gf_order _ F).
    split; apply newElevationRef_ok; try done; lia.
  - unfold validConsumptionReceipt in V. rewrite !andb_true_iff, canonical_time, negb_true, before_false, before_true in V.
    destruct V as [[[[_ Vg] [N Hz]] H1] H2]. by apply newElevationRef_ok.
  - unfold validRevocationReceipt in V. rewrite !andb_true_iff, canonical_time, negb_true, before_false, before_true in V.
    destruct V as [[[[_ Vg] [N Hz]] H1] H2]. by apply newElevationRef_ok.
Qed.
End Ledger.

Lemma ledger_activity_auditable_witness :
  ElevationRefFromConsumption (CRc true ae_grant (ae_now + minute)) = Ok (elevation_of ae_grant ElevationStateConsumed (ae_now + minute)) /\
  el_recordedAt (elevation_of ae_grant ElevationStateConsumed (ae_now + minute)) = "2026-01-01T00:01:00.000Z".
Proof.
  split; [|vm_compute; reflexivity].
  apply (ledger_activity_auditable (H := s_uris) [ae_administrator] ae_ledger ae_log ae_final ae_new ae_history
           (OConsumed (CRc true ae_grant (ae_now + minute)))).
  do 4 right. left.
Defined.
