(* ===== verification/AuditEventProps.v ===== *)
(** * Properties of audit events

    The canonical text of an event and the event determine each other, and the
    references of a valid event stay inside its stream. *)

From S2P Require Import Prelude Bytes Sha256 GoTime Calendar Closed Json JsonParse Condition Digests Hierarchy Identity.
From S2P Require Import AuthzVocabulary Authorization Receipt Control Operation JsonMembers Administration AuditVocabulary AuditEvent AuditChain.
From Stdlib Require Import Ascii String.

Lemma decode_stream_members w : decode_stream (stream_members w) = Some w.
Proof. destruct w as [k i]. unfold decode_stream, stream_members; cbn [sw_Kind sw_WorkspaceID]. known_shape. by read_members. Qed.

Lemma decode_actor_members w : decode_actor (actor_members w) = Some w.
Proof. destruct w as [k i]. unfold decode_actor, actor_members; cbn [aw_Kind aw_Pseudonym]. known_shape. by read_members. Qed.

Lemma decode_request_members w : decode_request (request_members w) = Some w.
Proof. by destruct w. Qed.

Lemma decode_target_members w : decode_target (target_members w) = Some w.
Proof.
  destruct w as [a b c d e f g]. unfold decode_target, target_members.
  cbn [tw_ObjectKind tw_ObjectID tw_ResourceKind tw_ResourceID tw_WorkspaceID tw_EnvironmentID tw_ProviderConnectionID].
  known_shape. by read_members.
Qed.

Lemma decode_decision_members w : decode_decision (decision_members w) = Some w.
Proof. by destruct w. Qed.


(** The integers of a wire event within their Go types. *)
Definition operation_typed (w : operationRefWire) : Prop := - max_int64 - 1 <= ow_Generation w <= max_int64.
Definition attempt_typed (w : attemptRefWire) : Prop := 0 <= pw_Ordinal w <= max_uint32.
Definition wire_typed (w : eventWire) : Prop :=
  0 <= ew_Sequence w <= max_uint64 /\ (forall o, ew_Operation w = Some o -> operation_typed o) /\
  (forall a, ew_Attempt w = Some a -> attempt_typed a).

Lemma decode_operation_members w : operation_typed w -> decode_operation (operation_ref_members w) = Some w.
Proof.
  unfold operation_typed. destruct w as [a b c d e f g h i j]. unfold decode_operation, operation_ref_members.
  cbn [ow_ID ow_WorkspaceID ow_ResourceID ow_EnvironmentID ow_ProviderConnectionID ow_Generation ow_ResourceVersion ow_Phase ow_Reason ow_UpdatedAt].
  intros Hg. known_shape. read_members. by rewrite get_int_inside by done.
Qed.

Lemma decode_attempt_members w : attempt_typed w -> decode_attempt (attempt_members w) = Some w.
Proof.
  unfold attempt_typed. destruct w as [a b]. unfold decode_attempt, attempt_members. cbn [pw_ID pw_Ordinal].
  intros Hg. known_shape. read_members. by rewrite get_int_inside by done.
Qed.

Lemma decode_elevation_members w : decode_elevation (elevation_members w) = Some w.
Proof.
  destruct w as [a b c d e f g h i j k l m n o]. unfold decode_elevation, elevation_members.
  cbn [lw_GrantID lw_AdministratorID lw_Action lw_TargetKind lw_WorkspaceID lw_ObjectID lw_ResourceID lw_EnvironmentID
       lw_ProviderConnectionID lw_Reason lw_CaseReference lw_IssuedAt lw_ExpiresAt lw_State lw_RecordedAt].
  known_shape. by read_members.
Qed.

Lemma decode_event_members w : wire_typed w -> decode_event (event_members w) = Some w.
Proof.
  unfold wire_typed. destruct w as [a b c d e f g h i j k l m n o p q r]. unfold decode_event, event_members.
  cbn [ew_ContractVersion ew_ID ew_Stream ew_Sequence ew_RecordedAt ew_ClockState ew_Kind ew_Source ew_Actor ew_AuthenticationMethod
       ew_Action ew_Request ew_Target ew_Decision ew_Operation ew_Attempt ew_Elevation ew_Outcome].
  intros (Hs & Ho & Ha). known_shape. read_members. rewrite decode_stream_members. cbn [mbind option_bind]. rewrite get_int_inside by done.
  cbn [mbind option_bind]. rewrite decode_actor_members. cbn [mbind option_bind].
  rewrite !omitted_pointer by eauto using decode_request_members, decode_target_members, decode_decision_members,
    decode_operation_members, decode_attempt_members, decode_elevation_members. done.
Qed.

(** ** From the wire and back *)

Lemma id_nonempty id : validID id = true -> String.eqb id "" = false.
Proof. by destruct id. Qed.

Lemma optional_id_text o : valid_optional o = true -> optional_id (id_text o) = Ok o.
Proof.
  destruct o as [v|]; [|done]. unfold optional_id, parseReferenceID, id_text. simpl.
  intros H. by rewrite id_nonempty, H.
Qed.

Lemma parseReferenceID_ok id : validID id = true -> parseReferenceID id = Ok id.
Proof. unfold parseReferenceID. by intros ->. Qed.

Lemma stream_wire s : ValidateStream s = true -> streamFromWire (streamToWire s) = Ok s.
Proof.
  destruct s as [[] [| |raw] w]; unfold ValidateStream; simpl; try done; intros H.
  - unfold streamFromWire, NewWorkspaceStream. simpl. rewrite parseReferenceID_ok by done. simpl. by rewrite H.
  - apply String.eqb_eq in H as ->. done.
Qed.

Lemma actor_wire a : ValidateActorRef a = true ->
  Actor true (closed_of ActorKindOther (aw_Kind (actorToWire a))) (aw_Pseudonym (actorToWire a)) = a.
Proof. destruct a as [[] [| | | |raw] p]; unfold ValidateActorRef; simpl; done. Qed.

Lemma target_wire r : validateTargetRef r = true -> targetFromWire (targetToWire r) = Ok r.
Proof.
  intros V. pose proof V as G. unfold validateTargetRef in G. cbn [forallb] in G. guards_in G.
  unfold targetFromWire, targetToWire.
  cbn [tw_ObjectKind tw_ObjectID tw_ResourceKind tw_ResourceID tw_WorkspaceID tw_EnvironmentID tw_ProviderConnectionID].
  rewrite !parseReferenceID_ok, !optional_id_text by done. cbn [mbind result_bind].
  change (ObjectKind_String (tr_objectKind r)) with (spelled (tr_objectKind r)). rewrite closed_of_spelled by done.
  replace (TgtR _ _ _ _ _ _ _ _) with r; [by rewrite V | destruct r; simpl in *; congruence].
Qed.

Lemma decision_wire r : validateDecisionRef r = true -> decisionFromWire (decisionToWire r) = r.
Proof.
  intros G. unfold validateDecisionRef in G. guards_in G. unfold decisionFromWire, decisionToWire.
  cbn [cw_PolicyVersion cw_InputDigest cw_Effect cw_Reason].
  change (Effect_String (dr_effect r)) with (spelled (dr_effect r)). change (Reason_String (dr_reason r)) with (spelled (dr_reason r)).
  rewrite !closed_of_spelled by done. destruct r; simpl in *; congruence.
Qed.

Lemma operation_wire r : validateOperationRef r = true -> operationFromWire (operationToWire r) = Ok r.
Proof.
  intros V. pose proof V as G. unfold validateOperationRef in G. cbn [forallb] in G. guards_in G.
  unfold operationFromWire, operationToWire.
  cbn [ow_ID ow_WorkspaceID ow_ResourceID ow_EnvironmentID ow_ProviderConnectionID ow_Generation ow_ResourceVersion ow_Phase ow_Reason ow_UpdatedAt].
  rewrite !parseReferenceID_ok, !optional_id_text, Phase_of_text by done. cbn [mbind result_bind].
  replace (OpR _ _ _ _ _ _ _ _ _ _ _) with r; [by rewrite V | destruct r; simpl in *; congruence].
Qed.

Lemma elevation_wire r : validateElevationRef r = true -> elevationFromWire (elevationToWire r) = Ok r.
Proof.
  intros V. pose proof V as G. unfold validateElevationRef in G. cbn [forallb] in G.
  apply andb_true_iff in G as [G _]. guards_in G. unfold elevationFromWire, elevationToWire.
  cbn [lw_GrantID lw_AdministratorID lw_Action lw_TargetKind lw_WorkspaceID lw_ObjectID lw_ResourceID lw_EnvironmentID
       lw_ProviderConnectionID lw_Reason lw_CaseReference lw_IssuedAt lw_ExpiresAt lw_State lw_RecordedAt].
  rewrite !parseReferenceID_ok, !optional_id_text by done. cbn [mbind result_bind].
  change (Action_String (el_action r)) with (spelled (el_action r)).
  change (ElevationState_String (el_state r)) with (spelled (el_state r)). rewrite !closed_of_spelled by done.
  replace (ElvR _ _ _ _ _ _ _ _ _ _ _ _ _ _ _ _) with r; [by rewrite V | destruct r; simpl in *; congruence].
Qed.

(** ** Valid events *)

Record event_facts (e : Event) : Prop := {
  ef_initialized : ev_initialized e = true;
  ef_id : validID (ev_id e) = true;
  ef_sequence : ev_sequence e <> 0;
  ef_stream : ValidateStream (ev_stream e) = true;
  ef_time : is_some (audit_parseTimestamp (ev_recordedAt e)) = true;
  ef_clock : ClockState_known (ev_clockState e) = true;
  ef_kind : EventKind_known (ev_kind e) = true;
  ef_source : Source_known (ev_source e) = true;
  ef_actor : ValidateActorRef (ev_actor e) = true;
  ef_authentication : validateActorAuthentication (ev_actor e) (ev_authenticationMethod e) = true;
  ef_action : Action_known (ev_action e) = true;
  ef_outcome : Outcome_known (ev_outcome e) = true;
  ef_request : forall r, ev_request e = Some r -> validateRequestRef r = true;
  ef_target : forall r, ev_target e = Some r -> validateTargetRef r = true;
  ef_decision : forall r, ev_decision e = Some r -> validateDecisionRef r = true;
  ef_operation : forall r, ev_operation e = Some r -> validateOperationRef r = true;
  ef_attempt : forall r, ev_attempt e = Some r -> validateAttemptRef r = true;
  ef_elevation : forall r, ev_elevation e = Some r -> validateElevationRef r = true;
  ef_relationships : validateEventRelationships e = Ok tt;
}.

Lemma checked_reference_ok {A} (validate : A -> bool) r u :
  checked_reference validate r = Ok u -> forall x, r = Some x -> validate x = true.
Proof. unfold checked_reference. intros H x ->. apply fail_if_ok in H. by apply negb_false. Qed.

Lemma event_valid e : validateEventFields e = Ok tt -> event_facts e.
Proof.
  unfold validateEventFields. intros E.
  do 11 (let G := fresh "G" in apply bind_ok in E as (? & G%fail_if_ok & E)).
  do 6 (let G := fresh "C" in apply bind_ok in E as (? & G & E)).
  autorewrite with guards in *. destruct G0 as [G0 Gs].
  split; eauto using checked_reference_ok.
Qed.

Lemma pointer_wire {A B} (to : B -> A) (from : A -> result error B) o :
  (forall x, o = Some x -> from (to x) = Ok x) -> pointerFromWire from (to <$> o) = Ok o.
Proof. intros H. destruct o as [x|]; simpl; [by rewrite (H x) | done]. Qed.

Lemma fmap_same {A} (f : A -> A) (o : option A) : (forall x, o = Some x -> f x = x) -> f <$> o = o.
Proof. intros H. destruct o as [x|]; simpl; [by rewrite (H x) | done]. Qed.

Lemma method_known a m : validateActorAuthentication a m = true -> AuthenticationMethod_known m = true.
Proof. unfold validateActorAuthentication. intros [H _]%andb_true_iff. done. Qed.

Lemma request_wire r : validateRequestRef r = true -> ReqR true <$> parseReferenceID (rq_id r) = Ok r.
Proof.
  unfold validateRequestRef. destruct r as [i v]. cbn [rq_initialized rq_id]. intros [-> H]%andb_true_iff.
  by rewrite parseReferenceID_ok.
Qed.

Lemma attempt_wire r : validateAttemptRef r = true ->
  (i ← parseReferenceID (ar_id r); Ok (AttR true i (ar_ordinal r))) = Ok r.
Proof.
  unfold validateAttemptRef. destruct r as [i v o]. cbn [ar_initialized ar_id ar_ordinal]. intros G. guards_in G.
  by subst; rewrite parseReferenceID_ok.
Qed.

Lemma event_wire e : event_facts e -> eventFromWire (eventToWire e) = (ValidateEvent e;; Ok e).
Proof.
  intros F. unfold eventFromWire, eventToWire.
  cbn [ew_ContractVersion ew_ID ew_Stream ew_Sequence ew_RecordedAt ew_ClockState ew_Kind ew_Source ew_Actor ew_AuthenticationMethod
       ew_Action ew_Request ew_Target ew_Decision ew_Operation ew_Attempt ew_Elevation ew_Outcome].
  rewrite String.eqb_refl. cbn [negb fail_if mbind result_bind].
  rewrite parseReferenceID_ok, stream_wire by apply F. cbn [mbind result_bind].
  rewrite (pointer_wire (fun r => RqW (rq_id r))) by (intros r Hr; exact (request_wire r (ef_request _ F r Hr))). cbn [mbind result_bind].
  rewrite (pointer_wire targetToWire) by (intros r Hr; exact (target_wire r (ef_target _ F r Hr))). cbn [mbind result_bind].
  rewrite (pointer_wire operationToWire) by (intros r Hr; exact (operation_wire r (ef_operation _ F r Hr))). cbn [mbind result_bind].
  rewrite (pointer_wire (fun r => AtW (ar_id r) (ar_ordinal r))) by (intros r Hr; exact (attempt_wire r (ef_attempt _ F r Hr))).
  cbn [mbind result_bind].
  rewrite (pointer_wire elevationToWire) by (intros r Hr; exact (elevation_wire r (ef_elevation _ F r Hr))). cbn [mbind result_bind].
  rewrite actor_wire by apply F. rewrite <- option_fmap_compose.
  rewrite (fmap_same (decisionFromWire ∘ decisionToWire)) by (intros r Hr; exact (decision_wire r (ef_decision _ F r Hr))).
  pose proof (closed_of_spelled ClockStateOther _ (ef_clock _ F)) as E1. pose proof (closed_of_spelled EventKindOther _ (ef_kind _ F)) as E2.
  pose proof (closed_of_spelled SourceOther _ (ef_source _ F)) as E3.
  pose proof (closed_of_spelled AuthenticationMethodOther _ (method_known _ _ (ef_authentication _ F))) as E4.
  pose proof (closed_of_spelled ActionOther _ (ef_action _ F)) as E5. pose proof (closed_of_spelled OutcomeOther _ (ef_outcome _ F)) as E6.
  cbn [spelled ClockState_closed EventKind_closed Source_closed AuthenticationMethod_closed Action_closed Outcome_closed] in *.
  rewrite E1, E2, E3, E4, E5, E6.
  replace (Evt _ _ _ _ _ _ _ _ _ _ _ _ _ _ _ _ _ _) with e; [done|]. pose proof (ef_initialized _ F). by destruct e; simpl in *; subst.
Qed.

(** The integers of an event within the types of their fields: [uint64],
    [int64] and [uint32]. *)
Record event_typed (e : Event) : Prop := {
  et_sequence : 0 <= ev_sequence e <= max_uint64;
  et_generation : forall o, ev_operation e = Some o -> - max_int64 - 1 <= or_generation o <= max_int64;
  et_ordinal : forall a, ev_attempt e = Some a -> 0 <= ar_ordinal a <= max_uint32;
}.

Lemma event_sized w : wire_typed w -> ints_sized (JObject (event_members w)).
Proof.
  intros (Hs & Ho & Ha). unfold event_members, stream_members, actor_members, target_members, decision_members, elevation_members.
  all_sized.
  - specialize (Ho _ Hp). unfold operation_typed, operation_ref_members in *. all_sized.
  - specialize (Ha _ Hp). unfold attempt_typed, attempt_members in *. all_sized.
Qed.

Lemma event_wire_typed e : event_typed e -> wire_typed (eventToWire e).
Proof.
  intros [Hs Ho Ha]. split; [done|]. split; cbn [eventToWire ew_Operation ew_Attempt].
  - intros w. rewrite fmap_Some. intros (o & E & ->). apply (Ho _ E).
  - intros w. rewrite fmap_Some. intros (o & E & ->). apply (Ha _ E).
Qed.

Lemma event_parse e : event_typed e -> unmarshal decode_event (encodeEvent e) = Some (eventToWire e).
Proof.
  intros T%event_wire_typed. unfold unmarshal, encodeEvent. rewrite parse_print by (by apply event_sized).
  by apply decode_event_members.
Qed.

Lemma MarshalCanonicalEvent_ok e data : MarshalCanonicalEvent e = Ok data <->
  validateEventFields e = Ok tt /\ slen (encodeEvent e) <= MaxCanonicalEventBytes /\ data = encodeEvent e.
Proof.
  unfold MarshalCanonicalEvent. split.
  - intros E. apply bind_ok in E as ([] & E1 & E). apply bind_ok in E as (? & E2%fail_if_ok & [= <-]).
    apply Z.ltb_ge in E2. done.
  - intros (E1 & E2 & ->). rewrite E1. cbn [mbind result_bind]. apply Z.ltb_ge in E2. by rewrite E2.
Qed.

Lemma ValidateEvent_ok e : ValidateEvent e = Ok tt <-> MarshalCanonicalEvent e = Ok (encodeEvent e).
Proof.
  rewrite MarshalCanonicalEvent_ok. unfold ValidateEvent. rewrite bind_ok. split.
  - intros ([] & E & G%fail_if_ok). apply Z.ltb_ge in G. done.
  - intros (E & G & _). exists tt. split; [done|]. apply fail_if_ok. by apply Z.ltb_ge.
Qed.

Lemma decode_operation_typed ms w : decode_operation ms = Some w -> operation_typed w.
Proof.
  unfold decode_operation. destruct (known_members _ _); [|done]. intros E. decode_inv E. injection E as <-.
  eapply get_int_range; [|eassumption]. unfold max_int64. lia.
Qed.

Lemma decode_attempt_typed ms w : decode_attempt ms = Some w -> attempt_typed w.
Proof.
  unfold decode_attempt. destruct (known_members _ _); [|done]. intros E. decode_inv E. injection E as <-.
  eapply get_int_range; [|eassumption]. unfold max_uint32. lia.
Qed.

Lemma decode_event_typed ms w : decode_event ms = Some w -> wire_typed w.
Proof.
  unfold decode_event. destruct (known_members _ _); [|done]. intros E. decode_inv E. injection E as <-. split; [|split].
  - eapply get_int_range; [|eassumption]. unfold max_uint64. lia.
  - cbn [ew_Operation]. intros o Ho. destruct (get_pointer_some decode_operation _ _ _ _ ltac:(eassumption) Ho). by eapply decode_operation_typed.
  - cbn [ew_Attempt]. intros o Ho. destruct (get_pointer_some decode_attempt _ _ _ _ ltac:(eassumption) Ho). by eapply decode_attempt_typed.
Qed.

Lemma pointerFromWire_some {A B} (from : A -> result error B) v o x :
  pointerFromWire from v = Ok o -> o = Some x -> exists w, v = Some w /\ from w = Ok x.
Proof.
  intros E ->. destruct v as [w|]; simpl in E; [|done]. exists w. split; [done|].
  destruct (from w) as [y|]; simpl in E; [congruence | done].
Qed.

Lemma eventFromWire_typed w e : wire_typed w -> eventFromWire w = Ok e -> event_typed e.
Proof.
  intros (Hs & Ho & Ha) E. unfold eventFromWire in E.
  do 9 (let G := fresh "G" in apply bind_ok in E as (? & G & E)). injection E as <-. split; [done| |].
  - cbn [ev_operation]. intros o Eo. destruct (pointerFromWire_some _ _ _ _ G4 Eo) as (v & Ev & F). apply Ho in Ev.
    unfold operationFromWire in F. do 5 (apply bind_ok in F as (? & _ & F)). destruct (validateOperationRef _); [|done].
    by injection F as <-.
  - cbn [ev_attempt]. intros a Ea. destruct (pointerFromWire_some _ _ _ _ G5 Ea) as (v & Ev & F). apply Ha in Ev.
    apply bind_ok in F as (? & _ & F). by injection F as <-.
Qed.

Lemma encodeEvent_nonempty e : String.eqb (encodeEvent e) "" = false.
Proof. unfold encodeEvent. rewrite print_object. reflexivity. Qed.

Lemma unmarshal_steps data w e :
  String.eqb data "" = false -> slen data <= MaxCanonicalEventBytes -> unmarshal decode_event data = Some w ->
  eventFromWire w = Ok e -> MarshalCanonicalEvent e = Ok data -> UnmarshalCanonicalEvent data = Ok e.
Proof.
  intros H1 H2%Z.ltb_ge H3 H4 H5. unfold UnmarshalCanonicalEvent. rewrite H1, H2, H3. cbn [fail_if of_option mbind result_bind].
  rewrite H4. cbn [mbind result_bind]. rewrite H5. cbn [mbind result_bind]. by rewrite String.eqb_refl.
Qed.

(** Reading the canonical text of an event, of any event that has one. *)
Lemma UnmarshalCanonicalEvent_ok data e :
  UnmarshalCanonicalEvent data = Ok e <-> MarshalCanonicalEvent e = Ok data /\ event_typed e.
Proof.
  split.
  - unfold UnmarshalCanonicalEvent. intros E. do 2 (apply bind_ok in E as (? & _ & E)). apply bind_ok in E as (w & Hw%of_option_ok & E).
    apply bind_ok in E as (e' & He & E). apply bind_ok in E as (c & Hc & E). apply bind_ok in E as (? & Hd%fail_if_ok & [= ->]).
    autorewrite with guards in Hd. subst. split; [done|]. eapply eventFromWire_typed; [|done].
    unfold unmarshal in Hw. destruct (parse _) as [[]|]; try done. by eapply decode_event_typed.
  - intros [M T]. pose proof M as (V & L & Ed)%MarshalCanonicalEvent_ok. apply (unmarshal_steps data (eventToWire e)); try done.
    + subst data. apply encodeEvent_nonempty.
    + by subst data.
    + subst data. by apply event_parse.
    + rewrite event_wire by (by apply event_valid). subst data. by rewrite (proj2 (ValidateEvent_ok e)).
Qed.

(** C29: the canonical text of an audit event and the event determine each other.
    A text is read as an event exactly when it is the text that event is
    written as and the event's integers fit their fields: so whatever the
    reader accepts is written back byte for byte, whatever is written is read
    back with every field of every reference, and two events with the same
    text are the same event. *)
Theorem event_text_roundtrip :
  (forall data e, UnmarshalCanonicalEvent data = Ok e <-> MarshalCanonicalEvent e = Ok data /\ event_typed e) /\
  (forall e e' data, event_typed e -> event_typed e' ->
     MarshalCanonicalEvent e = Ok data -> MarshalCanonicalEvent e' = Ok data -> e = e').
Proof.
  split; [apply UnmarshalCanonicalEvent_ok|]. intros e e' data T T' M M'.
  pose proof (proj2 (UnmarshalCanonicalEvent_ok data e) (conj M T)) as R.
  pose proof (proj2 (UnmarshalCanonicalEvent_ok data e') (conj M' T')) as R'. congruence.
Qed.

Lemma event_text_roundtrip_witness :
  match MarshalCanonicalEvent (audit_event 1) with
  | Ok data => UnmarshalCanonicalEvent data = Ok (audit_event 1)
  | Err _ => False
  end.
Proof.
  destruct (MarshalCanonicalEvent (audit_event 1)) as [data|] eqn:E; [|vm_compute in E; discriminate E].
  apply (proj1 event_text_roundtrip). split; [exact E|]. constructor; cbn; [unfold max_uint64; lia | discriminate | discriminate].
Defined.

(** ** Attribution and confinement *)

(** An event is confined to its stream and attributed.  The target, the
    operation and the elevation of a valid event lie in the workspace of its
    stream; in the platform stream there is no target and no operation, and an
    elevation is for the platform.  An elevation is recorded by its own
    strongly authenticated administrator, for its own action, at the instant it
    happened, and for the very operation or target of the event; a provider
    attempt only by the provider adapter, with its operation. *)
Theorem event_confined e : ValidateEvent e = Ok tt ->
  let workspace := Stream_WorkspaceID (ev_stream e) in
  (forall t, ev_target e = Some t -> workspace = Some (tr_workspaceID t)) /\
  (forall o, ev_operation e = Some o -> workspace = Some (or_workspaceID o)) /\
  (forall v, ev_elevation e = Some v ->
     el_workspaceID v = workspace /\ ev_kind e = EventKindElevation /\ ac_kind (ev_actor e) = ActorKindAdministrator /\
     ev_authenticationMethod e = AuthenticationMethodStrongOIDC /\ el_administratorID v = ac_pseudonym (ev_actor e) /\
     el_action v = ev_action e /\ el_recordedAt v = ev_recordedAt e /\
     (forall o, ev_operation e = Some o -> el_objectID v = Some (or_id o) /\ el_resourceID v = Some (or_resourceID o)) /\
     (forall t, ev_target e = Some t -> el_objectID v = Some (tr_objectID t) /\ el_resourceID v = Some (tr_resourceID t))) /\
  (forall a, ev_attempt e = Some a -> ev_source e = SourceProviderAdapter /\ exists o, ev_operation e = Some o).
Proof.
  intros (V & _)%ValidateEvent_ok%MarshalCanonicalEvent_ok. apply event_valid, ef_relationships in V. cbv zeta. unfold validateEventRelationships in V.
  apply bind_ok in V as (? & K%fail_if_ok & V). apply bind_ok in V as (? & A%fail_if_ok & V). apply bind_ok in V as (? & E & V).
  apply bind_ok in V as (? & _ & V). apply bind_ok in V as (? & T & V). apply bind_ok in V as (? & O & V). apply negb_false in K.
  split; [intros t Ht; rewrite Ht in T; by apply fail_if_ok, negb_false, bool_decide_eq_true in T|].
  split; [intros o Ho; rewrite Ho in O; by apply fail_if_ok, negb_false, bool_decide_eq_true in O|]. split.
  - intros v Hv. rewrite Hv in E, V. apply fail_if_ok, negb_false in E, V. apply bool_decide_eq_true in V.
    unfold elevation_consistent in E. guards_in E. unfold kind_references in K.
    match goal with H : ev_kind e = _ |- _ => rewrite H in K end. guards_in K. do 7 (split; [done|]). split.
    + intros o Ho. rewrite Ho in *. match goal with H : elevationMatchesOperation _ _ = true |- _ => unfold elevationMatchesOperation, is_id in H; guards_in H end. done.
    + intros t Ht. rewrite Ht in *. match goal with H : elevationMatchesTarget _ _ = true |- _ => unfold elevationMatchesTarget in H end.
      destruct (TargetKind_of _); try done; match goal with H : elevation_in_target _ _ _ = true |- _ => unfold elevation_in_target, is_id in H; guards_in H end; done.
  - intros a Ha. rewrite Ha in A. cbn [is_some andb] in A. apply negb_false, bool_decide_eq_true in A. unfold kind_references in K.
    rewrite A, !andb_true_iff, bool_decide_eq_true in K. destruct K as [[K _] Ks]. split; [done|]. destruct (ev_operation e); [by eexists | done].
Qed.

Lemma event_confined_witness : ValidateEvent (audit_event 1) = Ok tt /\ Stream_WorkspaceID audit_stream = Some (tr_workspaceID audit_target).
Proof.
  assert (ValidateEvent (audit_event 1) = Ok tt) as V by (vm_compute; reflexivity). split; [exact V|].
  exact (proj1 (event_confined (audit_event 1) V) audit_target eq_refl).
Defined.
