(* ===== verification/AuditChainProps.v ===== *)
(** * Properties of the audit hash chain

    [chain] is the promise: every record follows its predecessor by sequence,
    stream and digest.  Building, verifying and reading segments are proved
    against it; a trusted head then determines the records below it. *)

From S2P Require Import Prelude Bytes Sha256 GoTime Calendar Closed Json JsonParse Condition Digests Hierarchy Identity.
From S2P Require Import AuthzVocabulary Authorization Receipt Control Operation JsonMembers Administration AuditVocabulary AuditEvent AuditEventProps AuditChain.
From Stdlib Require Import Ascii String.

(** ** The chain *)

Definition next_head (head : Checkpoint) (r : AuditRecord) : Checkpoint :=
  Chk true (ck_stream head) (ev_sequence (rc_event r)) (rc_digest r).

Record linked (head : Checkpoint) (r : AuditRecord) : Prop := {
  lk_room : ck_sequence head <> max_uint64;
  lk_sequence : ev_sequence (rc_event r) = ck_sequence head + 1;
  lk_stream : ev_stream (rc_event r) = ck_stream head;
  lk_valid : ValidateEvent (rc_event r) = Ok tt;
  lk_previous : rc_previousDigest r = ck_digest head;
  lk_digest : rc_digest r = deriveRecordDigest (ck_digest head) (rc_event r) (encodeEvent (rc_event r));
}.

Inductive chain : Checkpoint -> Segment -> Checkpoint -> Prop :=
| chain_nil h : chain h [] h
| chain_cons h r rs h' : linked h r -> chain (next_head h r) rs h' -> chain h (r :: rs) h'.

(** ** Streams, checkpoints and events *)

Lemma Stream_Equal_ok a b : Stream_Equal a b = true <-> ValidateStream a = true /\ a = b.
Proof.
  unfold Stream_Equal. split.
  - intros G. guards_in G. split; [done|].
    assert (st_initialized a = true /\ st_initialized b = true) as [Ha Hb].
    { unfold ValidateStream in *. repeat match goal with E : _ && _ = true |- _ => apply andb_true_iff in E as [? ?] end. done. }
    destruct a, b; simpl in *; congruence.
  - intros [V ->]. rewrite V, String.eqb_refl. by rewrite bool_decide_eq_true_2.
Qed.

Lemma ValidateCheckpoint_ok c : ValidateCheckpoint c = Ok tt <->
  ck_initialized c = true /\ ValidateStream (ck_stream c) = true /\ dv_initialized (ck_digest c) = true /\
  (ck_sequence c = 0 <-> ck_digest c = deriveGenesisDigest (ck_stream c)).
Proof.
  unfold ValidateCheckpoint. rewrite bind_ok.
  assert (equalDigest (ck_digest c) (deriveGenesisDigest (ck_stream c)) = true <->
          dv_initialized (ck_digest c) = true /\ ck_digest c = deriveGenesisDigest (ck_stream c)) as Hg.
  { rewrite equalDigest_true. split; [tauto|]. intros [H1 H2]. by rewrite <- H2. }
  split.
  - intros ([] & G1%fail_if_ok & G2%fail_if_ok). autorewrite with guards in G1. destruct G1 as [[G1 G3] G4].
    split; [done|]. split; [done|]. split; [done|]. apply negb_false, Bool.eqb_prop in G2.
    split; intros E.
    + apply Z.eqb_eq in E. rewrite E in G2. by apply Hg.
    + assert (equalDigest (ck_digest c) (deriveGenesisDigest (ck_stream c)) = true) as Eq by (by apply Hg).
      rewrite Eq in G2. by apply Z.eqb_eq.
  - intros (H1 & H2 & H3 & H4). exists tt. rewrite H1, H2, H3. split; [done|]. apply fail_if_ok, negb_false, Bool.eqb_true_iff.
    apply eq_true_iff_eq. rewrite Z.eqb_eq, Hg. tauto.
Qed.

Lemma derived_initialized d e t : dv_initialized (deriveRecordDigest d e t) = true.
Proof. done. Qed.

Lemma canonical_event e t : MarshalCanonicalEvent e = Ok t <-> ValidateEvent e = Ok tt /\ t = encodeEvent e.
Proof.
  rewrite ValidateEvent_ok, !MarshalCanonicalEvent_ok. naive_solver.
Qed.

Lemma event_stream_valid e : ValidateEvent e = Ok tt -> ValidateStream (ev_stream e) = true.
Proof. intros (V & _)%ValidateEvent_ok%MarshalCanonicalEvent_ok. by apply event_valid. Qed.

(** ** Appending *)

Lemma append_record_ok head e r next : append_record head e = Ok (r, next) <->
  ValidateCheckpoint head = Ok tt /\ linked head r /\ rc_event r = e /\ next = next_head head r.
Proof.
  unfold append_record. split.
  - intros E. apply bind_ok in E as ([] & V & E). apply bind_ok in E as ([] & Ve & E). apply bind_ok in E as (? & G1%fail_if_ok & E).
    apply bind_ok in E as (? & G2%fail_if_ok & E). apply bind_ok in E as (t & [_ ->]%canonical_event & E). injection E as <- <-.
    autorewrite with guards in *. apply Stream_Equal_ok in G2 as [_ G2]. destruct G1. split; [done|]. by split; [|done].
  - intros (V & [L1 L2 L3 L4 L5 L6] & <- & ->). rewrite V, L4. cbn [mbind result_bind].
    apply Z.eqb_neq in L1. apply Z.eqb_eq in L2. rewrite L1, L2. cbn [orb negb fail_if mbind result_bind].
    rewrite (proj2 (Stream_Equal_ok _ _)) by (split; [by apply event_stream_valid | done]). cbn [negb fail_if mbind result_bind].
    rewrite (proj2 (canonical_event _ _) (conj L4 eq_refl)). cbn [mbind result_bind]. unfold next_head. rewrite <- L6.
    destruct r; simpl in *. congruence.
Qed.

Lemma Append_ok head e r next : Append head e = (Ok r, next) <->
  ValidateCheckpoint head = Ok tt /\ linked head r /\ rc_event r = e /\ next = next_head head r.
Proof.
  unfold Append, keeping. rewrite <- append_record_ok. destruct (append_record head e) as [[r' n']|]; naive_solver.
Qed.

Lemma append_events_chain events : forall head seg next,
  append_events head events = Ok (seg, next) -> chain head seg next /\ rc_event <$> seg = events.
Proof.
  induction events as [|e events IH]; intros head seg next; cbn [append_events].
  - intros [= <- <-]. by split; [constructor|].
  - destruct (Append head e) as [[r|] n] eqn:A; [|done]. apply Append_ok in A as (_ & L & <- & ->).
    intros E. apply bind_ok in E as ([rs h] & E & [= <- <-]). apply IH in E as [C <-]. split; [by constructor | done].
Qed.

(** ** Verifying *)

Lemma verify_records_ok rs : forall head h, ValidateStream (ck_stream head) = true -> dv_initialized (ck_digest head) = true ->
  (verify_records head rs = Ok h <-> chain head rs h).
Proof.
  induction rs as [|r rs IH]; intros head h Vs Vd; cbn [verify_records].
  - split; [intros [= <-]; constructor | by inversion 1].
  - split.
    + intros E. apply bind_ok in E as (? & G1%fail_if_ok & E). apply bind_ok in E as (? & G2%fail_if_ok & E).
      apply bind_ok in E as (t & [Ve ->]%map_err_ok%canonical_event & E). apply bind_ok in E as (? & G3%fail_if_ok & E).
      autorewrite with guards in *. destruct G1, G2 as [G2 (_ & _ & G4)], G3 as (Hi & _ & G3). apply Stream_Equal_ok in G2 as [_ G2].
      apply IH in E; [|done|done]. by constructor.
    + inversion 1 as [|? ? ? ? [L1 L2 L3 L4 L5 L6] C]; subst. apply Z.eqb_neq in L1. apply Z.eqb_eq in L2. rewrite L1, L2.
      cbn [orb negb fail_if mbind result_bind].
      rewrite (proj2 (Stream_Equal_ok _ _)), L5, equalDigest_refl, Vd by (split; [by apply event_stream_valid | done]).
      cbn [orb negb fail_if mbind result_bind]. rewrite (proj2 (canonical_event _ _) (conj L4 eq_refl)).
      cbn [map_err mbind result_bind]. rewrite <- L6, equalDigest_refl, L6, derived_initialized. cbn [negb fail_if mbind result_bind].
      rewrite <- L6. by apply IH; [..|rewrite L6 |].
Qed.

(** A [uint64] and 32 bytes. *)
Definition checkpoint_typed (c : Checkpoint) : Prop := 0 <= ck_sequence c <= max_uint64 /\ digest_wf (ck_digest c).

Lemma uint64_pred_succ x : 0 <= x < max_uint64 -> uint64_pred (x + 1) = x.
Proof. unfold uint64_pred, max_uint64. intros H. rewrite Z.mod_small; lia. Qed.

Lemma validateRecord_linked head r : dv_initialized (ck_digest head) = true -> linked head r -> validateRecord r = Ok tt.
Proof.
  intros Vd [_ _ _ L4 L5 L6]. unfold validateRecord. rewrite L4, L5, Vd, (proj2 (canonical_event _ _) (conj L4 eq_refl)).
  cbn [result_ok map_err mbind result_bind]. rewrite <- L6, equalDigest_refl, L6, derived_initialized. done.
Qed.

Lemma validate_records_chain rs : forall head h p,
  chain head rs h -> head = next_head head p -> ev_stream (rc_event p) = ck_stream head ->
  ck_digest head = rc_digest p -> dv_initialized (rc_digest p) = true -> validate_records (Some p) rs = Ok tt.
Proof.
  induction rs as [|r rs IH]; intros head h p C Hn Hs Hd Vd; [done|]. inversion C as [|? ? ? ? L C']; subst.
  cbn [validate_records]. rewrite (validateRecord_linked head) by (rewrite ?Hd; done). cbn [mbind result_bind].
  pose proof L as [L1 L2 L3 L4 L5 L6].
  assert (ev_sequence (rc_event p) = ck_sequence head) as Ep by (symmetry; exact (f_equal ck_sequence Hn)).
  rewrite Ep, Hs, L5, Hd, equalDigest_refl, Vd. apply Z.eqb_neq in L1. rewrite L1. rewrite (proj2 (Z.eqb_eq _ _) L2).
  rewrite (proj2 (Stream_Equal_ok _ _)) by (split; [by apply event_stream_valid | done]). cbn [orb negb fail_if mbind result_bind].
  eapply IH; [exact C' | done | done | done |]. by rewrite L6.
Qed.

Lemma structure_chain prev rs h : ValidateCheckpoint prev = Ok tt -> checkpoint_typed prev -> llen rs <= MaxSegmentEvents ->
  chain prev rs h -> validateSegmentStructure rs = Ok tt.
Proof.
  intros V T Hl C. unfold validateSegmentStructure. rewrite (proj2 (Z.ltb_ge _ _) Hl). cbn [fail_if mbind result_bind].
  pose proof V as (Hi & Vs & Vd & Hg)%ValidateCheckpoint_ok. inversion C as [|? r rs' ? L C']; subst; [done|].
  cbn [validate_records]. rewrite (validateRecord_linked prev) by done. cbn [mbind result_bind].
  pose proof L as [L1 L2 L3 L4 L5 L6]. unfold checkpoint_typed in T.
  rewrite L2, uint64_pred_succ, L3, L5 by lia. unfold NewCheckpoint.
  replace (Chk true (ck_stream prev) (ck_sequence prev) (ck_digest prev)) with prev by (destruct prev; simpl in *; congruence).
  rewrite V. cbn [mbind result_bind result_ok negb fail_if].
  eapply validate_records_chain; [exact C' | done | done | done |]. by rewrite L6.
Qed.

(** Verification accepts exactly the bounded chains, up to the expected head. *)
Lemma verify_segment_ok prev seg expected head : checkpoint_typed prev ->
  verify_segment prev seg expected = Ok head <->
  ValidateCheckpoint prev = Ok tt /\ llen seg <= MaxSegmentEvents /\ chain prev seg head /\
  (forall e, expected = Some e -> Checkpoint_Equal head e = true).
Proof.
  intros T. unfold verify_segment. split.
  - intros E. apply bind_ok in E as ([] & V & E). apply bind_ok in E as (? & G1%fail_if_ok & E). apply bind_ok in E as (? & _ & E).
    apply bind_ok in E as (h & Hv & E). pose proof V as (Hi & Vs & Vd & Hg)%ValidateCheckpoint_ok.
    apply verify_records_ok in Hv; [|done|done]. apply Z.ltb_ge in G1. apply bind_ok in E as ([] & Hx & [= <-]).
    split; [done|]. split; [done|]. split; [done|]. intros e ->. apply fail_if_ok in Hx. by guards_in Hx.
  - intros (V & Hl & C & Hx). rewrite V, (proj2 (Z.ltb_ge _ _) Hl). cbn [fail_if mbind result_bind].
    rewrite (structure_chain prev seg head) by done. cbn [mbind result_bind].
    pose proof V as (Hi & Vs & Vd & Hg)%ValidateCheckpoint_ok. rewrite (proj2 (verify_records_ok seg prev head Vs Vd) C).
    cbn [mbind result_bind]. destruct expected as [e|]; [|done]. rewrite (Hx e eq_refl).
    assert (result_ok (ValidateCheckpoint e) = true) as ->; [|done].
    specialize (Hx e eq_refl). unfold Checkpoint_Equal in Hx. by guards_in Hx.
Qed.

(** ** Heads and what lies below them *)

Lemma chain_sequence head rs h : chain head rs h -> ck_sequence h = ck_sequence head + llen rs /\ ck_stream h = ck_stream head.
Proof.
  induction 1 as [|head r rs h L C [IH1 IH2]]; [simpl; split; [lia|done]|]. destruct L. cbn [next_head ck_sequence ck_stream] in *.
  split; [|done]. cbn [List.length]. lia.
Qed.

Lemma chain_app head rs ss h : chain head (rs ++ ss) h <-> exists m, chain head rs m /\ chain m ss h.
Proof.
  revert head. induction rs as [|r rs IH]; intros head; simpl.
  - split; [intros C; exists head; split; [constructor|done]|]. by intros (m & Hm & C); inversion Hm; subst.
  - split.
    + inversion 1 as [|? ? ? ? L C]; subst. apply IH in C as (m & C1 & C2). exists m. split; [by constructor | done].
    + intros (m & C1 & C2). inversion C1 as [|? ? ? ? L C]; subst. constructor; [done|]. apply IH. by exists m.
Qed.

Lemma Checkpoint_Equal_ok a b : Checkpoint_Equal a b = true <-> ValidateCheckpoint a = Ok tt /\ a = b.
Proof.
  unfold Checkpoint_Equal. split.
  - intros G. guards_in G. repeat match goal with E : result_ok _ = true |- _ => apply result_ok_true in E as ([] & E) end.
    split; [done|]. match goal with E : Stream_Equal _ _ = true |- _ => apply Stream_Equal_ok in E as [_ E] end.
    repeat match goal with E : ValidateCheckpoint _ = Ok tt |- _ => apply ValidateCheckpoint_ok in E as (? & _) end.
    destruct a, b; simpl in *; congruence.
  - intros [V <-]. pose proof V as (Hi & Vs & Vd & _)%ValidateCheckpoint_ok. rewrite V, Z.eqb_refl, equalDigest_refl, Vd.
    by rewrite (proj2 (Stream_Equal_ok _ _)).
Qed.

Lemma chain_snoc head rs r h : chain head (rs ++ [r]) h <-> exists m, chain head rs m /\ linked m r /\ h = next_head m r.
Proof.
  rewrite chain_app. split; intros (m & C & H); exists m; (split; [done|]).
  - inversion H as [|? ? ? ? L C']; subst. by inversion C'; subst.
  - destruct H as [L ->]. constructor; [done | constructor].
Qed.

Lemma chain_head head rs m : chain head rs m -> ck_initialized head = true -> dv_initialized (ck_digest head) = true ->
  digest_wf (ck_digest head) -> ck_initialized m = true /\ dv_initialized (ck_digest m) = true /\ digest_wf (ck_digest m).
Proof.
  induction 1 as [|head r rs h L C IH]; [done|]. intros _ _ _. destruct L as [_ _ _ _ _ L6]. apply IH; simpl; [done| |];
    rewrite L6; apply digestFromHasher_wf.
Qed.

Definition record_text (r : AuditRecord) : list string := record_frames (rc_previousDigest r) (rc_event r) (encodeEvent (rc_event r)).

(** Two different records whose preimages have one digest. *)
Definition colliding (r s : AuditRecord) : Prop :=
  preimage (record_text r) <> preimage (record_text s) /\ sha256 (preimage (record_text r)) = sha256 (preimage (record_text s)).

Lemma validID_length id : validID id = true -> slen id <= 256.
Proof. unfold validID, matches_pattern. destruct id; [done|]. intros G. guards_in G. unfold slen in *. cbn [String.length]. lia. Qed.

Lemma record_text_sized m r : digest_wf (ck_digest m) -> linked m r -> Forall frame_sized (record_text r).
Proof.
  intros W [_ _ _ L4 L5 _]. unfold record_text, record_frames, stream_frames, frame_sized. rewrite L5.
  pose proof L4 as (_ & Hl & _)%ValidateEvent_ok%MarshalCanonicalEvent_ok. pose proof (event_stream_valid _ L4) as Vs.
  unfold digest_wf, sha256_size, MaxCanonicalEventBytes in *. unfold max_uint64.
  cbn [app]. apply Forall_cons; split; [by vm_compute|]. apply Forall_cons; split; [by vm_compute|].
  apply Forall_cons; split; [|apply Forall_cons; split; [|apply Forall_cons; split]].
  - destruct (ev_stream (rc_event r)) as [i [| |] w]; [by vm_compute..|]. unfold ValidateStream in Vs. simpl in Vs. by destruct i.
  - destruct (ev_stream (rc_event r)) as [i [| |] w]; unfold ValidateStream in Vs; simpl in *; destruct i; try done.
    + apply validID_length in Vs. lia.
    + apply String.eqb_eq in Vs as ->. by vm_compute.
  - unfold put_uint64, slen. rewrite be_bytes_length. lia.
  - apply Forall_cons; split; [lia|]. apply Forall_cons; split; [lia | apply Forall_nil_2].
Qed.

Lemma record_text_inj m n r s : digest_wf (ck_digest m) -> digest_wf (ck_digest n) ->
  dv_initialized (ck_digest m) = true -> dv_initialized (ck_digest n) = true ->
  linked m r -> linked n s -> event_typed (rc_event r) -> event_typed (rc_event s) ->
  preimage (record_text r) = preimage (record_text s) -> rc_event r = rc_event s /\ ck_digest m = ck_digest n.
Proof.
  intros Wm Wn Im In L K T T' E. apply preimage_inj in E; [|by apply (record_text_sized m)|by apply (record_text_sized n)].
  assert (dv_digest (rc_previousDigest r) = dv_digest (rc_previousDigest s)) as Ed by exact (f_equal (fun l => nth 5 l "") E).
  assert (encodeEvent (rc_event r) = encodeEvent (rc_event s)) as Et by exact (f_equal (fun l => nth 6 l "") E). split.
  - pose proof (lk_valid _ _ L) as V%ValidateEvent_ok. pose proof (lk_valid _ _ K) as V'%ValidateEvent_ok. rewrite Et in V.
    pose proof (proj2 (UnmarshalCanonicalEvent_ok _ _) (conj V T)) as R.
    pose proof (proj2 (UnmarshalCanonicalEvent_ok _ _) (conj V' T')) as R'. congruence.
  - rewrite (lk_previous _ _ L), (lk_previous _ _ K) in Ed. destruct (ck_digest m), (ck_digest n); simpl in *; congruence.
Qed.

Definition records_typed (rs : Segment) : Prop := Forall (fun r => event_typed (rc_event r)) rs.

(** Two chains from one checkpoint to one head are the same, or two of their
    records at one place collide. *)
Lemma chain_determined prev s1 : forall s2 h, ValidateCheckpoint prev = Ok tt -> checkpoint_typed prev ->
  records_typed s1 -> records_typed s2 -> chain prev s1 h -> chain prev s2 h ->
  s1 = s2 \/ exists i r1 r2, s1 !! i = Some r1 /\ s2 !! i = Some r2 /\ colliding r1 r2.
Proof.
  intros s2 h V T. pose proof V as (Hi & Vs & Vd & _)%ValidateCheckpoint_ok. destruct T as [T W]. revert s2 h.
  induction s1 as [|r1 s1 IH] using rev_ind; intros s2 h T1 T2 C1 C2;
    pose proof (chain_sequence _ _ _ C1) as [S1 _]; pose proof (chain_sequence _ _ _ C2) as [S2 _].
  - left. destruct s2; [done|]. cbn [List.length] in *. lia.
  - destruct s2 as [|r2 s2 _] using rev_ind; [rewrite length_app in S1; cbn [List.length] in *; lia|].
    rewrite !length_app in *. cbn [List.length] in *. unfold records_typed in *.
    apply Forall_app in T1 as [T1 E1%Forall_inv]. apply Forall_app in T2 as [T2 E2%Forall_inv].
    apply chain_snoc in C1 as (m & C1 & L & Hh). apply chain_snoc in C2 as (n & C2 & K & Hh').
    destruct (chain_head _ _ _ C1 Hi Vd W) as (Im & Dm & Wm). destruct (chain_head _ _ _ C2 Hi Vd W) as (In & Dn & Wn).
    assert (rc_digest r1 = rc_digest r2) as Hd by (rewrite Hh in Hh'; exact (f_equal ck_digest Hh')).
    assert (sha256 (preimage (record_text r1)) = sha256 (preimage (record_text r2))) as Hsha.
    { unfold record_text. rewrite (lk_digest _ _ L), (lk_digest _ _ K) in Hd. rewrite (lk_previous _ _ L), (lk_previous _ _ K).
      exact (f_equal dv_digest Hd). }
    destruct (decide (preimage (record_text r1) = preimage (record_text r2))) as [E|E].
    + pose proof (record_text_inj m n r1 r2 Wm Wn Dm Dn L K E1 E2 E) as [Ee Em].
      assert (m = n) as <-.
      { pose proof (chain_sequence _ _ _ C1) as [Q1 P1]. pose proof (chain_sequence _ _ _ C2) as [Q2 P2].
        assert (ck_sequence m = ck_sequence n) by lia. destruct m, n; simpl in *; congruence. }
      destruct (IH s2 m T1 T2 C1 C2) as [<-|(i & a & b & Ha & Hb & Hc)].
      * left. do 2 f_equal. pose proof (lk_previous _ _ L). pose proof (lk_previous _ _ K). destruct r1, r2; simpl in *; congruence.
      * right. exists i, a, b. unfold Segment. rewrite !lookup_app_l by (by eapply lookup_lt_Some). done.
    + right. exists (List.length s1), r1, r2. assert (List.length s1 = List.length s2) as El by lia. unfold Segment.
      rewrite list_lookup_middle by done. rewrite list_lookup_middle by done. done.
Qed.
