(* ===== verification/AuditSegmentProps.v ===== *)
(** * Properties of audit segments

    The preflight of a segment's text counts its records, the estimate made
    before a segment is built bounds its text, and the text and the segment
    determine each other. *)

From S2P Require Import Prelude Bytes Sha256 GoTime Calendar Closed Json JsonParse Condition Digests Hierarchy Identity.
From S2P Require Import AuthzVocabulary Authorization Receipt Control Operation JsonMembers Administration AuditVocabulary AuditEvent AuditChain AuditEventProps AuditChainProps.
From Stdlib Require Import Ascii String.

(** ** The scanner over written values *)

Lemma scan_piece d p s : scan_record d true false (piece_text p +:+ s) = scan_record d true false s.
Proof. destruct p as [[[] [] [] [] [] [] [] []]|[]]; reflexivity. Qed.

Lemma scan_texts d ps s : scan_record d true false (texts ps +:+ String quote_mark s) = scan_record d false false s.
Proof.
  induction ps as [|p ps IH]; [reflexivity|]. cbn [texts]. by rewrite string_app_assoc, scan_piece, IH.
Qed.

Lemma scan_quote d a s : scan_record d false false (quote a +:+ s) = scan_record d false false s.
Proof.
  unfold quote. change (String quote_mark (texts (pieces a) +:+ String quote_mark "") +:+ s) with
    (String quote_mark ((texts (pieces a) +:+ String quote_mark "") +:+ s)).
  rewrite string_app_assoc. change (String quote_mark "" +:+ s) with (String quote_mark s). cbn [scan_record].
  rewrite Ascii.eqb_refl. apply scan_texts.
Qed.

(** The bytes outside strings that the scanner only steps over. *)
Definition quiet (c : ascii) : bool := negb (Ascii.eqb c quote_mark) && negb (one_of "{[" c) && negb (one_of "}]" c).

Lemma scan_quiet d a s : string_forall quiet a = true -> scan_record d false false (a +:+ s) = scan_record d false false s.
Proof.
  induction a as [|c a IH]; [done|]. cbn [string_forall]. intros [Hc Ha]%andb_true_iff. unfold quiet in Hc. guards_in Hc.
  change (String c a +:+ s) with (String c (a +:+ s)). cbn [scan_record].
  repeat match goal with E : _ = false |- _ => rewrite E; clear E end.
  match goal with E : c <> quote_mark |- _ => apply Ascii.eqb_neq in E; rewrite E | _ => idtac end. by apply IH.
Qed.

Lemma digit_quiet c : is_digit c = true -> quiet c = true.
Proof. destruct c as [[] [] [] [] [] [] [] []]; vm_compute; done. Qed.

Lemma string_forall_impl (p q : ascii -> bool) s : (forall c, p c = true -> q c = true) -> string_forall p s = true -> string_forall q s = true.
Proof.
  intros H. induction s as [|c s IH]; [done|]. cbn [string_forall]. rewrite !andb_true_iff. intros [Hc Hs]. split; [by apply H | by apply IH].
Qed.

Lemma int_text_quiet v : string_forall quiet (int_text v) = true.
Proof.
  unfold int_text. destruct (Z.ltb_spec v 0).
  - change (string_forall quiet ("-" +:+ decimal_digits 20 (- v))) with (true && string_forall quiet (decimal_digits 20 (- v))).
    apply (string_forall_impl is_digit); [apply digit_quiet|]. apply decimal_digits_digits. lia.
  - apply (string_forall_impl is_digit); [apply digit_quiet|]. by apply decimal_digits_digits.
Qed.

Definition stepped_over (j : json) : Prop :=
  forall d rest, 1 <= d -> scan_record d false false (print j +:+ rest) = scan_record d false false rest.

Lemma scan_comma d first s : scan_record d false false ((if first : bool then "" else ",") +:+ s) = scan_record d false false s.
Proof. by destruct first. Qed.

Lemma scan_members ms : Forall (fun m => stepped_over m.2) ms -> forall d first rest, 1 <= d ->
  scan_record d false false (print_members ms first +:+ rest) = scan_record d false false rest.
Proof.
  induction 1 as [|[k v] ms Hv _ IH]; intros d first rest Hd; [done|]. cbn [print_members].
  rewrite !string_app_assoc, scan_comma, scan_quote. rewrite (scan_quiet d ":") by done. rewrite (Hv d) by done. by apply IH.
Qed.

Lemma scan_items l : Forall stepped_over l -> forall d first rest, 1 <= d ->
  scan_record d false false (print_items l first +:+ rest) = scan_record d false false rest.
Proof.
  induction 1 as [|v l Hv _ IH]; intros d first rest Hd; [done|]. cbn [print_items].
  rewrite !string_app_assoc, scan_comma, (Hv d) by done. by apply IH.
Qed.

Lemma scan_close d s : 1 < d -> scan_record d false false ("}" +:+ s) = scan_record (d - 1) false false s /\
  scan_record d false false ("]" +:+ s) = scan_record (d - 1) false false s.
Proof.
  intros H. change ("}" +:+ s) with (String "}" s). change ("]" +:+ s) with (String "]" s). cbn [scan_record].
  change (Ascii.eqb "}" quote_mark) with false. change (Ascii.eqb "]" quote_mark) with false.
  change (one_of "{[" "}") with false. change (one_of "{[" "]") with false. change (one_of "}]" "}") with true. change (one_of "}]" "]") with true.
  cbv iota. rewrite (proj2 (Z.eqb_neq (d - 1) 0)), (proj2 (Z.ltb_ge (d - 1) 0)) by lia. done.
Qed.

Lemma scan_value j : stepped_over j.
Proof.
  induction j as [a|v|l IH|ms IH] using json_induction; intros d rest Hd.
  - apply scan_quote.
  - cbn [print]. apply scan_quiet, int_text_quiet.
  - rewrite print_array, !string_app_assoc. change ("[" +:+ ?x) with (String "[" x). cbn [scan_record].
    change (Ascii.eqb "[" quote_mark) with false. change (one_of "{[" "[") with true. cbv iota.
    rewrite scan_items by (done || lia). rewrite (proj2 (scan_close (d + 1) rest ltac:(lia))). f_equal. lia.
  - rewrite print_object, !string_app_assoc. change ("{" +:+ ?x) with (String "{" x). cbn [scan_record].
    change (Ascii.eqb "{" quote_mark) with false. change (one_of "{[" "{") with true. cbv iota.
    rewrite scan_members by (done || lia). rewrite (proj1 (scan_close (d + 1) rest ltac:(lia))). f_equal. lia.
Qed.

(** From the opening brace of an object past its closing one. *)
Lemma scan_object ms rest : scan_record 0 false false (print (JObject ms) +:+ rest) = Some rest.
Proof.
  rewrite print_object, !string_app_assoc. change ("{" +:+ ?x) with (String "{" x). cbn [scan_record].
  change (Ascii.eqb "{" quote_mark) with false. change (one_of "{[" "{") with true. cbv iota.
  rewrite scan_members; [reflexivity | | lia]. apply Forall_forall. intros m _. apply scan_value.
Qed.

(** ** The count of records *)

Definition record_json (r : AuditRecord) : json := JObject (record_members (recordToWire r)).

Lemma encodeSegment_text seg : encodeSegment seg = segmentPrefix +:+ print_items (record_json <$> seg) true +:+ "]}".
Proof.
  unfold encodeSegment, segment_members. cbn [gw_ContractVersion gw_Records]. rewrite <- list_fmap_compose.
  change ((λ r, JObject (record_members r)) ∘ recordToWire <$> seg) with (record_json <$> seg).
  rewrite print_object. cbn [print_members]. rewrite print_array. change (print (JString audit_ContractVersion)) with (quote audit_ContractVersion).
  unfold segmentPrefix. rewrite !string_app_assoc. reflexivity.
Qed.

Lemma count_records_items rs : rs <> [] -> forall fuel count, 0 <= count -> count + llen rs <= MaxSegmentEvents ->
  MaxSegmentEvents < count + Z.of_nat fuel -> count_records fuel count (print_items (record_json <$> rs) true +:+ "]}") = Ok (count + llen rs).
Proof.
  induction rs as [|r rs IH]; [done|]. intros _ [|fuel] count H0 Hc Hf; [cbn [List.length] in *; lia|].
  cbn [fmap list_fmap print_items]. rewrite !string_app_assoc. change ("" +:+ ?x) with x.
  set (more := print_items (record_json <$> rs) false +:+ "]}").
  pose proof (scan_object (record_members (recordToWire r)) more) as Hs. fold (record_json r) in Hs.
  assert (exists t, print (record_json r) +:+ more = String "{" t) as [t Ht].
  { unfold record_json. rewrite print_object. rewrite !string_app_assoc. eexists. reflexivity. }
  change (fmap record_json rs) with (record_json <$> rs). fold more. rewrite Ht in *. cbn [count_records]. change (Ascii.eqb "{" "{") with true.
  cbn [negb fail_if mbind result_bind]. cbn [List.length] in *. rewrite (proj2 (Z.ltb_ge _ _)) by lia. cbn [fail_if mbind result_bind].
  rewrite Hs. cbn [of_option mbind result_bind]. unfold more. destruct rs as [|r' rs].
  - simpl; f_equal; lia.
  - cbn [fmap list_fmap print_items]. rewrite !string_app_assoc. change ("," +:+ ?x) with (String "," x).
    change (Ascii.eqb "," ",") with true. cbv iota. specialize (IH ltac:(done) fuel (count + 1) ltac:(lia)).
    cbn [fmap list_fmap print_items List.length] in IH. rewrite !string_app_assoc in IH. change ("" +:+ ?x) with x in IH.
    cbn [List.length] in *. rewrite IH by lia. f_equal. lia.
Qed.

Lemma preflight_count seg : llen seg <= MaxSegmentEvents -> preflightSegmentCount (encodeSegment seg) = Ok (llen seg).
Proof.
  intros Hl. rewrite encodeSegment_text. unfold preflightSegmentCount. rewrite strip_prefix_app. cbn [of_option mbind result_bind].
  destruct seg as [|r seg]; [done|].
  assert (String.eqb (print_items (record_json <$> r :: seg) true +:+ "]}") "]}" = false) as ->.
  { cbn [fmap list_fmap print_items]. unfold record_json at 1. rewrite print_object, !string_app_assoc. reflexivity. }
  rewrite count_records_items; [f_equal; lia | done | lia | lia |]. rewrite Z2Nat.id; unfold MaxSegmentEvents; lia.
Qed.

(** ** The size of a segment's text *)

Definition ascii_plain (c : ascii) : bool := plain c && (byte_val c <? 128).

Lemma texts_plain s : string_forall ascii_plain s = true -> texts (pieces s) = s.
Proof.
  induction s as [|a s IH]; [done|]. cbn [string_forall]. intros [Ha Hs]%andb_true_iff. specialize (IH Hs).
  unfold ascii_plain in Ha. apply andb_true_iff in Ha as [Hp Hb].
  assert (Ascii.eqb a (byte_of 226) = false) as Hn by (apply Ascii.eqb_neq; intros ->; vm_compute in Hb; done).
  assert (pieces (String a s) = Byte a :: pieces s) as ->.
  { destruct s as [|b [|c s]]; [done|done|]. cbn [pieces]. by rewrite Hn. }
  cbn [texts piece_text]. rewrite Hp, IH. done.
Qed.

Lemma quote_plain s : string_forall ascii_plain s = true -> slen (quote s) = slen s + 2.
Proof.
  intros H. unfold quote. rewrite texts_plain by done. change (String quote_mark (s +:+ String quote_mark "")) with
    (String quote_mark "" +:+ s +:+ String quote_mark ""). rewrite !slen_app. change (slen (String quote_mark "")) with 1. lia.
Qed.

Lemma chain_digest_quoted d : dv_initialized d = true -> digest_wf d -> slen (quote (ChainDigest_String d)) = 50.
Proof.
  intros Hi Hw. unfold ChainDigest_String, formatDigest. rewrite Hi. rewrite quote_plain.
  - rewrite slen_app, b64_encode_length, Hw. done.
  - rewrite string_forall_app. apply andb_true_iff. split; [done|]. apply b64_encode_forall.
    intros [[] [] [] [] [] []]; vm_compute; done.
Qed.

Lemma record_json_size r : dv_initialized (rc_previousDigest r) = true -> digest_wf (rc_previousDigest r) ->
  dv_initialized (rc_digest r) = true -> digest_wf (rc_digest r) ->
  slen (print (record_json r)) + 1 <= slen (encodeEvent (rc_event r)) + recordFramingBytes.
Proof.
  intros I1 W1 I2 W2. unfold record_json, record_members. rewrite print_object. cbn [print_members cw_Event cw_PreviousDigest cw_Digest recordToWire].
  change (print (JString ?s)) with (quote s). change (print (JObject (event_members (eventToWire (rc_event r))))) with (encodeEvent (rc_event r)).
  rewrite !slen_app, !chain_digest_quoted by done. unfold recordFramingBytes.
  change (slen (quote "event")) with 7. change (slen (quote "previousDigest")) with 16. change (slen (quote "digest")) with 8.
  change (slen "{") with 1. change (slen "}") with 1. change (slen ":") with 1. change (slen ",") with 1. change (slen "") with 0. lia.
Qed.

Definition estimate (events : list Event) : Z := sum_list ((fun e => slen (encodeEvent e) + recordFramingBytes) <$> events).

Lemma checkedAdd_some l r v : checkedAdd l r = Some v -> v = l + r.
Proof. unfold checkedAdd. destruct (_ || _); [done|]. by intros [= <-]. Qed.

Lemma preflight_estimate stream events : forall sequence estimated, estimated <= MaxCanonicalSegmentBytes ->
  preflight_events stream sequence estimated events = Ok tt -> estimated + estimate events <= MaxCanonicalSegmentBytes.
Proof.
  induction events as [|e events IH]; intros sequence estimated H0; cbn [preflight_events].
  - unfold estimate. simpl. lia.
  - intros E. do 2 (apply bind_ok in E as (? & _ & E)). apply bind_ok in E as (t & [_ ->]%canonical_event & E).
    apply bind_ok in E as (a & Ha%of_option_ok%checkedAdd_some & E). apply bind_ok in E as (b & Hb%of_option_ok%checkedAdd_some & E).
    apply bind_ok in E as (? & G%fail_if_ok & E). apply Z.ltb_ge in G. apply IH in E; [|done].
    change (estimate (e :: events)) with (slen (encodeEvent e) + recordFramingBytes + estimate events). lia.
Qed.

(** The digests of a record are initialised and 32 bytes long. *)
Definition record_digests (r : AuditRecord) : Prop :=
  dv_initialized (rc_previousDigest r) = true /\ digest_wf (rc_previousDigest r) /\
  dv_initialized (rc_digest r) = true /\ digest_wf (rc_digest r).

Lemma chain_digests head rs h : chain head rs h -> dv_initialized (ck_digest head) = true -> digest_wf (ck_digest head) ->
  Forall record_digests rs.
Proof.
  induction 1 as [|head r rs h L C IH]; intros Hi Hw; constructor.
  - destruct L as [_ _ _ _ L5 L6]. unfold record_digests. rewrite L5, L6. do 2 (split; [done|]). split; [done|]. apply digestFromHasher_wf.
  - destruct L as [_ _ _ _ _ L6]. apply IH; simpl; rewrite L6; [done | apply digestFromHasher_wf].
Qed.

Lemma items_size rs first : Forall record_digests rs -> slen (print_items (record_json <$> rs) first) <= estimate (rc_event <$> rs).
Proof.
  intros H. revert first. induction H as [|r rs (I1 & W1 & I2 & W2) _ IH]; intros first; [done|].
  change (estimate (rc_event <$> r :: rs)) with (slen (encodeEvent (rc_event r)) + recordFramingBytes + estimate (rc_event <$> rs)).
  change (record_json <$> r :: rs) with (record_json r :: (record_json <$> rs)). cbn [print_items]. rewrite !slen_app.
  specialize (IH false). pose proof (record_json_size r I1 W1 I2 W2).
  assert (slen (if first then "" else ",") <= 1) by (by destruct first). lia.
Qed.

Lemma segment_size rs : Forall record_digests rs -> slen (encodeSegment rs) <= slen segmentPrefix + 2 + estimate (rc_event <$> rs).
Proof.
  intros H%(items_size _ true). rewrite encodeSegment_text, !slen_app. change (slen "]}") with 2. lia.
Qed.

Lemma MarshalCanonicalSegment_ok seg data : MarshalCanonicalSegment seg = Ok data <->
  validateSegmentStructure seg = Ok tt /\ slen (encodeSegment seg) <= MaxCanonicalSegmentBytes /\ data = encodeSegment seg.
Proof.
  unfold MarshalCanonicalSegment. split.
  - intros E. apply bind_ok in E as (? & _ & E). apply bind_ok in E as ([] & V & E). apply bind_ok in E as (? & G%fail_if_ok & [= <-]).
    apply Z.ltb_ge in G. done.
  - intros (V & G & ->). pose proof V as V'. unfold validateSegmentStructure in V'. apply bind_ok in V' as (? & Hl%fail_if_ok & _).
    rewrite Hl, V. apply Z.ltb_ge in G. cbn [fail_if mbind result_bind]. by rewrite G.
Qed.

Lemma VerifySegment_ok prev seg expected head :
  VerifySegment prev seg expected = (Ok tt, head) <-> verify_segment prev seg expected = Ok head.
Proof. unfold VerifySegment, keeping. destruct (verify_segment prev seg expected) as [h|e]; simpl; naive_solver. Qed.

Lemma NewSegment_ok prev events seg head : NewSegment prev events = (Ok seg, head) ->
  ValidateCheckpoint prev = Ok tt /\ llen events <= MaxSegmentEvents /\ preflightEvents prev events = Ok tt /\
  append_events prev events = Ok (seg, head).
Proof.
  unfold NewSegment, keeping. intros H.
  match type of H with match ?m with _ => _ end = _ => destruct m as [[s h]|e] eqn:E end; [|done]. injection H as -> ->.
  apply bind_ok in E as ([] & V & E). apply bind_ok in E as (? & G%fail_if_ok & E). apply bind_ok in E as ([] & P & E).
  apply Z.ltb_ge in G. done.
Qed.

(** C34: a segment that is built can be verified and exported.  When [NewSegment]
    succeeds the segment holds exactly the events, in order; [VerifySegment]
    accepts it from the same checkpoint and arrives at the head that was
    returned; and its canonical text exists, within the bound: the estimate
    made before any hashing, with its fixed framing per record, is enough for
    every event.  When it fails the checkpoint is the one that was given. *)
Theorem built_segment_verifies prev events : checkpoint_typed prev ->
  match NewSegment prev events with
  | (Ok seg, head) =>
      rc_event <$> seg = events /\ VerifySegment prev seg None = (Ok tt, head) /\
      ck_sequence head = ck_sequence prev + llen events /\
      exists data, MarshalCanonicalSegment seg = Ok data /\ slen data <= MaxCanonicalSegmentBytes
  | (Err _, head) => head = prev
  end.
Proof.
  intros T. destruct (NewSegment prev events) as [[seg|e] head] eqn:E.
  2: { revert E. unfold NewSegment, keeping. match goal with |- match ?m with _ => _ end = _ -> _ => destruct m as [[]|] end; naive_solver. }
  apply NewSegment_ok in E as (V & Hl & P & A). apply append_events_chain in A as [C <-].
  rewrite length_fmap in *. pose proof V as (Hi & Vs & Vd & _)%ValidateCheckpoint_ok.
  pose proof (structure_chain prev seg head V T Hl C) as Hs. destruct (chain_sequence _ _ _ C) as [Hq _]. split; [done|]. split.
  { apply VerifySegment_ok, verify_segment_ok; [done|]. do 3 (split; [done|]). done. }
  split; [done|]. exists (encodeSegment seg).
  assert (slen (encodeSegment seg) <= MaxCanonicalSegmentBytes) as Hb; [|by rewrite MarshalCanonicalSegment_ok].
  assert (slen segmentPrefix + 2 <= MaxCanonicalSegmentBytes) as H0 by (vm_compute; discriminate).
  pose proof (segment_size seg (chain_digests _ _ _ C Vd (proj2 T))). pose proof (preflight_estimate _ _ _ _ H0 P). lia.
Qed.

Lemma audit_genesis_typed : checkpoint_typed audit_genesis.
Proof. split; [cbn; unfold max_uint64; lia | apply digestFromHasher_wf]. Qed.

Lemma built_segment_verifies_witness :
  result_ok (fst audit_built) = true /\ VerifySegment audit_genesis audit_segment None = (Ok tt, audit_head) /\
  rc_event <$> audit_segment = [audit_event 1; audit_event 2].
Proof.
  pose proof (built_segment_verifies audit_genesis [audit_event 1; audit_event 2] audit_genesis_typed) as B.
  change (NewSegment audit_genesis [audit_event 1; audit_event 2]) with audit_built in B. unfold audit_segment, audit_head.
  destruct audit_built as [[seg|e] head] eqn:E; [|vm_compute in E; discriminate E].
  destruct B as (Be & Bv & _). split; [reflexivity|]. split; assumption.
Defined.

(** C9: a trusted head determines the history below it.  Two segments that
    verify from one checkpoint against one expected head are the same segment,
    record for record, unless two of their records at one place are a SHA-256
    collision; the head reached is the expected one.  And a segment whose tail
    was cut off never verifies against the head of the whole. *)
Theorem trusted_head_determines_segment prev expected : checkpoint_typed prev ->
  (forall s1 s2 h1 h2, records_typed s1 -> records_typed s2 ->
     VerifySegment prev s1 (Some expected) = (Ok tt, h1) -> VerifySegment prev s2 (Some expected) = (Ok tt, h2) ->
     h1 = expected /\ h2 = expected /\
     (s1 = s2 \/ exists i r1 r2, s1 !! i = Some r1 /\ s2 !! i = Some r2 /\ colliding r1 r2)) /\
  (forall kept cut h, cut <> [] -> VerifySegment prev (kept ++ cut) (Some expected) = (Ok tt, h) ->
     VerifySegment prev kept (Some expected) = (Err ErrExpectedHead, prev)).
Proof.
  intros T. split.
  - intros s1 s2 h1 h2 T1 T2 E1%VerifySegment_ok E2%VerifySegment_ok. apply verify_segment_ok in E1 as (V & _ & C1 & X1); [|done].
    apply verify_segment_ok in E2 as (_ & _ & C2 & X2); [|done].
    destruct (proj1 (Checkpoint_Equal_ok _ _) (X1 _ eq_refl)) as [_ ->]. destruct (proj1 (Checkpoint_Equal_ok _ _) (X2 _ eq_refl)) as [_ ->].
    do 2 (split; [done|]). by eapply chain_determined.
  - intros kept cut h Hc E%VerifySegment_ok. apply verify_segment_ok in E as (V & Hl & C & X); [|done].
    destruct (proj1 (Checkpoint_Equal_ok _ _) (X _ eq_refl)) as [_ ->]. apply chain_app in C as (m & C1 & C2).
    unfold VerifySegment, verify_segment. rewrite length_app in Hl. pose proof V as (Hi & Vs & Vd & _)%ValidateCheckpoint_ok.
    assert (llen kept <= MaxSegmentEvents) as Hk by lia.
    rewrite V, (proj2 (Z.ltb_ge _ _) Hk). cbn [fail_if mbind result_bind].
    rewrite (structure_chain prev kept m V T Hk C1). cbn [mbind result_bind].
    rewrite (proj2 (verify_records_ok kept prev m Vs Vd) C1). cbn [mbind result_bind].
    assert (Checkpoint_Equal m expected = false) as ->; [|by rewrite orb_true_r].
    apply not_true_iff_false. intros [_ ->]%Checkpoint_Equal_ok. apply chain_sequence in C2 as [C2 _].
    destruct cut; [done|]. cbn [List.length] in C2. lia.
Qed.

Lemma records_typed_events rs : Forall event_typed (rc_event <$> rs) -> records_typed rs.
Proof. intros F. apply (proj1 (Forall_fmap _ _ _)) in F. exact F. Qed.

Lemma audit_segment_typed : records_typed audit_segment.
Proof.
  assert (rc_event <$> audit_segment = [audit_event 1; audit_event 2]) as E by (vm_compute; reflexivity).
  apply records_typed_events. rewrite E.
  repeat constructor; cbn; unfold max_uint64; try lia; discriminate.
Qed.

Lemma audit_segment_verifies : VerifySegment audit_genesis audit_segment (Some audit_head) = (Ok tt, audit_head).
Proof. vm_compute. reflexivity. Qed.

(** Cutting the last record of the sample is observed. *)
Lemma trusted_head_determines_segment_witness :
  VerifySegment audit_genesis audit_segment (Some audit_head) = (Ok tt, audit_head) /\
  VerifySegment audit_genesis (take 1 audit_segment) (Some audit_head) = (Err ErrExpectedHead, audit_genesis).
Proof.
  split; [exact audit_segment_verifies|].
  apply (proj2 (trusted_head_determines_segment audit_genesis audit_head audit_genesis_typed) (take 1 audit_segment) (drop 1 audit_segment) audit_head).
  - intros E. vm_compute in E. discriminate E.
  - rewrite take_drop. exact audit_segment_verifies.
Defined.

(** ** Reading a segment *)

Lemma decode_record_members w : wire_typed (cw_Event w) -> decode_record (record_members w) = Some w.
Proof.
  destruct w as [e p d]. cbn [cw_Event]. intros T. unfold decode_record, record_members. cbn [cw_Event cw_PreviousDigest cw_Digest].
  known_shape. read_members. by rewrite decode_event_members.
Qed.

Lemma decode_all_members ws : Forall (fun w => wire_typed (cw_Event w)) ws ->
  decode_all decode_record ((fun r => JObject (record_members r)) <$> ws) = Some ws.
Proof.
  induction 1 as [|w ws T _ IH]; [done|]. cbn [fmap list_fmap decode_all]. rewrite decode_record_members by done. cbn [mbind option_bind].
  change (list_fmap _ _ ?f ws) with (f <$> ws). by rewrite IH.
Qed.

Lemma decode_segment_members w : Forall (fun r => wire_typed (cw_Event r)) (gw_Records w) -> decode_segment (segment_members w) = Some w.
Proof.
  destruct w as [v rs]. cbn [gw_Records]. intros T. unfold decode_segment, segment_members. cbn [gw_ContractVersion gw_Records].
  known_shape. unfold get_array. read_members. by rewrite decode_all_members.
Qed.

Lemma record_sized w : wire_typed (cw_Event w) -> ints_sized (JObject (record_members w)).
Proof. intros T. split; [by apply event_sized|]. done. Qed.

Lemma segment_sized w : Forall (fun r => wire_typed (cw_Event r)) (gw_Records w) -> ints_sized (JObject (segment_members w)).
Proof.
  intros T. split; [done|]. split; [|done]. induction T as [|r rs T _ IH]; [done|]. split; [by apply record_sized | done].
Qed.

Lemma segment_wire_typed seg : records_typed seg -> Forall (fun r => wire_typed (cw_Event r)) (recordToWire <$> seg).
Proof. intros H. apply Forall_fmap. eapply Forall_impl; [exact H|]. intros r T. by apply event_wire_typed. Qed.

Lemma segment_parse seg : records_typed seg ->
  unmarshal decode_segment (encodeSegment seg) = Some (SgW audit_ContractVersion (recordToWire <$> seg)).
Proof.
  intros T%segment_wire_typed. unfold unmarshal, encodeSegment. rewrite parse_print by (by apply segment_sized).
  by apply decode_segment_members.
Qed.

Lemma ParseChainDigest_ok s d : ParseChainDigest s = Ok d <-> dv_initialized d = true /\ digest_wf d /\ s = ChainDigest_String d.
Proof. unfold ParseChainDigest, audit_parseDigest. by rewrite map_err_ok, parseDigest_iff. Qed.

Lemma recordFromWire_record r : ValidateEvent (rc_event r) = Ok tt -> record_digests r -> recordFromWire (recordToWire r) = Ok r.
Proof.
  intros V (I1 & W1 & I2 & W2). unfold recordFromWire, recordToWire. cbn [cw_Event cw_PreviousDigest cw_Digest].
  pose proof V as (F & _)%ValidateEvent_ok%MarshalCanonicalEvent_ok. rewrite event_wire, V by (by apply event_valid).
  cbn [mbind result_bind]. rewrite (proj2 (ParseChainDigest_ok _ (rc_previousDigest r)) (conj I1 (conj W1 eq_refl))). cbn [mbind result_bind].
  rewrite (proj2 (ParseChainDigest_ok _ (rc_digest r)) (conj I2 (conj W2 eq_refl))). cbn [mbind result_bind]. by destruct r.
Qed.

Lemma recordsFromWire_records rs : Forall (fun r => ValidateEvent (rc_event r) = Ok tt) rs -> Forall record_digests rs ->
  recordsFromWire (recordToWire <$> rs) = Ok rs.
Proof.
  intros V. induction V as [|r rs V _ IH]; [done|]. inversion 1 as [|? ? D Ds]; subst. cbn [fmap list_fmap recordsFromWire].
  rewrite recordFromWire_record by done. cbn [mbind result_bind]. change (list_fmap _ _ ?f rs) with (f <$> rs). by rewrite IH.
Qed.

(** What a valid structure says of its records. *)
Lemma validate_records_valid rs : forall p, validate_records p rs = Ok tt ->
  Forall (fun r => ValidateEvent (rc_event r) = Ok tt) rs.
Proof.
  induction rs as [|r rs IH]; intros p E; [constructor|]. cbn [validate_records] in E.
  apply bind_ok in E as ([] & V & E). apply bind_ok in E as (? & _ & E). constructor; [|by eapply IH].
  unfold validateRecord in V. apply bind_ok in V as (? & G%fail_if_ok & _). guards_in G.
  match goal with H : result_ok _ = true |- _ => apply result_ok_true in H as ([] & H) end. done.
Qed.

Lemma structure_valid seg : validateSegmentStructure seg = Ok tt ->
  llen seg <= MaxSegmentEvents /\ Forall (fun r => ValidateEvent (rc_event r) = Ok tt) seg.
Proof.
  unfold validateSegmentStructure. intros E. apply bind_ok in E as (? & G%fail_if_ok & E). apply Z.ltb_ge in G.
  split; [done|]. by eapply validate_records_valid.
Qed.

Lemma decode_all_forall {A} (decode : list (string * json) -> option A) l xs :
  decode_all decode l = Some xs -> Forall (fun x => exists ms, decode ms = Some x) xs.
Proof.
  revert xs. induction l as [|j l IH]; intros xs; cbn [decode_all]; [intros [= <-]; constructor|].
  destruct j; try done. intros E. apply bind_Some in E as (x & D & E). apply bind_Some in E as (ys & Ds & [= <-]).
  constructor; [by eexists | by apply IH].
Qed.

Lemma decode_record_typed ms w : decode_record ms = Some w -> wire_typed (cw_Event w).
Proof.
  unfold decode_record. destruct (known_members _ _); [|done]. intros E. apply bind_Some in E as (e & D & E).
  decode_inv E. injection E as <-. apply bind_Some in D as (inner & _ & D). by eapply decode_event_typed.
Qed.

Lemma decode_segment_typed ms w : decode_segment ms = Some w -> Forall (fun r => wire_typed (cw_Event r)) (gw_Records w).
Proof.
  unfold decode_segment. destruct (known_members _ _); [|done]. intros E. apply bind_Some in E as (v & _ & E).
  apply bind_Some in E as (rs & D & E). injection E as <-. apply bind_Some in D as (l & _ & D). apply decode_all_forall in D.
  eapply Forall_impl; [exact D|]. intros x (inner & Hx). by eapply decode_record_typed.
Qed.

Lemma recordsFromWire_typed ws rs : Forall (fun r => wire_typed (cw_Event r)) ws -> recordsFromWire ws = Ok rs ->
  records_typed rs /\ Forall record_digests rs.
Proof.
  intros T. revert rs. induction T as [|w ws T _ IH]; intros rs; cbn [recordsFromWire].
  - intros [= <-]. split; constructor.
  - intros E. apply bind_ok in E as (r & R & E). apply bind_ok in E as (rs' & Rs & [= <-]). apply IH in Rs as [H1 H2].
    unfold recordFromWire in R. apply bind_ok in R as (e & He & R). apply bind_ok in R as (p & (I1 & W1 & _)%ParseChainDigest_ok & R).
    apply bind_ok in R as (d & (I2 & W2 & _)%ParseChainDigest_ok & [= <-]). split; (constructor; [|done]).
    + by eapply eventFromWire_typed.
    + done.
Qed.

Lemma unmarshal_segment_steps data seg :
  MarshalCanonicalSegment seg = Ok data -> records_typed seg -> Forall record_digests seg -> UnmarshalCanonicalSegment data = Ok seg.
Proof.
  intros M T D. pose proof M as (V & L & Ed)%MarshalCanonicalSegment_ok. pose proof (structure_valid seg V) as [Hl Hv].
  pose proof (preflight_count seg Hl) as Hc. pose proof (segment_parse seg T) as Hp. rewrite <- Ed in Hc, Hp, L.
  assert (String.eqb data "" = false) as Hn by (rewrite Ed, encodeSegment_text; reflexivity). clear Ed.
  unfold UnmarshalCanonicalSegment. rewrite Hn, (proj2 (Z.ltb_ge _ _) L), Hc. cbn [fail_if mbind result_bind].
  rewrite (proj2 (Z.ltb_ge _ _) Hl), Hp. cbn [fail_if of_option mbind result_bind gw_ContractVersion gw_Records].
  rewrite String.eqb_refl, length_fmap, Z.eqb_refl. cbn [negb orb fail_if mbind result_bind].
  rewrite (recordsFromWire_records seg Hv D). cbn [mbind result_bind]. rewrite V. cbn [mbind result_bind]. rewrite M. cbn [mbind result_bind].
  by rewrite String.eqb_refl.
Qed.

Lemma segment_text_read data seg :
  UnmarshalCanonicalSegment data = Ok seg <->
  MarshalCanonicalSegment seg = Ok data /\ records_typed seg /\ Forall record_digests seg.
Proof.
  split; [|intros (M & T & D); by apply unmarshal_segment_steps].
  unfold UnmarshalCanonicalSegment. intros E. do 2 (apply bind_ok in E as (? & _ & E)). apply bind_ok in E as (n & _ & E).
  apply bind_ok in E as (? & _ & E). apply bind_ok in E as (w & Hw%of_option_ok & E). apply bind_ok in E as (? & _ & E).
  apply bind_ok in E as (rs & R & E). apply bind_ok in E as ([] & _ & E). apply bind_ok in E as (c & M & E).
  apply bind_ok in E as (? & G%fail_if_ok & [= ->]). autorewrite with guards in G. subst c. split; [done|].
  unfold unmarshal in Hw. destruct (parse data) as [[]|]; try done. apply decode_segment_typed in Hw. by eapply recordsFromWire_typed.
Qed.

(** C31: the canonical text of a segment and the segment determine each other.  A
    text is read as a segment exactly when it is the text that segment is
    written as: the count made by the byte scanner before anything is decoded
    is the number of records, every record is read back with its event and its
    two digests, and no other text is accepted. *)
Theorem segment_text_roundtrip data seg :
  UnmarshalCanonicalSegment data = Ok seg <->
  MarshalCanonicalSegment seg = Ok data /\ records_typed seg /\ Forall record_digests seg.
Proof. apply segment_text_read. Qed.

Lemma segment_text_roundtrip_witness :
  match MarshalCanonicalSegment audit_segment with
  | Ok data => UnmarshalCanonicalSegment data = Ok audit_segment
  | Err _ => False
  end.
Proof.
  destruct (MarshalCanonicalSegment audit_segment) as [data|] eqn:E; [|vm_compute in E; discriminate E].
  apply segment_text_roundtrip. split; [exact E|]. split; [exact audit_segment_typed|].
  assert (Forall record_digests audit_segment) as D; [|exact D].
  pose proof audit_segment_verifies as V. apply VerifySegment_ok in V.
  apply verify_segment_ok in V as (_ & _ & C & _); [|exact audit_genesis_typed].
  apply (chain_digests _ _ _ C); [reflexivity | apply audit_genesis_typed].
Defined.
