(* ===== verification/AuditExport.v ===== *)
(** * Signed exports and retention (audit/export.go, retention.go)

    A descriptor names one exact segment body and both ends of its chain; a
    manifest binds an external signature to it; an export verifies when body,
    range, chain, trusted head and signature agree.  Retention is a pure
    decision on the age of an event and the holds on it. *)

From S2P Require Import Prelude Bytes Sha256 GoTime Calendar Closed Json JsonParse Condition Digests Hierarchy Identity.
From S2P Require Import AuthzVocabulary Authorization Receipt Control Operation JsonMembers Administration AuditVocabulary AuditEvent AuditChain.
From Stdlib Require Import Ascii String.

Definition exportBodyDomain : string := "veer.audit.export.body.v1".

Definition deriveExportBodyDigest (body : string) : ExportBodyDigest :=
  digestFromHasher [exportBodyDomain; audit_ContractVersion; body].

(** ** Descriptors *)

Record ExportDescriptor := Exd {
  xd_initialized : bool;
  xd_stream : Stream;
  xd_sequenceRange : Z * Z;
  xd_eventCount : Z;
  xd_previousDigest : ChainDigest;
  xd_terminalDigest : ChainDigest;
  xd_bodyDigest : ExportBodyDigest;
  xd_generatedAt : string;
  xd_clockState : ClockState;
  xd_algorithm : SignatureAlgorithm;
  xd_keyID : string;
}.

Definition validateKeyID (value : string) : bool :=
  negb (String.eqb value "" || (MaxKeyIDBytes <? slen value) || negb (utf8_valid value) || negb (trimmed value)) &&
  forallb (fun r => negb ((r <? 33) || (126 <? r))) (runes value).

Definition PreviousCheckpoint (d : ExportDescriptor) : result error Checkpoint :=
  NewCheckpoint (xd_stream d) (uint64_pred (xd_sequenceRange d).1) (xd_previousDigest d).

Definition TerminalCheckpoint (d : ExportDescriptor) : result error Checkpoint :=
  NewCheckpoint (xd_stream d) (xd_sequenceRange d).2 (xd_terminalDigest d).

Definition ValidateExportDescriptor (d : ExportDescriptor) : result error unit :=
  let '(first, last) := xd_sequenceRange d in
  fail_if (negb (xd_initialized d) || negb (ValidateStream (xd_stream d)) || negb (dv_initialized (xd_previousDigest d))
           || negb (dv_initialized (xd_terminalDigest d)) || negb (dv_initialized (xd_bodyDigest d))) ErrInvalidExport;;
  fail_if ((first =? 0) || (last <? first)) ErrInvalidExport;;
  let wantCount := (last - first + 1) mod 2 ^ 64 in
  fail_if ((wantCount =? 0) || (MaxSegmentEvents <? wantCount) || negb (xd_eventCount d =? wantCount)) ErrInvalidExport;;
  previous ← map_err (fun _ => ErrInvalidExport) (PreviousCheckpoint d);
  terminal ← map_err (fun _ => ErrInvalidExport) (TerminalCheckpoint d);
  fail_if (ck_sequence terminal <=? ck_sequence previous) ErrInvalidExport;;
  fail_if (negb (is_some (audit_parseTimestamp (xd_generatedAt d)))) ErrInvalidExport;;
  fail_if (negb (ClockState_known (xd_clockState d))) ErrInvalidExport;;
  fail_if (negb (SignatureAlgorithm_known (xd_algorithm d)) || negb (validateKeyID (xd_keyID d))) ErrInvalidExport.

Definition DescribeExport (previous : Checkpoint) (segment : Segment) (generatedAt : time) (clockState : ClockState)
    (algorithm : SignatureAlgorithm) (keyID : string) : result error ExportDescriptor :=
  fail_if (llen segment =? 0) ErrInvalidExport;;
  terminal ← (let '(r, head) := VerifySegment previous segment None in map_err (fun _ => ErrInvalidExport) (r;; Ok head));
  body ← MarshalCanonicalSegment segment;
  recorded ← of_option (audit_normalizeTimestamp generatedAt) ErrInvalidExport;
  sequenceRange ← of_option (Segment_Range segment) ErrInvalidExport;
  let d := Exd true (ck_stream previous) sequenceRange (llen segment mod 2 ^ 32) (ck_digest previous) (ck_digest terminal)
             (deriveExportBodyDigest body) recorded clockState algorithm keyID in
  ValidateExportDescriptor d;;
  Ok d.

(** ** The text of a descriptor *)

Record exportDescriptorWire := XdW {
  xw_ContractVersion : string;
  xw_Stream : streamWire;
  xw_Range : Z * Z;
  xw_EventCount : Z;
  xw_PreviousDigest : string;
  xw_TerminalDigest : string;
  xw_BodyDigest : string;
  xw_GeneratedAt : string;
  xw_ClockState : string;
  xw_SignatureAlgorithm : string;
  xw_KeyID : string;
}.

Definition exportDescriptorToWire (d : ExportDescriptor) : exportDescriptorWire :=
  XdW audit_ContractVersion (streamToWire (xd_stream d)) (xd_sequenceRange d) (xd_eventCount d)
      (ChainDigest_String (xd_previousDigest d)) (ChainDigest_String (xd_terminalDigest d)) (ExportBodyDigest_String (xd_bodyDigest d))
      (xd_generatedAt d) (ClockState_String (xd_clockState d)) (SignatureAlgorithm_String (xd_algorithm d)) (xd_keyID d).

Definition range_members (r : Z * Z) : list (string * json) := [("first", JInt r.1); ("last", JInt r.2)].

Definition descriptor_members (w : exportDescriptorWire) : list (string * json) :=
  [("contractVersion", JString (xw_ContractVersion w)); ("stream", JObject (stream_members (xw_Stream w)));
   ("range", JObject (range_members (xw_Range w))); ("eventCount", JInt (xw_EventCount w));
   ("previousDigest", JString (xw_PreviousDigest w)); ("terminalDigest", JString (xw_TerminalDigest w));
   ("bodyDigest", JString (xw_BodyDigest w)); ("generatedAt", JString (xw_GeneratedAt w)); ("clockState", JString (xw_ClockState w));
   ("signatureAlgorithm", JString (xw_SignatureAlgorithm w)); ("keyId", JString (xw_KeyID w))].

Definition encodeExportDescriptor (d : ExportDescriptor) : string := print (JObject (descriptor_members (exportDescriptorToWire d))).

Definition MarshalCanonicalExportDescriptor (d : ExportDescriptor) : result error string :=
  ValidateExportDescriptor d;;
  fail_if (MaxCanonicalManifestBytes <? slen (encodeExportDescriptor d)) ErrCanonicalTooLarge;;
  Ok (encodeExportDescriptor d).

Definition decode_range (ms : list (string * json)) : option (Z * Z) :=
  if known_members ["first"; "last"] ms then
    first ← get_int 0 max_uint64 "first" ms; last ← get_int 0 max_uint64 "last" ms; Some (first, last)
  else None.

Definition descriptor_keys : list string :=
  ["contractVersion"; "stream"; "range"; "eventCount"; "previousDigest"; "terminalDigest"; "bodyDigest"; "generatedAt"; "clockState";
   "signatureAlgorithm"; "keyId"].

(** The fields of a descriptor, which a manifest embeds. *)
Definition descriptor_fields (ms : list (string * json)) : option exportDescriptorWire :=
  version ← get_string "contractVersion" ms; stream ← get_object "stream" ms ≫= decode_stream;
  range ← get_object "range" ms ≫= decode_range; count ← get_int 0 max_uint32 "eventCount" ms;
  previous ← get_string "previousDigest" ms; terminal ← get_string "terminalDigest" ms; body ← get_string "bodyDigest" ms;
  generated ← get_string "generatedAt" ms; clock ← get_string "clockState" ms; algorithm ← get_string "signatureAlgorithm" ms;
  key ← get_string "keyId" ms;
  Some (XdW version stream range count previous terminal body generated clock algorithm key).

Definition decode_descriptor (ms : list (string * json)) : option exportDescriptorWire :=
  if known_members descriptor_keys ms then descriptor_fields ms else None.

Definition exportDescriptorFromWire (w : exportDescriptorWire) : result error ExportDescriptor :=
  fail_if (negb (String.eqb (xw_ContractVersion w) audit_ContractVersion)) ErrInvalidExport;;
  stream ← map_err (fun _ => ErrInvalidExport) (streamFromWire (xw_Stream w));
  previous ← map_err (fun _ => ErrInvalidExport) (ParseChainDigest (xw_PreviousDigest w));
  terminal ← map_err (fun _ => ErrInvalidExport) (ParseChainDigest (xw_TerminalDigest w));
  body ← map_err (fun _ => ErrInvalidExport) (ParseExportBodyDigest (xw_BodyDigest w));
  let d := Exd true stream (xw_Range w) (xw_EventCount w) previous terminal body (xw_GeneratedAt w)
             (closed_of ClockStateOther (xw_ClockState w)) (closed_of SignatureAlgorithmOther (xw_SignatureAlgorithm w)) (xw_KeyID w) in
  ValidateExportDescriptor d;;
  Ok d.

Definition UnmarshalCanonicalExportDescriptor (data : string) : result error ExportDescriptor :=
  fail_if (String.eqb data "") ErrNonCanonical;;
  fail_if (MaxCanonicalManifestBytes <? slen data) ErrCanonicalTooLarge;;
  wire ← of_option (unmarshal decode_descriptor data) ErrNonCanonical;
  descriptor ← exportDescriptorFromWire wire;
  canonical ← MarshalCanonicalExportDescriptor descriptor;
  fail_if (negb (String.eqb data canonical)) ErrNonCanonical;;
  Ok descriptor.

(** ** Manifests *)

Record ExportManifest := Exm { xm_descriptor : ExportDescriptor; xm_signature : string }.

Definition BindExportSignature (d : ExportDescriptor) (signature : string) : result error ExportManifest :=
  ValidateExportDescriptor d;;
  fail_if (slen signature =? 0) ErrSignatureRequired;;
  fail_if (MaxSignatureBytes <? slen signature) ErrInvalidExport;;
  Ok (Exm d signature).

Definition ValidateExportManifest (m : ExportManifest) : result error unit :=
  map_err (fun _ => ErrInvalidExport) (ValidateExportDescriptor (xm_descriptor m));;
  fail_if (slen (xm_signature m) =? 0) ErrSignatureRequired;;
  fail_if (MaxSignatureBytes <? slen (xm_signature m)) ErrInvalidExport.

(** The embedded descriptor, then the signature. *)
Definition encodeExportManifest (m : ExportManifest) : string :=
  print (JObject (descriptor_members (exportDescriptorToWire (xm_descriptor m)) ++ [("signature", JString (b64_encode (xm_signature m)))])).

Definition MarshalCanonicalExportManifest (m : ExportManifest) : result error string :=
  ValidateExportManifest m;;
  fail_if (MaxCanonicalManifestBytes <? slen (encodeExportManifest m)) ErrCanonicalTooLarge;;
  Ok (encodeExportManifest m).

Definition decode_manifest (ms : list (string * json)) : option (exportDescriptorWire * string) :=
  if known_members (descriptor_keys ++ ["signature"]) ms then
    descriptor ← descriptor_fields ms; signature ← get_string "signature" ms; Some (descriptor, signature)
  else None.

Definition UnmarshalCanonicalExportManifest (data : string) : result error ExportManifest :=
  fail_if (String.eqb data "") ErrNonCanonical;;
  fail_if (MaxCanonicalManifestBytes <? slen data) ErrCanonicalTooLarge;;
  '(wire, encoded) ← of_option (unmarshal decode_manifest data) ErrNonCanonical;
  descriptor ← exportDescriptorFromWire wire;
  signature ← of_option (b64_decode encoded) ErrNonCanonical;
  fail_if (negb (String.eqb (b64_encode signature) encoded)) ErrNonCanonical;;
  manifest ← BindExportSignature descriptor signature;
  canonical ← MarshalCanonicalExportManifest manifest;
  fail_if (negb (String.eqb data canonical)) ErrNonCanonical;;
  Ok manifest.

(** ** Verification

    The verifier of the caller's key boundary is a parameter: whether it accepts
    an algorithm, a key, a message and a signature; [None] is a nil one. *)

Definition SignatureVerifier : Type := SignatureAlgorithm -> string -> string -> string -> bool.

Definition VerifyExport (m : ExportManifest) (canonicalBody : string) (expectedTerminal : Checkpoint)
    (verifier : option SignatureVerifier) : result error unit :=
  ValidateExportManifest m;;
  let d := xm_descriptor m in
  verify ← of_option verifier ErrSignatureVerification;
  fail_if (negb (result_ok (ValidateCheckpoint expectedTerminal))) ErrExpectedHead;;
  terminal ← map_err (fun _ => ErrExpectedHead) (TerminalCheckpoint d);
  fail_if (negb (Checkpoint_Equal terminal expectedTerminal)) ErrExpectedHead;;
  fail_if ((slen canonicalBody =? 0) || (MaxCanonicalSegmentBytes <? slen canonicalBody)) ErrInvalidExport;;
  fail_if (negb (equalDigest (deriveExportBodyDigest canonicalBody) (xd_bodyDigest d))) ErrBodyDigestMismatch;;
  segment ← map_err (fun _ => ErrInvalidExport) (UnmarshalCanonicalSegment canonicalBody);
  fail_if (negb (bool_decide (Segment_Range segment = Some (xd_sequenceRange d))) || negb (llen segment =? xd_eventCount d)) ErrInvalidExport;;
  previous ← map_err (fun _ => ErrInvalidExport) (PreviousCheckpoint d);
  map_err (fun _ => ErrInvalidExport) (fst (VerifySegment previous segment (Some expectedTerminal)));;
  message ← MarshalCanonicalExportDescriptor d;
  fail_if (negb (verify (xd_algorithm d) (xd_keyID d) message (xm_signature m))) ErrSignatureVerification.

(** ** Retention *)

Record Hold := Hld { hl_initialized : bool; hl_id : ID; hl_kind : HoldKind }.

(** [ValidateHold]; its error is [ErrInvalidHold]. *)
Definition ValidateHold (h : Hold) : bool := hl_initialized h && validID (hl_id h) && HoldKind_known (hl_kind h).

Definition NewHold (id : ID) (kind : HoldKind) : result error Hold :=
  let h := Hld true id kind in if ValidateHold h then Ok h else Err ErrInvalidHold.

Record RetentionInput := RtI {
  ri_RecordedAt : time;
  ri_EvaluatedAt : time;
  ri_PreviousEvaluatedAt : time;
  ri_ClockState : ClockState;
  ri_Holds : list Hold;
}.

Record RetentionDecision := RtD {
  rd_initialized : bool;
  rd_disposition : RetentionDisposition;
  rd_onlineUntil : time;
  rd_archiveUntil : time;
}.

Definition EligibleForDeletion (d : RetentionDecision) : bool :=
  rd_initialized d && bool_decide (rd_disposition d = RetentionDispositionExpire).

Notation invalid_retention := (ErrWrap ErrInvalidRetention).

Definition normalizeRetentionTime (value : time) : result error time :=
  encoded ← of_option (audit_normalizeTimestamp value) (invalid_retention ErrInvalidClockState);
  Ok (default zero_time (audit_parseTimestamp encoded)).

Fixpoint check_holds (seen : list ID) (holds : list Hold) : result error unit :=
  match holds with
  | [] => Ok tt
  | hold :: rest =>
      fail_if (negb (ValidateHold hold)) (invalid_retention ErrInvalidHold);;
      fail_if (bool_decide (hl_id hold ∈ seen)) ErrInvalidRetention;;
      check_holds (hl_id hold :: seen) rest
  end.

Definition EvaluateRetention (i : RetentionInput) : result error RetentionDecision :=
  fail_if (MaxHolds <? llen (ri_Holds i)) (invalid_retention ErrTooManyHolds);;
  fail_if (bool_decide (ri_ClockState i = ClockStateRegressed)) (invalid_retention ErrClockRegressed);;
  fail_if (negb (bool_decide (ri_ClockState i = ClockStateSynchronized))) (invalid_retention ErrInvalidClockState);;
  fail_if (is_zero (ri_RecordedAt i) || is_zero (ri_EvaluatedAt i) || is_zero (ri_PreviousEvaluatedAt i))
    (invalid_retention ErrInvalidClockState);;
  fail_if (before (ri_EvaluatedAt i) (ri_PreviousEvaluatedAt i)) (invalid_retention ErrClockRegressed);;
  recordedAt ← normalizeRetentionTime (ri_RecordedAt i);
  evaluatedAt ← normalizeRetentionTime (ri_EvaluatedAt i);
  previousEvaluatedAt ← normalizeRetentionTime (ri_PreviousEvaluatedAt i);
  fail_if (before evaluatedAt previousEvaluatedAt) (invalid_retention ErrClockRegressed);;
  fail_if (before evaluatedAt recordedAt) ErrInvalidRetention;;
  let onlineUntil := recordedAt + OnlineRetention in
  let archiveUntil := recordedAt + ArchiveRetention in
  fail_if (negb (is_some (audit_normalizeTimestamp onlineUntil))) ErrInvalidRetention;;
  fail_if (negb (is_some (audit_normalizeTimestamp archiveUntil))) ErrInvalidRetention;;
  check_holds [] (ri_Holds i);;
  let disposition :=
    if 0 <? llen (ri_Holds i) then RetentionDispositionHeld
    else if before evaluatedAt onlineUntil then RetentionDispositionOnline
    else if before evaluatedAt archiveUntil then RetentionDispositionArchive
    else RetentionDispositionExpire in
  Ok (RtD true disposition onlineUntil archiveUntil).
