(* ===== verification/AuditExportProps.v ===== *)
(** * Properties of signed exports and of retention

    Retention is decided by age and holds alone, and deletion fails closed;
    descriptors and manifests and their texts determine each other; and an
    export verifies exactly when body, range, chain, head and signature agree. *)

From S2P Require Import Prelude Bytes Sha256 GoTime Calendar Closed Json JsonParse Condition Digests Hierarchy Identity.
From S2P Require Import AuthzVocabulary Authorization Receipt Control Operation JsonMembers Administration AuditVocabulary AuditEvent AuditChain AuditEventProps AuditChainProps AuditSegmentProps AuditExport.
From Stdlib Require Import Ascii String.

(** ** Timestamps *)

(** The instants the audit contract can record. *)
Definition recordable (t : time) : Prop := t <> 0 /\ 1 <= Year (truncate_ms t) <= 9999.

Lemma year_supported t : year_unsupported t = false <-> 1 <= Year t <= 9999.
Proof. unfold year_unsupported. rewrite orb_false_iff, !Z.ltb_ge. done. Qed.

Lemma audit_normalize_ok t s : audit_normalizeTimestamp t = Some s <-> recordable t /\ s = format_timestamp (truncate_ms t).
Proof.
  unfold audit_normalizeTimestamp, recordable, is_zero. destruct (Z.eqb_spec t 0) as [->|Hz]; [naive_solver|].
  destruct (year_unsupported (truncate_ms t)) eqn:E.
  - split; [done|]. intros [[_ Hy] _]. apply year_supported in Hy. congruence.
  - apply year_supported in E. naive_solver.
Qed.

Lemma audit_parse_format t : 1 <= Year t <= 9999 -> t mod millisecond = 0 -> audit_parseTimestamp (format_timestamp t) = Some t.
Proof.
  intros Hy Hm. unfold audit_parseTimestamp. rewrite (proj2 (parseTimestamp_ok _ t)) by (split; [split; [lia|done]|done]).
  cbn [mbind option_bind]. by rewrite (proj2 (year_supported t) Hy).
Qed.

Lemma normalizeRetentionTime_ok t u : normalizeRetentionTime t = Ok u <-> recordable t /\ u = truncate_ms t.
Proof.
  unfold normalizeRetentionTime. rewrite bind_ok. split.
  - intros (s & [R ->]%of_option_ok%audit_normalize_ok & [= <-]). split; [done|]. by rewrite audit_parse_format by (apply R || apply truncate_ms_mod).
  - intros [R ->]. exists (format_timestamp (truncate_ms t)). split; [by apply of_option_ok, audit_normalize_ok|].
    by rewrite audit_parse_format by (apply R || apply truncate_ms_mod).
Qed.

(** ** Retention *)

Lemma check_holds_ok holds : forall seen, check_holds seen holds = Ok tt <->
  Forall (fun h => ValidateHold h = true) holds /\ NoDup (hl_id <$> holds) /\ Forall (fun h => hl_id h ∉ seen) holds.
Proof.
  induction holds as [|h holds IH]; intros seen; cbn [check_holds].
  - split; [|done]. intros _. split; [constructor|]. split; constructor.
  - split.
    + intros E. apply bind_ok in E as (? & G1%fail_if_ok & E). apply bind_ok in E as (? & G2%fail_if_ok & E).
      apply negb_false in G1. apply bool_decide_eq_false in G2. apply IH in E as (V & N & F). split; [by constructor|]. split.
      * cbn [fmap list_fmap]. constructor; [|done]. intros (y & Hx & Hin)%list_elem_of_fmap. rewrite Forall_forall in F.
        apply (F _ Hin). rewrite Hx. left.
      * constructor; [done|]. eapply Forall_impl; [exact F|]. intros y Hy Hin. apply Hy. by right.
    + intros (V & N & F). inversion V; subst. inversion F; subst. cbn [fmap list_fmap] in N. apply NoDup_cons in N as [Nh N].
      apply bind_ok. exists tt. split; [by apply fail_if_ok, negb_false|]. apply bind_ok. exists tt.
      split; [by apply fail_if_ok, bool_decide_eq_false|]. apply IH. split; [done|]. split; [done|].
      apply Forall_forall. intros y Hy [Heq|Hin]%elem_of_cons.
      * apply Nh. rewrite <- Heq. by apply list_elem_of_fmap_2.
      * match goal with H : Forall (fun h => hl_id h ∉ seen) holds |- _ => rewrite Forall_forall in H; by eapply H end.
Qed.

(** The evidence a retention decision needs. *)
Record retention_evidence (i : RetentionInput) : Prop := {
  rv_clock : ri_ClockState i = ClockStateSynchronized;
  rv_recorded : recordable (ri_RecordedAt i);
  rv_evaluated : recordable (ri_EvaluatedAt i);
  rv_previous : recordable (ri_PreviousEvaluatedAt i);
  rv_forward : ri_PreviousEvaluatedAt i <= ri_EvaluatedAt i;
  rv_past : truncate_ms (ri_RecordedAt i) <= truncate_ms (ri_EvaluatedAt i);
  rv_online : recordable (truncate_ms (ri_RecordedAt i) + OnlineRetention);
  rv_archive : recordable (truncate_ms (ri_RecordedAt i) + ArchiveRetention);
  rv_count : llen (ri_Holds i) <= MaxHolds;
  rv_holds : Forall (fun h => ValidateHold h = true) (ri_Holds i);
  rv_distinct : NoDup (hl_id <$> ri_Holds i);
}.

(** Where an event of an age belongs. *)
Definition disposition_of (age : Z) (holds : list Hold) : RetentionDisposition :=
  match holds with
  | _ :: _ => RetentionDispositionHeld
  | [] => if age <? OnlineRetention then RetentionDispositionOnline
          else if age <? ArchiveRetention then RetentionDispositionArchive else RetentionDispositionExpire
  end.

Definition age (i : RetentionInput) : Z := truncate_ms (ri_EvaluatedAt i) - truncate_ms (ri_RecordedAt i).

Lemma truncate_mono t u : t <= u -> truncate_ms t <= truncate_ms u.
Proof.
  intros H. unfold truncate_ms, millisecond. pose proof (Z.div_mod t 1000000). pose proof (Z.div_mod u 1000000).
  pose proof (Z.div_le_mono t u 1000000). lia.
Qed.

Lemma retention_ok i d : EvaluateRetention i = Ok d <->
  retention_evidence i /\
  d = RtD true (disposition_of (age i) (ri_Holds i)) (truncate_ms (ri_RecordedAt i) + OnlineRetention)
        (truncate_ms (ri_RecordedAt i) + ArchiveRetention).
Proof.
  unfold EvaluateRetention, before, is_zero. split.
  - intros E. apply bind_ok in E as (? & G1%fail_if_ok & E). apply bind_ok in E as (? & _ & E). apply bind_ok in E as (? & G2%fail_if_ok & E).
    apply bind_ok in E as (? & _ & E). apply bind_ok in E as (? & G3%fail_if_ok & E).
    apply bind_ok in E as (r & [R1 ->]%normalizeRetentionTime_ok & E). apply bind_ok in E as (e & [R2 ->]%normalizeRetentionTime_ok & E).
    apply bind_ok in E as (p & [R3 ->]%normalizeRetentionTime_ok & E). apply bind_ok in E as (? & _ & E).
    apply bind_ok in E as (? & G4%fail_if_ok & E). apply bind_ok in E as (? & G5%fail_if_ok & E). apply bind_ok in E as (? & G6%fail_if_ok & E).
    apply bind_ok in E as ([] & (V & N & _)%check_holds_ok & [= <-]). autorewrite with guards in *.
    destruct (audit_normalizeTimestamp (_ + OnlineRetention)) as [s1|] eqn:E1; [|done]. apply audit_normalize_ok in E1 as [E1 _].
    destruct (audit_normalizeTimestamp (_ + ArchiveRetention)) as [s2|] eqn:E2; [|done]. apply audit_normalize_ok in E2 as [E2 _].
    split; [by split|]. unfold disposition_of, age. destruct (ri_Holds i); [|done]. f_equal. simpl.
    repeat case_match; autorewrite with guards in *; try done; lia.
  - intros [[C R1 R2 R3 F P O A K V N] ->]. rewrite C, (proj2 (Z.ltb_ge _ _) K). cbn [fail_if mbind result_bind].
    change (bool_decide (ClockStateSynchronized = ClockStateRegressed)) with false.
    change (bool_decide (ClockStateSynchronized = ClockStateSynchronized)) with true. cbn [negb fail_if mbind result_bind].
    rewrite (proj2 (Z.eqb_neq _ _) (proj1 R1)), (proj2 (Z.eqb_neq _ _) (proj1 R2)), (proj2 (Z.eqb_neq _ _) (proj1 R3)),
      (proj2 (Z.ltb_ge _ _) F). cbn [orb fail_if mbind result_bind].
    rewrite (proj2 (normalizeRetentionTime_ok _ _) (conj R1 eq_refl)). cbn [mbind result_bind].
    rewrite (proj2 (normalizeRetentionTime_ok _ _) (conj R2 eq_refl)). cbn [mbind result_bind].
    rewrite (proj2 (normalizeRetentionTime_ok _ _) (conj R3 eq_refl)). cbn [mbind result_bind].
    rewrite (proj2 (Z.ltb_ge _ _) (truncate_mono _ _ F)), (proj2 (Z.ltb_ge _ _) P). cbn [fail_if mbind result_bind].
    rewrite (proj2 (audit_normalize_ok _ _) (conj O eq_refl)), (proj2 (audit_normalize_ok _ _) (conj A eq_refl)).
    cbn [is_some negb fail_if mbind result_bind].
    rewrite (proj2 (check_holds_ok _ [])) by (split; [done|split; [done|apply Forall_forall; intros ? _ Hin; by apply elem_of_nil in Hin]]).
    cbn [mbind result_bind]. f_equal. f_equal. unfold disposition_of, age. destruct (ri_Holds i); [|done]. simpl.
    repeat case_match; autorewrite with guards in *; try done; lia.
Qed.

(** Retention is decided by age and holds, and deletion fails closed.
    [EvaluateRetention] answers exactly on complete evidence - a synchronised
    clock that has not gone back, recordable instants with both windows inside
    the calendar, an event not in the future, at most 32 valid and distinct
    holds - and then by the age in milliseconds: any hold keeps the event, up
    to 90 days it is online, up to 365 archived.  So an event is eligible for
    deletion only without a hold, and no earlier than 365 days after it was
    recorded, to the millisecond. *)
Theorem event_retention_exact :
  (forall i d, EvaluateRetention i = Ok d <->
     retention_evidence i /\
     d = RtD true (disposition_of (age i) (ri_Holds i)) (truncate_ms (ri_RecordedAt i) + OnlineRetention)
           (truncate_ms (ri_RecordedAt i) + ArchiveRetention)) /\
  (forall i d, EvaluateRetention i = Ok d ->
     (EligibleForDeletion d = true <-> ri_Holds i = [] /\ ArchiveRetention <= age i) /\
     (rd_disposition d = RetentionDispositionOnline <-> ri_Holds i = [] /\ age i < OnlineRetention)).
Proof.
  split; [apply retention_ok|]. intros i d [_ ->]%retention_ok. unfold EligibleForDeletion. cbn [rd_initialized rd_disposition andb].
  rewrite bool_decide_eq_true. unfold disposition_of. pose proof (eq_refl : OnlineRetention < ArchiveRetention) as L.
  destruct (ri_Holds i); [|split; split; [done|by intros [] |done|by intros []]].
  destruct (Z.ltb_spec (age i) OnlineRetention), (Z.ltb_spec (age i) ArchiveRetention); split; split; try done; try lia; intros [_ ?]; lia.
Qed.

(** ** Valid descriptors *)

Record descriptor_facts (d : ExportDescriptor) : Prop := {
  xf_initialized : xd_initialized d = true;
  xf_stream : ValidateStream (xd_stream d) = true;
  xf_previous : dv_initialized (xd_previousDigest d) = true;
  xf_terminal : dv_initialized (xd_terminalDigest d) = true;
  xf_body : dv_initialized (xd_bodyDigest d) = true;
  xf_count : xd_eventCount d = ((xd_sequenceRange d).2 - (xd_sequenceRange d).1 + 1) mod 2 ^ 64;
  xf_bound : xd_eventCount d <= MaxSegmentEvents;
  xf_time : exists t, audit_parseTimestamp (xd_generatedAt d) = Some t;
  xf_clock : ClockState_known (xd_clockState d) = true;
  xf_algorithm : SignatureAlgorithm_known (xd_algorithm d) = true;
  xf_key : validateKeyID (xd_keyID d) = true;
}.

Lemma NewCheckpoint_ok s n g c : NewCheckpoint s n g = Ok c <-> c = Chk true s n g /\ ValidateCheckpoint c = Ok tt.
Proof.
  unfold NewCheckpoint. rewrite bind_ok. split; [by intros ([] & V & [= <-])|]. intros [-> V]. by exists tt.
Qed.

Lemma descriptor_valid d : ValidateExportDescriptor d = Ok tt -> descriptor_facts d /\
  (exists p, PreviousCheckpoint d = Ok p) /\ (exists t, TerminalCheckpoint d = Ok t) /\
  (xd_sequenceRange d).1 <> 0 /\ (xd_sequenceRange d).1 <= (xd_sequenceRange d).2.
Proof.
  unfold ValidateExportDescriptor. destruct (xd_sequenceRange d) as [first last] eqn:Er. intros E.
  apply bind_ok in E as (? & G1%fail_if_ok & E). apply bind_ok in E as (? & G2%fail_if_ok & E). apply bind_ok in E as (? & G3%fail_if_ok & E).
  apply bind_ok in E as (p & Hp%map_err_ok & E). apply bind_ok in E as (t & Ht%map_err_ok & E). apply bind_ok in E as (? & _ & E).
  apply bind_ok in E as (? & G5%fail_if_ok & E). apply bind_ok in E as (? & G6%fail_if_ok & E). apply fail_if_ok in E.
  autorewrite with guards in *. destruct_and!. cbn [fst snd]. split; [|split; [by exists p|split; [by exists t|split; [done|lia]]]].
  split; rewrite ?Er; cbn [fst snd]; try done; [lia|]. destruct (audit_parseTimestamp _); [by eexists | done].
Qed.

(** The fields within their types. *)
Record descriptor_typed (d : ExportDescriptor) : Prop := {
  xt_first : 0 <= (xd_sequenceRange d).1 <= max_uint64;
  xt_last : 0 <= (xd_sequenceRange d).2 <= max_uint64;
  xt_count : 0 <= xd_eventCount d <= max_uint32;
  xt_previous : digest_wf (xd_previousDigest d);
  xt_terminal : digest_wf (xd_terminalDigest d);
  xt_body : digest_wf (xd_bodyDigest d);
}.

Definition descriptor_wire_typed (w : exportDescriptorWire) : Prop :=
  0 <= (xw_Range w).1 <= max_uint64 /\ 0 <= (xw_Range w).2 <= max_uint64 /\ 0 <= xw_EventCount w <= max_uint32.

Lemma decode_range_members r : 0 <= r.1 <= max_uint64 -> 0 <= r.2 <= max_uint64 -> decode_range (range_members r) = Some r.
Proof.
  destruct r as [a b]. cbn [fst snd]. intros Ha Hb. unfold decode_range, range_members. cbn [fst snd]. known_shape. read_members.
  rewrite get_int_inside by done. cbn [mbind option_bind]. by rewrite get_int_inside.
Qed.

Lemma descriptor_fields_members w extra : descriptor_wire_typed w ->
  descriptor_fields (descriptor_members w ++ extra) = Some w.
Proof.
  unfold descriptor_wire_typed. destruct w as [a b c d e f g h i j k]. cbn [xw_Range xw_EventCount]. intros (Hf & Hl & Hc).
  unfold descriptor_fields, descriptor_members.
  cbn [xw_ContractVersion xw_Stream xw_Range xw_EventCount xw_PreviousDigest xw_TerminalDigest xw_BodyDigest xw_GeneratedAt xw_ClockState
       xw_SignatureAlgorithm xw_KeyID app].
  read_members. rewrite decode_stream_members, decode_range_members by done. cbn [mbind option_bind]. by rewrite get_int_inside.
Qed.

Lemma decode_descriptor_members w : descriptor_wire_typed w -> decode_descriptor (descriptor_members w) = Some w.
Proof.
  intros T. unfold decode_descriptor. pose proof (descriptor_fields_members w [] T) as F. rewrite app_nil_r in F. rewrite F.
  replace (known_members _ _) with true by (vm_compute; reflexivity). done.
Qed.

Lemma decode_manifest_members w s : descriptor_wire_typed w ->
  decode_manifest (descriptor_members w ++ [("signature", JString s)]) = Some (w, s).
Proof.
  intros T. unfold decode_manifest. rewrite (descriptor_fields_members w _ T).
  replace (known_members _ _) with true by (vm_compute; reflexivity). cbn [mbind option_bind]. reflexivity.
Qed.

Lemma descriptor_sized w extra : descriptor_wire_typed w -> ints_sized (JObject extra) -> ints_sized (JObject (descriptor_members w ++ extra)).
Proof.
  intros (Hf & Hl & Hc) Hx. unfold descriptor_members, stream_members, range_members. all_sized.
Qed.

Lemma descriptor_to_wire_typed d : descriptor_typed d -> descriptor_wire_typed (exportDescriptorToWire d).
Proof. by intros []. Qed.

Lemma descriptor_wire d : ValidateExportDescriptor d = Ok tt -> descriptor_typed d -> exportDescriptorFromWire (exportDescriptorToWire d) = Ok d.
Proof.
  intros V [_ _ _ W1 W2 W3]. pose proof (descriptor_valid d V) as [F _]. unfold exportDescriptorFromWire, exportDescriptorToWire.
  cbn [xw_ContractVersion xw_Stream xw_Range xw_EventCount xw_PreviousDigest xw_TerminalDigest xw_BodyDigest xw_GeneratedAt xw_ClockState
       xw_SignatureAlgorithm xw_KeyID].
  rewrite String.eqb_refl, stream_wire by apply F. cbn [negb fail_if map_err mbind result_bind].
  rewrite (proj2 (ParseChainDigest_ok _ (xd_previousDigest d)) (conj (xf_previous _ F) (conj W1 eq_refl))). cbn [map_err mbind result_bind].
  rewrite (proj2 (ParseChainDigest_ok _ (xd_terminalDigest d)) (conj (xf_terminal _ F) (conj W2 eq_refl))). cbn [map_err mbind result_bind].
  assert (ParseExportBodyDigest (ExportBodyDigest_String (xd_bodyDigest d)) = Ok (xd_bodyDigest d)) as ->.
  { apply map_err_ok, parseDigest_iff. split; [apply F | done]. }
  cbn [map_err mbind result_bind].
  change (ClockState_String (xd_clockState d)) with (spelled (xd_clockState d)).
  change (SignatureAlgorithm_String (xd_algorithm d)) with (spelled (xd_algorithm d)). rewrite !closed_of_spelled by apply F.
  replace (Exd _ _ _ _ _ _ _ _ _ _ _) with d; [by rewrite V|]. pose proof (xf_initialized _ F). by destruct d; simpl in *; subst.
Qed.

(** ** The size of a manifest *)

Lemma decimal_digits_length f : forall v, slen (decimal_digits f v) <= Z.of_nat f.
Proof.
  induction f as [|f IH]; intros v; cbn [decimal_digits]; [done|]. destruct (v <? 10); [unfold slen; cbn [String.length]; lia|].
  rewrite slen_app. specialize (IH (v / 10)). change (slen (String _ "")) with 1. lia.
Qed.

Lemma int_text_length v : slen (int_text v) <= 21.
Proof.
  unfold int_text. pose proof (decimal_digits_length 20 v). pose proof (decimal_digits_length 20 (- v)).
  destruct (v <? 0); rewrite ?slen_app; change (slen "-") with 1; lia.
Qed.

Lemma body_digest_quoted d : dv_initialized d = true -> digest_wf d -> slen (quote (ExportBodyDigest_String d)) <= 290.
Proof.
  intros Hi Hw. eapply Z.le_trans; [apply quote_length|]. unfold ExportBodyDigest_String, formatDigest. rewrite Hi, slen_app, b64_encode_length, Hw.
  by vm_compute.
Qed.

Lemma known_text_size {T} `{Closed T} (v : T) n : known v = true -> forallb (fun c => slen (quote (spelled c)) <=? n) candidates = true ->
  slen (quote (spelled v)) <= n.
Proof. intros Hv%known_candidates F. rewrite forallb_forall in F. apply list_elem_of_In, F in Hv. by apply Z.leb_le. Qed.

Lemma stream_size s : ValidateStream s = true -> slen (print (JObject (stream_members (streamToWire s)))) <= 1600.
Proof.
  unfold ValidateStream. destruct s as [[] [| |] w]; cbn [st_initialized st_kind st_workspaceID StreamKind_known andb]; try done; intros V.
  pose proof (validID_length w V). pose proof (quote_length w) as Q.
  change (stream_members _) with ([("kind", JString "Workspace")] ++ omitempty "workspaceId" w). unfold omitempty.
  rewrite (id_nonempty w V). cbn [app]. rewrite print_object. cbn [print_members]. change (print (JString ?x)) with (quote x).
  rewrite !slen_app. change (slen (quote "kind")) with 6. change (slen (quote "Workspace")) with 11. change (slen (quote "workspaceId")) with 13.
  change (slen "{") with 1. change (slen "}") with 1. change (slen ":") with 1. change (slen ",") with 1. change (slen "") with 0. lia.
Qed.

Lemma range_size r : slen (print (JObject (range_members r))) <= 60.
Proof.
  unfold range_members. rewrite print_object. cbn [print_members]. change (print (JInt ?x)) with (int_text x). rewrite !slen_app.
  pose proof (int_text_length r.1). pose proof (int_text_length r.2). change (slen (quote "first")) with 7. change (slen (quote "last")) with 6.
  change (slen "{") with 1. change (slen "}") with 1. change (slen ":") with 1. change (slen ",") with 1. change (slen "") with 0. lia.
Qed.

Lemma timestamp_quoted s t : audit_parseTimestamp s = Some t -> slen (quote s) <= 146.
Proof.
  unfold audit_parseTimestamp. intros E. apply bind_Some in E as (u & [_ ->]%parseTimestamp_ok & _).
  eapply Z.le_trans; [apply quote_length|]. rewrite format_length. done.
Qed.

Lemma key_quoted k : validateKeyID k = true -> slen (quote k) <= 770.
Proof.
  unfold validateKeyID. intros [G _]%andb_true_iff. guards_in G. pose proof (quote_length k). unfold MaxKeyIDBytes in *. lia.
Qed.

Lemma descriptor_size d signed : ValidateExportDescriptor d = Ok tt -> descriptor_typed d -> slen signed <= MaxSignatureBytes ->
  slen (encodeExportDescriptor d) <= MaxCanonicalManifestBytes /\ slen (encodeExportManifest (Exm d signed)) <= MaxCanonicalManifestBytes.
Proof.
  intros V [_ _ _ W1 W2 W3] Hs. pose proof (descriptor_valid d V) as [F _]. destruct (xf_time _ F) as [t Ht].
  unfold encodeExportDescriptor, encodeExportManifest, descriptor_members. cbn [xm_descriptor xm_signature].
  cbn [exportDescriptorToWire xw_ContractVersion xw_Stream xw_Range xw_EventCount xw_PreviousDigest xw_TerminalDigest xw_BodyDigest
       xw_GeneratedAt xw_ClockState xw_SignatureAlgorithm xw_KeyID app].
  pose proof (stream_size _ (xf_stream _ F)) as Hst. pose proof (range_size (xd_sequenceRange d)) as Hr. revert Hst Hr.
  generalize (JObject (stream_members (streamToWire (xd_stream d)))) as js, (JObject (range_members (xd_sequenceRange d))) as jr. intros js jr Hst Hr.
  rewrite !print_object. cbn [print_members]. change (print (JString ?x)) with (quote x). change (print (JInt ?x)) with (int_text x).
  rewrite !slen_app. pose proof (chain_digest_quoted _ (xf_previous _ F) W1).
  pose proof (chain_digest_quoted _ (xf_terminal _ F) W2). pose proof (body_digest_quoted _ (xf_body _ F) W3).
  pose proof (timestamp_quoted _ _ Ht). pose proof (key_quoted _ (xf_key _ F)).
  pose proof (known_text_size (xd_clockState d) 20 (xf_clock _ F) eq_refl) as Hc.
  pose proof (known_text_size (xd_algorithm d) 20 (xf_algorithm _ F) eq_refl) as Ha. cbn [spelled ClockState_closed SignatureAlgorithm_closed] in Hc, Ha.
  pose proof (int_text_length (xd_eventCount d)).
  assert (slen (quote (b64_encode signed)) <= 685) as Hq.
  { rewrite quote_plain, b64_encode_length by (apply b64_encode_forall; intros [[] [] [] [] [] []]; vm_compute; done).
    unfold MaxSignatureBytes in Hs. pose proof (Z.div_le_mono (4 * slen signed + 2) 2050 3 ltac:(lia) ltac:(lia)). change (2050 / 3) with 683 in *. lia. }
  repeat match goal with |- context [slen (quote (String ?a ?b))] =>
    let n := eval vm_compute in (slen (quote (String a b))) in change (slen (quote (String a b))) with n end.
  change (slen (quote audit_ContractVersion)) with 21.
  change (slen "{") with 1. change (slen "}") with 1. change (slen ":") with 1. change (slen ",") with 1. change (slen "") with 0.
  unfold MaxCanonicalManifestBytes. split; lia.
Qed.

(** ** Texts of descriptors and manifests *)

Lemma decode_range_typed ms r : decode_range ms = Some r -> 0 <= r.1 <= max_uint64 /\ 0 <= r.2 <= max_uint64.
Proof.
  unfold decode_range. destruct (known_members _ _); [|done]. intros E. decode_inv E. injection E as <-. unfold max_uint64 in *.
  split; eapply get_int_range; try eassumption; lia.
Qed.

Lemma descriptor_fields_typed ms w : descriptor_fields ms = Some w -> descriptor_wire_typed w.
Proof.
  unfold descriptor_fields. intros E. decode_inv E. injection E as <-. unfold descriptor_wire_typed. cbn [xw_Range xw_EventCount].
  match goal with H : (_ ≫= decode_range) = Some _ |- _ => apply bind_Some in H as (inner & _ & [H1 H2]%decode_range_typed) end.
  split; [done|]. split; [done|]. eapply get_int_range; [|eassumption]. unfold max_uint32. lia.
Qed.

Lemma descriptor_from_wire_typed w d : descriptor_wire_typed w -> exportDescriptorFromWire w = Ok d -> descriptor_typed d.
Proof.
  intros (H1 & H2 & H3) E. unfold exportDescriptorFromWire in E. apply bind_ok in E as (? & _ & E). apply bind_ok in E as (s & _ & E).
  apply bind_ok in E as (p & (_ & W1 & _)%map_err_ok%ParseChainDigest_ok & E). apply bind_ok in E as (t & (_ & W2 & _)%map_err_ok%ParseChainDigest_ok & E).
  apply bind_ok in E as (b & Hb%map_err_ok%map_err_ok%parseDigest_iff & E). apply bind_ok in E as (? & _ & [= <-]). destruct Hb as (_ & W3 & _).
  by split.
Qed.

Lemma MarshalDescriptor_ok d data : descriptor_typed d ->
  MarshalCanonicalExportDescriptor d = Ok data <-> ValidateExportDescriptor d = Ok tt /\ data = encodeExportDescriptor d.
Proof.
  intros T. unfold MarshalCanonicalExportDescriptor. split.
  - intros E. apply bind_ok in E as ([] & V & E). by apply bind_ok in E as (? & _ & [= <-]).
  - intros [V ->]. rewrite V. cbn [mbind result_bind]. rewrite (proj2 (Z.ltb_ge _ _)); [done|].
    apply (descriptor_size d ""); [done|done|]. by vm_compute.
Qed.

Lemma ValidateExportManifest_ok m : ValidateExportManifest m = Ok tt <->
  ValidateExportDescriptor (xm_descriptor m) = Ok tt /\ 0 < slen (xm_signature m) <= MaxSignatureBytes.
Proof.
  unfold ValidateExportManifest. pose proof (slen_nonneg (xm_signature m)). split.
  - intros E. apply bind_ok in E as ([] & V%map_err_ok & E). apply bind_ok in E as (? & G%fail_if_ok & E). apply fail_if_ok in E.
    autorewrite with guards in *. split; [done | lia].
  - intros [V S]. rewrite V. cbn [map_err mbind result_bind]. rewrite (proj2 (Z.eqb_neq _ _)) by lia. cbn [fail_if mbind result_bind].
    by rewrite (proj2 (Z.ltb_ge _ _)) by lia.
Qed.

Lemma BindExportSignature_ok d s m : BindExportSignature d s = Ok m <-> m = Exm d s /\ ValidateExportManifest m = Ok tt.
Proof.
  rewrite ValidateExportManifest_ok. unfold BindExportSignature. pose proof (slen_nonneg s). split.
  - intros E. apply bind_ok in E as ([] & V & E). apply bind_ok in E as (? & G%fail_if_ok & E). apply bind_ok in E as (? & K%fail_if_ok & [= <-]).
    autorewrite with guards in *. split; [done|]. split; [done|]. cbn [xm_signature]. lia.
  - intros (-> & V & S). cbn [xm_descriptor xm_signature] in *. rewrite V. cbn [map_err mbind result_bind].
    rewrite (proj2 (Z.eqb_neq _ _)) by lia. cbn [fail_if mbind result_bind]. by rewrite (proj2 (Z.ltb_ge _ _)) by lia.
Qed.

Lemma MarshalManifest_ok m data : descriptor_typed (xm_descriptor m) ->
  MarshalCanonicalExportManifest m = Ok data <-> ValidateExportManifest m = Ok tt /\ data = encodeExportManifest m.
Proof.
  intros T. unfold MarshalCanonicalExportManifest. split.
  - intros E. apply bind_ok in E as ([] & V & E). by apply bind_ok in E as (? & _ & [= <-]).
  - intros [V ->]. pose proof V as [Vd Hs]%ValidateExportManifest_ok. rewrite V. cbn [mbind result_bind]. rewrite (proj2 (Z.ltb_ge _ _)); [done|].
    destruct m as [d s]. cbn [xm_descriptor xm_signature] in *. apply (descriptor_size d s); [done|done|lia].
Qed.

Lemma unmarshal_descriptor_steps data w d :
  String.eqb data "" = false -> slen data <= MaxCanonicalManifestBytes -> unmarshal decode_descriptor data = Some w ->
  exportDescriptorFromWire w = Ok d -> MarshalCanonicalExportDescriptor d = Ok data -> UnmarshalCanonicalExportDescriptor data = Ok d.
Proof.
  intros H1 H2%Z.ltb_ge H3 H4 H5. unfold UnmarshalCanonicalExportDescriptor. rewrite H1, H2, H3. cbn [fail_if of_option mbind result_bind].
  rewrite H4. cbn [mbind result_bind]. rewrite H5. cbn [mbind result_bind]. by rewrite String.eqb_refl.
Qed.

Lemma unmarshal_manifest_steps data w d s :
  String.eqb data "" = false -> slen data <= MaxCanonicalManifestBytes -> unmarshal decode_manifest data = Some (w, b64_encode s) ->
  exportDescriptorFromWire w = Ok d -> ValidateExportManifest (Exm d s) = Ok tt -> MarshalCanonicalExportManifest (Exm d s) = Ok data ->
  UnmarshalCanonicalExportManifest data = Ok (Exm d s).
Proof.
  intros H1 H2%Z.ltb_ge H3 H4 H5 H6. unfold UnmarshalCanonicalExportManifest. rewrite H1, H2, H3. cbn [fail_if of_option mbind result_bind].
  rewrite H4. cbn [mbind result_bind]. rewrite b64_roundtrip. cbn [of_option mbind result_bind]. rewrite String.eqb_refl.
  cbn [negb fail_if mbind result_bind]. rewrite (proj2 (BindExportSignature_ok d s _) (conj eq_refl H5)). cbn [mbind result_bind].
  rewrite H6. cbn [mbind result_bind]. by rewrite String.eqb_refl.
Qed.

Lemma print_object_nonempty ms : String.eqb (print (JObject ms)) "" = false.
Proof. rewrite print_object. reflexivity. Qed.

(** The texts of descriptors and manifests determine them.  A descriptor that
    validates always has a canonical text within the limit, a manifest too,
    whatever its key, its workspace and its signature of at most 512 bytes; a
    text is read as a descriptor, or as a manifest with its flattened
    descriptor and signature, exactly when it is the text that value is written
    as. *)
Theorem export_text_roundtrip :
  (forall d, ValidateExportDescriptor d = Ok tt -> descriptor_typed d ->
     MarshalCanonicalExportDescriptor d = Ok (encodeExportDescriptor d)) /\
  (forall data d, UnmarshalCanonicalExportDescriptor data = Ok d <-> MarshalCanonicalExportDescriptor d = Ok data /\ descriptor_typed d) /\
  (forall data m, UnmarshalCanonicalExportManifest data = Ok m <->
     MarshalCanonicalExportManifest m = Ok data /\ descriptor_typed (xm_descriptor m)).
Proof.
  split; [intros d V T; by apply MarshalDescriptor_ok|]. split.
  - intros data d. split.
    + unfold UnmarshalCanonicalExportDescriptor. intros E. do 2 (apply bind_ok in E as (? & _ & E)).
      apply bind_ok in E as (w & Hw%of_option_ok & E). apply bind_ok in E as (d' & Hd & E). apply bind_ok in E as (c & M & E).
      apply bind_ok in E as (? & G%fail_if_ok & [= ->]). autorewrite with guards in G. subst c. split; [done|].
      eapply descriptor_from_wire_typed; [|done]. unfold unmarshal, decode_descriptor in Hw. destruct (parse _) as [[]|]; try done.
      destruct (known_members _ _); [|done]. by eapply descriptor_fields_typed.
    + intros [M T]. pose proof M as [V Ed]%MarshalDescriptor_ok; [|done]. apply (unmarshal_descriptor_steps data (exportDescriptorToWire d)); try done.
      * subst data. apply print_object_nonempty.
      * subst data. apply (descriptor_size d ""); [done|done|]. by vm_compute.
      * subst data. unfold unmarshal, encodeExportDescriptor. pose proof (descriptor_to_wire_typed d T) as Tw.
        pose proof (descriptor_sized _ [] Tw I) as S. rewrite app_nil_r in S. rewrite parse_print by done. by apply decode_descriptor_members.
      * by apply descriptor_wire.
  - intros data m. split.
    + unfold UnmarshalCanonicalExportManifest. intros E. do 2 (apply bind_ok in E as (? & _ & E)).
      apply bind_ok in E as ([w enc] & Hw%of_option_ok & E). apply bind_ok in E as (d & Hd & E). apply bind_ok in E as (s & _ & E).
      apply bind_ok in E as (? & _ & E). apply bind_ok in E as (m' & [-> _]%BindExportSignature_ok & E). apply bind_ok in E as (c & M & E).
      apply bind_ok in E as (? & G%fail_if_ok & [= <-]). autorewrite with guards in G. subst c. split; [done|]. cbn [xm_descriptor].
      eapply descriptor_from_wire_typed; [|done]. unfold unmarshal, decode_manifest in Hw. destruct (parse _) as [[]|]; try done.
      destruct (known_members _ _); [|done]. apply bind_Some in Hw as (w' & Hf & Hw). apply bind_Some in Hw as (? & _ & [= <- _]).
      by eapply descriptor_fields_typed.
    + intros [M T]. pose proof M as [V Ed]%MarshalManifest_ok; [|done]. pose proof V as [Vd Hs]%ValidateExportManifest_ok.
      destruct m as [d s]. cbn [xm_descriptor xm_signature] in *. apply (unmarshal_manifest_steps data (exportDescriptorToWire d)); try done.
      * subst data. apply print_object_nonempty.
      * subst data. apply (descriptor_size d s); [done|done|lia].
      * subst data. unfold unmarshal, encodeExportManifest. cbn [xm_descriptor xm_signature]. pose proof (descriptor_to_wire_typed d T) as Tw.
        rewrite parse_print by (by apply descriptor_sized). by apply decode_manifest_members.
      * by apply descriptor_wire.
Qed.

(** ** Verified exports *)

Lemma chain_lookup h rs h' : chain h rs h' -> forall i r, rs !! i = Some r ->
  ev_sequence (rc_event r) = ck_sequence h + Z.of_nat i + 1 /\ ev_stream (rc_event r) = ck_stream h.
Proof.
  induction 1 as [|h r rs h' [_ L2 L3 _ _ _] C IH]; intros [|i] x Hx; try done.
  - simpl in Hx. injection Hx as <-. split; [lia | done].
  - simpl in Hx. apply IH in Hx as [H1 H2]. cbn [next_head ck_sequence ck_stream] in *. split; [lia | done].
Qed.

Lemma chain_range h rs h' : chain h rs h' -> rs <> [] -> Segment_Range rs = Some (ck_sequence h + 1, ck_sequence h + llen rs).
Proof.
  intros C Hn. unfold Segment_Range. destruct rs as [|r rs _] using rev_ind; [done|]. clear Hn.
  rewrite last_snoc, length_app. cbn [List.length].
  assert (exists f, head (rs ++ [r]) = Some f /\ (rs ++ [r]) !! 0%nat = Some f) as (f & -> & Hf) by (destruct rs; by eexists).
  destruct (chain_lookup _ _ _ C _ _ Hf) as [-> _].
  destruct (chain_lookup _ _ _ C (List.length rs) r) as [-> _]; [by apply list_lookup_middle|]. do 2 f_equal; lia.
Qed.

Lemma PreviousCheckpoint_typed d p : descriptor_typed d -> PreviousCheckpoint d = Ok p -> checkpoint_typed p.
Proof.
  intros [_ _ _ W _ _] [-> _]%NewCheckpoint_ok. split; [|done]. cbn [ck_sequence]. unfold uint64_pred, max_uint64.
  pose proof (Z.mod_pos_bound ((xd_sequenceRange d).1 - 1) (2 ^ 64) ltac:(lia)). lia.
Qed.

Lemma VerifyExport_ok m body expected verify : VerifyExport m body expected (Some verify) = Ok tt ->
  let d := xm_descriptor m in exists seg prev,
  ValidateExportManifest m = Ok tt /\ TerminalCheckpoint d = Ok expected /\ PreviousCheckpoint d = Ok prev /\
  xd_bodyDigest d = deriveExportBodyDigest body /\ UnmarshalCanonicalSegment body = Ok seg /\
  Segment_Range seg = Some (xd_sequenceRange d) /\ llen seg = xd_eventCount d /\
  VerifySegment prev seg (Some expected) = (Ok tt, expected) /\
  exists message, MarshalCanonicalExportDescriptor d = Ok message /\ verify (xd_algorithm d) (xd_keyID d) message (xm_signature m) = true.
Proof.
  unfold VerifyExport. intros E. apply bind_ok in E as ([] & V & E). cbv zeta in *. apply bind_ok in E as (v & Hv%of_option_ok & E). injection Hv as <-.
  apply bind_ok in E as (? & _ & E). apply bind_ok in E as (t & Ht%map_err_ok & E). apply bind_ok in E as (? & G1%fail_if_ok & E).
  apply negb_false, Checkpoint_Equal_ok in G1 as [_ ->]. apply bind_ok in E as (? & _ & E). apply bind_ok in E as (? & G2%fail_if_ok & E).
  apply negb_false, equalDigest_true in G2 as (_ & _ & G2). apply bind_ok in E as (seg & Hs%map_err_ok & E).
  apply bind_ok in E as (? & G3%fail_if_ok & E). apply orb_false_iff in G3 as [G3%negb_false%bool_decide_eq_true G4%negb_false%Z.eqb_eq].
  apply bind_ok in E as (p & Hp%map_err_ok & E). apply bind_ok in E as ([] & Hc%map_err_ok & E). apply bind_ok in E as (msg & Hm & E).
  apply fail_if_ok, negb_false in E. exists seg, p. do 7 (split; [done|]). split; [|by eauto].
  destruct (VerifySegment p seg (Some expected)) as [r h] eqn:Es. cbn [fst] in Hc. subst r.
  pose proof Es as Es'%VerifySegment_ok. unfold verify_segment in Es'. do 3 (apply bind_ok in Es' as (? & _ & Es')).
  apply bind_ok in Es' as (h' & _ & Es'). apply bind_ok in Es' as (? & Hx%fail_if_ok & [= <-]). apply orb_false_iff in Hx as [_ Hx%negb_false].
  by apply Checkpoint_Equal_ok in Hx as [_ ->].
Qed.

(** C19: a verified export is bound to its descriptor and its head.  When
    [VerifyExport] accepts, the body is the canonical text of a segment that
    verifies from the descriptor's first checkpoint to the trusted head, every
    one of its events is in the descriptor's stream and sequence range, as many
    as it says, and the verifier accepted the signature over exactly the
    descriptor's canonical text.  Two accepted exports of one range to one head
    have the same body, whoever signed them, unless two records of theirs at
    one place are a SHA-256 collision. *)
Theorem verified_export_bound m body expected verify :
  descriptor_typed (xm_descriptor m) -> VerifyExport m body expected (Some verify) = Ok tt ->
  (let d := xm_descriptor m in exists seg prev,
     MarshalCanonicalSegment seg = Ok body /\ PreviousCheckpoint d = Ok prev /\ VerifySegment prev seg (Some expected) = (Ok tt, expected) /\
     llen seg = xd_eventCount d /\ ck_stream expected = xd_stream d /\ ck_sequence expected = (xd_sequenceRange d).2 /\
     (forall i r, seg !! i = Some r ->
        ev_stream (rc_event r) = xd_stream d /\ ev_sequence (rc_event r) = (xd_sequenceRange d).1 + Z.of_nat i) /\
     verify (xd_algorithm d) (xd_keyID d) (encodeExportDescriptor d) (xm_signature m) = true) /\
  (forall m' body' verify', descriptor_typed (xm_descriptor m') -> VerifyExport m' body' expected (Some verify') = Ok tt ->
     PreviousCheckpoint (xm_descriptor m') = PreviousCheckpoint (xm_descriptor m) ->
     body' = body \/
     exists seg seg' i r r', UnmarshalCanonicalSegment body = Ok seg /\ UnmarshalCanonicalSegment body' = Ok seg' /\
       seg !! i = Some r /\ seg' !! i = Some r' /\ colliding r r').
Proof.
  intros T E. destruct (VerifyExport_ok _ _ _ _ E) as (seg & prev & V & Ht & Hp & Hb & Hs & Hr & Hl & Hc & msg & Hm & Hv).
  pose proof (PreviousCheckpoint_typed _ _ T Hp) as Tp. pose proof Hc as C%VerifySegment_ok. apply verify_segment_ok in C as (Vp & Hle & C & X); [|done].
  pose proof Hs as (Ms & Rt & _)%segment_text_read. split.
  - cbv zeta. exists seg, prev. pose proof Ht as [Ee _]%NewCheckpoint_ok. apply MarshalDescriptor_ok in Hm as [_ ->]; [|done].
    pose proof Hp as [Ep _]%NewCheckpoint_ok. do 4 (split; [done|]). split; [by rewrite Ee|]. split; [by rewrite Ee|]. split; [|done].
    assert (seg <> []) as Hn by (intros ->; done). pose proof (chain_range _ _ _ C Hn) as Hr'. rewrite Hr in Hr'.
    intros i r Hi. destruct (chain_lookup _ _ _ C i r Hi) as [Hq Hst]. split; [rewrite Hst, Ep; done|].
    rewrite Hq. injection Hr' as Hr'. rewrite Hr'. cbn [fst]. lia.
  - intros m' body' verify' T' E' Heq. destruct (VerifyExport_ok _ _ _ _ E') as (seg' & prev' & _ & _ & Hp' & _ & Hs' & _ & _ & Hc' & _).
    assert (prev' = prev) as -> by congruence. pose proof Hc' as C'%VerifySegment_ok. apply verify_segment_ok in C' as (_ & _ & C' & _); [|done].
    pose proof Hs' as (Ms' & Rt' & _)%segment_text_read.
    destruct (chain_determined prev seg seg' expected Vp Tp Rt Rt' C C') as [<-|(i & r & r' & H1 & H2 & H3)]; [left; congruence|].
    right. by exists seg, seg', i, r, r'.
Qed.

Lemma DescribeExport_ok previous seg at_ clock algorithm key d : DescribeExport previous seg at_ clock algorithm key = Ok d ->
  exists terminal body recorded range, seg <> [] /\ VerifySegment previous seg None = (Ok tt, terminal) /\
  MarshalCanonicalSegment seg = Ok body /\ Segment_Range seg = Some range /\
  d = Exd true (ck_stream previous) range (llen seg mod 2 ^ 32) (ck_digest previous) (ck_digest terminal) (deriveExportBodyDigest body)
        recorded clock algorithm key /\ ValidateExportDescriptor d = Ok tt.
Proof.
  unfold DescribeExport. intros E. apply bind_ok in E as (? & G%fail_if_ok & E). apply bind_ok in E as (t & Ht & E).
  apply bind_ok in E as (body & Hb & E). apply bind_ok in E as (r & _ & E). apply bind_ok in E as (range & Hr%of_option_ok & E).
  apply bind_ok in E as ([] & V & [= <-]). exists t, body, r, range. split; [intros ->; done|]. split; [|done].
  destruct (VerifySegment previous seg None) as [[[]|e] h]; cbn in Ht; [by injection Ht as -> | done].
Qed.

Lemma chain_room h rs h' : chain h rs h' -> 0 <= ck_sequence h <= max_uint64 -> 0 <= ck_sequence h' <= max_uint64.
Proof. induction 1 as [|h r rs h' [L1 L2 _ _ _ _] C IH]; [done|]. intros H. apply IH. cbn [next_head ck_sequence]. lia. Qed.

Lemma body_nonempty seg : slen (encodeSegment seg) =? 0 = false.
Proof. rewrite encodeSegment_text. apply Z.eqb_neq. rewrite slen_app. pose proof (slen_nonneg (print_items (record_json <$> seg) true +:+ "]}")).
  assert (0 < slen segmentPrefix) by (vm_compute; reflexivity). lia. Qed.

(** The checks of [VerifyExport], passed one by one. *)
Lemma VerifyExport_accepts m body expected verify seg prev : let d := xm_descriptor m in
  descriptor_typed d -> ValidateExportManifest m = Ok tt -> TerminalCheckpoint d = Ok expected -> PreviousCheckpoint d = Ok prev ->
  xd_bodyDigest d = deriveExportBodyDigest body -> UnmarshalCanonicalSegment body = Ok seg ->
  Segment_Range seg = Some (xd_sequenceRange d) -> llen seg = xd_eventCount d ->
  VerifySegment prev seg (Some expected) = (Ok tt, expected) ->
  verify (xd_algorithm d) (xd_keyID d) (encodeExportDescriptor d) (xm_signature m) = true ->
  VerifyExport m body expected (Some verify) = Ok tt.
Proof.
  cbv zeta. intros T V Ht Hp Hb Hs Hr Hl Hc Hv. pose proof Ht as [_ Vt]%NewCheckpoint_ok.
  pose proof V as [Vd _]%ValidateExportManifest_ok. pose proof Hs as (Ms & _)%segment_text_read.
  pose proof Ms as (_ & Hle & Eb)%MarshalCanonicalSegment_ok. rewrite <- Eb in Hle.
  unfold VerifyExport. rewrite V. cbn [of_option mbind result_bind]. rewrite Vt. cbn [result_ok negb fail_if mbind result_bind].
  rewrite Ht. cbn [map_err mbind result_bind]. rewrite (proj2 (Checkpoint_Equal_ok _ _) (conj Vt eq_refl)). cbn [negb fail_if mbind result_bind].
  assert (slen body =? 0 = false) as -> by (rewrite Eb; apply body_nonempty). rewrite (proj2 (Z.ltb_ge _ _) Hle). cbn [orb fail_if mbind result_bind].
  rewrite Hb, equalDigest_refl. change (dv_initialized (deriveExportBodyDigest body)) with true. cbn [negb fail_if mbind result_bind].
  rewrite Hs. cbn [map_err mbind result_bind]. rewrite Hr, (bool_decide_eq_true_2 _ eq_refl), Hl, Z.eqb_refl. cbn [negb orb fail_if mbind result_bind].
  rewrite Hp. cbn [map_err mbind result_bind]. rewrite Hc. cbn [fst map_err mbind result_bind].
  rewrite (proj2 (MarshalDescriptor_ok _ _ T) (conj Vd eq_refl)). cbn [mbind result_bind]. by rewrite Hv.
Qed.

(** What a description records of the segment. *)
Lemma described_facts previous seg head body recorded range clock algorithm key :
  let d := Exd true (ck_stream previous) range (llen seg mod 2 ^ 32) (ck_digest previous) (ck_digest head) (deriveExportBodyDigest body)
             recorded clock algorithm key in
  checkpoint_typed previous -> seg <> [] -> VerifySegment previous seg None = (Ok tt, head) -> Segment_Range seg = Some range ->
  ValidateExportDescriptor d = Ok tt ->
  descriptor_typed d /\ PreviousCheckpoint d = Ok previous /\ TerminalCheckpoint d = Ok head /\ llen seg = xd_eventCount d /\
  chain previous seg head /\ VerifySegment previous seg (Some head) = (Ok tt, head) /\ Forall record_digests seg.
Proof.
  cbv zeta. intros T Hn Hc Hr V. pose proof Hc as E%VerifySegment_ok. apply verify_segment_ok in E as (Vp & Hl & C & _); [|done].
  pose proof Vp as (Hi & Vs & Vd & _)%ValidateCheckpoint_ok. destruct (chain_head _ _ _ C Hi Vd (proj2 T)) as (I1 & I2 & W).
  destruct (chain_sequence _ _ _ C) as [Q S]. pose proof (chain_room _ _ _ C (proj1 T)) as Hroom. rewrite (chain_range _ _ _ C Hn) in Hr.
  injection Hr as <-. assert (0 < llen seg) as H0 by (destruct seg; [done|cbn [List.length]; lia]).
  destruct (descriptor_valid _ V) as (_ & (p & Hp) & (t & Ht) & _). pose proof (proj1 T) as T1.
  assert (t = head) as ->.
  { pose proof Ht as [-> _]%NewCheckpoint_ok. cbn [xd_stream xd_sequenceRange xd_terminalDigest snd]. rewrite <- Q, <- S. destruct head. simpl in *. congruence. }
  assert (p = previous) as ->.
  { pose proof Hp as [-> _]%NewCheckpoint_ok. cbn [xd_stream xd_sequenceRange xd_previousDigest fst].
    rewrite uint64_pred_succ by lia. destruct previous. simpl in *. congruence. }
  assert (llen seg mod 2 ^ 32 = llen seg) as Hm by (unfold MaxSegmentEvents in Hl; rewrite Z.mod_small; lia).
  split. { split; cbn [xd_sequenceRange xd_eventCount xd_previousDigest xd_terminalDigest xd_bodyDigest fst snd];
      [lia | lia | | apply T | exact W | apply digestFromHasher_wf]. unfold MaxSegmentEvents, max_uint32 in *. lia. }
  do 2 (split; [done|]). split; [by rewrite Hm|]. split; [done|]. split; [|by apply (chain_digests _ _ _ C Vd (proj2 T))].
  apply VerifySegment_ok, verify_segment_ok; [done|]. do 3 (split; [done|]). intros e [= <-]. apply Checkpoint_Equal_ok.
  by pose proof Ht as [_ Vt]%NewCheckpoint_ok.
Qed.

(** What is described and signed verifies.  A segment that was described from
    a checkpoint, with a signature bound to the descriptor that the verifier
    accepts over its canonical text, verifies as an export against the head of
    that segment, with the segment's own canonical text as the body. *)
Theorem described_export_verifies previous seg at_ clock algorithm key d signature m verify :
  checkpoint_typed previous -> records_typed seg ->
  DescribeExport previous seg at_ clock algorithm key = Ok d -> BindExportSignature d signature = Ok m ->
  verify algorithm key (encodeExportDescriptor d) signature = true ->
  exists body head, MarshalCanonicalSegment seg = Ok body /\ VerifySegment previous seg None = (Ok tt, head) /\
    VerifyExport m body head (Some verify) = Ok tt.
Proof.
  intros T Rt D [-> Vm]%BindExportSignature_ok Hv.
  destruct (DescribeExport_ok _ _ _ _ _ _ _ D) as (head & body & recorded & range & Hn & Hc & Hb & Hr & Ed & V). subst d.
  destruct (described_facts _ _ _ _ _ _ _ _ _ T Hn Hc Hr V) as (Td & Hp & Ht & Hl & C & Hx & Hd).
  exists body, head. do 2 (split; [done|]). apply (VerifyExport_accepts _ body head verify seg previous); try done.
  by apply segment_text_read.
Qed.

(** ** Samples *)

Definition export_time : time := (unix_epoch_days + 20455) * day.

Definition sample_described : result error ExportDescriptor :=
  DescribeExport audit_genesis audit_segment export_time ClockStateSynchronized SignatureAlgorithmEd25519 "key-1".
Definition sample_descriptor : ExportDescriptor :=
  match sample_described with
  | Ok d => d
  | Err _ => Exd false audit_stream (0, 0) 0 digest_zero digest_zero digest_zero "" ClockStateSynchronized SignatureAlgorithmEd25519 ""
  end.
Definition sample_manifest : ExportManifest := Exm sample_descriptor "signature".
Definition sample_body : string := match MarshalCanonicalSegment audit_segment with Ok body => body | Err _ => "" end.

(** A verifier that accepts one signature under one key. *)
Definition sample_verifier : SignatureVerifier := fun _ key _ signature => String.eqb key "key-1" && String.eqb signature "signature".

Lemma sample_described_ok : sample_described = Ok sample_descriptor.
Proof. vm_compute. reflexivity. Qed.

Lemma described_export_verifies_witness :
  exists body head, MarshalCanonicalSegment audit_segment = Ok body /\ VerifySegment audit_genesis audit_segment None = (Ok tt, head) /\
    VerifyExport sample_manifest body head (Some sample_verifier) = Ok tt.
Proof.
  apply (described_export_verifies audit_genesis audit_segment export_time ClockStateSynchronized SignatureAlgorithmEd25519 "key-1"
           sample_descriptor "signature" sample_manifest sample_verifier audit_genesis_typed audit_segment_typed sample_described_ok).
  - vm_compute. reflexivity.
  - reflexivity.
Defined.

Lemma sample_verified : VerifyExport sample_manifest sample_body audit_head (Some sample_verifier) = Ok tt.
Proof. vm_compute. reflexivity. Qed.

Lemma sample_descriptor_typed : descriptor_typed sample_descriptor.
Proof.
  assert (xd_sequenceRange sample_descriptor = (1, 2) /\ xd_eventCount sample_descriptor = 2) as [Er Ec] by (vm_compute; split; reflexivity).
  constructor; rewrite ?Er, ?Ec; cbn [fst snd]; unfold max_uint64, max_uint32; try lia; vm_compute; reflexivity.
Qed.

Lemma verified_export_bound_witness :
  exists seg prev, MarshalCanonicalSegment seg = Ok sample_body /\ PreviousCheckpoint sample_descriptor = Ok prev /\
    VerifySegment prev seg (Some audit_head) = (Ok tt, audit_head).
Proof.
  destruct (proj1 (verified_export_bound sample_manifest sample_body audit_head sample_verifier sample_descriptor_typed sample_verified))
    as (seg & prev & H1 & H2 & H3 & _).
  exists seg, prev. split; [exact H1|]. split; [exact H2 | exact H3].
Defined.

Lemma export_text_roundtrip_witness :
  MarshalCanonicalExportDescriptor sample_descriptor = Ok (encodeExportDescriptor sample_descriptor) /\
  UnmarshalCanonicalExportDescriptor (encodeExportDescriptor sample_descriptor) = Ok sample_descriptor.
Proof.
  destruct export_text_roundtrip as (M & U & _).
  assert (MarshalCanonicalExportDescriptor sample_descriptor = Ok (encodeExportDescriptor sample_descriptor)) as Hm.
  { apply M; [vm_compute; reflexivity | exact sample_descriptor_typed]. }
  split; [exact Hm|]. apply U. split; [exact Hm | exact sample_descriptor_typed].
Defined.

(** One year to the day after an event it may be deleted; a millisecond before
    it may not. *)
Definition retention_sample (age : Z) : RetentionInput :=
  RtI export_time (export_time + age) (export_time + age) ClockStateSynchronized [].

Lemma event_retention_exact_witness :
  match EvaluateRetention (retention_sample ArchiveRetention), EvaluateRetention (retention_sample (ArchiveRetention - millisecond)) with
  | Ok d, Ok d' => EligibleForDeletion d = true /\ EligibleForDeletion d' = false
  | _, _ => False
  end.
Proof.
  destruct (EvaluateRetention (retention_sample ArchiveRetention)) as [d|] eqn:E; [|vm_compute in E; discriminate E].
  destruct (EvaluateRetention (retention_sample (ArchiveRetention - millisecond))) as [d'|] eqn:E'; [|vm_compute in E'; discriminate E'].
  split.
  - apply (proj2 event_retention_exact _ _ E). split; [reflexivity | vm_compute; discriminate].
  - apply not_true_iff_false. intros Hd. apply (proj2 event_retention_exact _ _ E') in Hd as [_ Hd]. vm_compute in Hd. apply Hd. reflexivity.
Defined.
